(* ===== verification/_CoqProject ===== *)
-Q . S2P
Prelude.v
Bytes.v
Config.v
CircuitBreaker.v
Classifier.v
Fingerprint.v
QueryCache.v
Rules.v
TokenBucket.v
Rewriter.v
StmtShadow.v
MysqlCodec.v
MysqlResponse.v
Auth.v
Handshake.v
Pool.v
TextRows.v
Health.v
GroupReplication.v
Tracer.v
QueryStats.v
Router.v
Ownership.v
PoolTasks.v
UserRegistry.v
ProxyProtocol.v
Session.v
SessionProps.v
Isolation.v
PgWire.v
PgAuth.v
PgServer.v
PgServerProps.v
Analytics.v
Alerts.v
PgHealth.v
ConfigStore.v
ConfigStoreProps.v
DashboardAuth.v
Guesses.v
ConfigAdmin.v
ConfigAdminProps.v
FloatText.v
Tls.v
Connect.v
IndexAdvisor.v
AuditLog.v
Server.v
MysqlClients.v
PgClients.v
Startup.v
Metrics.v
DashboardViews.v
Grafana.v
Mcp.v
