(* ===== verification/Prelude.v ===== *)
(** * TurbineProxy: shared prelude (root of the development)

    TurbineProxy sits between the clients of a MySQL or PostgreSQL database and its servers.
    A client logs in to the proxy; its statements are classified, checked, rewritten, matched
    against rules and sent to the primary or to a replica over pooled connections; background
    tasks check the servers and decide which of them serve.  This development models that
    path, from the bytes of a packet to the answer, and the tasks beside it, function by
    function, and proves what the parts promise.  File names of the source are below src/src/.

    ** The files and what they model

    - Prelude (this file): machine integers, the state and error monad [SE], steps of a
      relation and invariants by rule induction, options, lists, hash maps whose order of
      iteration is unspecified ([MapOrder]).
    - Bytes: the functions of the standard library on text and byte slices.
    - Statements: Classifier (proxy/classifier.rs), Fingerprint (proxy/fingerprint.rs), Rules
      (proxy/rules.rs), Rewriter (proxy/rewriter.rs), QueryCache (proxy/cache.rs), StmtShadow
      (proxy/stmt_shadow.rs).  TokenBucket is the token bucket of one rule of Rules under the
      calls of many sessions at once.
    - The MySQL protocol: MysqlCodec (protocol/mysql/packet.rs), MysqlResponse and Handshake
      (protocol/mysql/mod.rs, handshake.rs), Auth (auth.rs, proxy/auth_cache.rs), TextRows
      (the readers of result sets in health.rs and group_replication.rs).
    - The PostgreSQL protocol (protocol/postgres/mod.rs): PgWire (messages, commands,
      responses) and PgAuth (start-up, passwords, SCRAM).
    - Backends: CircuitBreaker (proxy/circuit_breaker.rs), Pool (proxy/pool.rs), Health
      (proxy/health.rs), PgHealth (proxy/pg_health.rs), GroupReplication
      (proxy/group_replication.rs).  PoolTasks is one pool of Pool under many tasks at once.
    - The router: Router (proxy/router.rs); Ownership accounts for the connections that it and
      the pools take in and hand out.
    - Sessions: ProxyProtocol, Session and its theorems SessionProps (proxy/server.rs,
      proxy/security.rs), PgServer and PgServerProps (proxy/pg_server.rs), UserRegistry,
      Tracer, QueryStats (proxy/user_registry.rs, tracer.rs, n1.rs), AuditLog (the logger of
      proxy/security.rs), Tls (protocol/mysql/tls.rs), Connect (sockets and channels to
      backends, from protocol/mysql/mod.rs and postgres/mod.rs).  Isolation puts many
      sessions, the router and the background tasks together, for any server that keeps its
      interface; MysqlClients and PgClients show that both servers do.
    - The process: Server (the parts of both servers, the accept loops and the shutdown of
      proxy/server.rs and pg_server.rs), Startup (main.rs: command line, wizard, what is
      started, signals).
    - What is measured: Analytics (analytics/, proxy/histogram.rs, proxy/heatmap.rs, the loops
      of main.rs), Alerts (proxy/app_analytics.rs, error_events.rs, regression.rs),
      IndexAdvisor (analytics/advisor.rs).
    - Administration: Config (config/mod.rs, config/secret.rs), ConfigStore and ConfigStoreProps
      (config/store.rs), DashboardAuth (dashboard/mod.rs and the log-in of routes.rs), Guesses
      (many of these log-ins at once), ConfigAdmin and ConfigAdminProps
      (dashboard/routes_config.rs and what changes something in routes.rs).
    - Pages: DashboardViews (what only shows something in dashboard/routes.rs and
      routes_errors.rs), Metrics (dashboard/prometheus.rs), Grafana (dashboard/grafana.rs), Mcp
      (dashboard/mcp.rs), FloatText (the printing and parsing of floating point numbers that
      they and the advisor use).

    ** How the parts interact

    A session ([Session.turn], [PgServer.turn]) handles one command of its client.  It holds
    the connections of its transaction, its statements and its hint, and passes them to the
    router ([Router.route_query], which the source gives them by reference).  The router asks
    Classifier, Rewriter, Rules and QueryCache about the statement and takes a connection from
    Pool; the pool asks CircuitBreaker whether a server may be used.  Health, PgHealth and
    GroupReplication write what the pool reads: health, lag, the failover index, the index of
    the elected primary.  Shared state that the source keeps behind locks and atomics is a
    value threaded through the operations.

    The outside is always an argument.  Servers are the class [Pool.BackendIO]: what a
    connection attempt, a query or a ping gives is up to a world [W] threaded through every
    call; clients are a list of commands or of bytes, and a function that tells which writes
    reach them.  Clocks and random draws are read from the world or are arguments.  Libraries
    are classes: [Rules.RegexEngine], [Auth.Hashes], [PgAuth.TextCodecs],
    [MysqlCodec.Compressor], [Bytes.CaseTable]; where a theorem needs a law of one (a round
    trip, the length of a digest) the law is a class of its own, and a witness instantiates it.
    That connections can be told apart is such a law, [Ownership.Tracked]; any servers at all
    satisfy it once their connections are numbered ([Ownership.counted_tracked]).

    ** State and operations

    A struct of the source is a Record with the fields' names, an enum an Inductive, a method
    a function from the old state to the result and the new state.  Fallible and stateful
    code is in the monad [SE] (a result and a state, where an error keeps the state reached,
    as [?] does in the source); a panic that a theorem is about is an error of its own or the
    value [None].  Counters keep their width: [u8], [u32], [u64] and [usize] wrap, durations
    are numbers of nanoseconds and floating point numbers are binary64.

    Sequences of calls are step relations ([Pool.pool_step], [SessionProps.session_step]
    and their like), with invariants by rule induction over [steps], or folds of a step
    ([Isolation.act]).  A call runs to its end before the next begins, except in three files.
    In PoolTasks the calls of many tasks on one pool interleave wherever the source awaits,
    and a task may be dropped at any of these places; in TokenBucket the calls on one bucket
    interleave between any two accesses to its atomics; in Guesses the log-ins interleave
    between the two times they take the lock.  Calls that are not disturbed are shown to be
    the calls of Pool, Rules and DashboardAuth.  Tasks that interleave inside one turn of a
    session are not modelled.

    ** What the theorems show

    - Sessions: whoever has a session has authenticated; every command is answered exactly
      once; a statement of a transaction is sent unchanged, once, on the connection of the
      transaction; a read-only user writes nothing through text queries; the state of a
      session is consistent in every reachable state.  With any number of clients no backend
      connection is held twice, and nothing is sent on a connection that another client holds.
    - Protocols: a collector takes exactly one response off the stream; packets that were
      split are put together; what is encoded is decoded; the SCRAM exchange authenticates
      both sides; what a channel to a backend has verified.
    - Statements: the table-driven classifier is prefix and substring search; fingerprints do
      not change under fingerprinting; the first applicable rule wins, and a token bucket admits
      no more than its rate and what a delayed refill puts back; cached results are never stale or older than allowed.
    - Backends: connections that are handed out are clean and of the right database, under
      every interleaving of tasks each is with one task or idle, only a task that is dropped
      takes one out of the count, and no task is stuck; reads go to healthy replicas; a breaker opens, refuses and probes; a failover happens at the
      threshold and not before, for both protocols; lag and membership are read exactly.
    - Measurements: no report is counted twice and none is lost but with a flush that fails or
      a task that dies, no gauge drifts, alerts are bounded.
    - Administration: a page behind the log-in needs a session that was issued for the right
      credentials, of an administrator if it changes anything, and guessing is limited but for log-ins in flight together; the
      store logs every change, each secret it takes can be read back and none is shown; the
      running rules follow the store once they agree with it, and the nodes of a cluster a reload.
    - The process: neither listener runs more sessions than it may, the counter of connections
      is exact but for panics, and a shutdown ends in time; the tasks that are started are
      those of the configuration.
    - Pages: rows of the query page are exact sums and the largest ones, a panel shows the
      earliest points of its range, no series is written twice, a percentile is the bound of
      its bucket, the tools that are listed are those that can be called; an audit line and a
      line of the key log can be read back; a suggested index is of columns that a plan names.
    - What the code does not do as meant is proved as such: the theorems with names such as
      [Pool.gr_round_trip_corrupts_counters] or [PgHealth.any_t_is_recovery].

    ** Fuel

    A loop over text or over a stream takes the length of what is left as fuel; a lemma beside
    it shows that each turn consumes a byte, so the result does not depend on the fuel from
    there on ([Fingerprint], [Classifier], [MysqlCodec], [StmtShadow], [UserRegistry]).  A
    loop that ends when its peer hangs up takes the commands or messages that will arrive.

    ** Not modelled

    The encryption of TLS, the parsers of TOML, PEM and times and the printer of JSON are
    libraries and enter as parameters, the parser of TOML as the structures of the file with
    their defaults filled in.  Sockets are opened by the operating system: whether that
    succeeds is an argument.  build.rs builds the web page.  Log lines and what the wizard
    prints are left out, except where writing a line panics. *)

From Stdlib Require Export ZArith Lia.
From stdpp Require Export prelude gmap strings list numbers.
#[export] Set Default Goal Selector "!".

Declare Scope proxy_scope.
Delimit Scope proxy_scope with proxy.
Open Scope Z_scope.
Open Scope proxy_scope.

(** ** Machine integers

    A [w]-bit unsigned integer is a [Z] in [0, 2^w); atomic [fetch_add] and
    [fetch_sub] wrap, and so do the plain [+] of a release build. *)

Definition wrap (w z : Z) : Z := z mod 2 ^ w.
Definition u8 (z : Z) : Z := wrap 8 z.
Definition u16 (z : Z) : Z := wrap 16 z.
Definition u32 (z : Z) : Z := wrap 32 z.
Definition u64 (z : Z) : Z := wrap 64 z.
(** [usize] on the 64-bit targets the project ships. *)
Definition usize (z : Z) : Z := wrap 64 z.
Definition in_width (w z : Z) : Prop := 0 <= z < 2 ^ w.
(** [usize::MAX], the sentinel the pool uses for "the primary". *)
Definition usize_max : Z := 2 ^ 64 - 1.
(** [a.saturating_sub(b)] on an unsigned type. *)
Definition sat_sub (a b : Z) : Z := Z.max 0 (a - b).
(** [a.saturating_add(b)] on [u64]. *)
Definition u64_sat_add (a b : Z) : Z := Z.min (2 ^ 64 - 1) (a + b).
(** An [as i64] cast of a 64-bit pattern. *)
Definition i64 (z : Z) : Z := (z + 2 ^ 63) mod 2 ^ 64 - 2 ^ 63.

Lemma wrap_range w z : 0 <= w -> in_width w (wrap w z).
Proof. intros Hw. unfold in_width, wrap. apply Z.mod_pos_bound. lia. Qed.

Lemma wrap_small w z : in_width w z -> wrap w z = z.
Proof. intros H. apply Z.mod_small. exact H. Qed.

Lemma wrap_idem w z : 0 <= w -> wrap w (wrap w z) = wrap w z.
Proof. intros Hw. apply wrap_small, wrap_range, Hw. Qed.

Lemma wrap_succ w z : in_width w z -> z + 1 < 2 ^ w -> wrap w (z + 1) = z + 1.
Proof. intros [??] ?. apply wrap_small. unfold in_width. lia. Qed.

Lemma wrap_pred w z : in_width w z -> 0 < z -> wrap w (z - 1) = z - 1.
Proof. intros [??] ?. apply wrap_small. unfold in_width. lia. Qed.

(** Decrementing an unsigned counter at zero gives the largest value. *)
Lemma wrap_underflow w : 0 < w -> wrap w (0 - 1) = 2 ^ w - 1.
Proof.
  intros Hw. unfold wrap.
  assert (2 ^ 1 <= 2 ^ w) by (apply Z.pow_le_mono_r; lia).
  rewrite <- (Z.mod_small (2 ^ w - 1) (2 ^ w)) by lia.
  replace (0 - 1) with (2 ^ w - 1 + (-1) * 2 ^ w) by lia.
  by rewrite Z.mod_add by lia.
Qed.

Lemma wrap_add_l w a b : wrap w (wrap w a + b) = wrap w (a + b).
Proof. unfold wrap. by rewrite Zplus_mod_idemp_l. Qed.

Lemma wrap_add_r w a b : wrap w (a + wrap w b) = wrap w (a + b).
Proof. unfold wrap. by rewrite Zplus_mod_idemp_r. Qed.

Lemma sat_sub_nonneg a b : 0 <= sat_sub a b.
Proof. unfold sat_sub. lia. Qed.

(** ** Results and the state-and-error monad

    [Result<T, E>] of the source.  Effects performed before an error stay
    performed, so the state is returned in both cases. *)

Inductive result (E A : Type) : Type :=
| Ok (a : A)
| Err (e : E).
Arguments Ok {E A} a.
Arguments Err {E A} e.

Definition is_ok {E A} (r : result E A) : bool :=
  match r with Ok _ => true | Err _ => false end.
Definition is_err {E A} (r : result E A) : bool := negb (is_ok r).

Definition SE (S E A : Type) : Type := S -> result E A * S.

#[export] Instance se_ret {S E} : MRet (SE S E) := fun A a s => (Ok a, s).
#[export] Instance se_bind {S E} : MBind (SE S E) :=
  fun A B f m s =>
    match m s with
    | (Ok a, s') => f a s'
    | (Err e, s') => (Err e, s')
    end.

Definition se_fail {S E A} (e : E) : SE S E A := fun s => (Err e, s).
Definition se_get {S E} : SE S E S := fun s => (Ok s, s).
Definition se_gets {S E A} (f : S -> A) : SE S E A := fun s => (Ok (f s), s).
Definition se_modify {S E} (f : S -> S) : SE S E unit := fun s => (Ok tt, f s).
(** [match m { Ok .. Err .. }]: run [m] and hand its result on as a value. *)
Definition se_try {S E A} (m : SE S E A) : SE S E (result E A) :=
  fun s => let (r, s') := m s in (Ok r, s').

(** Run the action for every element in order; stops at the first error. *)
Fixpoint se_iter {S E A} (f : A -> SE S E unit) (l : list A) : SE S E unit :=
  match l with
  | [] => mret tt
  | x :: l' => f x ≫= fun _ => se_iter f l'
  end.

Lemma se_bind_ok {S E A B} (m : SE S E A) (f : A -> SE S E B) s a s' :
  m s = (Ok a, s') -> (m ≫= f) s = f a s'.
Proof. intros H. unfold mbind, se_bind. by rewrite H. Qed.

Lemma se_bind_err {S E A B} (m : SE S E A) (f : A -> SE S E B) s e s' :
  m s = (Err e, s') -> (m ≫= f) s = (Err e, s').
Proof. intros H. unfold mbind, se_bind. by rewrite H. Qed.

Lemma se_bind_inv {S E A B} (m : SE S E A) (f : A -> SE S E B) s r s' :
  (m ≫= f) s = (r, s') ->
  (exists a s1, m s = (Ok a, s1) /\ f a s1 = (r, s')) \/ (exists e, m s = (Err e, s') /\ r = Err e).
Proof.
  unfold mbind, se_bind. destruct (m s) as [[a|e] s1]; intros H; [left; eauto|].
  injection H as <- <-. right. eauto.
Qed.

Lemma se_bind_assoc {S E A B C} (m : SE S E A) (f : A -> SE S E B) (g : B -> SE S E C) s :
  ((m ≫= f) ≫= g) s = (m ≫= fun a => f a ≫= g) s.
Proof. unfold mbind, se_bind. by destruct (m s) as [[a|e] s']. Qed.

(** An invariant kept by every step of a computation is kept by the whole of it. *)
Definition preserves {S E A} (I : S -> Prop) (m : SE S E A) : Prop :=
  forall s, I s -> I (snd (m s)).

Lemma preserves_bind {S E A B} (I : S -> Prop) (m : SE S E A) (f : A -> SE S E B) :
  preserves I m -> (forall a, preserves I (f a)) -> preserves I (m ≫= f).
Proof.
  intros Hm Hf s Hs. unfold mbind, se_bind. specialize (Hm s Hs).
  destruct (m s) as [[a|e] s']; simpl in *; [by apply Hf | done].
Qed.

Lemma preserves_ret {S E A} (I : S -> Prop) (a : A) :
  preserves I (mret a : SE S E A).
Proof. intros s Hs. exact Hs. Qed.

Lemma preserves_fail {S E A} (I : S -> Prop) (e : E) :
  preserves I (se_fail e : SE S E A).
Proof. intros s Hs. exact Hs. Qed.

Lemma preserves_gets {S E A} (I : S -> Prop) (f : S -> A) :
  preserves I (se_gets f : SE S E A).
Proof. intros s Hs. exact Hs. Qed.

Lemma preserves_modify {S E} (I : S -> Prop) (f : S -> S) :
  (forall s, I s -> I (f s)) -> preserves I (se_modify f : SE S E unit).
Proof. intros Hf s Hs. by apply Hf. Qed.

Lemma preserves_try {S E A} (I : S -> Prop) (m : SE S E A) :
  preserves I m -> preserves I (se_try m).
Proof.
  intros Hm s Hs. unfold se_try. specialize (Hm s Hs).
  by destruct (m s).
Qed.

Lemma preserves_iter {S E A} (I : S -> Prop) (f : A -> SE S E unit) l :
  (forall a, preserves I (f a)) -> preserves I (se_iter f l).
Proof.
  intros Hf. induction l as [|x l IH]; simpl.
  - apply preserves_ret.
  - by apply preserves_bind.
Qed.

(** A part of the state that a computation leaves alone. *)
Definition keeps {S E A X} (f : S -> X) (m : SE S E A) : Prop := forall s, f (snd (m s)) = f s.

Lemma keeps_bind {S E A B X} (f : S -> X) (m : SE S E A) (k : A -> SE S E B) :
  keeps f m -> (forall a, keeps f (k a)) -> keeps f (m ≫= k).
Proof.
  intros Hm Hk s. unfold mbind, se_bind. specialize (Hm s).
  destruct (m s) as [[a|e] s1]; cbn [snd] in *; [by rewrite (Hk a s1) | done].
Qed.

Lemma keeps_ret {S E A X} (f : S -> X) (a : A) : keeps f (mret a : SE S E A).
Proof. done. Qed.
Lemma keeps_fail {S E A X} (f : S -> X) (e : E) : keeps f (se_fail e : SE S E A).
Proof. done. Qed.
Lemma keeps_get {S E X} (f : S -> X) : keeps f (se_get : SE S E S).
Proof. done. Qed.
Lemma keeps_modify {S E X} (f : S -> X) (g : S -> S) :
  (forall s, f (g s) = f s) -> keeps f (se_modify g : SE S E unit).
Proof. intros H s. apply H. Qed.
Lemma keeps_try {S E A X} (f : S -> X) (m : SE S E A) : keeps f m -> keeps f (se_try m).
Proof. intros Hm s. unfold se_try. specialize (Hm s). by destruct (m s). Qed.

Create HintDb keeps discriminated.
#[export] Hint Resolve keeps_bind keeps_ret keeps_fail keeps_get keeps_try : keeps.
(** Proves that a computation keeps a part of the state, by its structure. *)
Ltac keeps_tac :=
  repeat first
    [ progress intros
    | solve [auto with keeps nocore]
    | apply keeps_bind
    | match goal with |- keeps _ (match ?x with _ => _ end) => destruct x end
    | match goal with |- keeps _ (let (_, _) := ?x in _) => destruct x end ].

(** A Hoare triple: what holds after a normal end and what after an early one. *)
Definition triple {S E A} (P : S -> Prop) (m : SE S E A) (Q : A -> S -> Prop) (X : E -> S -> Prop) : Prop :=
  forall s, P s -> match m s with (Ok a, s') => Q a s' | (Err e, s') => X e s' end.

Lemma triple_bind {S E A B} (P : S -> Prop) (m : SE S E A) (R : A -> S -> Prop) (f : A -> SE S E B) Q X :
  triple P m R X -> (forall a, triple (R a) (f a) Q X) -> triple P (m ≫= f) Q X.
Proof.
  intros Hm Hf s Hs. unfold mbind, se_bind. specialize (Hm s Hs).
  destruct (m s) as [[a|e] s1]; [by apply Hf | done].
Qed.

Lemma triple_assoc {S E A B C} (P : S -> Prop) (m : SE S E A) (f : A -> SE S E B) (g : B -> SE S E C) Q X :
  triple P (m ≫= fun a => f a ≫= g) Q X -> triple P ((m ≫= f) ≫= g) Q X.
Proof. intros H s Hs. rewrite se_bind_assoc. by apply H. Qed.

Lemma triple_conseq {S E A} (P P' : S -> Prop) (m : SE S E A) (Q Q' : A -> S -> Prop) (X X' : E -> S -> Prop) :
  triple P m Q X -> (forall s, P' s -> P s) -> (forall a s, Q a s -> Q' a s) -> (forall e s, X e s -> X' e s) ->
  triple P' m Q' X'.
Proof.
  intros Hm HP HQ HX s Hs. specialize (Hm s (HP s Hs)). destruct (m s) as [[a|e] s1]; [by apply HQ | by apply HX].
Qed.

Lemma triple_ret {S E A} (P : S -> Prop) (a : A) (X : E -> S -> Prop) : triple P (mret a : SE S E A) (fun _ => P) X.
Proof. intros s Hs. exact Hs. Qed.
Lemma triple_get {S E} (P : S -> Prop) (X : E -> S -> Prop) :
  triple P (se_get : SE S E S) (fun a s => P s /\ a = s) X.
Proof. intros s Hs. split; [exact Hs | reflexivity]. Qed.
Lemma triple_get_bind {S E B} (P : S -> Prop) (f : S -> SE S E B) Q X :
  (forall s, P s -> triple P (f s) Q X) -> triple P (se_get ≫= f) Q X.
Proof. intros Hf s Hs. exact (Hf s Hs s Hs). Qed.
Lemma triple_fail {S E A} (P : S -> Prop) (e : E) (Q : A -> S -> Prop) :
  triple P (se_fail e : SE S E A) Q (fun e' s => e' = e /\ P s).
Proof. intros s Hs. split; [reflexivity | exact Hs]. Qed.
Lemma triple_keeps {S E A X} (f : S -> X) (x : X) (m : SE S E A) :
  keeps f m -> triple (fun s => f s = x) m (fun _ s => f s = x) (fun _ s => f s = x).
Proof. intros Hm s <-. specialize (Hm s). by destruct (m s) as [[a|e] s1]. Qed.

Create HintDb proxy discriminated.
#[export] Hint Resolve preserves_bind preserves_ret preserves_fail preserves_gets
  preserves_try preserves_iter : proxy.

(** ** Transition systems

    Reflexive and transitive closure of a step relation, with the induction
    principle that lifts a step invariant to every reachable state. *)

Section Steps.
Context {St : Type} (step : St -> St -> Prop).

Inductive steps : St -> St -> Prop :=
| steps_refl s : steps s s
| steps_next s1 s2 s3 : step s1 s2 -> steps s2 s3 -> steps s1 s3.

Lemma steps_one s1 s2 : step s1 s2 -> steps s1 s2.
Proof. intros H. eapply steps_next; [exact H | apply steps_refl]. Qed.

Lemma steps_trans s1 s2 s3 : steps s1 s2 -> steps s2 s3 -> steps s1 s3.
Proof. induction 1; eauto using steps_next. Qed.

Lemma steps_invariant (I : St -> Prop) :
  (forall s1 s2, I s1 -> step s1 s2 -> I s2) ->
  forall s1 s2, steps s1 s2 -> I s1 -> I s2.
Proof. intros Hstep s1 s2 Hs. induction Hs; eauto. Qed.
End Steps.
#[export] Hint Resolve steps_one : proxy.

(** ** Lists *)

(** The sum of what each element counts for. *)
Definition tally {A} (f : A -> Z) (l : list A) : Z := foldr (fun x acc => f x + acc) 0 l.
Lemma tally_insert {A} (f : A -> Z) l i x y : l !! i = Some x -> tally f (<[i := y]> l) = tally f l - f x + f y.
Proof.
  unfold tally. revert i. induction l as [|z l IH]; intros [|i] H; simplify_eq/=; [lia|].
  specialize (IH i H). lia.
Qed.
Lemma tally_nonneg {A} (f : A -> Z) l : (forall x, 0 <= f x) -> 0 <= tally f l.
Proof. intros H. unfold tally. induction l as [|x l IH]; cbn; [lia|]. specialize (H x). lia. Qed.
Lemma tally_le {A} (f g : A -> Z) l : (forall x, f x <= g x) -> tally f l <= tally g l.
Proof. intros H. unfold tally. induction l as [|x l IH]; cbn; [lia|]. specialize (H x). lia. Qed.
Lemma tally_add {A} (f g : A -> Z) l : tally (fun x => f x + g x) l = tally f l + tally g l.
Proof. unfold tally. induction l as [|x l IH]; cbn; [lia|]. rewrite IH. lia. Qed.
Lemma tally_zero {A} (f : A -> Z) l : Forall (fun x => f x = 0) l -> tally f l = 0.
Proof. unfold tally. induction 1 as [|x l H _ IH]; cbn; lia. Qed.
#[global] Arguments tally : simpl never.

(** [slice.iter().any(|x| *x == a)] on a decidable type. *)
Definition mem {A} `{EqDecision A} (a : A) (l : list A) : bool := bool_decide (a ∈ l).

Lemma mem_true {A} `{EqDecision A} (a : A) l : mem a l = true <-> a ∈ l.
Proof. apply bool_decide_eq_true. Qed.

Lemma mem_false {A} `{EqDecision A} (a : A) l : mem a l = false <-> a ∉ l.
Proof. apply bool_decide_eq_false. Qed.

(** First element satisfying [f], with its index ([iter().enumerate().find]). *)
Fixpoint find_index_from {A} (f : A -> bool) (i : nat) (l : list A) : option nat :=
  match l with
  | [] => None
  | x :: l' => if f x then Some i else find_index_from f (S i) l'
  end.

Lemma find_index_from_spec {A} (f : A -> bool) l i j :
  find_index_from f i l = Some j ->
  (i <= j)%nat /\ exists x, l !! (j - i)%nat = Some x /\ f x = true /\
  forall k y, (k < j - i)%nat -> l !! k = Some y -> f y = false.
Proof.
  revert i. induction l as [|x l IH]; intros i; simpl; [done|].
  destruct (f x) eqn:Hx.
  - intros [= <-]. replace (i - i)%nat with 0%nat by lia.
    split; [lia|]. exists x. repeat split; [done|]. intros; lia.
  - intros Hj. apply IH in Hj as [Hle (y & Hy & Hfy & Hb)].
    replace (j - i)%nat with (S (j - S i)) by lia.
    split; [lia|]. exists y. repeat split; [done..|].
    intros [|k] z Hk; simpl; [by intros [= <-] | apply Hb; lia].
Qed.

Lemma find_index_from_none {A} (f : A -> bool) l i :
  find_index_from f i l = None <-> forall x, x ∈ l -> f x = false.
Proof.
  revert i. induction l as [|x l IH]; intros i; simpl.
  - split; [intros _ y Hy; by apply elem_of_nil in Hy | done].
  - destruct (f x) eqn:Hx.
    + split; [done|]. intros H. by rewrite H in Hx by left.
    + rewrite IH. split.
      * intros H y Hy. apply elem_of_cons in Hy as [-> | Hy]; auto.
      * intros H y Hy. apply H. by right.
Qed.

(** ** Hash maps

    A [HashMap] is a [gmap]; the order in which it is walked is unspecified, so code
    that walks one takes the order as an instance of this class. *)

Class MapOrder (K A : Type) `{Countable K} := {
  iter : gmap K A -> list (K * A);
  iter_perm m : iter m ≡ₚ map_to_list m
}.

Lemma iter_lookup `{Countable K} {A} `{!MapOrder K A} (m : gmap K A) k x :
  (k, x) ∈ iter m <-> m !! k = Some x.
Proof. by rewrite iter_perm, elem_of_map_to_list. Qed.

Lemma iter_nil `{Countable K} {A} `{!MapOrder K A} (m : gmap K A) : iter m = [] -> m = ∅.
Proof.
  intros Hi. pose proof (iter_perm m) as Hp. rewrite Hi in Hp.
  symmetry in Hp. by apply Permutation_nil_r, map_to_list_empty_iff in Hp.
Qed.

Lemma iter_nodup `{Countable K} {A} `{!MapOrder K A} (m : gmap K A) : NoDup (fst <$> iter m).
Proof. rewrite iter_perm. apply NoDup_fst_map_to_list. Qed.

(** An order that exists, for concrete runs. *)
Definition list_order {K A} `{Countable K} : MapOrder K A :=
  {| iter := map_to_list; iter_perm _ := Permutation_refl _ |}.

(** ** Proof automation *)

(** Case split on every [if] and [match] scrutinee left in the goal. *)
Ltac split_matches :=
  repeat match goal with
  | |- context [match ?x with _ => _ end] => destruct x eqn:?; simplify_eq/=
  end.

(** Turn boolean comparisons on [Z] in the context into propositions. *)
Ltac bool_to_prop :=
  repeat match goal with
  | H : (_ && _) = true |- _ => apply andb_true_iff in H as [? ?]
  | H : (_ || _) = false |- _ => apply orb_false_iff in H as [? ?]
  | H : negb _ = true |- _ => apply negb_true_iff in H
  | H : negb _ = false |- _ => apply negb_false_iff in H
  | H : (_ <? _) = true |- _ => apply Z.ltb_lt in H
  | H : (_ <? _) = false |- _ => apply Z.ltb_ge in H
  | H : (_ <=? _) = true |- _ => apply Z.leb_le in H
  | H : (_ <=? _) = false |- _ => apply Z.leb_gt in H
  | H : (_ =? _) = true |- _ => apply Z.eqb_eq in H
  | H : (_ =? _) = false |- _ => apply Z.eqb_neq in H
  end.
