(* ===== verification/Bytes.v ===== *)
(** * Bytes and text

    Rust [&[u8]], [&str] and [String] values are lists of bytes, each a [Z] in
    [0, 256); a [str] is the UTF-8 encoding.  The functions here are the parts of
    the standard library that the proxy calls on text and on byte slices:
    prefix and substring search, trimming, case conversion, UTF-8 checking and
    lossy decoding, decimal printing and parsing, and the little and big endian
    integer codecs.  Unicode case conversion of non-ASCII characters is a table of
    the standard library: it is the class [CaseTable], and every theorem holds for
    every table. *)

From S2P Require Import Prelude.

Abbreviation bytes := (list Z).

Definition byte (z : Z) : Prop := 0 <= z < 256.
Definition bytes_ok (s : bytes) : Prop := Forall byte s.

(** Byte string literals. *)
Definition bs (s : string) : bytes :=
  map (fun a => Z.of_N (Ascii.N_of_ascii a)) (String.list_ascii_of_string s).
(** A byte literal. *)
Definition ch (s : string) : Z := default 0 (head (bs s)).
(** The double quote, which a literal above cannot hold. *)
Definition dquote : Z := 34.

(** Executable check, for concrete texts. *)
Definition bytes_okb (s : bytes) : bool := forallb (fun b => (0 <=? b) && (b <? 256)) s.

Lemma bytes_okb_ok s : bytes_okb s = true -> bytes_ok s.
Proof.
  unfold bytes_okb. rewrite forallb_forall. intros H. apply Forall_forall.
  intros b Hb. specialize (H b Hb). unfold byte. bool_to_prop. lia.
Qed.

(** ** Comparison and search *)

Definition beq (a b : bytes) : bool := bool_decide (a = b).

Lemma beq_true a b : beq a b = true <-> a = b.
Proof. apply bool_decide_eq_true. Qed.

Lemma beq_refl a : beq a a = true.
Proof. by apply beq_true. Qed.

Fixpoint starts_with (s p : bytes) {struct p} : bool :=
  match p, s with
  | [], _ => true
  | b :: p', c :: s' => (c =? b) && starts_with s' p'
  | _ :: _, [] => false
  end.

Definition ends_with (s p : bytes) : bool := starts_with (rev s) (rev p).

Lemma starts_with_spec s p : starts_with s p = true <-> exists r, s = p ++ r.
Proof.
  revert s. induction p as [|b p IH]; intros s; simpl.
  - split; [by exists s | done].
  - destruct s as [|c s]; simpl.
    + split; [done | intros [r Hr]; discriminate].
    + rewrite andb_true_iff, IH, Z.eqb_eq. split.
      * intros [-> [r ->]]. by exists r.
      * intros [r Hr]. simplify_eq. eauto.
Qed.

Lemma starts_with_app p r : starts_with (p ++ r) p = true.
Proof. apply starts_with_spec. by exists r. Qed.

(** [s.find(p)]: byte offset of the first occurrence. *)
Fixpoint find_from (i : nat) (s p : bytes) : option nat :=
  if starts_with s p then Some i
  else match s with [] => None | _ :: s' => find_from (S i) s' p end.
Definition str_find (s p : bytes) : option nat := find_from 0 s p.
Definition str_contains (s p : bytes) : bool :=
  match str_find s p with Some _ => true | None => false end.

Lemma find_from_some s p i j :
  find_from i s p = Some j ->
  (i <= j <= i + length s)%nat /\ starts_with (drop (j - i) s) p = true.
Proof.
  revert i. induction s as [|c s IH]; intros i; simpl.
  - destruct (starts_with [] p) eqn:Hp; [|done]. intros [= <-].
    rewrite Nat.sub_diag. split; [lia | done].
  - destruct (starts_with (c :: s) p) eqn:Hp.
    + intros [= <-]. rewrite Nat.sub_diag. split; [lia | done].
    + intros H. apply IH in H as [Hle H]. split; [lia|].
      by replace (j - i)%nat with (S (j - S i)) by lia.
Qed.

Lemma find_from_none s p i :
  find_from i s p = None -> forall k, starts_with (drop k s) p = false.
Proof.
  revert i. induction s as [|c s IH]; intros i; simpl.
  - destruct (starts_with [] p) eqn:Hp; [done|]. intros _ k. by rewrite drop_nil.
  - destruct (starts_with (c :: s) p) eqn:Hp; [done|].
    intros H [|k]; simpl; [done | by eapply IH].
Qed.

Lemma str_find_some s p j :
  str_find s p = Some j ->
  (j + length p <= length s)%nat /\ s = take j s ++ p ++ drop (j + length p) s.
Proof.
  intros H. apply find_from_some in H as [Hj H]. rewrite Nat.sub_0_r in H.
  apply starts_with_spec in H as [r Hr].
  assert (length (drop j s) = length (p ++ r)) as Hl by (by rewrite Hr).
  rewrite length_drop, length_app in Hl. split; [lia|].
  rewrite <- (take_drop j s) at 1. f_equal.
  by rewrite <- drop_drop, Hr, drop_app_length.
Qed.

Lemma str_find_none s p : str_find s p = None -> forall a r, s <> a ++ p ++ r.
Proof.
  intros H a r ->. pose proof (find_from_none _ _ _ H (length a)) as Hf.
  by rewrite drop_app_length, starts_with_app in Hf.
Qed.

Lemma str_contains_spec s p : str_contains s p = true <-> exists a r, s = a ++ p ++ r.
Proof.
  unfold str_contains. destruct (str_find s p) as [j|] eqn:H.
  - split; [|done]. intros _. apply str_find_some in H as [_ H]. eauto.
  - split; [done|]. intros (a & r & Hs). by apply (str_find_none _ _ H) in Hs.
Qed.

Lemma str_contains_false s p : str_contains s p = false <-> forall a r, s <> a ++ p ++ r.
Proof.
  rewrite <- not_true_iff_false, str_contains_spec. split.
  - intros H a r Hs. apply H. by exists a, r.
  - intros H (a & r & Hs). by apply (H a r).
Qed.

(** First byte satisfying [f] ([find(|c| ..)] on a set of ASCII characters). *)
Fixpoint find_byte_from (i : nat) (f : Z -> bool) (s : bytes) : option nat :=
  match s with
  | [] => None
  | c :: s' => if f c then Some i else find_byte_from (S i) f s'
  end.
Definition find_byte (f : Z -> bool) (s : bytes) : option nat := find_byte_from 0 f s.

Lemma find_byte_from_some f s i j :
  find_byte_from i f s = Some j ->
  (i <= j < i + length s)%nat /\
  exists c r, drop (j - i) s = c :: r /\ f c = true /\ Forall (fun x => f x = false) (take (j - i) s).
Proof.
  revert i. induction s as [|c s IH]; intros i; simpl; [done|].
  destruct (f c) eqn:Hc.
  - intros [= <-]. rewrite Nat.sub_diag. split; [lia|]. exists c, s. by rewrite take_0.
  - intros H. apply IH in H as [Hle (d & r & Hd & Hf & Hb)]. split; [lia|].
    replace (j - i)%nat with (S (j - S i)) by lia. exists d, r. split_and!; [done..|]. simpl. by constructor.
Qed.

Lemma find_byte_from_none f s i :
  find_byte_from i f s = None -> Forall (fun x => f x = false) s.
Proof.
  revert i. induction s as [|c s IH]; intros i; simpl; [constructor|].
  destruct (f c) eqn:Hc; [done|]. intros H. constructor; eauto.
Qed.

(** [s.split(c)] on one ASCII separator. *)
Fixpoint split_on (c : Z) (s : bytes) : list bytes :=
  match s with
  | [] => [[]]
  | b :: s' =>
      if b =? c then [] :: split_on c s'
      else match split_on c s' with
           | [] => [[b]]
           | w :: ws => (b :: w) :: ws
           end
  end.

Lemma split_on_cons c s : exists w ws, split_on c s = w :: ws.
Proof.
  induction s as [|b s [w [ws IH]]]; simpl; [eauto|].
  destruct (b =? c); [eauto|]. rewrite IH. eauto.
Qed.

(** ** White space and trimming *)

(** [u8::is_ascii_whitespace]. *)
Definition is_ascii_whitespace (b : Z) : bool :=
  (b =? 32) || (b =? 9) || (b =? 10) || (b =? 12) || (b =? 13).

(** One-byte members of the Unicode [White_Space] property ([char::is_whitespace]). *)
Definition ws1 (b : Z) : bool := ((9 <=? b) && (b <=? 13)) || (b =? 32).
(** U+0085 and U+00A0. *)
Definition ws2 (b c : Z) : bool := (b =? 194) && ((c =? 133) || (c =? 160)).
(** U+1680, U+2000 to U+200A, U+2028, U+2029, U+202F, U+205F and U+3000. *)
Definition ws3 (b c d : Z) : bool :=
  ((b =? 225) && (c =? 154) && (d =? 128))
  || ((b =? 226) && (c =? 128)
      && (((128 <=? d) && (d <=? 138)) || (d =? 168) || (d =? 169) || (d =? 175)))
  || ((b =? 226) && (c =? 129) && (d =? 159))
  || ((b =? 227) && (c =? 128) && (d =? 128)).

Fixpoint trim_start (s : bytes) : bytes :=
  match s with
  | [] => []
  | b :: s1 =>
      if ws1 b then trim_start s1
      else match s1 with
           | [] => s
           | c :: s2 =>
               if ws2 b c then trim_start s2
               else match s2 with
                    | [] => s
                    | d :: s3 => if ws3 b c d then trim_start s3 else s
                    end
           end
  end.

(** The same from the right; [s] holds the reversed text. *)
Fixpoint trim_rev (s : bytes) : bytes :=
  match s with
  | [] => []
  | b :: s1 =>
      if ws1 b then trim_rev s1
      else match s1 with
           | [] => s
           | c :: s2 =>
               if ws2 c b then trim_rev s2
               else match s2 with
                    | [] => s
                    | d :: s3 => if ws3 d c b then trim_rev s3 else s
                    end
           end
  end.
Definition trim_end (s : bytes) : bytes := rev (trim_rev (rev s)).
Definition trim (s : bytes) : bytes := trim_end (trim_start s).

(** [s.trim_end_matches(c)] and [s.trim_matches(c)] for one ASCII character. *)
Fixpoint strip_front (c : Z) (s : bytes) : bytes :=
  match s with
  | b :: s' => if b =? c then strip_front c s' else s
  | [] => []
  end.
Definition trim_end_matches (c : Z) (s : bytes) : bytes := rev (strip_front c (rev s)).
Definition trim_matches (c : Z) (s : bytes) : bytes :=
  trim_end_matches c (strip_front c s).

Lemma trim_start_suffix s : exists p, s = p ++ trim_start s.
Proof.
  remember (length s) as n eqn:Hn. revert s Hn.
  induction n as [n IH] using lt_wf_ind. intros s ->.
  destruct s as [|b s1]; [by exists []|]. simpl.
  destruct (ws1 b).
  { destruct (IH (length s1)) with (s := s1) as [p Hp]; simpl; [lia|done|].
    exists (b :: p). simpl. by rewrite <- Hp. }
  destruct s1 as [|c s2]; [by exists []|].
  destruct (ws2 b c).
  { destruct (IH (length s2)) with (s := s2) as [p Hp]; simpl; [lia|done|].
    exists (b :: c :: p). simpl. by rewrite <- Hp. }
  destruct s2 as [|d s3]; [by exists []|].
  destruct (ws3 b c d); [|by exists []].
  destruct (IH (length s3)) with (s := s3) as [p Hp]; simpl; [lia|done|].
  exists (b :: c :: d :: p). simpl. by rewrite <- Hp.
Qed.

Lemma trim_start_length s : (length (trim_start s) <= length s)%nat.
Proof.
  destruct (trim_start_suffix s) as [p Hp].
  rewrite Hp at 2. rewrite length_app. lia.
Qed.

(** ASCII text whose first byte is not white space is left alone. *)
Lemma trim_start_ascii b s : ws1 b = false -> b < 128 -> trim_start (b :: s) = b :: s.
Proof.
  intros Hb Hlt. simpl. rewrite Hb. destruct s as [|c s]; [done|].
  unfold ws2, ws3.
  replace (b =? 194) with false by (symmetry; apply Z.eqb_neq; lia).
  replace (b =? 225) with false by (symmetry; apply Z.eqb_neq; lia).
  replace (b =? 226) with false by (symmetry; apply Z.eqb_neq; lia).
  replace (b =? 227) with false by (symmetry; apply Z.eqb_neq; lia).
  simpl. by destruct s.
Qed.

(** ** Letter case *)

Definition ascii_upper (b : Z) : Z := if (97 <=? b) && (b <=? 122) then b - 32 else b.
Definition ascii_lower (b : Z) : Z := if (65 <=? b) && (b <=? 90) then b + 32 else b.
Definition to_ascii_uppercase (s : bytes) : bytes := map ascii_upper s.
Definition to_ascii_lowercase (s : bytes) : bytes := map ascii_lower s.
Definition eq_ignore_ascii_case (a b : bytes) : bool :=
  beq (to_ascii_lowercase a) (to_ascii_lowercase b).

(** The Unicode case tables: the image of one non-ASCII character (its UTF-8
    bytes).  Lower-casing may depend on the text around the character (final
    sigma), so it is given what precedes and what follows it. *)
Class CaseTable := {
  upper_wide : bytes -> bytes;
  lower_wide : bytes -> bytes -> bytes -> bytes;
}.

(** Number of bytes of the character a lead byte announces. *)
Definition lead_len (b : Z) : nat :=
  if b <? 128 then 1 else if b <? 224 then 2 else if b <? 240 then 3 else 4.

Section Case.
Context `{CT : CaseTable}.

(** Character by character; [f] maps ASCII bytes, [w] the other characters.
    [fuel] is the number of bytes, enough because every step takes one. *)
Fixpoint map_chars (f : Z -> Z) (w : bytes -> bytes -> bytes -> bytes)
    (fuel : nat) (before s : bytes) : bytes :=
  match fuel, s with
  | O, _ | _, [] => []
  | S fuel', b :: s' =>
      if b <? 128 then f b :: map_chars f w fuel' (before ++ [b]) s'
      else let c := take (lead_len b) s in
           let r := drop (lead_len b) s in
           w before c r ++ map_chars f w fuel' (before ++ c) r
  end.
Definition to_uppercase (s : bytes) : bytes :=
  map_chars ascii_upper (fun _ c _ => upper_wide c) (length s) [] s.
Definition to_lowercase (s : bytes) : bytes :=
  map_chars ascii_lower lower_wide (length s) [] s.

Definition ascii_only (s : bytes) : Prop := Forall (fun b => 0 <= b < 128) s.

Lemma ascii_only_cons b s : ascii_only (b :: s) <-> 0 <= b < 128 /\ ascii_only s.
Proof. apply Forall_cons_iff. Qed.

Lemma ascii_onlyb_ok s :
  forallb (fun b => (0 <=? b) && (b <? 128)) s = true -> ascii_only s.
Proof.
  rewrite forallb_forall. intros H. apply Forall_forall.
  intros b Hb. specialize (H b Hb). bool_to_prop. lia.
Qed.

Lemma map_chars_ascii f w s before n :
  (length s <= n)%nat -> ascii_only s -> map_chars f w n before s = map f s.
Proof.
  revert s before. induction n as [|n IH]; intros [|b s] before Hn Hs;
    simpl in *; [done|lia|done|].
  apply ascii_only_cons in Hs as [Hb Hs].
  replace (b <? 128) with true by (symmetry; apply Z.ltb_lt; lia).
  f_equal. apply IH; [lia|done].
Qed.

Lemma to_uppercase_ascii s : ascii_only s -> to_uppercase s = to_ascii_uppercase s.
Proof. intros H. by apply map_chars_ascii. Qed.

Lemma to_lowercase_ascii s : ascii_only s -> to_lowercase s = to_ascii_lowercase s.
Proof. intros H. by apply map_chars_ascii. Qed.

(** A leading ASCII byte is mapped on its own, whatever follows. *)
Lemma map_chars_cons f w n before b s :
  b < 128 ->
  map_chars f w (S n) before (b :: s) = f b :: map_chars f w n (before ++ [b]) s.
Proof. intros Hb. simpl. by replace (b <? 128) with true by (symmetry; apply Z.ltb_lt; lia). Qed.

Lemma map_chars_app_ascii f w p s before :
  ascii_only p ->
  map_chars f w (length (p ++ s)) before (p ++ s) =
  map f p ++ map_chars f w (length s) (before ++ p) s.
Proof.
  revert before. induction p as [|b p IH]; intros before Hp; simpl.
  - by rewrite app_nil_r.
  - apply ascii_only_cons in Hp as [Hb Hp].
    replace (b <? 128) with true by (symmetry; apply Z.ltb_lt; lia).
    simpl. f_equal. rewrite IH by done. by rewrite <- app_assoc.
Qed.

Lemma to_uppercase_prefix p s :
  ascii_only p -> exists r, to_uppercase (p ++ s) = to_ascii_uppercase p ++ r.
Proof. intros Hp. unfold to_uppercase. rewrite map_chars_app_ascii by done. eauto. Qed.
End Case.

(** The table that leaves every non-ASCII character as it is; used by witnesses. *)
Definition ascii_table : CaseTable :=
  {| upper_wide := fun c => c; lower_wide := fun _ c _ => c |}.

(** ** UTF-8 checking and lossy decoding *)

Definition is_cont (b : Z) : bool := (128 <=? b) && (b <=? 191).

(** [&s[..s.len().min(n)]] panics inside a character. *)
Definition slice_panics (n : nat) (s : bytes) : bool :=
  match drop (Nat.min (length s) n) s with b :: _ => is_cont b | [] => false end.

(** Whether [c] may follow the lead byte [b] of a multi-byte sequence. *)
Definition second_ok (b c : Z) : bool :=
  if b =? 224 then (160 <=? c) && (c <=? 191)
  else if b =? 237 then (128 <=? c) && (c <=? 159)
  else if b =? 240 then (144 <=? c) && (c <=? 191)
  else if b =? 244 then (128 <=? c) && (c <=? 143)
  else is_cont c.

(** The sequence at the front of a non-empty text: whether it is a well-formed
    character, and how many bytes it (or its maximal ill-formed part) has. *)
Definition utf8_head (b : Z) (s : bytes) : bool * nat :=
  if b <? 128 then (true, 1%nat)
  else if (194 <=? b) && (b <=? 223) then
    match s with
    | c :: _ => if is_cont c then (true, 2%nat) else (false, 1%nat)
    | [] => (false, 1%nat)
    end
  else if (224 <=? b) && (b <=? 239) then
    match s with
    | c :: s1 =>
        if second_ok b c then
          match s1 with
          | d :: _ => if is_cont d then (true, 3%nat) else (false, 2%nat)
          | [] => (false, 2%nat)
          end
        else (false, 1%nat)
    | [] => (false, 1%nat)
    end
  else if (240 <=? b) && (b <=? 244) then
    match s with
    | c :: s1 =>
        if second_ok b c then
          match s1 with
          | d :: s2 =>
              if is_cont d then
                match s2 with
                | e :: _ => if is_cont e then (true, 4%nat) else (false, 3%nat)
                | [] => (false, 3%nat)
                end
              else (false, 2%nat)
          | [] => (false, 2%nat)
          end
        else (false, 1%nat)
    | [] => (false, 1%nat)
    end
  else (false, 1%nat).

(** U+FFFD. *)
Definition replacement : bytes := [239; 191; 189].

(** [std::str::from_utf8(s).is_ok()] and [String::from_utf8_lossy(s)]; [fuel]
    is the length, one step consumes at least one byte. *)
Fixpoint utf8_valid_fuel (fuel : nat) (s : bytes) : bool :=
  match fuel, s with
  | _, [] => true
  | O, _ :: _ => false
  | S fuel', b :: s' =>
      let (ok, n) := utf8_head b s' in ok && utf8_valid_fuel fuel' (drop n s)
  end.
Definition utf8_valid (s : bytes) : bool := utf8_valid_fuel (length s) s.

Fixpoint utf8_lossy_fuel (fuel : nat) (s : bytes) : bytes :=
  match fuel, s with
  | _, [] => []
  | O, _ :: _ => []
  | S fuel', b :: s' =>
      let (ok, n) := utf8_head b s' in
      (if ok then take n s else replacement) ++ utf8_lossy_fuel fuel' (drop n s)
  end.
Definition utf8_lossy (s : bytes) : bytes := utf8_lossy_fuel (length s) s.

(** [std::str::from_utf8(s).unwrap_or("")]. *)
Definition from_utf8_or_empty (s : bytes) : bytes := if utf8_valid s then s else [].

Lemma utf8_lossy_valid_fuel n s :
  utf8_valid_fuel n s = true -> utf8_lossy_fuel n s = s.
Proof.
  revert s. induction n as [|n IH]; intros [|b s]; try done.
  cbn [utf8_valid_fuel utf8_lossy_fuel].
  destruct (utf8_head b s) as [[|] k]; [|done]. simpl. intros H.
  rewrite IH by done. apply take_drop.
Qed.

(** Lossy decoding is the identity on well-formed text. *)
Lemma utf8_lossy_valid s : utf8_valid s = true -> utf8_lossy s = s.
Proof. apply utf8_lossy_valid_fuel. Qed.

Lemma utf8_valid_ascii_fuel n s :
  (length s <= n)%nat -> ascii_only s -> utf8_valid_fuel n s = true.
Proof.
  revert s. induction n as [|n IH]; intros [|b s] Hn Hs; simpl in *; [done|lia|done|].
  apply ascii_only_cons in Hs as [Hb Hs].
  unfold utf8_head. replace (b <? 128) with true by (symmetry; apply Z.ltb_lt; lia).
  change (utf8_valid_fuel n (drop 1 (b :: s)) = true). simpl. rewrite drop_0.
  apply IH; [lia|done].
Qed.

Lemma utf8_valid_ascii s : ascii_only s -> utf8_valid s = true.
Proof. by apply utf8_valid_ascii_fuel. Qed.

(** ** Integer codecs *)

(** [v.to_le_bytes()] on [n] bytes and [from_le_bytes]. *)
Fixpoint to_le (n : nat) (v : Z) : bytes :=
  match n with O => [] | S n' => v mod 256 :: to_le n' (v / 256) end.
Fixpoint of_le (s : bytes) : Z :=
  match s with [] => 0 | b :: s' => b + 256 * of_le s' end.
Definition to_be (n : nat) (v : Z) : bytes := rev (to_le n v).
Definition of_be (s : bytes) : Z := of_le (rev s).

Lemma to_le_length n v : length (to_le n v) = n.
Proof. revert v. induction n as [|n IH]; intros v; simpl; [done|]. by rewrite IH. Qed.

Lemma to_be_length n v : length (to_be n v) = n.
Proof. unfold to_be. by rewrite length_rev, to_le_length. Qed.

Lemma to_le_ok n v : bytes_ok (to_le n v).
Proof.
  revert v. induction n as [|n IH]; intros v; simpl; constructor; [|apply IH].
  apply Z.mod_pos_bound. lia.
Qed.

Lemma of_to_le n v : 0 <= v < 256 ^ Z.of_nat n -> of_le (to_le n v) = v.
Proof.
  revert v. induction n as [|n IH]; intros v Hv.
  - simpl in *. lia.
  - rewrite Nat2Z.inj_succ, Z.pow_succ_r in Hv by lia.
    cbn [to_le of_le]. rewrite IH.
    + rewrite Z.add_comm. symmetry. by apply Z.div_mod.
    + split; [apply Z.div_pos; lia|]. apply Z.div_lt_upper_bound; lia.
Qed.

Lemma to_of_le s : bytes_ok s -> to_le (length s) (of_le s) = s.
Proof.
  induction 1 as [|b s Hb Hs IH]; [done|]. cbn [length of_le to_le].
  unfold byte in Hb. rewrite (Z.mul_comm 256), Z_mod_plus_full, Z.mod_small by lia.
  by rewrite Z.div_add, Z.div_small, Z.add_0_l, IH by lia.
Qed.

Lemma of_to_be n v : 0 <= v < 256 ^ Z.of_nat n -> of_be (to_be n v) = v.
Proof. intros H. unfold of_be, to_be. by rewrite rev_involutive, of_to_le. Qed.

Lemma of_le_range s : bytes_ok s -> 0 <= of_le s < 256 ^ Z.of_nat (length s).
Proof.
  induction 1 as [|b s Hb Hs IH]; [simpl; lia|].
  cbn [length of_le]. rewrite Nat2Z.inj_succ, Z.pow_succ_r by lia.
  unfold byte in Hb. lia.
Qed.

(** The shifts and masks the source writes for 24-bit lengths. *)
Definition u24_or (b0 b1 b2 : Z) : Z :=
  Z.lor (Z.lor b0 (Z.shiftl b1 8)) (Z.shiftl b2 16).

Lemma lor_add_low k a b :
  0 <= k -> 0 <= a < 2 ^ k -> 0 <= b -> Z.lor a (Z.shiftl b k) = a + 2 ^ k * b.
Proof.
  intros Hk Ha Hb. pose proof (Z.add_lor_land a (Z.shiftl b k)) as Hsum.
  assert (Z.land a (Z.shiftl b k) = 0) as Hland; [|rewrite Hland in Hsum;
    rewrite (Z.shiftl_mul_pow2 b k) in * by lia; lia].
  apply Z.bits_inj'. intros n Hn. rewrite Z.land_spec, Z.bits_0.
  destruct (decide (n < k)) as [Hlt|Hge].
  - rewrite (Z.shiftl_spec_low b k n) by lia. apply andb_false_r.
  - destruct (decide (a = 0)) as [->|Hz]; [by rewrite Z.bits_0|].
    assert (Z.log2 a < k) by (apply Z.log2_lt_pow2; lia).
    by rewrite (Z.bits_above_log2 a n) by lia.
Qed.

Lemma u24_or_le b0 b1 b2 :
  byte b0 -> byte b1 -> byte b2 -> u24_or b0 b1 b2 = of_le [b0; b1; b2].
Proof.
  unfold byte, u24_or. intros H0 H1 H2.
  rewrite (lor_add_low 8 b0 b1) by (simpl; lia).
  rewrite (lor_add_low 16) by (simpl; lia). simpl. lia.
Qed.

(** [x & 0xFF], [(x >> 8) & 0xFF], ... *)
Definition byte_at (v : Z) (i : Z) : Z := Z.land (Z.shiftr v (8 * i)) 255.

Lemma byte_at_div v i : 0 <= i -> byte_at v i = v / 2 ^ (8 * i) mod 256.
Proof.
  intros Hi. unfold byte_at. rewrite Z.shiftr_div_pow2 by lia.
  by rewrite (Z.land_ones _ 8) by lia.
Qed.

Lemma byte_at_le3 v : [byte_at v 0; byte_at v 1; byte_at v 2] = to_le 3 v.
Proof.
  rewrite !byte_at_div by lia. simpl.
  rewrite Z.div_1_r, Z.div_div by lia. done.
Qed.

(** ** C strings *)

(** The bytes up to the first zero byte, and the rest behind it. *)
Fixpoint split_nul (buf : bytes) : option (bytes * bytes) :=
  match buf with
  | [] => None
  | b :: buf' =>
      if b =? 0 then Some ([], buf')
      else match split_nul buf' with Some (s, r) => Some (b :: s, r) | None => None end
  end.

Definition no_nul (s : bytes) : Prop := Forall (fun b => b <> 0) s.
(** Text that can be sent as a C string. *)
Definition cstr (s : bytes) : Prop := no_nul s /\ utf8_valid s = true.

Lemma split_nul_app s r : no_nul s -> split_nul (s ++ 0 :: r) = Some (s, r).
Proof.
  induction 1 as [|b s Hb Hs IH]; [done|]. cbn [app split_nul].
  by rewrite (proj2 (Z.eqb_neq b 0)), IH.
Qed.

Lemma split_nul_some buf s r : split_nul buf = Some (s, r) -> buf = s ++ 0 :: r /\ no_nul s.
Proof.
  revert s r. induction buf as [|b buf IH]; intros s r; [done|]. cbn [split_nul].
  destruct (b =? 0) eqn:E; bool_to_prop.
  - intros [= <- <-]. subst. split; [done | constructor].
  - destruct (split_nul buf) as [[s' r']|]; [|done]. intros [= <- <-].
    destruct (IH s' r' eq_refl) as [-> Hn]. split; [done | by constructor].
Qed.

(** ** Decimal text *)

(** [format!("{}", n)] for an unsigned [n]; 20 digits cover [u64]. *)
Fixpoint dec_digits (fuel : nat) (n : Z) (acc : bytes) : bytes :=
  match fuel with
  | O => acc
  | S fuel' =>
      let acc' := (48 + n mod 10) :: acc in
      if n / 10 =? 0 then acc' else dec_digits fuel' (n / 10) acc'
  end.
Definition show_u64 (n : Z) : bytes := dec_digits 20 n [].

Definition is_digit (b : Z) : bool := (48 <=? b) && (b <=? 57).

(** [s.parse::<uN>()]: an optional plus sign and at least one digit, in range. *)
Fixpoint parse_digits (acc : Z) (s : bytes) : option Z :=
  match s with
  | [] => Some acc
  | b :: s' => if is_digit b then parse_digits (10 * acc + (b - 48)) s' else None
  end.
Definition parse_uint (w : Z) (s : bytes) : option Z :=
  let s := match s with 43 :: s' => s' | _ => s end in
  match s with
  | [] => None
  | _ => match parse_digits 0 s with
         | Some v => if v <? 2 ^ w then Some v else None
         | None => None
         end
  end.

Lemma parse_uint_range w s v : parse_uint w s = Some v -> v < 2 ^ w.
Proof.
  unfold parse_uint. repeat case_match; intros; simplify_eq; bool_to_prop; lia.
Qed.

Lemma is_digit_mod n : is_digit (48 + n mod 10) = true.
Proof. unfold is_digit. pose proof (Z.mod_pos_bound n 10). apply andb_true_intro. lia. Qed.

Lemma parse_digits_dec fuel n tail :
  0 <= n < 10 ^ Z.of_nat fuel -> (fuel <> 0)%nat ->
  parse_digits 0 (dec_digits fuel n tail) = parse_digits n tail.
Proof.
  revert n tail. induction fuel as [|fuel IH]; intros n tail Hn Hf; [done|]. cbn [dec_digits].
  assert (forall acc, parse_digits acc ((48 + n mod 10) :: tail) = parse_digits (10 * acc + n mod 10) tail) as Hd.
  { intros acc. cbn [parse_digits]. rewrite is_digit_mod. f_equal. lia. }
  pose proof (Z.div_mod n 10 ltac:(lia)). destruct (n / 10 =? 0) eqn:E.
  - rewrite Hd. f_equal. bool_to_prop. lia.
  - bool_to_prop. rewrite Nat2Z.inj_succ, Z.pow_succ_r in Hn by lia.
    assert (0 <= n / 10 < 10 ^ Z.of_nat fuel) as Hr
      by (split; [apply Z.div_pos; lia | apply Z.div_lt_upper_bound; lia]).
    rewrite IH; [|done|].
    + rewrite Hd. f_equal. lia.
    + intros ->. simpl in Hr. lia.
Qed.

Lemma dec_digits_all fuel n tail :
  Forall (fun b => is_digit b = true) tail -> Forall (fun b => is_digit b = true) (dec_digits fuel n tail).
Proof.
  revert n tail. induction fuel as [|fuel IH]; intros n tail Ht; [done|]. cbn [dec_digits].
  assert (Forall (fun b => is_digit b = true) ((48 + n mod 10) :: tail)) by (constructor; [apply is_digit_mod | done]).
  destruct (_ =? 0); [done | by apply IH].
Qed.

Lemma show_u64_digits n : Forall (fun b => is_digit b = true) (show_u64 n).
Proof. by apply dec_digits_all. Qed.

Lemma show_u64_ascii n : ascii_only (show_u64 n).
Proof.
  unfold ascii_only. induction (show_u64_digits n) as [|b s Hb _ IH]; constructor; [|done].
  unfold is_digit in Hb. bool_to_prop. lia.
Qed.

(** Printing and parsing decimal text. *)
Lemma parse_show_u64 n : 0 <= n < 2 ^ 64 -> parse_uint 64 (show_u64 n) = Some n.
Proof.
  intros Hn. pose proof (show_u64_digits n) as Hd.
  pose proof (parse_digits_dec 20 n [] ltac:(simpl Z.of_nat; lia) ltac:(done)) as Hp.
  fold (show_u64 n) in Hp. unfold parse_uint. destruct (show_u64 n) as [|b t] eqn:E.
  - exfalso. assert (forall f m acc, (f <> 0)%nat -> dec_digits f m acc <> []) as Hne.
    { induction f as [|f IH]; intros m acc Hf; [done|]. cbn [dec_digits]. destruct (_ =? 0); [done|].
      destruct f; [done | by apply IH]. }
    exact (Hne 20%nat n [] ltac:(done) E).
  - apply Forall_cons_iff in Hd as [Hb _]. assert (b <> 43) as Hb43 by (intros ->; done).
    assert (match b :: t with 43 :: s' => s' | _ => b :: t end = b :: t) as ->.
    { destruct b as [|q|q]; try done. repeat (destruct q as [q|q|]; try done). }
    rewrite Hp. cbn [parse_digits]. by rewrite (proj2 (Z.ltb_lt _ _)) by lia.
Qed.

Example show_parse : parse_uint 64 (show_u64 18446744073709551615) = Some 18446744073709551615.
Proof. reflexivity. Qed.

(** Closes [bytes_ok] and [ascii_only] goals on concrete texts. *)
Ltac text_ok :=
  first [ apply bytes_okb_ok; vm_compute; reflexivity
        | apply ascii_onlyb_ok; vm_compute; reflexivity ].
