(* ===== verification/Config.v ===== *)
(** * Configuration (src/src/config/mod.rs, src/src/config/secret.rs)

    Module [Secret]: the encryption of passwords at rest and the references to secrets kept
    elsewhere.  Then the structures of backends, users and rules that the other components
    use, and Module [Proxy]: the whole configuration, how its sections inherit from each
    other.  The environment and the files are the class [Environment], AES-GCM and base64
    the class [SecretCodec]; the parser of TOML gives the raw structure. *)

From S2P Require Import Prelude Bytes.

Class Environment := {
  env_var : bytes -> option bytes;          (* the variables that are valid text *)
  read_to_string : bytes -> option bytes;   (* the files that are valid text *)
  keyring_secret : option bytes             (* the entry of the OS keyring, if the feature is compiled in *)
}.
Class SecretCodec := {
  aes_gcm_encrypt : bytes -> bytes -> bytes -> bytes;          (* key, nonce, plaintext *)
  aes_gcm_decrypt : bytes -> bytes -> bytes -> option bytes;   (* key, nonce, ciphertext *)
  url_safe_encode : bytes -> bytes;
  url_safe_decode : bytes -> option bytes
}.
(** What is sealed is opened with the same key and nonce, and base64 is decoded. *)
Class SecretLaws (S : SecretCodec) : Prop := {
  decrypt_encrypt key nonce text : aes_gcm_decrypt key nonce (aes_gcm_encrypt key nonce text) = Some text;
  url_safe_decode_encode d : url_safe_decode (url_safe_encode d) = Some d
}.

(** ** Secrets *)
Module Secret.
Section Secret.
Context `{ENV : Environment} `{SC : SecretCodec}.

Definition ENC_PREFIX : bytes := bs "enc:".

Definition hex_nibble (b : Z) : option Z :=
  if (ch "0" <=? b) && (b <=? ch "9") then Some (b - ch "0")
  else if (ch "a" <=? b) && (b <=? ch "f") then Some (b - ch "a" + 10)
  else if (ch "A" <=? b) && (b <=? ch "F") then Some (b - ch "A" + 10)
  else None.
(** One byte of the key for each chunk of two digits. *)
Fixpoint hex_bytes (s : bytes) : option bytes :=
  match s with
  | hi :: lo :: s' =>
      hi ← hex_nibble hi; lo ← hex_nibble lo; key ← hex_bytes s';
      Some (Z.lor (u8 (Z.shiftl hi 4)) lo :: key)
  | _ => Some []
  end.
Definition parse_hex_key (hex : bytes) : option bytes :=
  if negb (length hex =? 64)%nat then None else hex_bytes hex.

Definition load_encryption_key : option bytes :=
  match keyring_secret ≫= parse_hex_key with
  | Some key => Some key
  | None => hex ← env_var (bs "TURBINEPROXY_SECRET_KEY"); parse_hex_key hex
  end.

(** [nonce] is what the random generator gives. *)
Definition encrypt (nonce plaintext key : bytes) : bytes :=
  ENC_PREFIX ++ url_safe_encode (nonce ++ aes_gcm_encrypt key nonce plaintext).
Definition decrypt (enc_value key : bytes) : option bytes :=
  if negb (starts_with enc_value ENC_PREFIX) then None
  else
    blob ← url_safe_decode (drop 4 enc_value);
    if (length blob <? 12)%nat then None
    else
      plaintext ← aes_gcm_decrypt key (take 12 blob) (drop 12 blob);
      if utf8_valid plaintext then Some plaintext else None.

Definition prepare_for_storage (nonce value : bytes) (key : option bytes) : bytes :=
  if starts_with value (bs "env:") || starts_with value (bs "file:") || starts_with value ENC_PREFIX then value
  else if beq value [] then value
  else match key with
       | Some k => encrypt nonce value k
       | None => value
       end.

Definition resolve_secret (s : bytes) : bytes :=
  if starts_with s (bs "env:") then default [] (env_var (drop 4 s))
  else if starts_with s (bs "file:") then
    match read_to_string (drop 5 s) with Some v => trim v | None => [] end
  else if starts_with s ENC_PREFIX then
    match load_encryption_key with
    | Some key => default [] (decrypt s key)
    | None => []
    end
  else s.
End Secret.
End Secret.

(** ** Backends, users and rules *)

Inductive TlsMode := TlsOff | TlsRequired | TlsVerifyCa | TlsVerifyIdentity.
#[export] Instance TlsMode_eq_dec : EqDecision TlsMode.
Proof. solve_decision. Defined.
Inductive BackendCompression := NoCompression | Zlib | Zstd.
Inductive SessionTrackMode := TrackDisabled | TrackOptional | TrackEnforced.

Record BackendConfig := {
  addr : bytes;
  cfg_user : bytes;
  cfg_password : bytes;
  cfg_database : option bytes;
  cfg_tls_mode : TlsMode;
  cfg_tls_ca : option bytes;
  cfg_tls_cert : option bytes;
  cfg_tls_key : option bytes;
  cfg_weight : Z;
  cfg_backup : bool;
  init_connect : list bytes;
  cfg_compression : BackendCompression;
  cfg_resolution_family : bytes;
  cfg_ssl_keylog_file : bytes;
  max_connections : option Z
}.
Definition with_database (db : option bytes) (c : BackendConfig) : BackendConfig :=
  {| addr := addr c; cfg_user := cfg_user c; cfg_password := cfg_password c; cfg_database := db;
     cfg_tls_mode := cfg_tls_mode c; cfg_tls_ca := cfg_tls_ca c; cfg_tls_cert := cfg_tls_cert c; cfg_tls_key := cfg_tls_key c;
     cfg_weight := cfg_weight c; cfg_backup := cfg_backup c; init_connect := init_connect c;
     cfg_compression := cfg_compression c; cfg_resolution_family := cfg_resolution_family c;
     cfg_ssl_keylog_file := cfg_ssl_keylog_file c; max_connections := max_connections c |}.
Definition with_addr (a : bytes) (c : BackendConfig) : BackendConfig :=
  {| addr := a; cfg_user := cfg_user c; cfg_password := cfg_password c; cfg_database := cfg_database c;
     cfg_tls_mode := cfg_tls_mode c; cfg_tls_ca := cfg_tls_ca c; cfg_tls_cert := cfg_tls_cert c; cfg_tls_key := cfg_tls_key c;
     cfg_weight := cfg_weight c; cfg_backup := cfg_backup c; init_connect := init_connect c;
     cfg_compression := cfg_compression c; cfg_resolution_family := cfg_resolution_family c;
     cfg_ssl_keylog_file := cfg_ssl_keylog_file c; max_connections := max_connections c |}.

Record UserConfig := {
  name : bytes;
  uc_password : bytes;
  uc_allow_writes : bool;
  uc_max_connections : Z;
  default_schema : bytes;
  transaction_isolation : bytes
}.

Section Resolved.
Context `{ENV : Environment} `{SC : SecretCodec}.
Definition backend_resolved_password (c : BackendConfig) : bytes := Secret.resolve_secret (cfg_password c).
Definition resolved_password (u : UserConfig) : bytes := Secret.resolve_secret (uc_password u).
End Resolved.

Inductive RuleDestination := RAny | RPrimary | RReplica.

Record QueryRuleConfig := {
  match_pattern : option bytes;
  match_digest : option bytes;
  qr_user : bytes;
  qr_schema : bytes;
  qr_destination : RuleDestination;
  qr_cache_ttl_secs : Z;
  qr_comment : bytes;
  qr_mirror_to : option bytes;
  destination_hostgroup : option Z;
  qr_rollout_pct : option Z;
  qr_qps_limit : option Z;
  qr_dry_run : bool;
  qr_fast_forward : bool
}.

Record QueryRewriteConfig := {
  rw_match_pattern : bytes;
  rw_replace_with : option bytes;
  rw_add_limit : option Z;
  rw_add_timeout_ms : option Z;
  rw_block : bool;
  rw_comment : bytes
}.

(** ** The sections of the configuration file *)
Module Proxy.

Record ProxyProtocolConfig := { pp_enabled : bool }.
Record FrontendTlsConfig := { ft_enabled : bool; cert : bytes; key : bytes; ft_ssl_keylog_file : bytes }.

Definition default_auth_cache_ttl : Z := 300.
Definition default_connection_max_idle_secs : Z := 55.
Definition default_backend_weight : Z := 100.
Definition default_listen_addr : bytes := bs "0.0.0.0:3307".
Definition default_max_connections : Z := 1000.
Definition default_pool_size : Z := 20.
Definition default_pool_wait_timeout_ms : Z := 5000.
Definition default_analytics_path : bytes := bs "turbineproxy_analytics.db".
Definition default_slow_query_ms : Z := 100.
Definition default_dashboard_addr : bytes := bs "0.0.0.0:8080".
Definition default_health_interval : Z := 5.
Definition default_max_lag_ms : Z := 5000.
Definition default_failover_threshold : Z := 3.
Definition default_failover_cooldown_secs : Z := 30.
Definition default_failover_min_recovery_checks : Z := 3.
Definition default_cb_threshold : Z := 5.
Definition default_cb_recovery_ms : Z := 10000.
Definition default_gr_interval : Z := 5.
Definition default_retention_days : Z := 30.
Definition default_token_ttl_secs : Z := 86400.
Definition default_login_max_attempts : Z := 5.
Definition default_pgsql_pool_size : Z := 10.

Record AnalyticsConfig := { an_enabled : bool; db_path : bytes; slow_query_ms : Z; retention_days : Z }.
Definition analytics_default : AnalyticsConfig :=
  {| an_enabled := true; db_path := default_analytics_path; slow_query_ms := default_slow_query_ms;
     retention_days := default_retention_days |}.

Record DashboardConfig := {
  db_enabled : bool; db_listen_addr : bytes; username : bytes; password : bytes;
  readonly_username : bytes; readonly_password : bytes; token_ttl_secs : Z; login_max_attempts : Z
}.
Definition dashboard_default : DashboardConfig :=
  {| db_enabled := true; db_listen_addr := default_dashboard_addr; username := []; password := [];
     readonly_username := []; readonly_password := []; token_ttl_secs := default_token_ttl_secs;
     login_max_attempts := default_login_max_attempts |}.

Record GroupReplicationConfig := { gr_enabled : bool; check_interval_secs : Z }.
Definition group_replication_default : GroupReplicationConfig :=
  {| gr_enabled := false; check_interval_secs := default_gr_interval |}.

Record HaConfig := {
  ha_enabled : bool; ha_health_check_interval_secs : Z; ha_max_replica_lag_ms : Z; ha_primary_failover_threshold : Z;
  ha_failover_cooldown_secs : Z; ha_failover_min_recovery_checks : Z; galera_check : bool;
  circuit_breaker_threshold : Z; circuit_breaker_recovery_ms : Z
}.
Definition ha_default : HaConfig :=
  {| ha_enabled := true; ha_health_check_interval_secs := default_health_interval; ha_max_replica_lag_ms := default_max_lag_ms;
     ha_primary_failover_threshold := default_failover_threshold; ha_failover_cooldown_secs := default_failover_cooldown_secs;
     ha_failover_min_recovery_checks := default_failover_min_recovery_checks; galera_check := false;
     circuit_breaker_threshold := default_cb_threshold; circuit_breaker_recovery_ms := default_cb_recovery_ms |}.

Record ClusterConfig := { peers : list bytes; secret : bytes }.

Record PgsqlConfig := {
  pg_enabled : bool; pg_listen_addr : bytes; pg_primary : option BackendConfig; pg_replicas : list BackendConfig;
  pg_pool_size : Z; pg_pool_wait_queue_size : Z; pg_pool_wait_timeout_ms : Z; pg_max_connections : Z;
  pg_users : list UserConfig; pg_connection_max_idle_secs : Z; pg_read_your_own_writes_ms : Z;
  health_check_interval_secs : Z; max_replica_lag_ms : Z; primary_failover_threshold : Z; failover_cooldown_secs : Z;
  failover_min_recovery_checks : Z; health_check_database : bytes; whitelist_mode : bool; pg_query_whitelist : list bytes;
  pg_sql_injection_protection : bool; pg_audit_log : bytes; slow_query_log_ms : Z; patroni_check : bool; patroni_api_port : Z;
  ssl_cert : bytes; ssl_key : bytes; pg_server_version : bytes
}.

Record SharedConfig := {
  sh_listen_addr : option bytes; sh_max_connections : option Z; sh_pool_size : option Z; sh_primary : option BackendConfig;
  sh_replicas : list BackendConfig; sh_users : list UserConfig; sh_auth_cache_ttl_secs : option Z;
  sh_connection_max_idle_secs : option Z; sh_read_your_own_writes_ms : option Z; sh_query_whitelist : list bytes;
  sh_sql_injection_protection : option bool; sh_audit_log : option bytes
}.
Definition shared_default : SharedConfig :=
  {| sh_listen_addr := None; sh_max_connections := None; sh_pool_size := None; sh_primary := None; sh_replicas := [];
     sh_users := []; sh_auth_cache_ttl_secs := None; sh_connection_max_idle_secs := None; sh_read_your_own_writes_ms := None;
     sh_query_whitelist := []; sh_sql_injection_protection := None; sh_audit_log := None |}.

(** The settings that the raw structure and the configuration have in common. *)
Record Settings := {
  pool_wait_queue_size : Z; pool_wait_timeout_ms : Z; analytics : AnalyticsConfig; dashboard : DashboardConfig; ha : HaConfig;
  frontend_tls : FrontendTlsConfig; query_rules : list QueryRuleConfig; group_replication : GroupReplicationConfig;
  cluster : ClusterConfig; rewrite_rules : list QueryRewriteConfig; max_transaction_time_ms : Z; max_query_time_ms : Z;
  max_transaction_idle_ms : Z; select_version_forwarding : bool; proxy_protocol : ProxyProtocolConfig;
  shutdown_timeout_secs : Z; client_error_limit : Z; client_error_window_secs : Z; log_prepared_params : bool;
  session_track_mode : SessionTrackMode; gtid_aware_ryow : bool; fast_forward : bool; server_version : bytes
}.
Record RawProxyConfig := {
  shared : option SharedConfig; raw_listen_addr : option bytes; raw_max_connections : option Z; raw_pool_size : option Z;
  raw_primary : option BackendConfig; raw_replicas : list BackendConfig; raw_users : list UserConfig;
  raw_auth_cache_ttl_secs : option Z; raw_connection_max_idle_secs : option Z; raw_read_your_own_writes_ms : option Z;
  raw_query_whitelist : list bytes; raw_sql_injection_protection : option bool; raw_audit_log : option bytes;
  raw_settings : Settings; raw_pgsql : PgsqlConfig
}.
Record ProxyConfig := {
  mysql_enabled : bool; listen_addr : bytes; max_connections : Z; pool_size : Z; primary : BackendConfig;
  replicas : list BackendConfig; users : list UserConfig; auth_cache_ttl_secs : Z; connection_max_idle_secs : Z;
  read_your_own_writes_ms : Z; query_whitelist : list bytes; sql_injection_protection : bool; audit_log : bytes;
  settings : Settings; pgsql : PgsqlConfig
}.

(** [a.or(b)] and the choice of the first list that is not empty. *)
Definition or_else {A} (a b : option A) : option A := match a with Some _ => a | None => b end.
Definition or_list {A} (a b : list A) : list A := match a with [] => b | _ => a end.
Definition nonempty {A} (l : list A) : bool := match l with [] => false | _ => true end.
Definition is_set {A} (o : option A) : bool := match o with Some _ => true | None => false end.

(** [None] is the error of a missing backend. *)
Definition from_raw (raw : RawProxyConfig) : option ProxyConfig :=
  let sh := default shared_default (shared raw) in
  p ← or_else (or_else (raw_primary raw) (sh_primary sh)) (pg_primary (raw_pgsql raw));
  Some {|
    mysql_enabled := is_set (raw_primary raw) || is_set (raw_listen_addr raw) || nonempty (raw_replicas raw);
    listen_addr := default default_listen_addr (or_else (raw_listen_addr raw) (sh_listen_addr sh));
    max_connections := default default_max_connections (or_else (raw_max_connections raw) (sh_max_connections sh));
    pool_size := default default_pool_size (or_else (raw_pool_size raw) (sh_pool_size sh));
    primary := p;
    replicas := or_list (raw_replicas raw) (or_list (sh_replicas sh) (pg_replicas (raw_pgsql raw)));
    users := or_list (raw_users raw) (or_list (sh_users sh) (pg_users (raw_pgsql raw)));
    auth_cache_ttl_secs := default default_auth_cache_ttl (or_else (raw_auth_cache_ttl_secs raw) (sh_auth_cache_ttl_secs sh));
    connection_max_idle_secs :=
      default default_connection_max_idle_secs (or_else (raw_connection_max_idle_secs raw) (sh_connection_max_idle_secs sh));
    read_your_own_writes_ms := default 0 (or_else (raw_read_your_own_writes_ms raw) (sh_read_your_own_writes_ms sh));
    query_whitelist := or_list (raw_query_whitelist raw) (sh_query_whitelist sh);
    sql_injection_protection :=
      default false (or_else (raw_sql_injection_protection raw) (sh_sql_injection_protection sh));
    audit_log := default [] (or_else (raw_audit_log raw) (sh_audit_log sh));
    settings := raw_settings raw;
    pgsql := raw_pgsql raw |}.

(** A value equal to [dflt] counts as unset. *)
Definition inherit (dflt v top : Z) : Z := if v =? dflt then top else v.
Definition resolved_pgsql (c : ProxyConfig) : PgsqlConfig :=
  let pg := pgsql c in
  {| pg_enabled := pg_enabled pg; pg_listen_addr := pg_listen_addr pg;
     pg_primary := or_else (pg_primary pg) (Some (primary c));
     pg_replicas := or_list (pg_replicas pg) (replicas c);
     pg_pool_size := inherit default_pgsql_pool_size (pg_pool_size pg) (pool_size c);
     pg_pool_wait_queue_size := pg_pool_wait_queue_size pg; pg_pool_wait_timeout_ms := pg_pool_wait_timeout_ms pg;
     pg_max_connections := inherit 0 (pg_max_connections pg) (max_connections c);
     pg_users := or_list (pg_users pg) (users c);
     pg_connection_max_idle_secs :=
       inherit default_connection_max_idle_secs (pg_connection_max_idle_secs pg) (connection_max_idle_secs c);
     pg_read_your_own_writes_ms := inherit 0 (pg_read_your_own_writes_ms pg) (read_your_own_writes_ms c);
     health_check_interval_secs :=
       inherit default_health_interval (health_check_interval_secs pg) (ha_health_check_interval_secs (ha (settings c)));
     max_replica_lag_ms := inherit default_max_lag_ms (max_replica_lag_ms pg) (ha_max_replica_lag_ms (ha (settings c)));
     primary_failover_threshold :=
       inherit default_failover_threshold (primary_failover_threshold pg) (ha_primary_failover_threshold (ha (settings c)));
     failover_cooldown_secs := failover_cooldown_secs pg; failover_min_recovery_checks := failover_min_recovery_checks pg;
     health_check_database := health_check_database pg; whitelist_mode := whitelist_mode pg;
     pg_query_whitelist := or_list (pg_query_whitelist pg) (query_whitelist c);
     pg_sql_injection_protection := if pg_sql_injection_protection pg then true else sql_injection_protection c;
     pg_audit_log := or_list (pg_audit_log pg) (audit_log c);
     slow_query_log_ms := slow_query_log_ms pg; patroni_check := patroni_check pg; patroni_api_port := patroni_api_port pg;
     ssl_cert := ssl_cert pg; ssl_key := ssl_key pg; pg_server_version := pg_server_version pg |}.
Definition with_pgsql (pg : PgsqlConfig) (c : ProxyConfig) : ProxyConfig :=
  {| mysql_enabled := mysql_enabled c; listen_addr := listen_addr c; max_connections := max_connections c; pool_size := pool_size c;
     primary := primary c; replicas := replicas c; users := users c; auth_cache_ttl_secs := auth_cache_ttl_secs c;
     connection_max_idle_secs := connection_max_idle_secs c; read_your_own_writes_ms := read_your_own_writes_ms c;
     query_whitelist := query_whitelist c; sql_injection_protection := sql_injection_protection c; audit_log := audit_log c;
     settings := settings c; pgsql := pg |}.

(** [toml] is the parser with the defaults of the fields filled in; a file that cannot be
    read or parsed is an error. *)
Definition from_str (toml : bytes -> option RawProxyConfig) (s : bytes) : option ProxyConfig :=
  raw ← toml s; from_raw raw.
Definition from_file `{Environment} (toml : bytes -> option RawProxyConfig) (path : bytes) : option ProxyConfig :=
  content ← read_to_string path; from_str toml content.
End Proxy.

(** * What the configuration promises *)
Section SecretProps.
Context `{ENV : Environment} `{SC : SecretCodec} `{!SecretLaws SC}.
Import Secret.

(** ** Keys in hexadecimal *)
Definition hex_digit (n : Z) : Z := if n <? 10 then 48 + n else 87 + n.
Definition hex_text (key : bytes) : bytes := concat (map (fun b => [hex_digit (b / 16); hex_digit (b mod 16)]) key).

Lemma hex_nibble_iff b n : hex_nibble b = Some n <-> 0 <= n < 16 /\ ascii_lower b = hex_digit n.
Proof.
  unfold hex_nibble, ascii_lower, hex_digit. change (ch "0") with 48. change (ch "9") with 57. change (ch "a") with 97.
  change (ch "f") with 102. change (ch "A") with 65. change (ch "F") with 70.
  repeat match goal with
  | |- context [?a <=? ?b] => destruct (Z.leb_spec a b); try lia
  | |- context [?a <? ?b] => destruct (Z.ltb_spec a b); try lia
  end; cbn [andb]; split; intros Hn; simplify_eq; try lia; destruct Hn; f_equal; lia.
Qed.

Lemma nibbles_byte h l : 0 <= h < 16 -> 0 <= l < 16 -> Z.lor (u8 (Z.shiftl h 4)) l = 16 * h + l.
Proof.
  intros Hh Hl. unfold u8. rewrite wrap_small by (unfold in_width; rewrite Z.shiftl_mul_pow2 by done; lia).
  rewrite Z.lor_comm, (lor_add_low 4) by (try done; lia). rewrite ?Z.shiftl_mul_pow2 by done. lia.
Qed.

Lemma hex_bytes_iff n s key : length s = (2 * n)%nat ->
  hex_bytes s = Some key <-> length key = n /\ bytes_ok key /\ to_ascii_lowercase s = hex_text key.
Proof.
  revert s key. induction n as [|n IH]; intros s key Hs.
  - destruct s; [|done]. cbn. split; [intros [= <-]; by repeat constructor | intros (Hl & _)]. by destruct key.
  - destruct s as [|hi [|lo s]]; [done | simpl in Hs; lia |]. simpl in Hs.
    assert (length s = (2 * n)%nat) as Hs' by lia. cbn [hex_bytes to_ascii_lowercase map]. split.
    + destruct (hex_nibble hi) as [h|] eqn:Eh; [|done]. destruct (hex_nibble lo) as [l|] eqn:El; [|done].
      destruct (hex_bytes s) as [key'|] eqn:Ek; [|done]. intros [= <-].
      apply hex_nibble_iff in Eh as [Hh ->], El as [Hl ->]. destruct (proj1 (IH s key' Hs') Ek) as (Hk & Hok & Ht).
      rewrite nibbles_byte by done. split_and!; [simpl; lia | constructor; [unfold byte; lia | done] |].
      assert ((16 * h + l) / 16 = h /\ (16 * h + l) mod 16 = l) as [E1 E2] by (split; Z.to_euclidean_division_equations; lia).
      unfold hex_text. cbn [map concat app]. rewrite E1, E2. by do 2 f_equal.
    + intros (Hk & Hok & Ht). destruct key as [|b key]; [done|]. injection Hk as Hk. inversion_clear Hok as [|? ? Hb Hok'].
      unfold hex_text in Ht. cbn [map concat app] in Ht. injection Ht as E1 E2 E3. unfold byte in Hb.
      rewrite (proj2 (hex_nibble_iff hi (b / 16))) by (split; [Z.to_euclidean_division_equations; lia | done]).
      rewrite (proj2 (hex_nibble_iff lo (b mod 16))) by (split; [Z.to_euclidean_division_equations; lia | done]).
      rewrite (proj2 (IH s key Hs')) by done. cbn [mbind option_bind].
      rewrite nibbles_byte by (Z.to_euclidean_division_equations; lia). do 2 f_equal. Z.to_euclidean_division_equations; lia.
Qed.

(** A key is read from the sixty-four hexadecimal digits of its thirty-two bytes, in upper
    or lower case, and from nothing else. *)
Theorem hex_key_exact s key :
  parse_hex_key s = Some key <-> length key = 32%nat /\ bytes_ok key /\ to_ascii_lowercase s = hex_text key.
Proof.
  unfold parse_hex_key. destruct (length s =? 64)%nat eqn:El; cbn [negb].
  - apply Nat.eqb_eq in El. by apply (hex_bytes_iff 32).
  - apply Nat.eqb_neq in El. split; [done|]. intros (Hk & _ & Ht). destruct El.
    transitivity (length (to_ascii_lowercase s)); [by unfold to_ascii_lowercase; rewrite length_map|].
    rewrite Ht. unfold hex_text. clear -Hk. change 64%nat with (2 * 32)%nat. rewrite <- Hk. clear Hk.
    induction key as [|b key IH]; [done|]. cbn [map concat app length]. rewrite IH. lia.
Qed.

(** ** Passwords at rest *)

Lemma decrypt_encrypt_value nonce v key : length nonce = 12%nat -> utf8_valid v = true ->
  decrypt (encrypt nonce v key) key = Some v.
Proof.
  intros Hn Hv. unfold decrypt, encrypt. rewrite starts_with_app. cbn [negb].
  rewrite (drop_app_length' ENC_PREFIX) by done. rewrite url_safe_decode_encode. cbn [mbind option_bind].
  rewrite length_app, (proj2 (Nat.ltb_ge _ _)) by lia. rewrite take_app_length', drop_app_length' by done.
  rewrite decrypt_encrypt. cbn [mbind option_bind]. by rewrite Hv.
Qed.

Definition is_reference (v : bytes) : bool :=
  starts_with v (bs "env:") || starts_with v (bs "file:") || starts_with v ENC_PREFIX.

(** Whatever password is configured, what is stored for it resolves to the same password,
    as long as the key is the same; with a key, a password that is not a reference is stored
    encrypted. *)
Theorem stored_secret_resolves nonce v : length nonce = 12%nat -> utf8_valid v = true ->
  let stored := prepare_for_storage nonce v load_encryption_key in
  resolve_secret stored = resolve_secret v /\
  (forall key, load_encryption_key = Some key -> is_reference v = false -> v <> [] -> stored = encrypt nonce v key).
Proof.
  intros Hn Hv stored. unfold stored, prepare_for_storage. fold (is_reference v).
  destruct (is_reference v) eqn:Hr; [done|]. destruct (beq v []) eqn:Hb; [apply bool_decide_eq_true in Hb as ->; done|].
  destruct load_encryption_key as [key|] eqn:Hk; [|done]. split; [|by intros ? [= ->]].
  unfold is_reference in Hr. apply orb_false_iff in Hr as [[H1 H2]%orb_false_iff H3].
  transitivity v; [|unfold resolve_secret; by rewrite H1, H2, H3].
  unfold resolve_secret. rewrite Hk, decrypt_encrypt_value by done. reflexivity.
Qed.

(** A reference to a secret that is not there is the empty password: a variable that is not
    set, a file that cannot be read, an encrypted value without a key or under another one. *)
Theorem missing_secret_is_empty v : is_reference v = true ->
  (starts_with v (bs "env:") = true -> env_var (drop 4 v) = None) ->
  (starts_with v (bs "file:") = true -> read_to_string (drop 5 v) = None) ->
  (starts_with v ENC_PREFIX = true -> forall key, load_encryption_key = Some key -> decrypt v key = None) ->
  resolve_secret v = [].
Proof.
  unfold is_reference, resolve_secret. intros Hr H1 H2 H3.
  destruct (starts_with v (bs "env:")); [by rewrite H1|]. destruct (starts_with v (bs "file:")); [by rewrite H2|].
  cbn [orb] in Hr. rewrite Hr in *. destruct load_encryption_key as [key|]; [by rewrite H3 | done].
Qed.
End SecretProps.

(** ** Inheritance *)
Module ProxyProps.
Import Proxy.

Lemma or_list_nil {A} (a b : list A) : or_list a b = [] <-> a = [] /\ b = [].
Proof. destruct a; cbn; naive_solver. Qed.
Lemma inherit_idem d v top : inherit d (inherit d v top) top = inherit d v top.
Proof. unfold inherit. destruct (v =? d) eqn:E; [|by rewrite E]. by destruct (top =? d). Qed.
Lemma or_list_idem {A} (a b : list A) : or_list (or_list a b) b = or_list a b.
Proof. by destruct a, b. Qed.

(** A configuration is accepted exactly when some section names a primary; the section of
    MySQL comes first, then the shared one, then the one of PostgreSQL.  The listener of
    MySQL is on when its own section says anything of a backend or an address. *)
Theorem from_raw_accepts raw :
  let sh := default shared_default (shared raw) in
  (is_Some (from_raw raw) <-> is_Some (raw_primary raw) \/ is_Some (sh_primary sh) \/ is_Some (pg_primary (raw_pgsql raw))) /\
  forall c, from_raw raw = Some c ->
    (forall b, raw_primary raw = Some b -> primary c = b) /\
    (raw_primary raw = None -> forall b, sh_primary sh = Some b -> primary c = b) /\
    (mysql_enabled c = false <-> raw_primary raw = None /\ raw_listen_addr raw = None /\ raw_replicas raw = []).
Proof.
  cbv zeta. unfold from_raw. split.
  - destruct (raw_primary raw), (sh_primary _), (pg_primary _); cbn; split; intros H; try by eauto; try by destruct H.
    destruct H as [[? ?]|[[? ?]|[? ?]]]; done.
  - intros c. destruct (or_else (or_else _ _) _) as [p|] eqn:E; [|done]. intros [= <-]. cbn [primary mysql_enabled].
    split_and!.
    + intros b Hb. rewrite Hb in E. cbn in E. congruence.
    + intros Hb b Hs. rewrite Hb, Hs in E. cbn in E. congruence.
    + destruct (raw_primary raw), (raw_listen_addr raw), (raw_replicas raw); cbn; naive_solver.
Qed.

(** Neither protocol accepts everybody, unless no section of the file lists a user. *)
Theorem open_only_without_users raw c : from_raw raw = Some c ->
  (users c = [] <-> raw_users raw = [] /\ sh_users (default shared_default (shared raw)) = [] /\ pg_users (pgsql c) = []) /\
  (pg_users (resolved_pgsql c) = [] <-> users c = []).
Proof.
  unfold from_raw. destruct (or_else (or_else _ _) _); [|done]. intros [= <-]. cbn [users pgsql resolved_pgsql pg_users].
  rewrite !or_list_nil. naive_solver.
Qed.

(** Resolving the section of PostgreSQL a second time changes nothing, and it always has a
    primary. *)
Theorem resolved_pgsql_idempotent c :
  resolved_pgsql (with_pgsql (resolved_pgsql c) c) = resolved_pgsql c /\ is_Some (pg_primary (resolved_pgsql c)).
Proof.
  split; [|cbn; destruct (pg_primary _); eauto].
  destruct c as [? ? ? ? p reps us ? ? ? wl inj al st pg]. unfold resolved_pgsql, with_pgsql. cbn [pgsql primary replicas users].
  cbn. rewrite !inherit_idem, !or_list_idem. f_equal; [by destruct (pg_primary pg)|].
  by destruct (pg_sql_injection_protection pg), inj.
Qed.
End ProxyProps.

(** ** Concrete runs

    A machine with one variable set, and a cipher that stores the key's length before the
    text and opens it for keys of that length only. *)
Definition demo_key_text : bytes := bs "000102030405060708090a0b0c0d0e0f101112131415161718191A1B1C1D1E1F".
Definition plain_env : Environment := {|
  env_var v := if beq v (bs "DB_PASSWORD") then Some (bs "s3cret")
               else if beq v (bs "TURBINEPROXY_SECRET_KEY") then Some demo_key_text else None;
  read_to_string p := if beq p (bs "/run/pw") then Some (bs "s3cret" ++ [10]) else None;
  keyring_secret := None |}.
Definition toy_codec : SecretCodec := {|
  aes_gcm_encrypt key nonce text := Z.of_nat (length key) :: text;
  aes_gcm_decrypt key nonce c := match c with n :: text => if n =? Z.of_nat (length key) then Some text else None | [] => None end;
  url_safe_encode d := d;
  url_safe_decode d := Some d |}.
#[export] Instance toy_secret_laws : SecretLaws toy_codec.
Proof. split; [|done]. intros key nonce text. cbn. by rewrite Z.eqb_refl. Qed.

Section ConfigWitnesses.
#[local] Existing Instance plain_env.
#[local] Existing Instance toy_codec.

Example secrets_resolve :
  map Secret.resolve_secret [bs "env:DB_PASSWORD"; bs "env:UNSET"; bs "file:/run/pw"; bs "plain"; bs "enc:short"]
  = [bs "s3cret"; []; bs "s3cret"; bs "plain"; []].
Proof. by vm_compute. Qed.

Lemma stored_secret_resolves_witness :
  Secret.resolve_secret (Secret.prepare_for_storage (repeat 0 12) (bs "s3cret") Secret.load_encryption_key) = bs "s3cret".
Proof.
  destruct (stored_secret_resolves (repeat 0 12) (bs "s3cret") eq_refl eq_refl) as [H _].
  etransitivity; [exact H|]. by vm_compute.
Defined.

Lemma missing_secret_is_empty_witness : Secret.resolve_secret (bs "env:UNSET") = [].
Proof.
  apply (missing_secret_is_empty (bs "env:UNSET")); [by vm_compute | by vm_compute | |]; intros H; vm_compute in H; done.
Defined.
End ConfigWitnesses.
