(* ===== verification/CircuitBreaker.v ===== *)
(** * Per-backend circuit breaker (src/src/proxy/circuit_breaker.rs)

    The breaker's three atomics are the fields of [CircuitBreaker]; every method is
    one function on it, the clock value read by the method an argument.  The state
    machine is the relation [cb_step]; invariants are proved for every state
    reachable from [new]. *)

From S2P Require Import Prelude.

Inductive CbState := Closed | Open | HalfOpen.
#[export] Instance CbState_eq_dec : EqDecision CbState.
Proof. solve_decision. Defined.

(** The discriminants of the [repr(u8)] enum. *)
Definition as_u8 (s : CbState) : Z :=
  match s with Closed => 0 | Open => 2 | HalfOpen => 1 end.

Definition from_u8 (v : Z) : CbState :=
  if v =? 0 then Closed
  else if v =? 1 then HalfOpen
  else if v =? 2 then Open
  else Closed.

Record CircuitBreaker := {
  cb_state : Z;
  consecutive_errors : Z;
  opened_at : Z;
  threshold : Z;
  recovery_ms : Z;
}.

Definition new (threshold recovery_ms : Z) : CircuitBreaker := {|
  cb_state := as_u8 Closed;
  consecutive_errors := 0;
  opened_at := 0;
  threshold := threshold;
  recovery_ms := recovery_ms;
|}.

Definition state (cb : CircuitBreaker) : CbState := from_u8 (cb_state cb).

Definition set_state (s : CbState) (cb : CircuitBreaker) : CircuitBreaker := {|
  cb_state := as_u8 s;
  consecutive_errors := consecutive_errors cb;
  opened_at := opened_at cb;
  threshold := threshold cb;
  recovery_ms := recovery_ms cb;
|}.

Definition set_errors (n : Z) (cb : CircuitBreaker) : CircuitBreaker := {|
  cb_state := cb_state cb;
  consecutive_errors := n;
  opened_at := opened_at cb;
  threshold := threshold cb;
  recovery_ms := recovery_ms cb;
|}.

Definition open (now_ms : Z) (cb : CircuitBreaker) : CircuitBreaker := {|
  cb_state := as_u8 Open;
  consecutive_errors := 0;
  opened_at := now_ms;
  threshold := threshold cb;
  recovery_ms := recovery_ms cb;
|}.

Definition allows (now_ms : Z) (cb : CircuitBreaker) : bool * CircuitBreaker :=
  match state cb with
  | Closed => (true, cb)
  | HalfOpen => (true, cb)
  | Open =>
      if recovery_ms cb <=? sat_sub now_ms (opened_at cb)
      then (true, set_state HalfOpen cb)
      else (false, cb)
  end.

Definition record_success (cb : CircuitBreaker) : CircuitBreaker :=
  let prev := state cb in
  let cb := set_errors 0 cb in
  if decide (prev = Closed) then cb else set_state Closed cb.

Definition record_failure (now_ms : Z) (cb : CircuitBreaker) : CircuitBreaker :=
  match state cb with
  | Closed =>
      let errors := u32 (consecutive_errors cb + 1) in
      let cb := set_errors errors cb in
      if threshold cb <=? errors then open now_ms cb else cb
  | HalfOpen => open now_ms cb
  | Open => cb
  end.

Definition error_count (cb : CircuitBreaker) : Z := consecutive_errors cb.

(** ** The state machine *)

Lemma from_as_u8 s : from_u8 (as_u8 s) = s.
Proof. by destruct s. Qed.

Inductive cb_op := OpAllows (now_ms : Z) | OpSuccess | OpFailure (now_ms : Z).

Definition apply_op (op : cb_op) (cb : CircuitBreaker) : CircuitBreaker :=
  match op with
  | OpAllows t => snd (allows t cb)
  | OpSuccess => record_success cb
  | OpFailure t => record_failure t cb
  end.

Inductive cb_step : CircuitBreaker -> CircuitBreaker -> Prop :=
| cb_step_op op cb : cb_step cb (apply_op op cb).

(** Run a list of operations, oldest first. *)
Definition run_ops (ops : list cb_op) (cb : CircuitBreaker) : CircuitBreaker :=
  foldl (fun cb op => apply_op op cb) cb ops.
#[local] Arguments run_ops : simpl never.

(** Well-formed breakers: the state byte decodes, the threshold is a [u32], and the
    error counter stays below the threshold and is zero outside [Closed]. *)
Record cb_wf (cb : CircuitBreaker) : Prop := {
  wf_state : cb_state cb = as_u8 (state cb);
  wf_threshold : in_width 32 (threshold cb);
  wf_errors : 0 <= consecutive_errors cb < Z.max 1 (threshold cb);
  wf_reset : state cb <> Closed -> consecutive_errors cb = 0;
}.

Lemma breaker_new_wf th r : in_width 32 th -> cb_wf (new th r).
Proof. intros Hth. unfold in_width in *. split; simpl; [done | exact Hth | lia | done]. Qed.

Lemma open_wf t cb : in_width 32 (threshold cb) -> cb_wf (open t cb).
Proof. intros Hth. unfold in_width in *. split; simpl; [done | exact Hth | lia | done]. Qed.

Lemma closed_wf n cb :
  in_width 32 (threshold cb) -> 0 <= n < Z.max 1 (threshold cb) -> state cb = Closed ->
  cb_state cb = as_u8 (state cb) -> cb_wf (set_errors n cb).
Proof. intros ??? Hs. split; simpl; [exact Hs | done | done | done]. Qed.

Lemma breaker_op_wf op cb : cb_wf cb -> cb_wf (apply_op op cb).
Proof.
  intros Hwf. destruct Hwf as [Hs Hth He Hr] eqn:Hw. clear Hw.
  unfold in_width in Hth. destruct op as [t| |t]; simpl.
  - unfold allows. destruct (state cb) eqn:E; simpl; [done| |done].
    case_match; [|done].
    assert (consecutive_errors cb = 0) as H0 by (apply Hr; congruence).
    split; simpl; [done | done | lia | done].
  - unfold record_success. destruct (decide (state cb = Closed)) as [E|E].
    + apply closed_wf; [done | lia | done | done].
    + split; simpl; [done | done | lia | done].
  - unfold record_failure. destruct (state cb) eqn:E.
    + case_match eqn:Ht; simpl in Ht; bool_to_prop.
      * by apply open_wf.
      * assert (u32 (consecutive_errors cb + 1) = consecutive_errors cb + 1) as Hu.
        { apply wrap_small. unfold in_width. lia. }
        rewrite Hu in *. apply closed_wf; [done | lia | done | by rewrite E].
    + done.
    + by apply open_wf.
Qed.
#[export] Hint Resolve breaker_new_wf breaker_op_wf : proxy.

Lemma run_ops_app o1 o2 cb : run_ops (o1 ++ o2) cb = run_ops o2 (run_ops o1 cb).
Proof. apply foldl_app. Qed.

Lemma run_ops_cons op ops cb : run_ops (op :: ops) cb = run_ops ops (apply_op op cb).
Proof. done. Qed.

Lemma run_ops_threshold ops cb : threshold (run_ops ops cb) = threshold cb.
Proof.
  revert cb. induction ops as [|op ops IH]; intros cb; [done|].
  rewrite run_ops_cons, IH. destruct op; simpl;
    unfold allows, record_success, record_failure; repeat case_match; done.
Qed.

Lemma failures_from_open ts cb : state cb = Open -> run_ops (map OpFailure ts) cb = cb.
Proof.
  intros Ho. induction ts as [|t ts IH]; [done|].
  rewrite map_cons, run_ops_cons. simpl. unfold record_failure. by rewrite Ho.
Qed.

(** Failures in the closed state: the counter after [n] failures, or open. *)
Lemma failures_from_closed cb ts :
  cb_wf cb -> state cb = Closed ->
  let cb' := run_ops (map OpFailure ts) cb in
  let total := consecutive_errors cb + Z.of_nat (length ts) in
  if decide (total < Z.max 1 (threshold cb) \/ ts = [])
  then state cb' = Closed /\ consecutive_errors cb' = total
  else state cb' = Open.
Proof.
  revert cb. induction ts as [|t ts IH]; intros cb Hwf Hc; simpl.
  - rewrite decide_True by auto. unfold run_ops. simpl. split; [done | lia].
  - destruct Hwf as [Hs Hth He Hr]. unfold in_width in Hth.
    assert (u32 (consecutive_errors cb + 1) = consecutive_errors cb + 1) as Hu.
    { apply wrap_small. unfold in_width. lia. }
    rewrite run_ops_cons. simpl. unfold record_failure. rewrite Hc, Hu. simpl.
    destruct (threshold cb <=? consecutive_errors cb + 1) eqn:Ht; bool_to_prop.
    + rewrite decide_False by (intros [?|?]; [lia | done]).
      by rewrite failures_from_open.
    + assert (cb_wf (set_errors (consecutive_errors cb + 1) cb)) as Hw
        by (apply closed_wf; [exact Hth | lia | done | done]).
      specialize (IH _ Hw Hc). simpl in IH.
      destruct (decide (_ \/ ts = [])) as [Hd|Hd].
      * rewrite decide_True by (left; destruct Hd as [?| ->]; simpl in *; lia).
        destruct IH as [IH1 IH2]. split; [exact IH1 | lia].
      * rewrite decide_False; [exact IH|].
        intros [Hlt|?]; [|done]. apply Hd. left. lia.
Qed.

(** ** Properties *)

(** Whatever sequence of [allows], [record_success] and [record_failure] calls a
    new breaker goes through, its state byte is one of the three discriminants, its
    error counter stays below the threshold, and it is zero outside [Closed]; so the
    [_ => Closed] fallback of [from_u8] is never taken and the counter never wraps. *)
Theorem breaker_reachable_wf th r cb :
  in_width 32 th -> steps cb_step (new th r) cb ->
  cb_wf cb /\ in_width 32 (consecutive_errors cb).
Proof.
  intros Hth Hst. assert (cb_wf cb) as Hwf.
  { eapply (steps_invariant cb_step cb_wf); [|exact Hst | auto with proxy].
    intros s1 s2 H1 H2. inversion H2. by apply breaker_op_wf. }
  split; [done|]. destruct Hwf as [_ Ht He _]. unfold in_width in *. lia.
Qed.

Lemma breaker_reachable_wf_witness :
  steps cb_step (new 1 10) (open 7 (new 1 10)) /\ cb_wf (open 7 (new 1 10)).
Proof.
  assert (steps cb_step (new 1 10) (open 7 (new 1 10))) as H.
  { apply steps_one. exact (cb_step_op (OpFailure 7) (new 1 10)). }
  split; [exact H|].
  exact (proj1 (breaker_reachable_wf 1 10 _ ltac:(unfold in_width; lia) H)).
Defined.

(** From a fresh breaker, [n] consecutive failures open it exactly when [n]
    reaches the threshold (a threshold of 0 acts as 1), and before that the counter
    is the number of failures. *)
Theorem breaker_opens_at_threshold th r ts :
  in_width 32 th ->
  let cb := run_ops (map OpFailure ts) (new th r) in
  (state cb = Open <-> Z.max 1 th <= Z.of_nat (length ts)) /\
  (Z.of_nat (length ts) < Z.max 1 th ->
   state cb = Closed /\ consecutive_errors cb = Z.of_nat (length ts)).
Proof.
  intros Hth cb.
  pose proof (failures_from_closed (new th r) ts (breaker_new_wf th r Hth) eq_refl) as H.
  fold cb in H. cbn [consecutive_errors threshold new] in H.
  assert (ts = [] -> Z.of_nat (length ts) < Z.max 1 th) as Hnil by (intros ->; simpl; lia).
  destruct (decide _) as [Hd|Hd].
  - assert (Z.of_nat (length ts) < Z.max 1 th) by (destruct Hd as [?|?]; [lia | auto]).
    destruct H as [-> ->]. split; [split; [done | lia] | intros _; split; [done | lia]].
  - rewrite H. split; [split; [|done]; intros _|]; intros;
      destruct (decide (Z.of_nat (length ts) < Z.max 1 th)); try lia;
      exfalso; apply Hd; left; lia.
Qed.

Lemma breaker_opens_at_threshold_witness :
  state (run_ops (map OpFailure [1; 2; 3]) (new 3 100)) = Open.
Proof.
  apply (proj1 (breaker_opens_at_threshold 3 100 [1; 2; 3] ltac:(unfold in_width; lia))).
  simpl. lia.
Defined.

(** Operations of callers that only ask and report failures, all before [limit]. *)
Definition before (limit : Z) (op : cb_op) : Prop :=
  match op with
  | OpAllows t => sat_sub t limit = 0 /\ t < limit
  | OpFailure _ => True
  | OpSuccess => False
  end.

Lemma open_stays_step cb op :
  state cb = Open -> 0 < recovery_ms cb -> before (opened_at cb + recovery_ms cb) op ->
  apply_op op cb = cb.
Proof.
  intros Ho Hr Hb. destruct op as [t| |t]; simpl in *; [|done|].
  - unfold allows. rewrite Ho. case_match eqn:E; [|done]. bool_to_prop.
    unfold sat_sub in *. lia.
  - unfold record_failure. by rewrite Ho.
Qed.

(** Once open, a breaker stays open and refuses every request until
    [recovery_ms] have passed, whatever requests and failures happen meanwhile; the
    first request at or after that instant is let through and moves it to
    [HalfOpen]. *)
Theorem open_breaker_blocks_then_probes cb ops t :
  state cb = Open -> 0 < recovery_ms cb ->
  Forall (before (opened_at cb + recovery_ms cb)) ops ->
  let cb' := run_ops ops cb in
  cb' = cb /\
  (t < opened_at cb + recovery_ms cb -> allows t cb' = (false, cb')) /\
  (opened_at cb + recovery_ms cb <= t ->
   fst (allows t cb') = true /\ state (snd (allows t cb')) = HalfOpen).
Proof.
  intros Ho Hr Hops. assert (run_ops ops cb = cb) as E.
  { induction Hops as [|op ops Hop _ IH]; [done|].
    by rewrite run_ops_cons, (open_stays_step cb op). }
  cbn zeta. rewrite E. unfold allows. rewrite Ho. split; [done|].
  split; intros Ht; case_match eqn:Hc; bool_to_prop; unfold sat_sub in *; try lia; done.
Qed.

Lemma open_breaker_blocks_then_probes_witness :
  let cb := open 1000 (new 1 500) in
  allows 1400 (run_ops [OpAllows 1100; OpFailure 1200] cb) = (false, cb).
Proof.
  simpl.
  pose (H := open_breaker_blocks_then_probes (open 1000 (new 1 500))
               [OpAllows 1100; OpFailure 1200] 1400 eq_refl eq_refl
               ltac:(repeat constructor; vm_compute; done)).
  apply (proj1 (proj2 H)). vm_compute. done.
Defined.

(** A success closes the breaker and clears its counter from every state; a
    failed probe reopens it at the time of the failure. *)
Theorem success_closes_probe_failure_reopens cb t :
  state (record_success cb) = Closed /\ consecutive_errors (record_success cb) = 0 /\
  (state cb = HalfOpen ->
   state (record_failure t cb) = Open /\ opened_at (record_failure t cb) = t).
Proof.
  unfold record_success, record_failure. split_and!.
  - destruct (decide (state cb = Closed)) as [E|E]; [exact E | done].
  - by destruct (decide (state cb = Closed)).
  - by intros ->.
Qed.

Lemma success_closes_probe_failure_reopens_witness :
  state (record_success (open 5 (new 1 1))) = Closed.
Proof.
  exact (proj1 (success_closes_probe_failure_reopens (open 5 (new 1 1)) 9)).
Defined.

(** The half-open state does not limit traffic to one probe: every request is
    let through until a result is recorded. *)
Theorem half_open_admits_every_request cb ts :
  state cb = HalfOpen ->
  run_ops (map OpAllows ts) cb = cb /\ Forall (fun t => fst (allows t cb) = true) ts.
Proof.
  intros Hh. split.
  - induction ts as [|t ts IH]; [done|]. rewrite map_cons, run_ops_cons. simpl.
    unfold allows. by rewrite Hh.
  - apply Forall_forall. intros t _. unfold allows. by rewrite Hh.
Qed.

Lemma half_open_admits_every_request_witness :
  run_ops (map OpAllows [20; 21; 22]) (snd (allows 20 (open 5 (new 1 10))))
  = snd (allows 20 (open 5 (new 1 10))).
Proof. apply (half_open_admits_every_request _ [20; 21; 22]). vm_compute. done. Defined.
