(* ===== verification/Classifier.v ===== *)
(** * Query classification (src/src/proxy/classifier.rs)

    Keyword matching through the upper-case table, the intent of a statement, the
    table names it touches and the sticky-backend hint.  The keyword scans are
    proved equal to prefix and substring search on the upper-cased text, and the
    loops over comments are shown to have enough fuel. *)

From stdpp Require Import sorting.
From S2P Require Import Prelude Bytes.

Inductive QueryIntent := Read | Write | Transaction | Other.
#[export] Instance QueryIntent_eq_dec : EqDecision QueryIntent.
Proof. solve_decision. Defined.

(** ** Keyword matching *)

(** The compile-time table [UPPER], entry by entry. *)
Definition UPPER : list Z :=
  map (fun i => if (97 <=? i) && (i <=? 122) then i - 32 else i) (seqZ 0 256).
(** [UPPER[b as usize]]; a [u8] is always in range. *)
Definition upper_at (b : Z) : Z := default 0 (UPPER !! Z.to_nat b).

(** [a.iter().zip(b).all(|(&b, &k)| UPPER[b as usize] == k)]. *)
Fixpoint zip_all (s kw : bytes) : bool :=
  match s, kw with
  | b :: s', k :: kw' => (upper_at b =? k) && zip_all s' kw'
  | _, _ => true
  end.

Definition starts_with_kw (s kw : bytes) : bool :=
  (length kw <=? length s)%nat && zip_all (take (length kw) s) kw.

(** [s.windows(n)]. *)
Fixpoint windows (n : nat) (s : bytes) : list bytes :=
  if (length s <? n)%nat then []
  else match s with
       | [] => [[]]
       | _ :: s' => take n s :: windows n s'
       end.

Definition contains_kw (s pattern : bytes) : bool :=
  if (length s <? length pattern)%nat then false
  else existsb (fun w => zip_all w pattern) (windows (length pattern) s).

(** ** Classification *)

(** One turn of the comment-skipping loop: the text after a leading comment. *)
Definition skip_one (s : bytes) : option bytes :=
  match (if starts_with s (bs "/*") then str_find s (bs "*/") else None) with
  | Some e => Some (drop (e + 2) s)
  | None =>
      match (if starts_with s (bs "--") then find_byte (Z.eqb 10) s else None) with
      | Some e => Some (drop (e + 1) s)
      | None => None
      end
  end.

(** [fuel] bounds the number of turns; every turn drops at least one byte. *)
Fixpoint skip_loop (fuel : nat) (s : bytes) : bytes :=
  let r := trim_start s in
  match fuel with
  | O => r
  | S fuel' => match skip_one r with Some r' => skip_loop fuel' r' | None => r end
  end.
Definition skip_leading_comments (s : bytes) : bytes := skip_loop (length s) s.

Definition any_kw (s : bytes) (kws : list string) : bool :=
  existsb (fun k => starts_with_kw s (bs k)) kws.

Definition classify (sql : bytes) : QueryIntent :=
  let trimmed := trim_start sql in
  let effective := skip_leading_comments trimmed in
  if any_kw effective ["SELECT"; "(SELECT"] then
    if contains_kw sql (bs "FOR UPDATE") || contains_kw sql (bs "FOR SHARE")
    then Write else Read
  else if any_kw effective
    ["INSERT"; "UPDATE"; "DELETE"; "REPLACE"; "CREATE"; "ALTER"; "DROP"; "TRUNCATE";
     "RENAME"; "LOAD"; "GRANT"; "REVOKE"] then Write
  else if any_kw effective
    ["BEGIN"; "START TRANSACTION"; "COMMIT"; "ROLLBACK"; "SAVEPOINT";
     "RELEASE SAVEPOINT"; "XA "] then Transaction
  else Other.

(** ** Table names *)

Fixpoint bytes_leb (a b : bytes) : bool :=
  match a, b with
  | [], _ => true
  | _ :: _, [] => false
  | x :: a', y :: b' => (x <? y) || ((x =? y) && bytes_leb a' b')
  end.

(** [Vec::sort] on strings; equal strings are indistinguishable, so any sort will do. *)
Fixpoint insert_sorted (x : bytes) (l : list bytes) : list bytes :=
  match l with
  | [] => [x]
  | y :: l' => if bytes_leb x y then x :: l else y :: insert_sorted x l'
  end.
Definition sort_bytes (l : list bytes) : list bytes := foldr insert_sorted [] l.

(** [Vec::dedup]: drop consecutive repetitions. *)
Fixpoint dedup (l : list bytes) : list bytes :=
  match l with
  | [] => []
  | x :: l' =>
      match dedup l' with
      | [] => [x]
      | y :: r => if beq x y then y :: r else x :: y :: r
      end
  end.

Section Tables.
Context `{CT : CaseTable}.

Definition ends_identifier (b : Z) : bool :=
  (b =? 32) || (b =? 44) || (b =? 40) || (b =? 59) || (b =? 10).

(** The name that follows one keyword occurrence; [None] when nothing is pushed. *)
Definition table_after (after : bytes) : option bytes :=
  let after := trim_start after in
  let stop := default (length after) (find_byte ends_identifier after) in
  let table := to_lowercase (trim_matches dquote (trim_matches 96 (take stop after))) in
  let dotted := str_contains table (bs ".") in
  if (negb (beq table []) && negb dotted) || dotted then
    let name := default table (list.last (split_on 46 table)) in
    if beq name [] then None else Some name
  else None.

(** [while let Some(pos) = search.find(keyword)]. *)
Fixpoint scan_tables (fuel : nat) (keyword search : bytes) : list bytes :=
  match fuel with
  | O => []
  | S fuel' =>
      match str_find search keyword with
      | None => []
      | Some pos =>
          let rest := drop (pos + length keyword) search in
          match table_after rest with
          | Some name => name :: scan_tables fuel' keyword rest
          | None => scan_tables fuel' keyword rest
          end
      end
  end.

Definition extract_tables_simple (sql : bytes) : list bytes :=
  let upper := to_uppercase sql in
  let found := concat (map (fun k => scan_tables (length upper) (bs k) upper)
                           ["FROM "; "JOIN "; "INTO "; "UPDATE "; "TABLE "]) in
  dedup (sort_bytes found).
End Tables.

(** ** The trait and its MySQL implementation *)

Class QueryClassifier (C : Type) := {
  classify_with : C -> bytes -> QueryIntent;
  extract_tables_with : C -> bytes -> list bytes;
}.
Definition is_read_only `{QueryClassifier C} (c : C) (sql : bytes) : bool :=
  bool_decide (classify_with c sql = Read).

Inductive MySQLClassifier := MySQLClassifier_.
#[export] Instance mysql_classifier `{CT : CaseTable} : QueryClassifier MySQLClassifier := {
  classify_with := fun _ => classify;
  extract_tables_with := fun _ => extract_tables_simple;
}.

(** ** Sticky-backend hint *)

Definition sticky_key : bytes := bs "sticky_backend=".

Definition hint_in_comment (comment : bytes) : option bool :=
  match str_find (to_ascii_uppercase comment) (to_ascii_uppercase sticky_key) with
  | Some pos =>
      let after := trim_start (drop (pos + length sticky_key) comment) in
      if starts_with after (bs "1") then Some true
      else if starts_with after (bs "0") then Some false
      else None
  | None => None
  end.

(** The scan from byte [i], on the text that remains. *)
Fixpoint sticky_scan (fuel : nat) (s : bytes) : option bool :=
  match fuel, s with
  | S fuel', a :: ((b :: s2) as s1) =>
      if (a =? 47) && (b =? 42) then
        match str_find s2 (bs "*/") with
        | Some e =>
            match hint_in_comment (take e s2) with
            | Some v => Some v
            | None => sticky_scan fuel' (drop (e + 2) s2)
            end
        | None => sticky_scan fuel' s1
        end
      else sticky_scan fuel' s1
  | _, _ => None
  end.
Definition extract_sticky_hint (sql : bytes) : option bool := sticky_scan (length sql) sql.

Section Examples.
#[local] Instance ct : CaseTable := ascii_table.
Example classify_locking : classify (bs "select id from t for share") = Write.
Proof. reflexivity. Qed.
Example tables_ex :
  extract_tables_simple (bs "SELECT * FROM db.orders o JOIN `users` u, INSERT INTO orders")
  = [bs "orders"; bs "users"].
Proof. reflexivity. Qed.
Example sticky_ex : extract_sticky_hint (bs "/* a */ /* STICKY_backend= 0 */ SELECT 1") = Some false.
Proof. reflexivity. Qed.
End Examples.

(** ** Lemmas *)

Lemma upper_at_ascii b : byte b -> upper_at b = ascii_upper b.
Proof.
  intros Hb. unfold upper_at, UPPER, byte in *.
  rewrite list_lookup_fmap, lookup_seqZ_lt by lia. simpl.
  unfold ascii_upper. by rewrite Z.add_0_l, Z2Nat.id by lia.
Qed.

Lemma bytes_ok_cons b s : bytes_ok (b :: s) <-> byte b /\ bytes_ok s.
Proof. apply Forall_cons_iff. Qed.

Lemma bytes_ok_drop n s : bytes_ok s -> bytes_ok (drop n s).
Proof. apply Forall_drop. Qed.

Lemma bytes_ok_suffix p s : bytes_ok (p ++ s) -> bytes_ok s.
Proof. by intros [_ H]%Forall_app. Qed.

Lemma bytes_ok_trim_start s : bytes_ok s -> bytes_ok (trim_start s).
Proof. destruct (trim_start_suffix s) as [p Hp]. rewrite Hp at 1. apply bytes_ok_suffix. Qed.

Lemma upper_length s : length (to_ascii_uppercase s) = length s.
Proof. apply length_map. Qed.

Lemma ascii_upper_idem b : ascii_upper (ascii_upper b) = ascii_upper b.
Proof. unfold ascii_upper. repeat case_match; bool_to_prop; lia. Qed.

Lemma ascii_upper_byte b : byte b -> byte (ascii_upper b).
Proof. unfold byte, ascii_upper. intros. case_match; bool_to_prop; lia. Qed.

Lemma upper_bytes_ok s : bytes_ok s -> bytes_ok (to_ascii_uppercase s).
Proof. intros H. apply Forall_fmap. eapply Forall_impl; [|exact H]. exact ascii_upper_byte. Qed.

Lemma zip_all_prefix s kw :
  bytes_ok s -> (length kw <= length s)%nat ->
  zip_all (take (length kw) s) kw = starts_with (to_ascii_uppercase s) kw.
Proof.
  revert s. induction kw as [|k kw IH]; intros s Hs Hl; simpl; [by destruct s|].
  destruct s as [|b s]; simpl in *; [lia|].
  apply bytes_ok_cons in Hs as [Hb Hs]. rewrite upper_at_ascii by done.
  f_equal. apply IH; [done|lia].
Qed.

Lemma starts_with_short s p : (length s < length p)%nat -> starts_with s p = false.
Proof.
  revert s. induction p as [|b p IH]; intros [|c s] Hl; simpl in *; try lia.
  rewrite IH by lia. apply andb_false_r.
Qed.

Lemma starts_with_kw_upper s kw :
  bytes_ok s -> starts_with_kw s kw = starts_with (to_ascii_uppercase s) kw.
Proof.
  intros Hs. unfold starts_with_kw. destruct (length kw <=? length s)%nat eqn:Hl.
  - apply Nat.leb_le in Hl. simpl. by apply zip_all_prefix.
  - apply Nat.leb_gt in Hl. simpl. symmetry. apply starts_with_short.
    by rewrite upper_length.
Qed.

Lemma windows_short n s : (length s < n)%nat -> windows n s = [].
Proof. intros H. destruct s; simpl in *; by rewrite (proj2 (Nat.ltb_lt _ _)) by lia. Qed.

Lemma windows_cons n b s :
  (n <= S (length s))%nat -> windows n (b :: s) = take n (b :: s) :: windows n s.
Proof. intros H. cbn [windows length]. by rewrite (proj2 (Nat.ltb_ge _ _)) by lia. Qed.

Lemma windows_any s p i :
  bytes_ok s -> (0 < length p)%nat ->
  existsb (fun w => zip_all w p) (windows (length p) s) =
  match find_from i (to_ascii_uppercase s) p with Some _ => true | None => false end.
Proof.
  intros Hs Hp. revert i. induction Hs as [|b s Hb Hs IH]; intros i.
  - rewrite windows_short by done. destruct p; [simpl in *; lia | done].
  - destruct (decide (length p <= S (length s))%nat) as [Hl|Hl].
    + rewrite windows_cons by done. cbn [existsb find_from to_ascii_uppercase map].
      rewrite zip_all_prefix; [|by constructor | done]. cbn [to_ascii_uppercase map].
      destruct (starts_with _ p); [done|]. apply IH.
    + rewrite windows_short by (simpl; lia). cbn [existsb find_from to_ascii_uppercase map].
      change (ascii_upper b :: map ascii_upper s) with (to_ascii_uppercase (b :: s)).
      rewrite starts_with_short by (rewrite upper_length; simpl; lia).
      rewrite <- IH. by rewrite windows_short by lia.
Qed.

Lemma contains_kw_upper s p :
  bytes_ok s -> (0 < length p)%nat ->
  contains_kw s p = str_contains (to_ascii_uppercase s) p.
Proof.
  intros Hs Hp. unfold contains_kw, str_contains, str_find.
  rewrite <- windows_any by done.
  destruct (length s <? length p)%nat eqn:Hl; [|done].
  apply Nat.ltb_lt in Hl. by rewrite windows_short.
Qed.

(** *** Comments *)

Lemma skip_one_inv s r :
  skip_one s = Some r -> exists e, r = drop e s /\ (0 < e <= length s)%nat.
Proof.
  unfold skip_one.
  destruct (if starts_with s (bs "/*") then _ else _) as [e|] eqn:E1.
  - destruct (starts_with s (bs "/*")); [|done].
    apply str_find_some in E1 as [E1 _]. simpl in E1.
    intros [= <-]. exists (e + 2)%nat. split; [done | lia].
  - destruct (if starts_with s (bs "--") then _ else _) as [e|] eqn:E2; [|done].
    destruct (starts_with s (bs "--")); [|done].
    apply find_byte_from_some in E2 as [E2 _].
    intros [= <-]. exists (e + 1)%nat. split; [done | lia].
Qed.

Lemma skip_one_shorter s r : skip_one s = Some r -> (length r < length s)%nat.
Proof. intros (e & -> & He)%skip_one_inv. rewrite length_drop. lia. Qed.

Lemma skip_one_suffix s r : skip_one s = Some r -> exists p, s = p ++ r.
Proof. intros (e & -> & _)%skip_one_inv. exists (take e s). by rewrite take_drop. Qed.

Lemma skip_loop_enough n m s :
  (length s <= n)%nat -> (length s <= m)%nat -> skip_loop n s = skip_loop m s.
Proof.
  revert m s. induction n as [|n IH]; intros m s Hn Hm.
  - destruct s; [|simpl in *; lia]. by destruct m.
  - destruct m as [|m]; [destruct s; [done | simpl in *; lia]|]. simpl.
    destruct (skip_one (trim_start s)) as [r|] eqn:E; [|done].
    apply skip_one_shorter in E. pose proof (trim_start_length s). apply IH; lia.
Qed.

Lemma trim_start_idem s : trim_start (trim_start s) = trim_start s.
Proof.
  remember (length s) as n eqn:Hn. revert s Hn.
  induction n as [n IH] using lt_wf_ind. intros s ->.
  destruct s as [|b s1]; [done|]. cbn [trim_start].
  destruct (ws1 b) eqn:H1; [eapply IH; [|done]; simpl; lia|].
  destruct s1 as [|c s2]; [cbn [trim_start]; by rewrite H1|].
  destruct (ws2 b c) eqn:H2; [eapply IH; [|done]; simpl; lia|].
  destruct s2 as [|d s3]; [cbn [trim_start]; by rewrite H1, H2|].
  destruct (ws3 b c d) eqn:H3; [eapply IH; [|done]; simpl; lia|].
  cbn [trim_start]. by rewrite H1, H2, H3.
Qed.

Lemma skip_loop_final n s :
  (length s <= n)%nat ->
  let r := skip_loop n s in trim_start r = r /\ skip_one r = None /\ exists p, s = p ++ r.
Proof.
  revert s. induction n as [|n IH]; intros s Hn.
  - destruct s; [|simpl in *; lia]. simpl. split_and!; [done..|by exists []].
  - simpl. destruct (trim_start_suffix s) as [p Hp].
    destruct (skip_one (trim_start s)) as [r|] eqn:E.
    + pose proof (skip_one_shorter _ _ E) as Hlt. pose proof (trim_start_length s).
      destruct (IH r) as (H1 & H2 & q & Hq); [lia|]. split_and!; [done..|].
      apply skip_one_suffix in E as [p' Hp']. exists (p ++ p' ++ q).
      by rewrite <- !app_assoc, <- Hq, <- Hp', <- Hp.
    + split_and!; [apply trim_start_idem | done | by exists p].
Qed.

(** *** Case insensitivity *)

Lemma ws1_upper b : ws1 (ascii_upper b) = ws1 b.
Proof. unfold ws1, ascii_upper. case_match; bool_to_prop; lia. Qed.

Lemma ws2_upper b c : ws2 (ascii_upper b) (ascii_upper c) = ws2 b c.
Proof. unfold ws2, ascii_upper. repeat case_match; bool_to_prop; lia. Qed.

Lemma ws3_upper b c d : ws3 (ascii_upper b) (ascii_upper c) (ascii_upper d) = ws3 b c d.
Proof. unfold ws3, ascii_upper. repeat case_match; bool_to_prop; lia. Qed.

Lemma trim_start_upper s :
  trim_start (to_ascii_uppercase s) = to_ascii_uppercase (trim_start s).
Proof.
  remember (length s) as n eqn:Hn. revert s Hn.
  induction n as [n IH] using lt_wf_ind. intros s ->.
  destruct s as [|b s1]; [done|]. cbn [trim_start to_ascii_uppercase map].
  rewrite ws1_upper. destruct (ws1 b); [eapply IH; [|done]; simpl; lia|].
  destruct s1 as [|c s2]; [done|]. cbn [map].
  rewrite ws2_upper. destruct (ws2 b c); [eapply IH; [|done]; simpl; lia|].
  destruct s2 as [|d s3]; [done|]. cbn [map].
  rewrite ws3_upper. destruct (ws3 b c d); [eapply IH; [|done]; simpl; lia|]. done.
Qed.

(** A byte that upper-casing neither produces from nor turns into another byte. *)
Definition caseless (b : Z) : Prop := b < 65 \/ (90 < b < 97) \/ 122 < b.

Lemma caseless_eqb b k : caseless k -> (ascii_upper b =? k) = (b =? k).
Proof. unfold caseless, ascii_upper. intros. case_match; bool_to_prop; lia. Qed.

Lemma starts_with_caseless s p :
  Forall caseless p -> starts_with (to_ascii_uppercase s) p = starts_with s p.
Proof.
  intros Hp. revert s. induction Hp as [|k p Hk Hp IH]; intros [|b s]; try done.
  simpl. by rewrite caseless_eqb, IH.
Qed.

Lemma find_caseless s p i :
  Forall caseless p -> find_from i (to_ascii_uppercase s) p = find_from i s p.
Proof.
  intros Hp. revert i. induction s as [|b s IH]; intros i; [done|].
  cbn [to_ascii_uppercase map find_from].
  change (ascii_upper b :: map ascii_upper s) with (to_ascii_uppercase (b :: s)).
  rewrite starts_with_caseless by done. destruct (starts_with _ _); [done|]. apply IH.
Qed.

Lemma find_byte_caseless k s i :
  caseless k -> find_byte_from i (Z.eqb k) (to_ascii_uppercase s) = find_byte_from i (Z.eqb k) s.
Proof.
  intros Hk. revert i. induction s as [|b s IH]; intros i; [done|]. simpl.
  rewrite !(Z.eqb_sym k), caseless_eqb by done. destruct (b =? k); [done|]. apply IH.
Qed.

Lemma upper_drop n s : drop n (to_ascii_uppercase s) = to_ascii_uppercase (drop n s).
Proof. symmetry. apply fmap_drop. Qed.

Lemma skip_one_upper s :
  skip_one (to_ascii_uppercase s) = to_ascii_uppercase <$> skip_one s.
Proof.
  unfold skip_one, str_find, find_byte.
  assert (Forall caseless (bs "/*")) by (repeat constructor; unfold caseless; simpl; lia).
  assert (Forall caseless (bs "*/")) by (repeat constructor; unfold caseless; simpl; lia).
  assert (Forall caseless (bs "--")) by (repeat constructor; unfold caseless; simpl; lia).
  rewrite !starts_with_caseless, find_caseless, find_byte_caseless
    by (done || (unfold caseless; lia)).
  repeat case_match; simplify_eq; rewrite ?upper_drop; done.
Qed.

Lemma skip_loop_upper n s :
  skip_loop n (to_ascii_uppercase s) = to_ascii_uppercase (skip_loop n s).
Proof.
  revert s. induction n as [|n IH]; intros s; simpl; rewrite trim_start_upper; [done|].
  rewrite skip_one_upper. destruct (skip_one (trim_start s)); simpl; [apply IH | done].
Qed.

Lemma skip_leading_comments_upper s :
  skip_leading_comments (to_ascii_uppercase s) = to_ascii_uppercase (skip_leading_comments s).
Proof. unfold skip_leading_comments. by rewrite upper_length, skip_loop_upper. Qed.

Lemma upper_idem s : to_ascii_uppercase (to_ascii_uppercase s) = to_ascii_uppercase s.
Proof. unfold to_ascii_uppercase. rewrite map_map. apply map_ext, ascii_upper_idem. Qed.

Lemma any_kw_upper s kws : bytes_ok s -> any_kw (to_ascii_uppercase s) kws = any_kw s kws.
Proof.
  intros Hs. unfold any_kw. induction kws as [|k kws IH]; [done|]. simpl.
  rewrite !starts_with_kw_upper, upper_idem, IH by auto using upper_bytes_ok. done.
Qed.

(** *** Sorting and deduplication *)

Lemma bytes_leb_refl a : bytes_leb a a = true.
Proof. induction a as [|x a IH]; [done|]. simpl. rewrite IH, Z.eqb_refl. apply orb_true_r. Qed.

Lemma bytes_leb_antisym a b : bytes_leb a b = true -> bytes_leb b a = true -> a = b.
Proof.
  revert b. induction a as [|x a IH]; intros [|y b]; simpl; try done.
  intros H1 H2. assert (x = y) as -> by lia. f_equal.
  rewrite Z.ltb_irrefl, Z.eqb_refl in *. simpl in *. by apply IH.
Qed.

Lemma bytes_leb_total a b : bytes_leb a b = false -> bytes_leb b a = true.
Proof.
  revert b. induction a as [|x a IH]; intros [|y b]; simpl; try done.
  intros H. destruct (decide (x = y)) as [->|Hn].
  - rewrite Z.ltb_irrefl, Z.eqb_refl in *. simpl in *. by apply IH.
  - lia.
Qed.

Lemma bytes_leb_trans a b c :
  bytes_leb a b = true -> bytes_leb b c = true -> bytes_leb a c = true.
Proof.
  revert b c. induction a as [|x a IH]; intros [|y b] [|z c]; simpl; try done.
  intros H1 H2. destruct (decide (x = y)) as [->|Hxy]; [destruct (decide (y = z)) as [->|Hyz]|].
  - rewrite Z.ltb_irrefl, Z.eqb_refl in *. simpl in *. eauto.
  - lia.
  - destruct (decide (y = z)) as [->|Hyz]; lia.
Qed.

(** Strictly increasing lists of names. *)
Definition name_lt (a b : bytes) : Prop := bytes_leb a b = true /\ a <> b.
Definition name_le (a b : bytes) : Prop := bytes_leb a b = true.

Lemma insert_sorted_elem x l y : y ∈ insert_sorted x l <-> y = x \/ y ∈ l.
Proof.
  induction l as [|z l IH]; simpl.
  - rewrite list_elem_of_singleton. rewrite elem_of_nil. tauto.
  - case_match; rewrite !elem_of_cons, ?IH; tauto.
Qed.

Lemma insert_sorted_sorted x l : StronglySorted name_le l -> StronglySorted name_le (insert_sorted x l).
Proof.
  induction 1 as [|z l Hs IH Hz]; simpl; [repeat constructor|].
  case_match eqn:E.
  - constructor; [by constructor|]. constructor; [exact E|].
    eapply Forall_impl; [|exact Hz]. intros w Hw. by eapply bytes_leb_trans.
  - constructor; [exact IH|]. apply Forall_forall. intros w Hw.
    apply list_elem_of_In, insert_sorted_elem in Hw as [->|Hw].
    + by apply bytes_leb_total.
    + rewrite Forall_forall in Hz. apply Hz. by apply list_elem_of_In.
Qed.

Lemma sort_bytes_sorted l : StronglySorted name_le (sort_bytes l).
Proof. induction l as [|x l IH]; simpl; [constructor | by apply insert_sorted_sorted]. Qed.

Lemma sort_bytes_elem l y : y ∈ sort_bytes l <-> y ∈ l.
Proof.
  induction l as [|x l IH]; simpl; [done|]. by rewrite insert_sorted_elem, IH, elem_of_cons.
Qed.

Lemma dedup_elem l y : y ∈ dedup l <-> y ∈ l.
Proof.
  revert y. induction l as [|x l IH]; intros y; [done|]. simpl.
  rewrite elem_of_cons, <- IH. destruct (dedup l) as [|z r].
  - rewrite list_elem_of_singleton, elem_of_nil. tauto.
  - case_match eqn:E; [apply beq_true in E as ->|]; rewrite !elem_of_cons; tauto.
Qed.

Lemma dedup_sorted l : StronglySorted name_le l -> StronglySorted name_lt (dedup l).
Proof.
  induction 1 as [|x l Hs IH Hx]; simpl; [constructor|].
  assert (Forall (name_le x) (dedup l)) as Hle.
  { rewrite Forall_forall in *. intros w Hw. apply Hx, list_elem_of_In, dedup_elem.
    by apply list_elem_of_In. }
  destruct (dedup l) as [|z r]; [repeat constructor|].
  destruct (beq x z) eqn:E; [exact IH|]. constructor; [exact IH|].
  assert (x <> z) as Hn by (intros ->; by rewrite beq_refl in E).
  inversion Hle as [|? ? Hxz Hxr]; subst. inversion IH as [|? ? Hr Hzr]; subst.
  constructor; [by split|]. rewrite Forall_forall in *. intros w Hw.
  split; [by apply Hxr|]. intros <-. destruct (Hzr x Hw) as [Hzx _].
  apply Hn. by apply bytes_leb_antisym.
Qed.

Section TableLemmas.
Context `{CT : CaseTable}.

Lemma scan_tables_nonempty n k s : Forall (fun t => t <> []) (scan_tables n k s).
Proof.
  revert s. induction n as [|n IH]; intros s; simpl; [constructor|].
  destruct (str_find s k) as [pos|]; [|constructor].
  destruct (table_after _) as [name|] eqn:E; [|apply IH]. constructor; [|apply IH].
  unfold table_after in E. repeat case_match; simplify_eq.
  intros Hn. rewrite Hn in *. by rewrite beq_refl in *.
Qed.

Lemma scan_tables_enough n m k s :
  k <> [] -> (length s <= n)%nat -> (length s <= m)%nat ->
  scan_tables n k s = scan_tables m k s.
Proof.
  intros Hk. revert m s. induction n as [|n IH]; intros m s Hn Hm.
  - destruct s; [|simpl in *; lia]. destruct m; [done|]. simpl.
    destruct (str_find [] k) as [pos|] eqn:E; [|done].
    apply str_find_some in E as [E _]. destruct k; simpl in *; [done|lia].
  - destruct m as [|m].
    { destruct s; [|simpl in *; lia]. simpl.
      destruct (str_find [] k) as [pos|] eqn:E; [|done].
      apply str_find_some in E as [E _]. destruct k; simpl in *; [done|lia]. }
    simpl. destruct (str_find s k) as [pos|] eqn:E; [|done].
    apply str_find_some in E as [E _]. destruct k as [|b k]; [done|].
    assert (length (drop (pos + length (b :: k)) s) <= n)%nat by (rewrite length_drop; simpl in *; lia).
    assert (length (drop (pos + length (b :: k)) s) <= m)%nat by (rewrite length_drop; simpl in *; lia).
    case_match; [f_equal|]; by apply IH.
Qed.
End TableLemmas.

(** *** Sticky hints *)

Lemma sticky_scan_enough n m s :
  (length s <= n)%nat -> (length s <= m)%nat -> sticky_scan n s = sticky_scan m s.
Proof.
  revert m s. induction n as [|n IH]; intros m s Hn Hm.
  - destruct s; [|simpl in *; lia]. by destruct m.
  - destruct m as [|m]; [destruct s; [done | simpl in *; lia]|].
    destruct s as [|a [|b s2]]; [done..|]. simpl in Hn, Hm. cbn [sticky_scan].
    destruct (_ && _); [|apply IH; simpl; lia].
    destruct (str_find s2 (bs "*/")) as [e|]; [|apply IH; simpl; lia].
    destruct (hint_in_comment _); [done|].
    apply IH; rewrite length_drop; lia.
Qed.

Lemma sticky_scan_comment n s :
  sticky_scan (S n) (47 :: 42 :: s) =
  match str_find s (bs "*/") with
  | Some e =>
      match hint_in_comment (take e s) with
      | Some v => Some v
      | None => sticky_scan n (drop (e + 2) s)
      end
  | None => sticky_scan n (42 :: s)
  end.
Proof. reflexivity. Qed.

(** ** Properties *)

(** The statement's first keyword text, upper-cased. *)
Definition effective_upper (sql : bytes) : bytes :=
  to_ascii_uppercase (skip_leading_comments (trim_start sql)).

Lemma effective_ok sql : bytes_ok sql -> bytes_ok (skip_leading_comments (trim_start sql)).
Proof.
  intros H. destruct (skip_loop_final _ (trim_start sql) (Nat.le_refl _)) as (_ & _ & p & Hp).
  apply (bytes_ok_suffix p). unfold skip_leading_comments. rewrite <- Hp.
  by apply bytes_ok_trim_start.
Qed.



(** Classification does not depend on the letter case of the statement. *)
Theorem classify_case_insensitive sql :
  bytes_ok sql -> classify (to_ascii_uppercase sql) = classify sql.
Proof.
  intros Hs. pose proof (effective_ok sql Hs) as He. unfold classify.
  rewrite trim_start_upper, !skip_leading_comments_upper, !any_kw_upper by done.
  rewrite !contains_kw_upper by (first [done | by apply upper_bytes_ok | simpl; lia]).
  by rewrite !upper_idem.
Qed.

Lemma classify_case_insensitive_witness :
  classify (to_ascii_uppercase (bs "rollback")) = classify (bs "rollback").
Proof. apply (classify_case_insensitive (bs "rollback")). text_ok. Defined.

(** Skipping leading comments always ends, at a suffix of the statement that
    starts neither with white space nor with a closed comment; more fuel than the
    length of the text changes nothing. *)
Theorem skip_leading_comments_normal s n :
  (length s <= n)%nat ->
  let r := skip_leading_comments s in
  skip_loop n s = r /\ trim_start r = r /\ skip_one r = None /\ exists p, s = p ++ r.
Proof.
  intros Hn r. split; [by apply skip_loop_enough|]. by apply skip_loop_final.
Qed.

Lemma skip_leading_comments_normal_witness :
  skip_loop 40 (bs "/* a */ -- b") = skip_leading_comments (bs "/* a */ -- b").
Proof. apply (skip_leading_comments_normal (bs "/* a */ -- b") 40). simpl. lia. Defined.

Lemma trim_start_comment s : trim_start (bs "/*" ++ s) = bs "/*" ++ s.
Proof. by apply (trim_start_ascii 47 (42 :: s)). Qed.

(** A leading block comment whose closing mark is where the first one after the
    opening mark is (counting the opening star) is transparent. *)
Theorem leading_comment_transparent c s :
  str_find (bs "/*" ++ c ++ bs "*/" ++ s) (bs "*/") = Some (2 + length c)%nat ->
  skip_leading_comments (bs "/*" ++ c ++ bs "*/" ++ s) = skip_leading_comments s.
Proof.
  intros Hf. unfold skip_leading_comments at 1.
  replace (length (bs "/*" ++ c ++ bs "*/" ++ s))
    with (S (S (length (c ++ bs "*/" ++ s)))) by done.
  remember (S (length (c ++ bs "*/" ++ s))) as n eqn:Hn. cbn [skip_loop].
  rewrite trim_start_comment. unfold skip_one. rewrite starts_with_app, Hf.
  replace (drop _ _) with s.
  - apply skip_loop_enough; rewrite ?length_app in *; simpl in *; lia.
  - replace (2 + length c + 2)%nat with (length (bs "/*" ++ c ++ bs "*/"))
      by (rewrite !length_app; simpl; lia).
    rewrite !(app_assoc (bs "/*")), (app_assoc (bs "/*" ++ c)).
    by rewrite <- app_assoc, drop_app_length.
Qed.

Lemma leading_comment_transparent_witness :
  skip_leading_comments (bs "/*" ++ bs " hi " ++ bs "*/" ++ bs " DELETE") =
  skip_leading_comments (bs " DELETE").
Proof. apply (leading_comment_transparent (bs " hi ") (bs " DELETE")). reflexivity. Defined.

(** The three bytes slash, star, slash are skipped as if they were a complete
    comment, so a statement hidden behind one is classified by the text inside what
    the server reads as a comment: a DELETE is routed as a read. *)
Theorem overlapping_comment_mark_misroutes :
  (forall s, skip_leading_comments (bs "/*/" ++ s) = skip_leading_comments s) /\
  classify (bs "/*/ SELECT 1 */ DELETE FROM t") = Read.
Proof.
  split; [|reflexivity]. intros s. unfold skip_leading_comments at 1.
  replace (length (bs "/*/" ++ s)) with (S (S (S (length s)))) by done.
  remember (S (S (length s))) as n eqn:Hn. cbn [skip_loop].
  change (bs "/*/" ++ s) with (bs "/*" ++ 47 :: s).
  rewrite trim_start_comment. unfold skip_one. simpl.
  apply skip_loop_enough; rewrite ?drop_0; lia.
Qed.

(** The extracted table names are strictly increasing (so without repetition),
    none is empty, and the scan of each keyword has enough fuel. *)
Theorem extract_tables_sorted `{CT : CaseTable} sql :
  StronglySorted name_lt (extract_tables_simple sql) /\
  Forall (fun t => t <> []) (extract_tables_simple sql) /\
  (forall n k, k <> [] -> (length (to_uppercase sql) <= n)%nat ->
     scan_tables n k (to_uppercase sql)
     = scan_tables (length (to_uppercase sql)) k (to_uppercase sql)).
Proof.
  split_and!.
  - apply dedup_sorted, sort_bytes_sorted.
  - apply Forall_forall. intros t Ht. apply list_elem_of_In in Ht.
    unfold extract_tables_simple in Ht. rewrite dedup_elem, sort_bytes_elem in Ht.
    apply list_elem_of_In, in_concat in Ht as (l & Hl & Ht).
    apply in_map_iff in Hl as (k & <- & _).
    pose proof (scan_tables_nonempty (length (to_uppercase sql)) (bs k) (to_uppercase sql)) as Hall.
    rewrite Forall_forall in Hall. by apply Hall.
  - intros n k Hk Hn. by apply scan_tables_enough.
Qed.

(** A hint comment at the front of the statement decides, whatever follows, and
    the scan has enough fuel for the whole text. *)
Theorem sticky_hint_first_wins c v rest n :
  str_find (c ++ bs "*/" ++ rest) (bs "*/") = Some (length c) ->
  hint_in_comment c = Some v ->
  let sql := bs "/*" ++ c ++ bs "*/" ++ rest in
  (length sql <= n)%nat ->
  sticky_scan n sql = extract_sticky_hint sql /\ extract_sticky_hint sql = Some v.
Proof.
  intros Hf Hh sql Hn. split; [by apply sticky_scan_enough|].
  unfold extract_sticky_hint, sql.
  change (bs "/*" ++ c ++ bs "*/" ++ rest) with (47 :: 42 :: (c ++ bs "*/" ++ rest)).
  cbn [length]. by rewrite sticky_scan_comment, Hf, take_app_length, Hh.
Qed.

Lemma sticky_hint_first_wins_witness :
  extract_sticky_hint (bs "/*" ++ bs " sticky_backend=1 " ++ bs "*/"
                       ++ bs "/* sticky_backend=0 */ SELECT 1") = Some true.
Proof.
  apply (sticky_hint_first_wins (bs " sticky_backend=1 ") true
           (bs "/* sticky_backend=0 */ SELECT 1") 60); [reflexivity..|].
  vm_compute. lia.
Defined.
