(* ===== verification/Fingerprint.v ===== *)
(** * Query fingerprints (src/src/proxy/fingerprint.rs)

    The byte scanner that replaces literals by a question mark.  The index [i] of
    the source is the text that remains; the only thing the scanner reads back from
    its output is the last byte written. *)

From S2P Require Import Prelude Bytes.

(** [result.push(bytes[i] as char)]: a byte above 127 becomes the two UTF-8 bytes of
    the Latin-1 character with that number. *)
Definition push_byte (b : Z) : bytes :=
  if b <? 128 then [b] else [192 + b / 64; 128 + b mod 64].

(** The rest after a single-quoted literal whose opening quote is consumed. *)
Fixpoint skip_single (s : bytes) : bytes :=
  match s with
  | [] => []
  | b :: s' =>
      if b =? 92 then match s' with [] => [] | _ :: s'' => skip_single s'' end
      else if b =? 39 then
        match s' with
        | c :: s'' => if c =? 39 then skip_single s'' else s'
        | [] => []
        end
      else skip_single s'
  end.

(** The body and closing quote of a double-quoted token, whether white space was
    seen in it, and the rest. *)
Fixpoint scan_double (s : bytes) : bytes * bool * bytes :=
  match s with
  | [] => ([], false, [])
  | b :: s' =>
      if b =? dquote then
        match s' with
        | c :: s'' =>
            if c =? dquote then
              let '(tok, ws, rest) := scan_double s'' in (b :: c :: tok, ws, rest)
            else ([b], false, s')
        | [] => ([b], false, [])
        end
      else
        let '(tok, ws, rest) := scan_double s' in
        (b :: tok, is_ascii_whitespace b || ws, rest)
  end.

Definition is_ascii_alphanumeric (b : Z) : bool :=
  is_digit b || ((65 <=? b) && (b <=? 90)) || ((97 <=? b) && (b <=? 122)).

(** The bytes a number may be made of. *)
Definition number_byte (b : Z) : bool :=
  is_digit b || (b =? 46) || (b =? 120) || (b =? 88) || (b =? 101) || (b =? 69)
  || (b =? 43) || (b =? 45)
  || ((97 <=? b) && (b <=? 102)) || ((65 <=? b) && (b <=? 70)).

Fixpoint skip_while (f : Z -> bool) (s : bytes) : bytes :=
  match s with
  | b :: s' => if f b then skip_while f s' else s
  | [] => []
  end.

(** Whether a digit continues a name: the last byte of [result] decides. *)
Definition continues_name (last : option Z) : bool :=
  match last with Some l => is_ascii_alphanumeric l || (l =? 95) | None => false end.

Definition is_collapsible (b : Z) : bool :=
  (b =? 32) || (b =? 9) || (b =? 10) || (b =? 13).

(** One turn of the outer loop on [b :: s]: what is written, and what remains. *)
Definition fp_step (last : option Z) (b : Z) (s : bytes) : bytes * bytes :=
  if b =? 39 then ([63], skip_single s)
  else if b =? dquote then
    let '(tok, ws, rest) := scan_double s in
    if ws then ([63], rest) else (b :: tok, rest)
  else if is_digit b then
    if continues_name last then (push_byte b, s)
    else ([63], skip_while number_byte (b :: s))
  else if is_collapsible b then ([32], skip_while is_ascii_whitespace (b :: s))
  else (push_byte b, s).

(** [fuel] bounds the turns of the loop; every turn consumes a byte. *)
Fixpoint fp_loop (fuel : nat) (last : option Z) (s : bytes) : bytes :=
  match fuel, s with
  | S fuel', b :: s' =>
      let (out, rest) := fp_step last b s' in
      out ++ fp_loop fuel' (list.last out) rest
  | _, _ => []
  end.

Definition fingerprint (sql : bytes) : bytes := fp_loop (length sql) None sql.

Section Hash.
(** The standard library's [DefaultHasher] on a string. *)
Variable default_hash : bytes -> Z.
Definition fingerprint_hash (sql : bytes) : Z := default_hash (fingerprint sql).
Definition fingerprint_with_hash (sql : bytes) : bytes * Z :=
  let fp := fingerprint sql in (fp, default_hash fp).
End Hash.

Example fp_ex : fingerprint (bs "SELECT t1.a,  'it''s' FROM t WHERE id = 0x1F AND b='q'")
                = bs "SELECT t1.a, ? FROM t WHERE id = ? AND b=?".
Proof. reflexivity. Qed.

(** ** The allow-list (src/src/proxy/security.rs) *)

Record QueryWhitelist := { fingerprints : gset bytes }.
Definition whitelist_new (allowed : list bytes) : QueryWhitelist :=
  {| fingerprints := list_to_set allowed |}.
Definition is_disabled (w : QueryWhitelist) : bool := bool_decide (fingerprints w = ∅).
Definition is_allowed (w : QueryWhitelist) (sql : bytes) : bool :=
  if is_disabled w then true else bool_decide (fingerprint sql ∈ fingerprints w).

(** ** Lemmas *)

Lemma skip_single_length s : (length (skip_single s) <= length s)%nat.
Proof.
  remember (length s) as n eqn:Hn. revert s Hn.
  induction n as [n IH] using lt_wf_ind. intros s ->.
  destruct s as [|b s]; [done|]. cbn [skip_single].
  destruct (b =? 92).
  - destruct s as [|c s]; simpl; [lia|].
    specialize (IH (length s)). simpl in IH. specialize (IH ltac:(lia) s eq_refl). lia.
  - destruct (b =? 39); simpl.
    + destruct s as [|c s]; simpl; [lia|]. destruct (c =? 39); simpl; [|lia].
      specialize (IH (length s)). simpl in IH. specialize (IH ltac:(lia) s eq_refl). lia.
    + specialize (IH (length s)). simpl in IH. specialize (IH ltac:(lia) s eq_refl). lia.
Qed.

Lemma scan_double_app s tok ws rest : scan_double s = (tok, ws, rest) -> s = tok ++ rest.
Proof.
  revert tok ws rest. remember (length s) as n eqn:Hn. revert s Hn.
  induction n as [n IH] using lt_wf_ind. intros s -> tok ws rest.
  destruct s as [|b s]; simpl; [by intros [= <- _ <-]|].
  destruct (b =? dquote).
  - destruct s as [|c s]; [by intros [= <- _ <-]|].
    destruct (c =? dquote); [|by intros [= <- _ <-]].
    destruct (scan_double s) as [[t w] r] eqn:E. intros [= <- _ <-]. simpl.
    do 2 f_equal. eapply (IH (length s)); [simpl; lia | done | exact E].
  - destruct (scan_double s) as [[t w] r] eqn:E. intros [= <- _ <-]. simpl.
    f_equal. eapply (IH (length s)); [simpl; lia | done | exact E].
Qed.

Lemma skip_while_length f s : (length (skip_while f s) <= length s)%nat.
Proof. induction s as [|b s IH]; simpl; [lia|]. case_match; simpl; lia. Qed.

Lemma digit_number b : is_digit b = true -> number_byte b = true.
Proof. unfold number_byte. by intros ->. Qed.

Lemma collapsible_ws b : is_collapsible b = true -> is_ascii_whitespace b = true.
Proof. unfold is_collapsible, is_ascii_whitespace. lia. Qed.

Lemma fp_step_shorter last b s out rest :
  fp_step last b s = (out, rest) -> (length rest <= length s)%nat.
Proof.
  unfold fp_step. destruct (b =? 39); [intros [= _ <-]; apply skip_single_length|].
  destruct (b =? dquote).
  { destruct (scan_double s) as [[t w] r] eqn:E. apply scan_double_app in E as ->.
    rewrite length_app. destruct w; intros [= _ <-]; lia. }
  destruct (is_digit b) eqn:Ed.
  { destruct (continues_name last); intros [= _ <-]; [done|].
    simpl. rewrite digit_number by done. apply skip_while_length. }
  destruct (is_collapsible b) eqn:Ec; intros [= _ <-]; [|done].
  simpl. rewrite collapsible_ws by done. apply skip_while_length.
Qed.

Lemma fp_loop_enough n m last s :
  (length s <= n)%nat -> (length s <= m)%nat -> fp_loop n last s = fp_loop m last s.
Proof.
  revert m last s. induction n as [|n IH]; intros m last s Hn Hm.
  - destruct s; [|simpl in *; lia]. by destruct m.
  - destruct m as [|m]; [destruct s; [done | simpl in *; lia]|].
    destruct s as [|b s]; [done|]. simpl in *.
    destruct (fp_step last b s) as [out rest] eqn:E.
    apply fp_step_shorter in E. f_equal. apply IH; lia.
Qed.

(** The scanner on any fuel that suffices. *)
Definition fp (last : option Z) (s : bytes) : bytes := fp_loop (length s) last s.

Lemma fp_nil last : fp last [] = [].
Proof. done. Qed.

Lemma fp_cons last b s :
  fp last (b :: s) = let (out, rest) := fp_step last b s in out ++ fp (list.last out) rest.
Proof.
  unfold fp. cbn [length fp_loop]. destruct (fp_step last b s) as [out rest] eqn:E.
  f_equal. apply fp_step_shorter in E. apply fp_loop_enough; lia.
Qed.

Lemma skip_while_head f s b r : skip_while f s = b :: r -> f b = false.
Proof.
  induction s as [|c s IH]; simpl; [done|]. destruct (f c) eqn:E; [done|].
  by intros [= <- _].
Qed.

Lemma skip_while_stop f s : match s with b :: _ => f b = false | [] => True end -> skip_while f s = s.
Proof. destruct s as [|b s]; [done|]. simpl. by intros ->. Qed.

Lemma skip_while_app f p r :
  Forall (fun b => f b = true) p -> match r with b :: _ => f b = false | [] => True end ->
  skip_while f (p ++ r) = r.
Proof. induction 1 as [|b p Hb Hp IH]; simpl; [apply skip_while_stop|]. rewrite Hb. exact IH. Qed.

Lemma skip_while_forall f (P : Z -> Prop) s : Forall P s -> Forall P (skip_while f s).
Proof. induction 1; simpl; [done|]. case_match; [done | by constructor]. Qed.

Lemma skip_single_suffix s : exists p, s = p ++ skip_single s.
Proof.
  remember (length s) as n eqn:Hn. revert s Hn.
  induction n as [n IH] using lt_wf_ind. intros s ->.
  destruct s as [|b s]; [by exists []|]. cbn [skip_single].
  destruct (b =? 92).
  - destruct s as [|c s]; [by exists [b]|].
    destruct (IH (length s) ltac:(simpl; lia) s eq_refl) as [p Hp].
    exists (b :: c :: p). simpl. by rewrite <- Hp.
  - destruct (b =? 39).
    + destruct s as [|c s]; [by exists [b]|]. destruct (c =? 39); [|by exists [b]].
      destruct (IH (length s) ltac:(simpl; lia) s eq_refl) as [p Hp].
      exists (b :: c :: p). simpl. by rewrite <- Hp.
    + destruct (IH (length s) ltac:(simpl; lia) s eq_refl) as [p Hp].
      exists (b :: p). simpl. by rewrite <- Hp.
Qed.

(** The body of a plain single-quoted literal is skipped up to its closing quote. *)
Lemma skip_single_body body r :
  Forall (fun b => b <> 39 /\ b <> 92) body -> head r <> Some 39 ->
  skip_single (body ++ 39 :: r) = r.
Proof.
  intros Hb Hr. induction Hb as [|b body [H1 H2] Hb IH].
  - simpl. destruct r as [|c r]; [done|]. simpl in Hr.
    destruct (c =? 39) eqn:E; [|done]. bool_to_prop. congruence.
  - cbn [app skip_single]. rewrite (proj2 (Z.eqb_neq b 92)), (proj2 (Z.eqb_neq b 39)) by done.
    exact IH.
Qed.

(** A token that was scanned is scanned again in the same way in front of any text
    that does not open with a double quote. *)
Lemma scan_double_again s tok ws rest X :
  scan_double s = (tok, ws, rest) -> (rest = [] -> X = []) -> head X <> Some dquote ->
  scan_double (tok ++ X) = (tok, ws, X) /\ (rest <> [] -> list.last tok = Some dquote)
  /\ head rest <> Some dquote.
Proof.
  revert tok ws rest. remember (length s) as n eqn:Hn. revert s Hn.
  induction n as [n IH] using lt_wf_ind. intros s -> tok ws rest.
  destruct s as [|b s]; simpl.
  { intros [= <- <- <-] HX _. rewrite (HX eq_refl). done. }
  destruct (b =? dquote) eqn:Eb.
  - destruct s as [|c s].
    { intros [= <- <- <-] HX _. rewrite (HX eq_refl). simpl. by rewrite Eb. }
    destruct (c =? dquote) eqn:Ec.
    + destruct (scan_double s) as [[t w] r] eqn:E. intros [= <- <- <-] HX Hh.
      destruct (IH (length s) ltac:(simpl; lia) s eq_refl _ _ _ E HX Hh) as (H1 & H2 & H3).
      simpl. rewrite Eb, Ec, H1. split_and!; [done| |done].
      intros Hr. specialize (H2 Hr). destruct t; [done|]. exact H2.
    + intros [= <- <- <-] HX Hh. simpl. rewrite Eb. apply Z.eqb_eq in Eb as ->.
      split_and!; [|done|].
      * destruct X as [|x X]; [done|]. simpl in Hh. destruct (x =? dquote) eqn:E; [|done].
        bool_to_prop. congruence.
      * intros [= ->]. done.
  - destruct (scan_double s) as [[t w] r] eqn:E. intros [= <- <- <-] HX Hh.
    destruct (IH (length s) ltac:(simpl; lia) s eq_refl _ _ _ E HX Hh) as (H1 & H2 & H3).
    simpl. rewrite Eb, H1. split_and!; [done| |done].
    intros Hr. specialize (H2 Hr). destruct t; [done|]. exact H2.
Qed.

Lemma push_ascii b : b < 128 -> push_byte b = [b].
Proof. intros H. unfold push_byte. by rewrite (proj2 (Z.ltb_lt _ _) H). Qed.

Lemma digit_range b : is_digit b = true -> 48 <= b <= 57.
Proof. unfold is_digit. lia. Qed.

(** What the first byte of the output says about the first byte of the input. *)
Lemma fp_head last b s :
  b < 128 -> exists c r, fp last (b :: s) = c :: r /\
  (c = dquote -> b = dquote) /\ (is_ascii_whitespace c = true -> is_ascii_whitespace b = true).
Proof.
  intros Hb. rewrite fp_cons. unfold fp_step. rewrite push_ascii by done.
  destruct (b =? 39); [by eexists _, _|].
  destruct (b =? dquote) eqn:E.
  { bool_to_prop. subst. destruct (scan_double s) as [[t w] r].
    destruct w; by eexists _, _. }
  destruct (is_digit b) eqn:Ed.
  { destruct (continues_name last); eexists _, _; (split; [done|]);
      split; (done || (unfold dquote; lia)). }
  destruct (is_collapsible b) eqn:Ec; eexists _, _; (split; [done|]).
  - apply collapsible_ws in Ec. split; [unfold dquote; lia | done].
  - done.
Qed.

Lemma fp_nil_inv last b s : b < 128 -> fp last (b :: s) <> [].
Proof. intros Hb. destruct (fp_head last b s Hb) as (c & r & -> & _). done. Qed.

Definition ascii_bytes (s : bytes) : Prop := Forall (fun b => b < 128) s.

Lemma ascii_suffix p s : ascii_bytes (p ++ s) -> ascii_bytes s.
Proof. unfold ascii_bytes. rewrite Forall_app. tauto. Qed.

(** A single question mark is copied. *)
Lemma fp_question last s : fp last (63 :: s) = 63 :: fp (Some 63) s.
Proof. by rewrite fp_cons. Qed.

Lemma fp_space last s :
  match s with b :: _ => is_ascii_whitespace b = false | [] => True end ->
  fp last (32 :: s) = 32 :: fp (Some 32) s.
Proof.
  intros Hs. rewrite fp_cons. unfold fp_step. simpl. by rewrite skip_while_stop.
Qed.

(** ** Properties *)

(** The scanner on any ASCII text and any preceding byte. *)
Lemma fp_idempotent n last s :
  (length s <= n)%nat -> ascii_bytes s -> fp last (fp last s) = fp last s.
Proof.
  revert last s. induction n as [|n IH]; intros last s Hn Hs;
    (destruct s as [|b s]; [done|]); simpl in Hn; [lia|].
  inversion Hs as [|? ? Hb Hs']; subst.
  rewrite !(fp_cons last b s). destruct (fp_step last b s) as [out rest] eqn:E.
  pose proof (fp_step_shorter _ _ _ _ _ E) as Hl. revert E. unfold fp_step.
  rewrite push_ascii by done.
  destruct (b =? 39) eqn:E39.
  { intros [= <- <-]. cbn [app list.last]. rewrite fp_question, IH; [done|lia|].
    destruct (skip_single_suffix s) as [p Hp]. apply (ascii_suffix p). by rewrite <- Hp. }
  destruct (b =? dquote) eqn:E34.
  { destruct (scan_double s) as [[tok ws] rest'] eqn:Ed.
    pose proof (scan_double_app _ _ _ _ Ed) as Happ. subst s. apply ascii_suffix in Hs' as Hr.
    rewrite length_app in Hn.
    destruct ws; intros [= <- <-].
    { cbn [app list.last]. rewrite fp_question, IH; [done | lia | done]. }
    set (l := list.last (b :: tok)). set (X := fp l rest').
    assert (rest' = [] -> X = []) as HX by (intros ->; done).
    assert (head rest' <> Some dquote) as Hhr.
    { apply (scan_double_again _ _ _ _ [] Ed); done. }
    assert (head X <> Some dquote) as HhX.
    { unfold X. destruct rest' as [|c rest']; [done|]. inversion Hr; subst.
      destruct (fp_head l c rest' ltac:(done)) as (c' & r' & -> & Hc & _).
      simpl. intros [= ->]. apply Hhr. simpl. f_equal. by apply Hc. }
    destruct (scan_double_again _ _ _ _ X Ed HX HhX) as (Hagain & _).
    cbn [app]. rewrite fp_cons. unfold fp_step. rewrite E39, E34, Hagain.
    fold l. cbn [app]. unfold X. by rewrite (IH l rest') by (done || lia). }
  destruct (is_digit b) eqn:Edg.
  { destruct (continues_name last) eqn:Ec; intros [= <- <-]; cbn [app list.last].
    - rewrite fp_cons. unfold fp_step. rewrite E39, E34, Edg, Ec, push_ascii by done.
      cbn [app list.last]. by rewrite IH by (done || lia).
    - rewrite fp_question, IH; [done | lia|].
      by apply (skip_while_forall number_byte (fun b => b < 128) (b :: s)). }
  destruct (is_collapsible b) eqn:Ec; intros [= <- <-]; cbn [app list.last].
  - rewrite (collapsible_ws b Ec) in *. set (rest := skip_while is_ascii_whitespace s) in *.
    assert (ascii_bytes rest) as Hr by by apply skip_while_forall.
    rewrite fp_space; [rewrite IH; [done | lia | done]|].
    destruct rest as [|c r] eqn:Er; [done|]. inversion Hr; subst.
    destruct (fp_head (Some 32) c r ltac:(done)) as (c' & r' & -> & _ & Hw).
    apply skip_while_head in Er. destruct (is_ascii_whitespace c'); [|done].
    rewrite Hw in Er by done. done.
  - rewrite fp_cons. unfold fp_step. rewrite E39, E34, Edg, Ec, push_ascii by done.
    cbn [app list.last]. by rewrite IH by (done || lia).
Qed.

(** On ASCII text, fingerprinting is idempotent: the fingerprint of a
    fingerprint is itself, so an allow-list may hold fingerprints or statements. *)
Theorem fingerprint_idempotent s :
  ascii_bytes s -> fingerprint (fingerprint s) = fingerprint s.
Proof. intros Hs. by apply (fp_idempotent (length s)). Qed.

Lemma fingerprint_idempotent_witness :
  let s := bs "select  a1 from t where x='it' and y = 12" in
  fingerprint (fingerprint s) = fingerprint s.
Proof.
  apply (fingerprint_idempotent (bs "select  a1 from t where x='it' and y = 12")).
  apply Forall_forall. intros b Hb. vm_compute in Hb.
  repeat (destruct Hb as [<-|Hb]; [lia|]). destruct Hb.
Defined.

(** A literal in front of a text [r]: a single-quoted string without quotes or
    backslashes, or a number. *)
Inductive literal : bytes -> bytes -> Prop :=
| lit_string body r :
    Forall (fun b => b <> 39 /\ b <> 92) body -> head r <> Some 39 ->
    literal (39 :: body ++ [39]) r
| lit_number d body r :
    is_digit d = true -> Forall (fun b => number_byte b = true) body ->
    match r with b :: _ => number_byte b = false | [] => True end ->
    literal (d :: body) r.

Lemma fp_literal last lit r :
  literal lit r -> continues_name last = false -> fp last (lit ++ r) = 63 :: fp (Some 63) r.
Proof.
  intros [body r' Hb Hr | d body r' Hd Hb Hr] Hl.
  - cbn [app]. rewrite <- app_assoc, fp_cons. unfold fp_step. simpl.
    by rewrite skip_single_body.
  - cbn [app]. rewrite fp_cons. unfold fp_step. pose proof (digit_range d Hd).
    rewrite (proj2 (Z.eqb_neq d 39)), (proj2 (Z.eqb_neq d dquote)), Hd, Hl
      by (unfold dquote; lia).
    simpl. rewrite digit_number by done. by rewrite skip_while_app.
Qed.

Lemma literal_head lit r : literal lit r ->
  match lit ++ r with b :: _ => is_ascii_whitespace b = false | [] => True end.
Proof.
  intros [|d body r' Hd]; simpl; [done|]. apply digit_range in Hd.
  unfold is_ascii_whitespace. lia.
Qed.

(** Bytes in front of a literal that open no literal themselves. *)
Definition quiet (b : Z) : Prop := b < 128 /\ b <> 39 /\ b <> dquote /\ is_digit b = false.

(** The last byte of a text, or [d] for the empty text. *)
Definition last_or (d : option Z) (p : bytes) : option Z :=
  match list.last p with Some b => Some b | None => d end.

Lemma last_or_cons d b p : last_or d (b :: p) = last_or (Some b) p.
Proof.
  unfold last_or. destruct p as [|c p]; [done|].
  change (list.last (b :: c :: p)) with (list.last (c :: p)).
  destruct (list.last (c :: p)) eqn:E; [done|]. by apply last_None in E.
Qed.

Lemma ws_ends_name w : is_ascii_whitespace w = true -> continues_name (Some w) = false.
Proof. unfold is_ascii_whitespace, continues_name, is_ascii_alphanumeric, is_digit. lia. Qed.

Lemma skip_ws_last b p d :
  is_ascii_whitespace b = true ->
  continues_name (last_or (Some 32) (skip_while is_ascii_whitespace p))
  = continues_name (last_or d (b :: p)).
Proof.
  revert b d. induction p as [|c p IH]; intros b d Hb; rewrite last_or_cons.
  - unfold last_or. cbn [skip_while list.last]. by rewrite (ws_ends_name b).
  - cbn [skip_while]. destruct (is_ascii_whitespace c) eqn:Ew; [by apply IH|].
    by rewrite !last_or_cons.
Qed.

Lemma fp_quiet_prefix n p last :
  (length p <= n)%nat -> Forall quiet p ->
  exists q l, continues_name l = continues_name (last_or last p)
  /\ forall x, match x with b :: _ => is_ascii_whitespace b = false | [] => True end ->
     fp last (p ++ x) = q ++ fp l x.
Proof.
  revert p last. induction n as [|n IH]; intros p last Hn Hp;
    (destruct p as [|b p]; [by exists [], last|]); simpl in Hn; [lia|].
  inversion Hp as [|? ? (Hb & H39 & H34 & Hd) Hp']; subst.
  destruct (is_collapsible b) eqn:Ec.
  - destruct (IH (skip_while is_ascii_whitespace p) (Some 32)) as (q & l & Hl & Hq).
    { pose proof (skip_while_length is_ascii_whitespace p). lia. }
    { by apply skip_while_forall. }
    exists (32 :: q), l. split.
    + rewrite Hl. by apply skip_ws_last, collapsible_ws.
    + intros x Hx. cbn [app]. rewrite fp_cons. unfold fp_step.
      rewrite (proj2 (Z.eqb_neq b 39)), (proj2 (Z.eqb_neq b dquote)), Hd, Ec by done.
      cbn [app list.last skip_while]. rewrite (collapsible_ws b Ec). f_equal.
      rewrite <- Hq by done. f_equal. clear - Hx. induction p as [|c p IHp]; simpl.
      * by apply skip_while_stop.
      * destruct (is_ascii_whitespace c); [exact IHp | done].
  - destruct (IH p (Some b)) as (q & l & Hl & Hq); [lia | done |].
    exists (b :: q), l. split.
    + by rewrite Hl, last_or_cons.
    + intros x Hx. cbn [app]. rewrite fp_cons. unfold fp_step.
      rewrite (proj2 (Z.eqb_neq b 39)), (proj2 (Z.eqb_neq b dquote)), Hd, Ec by done.
      rewrite push_ascii by done. cbn [app list.last]. f_equal. by apply Hq.
Qed.

(** Two statements that differ only in one literal have the same fingerprint:
    after any prefix that does not end in a name character, a quoted string or a
    number is replaced by a question mark, whichever it is. *)
Theorem fingerprint_literal_insensitive p lit1 lit2 r :
  Forall quiet p -> continues_name (list.last p) = false ->
  literal lit1 r -> literal lit2 r ->
  fingerprint (p ++ lit1 ++ r) = fingerprint (p ++ lit2 ++ r).
Proof.
  intros Hp Hl H1 H2.
  destruct (fp_quiet_prefix (length p) p None (le_n _) Hp) as (q & l & Hl' & Hq).
  assert (continues_name l = false) as Hc 
    by (rewrite Hl'; unfold last_or; by destruct (list.last p)).
  change (fp None (p ++ lit1 ++ r) = fp None (p ++ lit2 ++ r)).
  rewrite !Hq by (by apply literal_head). by rewrite !fp_literal.
Qed.

Lemma fingerprint_literal_insensitive_witness :
  fingerprint (bs "SELECT a FROM t WHERE id = " ++ bs "42" ++ bs " LIMIT 1") =
  fingerprint (bs "SELECT a FROM t WHERE id = " ++ bs "'x y'" ++ bs " LIMIT 1").
Proof.
  apply (fingerprint_literal_insensitive (bs "SELECT a FROM t WHERE id = ") (bs "42")
           (bs "'x y'") (bs " LIMIT 1")).
  - apply Forall_forall. intros b Hb. vm_compute in Hb. unfold quiet, dquote.
    repeat (destruct Hb as [<-|Hb]; [split_and!; (lia || reflexivity)|]). destruct Hb.
  - reflexivity.
  - apply (lit_number 52 [50]); [reflexivity | by repeat constructor | reflexivity].
  - apply (lit_string (bs "x y")); [|done]. vm_compute. repeat constructor; congruence.
Defined.

(** The allow-list accepts exactly the statements whose fingerprint is the
    fingerprint of a listed statement, and everything when nothing is listed. *)
Theorem whitelist_accepts_exactly (stmts : list bytes) sql :
  is_allowed (whitelist_new (map fingerprint stmts)) sql = true <->
  stmts = [] \/ exists s, s ∈ stmts /\ fingerprint s = fingerprint sql.
Proof.
  unfold is_allowed, is_disabled, whitelist_new. cbn [fingerprints].
  destruct stmts as [|s0 l].
  - cbn [map]. rewrite bool_decide_true by done. split; [by left | done].
  - rewrite bool_decide_false.
    + rewrite bool_decide_eq_true, elem_of_list_to_set, list_elem_of_fmap. split.
      * intros (s & H1 & H2). right. by exists s.
      * intros [?|(s & H1 & H2)]; [done | by exists s].
    + cbn [map list_to_set]. intros H.
      assert (fingerprint s0 ∈ (∅ : gset bytes)) as Hin by (rewrite <- H; apply elem_of_union; left; by apply elem_of_singleton).
      by apply elem_of_empty in Hin.
Qed.
