(* ===== verification/QueryCache.v ===== *)
(** * The query result cache (src/src/proxy/cache.rs)

    The mutex-protected [CacheInner] is a value; every method runs under the lock
    and takes the time it reads ([Instant::now()], nanoseconds).  The iteration
    order of a [HashMap] is unspecified: [put] depends on it only to break ties
    between equally old entries, and every theorem holds for every order. *)

From S2P Require Import Prelude Bytes Classifier.

Definition DEFAULT_MAX_ENTRIES : Z := 1000.
Definition DEFAULT_TTL : Z := 30 * 10 ^ 9.

Definition NON_DETERMINISTIC : list string :=
  ["NOW()"; "SYSDATE()"; "CURRENT_TIMESTAMP"; "RAND()"; "UUID()"; "LAST_INSERT_ID()"; "@"]%string.

Record CacheEntry := {
  ce_bytes : bytes;
  ce_tables : list bytes;
  expires_at : Z;
  last_used : Z
}.

Record CacheInner := {
  entries : gmap bytes CacheEntry;
  hits : Z;
  misses : Z
}.

Record QueryCache := { inner : CacheInner; ttl : Z; max_entries : Z }.

Definition with_inner (c : QueryCache) (i : CacheInner) : QueryCache :=
  {| inner := i; ttl := ttl c; max_entries := max_entries c |}.

Definition new (max ttl : Z) : QueryCache :=
  {| inner := {| entries := ∅; hits := 0; misses := 0 |}; ttl := ttl; max_entries := max |}.
Definition with_defaults : QueryCache := new DEFAULT_MAX_ENTRIES DEFAULT_TTL.

Definition touch (now : Z) (e : CacheEntry) : CacheEntry :=
  {| ce_bytes := ce_bytes e; ce_tables := ce_tables e; expires_at := expires_at e;
     last_used := now |}.

(** [min_by_key(last_used)]: the first of the smallest. *)
Fixpoint min_by_last_used (l : list (bytes * CacheEntry)) : option (bytes * CacheEntry) :=
  match l with
  | [] => None
  | x :: l' =>
      match min_by_last_used l' with
      | Some y => if last_used (snd y) <? last_used (snd x) then Some y else Some x
      | None => Some x
      end
  end.

Section Ops.
Context `{CT : CaseTable} `{MO : !MapOrder bytes CacheEntry}.

Definition is_cacheable (sql : bytes) : bool :=
  let upper := to_uppercase sql in
  if negb (starts_with (trim_start upper) (bs "SELECT")) then false
  else if str_contains upper (bs "FOR UPDATE") || str_contains upper (bs "FOR SHARE")
  then false
  else negb (existsb (fun t => str_contains upper (bs t)) NON_DETERMINISTIC).

Definition get (now : Z) (sql : bytes) (c : QueryCache) : option bytes * QueryCache :=
  let i := inner c in
  match entries i !! sql with
  | Some e =>
      if now <? expires_at e then
        (Some (ce_bytes e),
         with_inner c {| entries := <[sql := touch now e]> (entries i);
                         hits := u64 (hits i + 1); misses := misses i |})
      else
        (None, with_inner c {| entries := delete sql (entries i);
                               hits := hits i; misses := u64 (misses i + 1) |})
  | None =>
      (None, with_inner c {| entries := entries i;
                             hits := hits i; misses := u64 (misses i + 1) |})
  end.

(** Make room for one entry. *)
Definition evict (max : Z) (m : gmap bytes CacheEntry) : gmap bytes CacheEntry :=
  if max <=? Z.of_nat (size m) then
    match min_by_last_used (iter m) with
    | Some (victim, _) => delete victim m
    | None => m
    end
  else m.

Definition put (now : Z) (sql data : bytes) (c : QueryCache) : QueryCache :=
  if negb (is_cacheable sql) then c else
  let entry := {| ce_bytes := data; ce_tables := extract_tables_simple sql;
                  expires_at := now + ttl c; last_used := now |} in
  let i := inner c in
  with_inner c {| entries := <[sql := entry]> (evict (max_entries c) (entries i));
                  hits := hits i; misses := misses i |}.

Definition touches (tables : list bytes) (e : CacheEntry) : bool :=
  existsb (fun t => mem t tables) (ce_tables e).

Definition invalidate_tables (tables : list bytes) (c : QueryCache) : QueryCache :=
  match tables with
  | [] => c
  | _ =>
      let i := inner c in
      with_inner c {| entries := filter (fun kv => touches tables (snd kv) = false) (entries i);
                      hits := hits i; misses := misses i |}
  end.

Definition stats (c : QueryCache) : Z * Z := (hits (inner c), misses (inner c)).

(** ** Histories of calls *)

Inductive cache_op :=
| OpGet (now : Z) (sql : bytes)
| OpPut (now : Z) (sql data : bytes)
| OpInvalidate (tables : list bytes).

Definition apply_op (c : QueryCache) (op : cache_op) : QueryCache :=
  match op with
  | OpGet now sql => snd (get now sql c)
  | OpPut now sql data => put now sql data c
  | OpInvalidate tables => invalidate_tables tables c
  end.

Definition run (ops : list cache_op) (c : QueryCache) : QueryCache := foldl apply_op c ops.

(** The specification: what the history says was last stored under [sql] and is
    still current: the data and the time it was stored. *)
Definition spec_op (sql : bytes) (v : option (bytes * Z)) (op : cache_op) : option (bytes * Z) :=
  match op with
  | OpGet _ _ => v
  | OpPut now sql' data => if beq sql sql' && is_cacheable sql' then Some (data, now) else v
  | OpInvalidate tables =>
      if existsb (fun t => mem t tables) (extract_tables_simple sql) then None else v
  end.

Definition current (sql : bytes) (ops : list cache_op) : option (bytes * Z) :=
  foldl (spec_op sql) None ops.

Definition is_get (op : cache_op) : bool := match op with OpGet _ _ => true | _ => false end.
End Ops.

(** ** Lemmas *)

Lemma min_by_last_used_spec l k e :
  min_by_last_used l = Some (k, e) ->
  (k, e) ∈ l /\ forall k' e', (k', e') ∈ l -> last_used e <= last_used e'.
Proof.
  revert k e. induction l as [|[k0 e0] l IH]; intros k e; cbn [min_by_last_used]; [done|].
  destruct (min_by_last_used l) as [[k1 e1]|] eqn:E.
  - destruct (IH _ _ eq_refl) as [Hin Hmin]. cbn [snd].
    destruct (last_used e1 <? last_used e0) eqn:El; intros [= <- <-]; bool_to_prop.
    + split; [by right|]. intros k' e' [[= -> ->]|H]%elem_of_cons; [lia | by eapply Hmin].
    + split; [by left|]. intros k' e' [[= -> ->]|H]%elem_of_cons; [lia|].
      specialize (Hmin _ _ H). lia.
  - intros [= <- <-]. split; [by left|].
    assert (l = []) as ->.
    { destruct l as [|x l]; [done|]. cbn in E. destruct (min_by_last_used l); [by case_match|done]. }
    intros k' e' [[= -> ->]|H]%elem_of_cons; [lia | by apply elem_of_nil in H].
Qed.

Lemma min_by_last_used_none l : min_by_last_used l = None -> l = [].
Proof. destruct l as [|x l]; [done|]. cbn. by repeat case_match. Qed.

Section Lemmas.
Context `{CT : CaseTable} `{MO : !MapOrder bytes CacheEntry}.

Lemma evict_subseteq max m : evict max m ⊆ m.
Proof.
  unfold evict. case_match; [|done]. case_match; [|done]. case_match. apply delete_subseteq.
Qed.

Lemma evict_size max m :
  Z.of_nat (size m) <= Z.max 1 max ->
  Z.of_nat (size (evict max m)) + 1 <= Z.max 1 max.
Proof.
  intros Hm. unfold evict. destruct (max <=? _) eqn:E; bool_to_prop; [|lia].
  destruct (min_by_last_used (iter m)) as [[k e]|] eqn:Em.
  - apply min_by_last_used_spec in Em as [Hin _]. apply iter_lookup in Hin.
    rewrite map_size_delete_Some by eauto.
    assert (size m <> 0%nat) by (rewrite map_size_non_empty_iff; intros ->; done). lia.
  - apply min_by_last_used_none, iter_nil in Em as ->.
    rewrite map_size_empty in *. lia.
Qed.

(** What every reachable cache satisfies. *)
Definition cache_wf (c : QueryCache) : Prop :=
  Z.of_nat (size (entries (inner c))) <= Z.max 1 (max_entries c) /\
  map_Forall (fun k e => is_cacheable k = true /\ ce_tables e = extract_tables_simple k)
    (entries (inner c)) /\
  in_width 64 (hits (inner c)) /\ in_width 64 (misses (inner c)).

Lemma map_size_subseteq_Z (m1 m2 : gmap bytes CacheEntry) :
  m1 ⊆ m2 -> Z.of_nat (size m1) <= Z.of_nat (size m2).
Proof. intros H. apply inj_le, map_subseteq_size, H. Qed.

Lemma cache_new_wf max t : cache_wf (new max t).
Proof.
  split_and!; cbn [new inner entries hits misses max_entries]; try (unfold in_width; lia).
  - rewrite map_size_empty. lia.
  - apply map_Forall_empty.
Qed.

Lemma cache_get_wf now sql c : cache_wf c -> cache_wf (snd (get now sql c)).
Proof.
  intros (Hs & Hf & Hh & Hm). unfold get.
  destruct (entries (inner c) !! sql) as [e|] eqn:E; [destruct (now <? _)|];
    split_and!; cbn; auto; try (apply wrap_range; lia).
  - rewrite map_size_insert_Some by eauto. exact Hs.
  - apply map_Forall_insert_2; [|exact Hf]. exact (Hf _ _ E).
  - etrans; [|exact Hs]. apply map_size_subseteq_Z, delete_subseteq.
  - by apply map_Forall_delete.
Qed.

Lemma cache_put_wf now sql data c : cache_wf c -> cache_wf (put now sql data c).
Proof.
  intros (Hs & Hf & Hh & Hm). unfold put. destruct (is_cacheable sql) eqn:Ec; [|done].
  split_and!; cbn; [| |done..].
  - pose proof (evict_size _ _ Hs) as He. rewrite map_size_insert.
    set (m := evict _ _) in *. destruct (m !! sql); unfold id; lia.
  - apply map_Forall_insert_2; [done|].
    intros k e Hk. apply Hf. eapply lookup_weaken; [exact Hk | apply evict_subseteq].
Qed.

Lemma invalidate_wf ts c : cache_wf c -> cache_wf (invalidate_tables ts c).
Proof.
  intros (Hs & Hf & Hh & Hm). unfold invalidate_tables. destruct ts; [done|].
  split_and!; cbn; [| |done..].
  - etrans; [|exact Hs]. apply map_size_subseteq_Z, map_filter_subseteq.
  - intros k e Hk. apply Hf. by apply map_lookup_filter_Some in Hk as [? _].
Qed.

Lemma cache_op_wf c op : cache_wf c -> cache_wf (apply_op c op).
Proof. destruct op; [apply cache_get_wf | apply cache_put_wf | apply invalidate_wf]. Qed.

Lemma run_wf ops c : cache_wf c -> cache_wf (run ops c).
Proof. revert c. induction ops as [|op ops IH]; intros c Hc; [done|]. by apply IH, cache_op_wf. Qed.

Lemma run_app ops1 ops2 c : run (ops1 ++ ops2) c = run ops2 (run ops1 c).
Proof. apply foldl_app. Qed.

Lemma run_snoc ops op c : run (ops ++ [op]) c = apply_op (run ops c) op.
Proof. by rewrite run_app. Qed.

Lemma run_config ops c : ttl (run ops c) = ttl c /\ max_entries (run ops c) = max_entries c.
Proof.
  revert c. induction ops as [|op ops IH]; intros c; [done|].
  change (run (op :: ops) c) with (run ops (apply_op c op)).
  destruct (IH (apply_op c op)) as [-> ->].
  destruct op; simpl; unfold get, put, invalidate_tables; by repeat case_match.
Qed.

Lemma current_snoc sql ops op : current sql (ops ++ [op]) = spec_op sql (current sql ops) op.
Proof. unfold current. by rewrite foldl_app. Qed.
End Lemmas.
#[export] Hint Resolve cache_new_wf run_wf cache_op_wf : proxy.

Section Properties.
Context `{CT : CaseTable} `{MO : !MapOrder bytes CacheEntry}.

Lemma get_some now sql c b :
  fst (get now sql c) = Some b <->
  exists e, entries (inner c) !! sql = Some e /\ now < expires_at e /\ ce_bytes e = b.
Proof.
  unfold get. destruct (entries (inner c) !! sql) as [e|]; [|split; [done | by intros (? & ? & _)]].
  destruct (now <? expires_at e) eqn:E; bool_to_prop; cbn; split.
  - intros [= <-]. eauto.
  - by intros (? & [= <-] & _ & <-).
  - done.
  - intros (? & [= <-] & ? & _). lia.
Qed.

Lemma touches_spec ts k e :
  ce_tables e = extract_tables_simple k ->
  touches ts e = existsb (fun t => mem t ts) (extract_tables_simple k).
Proof. unfold touches. by intros ->. Qed.

(** The entries of a cache are a lossy copy of what the history says. *)
Definition agrees (ops : list cache_op) (c : QueryCache) : Prop :=
  forall k e, entries (inner c) !! k = Some e ->
    is_cacheable k = true /\ ce_tables e = extract_tables_simple k /\
    exists at_, current k ops = Some (ce_bytes e, at_) /\ expires_at e = at_ + ttl c.

Lemma agrees_get ops c now sql :
  agrees ops c -> agrees (ops ++ [OpGet now sql]) (snd (get now sql c)).
Proof.
  intros Ha k e. rewrite current_snoc. simpl. unfold get.
  destruct (entries (inner c) !! sql) as [e0|] eqn:E; [destruct (now <? _)|]; cbn.
  - destruct (decide (k = sql)) as [->|Hn].
    + rewrite lookup_insert_eq. intros [= <-]. exact (Ha _ _ E).
    + rewrite lookup_insert_ne by done. apply Ha.
  - intros [_ Hk]%lookup_delete_Some. by apply Ha.
  - apply Ha.
Qed.

Lemma agrees_put ops c now sql data :
  agrees ops c -> agrees (ops ++ [OpPut now sql data]) (put now sql data c).
Proof.
  intros Ha k e. rewrite current_snoc. cbn [spec_op]. unfold put.
  destruct (is_cacheable sql) eqn:Ec; cbn [negb].
  - cbn. destruct (decide (k = sql)) as [->|Hn].
    + rewrite lookup_insert_eq, beq_refl. intros [= <-]. rewrite Ec. by split_and!; eauto.
    + rewrite lookup_insert_ne by done. intros Hk.
      assert (beq k sql = false) as -> by (by apply bool_decide_eq_false).
      apply Ha. eapply lookup_weaken; [exact Hk | apply evict_subseteq].
  - rewrite andb_false_r. apply Ha.
Qed.

Lemma agrees_invalidate ops c ts :
  agrees ops c -> agrees (ops ++ [OpInvalidate ts]) (invalidate_tables ts c).
Proof.
  intros Ha k e. rewrite current_snoc. cbn [spec_op]. unfold invalidate_tables.
  destruct ts as [|t ts].
  - intros Hk. replace (existsb _ _) with false; [by apply Ha|].
    symmetry. by induction (extract_tables_simple k).
  - cbn [with_inner inner entries ttl].
    intros [Hk Ht]%map_lookup_filter_Some. destruct (Ha _ _ Hk) as (H1 & H2 & H3).
    cbn [snd] in Ht. rewrite (touches_spec _ k) in Ht by done. by rewrite Ht.
Qed.

Lemma agrees_run ops max t : agrees ops (run ops (new max t)).
Proof.
  induction ops as [|op ops IH] using rev_ind; [intros k e; simpl; by rewrite lookup_empty|].
  rewrite run_snoc. destruct op; [by apply agrees_get | by apply agrees_put | by apply agrees_invalidate].
Qed.

(** C15: The cache never answers with stale data: whatever the sequence of gets,
    puts and invalidations, the answer of a get is the data of the last put of that
    very statement, put less than the time-to-live ago and not followed by an
    invalidation of one of its tables; eviction can only lose answers. *)
Theorem cache_never_stale ops max t now sql data :
  fst (get now sql (run ops (new max t))) = Some data ->
  is_cacheable sql = true /\
  exists at_, current sql ops = Some (data, at_) /\ now < at_ + t.
Proof.
  intros (e & He & Hnow & <-)%get_some.
  destruct (agrees_run ops max t _ _ He) as (H1 & _ & at_ & H2 & H3).
  split; [done|]. exists at_. split; [done|].
  replace t with (ttl (run ops (new max t))) by (by rewrite (proj1 (run_config ops _))). lia.
Qed.

(** In every reachable cache the number of entries is at most the larger of
    the limit and one, every key is a cacheable statement, every entry carries the
    tables of its key, and the counters stay in 64 bits. *)
Theorem cache_reachable_wf ops max t : cache_wf (run ops (new max t)).
Proof. apply run_wf, cache_new_wf. Qed.

(** A statement that was stored is answered with the stored bytes until its
    time-to-live ends; from then on it is a miss and the entry is gone. *)
Theorem put_then_get c now sql data later :
  is_cacheable sql = true ->
  let c' := put now sql data c in
  (later < now + ttl c -> fst (get later sql c') = Some data) /\
  (now + ttl c <= later ->
   fst (get later sql c') = None /\
   entries (inner (snd (get later sql c'))) !! sql = None).
Proof.
  intros Hc c'. assert (entries (inner c') !! sql = Some
    {| ce_bytes := data; ce_tables := extract_tables_simple sql;
       expires_at := now + ttl c; last_used := now |}) as He.
  { unfold c', put. rewrite Hc. cbn. apply lookup_insert_eq. }
  unfold get. rewrite He. cbn [expires_at]. split; intros Hl.
  - by rewrite (proj2 (Z.ltb_lt _ _) Hl).
  - rewrite (proj2 (Z.ltb_ge _ _) Hl). split; [done|]. cbn. apply lookup_delete_eq.
Qed.

(** Invalidating tables removes exactly the entries that use one of them and
    leaves every other entry as it was. *)
Theorem invalidate_exact ops max t ts k :
  ts <> [] ->
  let c := run ops (new max t) in
  entries (inner (invalidate_tables ts c)) !! k =
  if existsb (fun u => mem u ts) (extract_tables_simple k) then None
  else entries (inner c) !! k.
Proof.
  intros Hts c. pose proof (agrees_run ops max t) as Ha. fold c in Ha.
  unfold invalidate_tables. destruct ts as [|t0 ts]; [done|]. clear Hts.
  cbn [with_inner inner entries].
  destruct (entries (inner c) !! k) as [e|] eqn:Ek.
  - destruct (Ha _ _ Ek) as (_ & Ht & _). rewrite <- (touches_spec _ k e Ht).
    destruct (touches (t0 :: ts) e) eqn:Et.
    + apply map_lookup_filter_None. right. intros e' [= <-]%(eq_trans (eq_sym Ek)).
      cbn [snd]. by rewrite Et.
    + by apply map_lookup_filter_Some.
  - case_match; apply map_lookup_filter_None; by left.
Qed.

(** At capacity a put removes one entry, and no entry that stays was used
    longer ago than the one that goes. *)
Theorem evict_least_recent max m :
  max <= Z.of_nat (size m) -> m <> ∅ ->
  exists k e, m !! k = Some e /\ evict max m = delete k m /\
  forall k' e', m !! k' = Some e' -> last_used e <= last_used e'.
Proof.
  intros Hs Hm. unfold evict. rewrite (proj2 (Z.leb_le _ _) Hs).
  destruct (min_by_last_used (iter m)) as [[k e]|] eqn:E.
  - apply min_by_last_used_spec in E as [Hin Hmin]. exists k, e.
    split_and!; [by apply iter_lookup | done|].
    intros k' e' H. by apply (Hmin k'), iter_lookup.
  - by apply min_by_last_used_none, iter_nil in E.
Qed.

(** Every get counts once, as a hit or as a miss. *)
Lemma stats_count ops c :
  u64 (fst (stats (run ops c)) + snd (stats (run ops c))) =
  u64 (fst (stats c) + snd (stats c) + Z.of_nat (length (filter is_get ops))).
Proof.
  revert c. induction ops as [|op ops IH]; intros c.
  - cbn. f_equal. lia.
  - change (run (op :: ops) c) with (run ops (apply_op c op)). rewrite IH.
    unfold stats. cbn [fst snd]. unfold u64. destruct op; cbn [apply_op].
    + rewrite filter_cons_True by done. cbn [length].
      assert (forall h m n, wrap 64 (wrap 64 (h + 1) + m + n) = wrap 64 (h + m + (n + 1))) as Hl
        by (intros; rewrite <- Z.add_assoc, wrap_add_l; f_equal; lia).
      assert (forall h m n, wrap 64 (h + wrap 64 (m + 1) + n) = wrap 64 (h + m + (n + 1))) as Hr
        by (intros h m n; rewrite (Z.add_comm h), <- Z.add_assoc, wrap_add_l; f_equal; lia).
      rewrite Nat2Z.inj_succ, <- Z.add_1_r. fold (wrap 64) in *.
      unfold get. repeat case_match; cbn [snd inner with_inner hits misses]; first [apply Hl | apply Hr].
    + rewrite filter_cons_False by (intros H; inversion H).
      unfold put. by case_match.
    + rewrite filter_cons_False by (intros H; inversion H).
      unfold invalidate_tables. by case_match.
Qed.
End Properties.

(** ** Concrete runs *)

Section Witnesses.
#[local] Existing Instance ascii_table.
#[local] Existing Instance list_order.

Definition demo_ops : list cache_op :=
  [OpPut 0 (bs "SELECT 1 FROM orders") (bs "a"); OpPut 5 (bs "SELECT 2 FROM users") (bs "b");
   OpInvalidate [bs "orders"]; OpGet 6 (bs "SELECT 1 FROM orders")].

Lemma cache_never_stale_witness :
  is_cacheable (bs "SELECT 2 FROM users") = true /\
  exists at_, current (bs "SELECT 2 FROM users") demo_ops = Some (bs "b", at_) /\ 10 < at_ + 100.
Proof. apply (cache_never_stale demo_ops 2 100 10). vm_compute. reflexivity. Defined.

Lemma put_then_get_witness :
  fst (get 9 (bs "SELECT 1") (put 3 (bs "SELECT 1") (bs "x") with_defaults)) = Some (bs "x").
Proof.
  apply (put_then_get with_defaults 3 (bs "SELECT 1") (bs "x") 9); [reflexivity|].
  vm_compute. reflexivity.
Defined.

Lemma invalidate_exact_witness :
  let c := run demo_ops (new 2 100) in
  entries (inner (invalidate_tables [bs "users"] c)) !! bs "SELECT 2 FROM users" =
  if existsb (fun u => mem u [bs "users"]) (extract_tables_simple (bs "SELECT 2 FROM users"))
  then None else entries (inner c) !! bs "SELECT 2 FROM users".
Proof. apply (invalidate_exact demo_ops 2 100 [bs "users"]). discriminate. Defined.

Lemma evict_least_recent_witness :
  let m := entries (inner (put 0 (bs "SELECT 1") [] (new 1 100))) in
  exists k e, m !! k = Some e /\ evict 1 m = delete k m /\
  forall k' e', m !! k' = Some e' -> last_used e <= last_used e'.
Proof.
  apply (evict_least_recent 1 (entries (inner (put 0 (bs "SELECT 1") [] (new 1 100))))).
  - vm_compute. discriminate.
  - intros H. apply (f_equal size) in H. vm_compute in H. discriminate.
Defined.

(** A statement whose table name follows a line break has no tables, so no write
    invalidates its cached answer. *)
Example newline_hides_table :
  extract_tables_simple (bs "SELECT * FROM" ++ [10] ++ bs "orders") = [] /\
  is_cacheable (bs "SELECT * FROM" ++ [10] ++ bs "orders") = true.
Proof. vm_compute. done. Qed.

(** The scoped keys of the PostgreSQL front end are never cacheable. *)
Example scoped_key_not_cacheable : is_cacheable (bs "[db:app] SELECT 1") = false.
Proof. reflexivity. Qed.
End Witnesses.
