(* ===== verification/Rules.v ===== *)
(** * The query rule engine (src/src/proxy/rules.rs)

    Rules are tried in order; the mutable parts of a rule (token bucket, hit counter,
    last match) are atomics in a shared vector, so a call of [match_query] returns the
    updated vector.  Regular expressions are the [regex] crate: the class
    [RegexEngine].  The clock and the random numbers a call draws are arguments.  The token
    bucket is a machine of single accesses ([token_step]), and [try_consume_token] the call
    that runs them through alone; TokenBucket lets the calls interleave. *)

From S2P Require Import Prelude Bytes Config Fingerprint.

Class RegexEngine := {
  Regex : Type;
  Regex_new : bytes -> option Regex;
  is_match : Regex -> bytes -> bool;
  replace_all : Regex -> bytes -> bytes -> bytes;
  as_str : Regex -> bytes
}.

Inductive Destination := Any | Primary | Replica | Hostgroup (n : Z).
#[export] Instance Destination_eq_dec : EqDecision Destination.
Proof. solve_decision. Defined.

Record RuleMatch := {
  rm_destination : Destination;
  rm_cache_ttl_secs : Z;
  rm_mirror_to : option bytes;
  rate_limited : bool;
  rm_fast_forward : bool
}.

(** The atomics of a rule. *)
Record Counters := {
  token_bucket : Z;       (* i64 *)
  token_bucket_ms : Z;    (* u64 *)
  hit_count : Z;          (* u64 *)
  last_match_secs : Z     (* u64, 0 = never *)
}.

Section Engine.
Context `{RE : RegexEngine}.

Record CompiledRule := {
  pattern : option Regex;
  digest : option bytes;
  user : bytes;
  schema : bytes;
  destination : Destination;
  cache_ttl_secs : Z;
  comment : bytes;
  mirror_to : option bytes;
  rollout_pct : Z;
  dry_run : bool;
  fast_forward : bool;
  qps_limit : Z;
  counters : Counters
}.

Definition with_counters (r : CompiledRule) (c : Counters) : CompiledRule :=
  {| pattern := pattern r; digest := digest r; user := user r; schema := schema r;
     destination := destination r; cache_ttl_secs := cache_ttl_secs r;
     comment := comment r; mirror_to := mirror_to r; rollout_pct := rollout_pct r;
     dry_run := dry_run r; fast_forward := fast_forward r; qps_limit := qps_limit r;
     counters := c |}.

(** A call of [try_consume_token], between its accesses to the shared atomics: any number of
    sessions are in such calls of one rule at once. *)
Inductive TokenCall :=
| Starting
| Loading (now_ms : Z)
| Swapping (now_ms last_ms : Z)
| Refilling (elapsed : Z)
| Storing (new_val : Z)
| Taking
| Undoing
| Granted
| Rejected.

Definition set_bucket (n : Z) (c : Counters) : Counters :=
  {| token_bucket := n; token_bucket_ms := token_bucket_ms c;
     hit_count := hit_count c; last_match_secs := last_match_secs c |}.
Definition set_bucket_ms (ms : Z) (c : Counters) : Counters :=
  {| token_bucket := token_bucket c; token_bucket_ms := ms;
     hit_count := hit_count c; last_match_secs := last_match_secs c |}.

(** The tokens of a refill. *)
Definition refill_add (qps elapsed : Z) : Z := Z.min (u64 (elapsed * qps) / 1000) qps.

(** One access: [now_ms] is what the clock shows if it is read. *)
Definition token_step (qps now_ms : Z) (call : TokenCall) (c : Counters) : TokenCall * Counters :=
  match call with
  | Starting => if qps =? 0 then (Granted, c) else (Loading now_ms, c)
  | Loading now_ms =>
      let last_ms := token_bucket_ms c in
      if 1 <=? sat_sub now_ms last_ms then (Swapping now_ms last_ms, c) else (Taking, c)
  | Swapping now_ms last_ms =>
      if token_bucket_ms c =? last_ms
      then (Refilling (sat_sub now_ms last_ms), set_bucket_ms now_ms c)
      else (Taking, c)
  | Refilling elapsed =>
      let current := token_bucket c in
      let burst := qps in
      (Storing (Z.min (i64 (current + refill_add qps elapsed)) burst), c)
  | Storing new_val => (Taking, set_bucket new_val c)
  | Taking =>
      let remaining := token_bucket c in
      let c := set_bucket (i64 (remaining - 1)) c in
      if remaining <=? 0 then (Undoing, c) else (Granted, c)
  | Undoing => (Rejected, set_bucket (i64 (token_bucket c + 1)) c)
  | Granted | Rejected => (call, c)
  end.

(** A call that nothing disturbs: seven accesses at most. *)
Fixpoint finish_call (fuel : nat) (qps now_ms : Z) (call : TokenCall) (c : Counters) : bool * Counters :=
  match call, fuel with
  | Granted, _ => (true, c)
  | Rejected, _ | _, O => (false, c)
  | _, S fuel => let (call, c) := token_step qps now_ms call c in finish_call fuel qps now_ms call c
  end.
Definition try_consume_token (qps now_ms : Z) (c : Counters) : bool * Counters :=
  finish_call 7 qps now_ms Starting c.

Definition record_hit (now_ms : Z) (c : Counters) : Counters :=
  {| token_bucket := token_bucket c; token_bucket_ms := token_bucket_ms c;
     hit_count := u64 (hit_count c + 1); last_match_secs := now_ms / 1000 |}.

(** The user and schema filters and the pattern or digest test. *)
Definition rule_matches (sql u sch : bytes) (r : CompiledRule) : bool :=
  if negb (beq (user r) []) && negb (beq (user r) u) then false
  else if negb (beq (schema r) []) && negb (beq (schema r) sch) then false
  else
    match digest r, pattern r with
    | Some d, _ => beq (fingerprint sql) d
    | None, Some re => is_match re sql
    | None, None => false
    end.

(** The rollout lottery; [rnd] is the number drawn. *)
Definition in_rollout (rnd : Z) (r : CompiledRule) : bool :=
  if (0 <? rollout_pct r) && (rollout_pct r <? 100)
  then negb (rollout_pct r <=? u8 (rnd mod 100))
  else true.

(** [&sql[..sql.len().min(120)]] panics inside a character. *)
Definition log_slice_panics (sql : bytes) : bool :=
  let i := Nat.min (length sql) 120 in
  match drop i sql with b :: _ => is_cont b | [] => false end.

Definition rule_hit (now_ms : Z) (r : CompiledRule) : RuleMatch * CompiledRule :=
  let c := record_hit now_ms (counters r) in
  let (ok, c) := try_consume_token (qps_limit r) now_ms c in
  if ok then
    ({| rm_destination := destination r; rm_cache_ttl_secs := cache_ttl_secs r;
        rm_mirror_to := mirror_to r; rate_limited := false;
        rm_fast_forward := fast_forward r |}, with_counters r c)
  else
    ({| rm_destination := destination r; rm_cache_ttl_secs := 0; rm_mirror_to := None;
        rate_limited := true; rm_fast_forward := false |}, with_counters r c).

Inductive outcome := Panic | Returns (m : option RuleMatch).

(** The loop of [match_query] from rule number [i] on.  [log_on] says whether the
    info log level is enabled, [rnd] gives the number drawn for a rule. *)
Fixpoint match_loop (log_on : bool) (rnd : nat -> Z) (now_ms : Z) (sql u sch : bytes)
    (i : nat) (rules : list CompiledRule) : outcome * list CompiledRule :=
  match rules with
  | [] => (Returns None, [])
  | r :: rules' =>
      let continue_ :=
        let (o, rs) := match_loop log_on rnd now_ms sql u sch (S i) rules' in (o, r :: rs) in
      if negb (rule_matches sql u sch r) then continue_
      else if negb (in_rollout (rnd i) r) then continue_
      else if dry_run r then
        if log_on && log_slice_panics sql then (Panic, r :: rules') else continue_
      else
        let (m, r') := rule_hit now_ms r in (Returns (Some m), r' :: rules')
  end.

Definition match_query (log_on : bool) (rnd : nat -> Z) (now_ms : Z)
    (sql u sch : bytes) (rules : list CompiledRule) : outcome * list CompiledRule :=
  match_loop log_on rnd now_ms sql u sch 0 rules.

(** ** Compiling and reloading *)

Definition compile_rule (idx : nat) (cfg : QueryRuleConfig) : result nat CompiledRule :=
  let go (re : option Regex) :=
    Ok {| pattern := re; digest := match_digest cfg; user := qr_user cfg;
          schema := qr_schema cfg;
          destination := match destination_hostgroup cfg with
                         | Some hg => Hostgroup hg
                         | None => match qr_destination cfg with
                                   | RAny => Any | RPrimary => Primary | RReplica => Replica
                                   end
                         end;
          cache_ttl_secs := qr_cache_ttl_secs cfg; comment := qr_comment cfg;
          mirror_to := qr_mirror_to cfg;
          rollout_pct := Z.min (default 0 (qr_rollout_pct cfg)) 100;
          dry_run := qr_dry_run cfg; fast_forward := qr_fast_forward cfg;
          qps_limit := default 0 (qr_qps_limit cfg);
          counters := {| token_bucket := default 0 (qr_qps_limit cfg); token_bucket_ms := 0;
                         hit_count := 0; last_match_secs := 0 |} |} in
  match match_pattern cfg with
  | None => go None
  | Some p => match Regex_new p with Some re => go (Some re) | None => Err idx end
  end.

(** The error is the index of the rule whose pattern does not compile. *)
Fixpoint compile_from (idx : nat) (configs : list QueryRuleConfig) : result nat (list CompiledRule) :=
  match configs with
  | [] => Ok []
  | cfg :: configs' =>
      match compile_rule idx cfg with
      | Err e => Err e
      | Ok r => match compile_from (S idx) configs' with
                | Err e => Err e
                | Ok rs => Ok (r :: rs)
                end
      end
  end.
Definition compile_rules (configs : list QueryRuleConfig) : result nat (list CompiledRule) :=
  compile_from 0 configs.

(** The engine's state is the vector behind the lock; [new] and
    [reload_from_slice], which leaves it alone on error. *)
Definition RuleEngine_new (rules : list QueryRuleConfig) : result nat (list CompiledRule) :=
  compile_rules rules.
Definition reload_from_slice (configs : list QueryRuleConfig) (inner : list CompiledRule)
  : result nat unit * list CompiledRule :=
  match compile_rules configs with
  | Err e => (Err e, inner)
  | Ok rs => (Ok tt, rs)
  end.

Record RuleStats := {
  st_match_pattern : option bytes;
  st_match_digest : option bytes;
  st_user : bytes;
  st_schema : bytes;
  st_destination : bytes;
  st_destination_hostgroup : option Z;
  st_cache_ttl_secs : Z;
  st_comment : bytes;
  st_hit_count : Z;
  st_mirror_to : option bytes;
  st_rollout_pct : option Z;
  st_last_match : option bytes;
  st_dry_run : bool;
  st_qps_limit : option Z;
  st_fast_forward : bool
}.

(** [rfc3339] is the [chrono] formatting of a Unix time. *)
Definition rule_stats (rfc3339 : Z -> option bytes) (r : CompiledRule) : RuleStats :=
  {| st_match_pattern := as_str <$> pattern r; st_match_digest := digest r;
     st_user := user r; st_schema := schema r;
     st_destination := match destination r with
                       | Any => bs "any" | Primary => bs "primary" | Replica => bs "replica"
                       | Hostgroup n => bs "hostgroup:" ++ show_u64 n
                       end;
     st_destination_hostgroup := match destination r with Hostgroup n => Some n | _ => None end;
     st_cache_ttl_secs := cache_ttl_secs r; st_comment := comment r;
     st_hit_count := hit_count (counters r); st_mirror_to := mirror_to r;
     st_rollout_pct := if rollout_pct r =? 0 then None else Some (rollout_pct r);
     st_last_match := let ts := last_match_secs (counters r) in
                      if ts =? 0 then None else rfc3339 (i64 ts);
     st_dry_run := dry_run r;
     st_qps_limit := if qps_limit r =? 0 then None else Some (qps_limit r);
     st_fast_forward := fast_forward r |}.
Definition snapshot (rfc3339 : Z -> option bytes) (rules : list CompiledRule) : list RuleStats :=
  map (rule_stats rfc3339) rules.
End Engine.
Arguments CompiledRule {RE}.
Arguments RuleStats : clear implicits.

(** ** The token bucket *)

Definition i64_ok (z : Z) : Prop := - 2 ^ 63 <= z < 2 ^ 63.
Lemma i64_small z : i64_ok z -> i64 z = z.
Proof. intros H. unfold i64_ok, i64 in *. rewrite Z.mod_small by lia. lia. Qed.

(** What a refill and a call do that nothing disturbs. *)
Definition refill (qps now_ms : Z) (c : Counters) : Counters :=
  let elapsed := sat_sub now_ms (token_bucket_ms c) in
  if 1 <=? elapsed
  then set_bucket (Z.min (token_bucket c + refill_add qps elapsed) qps) (set_bucket_ms now_ms c)
  else c.
Definition consume (qps now_ms : Z) (c : Counters) : bool * Counters :=
  if qps =? 0 then (true, c) else
  let c := refill qps now_ms c in
  if token_bucket c <=? 0 then (false, c) else (true, set_bucket (token_bucket c - 1) c).

Lemma u64_le z : 0 <= z -> 0 <= u64 z <= z.
Proof. intros H. unfold u64, wrap. split; [apply Z.mod_pos_bound; lia | apply Z.mod_le; lia]. Qed.
Lemma refill_add_range qps elapsed : 0 <= qps -> 0 <= elapsed ->
  0 <= refill_add qps elapsed <= qps /\ 1000 * refill_add qps elapsed <= elapsed * qps.
Proof.
  intros Hq He. unfold refill_add. pose proof (u64_le (elapsed * qps) ltac:(nia)).
  pose proof (Z.mul_div_le (u64 (elapsed * qps)) 1000 ltac:(lia)).
  pose proof (Z.div_pos (u64 (elapsed * qps)) 1000 ltac:(lia) ltac:(lia)). lia.
Qed.

Definition bucket_ok (qps : Z) (c : Counters) : Prop :=
  0 <= token_bucket c <= qps /\ 0 <= token_bucket_ms c.

Lemma set_bucket_set x y c : set_bucket x (set_bucket y c) = set_bucket x c.
Proof. done. Qed.
Lemma set_bucket_same c : set_bucket (token_bucket c) c = c.
Proof. by destruct c. Qed.

Lemma take_undisturbed fuel qps now c : i64_ok (token_bucket c) -> i64_ok (token_bucket c - 1) ->
  finish_call (S (S fuel)) qps now Taking c =
  if token_bucket c <=? 0 then (false, c) else (true, set_bucket (token_bucket c - 1) c).
Proof.
  intros H H1. cbn [finish_call token_step]. rewrite (i64_small (_ - 1)) by done. destruct (_ <=? 0).
  - cbn [token_step]. cbn [token_bucket set_bucket]. rewrite Z.sub_add, i64_small by done. rewrite set_bucket_set, set_bucket_same.
    by destruct fuel.
  - by destruct fuel.
Qed.

Lemma try_consume_undisturbed qps now c : in_width 32 qps -> bucket_ok qps c ->
  try_consume_token qps now c = consume qps now c.
Proof.
  intros Hq [Hb Hm]. unfold try_consume_token, consume, refill. cbn [finish_call token_step].
  destruct (qps =? 0) eqn:E0; [done|]. cbn [token_step]. set (el := sat_sub now _).
  unfold in_width, i64_ok in *. destruct (1 <=? el) eqn:E.
  - cbn [token_step]. rewrite Z.eqb_refl. cbn [token_step token_bucket set_bucket_ms]. subst el.
    destruct (refill_add_range qps (sat_sub now (token_bucket_ms c))) as [Ha _]; [lia | unfold sat_sub; lia |].
    rewrite (i64_small (_ + _)) by (unfold i64_ok; lia).
    apply (take_undisturbed 0); cbn [token_bucket set_bucket]; unfold i64_ok; lia.
  - apply (take_undisturbed 3); unfold i64_ok; lia.
Qed.

(** The answers to a sequence of calls at the given times. *)
Fixpoint consume_all (qps : Z) (times : list Z) (c : Counters) : list bool * Counters :=
  match times with
  | [] => ([], c)
  | t :: times' =>
      let (ok, c1) := try_consume_token qps t c in
      let (oks, c2) := consume_all qps times' c1 in
      (ok :: oks, c2)
  end.

Lemma refill_ok qps t c : bucket_ok qps c -> 0 <= t -> bucket_ok qps (refill qps t c).
Proof.
  intros [Hb Hm] Ht. unfold refill. case_match; [|done].
  destruct (refill_add_range qps (sat_sub t (token_bucket_ms c))) as [Ha _]; [lia | unfold sat_sub; lia |].
  unfold bucket_ok. cbn. lia.
Qed.
Lemma consume_ok qps t c : bucket_ok qps c -> 0 <= t -> bucket_ok qps (snd (consume qps t c)).
Proof.
  intros Hc Ht. unfold consume. destruct (qps =? 0); [done|].
  pose proof (refill_ok qps t c Hc Ht) as [H1 H2]. cbv zeta.
  destruct (_ <=? 0) eqn:E; [by split|]. bool_to_prop. split; cbn; lia.
Qed.

(** Nothing arrives when less than one token's worth of time passes between calls. *)
Fixpoint too_frequent (qps last : Z) (times : list Z) : Prop :=
  match times with
  | [] => True
  | t :: times' => last < t /\ (t - last) * qps < 1000 /\ too_frequent qps t times'
  end.

Lemma refill_too_frequent qps t c :
  in_width 32 qps -> token_bucket_ms c < t -> (t - token_bucket_ms c) * qps < 1000 ->
  0 <= token_bucket c <= qps -> refill qps t c = set_bucket_ms t c.
Proof.
  intros Hq Hl Hs Hb. unfold in_width in Hq. unfold refill, refill_add, sat_sub.
  replace (Z.max 0 (t - token_bucket_ms c)) with (t - token_bucket_ms c) by lia.
  rewrite (proj2 (Z.leb_le _ _)) by lia. unfold u64. rewrite wrap_small by (unfold in_width; nia).
  rewrite Z.div_small by nia. replace (Z.min _ _) with (token_bucket c) by lia. done.
Qed.

Definition full_bucket (qps : Z) : Counters :=
  {| token_bucket := qps; token_bucket_ms := 0; hit_count := 0; last_match_secs := 0 |}.

(** The refill rounds down and still moves the refill time, so an empty bucket
    whose rule is tried again in less than [1000 / qps] milliseconds each time is
    never refilled: every one of those calls is rejected, however many seconds they
    span. *)
Theorem frequent_calls_starve qps times c :
  in_width 32 qps -> 0 < qps -> token_bucket c = 0 -> 0 <= token_bucket_ms c ->
  too_frequent qps (token_bucket_ms c) times ->
  fst (consume_all qps times c) = map (fun _ => false) times.
Proof.
  intros Hw Hq. revert c. induction times as [|t times IH]; intros c Hb Hm Hf; [done|].
  destruct Hf as (Hl & Hs & Hf). cbn [consume_all map].
  rewrite try_consume_undisturbed by (done || (unfold bucket_ok; lia)).
  unfold consume. rewrite (proj2 (Z.eqb_neq qps 0)) by lia.
  rewrite refill_too_frequent by (done || lia). cbn [token_bucket set_bucket_ms]. rewrite Hb.
  change (0 <=? 0) with true. cbv iota beta.
  specialize (IH (set_bucket_ms t c) Hb ltac:(cbn; lia) Hf).
  destruct (consume_all qps times _) as [oks c2]. cbn in *. by rewrite IH.
Qed.

(** Ten calls a second against a limit of nine a second: all of them fail for as long
    as they keep coming. *)
Lemma frequent_calls_starve_witness :
  let c := {| token_bucket := 0; token_bucket_ms := 0; hit_count := 0; last_match_secs := 0 |} in
  fst (consume_all 9 [100; 200; 300; 400; 500; 600; 700; 800; 900; 1000; 1100] c)
  = repeat false 11.
Proof.
  apply (frequent_calls_starve 9 [100; 200; 300; 400; 500; 600; 700; 800; 900; 1000; 1100]).
  - split; reflexivity || (intros [=]).
  - lia.
  - reflexivity.
  - reflexivity || (cbn; lia).
  - cbn. lia.
Defined.

(** ** Matching *)

Section Matching.
Context `{RE : RegexEngine}.
Implicit Types (r : CompiledRule) (rules : list CompiledRule).

(** A rule that decides the outcome when it is reached. *)
Definition applicable (rnd : nat -> Z) (sql u sch : bytes) (i : nat) r : bool :=
  rule_matches sql u sch r && in_rollout (rnd i) r && negb (dry_run r).

(** A rule that panics when it is reached. *)
Definition logs_badly (log_on : bool) (rnd : nat -> Z) (sql u sch : bytes) (i : nat) r : bool :=
  rule_matches sql u sch r && in_rollout (rnd i) r && dry_run r && log_on
  && log_slice_panics sql.

Lemma match_loop_skip log_on rnd now sql u sch i r rules :
  applicable rnd sql u sch i r = false -> logs_badly log_on rnd sql u sch i r = false ->
  match_loop log_on rnd now sql u sch i (r :: rules) =
  let (o, rs) := match_loop log_on rnd now sql u sch (S i) rules in (o, r :: rs).
Proof.
  unfold applicable, logs_badly. cbn [match_loop]. intros Ha Hl.
  destruct (rule_matches _ _ _ _); [|done]. destruct (in_rollout _ _); [|done]. simpl in *.
  destruct (dry_run r); [|done]. simpl in *. by rewrite Hl.
Qed.

Lemma match_loop_hit log_on rnd now sql u sch i r rules :
  applicable rnd sql u sch i r = true ->
  match_loop log_on rnd now sql u sch i (r :: rules) =
  let (m, r') := rule_hit now r in (Returns (Some m), r' :: rules).
Proof.
  unfold applicable. cbn [match_loop]. intros Ha.
  destruct (rule_matches _ _ _ _); [|done]. destruct (in_rollout _ _); [|done].
  by destruct (dry_run r).
Qed.

(** Rules that are passed over do not influence the rest. *)
Lemma match_loop_prefix log_on rnd now sql u sch i pre rules :
  (forall k r, pre !! k = Some r -> applicable rnd sql u sch (i + k) r = false
    /\ logs_badly log_on rnd sql u sch (i + k) r = false) ->
  match_loop log_on rnd now sql u sch i (pre ++ rules) =
  let (o, rs) := match_loop log_on rnd now sql u sch (i + length pre) rules in (o, pre ++ rs).
Proof.
  revert i. induction pre as [|r pre IH]; intros i Hpre.
  - rewrite Nat.add_0_r. cbn [app]. by destruct (match_loop _ _ _ _ _ _ _ _).
  - cbn [app length]. destruct (Hpre 0%nat r eq_refl) as [H1 H2]. rewrite Nat.add_0_r in *.
    rewrite match_loop_skip by done. rewrite IH.
    + replace (S i + length pre)%nat with (i + S (length pre))%nat by lia.
      by destruct (match_loop _ _ _ _ _ _ _ _).
    + intros k r' Hk. replace (S i + k)%nat with (i + S k)%nat by lia. by apply Hpre.
Qed.

(** A call leaves the other counters of the rule alone. *)
Lemma token_step_hits qps now call c :
  hit_count (snd (token_step qps now call c)) = hit_count c /\
  last_match_secs (snd (token_step qps now call c)) = last_match_secs c.
Proof. by destruct call; cbn [token_step]; repeat case_match. Qed.
Lemma finish_call_hits fuel qps now call c :
  hit_count (snd (finish_call fuel qps now call c)) = hit_count c /\
  last_match_secs (snd (finish_call fuel qps now call c)) = last_match_secs c.
Proof.
  revert call c. induction fuel as [|fuel IH]; intros call c; [by destruct call|].
  pose proof (token_step_hits qps now call c) as [H1 H2].
  destruct call; cbn [finish_call]; try done; destruct (token_step _ _ _ c) as [call' c'];
    rewrite <- H1, <- H2; apply IH.
Qed.

Lemma rule_hit_spec now r :
  let (m, r') := rule_hit now r in
  rm_destination m = destination r /\
  rate_limited m = negb (fst (try_consume_token (qps_limit r) now (record_hit now (counters r)))) /\
  (rate_limited m = false -> rm_cache_ttl_secs m = cache_ttl_secs r /\
     rm_mirror_to m = mirror_to r /\ rm_fast_forward m = fast_forward r) /\
  r' = with_counters r (counters r') /\
  hit_count (counters r') = u64 (hit_count (counters r) + 1) /\
  last_match_secs (counters r') = now / 1000.
Proof.
  unfold rule_hit. pose proof (finish_call_hits 7 (qps_limit r) now Starting (record_hit now (counters r))) as [H1 H2].
  fold (try_consume_token (qps_limit r) now (record_hit now (counters r))) in H1, H2.
  by destruct (try_consume_token _ _ _) as [[] c].
Qed.

(** A rule whose log line panics ends the call; the rules are as they were. *)
Lemma match_loop_panics log_on rnd now sql u sch i pre rules :
  (forall k r, pre !! k = Some r -> applicable rnd sql u sch (i + k) r = false) ->
  (exists k r, pre !! k = Some r /\ logs_badly log_on rnd sql u sch (i + k) r = true) ->
  match_loop log_on rnd now sql u sch i (pre ++ rules) = (Panic, pre ++ rules).
Proof.
  revert i. induction pre as [|r pre IH]; intros i Ha (k & r' & Hk & Hl); [by rewrite lookup_nil in Hk|].
  pose proof (Ha 0%nat r eq_refl) as H0. rewrite Nat.add_0_r in H0. cbn [app].
  destruct (logs_badly log_on rnd sql u sch i r) eqn:El.
  - unfold logs_badly in El. cbn [match_loop].
    destruct (rule_matches _ _ _ _); [|done]. destruct (in_rollout _ _); [|done]. destruct (dry_run r); [|done].
    cbn [negb andb] in *. by rewrite El.
  - rewrite match_loop_skip by done. destruct k as [|k]; cbn in Hk.
    { injection Hk as <-. rewrite Nat.add_0_r in Hl. congruence. }
    rewrite IH; [done| |].
    + intros j r2 Hj. replace (S i + j)%nat with (i + S j)%nat by lia. by apply Ha.
    + exists k, r'. by replace (S i + k)%nat with (i + S k)%nat by lia.
Qed.

(** C27: The first applicable rule decides and is the only one whose counters
    change: its destination is the answer, it counts one hit, and the answer is rate
    limited exactly when its bucket refuses a token; rules before it that do not
    match, lose the rollout lottery or are dry runs change nothing.  Only a dry run before
    it whose log line panics keeps it from deciding: the call panics and changes nothing. *)
Theorem first_applicable_rule_wins log_on rnd now sql u sch pre r post :
  (forall k r', pre !! k = Some r' -> applicable rnd sql u sch k r' = false) ->
  applicable rnd sql u sch (length pre) r = true ->
  match match_query log_on rnd now sql u sch (pre ++ r :: post) with
  | (Returns (Some m), rules) =>
      (forall k r', pre !! k = Some r' -> logs_badly log_on rnd sql u sch k r' = false) /\
      rm_destination m = destination r /\
      rate_limited m = negb (fst (try_consume_token (qps_limit r) now (record_hit now (counters r)))) /\
      (rate_limited m = false -> rm_fast_forward m = fast_forward r /\
         rm_cache_ttl_secs m = cache_ttl_secs r /\ rm_mirror_to m = mirror_to r) /\
      exists r', rules = pre ++ r' :: post /\ r' = with_counters r (counters r') /\
        hit_count (counters r') = u64 (hit_count (counters r) + 1)
  | (Returns None, _) => False
  | (Panic, rules) => rules = pre ++ r :: post /\
      exists k r', pre !! k = Some r' /\ logs_badly log_on rnd sql u sch k r' = true
  end.
Proof.
  intros Hpre Hr. unfold match_query.
  destruct (existsb (fun k => match pre !! k with Some r' => logs_badly log_on rnd sql u sch k r' | None => false end)
    (List.seq 0 (length pre))) eqn:Ee.
  - apply existsb_exists in Ee as (k & _ & Hk). destruct (pre !! k) as [r'|] eqn:Er; [|done].
    rewrite match_loop_panics; eauto 6.
  - assert (forall k r', pre !! k = Some r' -> logs_badly log_on rnd sql u sch k r' = false) as Hlog.
    { intros k r' Hk. apply not_true_is_false. intros Hl. apply not_true_iff_false in Ee. apply Ee, existsb_exists.
      exists k. split; [apply in_seq; apply lookup_lt_Some in Hk; lia | by rewrite Hk]. }
    rewrite match_loop_prefix by (intros k r' Hk; split; [by apply Hpre | by apply Hlog]). cbn [Nat.add].
    rewrite match_loop_hit by done. pose proof (rule_hit_spec now r) as Hs. destruct (rule_hit now r) as [m r'].
    destruct Hs as (H1 & H2 & H3 & H4 & H5 & H6). split_and!; [done..| | by exists r'].
    intros Hl. destruct (H3 Hl) as (? & ? & ?). done.
Qed.

(** Without an applicable rule the answer is "no match" and no counter of any
    rule changes, so the router falls back to its heuristic. *)
Theorem no_applicable_rule log_on rnd now sql u sch rules :
  (forall k r, rules !! k = Some r -> applicable rnd sql u sch k r = false) ->
  log_on && log_slice_panics sql = false ->
  match_query log_on rnd now sql u sch rules = (Returns None, rules).
Proof.
  intros Hall Hlog. unfold match_query. rewrite <- (app_nil_r rules) at 1.
  rewrite match_loop_prefix; [by cbn; rewrite app_nil_r|].
  intros k r Hk. split; [by apply Hall|]. unfold logs_badly.
  rewrite <- andb_assoc, Hlog. apply andb_false_r.
Qed.

(** A dry-run rule that matches a statement whose 120th byte is inside a
    character makes the call panic when the info log is on. *)
Theorem dry_run_log_panics rnd now sql u sch r rules :
  rule_matches sql u sch r = true -> in_rollout (rnd 0%nat) r = true -> dry_run r = true ->
  log_slice_panics sql = true ->
  match_query true rnd now sql u sch (r :: rules) = (Panic, r :: rules).
Proof.
  intros H1 H2 H3 H4. unfold match_query. cbn [match_loop]. by rewrite H1, H2, H3, H4.
Qed.

Lemma compile_from_spec idx configs :
  match compile_from idx configs with
  | Ok rs => length rs = length configs /\
      forall k cfg, configs !! k = Some cfg -> exists r, rs !! k = Some r /\
        compile_rule (idx + k) cfg = Ok r
  | Err e => exists k cfg, configs !! k = Some cfg /\ e = (idx + k)%nat /\
      (exists p, match_pattern cfg = Some p /\ Regex_new p = None) /\
      forall j c, (j < k)%nat -> configs !! j = Some c -> is_ok (compile_rule (idx + j) c) = true
  end.
Proof.
  revert idx. induction configs as [|cfg configs IH]; intros idx; cbn [compile_from].
  - split; [done|]. intros k cfg Hk. by rewrite lookup_nil in Hk.
  - destruct (compile_rule idx cfg) as [r|e] eqn:Er.
    + specialize (IH (S idx)). destruct (compile_from (S idx) configs) as [rs|e].
      * destruct IH as [Hl IH]. split; [simpl; lia|]. intros [|k] c Hk; simpl in Hk.
        { injection Hk as <-. exists r. by rewrite Nat.add_0_r. }
        destruct (IH k c Hk) as (r' & H1 & H2). exists r'.
        by replace (idx + S k)%nat with (S idx + k)%nat by lia.
      * destruct IH as (k & c & H1 & -> & H3 & H4). exists (S k), c.
        split_and!; [done | lia | done |]. intros [|j] c' Hj Hc; simpl in Hc.
        { injection Hc as <-. by rewrite Nat.add_0_r, Er. }
        replace (idx + S j)%nat with (S idx + j)%nat by lia. apply H4; [lia | done].
    + unfold compile_rule in Er. exists 0%nat, cfg. rewrite Nat.add_0_r.
      destruct (match_pattern cfg) as [p|]; [|done].
      destruct (Regex_new p) eqn:Ep; [done|]. injection Er as <-.
      split_and!; [done | done | by exists p | lia].
Qed.

(** A reload keeps the rules in order, one for one, with full buckets and zero
    counters; it fails exactly at the first pattern that does not compile, and then
    the old rules stay. *)
Theorem reload_all_or_nothing configs inner :
  let (res, inner') := reload_from_slice configs inner in
  match res with
  | Ok _ => length inner' = length configs /\
      forall k cfg, configs !! k = Some cfg ->
        exists r, inner' !! k = Some r /\ compile_rule k cfg = Ok r /\
                  counters r = full_bucket (default 0 (qr_qps_limit cfg))
  | Err k => inner' = inner /\
      exists cfg p, configs !! k = Some cfg /\ match_pattern cfg = Some p /\ Regex_new p = None
  end.
Proof.
  unfold reload_from_slice, compile_rules. pose proof (compile_from_spec 0 configs) as H.
  destruct (compile_from 0 configs) as [rs|e].
  - destruct H as [Hl H]. split; [done|]. intros k cfg Hk. destruct (H k cfg Hk) as (r & H1 & H2).
    exists r. split_and!; [done..|]. unfold compile_rule in H2. by repeat case_match; simplify_eq.
  - destruct H as (k & cfg & H1 & -> & (p & H3 & H4) & _). split; [done|]. by exists cfg, p.
Qed.
End Matching.

(** ** Concrete engines *)

(** A regular expression engine whose patterns are plain substrings. *)
Definition substring_engine : RegexEngine := {|
  Regex := bytes;
  Regex_new p := if str_contains p (bs "(") then None else Some p;
  is_match p s := str_contains s p;
  replace_all p s r := s;
  as_str p := p
|}.

Section Witnesses.
#[local] Existing Instance substring_engine.

Definition demo_cfg (p : bytes) (dest : RuleDestination) (dry : bool) : QueryRuleConfig :=
  {| match_pattern := Some p; match_digest := None; qr_user := []; qr_schema := [];
     qr_destination := dest; qr_cache_ttl_secs := 5; qr_comment := []; qr_mirror_to := None;
     destination_hostgroup := None; qr_rollout_pct := None; qr_qps_limit := Some 1;
     qr_dry_run := dry; qr_fast_forward := false |}.

Definition demo_rule (p : bytes) (dest : RuleDestination) (dry : bool) : CompiledRule :=
  match compile_rule 0 (demo_cfg p dest dry) with
  | Ok r => r
  | Err _ => {| pattern := None; digest := None; user := []; schema := []; destination := Any;
                cache_ttl_secs := 0; comment := []; mirror_to := None; rollout_pct := 0;
                dry_run := false; fast_forward := false; qps_limit := 0;
                counters := full_bucket 0 |}
  end.

Lemma first_applicable_rule_wins_witness :
  match match_query true (fun _ => 0) 1000 (bs "SELECT 1") [] []
    ([demo_rule (bs "SELECT") RPrimary true] ++ demo_rule (bs "1") RReplica false :: []) with
  | (Returns (Some m), _) => rm_destination m = Replica
  | _ => False
  end.
Proof.
  pose proof (first_applicable_rule_wins true (fun _ => 0) 1000 (bs "SELECT 1") [] []
    [demo_rule (bs "SELECT") RPrimary true] (demo_rule (bs "1") RReplica false) []) as H.
  assert (forall k r', [demo_rule (bs "SELECT") RPrimary true] !! k = Some r' ->
    applicable (fun _ => 0) (bs "SELECT 1") [] [] k r' = false) as H1.
  { intros [|k] r' Hk; [injection Hk as <-; reflexivity | simpl in Hk; by rewrite lookup_nil in Hk]. }
  specialize (H H1 ltac:(vm_compute; reflexivity)). revert H. vm_compute. intuition discriminate.
Defined.

Lemma no_applicable_rule_witness :
  match_query true (fun _ => 0) 1000 (bs "DELETE") [] [] [demo_rule (bs "SELECT") RPrimary false]
  = (Returns None, [demo_rule (bs "SELECT") RPrimary false]).
Proof.
  apply (no_applicable_rule true (fun _ => 0) 1000 (bs "DELETE") [] []
           [demo_rule (bs "SELECT") RPrimary false]).
  - intros [|k] r' Hk; [injection Hk as <-; reflexivity | simpl in Hk; by rewrite lookup_nil in Hk].
  - reflexivity.
Defined.

(** The statement: 119 letters, then a two-byte character. *)
Lemma dry_run_log_panics_witness :
  let sql := repeat 97 119 ++ [195; 169] in
  let r := demo_rule (bs "a") RPrimary true in
  utf8_valid sql = true /\
  match_query true (fun _ => 0) 1000 sql [] [] [r] = (Panic, [r]).
Proof.
  split; [reflexivity|].
  apply (dry_run_log_panics (fun _ => 0) 1000 (repeat 97 119 ++ [195; 169]) [] []
           (demo_rule (bs "a") RPrimary true) []); vm_compute; reflexivity.
Defined.
End Witnesses.
