(* ===== verification/TokenBucket.v ===== *)
(** * Many sessions on one token bucket (src/src/proxy/rules.rs)

    [CompiledRule::try_consume_token] as it runs: the sessions that reach a rule share the two
    atomics of its bucket, and between two accesses of one call the others make theirs.  Rules
    has the accesses ([Rules.token_step]) and the call that runs alone
    ([Rules.try_consume_token]); here any number of calls make them in any order. *)

From S2P Require Import Prelude Bytes Config Rules.

(** ** Many calls at once *)

(** The calls of a rule, each with a mark that nothing reads: how often a token had been taken
    when the call loaded the bucket.  [overwritten] counts the takes that fell between the
    load and the store of a refill, so that the store undid them. *)
Record Calls := {
  bucket : Counters;
  calls : list (TokenCall * Z);
  takes : Z;
  overwritten : Z
}.
Definition calls_start (n : nat) (c : Counters) : Calls :=
  {| bucket := c; calls := replicate n (Starting, 0); takes := 0; overwritten := 0 |}.

(** Call [i] makes its next access, when the clock shows [now]. *)
Definition call_step (qps : Z) (s : Calls) (turn : nat * Z) : Calls :=
  let (i, now) := turn in
  match calls s !! i with
  | None => s
  | Some (call, mark) =>
      let (call', c') := token_step qps now call (bucket s) in
      {| bucket := c';
         calls := <[i := (call', match call with Refilling _ => takes s | _ => mark end)]> (calls s);
         takes := takes s + match call with Taking => 1 | _ => 0 end;
         overwritten := overwritten s + match call with Storing _ => takes s - mark | _ => 0 end |}
  end.
Definition run_calls (qps : Z) (schedule : list (nat * Z)) (s : Calls) : Calls := foldl (call_step qps) s schedule.

Definition is_admitted (x : TokenCall * Z) : Z := match x.1 with Granted => 1 | _ => 0 end.
Definition admitted (s : Calls) : Z := tally is_admitted (calls s).

Section Bucket.
Variables (qps T : Z).
Hypothesis Hqps : 0 < qps < 2 ^ 32.

(** Tokens a call has, has still to put back, or is about to add. *)
Definition is_undoing (x : TokenCall * Z) : Z := match x.1 with Undoing => 1 | _ => 0 end.
Definition due (x : TokenCall * Z) : Z :=
  match x.1 with Granted | Undoing => 1 | Refilling elapsed => refill_add qps elapsed | _ => 0 end.

(** What may have been given out, in thousandths: the tokens of the start, what time has
    brought, and what was overwritten. *)
Definition supply (c0 : Counters) (s : Calls) : Z :=
  1000 * token_bucket c0 + (token_bucket_ms (bucket s) - token_bucket_ms c0) * qps + 1000 * overwritten s.

(** The account of the value [v] that the bucket has, or will have when it is stored by a call
    with the mark [t]; [l] tokens that were put back have been overwritten in it. *)
Definition account (c0 : Counters) (s : Calls) (n v t : Z) : Prop :=
  - n <= v <= qps + n /\
  exists l, 0 <= l /\ 1000 * (v + l + tally due (calls s) - (takes s - t)) <= supply c0 s /\
    - l <= v + tally is_undoing (calls s).

Definition call_ok (x : TokenCall * Z) : Prop :=
  match x.1 with
  | Loading now => 0 <= now <= T
  | Swapping now last => 0 <= now <= T /\ last < now
  | Refilling elapsed => 0 <= elapsed
  | _ => True
  end.
Record calls_inv (c0 : Counters) (n : Z) (s : Calls) : Prop := {
  inv_ms : 0 <= token_bucket_ms (bucket s) <= T;
  inv_bucket : account c0 s n (token_bucket (bucket s)) (takes s);
  inv_calls : forall i x, calls s !! i = Some x -> call_ok x /\ x.2 <= takes s /\
    forall v, x.1 = Storing v -> v <= qps /\ account c0 s n v x.2
}.

Lemma refill_add_pos elapsed : 0 <= refill_add qps elapsed <= qps.
Proof.
  unfold refill_add. pose proof (wrap_range 64 (elapsed * qps) ltac:(lia)) as [H _].
  pose proof (Z.div_pos (u64 (elapsed * qps)) 1000 H ltac:(lia)). lia.
Qed.
Lemma swap_account now last : 0 <= now <= T /\ last < now -> 1000 * refill_add qps (sat_sub now last) <= (now - last) * qps.
Proof. intros H. destruct (refill_add_range qps (sat_sub now last)) as [_ Ha]; unfold sat_sub in *; nia. Qed.
Lemma account_later c0 s n v t : account c0 s n v t -> account c0 s (n + 1) v t.
Proof. intros (? & l & ?). split; [lia | by exists l]. Qed.

(** The account after a step of call [i], from an account before it with [l]. *)
Ltac account_tac Ei l := unfold account, supply in *; cbn; rewrite !(tally_insert _ _ _ _ _ Ei); cbn; split; [lia | exists l; lia].

Lemma call_step_inv c0 n s i now : calls_inv c0 n s -> 0 <= now <= T -> 0 <= n < 2 ^ 62 ->
  calls_inv c0 (n + 1) (call_step qps s (i, now)).
Proof.
  intros [H1 H3 H4] Hnow Hn. unfold call_step. destruct (calls s !! i) as [[call t]|] eqn:Ei.
  2: { constructor; [done | by apply account_later |]. intros j x Hj. destruct (H4 j x Hj) as (? & ? & Hv).
       split_and!; [done..|]. intros v Ev. destruct (Hv v Ev). split; [done | by apply account_later]. }
  destruct (H4 i _ Ei) as (Hc & Ht & Hs). unfold call_ok in Hc. cbn [fst snd] in *.
  pose proof (lookup_lt_Some _ _ _ Ei) as Hi. destruct H3 as (Hb & l & Hl & Ha & Hu).
  assert (i64 (token_bucket (bucket s) - 1) = token_bucket (bucket s) - 1 /\
    i64 (token_bucket (bucket s) + 1) = token_bucket (bucket s) + 1) as [E1 E2]
    by (split; apply i64_small; unfold i64_ok; lia).
  assert (forall e, i64 (token_bucket (bucket s) + refill_add qps e) = token_bucket (bucket s) + refill_add qps e) as E3
    by (intros e; pose proof (refill_add_pos e); apply i64_small; unfold i64_ok; lia).
  assert (0 <= tally is_undoing (calls s)) as Hun by (apply tally_nonneg; by intros [[] ?]).
  destruct call as [|now_ms|now_ms last_ms|elapsed|v0| | | |]; cbn [token_step]; rewrite ?E1, ?E2, ?E3;
    repeat case_match; simplify_eq/=; bool_to_prop.
  all: try pose proof (refill_add_pos elapsed); try pose proof (swap_account now_ms _ Hc);
    try destruct (Hs v0 eq_refl) as [Hv0 (Hb0 & l0 & Hl0 & Ha0 & Hu0)].
  all: constructor; cbn [bucket calls takes overwritten token_bucket token_bucket_ms set_bucket set_bucket_ms]; try lia;
    try account_tac Ei l; try account_tac Ei l0.
  all: intros j x Hj; destruct (decide (j = i)) as [->|Hne];
    [ rewrite list_lookup_insert_eq in Hj by done; injection Hj as <-; cbn [call_ok fst snd];
      split; [|split; [|intros v Ev; simplify_eq; split]]
    | rewrite list_lookup_insert_ne in Hj by done; destruct (H4 j x Hj) as (? & ? & Hv); split; [done|split; [lia|]];
      intros v Ev; destruct (Hv v Ev) as [? (Hb' & l' & Hl' & Ha' & Hu')]; split; [done |];
      first [account_tac Ei l' | account_tac Ei (l' + 1)] ].
  all: try done; try (unfold sat_sub in *; cbn; lia); try account_tac Ei l.
Qed.

Lemma calls_start_inv m c : bucket_ok qps c -> token_bucket_ms c <= T -> calls_inv c 0 (calls_start m c).
Proof.
  intros [Hb Hm] HT. unfold calls_start. constructor; cbn [bucket calls takes overwritten]; [done | |].
  - split; [lia|]. exists 0. unfold supply. cbn. rewrite !tally_zero by (by apply Forall_replicate). lia.
  - intros i x Hi. apply lookup_replicate in Hi as [-> _]. cbn. split_and!; [done | lia | by intros v [=]].
Qed.
Lemma run_calls_inv c0 schedule n s : calls_inv c0 n s -> Forall (fun turn => 0 <= turn.2 <= T) schedule ->
  0 <= n -> n + Z.of_nat (length schedule) < 2 ^ 62 -> calls_inv c0 (n + Z.of_nat (length schedule)) (run_calls qps schedule s).
Proof.
  intros Hi Hs. revert n s Hi. induction Hs as [|[i now] schedule Hnow Hs IH]; intros n s Hi Hn Hl; cbn [length run_calls foldl] in *.
  - by replace (n + Z.of_nat 0) with n by lia.
  - replace (n + Z.of_nat (S (length schedule))) with (n + 1 + Z.of_nat (length schedule)) by lia.
    apply IH; [|lia..]. apply call_step_inv; [done | exact Hnow | lia].
Qed.

Lemma due_covers l : tally is_admitted l + tally is_undoing l <= tally due l.
Proof.
  rewrite <- tally_add. apply tally_le. intros [[] t]; cbn; try lia. apply refill_add_pos.
Qed.
Lemma admitted_within c0 n s : calls_inv c0 n s ->
  1000 * admitted s <= 1000 * token_bucket c0 + (T - token_bucket_ms c0) * qps + 1000 * overwritten s.
Proof.
  intros [H1 (_ & l & Hl & Ha & Hu) _]. pose proof (due_covers (calls s)). unfold supply, admitted in *. nia.
Qed.

(** *** Calls that follow one another *)

Definition busy (call : TokenCall) : bool :=
  match call with Starting | Granted | Rejected => false | _ => true end.
Definition one_at_a_time (s : Calls) : Prop :=
  forall i j x y, calls s !! i = Some x -> calls s !! j = Some y -> busy x.1 = true -> busy y.1 = true -> i = j.
Definition serial (schedule : list (nat * Z)) (s : Calls) : Prop :=
  forall pre post, schedule = pre ++ post -> one_at_a_time (run_calls qps pre s).

Definition unharmed (s : Calls) : Prop :=
  overwritten s = 0 /\ forall i v t, calls s !! i = Some (Storing v, t) -> t = takes s.
Lemma serial_step s i now : one_at_a_time s -> unharmed s -> unharmed (call_step qps s (i, now)).
Proof.
  intros Ho [H1 H2]. unfold call_step. destruct (calls s !! i) as [[call t]|] eqn:Ei; [|by split].
  pose proof (lookup_lt_Some _ _ _ Ei) as Hi.
  destruct call; cbn [token_step]; repeat case_match; split; cbn [overwritten takes calls]; try lia;
    try (rewrite (H2 _ _ _ Ei); lia).
  all: intros j v m Hj; destruct (decide (j = i)) as [->|Hne];
    [ rewrite list_lookup_insert_eq in Hj by done; simplify_eq; try lia
    | rewrite list_lookup_insert_ne in Hj by done; specialize (H2 j v m Hj);
      first [lia | by destruct (Hne (Ho j i _ _ Hj Ei eq_refl eq_refl))] ].
Qed.
Lemma serial_run schedule s : unharmed s -> serial schedule s -> unharmed (run_calls qps schedule s).
Proof.
  revert s. induction schedule as [|[i now] schedule IH]; intros s Hs Ho; [done|]. cbn [run_calls foldl]. apply IH.
  - apply serial_step; [|done]. exact (Ho [] _ eq_refl).
  - intros pre post ->. exact (Ho ((i, now) :: pre) post eq_refl).
Qed.
Lemma unharmed_start m c : unharmed (calls_start m c).
Proof. split; [done|]. intros i v t Hi. by apply lookup_replicate in Hi as [[=] _]. Qed.
End Bucket.

(** C28: Rate limiting bounds the admitted queries, however many calls of one rule are under way
    at once and however their accesses to the bucket interleave: up to a time [T] at most the
    tokens there were, [qps] for every second since the last refill, and one for every token
    that was taken between the load and the store of a refill are admitted; calls that follow
    one another lose no token that way. *)
Theorem rate_limit_admission_bound qps T m schedule c :
  0 < qps < 2 ^ 32 -> bucket_ok qps c -> token_bucket_ms c <= T ->
  Forall (fun turn => 0 <= turn.2 <= T) schedule -> Z.of_nat (length schedule) < 2 ^ 62 ->
  let s := run_calls qps schedule (calls_start m c) in
  1000 * admitted s <= 1000 * token_bucket c + (T - token_bucket_ms c) * qps + 1000 * overwritten s /\
  (serial qps schedule (calls_start m c) -> overwritten s = 0).
Proof.
  intros Hq Hc HT Hs Hl s. split.
  - apply (admitted_within qps T Hq c (0 + Z.of_nat (length schedule))).
    apply run_calls_inv; [done | by apply calls_start_inv | done | lia | lia].
  - intros Ho. eapply serial_run; [done | apply unharmed_start | exact Ho].
Qed.

(** Three calls one after another on a bucket of two; and a refill that is caught between its
    load and its store while the bucket is emptied: three statements are admitted in the same
    millisecond where two are allowed. *)
Definition one_call (i : nat) (now : Z) : list (nat * Z) := replicate 7 (i, now).
Definition in_turn : list (nat * Z) := one_call 0 10 ++ one_call 1 11 ++ one_call 2 12.
Definition caught : list (nat * Z) := replicate 4 (0%nat, 10) ++ one_call 1 10 ++ one_call 2 10 ++ one_call 0 10.

Lemma rate_limit_admission_bound_witness :
  let s := run_calls 2 caught (calls_start 3 (full_bucket 2)) in
  1000 * admitted s <= 1000 * 2 + (10 - 0) * 2 + 1000 * overwritten s /\ admitted s = 3 /\
  admitted (run_calls 2 in_turn (calls_start 3 (full_bucket 2))) = 2.
Proof.
  split_and!; [|vm_compute; reflexivity..].
  apply (rate_limit_admission_bound 2 10 3 caught (full_bucket 2)).
  - lia.
  - vm_compute. intuition discriminate.
  - vm_compute. discriminate.
  - repeat constructor; discriminate.
  - reflexivity.
Defined.

(** A refill that is delayed hands out what was taken in the meantime once more. *)
Theorem delayed_refill_overfills : exists schedule,
  Forall (fun turn => turn.2 = 10) schedule /\ admitted (run_calls 2 schedule (calls_start 3 (full_bucket 2))) = 3.
Proof. exists caught. split; [repeat constructor | by vm_compute]. Qed.
