(* ===== verification/Rewriter.v ===== *)
(** * The rewrite engine (src/src/proxy/rewriter.rs)

    The first rule whose pattern matches transforms the statement or blocks it.  The
    regular expressions are the class [RegexEngine] of the rule engine. *)

From S2P Require Import Prelude Bytes Config Rules.

Inductive RewriteOutcome := Unchanged | Rewritten (s : bytes) | Blocked (msg : bytes).

Section Engine.
Context `{CT : CaseTable} `{RE : RegexEngine}.

Record CompiledRule := {
  pattern : Regex;
  replace_with : option bytes;
  add_limit : option Z;
  add_timeout_ms : option Z;
  block : bool;
  comment : bytes;
  hit_count : Z;
  last_match_secs : Z
}.

Definition record_hit (now_secs : Z) (r : CompiledRule) : CompiledRule :=
  {| pattern := pattern r; replace_with := replace_with r; add_limit := add_limit r;
     add_timeout_ms := add_timeout_ms r; block := block r; comment := comment r;
     hit_count := u64 (hit_count r + 1); last_match_secs := now_secs |}.

(** Insert the optimizer hint after SELECT. *)
Definition inject_timeout_hint (sql : bytes) (ms : Z) : bytes :=
  let trimmed := trim_start sql in
  if negb (starts_with (to_uppercase trimmed) (bs "SELECT")) then sql
  else if str_contains sql (bs "MAX_EXECUTION_TIME") then sql
  else
    let hint := bs "/*+ MAX_EXECUTION_TIME(" ++ show_u64 ms ++ bs ") */ " in
    let select_end :=
      Nat.max (default 6%nat (find_byte (fun c => is_ascii_whitespace c || (c =? 47)) trimmed)) 6 in
    take select_end trimmed ++ hint ++ drop select_end trimmed.

(** Append LIMIT to a SELECT that has none. *)
Definition enforce_limit (sql : bytes) (n : Z) : bytes :=
  let trimmed := trim_start sql in
  if negb (starts_with (to_uppercase trimmed) (bs "SELECT")) then sql
  else
    let upper := to_uppercase sql in
    if str_contains upper (bs " LIMIT ") || ends_with (trim_end upper) (bs "LIMIT") then sql
    else trim_end_matches 59 (trim_end sql) ++ bs " LIMIT " ++ show_u64 n.

Definition blocked_message (comment : bytes) : bytes :=
  if beq comment [] then bs "Query blocked by rewrite rule"
  else bs "Query blocked by rewrite rule: " ++ comment.

(** What a matching rule does to the statement. *)
Definition apply_rule (r : CompiledRule) (sql : bytes) : RewriteOutcome :=
  if block r then Blocked (blocked_message (comment r))
  else
    let result := match replace_with r with
                  | Some replacement => replace_all (pattern r) sql replacement
                  | None => sql
                  end in
    let result := match add_timeout_ms r with
                  | Some ms => inject_timeout_hint result ms
                  | None => result
                  end in
    let result := match add_limit r with
                  | Some n => enforce_limit result n
                  | None => result
                  end in
    Rewritten result.

Fixpoint apply (now_secs : Z) (sql : bytes) (rules : list CompiledRule)
  : RewriteOutcome * list CompiledRule :=
  match rules with
  | [] => (Unchanged, [])
  | r :: rules' =>
      if is_match (pattern r) sql then (apply_rule r sql, record_hit now_secs r :: rules')
      else let (o, rs) := apply now_secs sql rules' in (o, r :: rs)
  end.

Definition is_empty (rules : list CompiledRule) : bool :=
  match rules with [] => true | _ => false end.

Fixpoint compile_from (i : nat) (configs : list QueryRewriteConfig) : result nat (list CompiledRule) :=
  match configs with
  | [] => Ok []
  | cfg :: configs' =>
      match Regex_new (rw_match_pattern cfg) with
      | None => Err i
      | Some re =>
          match compile_from (S i) configs' with
          | Err e => Err e
          | Ok rs =>
              Ok ({| pattern := re;
                     replace_with := match rw_replace_with cfg with
                                     | Some [] => None
                                     | r => r
                                     end;
                     add_limit := rw_add_limit cfg; add_timeout_ms := rw_add_timeout_ms cfg;
                     block := rw_block cfg; comment := rw_comment cfg;
                     hit_count := 0; last_match_secs := 0 |} :: rs)
          end
      end
  end.
Definition compile_rules (configs : list QueryRewriteConfig) : result nat (list CompiledRule) :=
  compile_from 0 configs.

Definition reload_from_slice (configs : list QueryRewriteConfig) (inner : list CompiledRule)
  : result nat unit * list CompiledRule :=
  match compile_rules configs with
  | Err e => (Err e, inner)
  | Ok rs => (Ok tt, rs)
  end.
End Engine.

(** ** Lemmas *)

Lemma ascii_only_app p s : ascii_only (p ++ s) <-> ascii_only p /\ ascii_only s.
Proof. apply Forall_app. Qed.

Lemma trim_rev_suffix s : exists p, s = p ++ trim_rev s.
Proof.
  remember (length s) as n eqn:Hn. revert s Hn.
  induction n as [n IH] using lt_wf_ind. intros s ->.
  destruct s as [|b s1]; [by exists []|]. simpl.
  destruct (ws1 b).
  { destruct (IH (length s1)) with (s := s1) as [p Hp]; simpl; [lia|done|].
    exists (b :: p). simpl. by rewrite <- Hp. }
  destruct s1 as [|c s2]; [by exists []|].
  destruct (ws2 c b).
  { destruct (IH (length s2)) with (s := s2) as [p Hp]; simpl; [lia|done|].
    exists (b :: c :: p). simpl. by rewrite <- Hp. }
  destruct s2 as [|d s3]; [by exists []|].
  destruct (ws3 d c b); [|by exists []].
  destruct (IH (length s3)) with (s := s3) as [p Hp]; simpl; [lia|done|].
  exists (b :: c :: d :: p). simpl. by rewrite <- Hp.
Qed.

Lemma strip_front_suffix c s : exists p, s = p ++ strip_front c s.
Proof.
  induction s as [|b s [p Hp]]; [by exists []|]. simpl.
  destruct (b =? c); [|by exists []]. exists (b :: p). simpl. by rewrite <- Hp.
Qed.

Lemma rev_suffix (s r : bytes) : (exists p, rev s = p ++ r) -> exists q, s = rev r ++ q.
Proof. intros [p H]. exists (rev p). by rewrite <- rev_app_distr, <- H, rev_involutive. Qed.

Lemma trim_end_prefix s : exists q, s = trim_end s ++ q.
Proof. apply rev_suffix, trim_rev_suffix. Qed.

Lemma trim_end_matches_prefix c s : exists q, s = trim_end_matches c s ++ q.
Proof. apply rev_suffix, strip_front_suffix. Qed.

(** The statement without trailing white space and semicolons. *)
Definition bare (sql : bytes) : bytes := trim_end_matches 59 (trim_end sql).

Lemma bare_prefix sql : exists q, sql = bare sql ++ q.
Proof.
  destruct (trim_end_prefix sql) as [q1 H1].
  destruct (trim_end_matches_prefix 59 (trim_end sql)) as [q2 H2].
  exists (q2 ++ q1). unfold bare. by rewrite app_assoc, <- H2.
Qed.

Lemma str_contains_mid a p r : str_contains (a ++ p ++ r) p = true.
Proof. apply str_contains_spec. by exists a, r. Qed.

Section RewriteLemmas.
Context `{CT : CaseTable} `{RE : RegexEngine}.

Lemma apply_split now sql rules :
  match apply now sql rules with
  | (Unchanged, rs) => rs = rules /\ Forall (fun r => is_match (pattern r) sql = false) rules
  | (o, rs) => exists pre r post, rules = pre ++ r :: post /\
      Forall (fun r => is_match (pattern r) sql = false) pre /\
      is_match (pattern r) sql = true /\ o = apply_rule r sql /\
      rs = pre ++ record_hit now r :: post
  end.
Proof.
  induction rules as [|r rules IH]; cbn [apply]; [done|].
  destruct (is_match (pattern r) sql) eqn:E.
  - assert (exists pre r' post, r :: rules = pre ++ r' :: post /\
      Forall (fun r => is_match (pattern r) sql = false) pre /\
      is_match (pattern r') sql = true /\ apply_rule r sql = apply_rule r' sql /\
      record_hit now r :: rules = pre ++ record_hit now r' :: post) as H
      by (by exists [], r, rules).
    destruct (apply_rule r sql) eqn:Eo; [|exact H..].
    unfold apply_rule in Eo. by case_match.
  - destruct (apply now sql rules) as [[| |] rs].
    + destruct IH as [-> IH]. split; [done | by constructor].
    + destruct IH as (pre & r' & post & -> & H1 & H2 & H3 & ->).
      exists (r :: pre), r', post. split_and!; try done. by constructor.
    + destruct IH as (pre & r' & post & -> & H1 & H2 & H3 & ->).
      exists (r :: pre), r', post. split_and!; try done. by constructor.
Qed.

(** The engine applies the first rule whose pattern matches and no other: the
    outcome is that rule's, only its hit counter moves, and the statement is
    unchanged exactly when no pattern matches. *)
Theorem rewrite_first_match now sql rules :
  match apply now sql rules with
  | (Unchanged, rs) => rs = rules /\ Forall (fun r => is_match (pattern r) sql = false) rules
  | (o, rs) => exists pre r post, rules = pre ++ r :: post /\
      Forall (fun r => is_match (pattern r) sql = false) pre /\
      is_match (pattern r) sql = true /\ o = apply_rule r sql /\
      (block r = true -> o = Blocked (blocked_message (comment r))) /\
      rs = pre ++ record_hit now r :: post
  end.
Proof.
  pose proof (apply_split now sql rules) as H. destruct (apply now sql rules) as [[| |] rs]; [done|..];
    destruct H as (pre & r & post & H1 & H2 & H3 & H4 & H5); exists pre, r, post;
    (split_and!; [done..| |done]); rewrite H4; unfold apply_rule; by intros ->.
Qed.

Lemma upper_suffix_ascii s p :
  ascii_only s -> ascii_only p ->
  to_uppercase (s ++ p) = to_ascii_uppercase s ++ to_ascii_uppercase p.
Proof.
  intros Hs Hp. rewrite to_uppercase_ascii by (by apply ascii_only_app).
  apply map_app.
Qed.

(** On ASCII text, forcing a limit is idempotent whatever the two limits, leaves
    every statement that is not a SELECT alone, and otherwise either leaves the
    statement alone or appends the clause to the statement less its trailing white
    space and semicolons. *)
Theorem enforce_limit_once sql n m :
  ascii_only sql ->
  let out := enforce_limit sql n in
  enforce_limit out m = out /\
  (starts_with (to_uppercase (trim_start sql)) (bs "SELECT") = false -> out = sql) /\
  (out = sql \/ (out = bare sql ++ bs " LIMIT " ++ show_u64 n /\ exists q, sql = bare sql ++ q)).
Proof.
  intros Hs out. unfold out. split_and!.
  - unfold enforce_limit at 2 3.
    destruct (negb (starts_with (to_uppercase (trim_start sql)) (bs "SELECT"))) eqn:E1.
    { unfold enforce_limit. by rewrite E1. }
    destruct (_ || _) eqn:E2.
    { unfold enforce_limit. by rewrite E1, E2. }
    unfold enforce_limit. cbv zeta.
    match goal with |- (if ?c then _ else _) = _ => destruct c; [done|] end.
    replace (str_contains _ (bs " LIMIT ")) with true; [done|]. symmetry.
    destruct (bare_prefix sql) as [q Hq]. fold (bare sql).
    assert (ascii_only (bare sql)) as Hb
      by (rewrite Hq in Hs; by apply ascii_only_app in Hs as [? _]).
    assert (ascii_only (bs " LIMIT ")) as Hl by text_ok.
    rewrite upper_suffix_ascii; [|done | by apply ascii_only_app; split; [|apply show_u64_ascii]].
    unfold to_ascii_uppercase at 2. rewrite map_app. apply str_contains_mid.
  - intros H. unfold enforce_limit. by rewrite H.
  - unfold enforce_limit. destruct (negb _); [by left|]. destruct (_ || _); [by left|].
    right. split; [done | apply bare_prefix].
Qed.

(** Injecting the time-out hint twice is injecting it once, and it only inserts
    text: the statement is recovered by cutting the hint out. *)
Theorem inject_hint_once sql n m :
  let out := inject_timeout_hint sql n in
  inject_timeout_hint out m = out /\
  (out = sql \/ exists a b, trim_start sql = a ++ b /\ (6 <= length a \/ b = [])%nat /\
    out = a ++ (bs "/*+ MAX_EXECUTION_TIME(" ++ show_u64 n ++ bs ") */ ") ++ b).
Proof.
  intros out. split.
  - unfold out. unfold inject_timeout_hint at 2 3.
    destruct (negb (starts_with (to_uppercase (trim_start sql)) (bs "SELECT"))) eqn:E1.
    { unfold inject_timeout_hint. by rewrite E1. }
    destruct (str_contains sql (bs "MAX_EXECUTION_TIME")) eqn:E2.
    { unfold inject_timeout_hint. by rewrite E1, E2. }
    unfold inject_timeout_hint. cbv zeta.
    match goal with |- (if ?c then _ else _) = _ => destruct c; [done|] end.
    match goal with |- (if ?c then _ else _) = _ => replace c with true; [done|] end.
    symmetry. apply str_contains_spec.
    set (k := Nat.max _ 6). exists (take k (trim_start sql) ++ bs "/*+ ").
    exists (bs "(" ++ show_u64 n ++ bs ") */ " ++ drop k (trim_start sql)).
    change (bs "/*+ MAX_EXECUTION_TIME(") with (bs "/*+ " ++ bs "MAX_EXECUTION_TIME" ++ bs "(").
    by rewrite <- !app_assoc.
  - unfold out, inject_timeout_hint. destruct (negb _); [by left|].
    destruct (str_contains _ _); [by left|]. right.
    set (k := Nat.max _ 6). exists (take k (trim_start sql)), (drop k (trim_start sql)).
    split_and!; [by rewrite take_drop | | by rewrite <- !app_assoc].
    destruct (decide (k <= length (trim_start sql))%nat).
    + left. rewrite length_take. subst k. lia.
    + right. apply drop_ge. lia.
Qed.
End RewriteLemmas.

(** Only a clause with a space on both sides counts as a limit: after a line break it
    is overlooked and the statement gets a second one, a syntax error. *)
Example limit_on_new_line :
  @enforce_limit ascii_table (bs "SELECT a FROM t" ++ [10] ++ bs "LIMIT 5") 10
  = bs "SELECT a FROM t" ++ [10] ++ bs "LIMIT 5 LIMIT 10".
Proof. reflexivity. Qed.

(** Without white space after SELECT the hint lands later in the statement. *)
Example hint_misplaced :
  @inject_timeout_hint ascii_table (bs "SELECT*FROM t") 5
  = bs "SELECT*FROM/*+ MAX_EXECUTION_TIME(5) */  t".
Proof. reflexivity. Qed.

Lemma enforce_limit_once_witness :
  let out := @enforce_limit ascii_table (bs "select * from t ; ") 5 in
  @enforce_limit ascii_table out 7 = out /\ out = bs "select * from t  LIMIT 5".
Proof.
  split; [|reflexivity].
  apply (@enforce_limit_once ascii_table (bs "select * from t ; ") 5 7). text_ok.
Defined.
