(* ===== verification/StmtShadow.v ===== *)
(** * Prepared-statement shadowing (src/src/proxy/stmt_shadow.rs)

    Module [Pg]: the pipeline scanner, the re-prepare messages and the name map of a
    PostgreSQL session.  Module [My]: the proxy-level statement ids of a MySQL session
    and the packet helpers that rewrite them. *)

From S2P Require Import Prelude Bytes.

(** ** PostgreSQL *)

Module Pg.

Record PgParsedStmt := { name : bytes; query : bytes }.
Record PgPipelineScan := { parses : list PgParsedStmt; closes : list bytes }.

(** [&[u8]] up to the first zero byte, decoded, and the rest. *)
Definition read_cstr (buf : bytes) : option (bytes * bytes) :=
match split_nul buf with Some (s, r) => Some (utf8_lossy s, r) | None => None end.

(** What one message adds to the scan. *)
Definition scan_message (type_byte : Z) (payload : bytes) (scan : PgPipelineScan) : PgPipelineScan :=
if type_byte =? 80 then
  match read_cstr payload with
  | Some (n, rest) =>
      match read_cstr rest with
      | Some (q, _) => {| parses := parses scan ++ [{| name := n; query := q |}];
                          closes := closes scan |}
      | None => scan
      end
  | None => scan
  end
else if (type_byte =? 67) && (2 <=? Z.of_nat (length payload)) && (default 0 (head payload) =? 83) then
  match read_cstr (drop 1 payload) with
  | Some (n, _) => if beq n [] then scan
                   else {| parses := parses scan; closes := closes scan ++ [n] |}
  | None => scan
  end
else scan.

(** The loop from position [pos]: [raw] is the text that remains.  A message has at
  least five bytes, so the length of the text is fuel enough. *)
Fixpoint scan_loop (fuel : nat) (raw : bytes) (scan : PgPipelineScan) : PgPipelineScan :=
match fuel, raw with
| S fuel', t :: b1 :: b2 :: b3 :: b4 :: rest =>
    let len := of_be [b1; b2; b3; b4] in
    if len <? 4 then scan
    else if Z.of_nat (length raw) <? 1 + len then scan
    else
      let n := Z.to_nat (len - 4) in
      scan_loop fuel' (drop n rest) (scan_message t (take n rest) scan)
| _, _ => scan
end.
Definition scan_pg_pipeline (raw : bytes) : PgPipelineScan :=
scan_loop (length raw) raw {| parses := []; closes := [] |}.

Definition build_pg_reparse (n q : bytes) : bytes :=
let payload := n ++ [0] ++ q ++ [0] ++ [0; 0] in
let parse_len := u32 (Z.of_nat (length payload) + 4) in
[80] ++ to_be 4 parse_len ++ payload ++ [83] ++ to_be 4 4.

(** The shadow map: the text of every named statement that is open. *)
Abbreviation PgStmtShadow := (gmap bytes bytes).

Definition add_parse (m : PgStmtShadow) (p : PgParsedStmt) : PgStmtShadow :=
if beq (name p) [] then m else <[name p := query p]> m.
Definition apply_scan (scan : PgPipelineScan) (m : PgStmtShadow) : PgStmtShadow :=
foldl (fun m n => delete n m) (foldl add_parse m (parses scan)) (closes scan).
Definition open_count (m : PgStmtShadow) : nat := size m.
Definition is_empty (m : PgStmtShadow) : bool := bool_decide (m = ∅).
Definition build_reprepare_for `{!MapOrder bytes bytes} (skip : gset bytes) (m : PgStmtShadow)
: list bytes :=
map (fun kv => build_pg_reparse (fst kv) (snd kv))
    (filter (fun kv => fst kv ∉ skip) (iter m)).

(** *** Lemmas *)

Lemma read_cstr_app s r : cstr s -> read_cstr (s ++ 0 :: r) = Some (s, r).
Proof. intros [Hn Hv]. unfold read_cstr. by rewrite split_nul_app, utf8_lossy_valid. Qed.

Lemma scan_loop_enough n m raw scan :
(length raw <= n)%nat -> (length raw <= m)%nat -> scan_loop n raw scan = scan_loop m raw scan.
Proof.
revert m raw scan. induction n as [|n IH]; intros m raw scan Hn Hm.
- destruct raw; [|simpl in Hn; lia]. by destruct m.
- destruct m as [|m]; [destruct raw; [done | simpl in Hm; lia]|].
  destruct raw as [|t [|b1 [|b2 [|b3 [|b4 rest]]]]]; [done..|]. cbn [scan_loop].
  case_match; [done|]. case_match; [done|]. simpl in *.
  apply IH; rewrite length_drop; lia.
Qed.

(** One well-framed message at the front of a pipeline. *)
Lemma scan_loop_message n t payload rest scan :
Z.of_nat (length payload) + 4 < 2 ^ 32 ->
(length payload + length rest + 5 <= n)%nat ->
scan_loop n ((t :: to_be 4 (Z.of_nat (length payload) + 4)) ++ payload ++ rest) scan
= scan_loop n rest (scan_message t payload scan).
Proof.
intros Hl Hn. destruct n as [|n]; [lia|].
rewrite (scan_loop_enough (S n) n rest) by lia.
pose proof (to_be_length 4 (Z.of_nat (length payload) + 4)) as Hlen.
assert (of_be (to_be 4 (Z.of_nat (length payload) + 4)) = Z.of_nat (length payload) + 4) as Hof
  by (apply of_to_be; simpl; lia).
destruct (to_be 4 _) as [|b1 [|b2 [|b3 [|b4 [|]]]]]; try discriminate.
cbn [app scan_loop]. rewrite Hof.
rewrite (proj2 (Z.ltb_ge _ 4)) by lia. rewrite (proj2 (Z.ltb_ge _ (1 + _))).
- replace (Z.to_nat (Z.of_nat (length payload) + 4 - 4)) with (length payload) by lia.
  by rewrite take_app_length, drop_app_length.
- cbn [length]. rewrite length_app. lia.
Qed.

(** The shadow after a list of parses, read at one name. *)
Lemma foldl_delete_lookup (ns : list bytes) (m : PgStmtShadow) k :
foldl (fun m n => delete n m) m ns !! k = if mem k ns then None else m !! k.
Proof.
revert m. induction ns as [|n ns IH]; intros m; [done|]. cbn [foldl]. rewrite IH.
destruct (mem k ns) eqn:E.
- apply mem_true in E. by rewrite (proj2 (mem_true k (n :: ns))) by by right.
- apply mem_false in E. destruct (decide (k = n)) as [->|Hn].
  + rewrite lookup_delete_eq. by rewrite (proj2 (mem_true n (n :: ns))) by left.
  + rewrite lookup_delete_ne by done. rewrite (proj2 (mem_false k (n :: ns))); [done|].
    rewrite not_elem_of_cons. done.
Qed.

(** C29: The message that re-prepares a statement is read back by the pipeline scanner
  as exactly that statement, whatever follows it, so re-preparing restores the
  statement the client declared. *)
Theorem reparse_scans_back n q rest :
cstr n -> cstr q -> Z.of_nat (length n + length q + 8) < 2 ^ 32 ->
let scan := scan_pg_pipeline (build_pg_reparse n q ++ rest) in
let scan_rest := scan_pg_pipeline rest in
head (parses scan) = Some {| name := n; query := q |} /\
(rest = [] -> scan = {| parses := [{| name := n; query := q |}]; closes := [] |}).
Proof.
intros Hn Hq Hl scan scan_rest. unfold scan, scan_pg_pipeline, build_pg_reparse.
set (payload := n ++ [0] ++ q ++ [0] ++ [0; 0]).
assert (length payload = length n + length q + 4)%nat as Hp
  by (unfold payload; rewrite !length_app; simpl; lia).
assert (u32 (Z.of_nat (length payload) + 4) = Z.of_nat (length payload) + 4) as Hu
  by (apply wrap_small; unfold in_width; lia).
rewrite Hu.
replace (([80] ++ to_be 4 (Z.of_nat (length payload) + 4) ++ payload ++ [83] ++ to_be 4 4) ++ rest)
  with ((80 :: to_be 4 (Z.of_nat (length payload) + 4)) ++ payload ++
        ((83 :: to_be 4 (Z.of_nat (length ([] : bytes)) + 4)) ++ [] ++ rest))
  by (cbn [app length]; rewrite <- ?app_assoc; cbn [app]; rewrite <- ?app_assoc; reflexivity).
rewrite !scan_loop_message
  by (cbn [length app]; rewrite ?length_app, ?to_be_length; cbn [length app]; rewrite ?length_app, ?to_be_length; cbn [length]; lia).
assert (forall s, scan_message 80 payload s =
  {| parses := parses s ++ [{| name := n; query := q |}]; closes := closes s |}) as Hm.
{ intros s. unfold scan_message, payload. cbn [Z.eqb Pos.eqb].
  change (n ++ [0] ++ ?x) with (n ++ 0 :: x).
  rewrite read_cstr_app by done. cbn [app]. by rewrite read_cstr_app. }
rewrite Hm. cbn [parses closes app]. split; [|by intros ->].
assert (forall k r s, head (parses s) = Some {| name := n; query := q |} ->
        head (parses (scan_loop k r s)) = Some {| name := n; query := q |}) as Hhead.
{ clear. intros k. induction k as [|k IH]; intros r s Hs; [done|].
  destruct r as [|t [|b1 [|b2 [|b3 [|b4 r]]]]]; [done..|]. cbn [scan_loop].
  case_match; [done|]. case_match; [done|]. apply IH. unfold scan_message.
  repeat (case_match; try done); cbn [parses]; by destruct (parses s). }
by apply Hhead.
Qed.

Lemma reparse_scans_back_witness :
scan_pg_pipeline (build_pg_reparse (bs "s1") (bs "SELECT $1") ++ [])
= {| parses := [{| name := bs "s1"; query := bs "SELECT $1" |}]; closes := [] |}.
Proof.
apply (reparse_scans_back (bs "s1") (bs "SELECT $1") []); try done;
  split; try reflexivity; vm_compute; repeat constructor; congruence.
Defined.

(** After a pipeline, a name is tracked with the last text the pipeline declared
  for it, or as before when it declared none, unless the pipeline closes the name:
  closes win whatever their place, so a pipeline that closes a name and declares it
  again leaves it untracked. *)
Theorem apply_scan_lookup scan m k :
apply_scan scan m !! k =
if mem k (closes scan) then None
else match list.last (filter (fun p => name p = k /\ name p <> []) (parses scan)) with
     | Some p => Some (query p)
     | None => m !! k
     end.
Proof.
unfold apply_scan. rewrite foldl_delete_lookup. case_match; [done|].
induction (parses scan) as [|p ps IH] using rev_ind; [done|].
rewrite foldl_app. cbn [foldl]. rewrite list.filter_app, filter_cons. unfold add_parse at 1.
destruct (beq (name p) []) eqn:E.
- apply beq_true in E. rewrite decide_False by tauto. rewrite filter_nil.
  by rewrite app_nil_r.
- assert (name p <> []) as Hne by (intros Hx; by rewrite Hx, beq_refl in E).
  destruct (decide (name p = k)) as [<-|Hn].
  + rewrite lookup_insert_eq, decide_True by done. rewrite filter_nil. by rewrite last_snoc.
  + rewrite lookup_insert_ne by done. rewrite decide_False by tauto.
    rewrite filter_nil. by rewrite app_nil_r.
Qed.

(** The pipeline Close "s", Parse "s" ends with the statement open on the server and
  untracked in the proxy. *)
Example close_then_parse_untracked :
let pipeline := ([67] ++ to_be 4 7 ++ bs "S" ++ bs "s" ++ [0])
                ++ build_pg_reparse (bs "s") (bs "SELECT 2") in
apply_scan (scan_pg_pipeline pipeline) {[ bs "s" := bs "SELECT 1" ]} = ∅.
Proof. reflexivity. Qed.

(** The re-prepare list has exactly one message for every tracked statement that
  the current pipeline does not prepare itself. *)
Theorem reprepare_complete `{!MapOrder bytes bytes} skip m :
build_reprepare_for skip m ≡ₚ
map (fun kv => build_pg_reparse (fst kv) (snd kv)) (map_to_list (filter (fun kv => fst kv ∉ skip) m)).
Proof.
unfold build_reprepare_for. apply Permutation_map, NoDup_Permutation.
- apply list.NoDup_filter. rewrite iter_perm. apply NoDup_map_to_list.
- apply NoDup_map_to_list.
- intros [k q]. rewrite list_elem_of_filter, iter_lookup, elem_of_map_to_list, map_lookup_filter_Some.
  cbn [fst]. tauto.
Qed.

End Pg.

(** ** MySQL *)

Module My.

Record MysqlStmtInfo := {
query : bytes;
num_params : Z;
num_columns : Z;
stmt_backend_id : Z
}.

Record MysqlStmtShadow := { stmts : gmap Z MysqlStmtInfo; next_id : Z }.

Definition new : MysqlStmtShadow := {| stmts := ∅; next_id := 1 |}.

Definition register (q : bytes) (params columns bid : Z) (s : MysqlStmtShadow)
: Z * MysqlStmtShadow :=
let proxy_id := next_id s in
(proxy_id,
 {| stmts := <[proxy_id := {| query := q; num_params := params; num_columns := columns;
                              stmt_backend_id := bid |}]> (stmts s);
    next_id := u32 (next_id s + 1) |}).

Definition backend_id (proxy_id : Z) (s : MysqlStmtShadow) : option Z :=
stmt_backend_id <$> stmts s !! proxy_id.

Definition remove (proxy_id : Z) (s : MysqlStmtShadow) : MysqlStmtShadow :=
{| stmts := delete proxy_id (stmts s); next_id := next_id s |}.

Definition open_count (s : MysqlStmtShadow) : Z := u32 (Z.of_nat (size (stmts s))).
Definition is_empty (s : MysqlStmtShadow) : bool := bool_decide (stmts s = ∅).

Definition set_backend_id (bid : Z) (i : MysqlStmtInfo) : MysqlStmtInfo :=
{| query := query i; num_params := num_params i; num_columns := num_columns i;
   stmt_backend_id := bid |}.

Definition update_backend_ids `{!MapOrder Z Z} (new_ids : gmap Z Z) (s : MysqlStmtShadow)
: MysqlStmtShadow :=
{| stmts := foldl (fun m kv => alter (set_backend_id (snd kv)) (fst kv) m) (stmts s) (iter new_ids);
   next_id := next_id s |}.

Definition reprepare_jobs `{!MapOrder Z MysqlStmtInfo} (s : MysqlStmtShadow) : list (Z * bytes) :=
map (fun kv => (fst kv, 22 :: query (snd kv))) (iter (stmts s)).

(** *** Packet helpers *)

Definition STMT_ID_COMMANDS : list Z := [23; 25; 26; 28; 24].
Definition mysql_has_stmt_id (cmd_byte : Z) : bool := mem cmd_byte STMT_ID_COMMANDS.

Definition mysql_read_stmt_id (packet : bytes) : option Z :=
if (length packet <? 5)%nat then None else Some (of_le (take 4 (drop 1 packet))).

(** Bytes [i] to [i + 4] replaced. *)
Definition put_u32 (i : nat) (v : Z) (s : bytes) : bytes := take i s ++ to_le 4 v ++ drop (i + 4) s.

Definition mysql_rewrite_stmt_id (packet : bytes) (new_id : Z) : bytes :=
if (5 <=? length packet)%nat then put_u32 1 new_id packet else packet.

Definition mysql_parse_prepare_ok (response : bytes) : option (Z * Z * Z) :=
if (length response <? 4)%nat then None else
let payload := drop 4 response in
if negb (bool_decide (head payload = Some 0)) then None
else if (length payload <? 9)%nat then None
else Some (of_le (take 4 (drop 1 payload)), of_le (take 2 (drop 5 payload)),
           of_le (take 2 (drop 7 payload))).

Definition mysql_rewrite_prepare_ok (response : bytes) (new_id : Z) : bytes :=
if (9 <=? length response)%nat then put_u32 5 new_id response else response.

(** *** The promise of the shadow

  An identifier handed to the client stands for the same statement until the client
  closes it; only the backend's identifier behind it changes. *)

Definition shadow_wf (s : MysqlStmtShadow) : Prop :=
1 <= next_id s < 2 ^ 32 /\ map_Forall (fun id _ => 1 <= id < next_id s) (stmts s).

Lemma shadow_new_wf : shadow_wf new.
Proof. split; [cbn; lia | apply map_Forall_empty]. Qed.

Lemma put_u32_length i v s : (i + 4 <= length s)%nat -> length (put_u32 i v s) = length s.
Proof. intros H. unfold put_u32. rewrite !length_app, length_take, to_le_length, length_drop. lia. Qed.

Lemma put_u32_drop i v s :
(i <= length s)%nat -> drop i (put_u32 i v s) = to_le 4 v ++ drop (i + 4) s.
Proof. intros H. unfold put_u32. apply drop_app_length'. by rewrite length_take_le. Qed.

Lemma put_u32_read i v s :
(i + 4 <= length s)%nat -> 0 <= v < 2 ^ 32 -> of_le (take 4 (drop i (put_u32 i v s))) = v.
Proof.
intros Hi Hv. rewrite put_u32_drop by lia. rewrite take_app_length' by by rewrite to_le_length.
apply of_to_le. simpl. lia.
Qed.

Lemma put_u32_before i j v s : (j <= i <= length s)%nat -> take j (put_u32 i v s) = take j s.
Proof.
intros Hj. unfold put_u32. rewrite take_app_le by (rewrite length_take; lia).
rewrite take_take. f_equal. lia.
Qed.

Lemma put_u32_after i j v s :
(i + 4 <= j)%nat -> (i + 4 <= length s)%nat -> drop j (put_u32 i v s) = drop j s.
Proof.
intros Hj Hl. replace j with (i + (4 + (j - i - 4)))%nat at 1 by lia.
rewrite <- drop_drop, put_u32_drop by lia. rewrite <- drop_drop.
rewrite drop_app_length' by by rewrite to_le_length. rewrite drop_drop. f_equal. lia.
Qed.

Lemma foldl_alter_lookup (l : list (Z * Z)) (m : gmap Z MysqlStmtInfo) k :
NoDup (fst <$> l) ->
foldl (fun m kv => alter (set_backend_id (snd kv)) (fst kv) m) m l !! k =
match (list_to_map l : gmap Z Z) !! k with
| Some bid => set_backend_id bid <$> m !! k
| None => m !! k
end.
Proof.
revert m. induction l as [|[a b] l IH]; intros m Hn; [done|].
inversion Hn as [|? ? Ha Hn']; subst. cbn [foldl fst snd list_to_map foldr]. rewrite IH by done.
destruct (decide (a = k)) as [->|Hak].
- rewrite (not_elem_of_list_to_map_1 l k) by done.
  rewrite lookup_alter_eq. unfold uncurry. cbn. by rewrite lookup_insert_eq.
- rewrite lookup_alter_ne by done. cbn. by rewrite lookup_insert_ne.
Qed.

Lemma update_backend_ids_lookup `{!MapOrder Z Z} new_ids s k :
stmts (update_backend_ids new_ids s) !! k =
match new_ids !! k with
| Some bid => set_backend_id bid <$> stmts s !! k
| None => stmts s !! k
end.
Proof.
cbn [stmts update_backend_ids]. rewrite foldl_alter_lookup by apply iter_nodup.
replace (list_to_map (iter new_ids) : gmap Z Z) with new_ids; [done|].
rewrite <- (list_to_map_to_list new_ids) at 1. symmetry.
apply list_to_map_proper; [apply iter_nodup | apply iter_perm].
Qed.

(** Identifiers are stable and fresh: registering gives an identifier no open
  statement has, leaves every open statement as it is, and keeps the map
  well-formed as long as fewer than 2^32 - 1 statements were ever prepared. *)
Theorem register_fresh q params columns bid s :
shadow_wf s -> next_id s < 2 ^ 32 - 1 ->
let (id, s') := register q params columns bid s in
shadow_wf s' /\ stmts s !! id = None /\ backend_id id s' = Some bid /\
(forall k, k <> id -> stmts s' !! k = stmts s !! k) /\ in_width 32 id.
Proof.
intros [Hn Hall] Hmax. cbn [register].
assert (stmts s !! next_id s = None) as Hfresh.
{ destruct (stmts s !! next_id s) as [i|] eqn:E; [|done]. specialize (Hall _ _ E).
  cbn in Hall. lia. }
assert (u32 (next_id s + 1) = next_id s + 1) as Hu
  by (apply wrap_small; unfold in_width; lia).
split_and!; unfold shadow_wf, backend_id, in_width; cbn [stmts next_id].
- rewrite Hu. split; [lia|]. apply map_Forall_insert_2; [lia|].
  intros k i Hk. specialize (Hall _ _ Hk). cbn in *. lia.
- done.
- by rewrite lookup_insert_eq.
- intros k Hk. by rewrite lookup_insert_ne.
- lia.
Qed.

Lemma register_fresh_witness :
let s := snd (register (bs "SELECT ?") 1 1 7 new) in
let (id, s') := register (bs "SELECT 2") 0 1 9 s in
shadow_wf s' /\ stmts s !! id = None /\ backend_id id s' = Some 9 /\
(forall k, k <> id -> stmts s' !! k = stmts s !! k) /\ in_width 32 id.
Proof.
apply (register_fresh (bs "SELECT 2") 0 1 9 (snd (register (bs "SELECT ?") 1 1 7 new))).
- split; [vm_compute; intuition congruence|]. cbn. apply map_Forall_insert_2; [vm_compute; intuition congruence|].
  apply map_Forall_empty.
- vm_compute. reflexivity.
Defined.

(** After re-preparing every open statement on a new backend, every proxy
  identifier leads to the new backend's identifier, and neither the statements nor
  the identifiers the client holds have changed. *)
Theorem reprepare_updates_all `{!MapOrder Z Z} new_ids s :
dom new_ids = dom (stmts s) ->
let s' := update_backend_ids new_ids s in
dom (stmts s') = dom (stmts s) /\ next_id s' = next_id s /\
forall k i, stmts s !! k = Some i ->
  exists bid, new_ids !! k = Some bid /\ backend_id k s' = Some bid /\
  query <$> stmts s' !! k = Some (query i).
Proof.
intros Hdom s'. split_and!.
- apply set_eq. intros k. rewrite !elem_of_dom. unfold s'. rewrite update_backend_ids_lookup.
  destruct (new_ids !! k); [|done]. rewrite fmap_is_Some. done.
- done.
- intros k i Hk. assert (k ∈ dom new_ids) as Hin by (rewrite Hdom; by apply elem_of_dom).
  apply elem_of_dom in Hin as [bid Hb]. exists bid. unfold backend_id, s'.
  rewrite update_backend_ids_lookup, Hb, Hk. done.
Qed.

Lemma reprepare_updates_all_witness :
let s := snd (register (bs "SELECT ?") 1 1 7 new) in
let s' := @update_backend_ids list_order {[ 1 := 42 ]} s in
dom (stmts s') = dom (stmts s) /\ next_id s' = next_id s /\
forall k i, stmts s !! k = Some i ->
  exists bid, ({[ 1 := 42 ]} : gmap Z Z) !! k = Some bid /\ backend_id k s' = Some bid /\
  query <$> stmts s' !! k = Some (query i).
Proof.
apply (@reprepare_updates_all list_order {[ 1 := 42 ]} (snd (register (bs "SELECT ?") 1 1 7 new))).
cbn. by rewrite dom_singleton_L, dom_insert_L, dom_empty_L, union_empty_r_L.
Defined.

(** The rewritten packet carries the new identifier and is otherwise the packet:
  same length, same command byte, same tail; the same holds of a PREPARE response,
  whose column and parameter counts are kept. *)
Theorem rewrite_ids_exact packet response id :
0 <= id < 2 ^ 32 -> (5 <= length packet)%nat -> (13 <= length response)%nat ->
let p := mysql_rewrite_stmt_id packet id in
let r := mysql_rewrite_prepare_ok response id in
mysql_read_stmt_id p = Some id /\ length p = length packet /\
take 1 p = take 1 packet /\ drop 5 p = drop 5 packet /\
mysql_parse_prepare_ok r =
  match mysql_parse_prepare_ok response with
  | Some (_, cols, params) => Some (id, cols, params)
  | None => None
  end.
Proof.
intros Hid Hp Hr p r. unfold p, r, mysql_rewrite_stmt_id, mysql_rewrite_prepare_ok.
rewrite !(proj2 (Nat.leb_le _ _)) by lia. split_and!.
- unfold mysql_read_stmt_id. rewrite put_u32_length by lia.
  rewrite (proj2 (Nat.ltb_ge _ _)) by lia. by rewrite put_u32_read by lia.
- apply put_u32_length. lia.
- apply put_u32_before. lia.
- apply put_u32_after; lia.
- unfold mysql_parse_prepare_ok. rewrite length_drop, put_u32_length by lia.
  rewrite (proj2 (Nat.ltb_ge (length response) 4)) by lia. rewrite length_drop.
  assert (head (drop 4 (put_u32 5 id response)) = head (drop 4 response)) as ->.
  { pose proof (put_u32_before 5 5 id response ltac:(lia)) as Ht.
    rewrite !head_lookup, !lookup_drop. apply (f_equal (lookup 4%nat)) in Ht.
    by rewrite !lookup_take_lt in Ht by lia. }
  case_match; [done|]. case_match; [done|]. rewrite !drop_drop. cbn [Nat.add].
  rewrite put_u32_read by lia. by rewrite !put_u32_after by lia.
Qed.

Lemma rewrite_ids_exact_witness :
mysql_read_stmt_id (mysql_rewrite_stmt_id [23; 1; 0; 0; 0; 0; 1] 70000) = Some 70000 /\
mysql_parse_prepare_ok (mysql_rewrite_prepare_ok [12; 0; 0; 1; 0; 9; 0; 0; 0; 2; 0; 1; 0; 0; 0; 0] 5)
= Some (5, 2, 1).
Proof.
destruct (rewrite_ids_exact [23; 1; 0; 0; 0; 0; 1]
            [12; 0; 0; 1; 0; 9; 0; 0; 0; 2; 0; 1; 0; 0; 0; 0] 70000) as (H & _);
  [lia | simpl; lia | simpl; lia |].
split; [exact H | reflexivity].
Defined.

End My.
