(* ===== verification/MysqlCodec.v ===== *)
(** * MySQL packet framing and compression (src/src/protocol/mysql/packet.rs)

    The codec talks to a reader and a writer; here they are the bytes still to be read
    and the bytes written so far.  A short read is the I/O error [read_exact] gives at
    the end of the stream.  The zlib and zstd libraries are the class [Compressor]. *)

From S2P Require Import Prelude Bytes.

Inductive ProtocolError :=
| Io
| PacketTooLarge (n : Z)
| OutOfSequence (expected got : Z)
| InvalidFormat (msg : bytes)
| AuthFailed (msg : bytes)
| Backend (msg : bytes).

Inductive CompressAlgo := NoCompression | Zlib | Zstd.
#[export] Instance CompressAlgo_eq_dec : EqDecision CompressAlgo.
Proof. solve_decision. Defined.

(** The compression libraries; decompression is given the expected size and [None] is
    an error. *)
Class Compressor := {
  zlib_compress : bytes -> bytes;
  zlib_decompress : bytes -> nat -> option bytes;
  zstd_compress : bytes -> bytes;
  zstd_decompress : bytes -> nat -> option bytes
}.

(** What the libraries document: decompressing what was compressed gives it back. *)
Class CompressorLaws (C : Compressor) : Prop := {
  zlib_roundtrip p : zlib_decompress (zlib_compress p) (length p) = Some p;
  zstd_roundtrip p : zstd_decompress (zstd_compress p) (length p) = Some p
}.

Record PacketCodec := {
  sequence_id : Z;
  write_buf : bytes;
  compressed : bool;
  compressed_seq : Z;
  compression_algo : CompressAlgo
}.

Definition new : PacketCodec :=
  {| sequence_id := 0; write_buf := []; compressed := false; compressed_seq := 0;
     compression_algo := NoCompression |}.

Definition set_sequence (seq : Z) (c : PacketCodec) : PacketCodec :=
  {| sequence_id := seq; write_buf := write_buf c; compressed := compressed c;
     compressed_seq := compressed_seq c; compression_algo := compression_algo c |}.
Definition reset_sequence (c : PacketCodec) : PacketCodec := set_sequence 0 c.
Definition advance_seq (n : Z) (c : PacketCodec) : PacketCodec :=
  set_sequence (u8 (sequence_id c + n)) c.
Definition set_write_buf (b : bytes) (c : PacketCodec) : PacketCodec :=
  {| sequence_id := sequence_id c; write_buf := b; compressed := compressed c;
     compressed_seq := compressed_seq c; compression_algo := compression_algo c |}.
Definition buffer_raw (raw : bytes) (c : PacketCodec) : PacketCodec :=
  set_write_buf (write_buf c ++ raw) c.
Definition bump_compressed_seq (c : PacketCodec) : PacketCodec :=
  {| sequence_id := sequence_id c; write_buf := write_buf c; compressed := compressed c;
     compressed_seq := u8 (compressed_seq c + 1); compression_algo := compression_algo c |}.
Definition enable_compression (algo : CompressAlgo) (c : PacketCodec) : PacketCodec :=
  {| sequence_id := sequence_id c; write_buf := write_buf c; compressed := true;
     compressed_seq := 0; compression_algo := algo |}.

(** The codec with both ends of the connection. *)
Record Wire := { codec : PacketCodec; input : bytes; output : bytes }.
Definition M (A : Type) : Type := SE Wire ProtocolError A.

Definition upd_codec (f : PacketCodec -> PacketCodec) : M unit :=
  se_modify (fun w => {| codec := f (codec w); input := input w; output := output w |}).

Definition read_exact (n : nat) : M bytes := fun w =>
  if (n <=? length (input w))%nat
  then (Ok (take n (input w)),
        {| codec := codec w; input := drop n (input w); output := output w |})
  else (Err Io, {| codec := codec w; input := []; output := output w |}).

Definition write_all (b : bytes) : M unit :=
  se_modify (fun w => {| codec := codec w; input := input w; output := output w ++ b |}).

(** Byte [i] of an array; only used below its length. *)
Definition at_ (s : bytes) (i : nat) : Z := default 0 (s !! i).
Definition header_len (h : bytes) : Z := u24_or (at_ h 0) (at_ h 1) (at_ h 2).
Definition header_of (len seq : Z) : bytes := [byte_at len 0; byte_at len 1; byte_at len 2; seq].
Definition max_payload : Z := 16777215.

(** [while last_length == 0xFFFFFF]: the rest of a payload split over packets. *)
Fixpoint read_continuation (fuel : nat) (last_length : Z) (acc : bytes) : M bytes :=
  if negb (last_length =? max_payload) then mret acc
  else match fuel with
  | O => se_fail Io
  | S fuel' =>
      next_header ← read_exact 4;
      c ← se_gets codec;
      if negb (at_ next_header 3 =? sequence_id c)
      then se_fail (OutOfSequence (sequence_id c) (at_ next_header 3))
      else
        more ← read_exact (Z.to_nat (header_len next_header));
        upd_codec (advance_seq 1) ;;
        read_continuation fuel' (header_len next_header) (acc ++ more)
  end.

Definition read_packet : M bytes :=
  header ← read_exact 4;
  let length_ := header_len header in
  let seq := at_ header 3 in
  c ← se_gets codec;
  if negb (seq =? sequence_id c) then se_fail (OutOfSequence (sequence_id c) seq)
  else if max_payload <? length_ then se_fail (PacketTooLarge length_)
  else
    first ← read_exact (Z.to_nat length_);
    upd_codec (advance_seq 1) ;;
    w ← se_get;
    read_continuation (length (input w)) length_ first.

Definition read_raw_packet : M bytes :=
  header ← read_exact 4;
  body ← read_exact (Z.to_nat (header_len header));
  upd_codec (set_sequence (u8 (at_ header 3 + 1))) ;;
  mret (header ++ body).

Definition write_packet (payload : bytes) : M unit :=
  let len := Z.of_nat (length payload) in
  if max_payload <? len then se_fail (PacketTooLarge len)
  else
    c ← se_gets codec;
    write_all (header_of len (sequence_id c) ++ payload) ;;
    upd_codec (advance_seq 1).

Definition write_raw (raw : bytes) : M unit := write_all raw.

Definition buffer_packet (payload : bytes) : M unit :=
  let len := Z.of_nat (length payload) in
  if max_payload <? len then se_fail (PacketTooLarge len)
  else upd_codec (fun c =>
    advance_seq 1 (set_write_buf (write_buf c ++ header_of len (sequence_id c) ++ payload) c)).

Definition flush : M unit :=
  c ← se_gets codec;
  match write_buf c with
  | [] => mret tt
  | b => write_all b ;; upd_codec (set_write_buf [])
  end.

Definition MIN_COMPRESS_THRESHOLD : Z := 50.

Section Compression.
Context `{CO : Compressor}.

Definition compress (algo : CompressAlgo) (payload : bytes) : bytes :=
  match algo with Zstd => zstd_compress payload | _ => zlib_compress payload end.

(** The compressed frame around a buffer. *)
Definition compressed_frame (algo : CompressAlgo) (seq : Z) (payload : bytes) : bytes :=
  let uncompressed_len := Z.of_nat (length payload) in
  if MIN_COMPRESS_THRESHOLD <? uncompressed_len then
    let comp := compress algo payload in
    let comp_len := Z.of_nat (length comp) in
    [byte_at comp_len 0; byte_at comp_len 1; byte_at comp_len 2; seq;
     byte_at uncompressed_len 0; byte_at uncompressed_len 1; byte_at uncompressed_len 2] ++ comp
  else
    [byte_at uncompressed_len 0; byte_at uncompressed_len 1; byte_at uncompressed_len 2; seq;
     0; 0; 0] ++ payload.

Definition flush_maybe_compressed : M unit :=
  c ← se_gets codec;
  match compressed c, write_buf c with
  | true, _ :: _ =>
      upd_codec (fun c => bump_compressed_seq (set_write_buf [] c)) ;;
      write_all (compressed_frame (compression_algo c) (compressed_seq c) (write_buf c))
  | _, _ => flush
  end.

(** Reads with zlib whatever the algorithm of the codec. *)
Definition read_packet_maybe_compressed : M bytes :=
  c ← se_gets codec;
  if negb (compressed c) then read_packet
  else
    header ← read_exact 7;
    let compressed_length := header_len header in
    let uncompressed_length := header_len (drop 4 header) in
    data ← read_exact (Z.to_nat compressed_length);
    decompressed ←
      (if 0 <? uncompressed_length then
         match zlib_decompress data (Z.to_nat uncompressed_length) with
         | Some d => mret d
         | None => se_fail Io
         end
       else mret data);
    if (length decompressed <? 4)%nat then se_fail (PacketTooLarge 0)
    else
      let len := Z.to_nat (header_len decompressed) in
      upd_codec (set_sequence (u8 (at_ decompressed 3 + 1))) ;;
      mret (take (Nat.min len (length decompressed - 4)) (drop 4 decompressed)).

(** ** The decompressing reader

    [poll_read] is called by the executor with a destination of some capacity; the
    stream below answers each of its polls with one event. *)

Inductive inner_event := Pending | IoError | Chunk (data : bytes).
Inductive CompReadPhase := DrainBuf | ReadHeader | ReadPayload.

(** [hdr] and [comp] hold the filled part of the arrays, [hdr_filled] and
    [comp_filled] bytes long. *)
Record MysqlCompressedReader := {
  buf : bytes;
  buf_pos : nat;
  phase : CompReadPhase;
  hdr : bytes;
  comp : bytes;
  algo : CompressAlgo
}.

Definition reader_new (a : CompressAlgo) : MysqlCompressedReader :=
  {| buf := []; buf_pos := 0; phase := DrainBuf; hdr := []; comp := []; algo := a |}.

Inductive fill_result := FullyRead | FillPending | FillError | FillEof.

(** [while filled < target { poll }]. *)
Fixpoint fill (target : nat) (got : bytes) (evs : list inner_event)
  : fill_result * bytes * list inner_event :=
  if (target <=? length got)%nat then (FullyRead, got, evs)
  else match evs with
  | [] => (FillEof, got, [])
  | Pending :: evs' => (FillPending, got, evs')
  | IoError :: evs' => (FillError, got, evs')
  | Chunk d :: evs' =>
      let room := (target - length got)%nat in
      if (length d =? 0)%nat then (FillEof, got, evs')
      else if (length d <=? room)%nat then fill target (got ++ d) evs'
      else (FullyRead, got ++ take room d, Chunk (drop room d) :: evs')
  end.

Inductive poll_result := PollPending | PollError | PollReady (data : bytes).

Definition decompress (a : CompressAlgo) (header data : bytes) : option bytes :=
  let uncomp_len := header_len (drop 4 header) in
  if 0 <? uncomp_len then
    match a with
    | Zstd => zstd_decompress data (Z.to_nat uncomp_len)
    | _ => zlib_decompress data (Z.to_nat uncomp_len)
    end
  else Some data.

(** [loop { match phase .. }] with a destination of [cap] bytes. *)
Fixpoint poll_loop (fuel : nat) (cap : nat) (r : MysqlCompressedReader) (evs : list inner_event)
  : option (poll_result * MysqlCompressedReader * list inner_event) :=
  match fuel with
  | O => None
  | S fuel' =>
      match phase r with
      | DrainBuf =>
          let avail := (length (buf r) - buf_pos r)%nat in
          if (0 <? avail)%nat then
            let to_copy := Nat.min avail cap in
            Some (PollReady (take to_copy (drop (buf_pos r) (buf r))),
             {| buf := buf r; buf_pos := buf_pos r + to_copy; phase := DrainBuf;
                hdr := hdr r; comp := comp r; algo := algo r |}, evs)
          else
            poll_loop fuel' cap {| buf := []; buf_pos := 0; phase := ReadHeader; hdr := [];
                                   comp := comp r; algo := algo r |} evs
      | ReadHeader =>
          let '(res, got, evs') := fill 7 (hdr r) evs in
          let r' ph cm := {| buf := buf r; buf_pos := buf_pos r; phase := ph; hdr := got;
                             comp := cm; algo := algo r |} in
          match res with
          | FullyRead => poll_loop fuel' cap (r' ReadPayload []) evs'
          | FillPending => Some (PollPending, r' ReadHeader (comp r), evs')
          | FillError => Some (PollError, r' ReadHeader (comp r), evs')
          | FillEof => Some (PollReady [], r' ReadHeader (comp r), evs')
          end
      | ReadPayload =>
          let '(res, got, evs') := fill (Z.to_nat (header_len (hdr r))) (comp r) evs in
          let r' ph b cm := {| buf := b; buf_pos := match ph with DrainBuf => 0%nat | _ => buf_pos r end;
                               phase := ph; hdr := hdr r; comp := cm; algo := algo r |} in
          match res with
          | FullyRead =>
              match decompress (algo r) (hdr r) got with
              | Some d => poll_loop fuel' cap (r' DrainBuf d []) evs'
              | None => Some (PollError, r' ReadPayload (buf r) got, evs')
              end
          | FillPending => Some (PollPending, r' ReadPayload (buf r) got, evs')
          | FillError => Some (PollError, r' ReadPayload (buf r) got, evs')
          | FillEof => Some (PollReady [], r' ReadPayload (buf r) got, evs')
          end
      end
  end.

Definition event_bytes (e : inner_event) : bytes := match e with Chunk d => d | _ => [] end.
(** The bytes the inner stream still has. *)
Definition raw (evs : list inner_event) : bytes := concat (map event_bytes evs).

(** An empty frame costs three turns and seven bytes. *)
Definition poll_read (cap : nat) (r : MysqlCompressedReader) (evs : list inner_event) :=
  poll_loop (3 * (length (raw evs) + length (hdr r)) + 5) cap r evs.

(** *** What the reader promises: the concatenated contents of the frames *)

Fixpoint decode_frames (fuel : nat) (a : CompressAlgo) (s : bytes) : bytes :=
  match fuel with
  | O => []
  | S fuel' =>
      if (length s <? 7)%nat then [] else
      let n := Z.to_nat (header_len (take 7 s)) in
      let rest := drop 7 s in
      if (length rest <? n)%nat then [] else
      match decompress a (take 7 s) (take n rest) with
      | Some d => d ++ decode_frames fuel' a (drop n rest)
      | None => []
      end
  end.
Definition decode (a : CompressAlgo) (s : bytes) : bytes := decode_frames (S (length s)) a s.

(** All bytes the callers of [poll_read] are still to get. *)
Definition remaining (r : MysqlCompressedReader) (evs : list inner_event) : bytes :=
  drop (buf_pos r) (buf r) ++
  decode (algo r) (match phase r with
                   | DrainBuf => raw evs
                   | ReadHeader => hdr r ++ raw evs
                   | ReadPayload => hdr r ++ comp r ++ raw evs
                   end).
End Compression.

(** ** Lemmas *)

Lemma header_of_len len : 0 <= len < 2 ^ 24 -> forall seq, header_len (header_of len seq) = len.
Proof.
  intros Hl seq.
  change (u24_or (byte_at len 0) (byte_at len 1) (byte_at len 2) = len).
  rewrite u24_or_le by (unfold byte; rewrite byte_at_div by lia; apply Z.mod_pos_bound; lia).
  rewrite byte_at_le3. apply of_to_le. simpl. lia.
Qed.

Lemma header_len_nonneg h : bytes_ok h -> 0 <= header_len h.
Proof.
  intros Hh. unfold header_len.
  assert (forall i, byte (at_ h i)) as Hat.
  { intros i. unfold at_. destruct (h !! i) eqn:E; [|unfold byte; simpl; lia].
    unfold bytes_ok in Hh. rewrite Forall_lookup in Hh. by eapply Hh. }
  rewrite u24_or_le by apply Hat. pose proof (of_le_range [at_ h 0; at_ h 1; at_ h 2]) as H.
  apply H. repeat constructor; apply Hat.
Qed.

Lemma read_exact_app n w p rest :
  input w = p ++ rest -> length p = n ->
  read_exact n w = (Ok p, {| codec := codec w; input := rest; output := output w |}).
Proof.
  intros Hi <-. unfold read_exact. rewrite Hi, length_app.
  rewrite (proj2 (Nat.leb_le _ _)) by lia. by rewrite take_app_length, drop_app_length.
Qed.

(** Computing one monadic step. *)
Lemma bind_ok {A B} (m : M A) (f : A -> M B) w a w' :
  m w = (Ok a, w') -> (m ≫= f) w = f a w'.
Proof. intros H. unfold mbind, se_bind. by rewrite H. Qed.

Lemma bind_err {A B} (m : M A) (f : A -> M B) w e w' :
  m w = (Err e, w') -> (m ≫= f) w = (Err e, w').
Proof. intros H. unfold mbind, se_bind. by rewrite H. Qed.

(** ** Framing *)

(** The wire image of one payload cut into [chunks], numbered from [seq]. *)
Fixpoint frames (seq : Z) (chunks : list bytes) : bytes :=
  match chunks with
  | [] => []
  | c :: cs => header_of (Z.of_nat (length c)) seq ++ c ++ frames (u8 (seq + 1)) cs
  end.

(** Every chunk but the last is as long as a packet can be, the last is shorter. *)
Fixpoint split_payload (chunks : list bytes) : Prop :=
  match chunks with
  | [] => False
  | [c] => Z.of_nat (length c) < max_payload
  | c :: cs => Z.of_nat (length c) = max_payload /\ split_payload cs
  end.

Definition with_input (i : bytes) (w : Wire) : Wire :=
  {| codec := codec w; input := i; output := output w |}.
Definition with_seq (s : Z) (w : Wire) : Wire :=
  {| codec := set_sequence s (codec w); input := input w; output := output w |}.

Fixpoint seq_after (seq : Z) (chunks : list bytes) : Z :=
  match chunks with [] => seq | _ :: cs => seq_after (u8 (seq + 1)) cs end.

Lemma header_of_seq len seq : at_ (header_of len seq) 3 = seq.
Proof. done. Qed.

Lemma frames_length seq chunks : (length chunks <= length (frames seq chunks))%nat.
Proof.
  revert seq. induction chunks as [|c cs IH]; intros seq; [done|]. cbn [frames length].
  rewrite !length_app. specialize (IH (u8 (seq + 1))). simpl. lia.
Qed.

Lemma read_continuation_frames fuel last acc chunks rest seq w :
  sequence_id (codec w) = seq -> (length chunks <= fuel)%nat ->
  (chunks = [] /\ last <> max_payload \/ last = max_payload /\ split_payload chunks) ->
  input w = frames seq chunks ++ rest ->
  exists w', read_continuation fuel last acc w = (Ok (acc ++ concat chunks), w') /\
    input w' = rest /\ output w' = output w /\ sequence_id (codec w') = seq_after seq chunks.
Proof.
  revert last acc chunks seq w. induction fuel as [|fuel IH]; intros last acc chunks seq w Hs Hf Hc Hi.
  - destruct chunks; [|simpl in Hf; lia]. destruct Hc as [[_ Hl]|[_ []]].
    simpl. rewrite (proj2 (Z.eqb_neq _ _)) by done. cbn [negb concat frames] in *.
    rewrite app_nil_r. exists w. by rewrite Hi.
  - destruct chunks as [|c cs].
    + destruct Hc as [[_ Hl]|[_ []]]. simpl. rewrite (proj2 (Z.eqb_neq _ _)) by done.
      cbn [negb concat frames] in *. rewrite app_nil_r. exists w. by rewrite Hi.
    + destruct Hc as [[? _]|[-> Hc]]; [done|]. cbn [read_continuation]. rewrite Z.eqb_refl. cbn [negb].
      cbn [frames] in Hi. rewrite <- !app_assoc in Hi.
      assert (Z.of_nat (length c) <= max_payload) as Hlc by (destruct cs; cbn in Hc; lia).
      erewrite bind_ok by (by apply (read_exact_app 4 w _ _ Hi)).
      erewrite bind_ok by reflexivity. cbn [codec]. rewrite header_of_seq, Hs, Z.eqb_refl. cbn [negb].
      rewrite header_of_len by (unfold max_payload in Hlc; lia). rewrite Nat2Z.id.
      erewrite bind_ok by (by apply (read_exact_app (length c) _ c (frames (u8 (seq + 1)) cs ++ rest))).
      erewrite bind_ok by reflexivity. cbn [codec output input].
      edestruct (IH (Z.of_nat (length c)) (acc ++ c) cs (u8 (seq + 1))) as (w' & H1 & H2 & H3 & H4).
      5: { exists w'. rewrite H1. cbn [concat]. by rewrite app_assoc. }
      * cbn. by rewrite Hs.
      * simpl in Hf. lia.
      * destruct cs as [|c' cs]; [left; split; [done | cbn in Hc; lia] | right]. by destruct Hc.
      * done.
Qed.

Lemma read_packet_frames chunks rest w :
  split_payload chunks ->
  input w = frames (sequence_id (codec w)) chunks ++ rest ->
  exists w', read_packet w = (Ok (concat chunks), w') /\ input w' = rest /\
    output w' = output w /\
    sequence_id (codec w') = seq_after (sequence_id (codec w)) chunks.
Proof.
  intros Hc Hi. destruct chunks as [|c cs]; [done|].
  cbn [frames] in Hi. rewrite <- !app_assoc in Hi. unfold read_packet.
  assert (Z.of_nat (length c) <= max_payload) as Hlc by (destruct cs; cbn in Hc; lia).
  erewrite bind_ok by (by apply (read_exact_app 4 w _ _ Hi)). cbv zeta.
  erewrite bind_ok by reflexivity. cbn [codec]. rewrite header_of_seq, Z.eqb_refl. cbn [negb].
  rewrite header_of_len by (unfold max_payload in Hlc; lia).
  rewrite (proj2 (Z.ltb_ge _ _)) by done. rewrite Nat2Z.id.
  erewrite bind_ok by (by apply (read_exact_app (length c) _ c
    (frames (u8 (sequence_id (codec w) + 1)) cs ++ rest))).
  erewrite bind_ok by reflexivity. erewrite bind_ok by reflexivity. cbn [codec input output].
  edestruct (read_continuation_frames
    (length (frames (u8 (sequence_id (codec w) + 1)) cs ++ rest)) (Z.of_nat (length c)) c cs rest
    (u8 (sequence_id (codec w) + 1))) as (w' & H1 & H2 & H3 & H4).
  5: { exists w'. rewrite H1. cbn [concat]. by rewrite H2, H3, H4. }
  - done.
  - pose proof (frames_length (u8 (sequence_id (codec w) + 1)) cs). rewrite length_app. lia.
  - destruct cs as [|c' cs]; [left; split; [done | cbn in Hc; lia] | right]. by destruct Hc.
  - done.
Qed.

(** Reading reassembles a payload however it was cut into maximal packets, checks
    and advances the sequence number modulo 256, and leaves the stream after the last
    packet; the fuel, the number of bytes left, is enough. *)
Theorem read_packet_reassembles chunks rest w :
  split_payload chunks ->
  input w = frames (sequence_id (codec w)) chunks ++ rest ->
  exists w', read_packet w = (Ok (concat chunks), w') /\ input w' = rest /\
    output w' = output w /\
    sequence_id (codec w') = seq_after (sequence_id (codec w)) chunks.
Proof. apply read_packet_frames. Qed.

Lemma read_packet_reassembles_witness :
  let w := {| codec := set_sequence 255 new; input := frames 255 [bs "SELECT 1"] ++ [7]; output := [] |} in
  exists w', read_packet w = (Ok (concat [bs "SELECT 1"]), w') /\ input w' = [7] /\
    output w' = output w /\ sequence_id (codec w') = seq_after (sequence_id (codec w)) [bs "SELECT 1"].
Proof.
  apply (read_packet_reassembles [bs "SELECT 1"] [7]).
  - vm_compute. reflexivity.
  - reflexivity.
Defined.

(** What [write_packet] writes, a reader at the same sequence number reads back,
    and both count on by one, for every payload shorter than 0xFFFFFF bytes; a longer
    payload than 0xFFFFFF is refused and nothing is written. *)
Theorem write_read_packet payload w w' rest :
  sequence_id (codec w') = sequence_id (codec w) ->
  (Z.of_nat (length payload) < max_payload ->
   exists b, write_packet payload w =
     (Ok tt, {| codec := advance_seq 1 (codec w); input := input w; output := output w ++ b |}) /\
   (input w' = b ++ rest ->
    exists w2, read_packet w' = (Ok payload, w2) /\ input w2 = rest /\
      sequence_id (codec w2) = u8 (sequence_id (codec w) + 1))) /\
  (max_payload < Z.of_nat (length payload) ->
   write_packet payload w = (Err (PacketTooLarge (Z.of_nat (length payload))), w)).
Proof.
  intros Hseq. split.
  - intros Hl. exists (header_of (Z.of_nat (length payload)) (sequence_id (codec w)) ++ payload).
    split.
    + unfold write_packet. rewrite (proj2 (Z.ltb_ge _ _)) by lia.
      erewrite bind_ok by reflexivity. erewrite bind_ok by reflexivity. reflexivity.
    + intros Hi. destruct (read_packet_frames [payload] rest w' Hl) as (w2 & H1 & H2 & H3 & H4).
      * rewrite Hi, Hseq. cbn [frames]. by rewrite !app_nil_r.
      * exists w2. rewrite H1, H4, <- Hseq. cbn [concat]. by rewrite app_nil_r.
  - intros Hl. unfold write_packet. by rewrite (proj2 (Z.ltb_lt _ _)).
Qed.

Lemma write_read_packet_witness :
  let w := {| codec := new; input := []; output := [] |} in
  let w' := {| codec := new; input := header_of 3 0 ++ bs "abc" ++ [1]; output := [] |} in
  exists b w2, write_packet (bs "abc") w =
    (Ok tt, {| codec := advance_seq 1 new; input := []; output := [] ++ b |}) /\
  read_packet w' = (Ok (bs "abc"), w2) /\ input w2 = [1].
Proof.
  destruct (proj1 (write_read_packet (bs "abc") {| codec := new; input := []; output := [] |}
    {| codec := new; input := header_of 3 0 ++ bs "abc" ++ [1]; output := [] |} [1] eq_refl))
    as (b & H1 & H2).
  - vm_compute. reflexivity.
  - assert (b = header_of 3 0 ++ bs "abc") as Hb by (injection H1 as Hb; by rewrite <- Hb).
    destruct H2 as (w2 & H3 & H4 & _); [by rewrite Hb|].
    exists b, w2. split_and!; [exact H1 | exact H3 | exact H4].
Defined.

(** A payload of exactly 0xFFFFFF bytes is written as one packet without the empty
    packet that has to follow it, so the reader waits for a continuation: alone on the
    stream it cannot be read. *)
Theorem maximal_payload_unreadable payload w w' :
  Z.of_nat (length payload) = max_payload ->
  sequence_id (codec w') = sequence_id (codec w) -> input w' = output (snd (write_packet payload w)) ->
  output w = [] ->
  fst (write_packet payload w) = Ok tt /\ fst (read_packet w') = Err Io.
Proof.
  intros Hl Hseq Hi Ho. unfold write_packet in *. rewrite (proj2 (Z.ltb_ge _ _)) in * by lia.
  split; [reflexivity|]. unfold mbind, se_bind, se_gets, write_all, upd_codec, se_modify in Hi.
  cbn [snd output codec] in Hi. rewrite Ho in Hi. cbn [app] in Hi. unfold read_packet.
  erewrite bind_ok by (by apply (read_exact_app 4 w' (header_of (Z.of_nat (length payload))
    (sequence_id (codec w))) payload)). cbv zeta.
  erewrite bind_ok by reflexivity. cbn [codec]. rewrite header_of_seq, Hseq, Z.eqb_refl. cbn [negb].
  rewrite header_of_len by (unfold max_payload in Hl; lia). rewrite (proj2 (Z.ltb_ge _ _)) by lia.
  erewrite bind_ok by (apply (read_exact_app _ _ payload []); [by rewrite app_nil_r | lia]).
  erewrite bind_ok by reflexivity. erewrite bind_ok by reflexivity. cbn [input length].
  unfold read_continuation. rewrite Hl, Z.eqb_refl. reflexivity.
Qed.

Lemma maximal_payload_unreadable_witness :
  exists payload, Z.of_nat (length payload) = max_payload /\
  let w := {| codec := new; input := []; output := [] |} in
  fst (write_packet payload w) = Ok tt /\
  fst (read_packet {| codec := new; input := output (snd (write_packet payload w)); output := [] |})
  = Err Io.
Proof.
  exists (repeat 0 (Z.to_nat max_payload)).
  assert (Z.of_nat (length (repeat 0 (Z.to_nat max_payload))) = max_payload) as Hl
    by (rewrite repeat_length; apply Z2Nat.id; unfold max_payload; lia).
  revert Hl. generalize (repeat 0 (Z.to_nat max_payload)). intros payload Hl.
  split; [exact Hl|].
  exact (maximal_payload_unreadable payload {| codec := new; input := []; output := [] |}
    {| codec := new; output := [];
       input := output (snd (write_packet payload {| codec := new; input := []; output := [] |})) |}
    Hl eq_refl eq_refl eq_refl).
Defined.

(** Writing packets one by one. *)
Definition write_packets (ps : list bytes) : M unit := se_iter write_packet ps.
Definition buffer_packets (ps : list bytes) : M unit := se_iter buffer_packet ps.

Lemma write_packets_output ps w :
  Forall (fun p => Z.of_nat (length p) <= max_payload) ps ->
  write_packets ps w = (Ok tt, {| codec := set_sequence (seq_after (sequence_id (codec w)) ps) (codec w);
    input := input w; output := output w ++ frames (sequence_id (codec w)) ps |}).
Proof.
  intros Hps. revert w. induction Hps as [|p ps Hp Hps IH]; intros w; unfold write_packets; cbn [se_iter].
  - cbn. rewrite app_nil_r. by destruct w as [[] ? ?].
  - erewrite bind_ok.
    2: { unfold write_packet. rewrite (proj2 (Z.ltb_ge _ _)) by lia.
         erewrite bind_ok by reflexivity. erewrite bind_ok by reflexivity. reflexivity. }
    unfold write_packets in IH. rewrite IH. cbn. by rewrite <- ?app_assoc.
Qed.

Lemma buffer_packets_output ps w :
  Forall (fun p => Z.of_nat (length p) <= max_payload) ps ->
  buffer_packets ps w = (Ok tt, {| codec := set_write_buf (write_buf (codec w) ++ frames (sequence_id (codec w)) ps)
      (set_sequence (seq_after (sequence_id (codec w)) ps) (codec w));
    input := input w; output := output w |}).
Proof.
  intros Hps. revert w. induction Hps as [|p ps Hp Hps IH]; intros w; unfold buffer_packets; cbn [se_iter].
  - cbn. rewrite app_nil_r. by destruct w as [[] ? ?].
  - erewrite bind_ok.
    2: { unfold buffer_packet. rewrite (proj2 (Z.ltb_ge _ _)) by lia. reflexivity. }
    unfold buffer_packets in IH. rewrite IH. cbn. by rewrite <- ?app_assoc.
Qed.

(** Buffering packets and flushing once puts on the wire exactly the bytes of
    writing them one by one, and leaves the codec in the same state. *)
Theorem buffered_equals_direct ps w :
  Forall (fun p => Z.of_nat (length p) <= max_payload) ps ->
  write_buf (codec w) = [] ->
  (buffer_packets ps ≫= fun _ => flush) w = write_packets ps w.
Proof.
  intros Hps Hb. rewrite write_packets_output by done.
  erewrite bind_ok by (by apply buffer_packets_output). unfold flush.
  erewrite bind_ok by reflexivity. cbn [codec write_buf set_write_buf]. rewrite Hb. cbn [app].
  assert (forall b : bytes, b = [] \/ b <> []) as Hcase by (intros []; [by left | by right]).
  destruct (frames (sequence_id (codec w)) ps) as [|b0 bs0] eqn:E; rewrite ?E.
  - cbn. rewrite app_nil_r. destruct w as [[] ? ?]. simpl in *. by subst.
  - erewrite bind_ok by reflexivity. cbn. destruct w as [[] ? ?]. simpl in *. by subst.
Qed.

Lemma buffered_equals_direct_witness :
  let w := {| codec := new; input := []; output := [9] |} in
  (buffer_packets [bs "a"; bs "bc"] ≫= fun _ => flush) w = write_packets [bs "a"; bs "bc"] w.
Proof.
  apply (buffered_equals_direct [bs "a"; bs "bc"] {| codec := new; input := []; output := [9] |}).
  - repeat constructor; vm_compute; discriminate.
  - reflexivity.
Defined.

(** ** The decompressing reader *)

Definition clean (evs : list inner_event) : Prop :=
  Forall (fun e => match e with IoError => False | Chunk d => d <> [] | Pending => True end) evs.

Lemma raw_cons e evs : raw (e :: evs) = event_bytes e ++ raw evs.
Proof. done. Qed.

Lemma fill_spec target got evs :
  (length got <= target)%nat -> clean evs ->
  let '(res, got', evs') := fill target got evs in
  got' ++ raw evs' = got ++ raw evs /\ (length got' <= target)%nat /\ clean evs' /\
  match res with
  | FullyRead => length got' = target
  | FillEof => raw evs' = [] /\ (length got' < target)%nat
  | FillPending => (length evs' < length evs)%nat
  | FillError => False
  end.
Proof.
  revert got. induction evs as [|e evs IH]; intros got Hg Hc; cbn [fill].
  - destruct (target <=? length got)%nat eqn:E; [apply Nat.leb_le in E | apply Nat.leb_gt in E];
      split_and!; try done; lia.
  - destruct (target <=? length got)%nat eqn:E; [apply Nat.leb_le in E | apply Nat.leb_gt in E];
      [split_and!; try done; lia|].
    inversion Hc as [|? ? He Hc']; subst. destruct e as [| |d]; [|done|].
    + split_and!; try done. simpl. lia.
    + destruct (length d =? 0)%nat eqn:E0.
      { apply Nat.eqb_eq in E0. by destruct d. }
      destruct (length d <=? target - length got)%nat eqn:El.
      * apply Nat.leb_le in El.
        specialize (IH (got ++ d) ltac:(rewrite length_app; lia) Hc').
        destruct (fill target (got ++ d) evs) as [[res got'] evs'].
        destruct IH as (H1 & H2 & H3 & H4). rewrite raw_cons. cbn [event_bytes].
        split_and!; try done; [by rewrite H1, app_assoc|].
        destruct res; try done. simpl. lia.
      * apply Nat.leb_gt in El. rewrite !raw_cons. cbn [event_bytes]. split_and!.
        -- rewrite <- app_assoc. f_equal. by rewrite app_assoc, take_drop.
        -- rewrite length_app, length_take. lia.
        -- constructor; [|done]. intros Hd. apply (f_equal length) in Hd.
           rewrite length_drop in Hd. simpl in Hd. lia.
        -- rewrite length_app, length_take. lia.
Qed.

Section ReaderLemmas.
Context `{CO : Compressor}.

Lemma decode_frames_enough n m a s :
  (length s < n)%nat -> (length s < m)%nat -> decode_frames n a s = decode_frames m a s.
Proof.
  revert m s. induction n as [|n IH]; intros m s Hn Hm; [lia|].
  destruct m as [|m]; [lia|]. cbn [decode_frames].
  destruct (length s <? 7)%nat eqn:E; [done|]. apply Nat.ltb_ge in E.
  destruct (length (drop 7 s) <? _)%nat eqn:E2; [done|].
  destruct (decompress _ _ _); [|done]. f_equal. apply IH; rewrite !length_drop; lia.
Qed.

Lemma decode_short a s : (length s < 7)%nat -> decode a s = [].
Proof. intros H. unfold decode. cbn [decode_frames]. by rewrite (proj2 (Nat.ltb_lt _ _)). Qed.

(** One frame at the front. *)
Lemma decode_frame a h body rest :
  length h = 7%nat -> length body = Z.to_nat (header_len h) ->
  decode a (h ++ body ++ rest) =
  match decompress a h body with Some d => d ++ decode a rest | None => [] end.
Proof.
  intros Hh Hb. unfold decode at 1. cbn [decode_frames].
  rewrite take_app_length', drop_app_length' by done.
  rewrite (proj2 (Nat.ltb_ge _ 7)) by (rewrite length_app; lia).
  rewrite (proj2 (Nat.ltb_ge _ (Z.to_nat _))) by (rewrite length_app; lia).
  rewrite take_app_length', drop_app_length' by done.
  destruct (decompress a h body); [|done]. f_equal. unfold decode.
  apply decode_frames_enough; rewrite ?length_app; lia.
Qed.

Lemma decode_incomplete a h body :
  length h = 7%nat -> (length body < Z.to_nat (header_len h))%nat -> decode a (h ++ body) = [].
Proof.
  intros Hh Hb. unfold decode. cbn [decode_frames].
  rewrite take_app_length', drop_app_length' by done.
  rewrite (proj2 (Nat.ltb_ge _ 7)) by (rewrite length_app; lia).
  by rewrite (proj2 (Nat.ltb_lt _ (Z.to_nat _))).
Qed.

Definition reader_ok (r : MysqlCompressedReader) : Prop :=
  match phase r with
  | DrainBuf => True
  | ReadHeader => drop (buf_pos r) (buf r) = [] /\ (length (hdr r) <= 7)%nat
  | ReadPayload => drop (buf_pos r) (buf r) = [] /\ length (hdr r) = 7%nat /\
      (length (comp r) <= Z.to_nat (header_len (hdr r)))%nat
  end.

Definition measure (r : MysqlCompressedReader) (evs : list inner_event) : nat :=
  match phase r with
  | DrainBuf => 3 * length (raw evs) + 3
  | ReadHeader => 3 * (length (raw evs) + length (hdr r)) + 2
  | ReadPayload => 3 * length (raw evs) + 4
  end.

(** What one poll does to the bytes still to be delivered. *)
Definition poll_post (cap : nat) (r : MysqlCompressedReader) (evs : list inner_event)
    (o : option (poll_result * MysqlCompressedReader * list inner_event)) : Prop :=
  exists res r' evs', o = Some (res, r', evs') /\ reader_ok r' /\ clean evs' /\ algo r' = algo r /\
  match res with
  | PollReady [] => remaining r evs = []
  | PollReady d => (length d <= cap)%nat /\ remaining r evs = d ++ remaining r' evs'
  | PollPending => remaining r' evs' = remaining r evs /\ (length evs' < length evs)%nat
  | PollError => remaining r evs = []
  end.

Lemma fill_events_length target got evs :
  (length (snd (fill target got evs)) <= length evs)%nat.
Proof.
  revert got. induction evs as [|e evs IH]; intros got; cbn [fill]; case_match; try done.
  destruct e; simpl; try lia. case_match; simpl; [lia|]. case_match; simpl; [|lia].
  specialize (IH (got ++ data)). destruct (fill target (got ++ data) evs) as [[??]?]. simpl in *. lia.
Qed.

(** A poll that goes on as another one with the same bytes to deliver. *)
Lemma poll_post_weaken cap r1 evs1 r2 evs2 o :
  remaining r2 evs2 = remaining r1 evs1 -> (length evs2 <= length evs1)%nat ->
  algo r2 = algo r1 -> poll_post cap r2 evs2 o -> poll_post cap r1 evs1 o.
Proof.
  intros Hr Hl Ha (res & r' & evs' & -> & H1 & H2 & H3 & H4). exists res, r', evs'.
  split_and!; try done; [congruence|]. rewrite Hr in H4. destruct res; try done.
  destruct H4. split; [done|lia].
Qed.

Lemma poll_loop_spec fuel cap r evs :
  (0 < cap)%nat -> (measure r evs < fuel)%nat -> reader_ok r -> clean evs ->
  poll_post cap r evs (poll_loop fuel cap r evs).
Proof.
  intros Hcap. revert r evs. induction fuel as [|fuel IH]; intros r evs Hm Hr Hc; [lia|].
  destruct r as [b pos ph h cm a]. destruct ph; cbn [poll_loop phase].
  - cbn [buf buf_pos hdr comp algo].
    destruct (0 <? length b - pos)%nat eqn:E; [apply Nat.ltb_lt in E | apply Nat.ltb_ge in E].
    + eexists _, _, evs. split_and!; try done. cbn zeta.
      set (k := Nat.min (length b - pos) cap).
      assert (0 < length (take k (drop pos b)))%nat as Hk by (rewrite length_take, length_drop; lia).
      destruct (take k (drop pos b)) as [|x d] eqn:Et; [simpl in Hk; lia|]. split.
      * rewrite <- Et, length_take. lia.
      * unfold remaining. cbn [buf buf_pos phase algo]. rewrite app_assoc. f_equal.
        rewrite <- Et. by rewrite <- drop_drop, take_drop.
    + eapply poll_post_weaken; [| | |apply IH]; try done.
      * unfold remaining. cbn [buf buf_pos phase algo hdr app]. by rewrite (drop_ge b) by lia.
      * unfold measure in *. cbn [phase hdr length] in *. lia.
      * split; [done | simpl; lia].
  - destruct Hr as [Hd Hh]. cbn [buf buf_pos hdr comp algo] in *.
    pose proof (fill_spec 7 h evs Hh Hc) as Hf. pose proof (fill_events_length 7 h evs) as Hl.
    destruct (fill 7 h evs) as [[res got] evs']. destruct Hf as (H1 & H2 & H3 & H4). cbn [snd] in Hl.
    destruct res; cbn zeta.
    + eapply poll_post_weaken; [| | |apply IH]; try done.
      * unfold remaining. cbn [buf buf_pos phase algo hdr comp app]. by rewrite H1.
      * unfold measure in *. cbn [phase hdr] in *. apply (f_equal length) in H1.
        rewrite !length_app in H1. lia.
      * split_and!; [done | done | simpl; lia].
    + eexists _, _, evs'. split_and!; try done. unfold remaining.
      cbn [buf buf_pos phase algo hdr]. by rewrite H1.
    + done.
    + eexists _, _, evs'. split_and!; try done. unfold remaining.
      cbn [buf buf_pos phase algo hdr]. destruct H4 as [H4 H5].
      rewrite <- H1, H4, app_nil_r, Hd. by rewrite decode_short.
  - destruct Hr as (Hd & Hh & Hk). cbn [buf buf_pos hdr comp algo] in *.
    pose proof (fill_spec _ cm evs Hk Hc) as Hf.
    pose proof (fill_events_length (Z.to_nat (header_len h)) cm evs) as Hl.
    destruct (fill _ cm evs) as [[res got] evs']. destruct Hf as (H1 & H2 & H3 & H4). cbn [snd] in Hl.
    destruct res; cbn zeta.
    + destruct (decompress a h got) as [d|] eqn:Ed.
      * eapply poll_post_weaken; [| | |apply IH]; try done.
        -- unfold remaining. cbn [buf buf_pos phase algo hdr comp]. rewrite Hd, drop_0.
           cbn [app]. rewrite <- H1. by rewrite decode_frame, Ed.
        -- unfold measure in *. cbn [phase hdr] in *. apply (f_equal length) in H1.
           rewrite !length_app in H1. lia.
      * eexists _, _, evs'. split_and!; try done. unfold remaining.
        cbn [buf buf_pos phase algo hdr comp]. rewrite Hd, <- H1. by rewrite decode_frame, Ed.
    + eexists _, _, evs'. split_and!; try done. unfold remaining.
      cbn [buf buf_pos phase algo hdr comp]. by rewrite H1.
    + done.
    + eexists _, _, evs'. split_and!; try done. unfold remaining.
      cbn [buf buf_pos phase algo hdr comp]. destruct H4 as [H4 H5].
      rewrite <- H1, H4, app_nil_r, Hd. by rewrite decode_incomplete.
Qed.
End ReaderLemmas.

Section ReaderProperties.
Context `{CO : Compressor}.

(** A caller that polls with the given capacities and stops at the end of the stream
    or at an error: what it got, whether it stopped, and what is left. *)
Fixpoint polls (caps : list nat) (r : MysqlCompressedReader) (evs : list inner_event)
  : option (bytes * bool * MysqlCompressedReader * list inner_event) :=
  match caps with
  | [] => Some ([], false, r, evs)
  | cap :: caps' =>
      match poll_read cap r evs with
      | None => None
      | Some (PollPending, r', evs') => polls caps' r' evs'
      | Some (PollError, r', evs') | Some (PollReady [], r', evs') => Some ([], true, r', evs')
      | Some (PollReady d, r', evs') =>
          match polls caps' r' evs' with
          | Some (d', stop, r'', evs'') => Some (d ++ d', stop, r'', evs'')
          | None => None
          end
      end
  end.

Lemma poll_read_spec cap r evs :
  (0 < cap)%nat -> reader_ok r -> clean evs -> poll_post cap r evs (poll_read cap r evs).
Proof.
  intros Hcap Hr Hc. apply poll_loop_spec; try done. unfold measure. destruct (phase r); lia.
Qed.

Lemma polls_spec caps r evs :
  Forall (fun c => (0 < c)%nat) caps -> reader_ok r -> clean evs ->
  exists d stop r' evs', polls caps r evs = Some (d, stop, r', evs') /\
    if stop : bool then remaining r evs = d else remaining r evs = d ++ remaining r' evs'.
Proof.
  intros Hcaps. revert r evs. induction Hcaps as [|cap caps Hcap Hcaps IH]; intros r evs Hr Hc.
  - by exists [], false, r, evs.
  - cbn [polls]. destruct (poll_read_spec cap r evs Hcap Hr Hc)
      as (res & r' & evs' & -> & Hr' & Hc' & _ & Hres).
    destruct res as [| |d].
    + destruct (IH r' evs' Hr' Hc') as (d & stop & r2 & evs2 & -> & H2).
      exists d, stop, r2, evs2. split; [done|]. destruct Hres as [<- _]. exact H2.
    + by exists [], true, r', evs'.
    + destruct d as [|x d]; [by exists [], true, r', evs'|].
      destruct (IH r' evs' Hr' Hc') as (d2 & stop & r2 & evs2 & -> & H2).
      exists ((x :: d) ++ d2), stop, r2, evs2. split; [done|]. destruct Hres as [_ ->].
      destruct stop; rewrite H2; [done | by rewrite app_assoc].
Qed.

(** C16: The decompressing reader refines plain decoding: however the network cuts the
    stream into chunks, however often it is not ready and whatever the capacities of
    the reads, every poll ends, what is delivered is a prefix of the concatenated
    contents of the frames, and all of it when the reader reports the end. *)
Theorem compressed_reader_refines a caps evs :
  Forall (fun c => (0 < c)%nat) caps -> clean evs ->
  exists d stop r' evs', polls caps (reader_new a) evs = Some (d, stop, r', evs') /\
    if stop : bool then decode a (raw evs) = d
    else decode a (raw evs) = d ++ remaining r' evs'.
Proof.
  intros Hcaps Hc. destruct (polls_spec caps (reader_new a) evs Hcaps I Hc)
    as (d & stop & r' & evs' & H1 & H2).
  exists d, stop, r', evs'. split; [exact H1|]. exact H2.
Qed.

Lemma header_at_frame (x0 x1 x2 y0 y1 y2 seq : Z) :
  header_len [x0; x1; x2; seq; y0; y1; y2] = u24_or x0 x1 x2 /\
  header_len (drop 4 [x0; x1; x2; seq; y0; y1; y2]) = u24_or y0 y1 y2.
Proof. done. Qed.

Lemma u24_bytes len : 0 <= len < 2 ^ 24 -> u24_or (byte_at len 0) (byte_at len 1) (byte_at len 2) = len.
Proof. intros H. by apply (header_of_len len H 0). Qed.

(** A flush of a compressed connection is undone by the decompressing reader: the
    frame it writes decodes to exactly the buffered packets, below and above the
    compression threshold, given that the libraries invert themselves. *)
Theorem compressed_flush_roundtrip `{!CompressorLaws CO} w rest :
  let c := codec w in
  compressed c = true -> write_buf c <> [] ->
  Z.of_nat (length (write_buf c)) < 2 ^ 24 ->
  Z.of_nat (length (compress (compression_algo c) (write_buf c))) < 2 ^ 24 ->
  exists frame, flush_maybe_compressed w =
    (Ok tt, {| codec := bump_compressed_seq (set_write_buf [] c); input := input w;
               output := output w ++ frame |}) /\
  decode (compression_algo c) (frame ++ rest) =
    write_buf c ++ decode (compression_algo c) rest.
Proof.
  intros c Hcomp Hne Hl Hlc. exists (compressed_frame (compression_algo c) (compressed_seq c) (write_buf c)).
  split.
  - unfold flush_maybe_compressed. erewrite bind_ok by reflexivity. fold c. rewrite Hcomp.
    destruct (write_buf c); [done|]. reflexivity.
  - unfold compressed_frame. destruct (MIN_COMPRESS_THRESHOLD <? _) eqn:E.
    + set (h := [byte_at _ 0; _; _; _; _; _; _]). rewrite <- app_assoc.
      destruct (header_at_frame (byte_at (Z.of_nat (length (compress (compression_algo c) (write_buf c)))) 0)
        (byte_at (Z.of_nat (length (compress (compression_algo c) (write_buf c)))) 1)
        (byte_at (Z.of_nat (length (compress (compression_algo c) (write_buf c)))) 2)
        (byte_at (Z.of_nat (length (write_buf c))) 0) (byte_at (Z.of_nat (length (write_buf c))) 1)
        (byte_at (Z.of_nat (length (write_buf c))) 2) (compressed_seq c)) as [H1 H2].
      fold h in H1, H2. rewrite u24_bytes in H1, H2 by lia.
      rewrite decode_frame; [|done|by rewrite H1, Nat2Z.id].
      unfold decompress. rewrite H2. bool_to_prop. unfold MIN_COMPRESS_THRESHOLD in *.
      rewrite (proj2 (Z.ltb_lt _ _)) by lia. rewrite Nat2Z.id. unfold compress.
      destruct (compression_algo c); by rewrite ?zlib_roundtrip, ?zstd_roundtrip.
    + set (h := [byte_at _ 0; _; _; _; _; _; _]). rewrite <- app_assoc.
      destruct (header_at_frame (byte_at (Z.of_nat (length (write_buf c))) 0)
        (byte_at (Z.of_nat (length (write_buf c))) 1) (byte_at (Z.of_nat (length (write_buf c))) 2)
        0 0 0 (compressed_seq c)) as [H1 H2].
      fold h in H1, H2. rewrite u24_bytes in H1 by lia.
      rewrite decode_frame; [|done|by rewrite H1, Nat2Z.id].
      unfold decompress. rewrite H2. done.
Qed.
End ReaderProperties.

(** A compressor that exists: both algorithms copy. *)
Definition copying : Compressor := {|
  zlib_compress p := p; zlib_decompress s n := if (length s =? n)%nat then Some s else None;
  zstd_compress p := p; zstd_decompress s n := if (length s =? n)%nat then Some s else None |}.
#[export] Instance copying_laws : CompressorLaws copying.
Proof. split; intros p; cbn; by rewrite Nat.eqb_refl. Qed.

Section Witnesses.
#[local] Existing Instance copying.

Lemma compressed_reader_refines_witness :
  let evs := [Chunk [3; 0]; Pending; Chunk [0; 0; 0; 0; 0; 65]; Chunk [66; 67; 1]] in
  exists d stop r' evs', polls [2; 2; 2; 2]%nat (reader_new Zlib) evs = Some (d, stop, r', evs') /\
    if stop : bool then decode Zlib (raw evs) = d
    else decode Zlib (raw evs) = d ++ remaining r' evs'.
Proof.
  apply (compressed_reader_refines Zlib [2; 2; 2; 2]%nat
           [Chunk [3; 0]; Pending; Chunk [0; 0; 0; 0; 0; 65]; Chunk [66; 67; 1]]).
  - repeat constructor; lia.
  - repeat constructor; discriminate.
Defined.

Example reader_delivers : polls [2; 2; 2; 2]%nat (reader_new Zlib)
    [Chunk [3; 0]; Pending; Chunk [0; 0; 0; 0; 0; 65]; Chunk [66; 67; 1]]
  = Some ([65; 66; 67], true,
          {| buf := []; buf_pos := 0; phase := ReadHeader; hdr := [1]; comp := []; algo := Zlib |}, []).
Proof. reflexivity. Qed.

Lemma compressed_flush_roundtrip_witness :
  let w := {| codec := set_write_buf (bs "hello") (enable_compression Zstd new); input := [];
              output := [] |} in
  exists frame, flush_maybe_compressed w =
    (Ok tt, {| codec := bump_compressed_seq (set_write_buf [] (codec w)); input := [];
               output := [] ++ frame |}) /\
  decode Zstd (frame ++ []) = bs "hello" ++ decode Zstd [].
Proof.
  apply (compressed_flush_roundtrip {| codec := set_write_buf (bs "hello") (enable_compression Zstd new);
    input := []; output := [] |} []); vm_compute; try reflexivity; discriminate.
Defined.
End Witnesses.
