(* ===== verification/MysqlResponse.v ===== *)
(** * MySQL responses (src/src/protocol/mysql/mod.rs)

    Collecting a complete response from a backend, the session-track section of OK
    packets, and the encoders of the packets the proxy makes itself.  The reader is the
    [input] of a [Wire]. *)

From S2P Require Import Prelude Bytes MysqlCodec.

(** ** Encoders *)

Definition framed_packet (seq : Z) (payload : bytes) : bytes :=
  header_of (Z.of_nat (length payload)) seq ++ payload.

Definition encode_lenenc (val : Z) : bytes :=
  if val <=? 250 then [val]
  else if val <=? 65535 then [252; byte_at val 0; byte_at val 1]
  else if val <=? 16777215 then [253; byte_at val 0; byte_at val 1; byte_at val 2]
  else 254 :: map (fun i => byte_at val i) [0; 1; 2; 3; 4; 5; 6; 7].

Definition encode_ok_packet (affected_rows last_insert_id status warnings : Z) : bytes :=
  [0] ++ encode_lenenc affected_rows ++ encode_lenenc last_insert_id
  ++ [byte_at status 0; byte_at status 1; byte_at warnings 0; byte_at warnings 1].

Definition encode_err_packet (code : Z) (state msg : bytes) : bytes :=
  [255; byte_at code 0; byte_at code 1; 35] ++ state ++ msg.

Definition SERVER_STATUS_AUTOCOMMIT : Z := 2.
Definition SERVER_MORE_RESULTS_EXISTS : Z := 8.
Definition SERVER_SESSION_STATE_CHANGED : Z := 16384.

(** ** Parsing OK packets *)

Definition lenenc_size (first_byte : Z) : nat :=
  if first_byte <=? 250 then 1%nat
  else if first_byte =? 252 then 3%nat
  else if first_byte =? 253 then 4%nat
  else 1%nat.

Definition ok_status_flags (payload : bytes) : option Z :=
  if negb (bool_decide (head payload = Some 0)) then None else
  match payload !! 1%nat with
  | None => None
  | Some b1 =>
      let pos := (1 + lenenc_size b1)%nat in
      match payload !! pos with
      | None => None
      | Some b2 =>
          let pos := (pos + lenenc_size b2)%nat in
          if (length payload <? pos + 2)%nat then None
          else Some (of_le [at_ payload pos; at_ payload (pos + 1)])
      end
  end.

(** Value and bytes consumed. *)
Definition read_lenenc (buf : bytes) : Z * nat :=
  match buf with
  | [] => (0, 0%nat)
  | b :: _ =>
      if b <=? 250 then (b, 1%nat)
      else if b =? 252 then
        if (length buf <? 3)%nat then (0, 1%nat) else (of_le [at_ buf 1; at_ buf 2], 3%nat)
      else if b =? 253 then
        if (length buf <? 4)%nat then (0, 1%nat)
        else (u24_or (at_ buf 1) (at_ buf 2) (at_ buf 3), 4%nat)
      else (0, 1%nat)
  end.

Definition slice (s : bytes) (i j : nat) : bytes := take (j - i) (drop i s).

(** The name and value pairs of a SESSION_TRACK_SYSTEM_VARIABLES block. *)
Fixpoint track_variables (fuel : nat) (payload : bytes) (dp data_end : nat)
  : list (bytes * bytes) :=
  match fuel with
  | O => []
  | S fuel' =>
      if (data_end <=? dp)%nat then [] else
      let (name_len, n) := read_lenenc (drop dp payload) in
      let dp := (dp + n)%nat in
      if Z.of_nat data_end <? Z.of_nat dp + name_len then [] else
      let name := utf8_lossy (slice payload dp (dp + Z.to_nat name_len)) in
      let dp := (dp + Z.to_nat name_len)%nat in
      let (val_len, n) := read_lenenc (drop dp payload) in
      let dp := (dp + n)%nat in
      if Z.of_nat data_end <? Z.of_nat dp + val_len then [] else
      let value := utf8_lossy (slice payload dp (dp + Z.to_nat val_len)) in
      let dp := (dp + Z.to_nat val_len)%nat in
      (name, value) :: track_variables fuel' payload dp data_end
  end.

(** The text of a SESSION_TRACK_GTIDS block. *)
Definition track_gtid (payload : bytes) (pos data_end : nat) : option bytes :=
  if (pos <? data_end)%nat then
    let dp := (pos + 1)%nat in
    let (gtid_len, n) := read_lenenc (drop dp payload) in
    let dp := (dp + n)%nat in
    if (Z.of_nat dp + gtid_len <=? Z.of_nat data_end) && (0 <? gtid_len) then
      let gtid := utf8_lossy (slice payload dp (dp + Z.to_nat gtid_len)) in
      if beq gtid [] then None else Some gtid
    else None
  else None.

(** The session variables and the GTID found so far. *)
Definition Tracked : Type := list (bytes * bytes) * option bytes.

Fixpoint track_blocks (fuel : nat) (payload : bytes) (pos end_ : nat) (acc : Tracked) : Tracked :=
  match fuel with
  | O => acc
  | S fuel' =>
      if (end_ <=? pos)%nat then acc
      else if (length payload <=? pos)%nat then acc
      else
        let track_type := at_ payload pos in
        let pos := (pos + 1)%nat in
        if (length payload <=? pos)%nat then acc else
        let (data_len, n) := read_lenenc (drop pos payload) in
        let pos := (pos + n)%nat in
        let data_end := (pos + Z.to_nat data_len)%nat in
        if (length payload <? data_end)%nat then acc else
        let acc :=
          if track_type =? 0 then
            (fst acc ++ track_variables (length payload) payload pos data_end, snd acc)
          else if track_type =? 3 then
            (fst acc, match track_gtid payload pos data_end with Some g => Some g | None => snd acc end)
          else acc in
        track_blocks fuel' payload data_end end_ acc
  end.

Definition parse_ok_session_track (payload : bytes) (acc : Tracked) : Tracked :=
  if negb (bool_decide (head payload = Some 0)) then acc else
  let pos := 1%nat in
  let (_, n) := read_lenenc (drop pos payload) in
  let pos := (pos + n)%nat in
  if (length payload <=? pos)%nat then acc else
  let (_, n) := read_lenenc (drop pos payload) in
  let pos := (pos + n)%nat in
  if (length payload <? pos + 4)%nat then acc else
  let status_flags := of_le [at_ payload pos; at_ payload (pos + 1)] in
  let pos := (pos + 4)%nat in
  if Z.land status_flags SERVER_SESSION_STATE_CHANGED =? 0 then acc
  else if (length payload <=? pos)%nat then acc
  else
    let (session_len, n) := read_lenenc (drop pos payload) in
    let pos := (pos + n)%nat in
    let end_ := (pos + Z.to_nat session_len)%nat in
    if (length payload <? end_)%nat then acc
    else track_blocks (length payload) payload pos end_ acc.

(** ** Collecting a response *)

Definition u24_le (h : bytes) : Z := header_len h.

(** One packet as it stands on the wire: header and payload. *)
Definition next_packet : M (bytes * bytes) :=
  header ← read_exact 4;
  payload ← read_exact (Z.to_nat (u24_le header));
  mret (header, payload).

Definition collect_raw_packet (buf : bytes) : M bytes :=
  p ← next_packet;
  mret (buf ++ fst p ++ snd p).

Fixpoint collect_raw_packets (n : nat) (buf : bytes) : M bytes :=
  match n with
  | O => mret buf
  | S n' => buf' ← collect_raw_packet buf; collect_raw_packets n' buf'
  end.

(** Whether a packet ends the rows of a result set: EOF or ERR. *)
Definition ends_rows (payload : bytes) : bool :=
  match payload with
  | b :: _ => ((b =? 254) && (length payload <? 9)%nat) || (b =? 255)
  | [] => false
  end.

Fixpoint collect_rows (fuel : nat) (buf : bytes) : M bytes :=
  match fuel with
  | O => se_fail Io
  | S fuel' =>
      p ← next_packet;
      let buf' := buf ++ fst p ++ snd p in
      if ends_rows (snd p) then mret buf' else collect_rows fuel' buf'
  end.

Definition collect_result_set (col_count_byte : Z) (buf : bytes) : M bytes :=
  buf ← collect_raw_packets (Z.to_nat col_count_byte) buf;
  buf ← collect_raw_packet buf;
  w ← se_get;
  collect_rows (S (length (input w))) buf.

Definition more_results (payload : bytes) : bool :=
  match ok_status_flags payload with
  | Some f => negb (Z.land f SERVER_MORE_RESULTS_EXISTS =? 0)
  | None => false
  end.

(** The loop of [collect_response]; a turn reads at least a header. *)
Fixpoint collect_loop (fuel : nat) (buf : bytes) : M bytes :=
  match fuel with
  | O => se_fail Io
  | S fuel' =>
      p ← next_packet;
      let payload := snd p in
      let buf := buf ++ fst p ++ payload in
      match payload with
      | [] => mret buf
      | b :: _ =>
          if b =? 255 then mret buf
          else if b =? 251 then mret buf
          else if b =? 0 then (if more_results payload then collect_loop fuel' buf else mret buf)
          else collect_result_set b buf
      end
  end.
Definition collect_response : M bytes :=
  w ← se_get; collect_loop (S (length (input w))) [].

Fixpoint collect_tracked_loop (fuel : nat) (buf : bytes) (acc : Tracked) : M (bytes * Tracked) :=
  match fuel with
  | O => se_fail Io
  | S fuel' =>
      p ← next_packet;
      let payload := snd p in
      let buf := buf ++ fst p ++ payload in
      match payload with
      | [] => mret (buf, acc)
      | b :: _ =>
          if b =? 255 then mret (buf, acc)
          else if b =? 251 then mret (buf, acc)
          else if b =? 0 then
            let acc := parse_ok_session_track payload acc in
            if more_results payload then collect_tracked_loop fuel' buf acc else mret (buf, acc)
          else buf ← collect_result_set b buf; mret (buf, acc)
      end
  end.
Definition collect_response_tracked : M (bytes * Tracked) :=
  w ← se_get; collect_tracked_loop (S (length (input w))) [] ([], None).

Definition collect_prepare_response : M bytes :=
  p ← next_packet;
  let payload := snd p in
  let buf := fst p ++ payload in
  if bool_decide (head payload = Some 255) then mret buf
  else if negb (bool_decide (head payload = Some 0)) || (length payload <? 12)%nat then mret buf
  else
    let num_columns := of_le [at_ payload 5; at_ payload 6] in
    let num_params := of_le [at_ payload 7; at_ payload 8] in
    buf ← (if 0 <? num_params then
             b ← collect_raw_packets (Z.to_nat num_params) buf; collect_raw_packet b
           else mret buf);
    if 0 <? num_columns then
      b ← collect_raw_packets (Z.to_nat num_columns) buf; collect_raw_packet b
    else mret buf.

(** ** Sending a command

    [BackendResponse], and the part of [execute_query] and [send_raw] after the command
    was written. *)

Record BackendResponse := {
  br_bytes : bytes;
  affected_rows : option Z;
  is_error : bool;
  session_changes : list (bytes * bytes);
  write_gtid : option bytes
}.

Definition backend_response (b : bytes) (t : Tracked) : BackendResponse :=
  {| br_bytes := b; affected_rows := None;
     is_error := bool_decide (b !! 4%nat = Some 255);
     session_changes := fst t; write_gtid := snd t |}.

Section Send.
Context `{CO : Compressor}.

Definition send_command (packet : bytes) : M unit :=
  upd_codec reset_sequence ;;
  buffer_packet packet ;;
  flush_maybe_compressed.

Definition execute_query (sql : bytes) : M BackendResponse :=
  send_command (3 :: sql) ;;
  r ← collect_response_tracked;
  mret (backend_response (fst r) (snd r)).

Definition send_raw (packet : bytes) : M BackendResponse :=
  send_command packet ;;
  r ← (if bool_decide (head packet = Some 22) then
         b ← collect_prepare_response; mret (b, ([], None))
       else collect_response_tracked);
  mret (backend_response (fst r) (snd r)).

Definition send_raw_no_response (packet : bytes) : M unit := send_command packet.

(** Writes without compression, whatever the connection negotiated. *)
Definition ping : M unit :=
  upd_codec reset_sequence ;;
  write_packet [7] ;;
  collect_response ≫= fun _ => mret tt.
End Send.

(** ** Length-encoded integers *)

Lemma byte_at_le2 v : [byte_at v 0; byte_at v 1] = to_le 2 v.
Proof. pose proof (byte_at_le3 v) as H. injection H as H0 H1 _. cbn [to_le]. by rewrite H0, H1. Qed.

Lemma of_le2 v : 0 <= v < 65536 -> of_le [byte_at v 0; byte_at v 1] = v.
Proof. intros H. rewrite byte_at_le2. apply of_to_le. simpl. lia. Qed.

Lemma encode_lenenc_range v : 0 <= v ->
  (v <= 250 /\ encode_lenenc v = [v]) \/
  (250 < v <= 65535 /\ encode_lenenc v = [252; byte_at v 0; byte_at v 1]) \/
  (65535 < v <= 16777215 /\ encode_lenenc v = [253; byte_at v 0; byte_at v 1; byte_at v 2]) \/
  (16777215 < v /\ exists t, encode_lenenc v = 254 :: t).
Proof.
  intros Hv. unfold encode_lenenc.
  destruct (v <=? 250) eqn:E1; bool_to_prop; [left; split; [lia|done]|].
  destruct (v <=? 65535) eqn:E2; bool_to_prop; [right; left; split; [lia|done]|].
  destruct (v <=? 16777215) eqn:E3; bool_to_prop; [right; right; left; split; [lia|done]|].
  right. right. right. split; [lia | eexists; reflexivity].
Qed.

(** A length-encoded integer below 2^24 is read back with the number of bytes it
    took, whatever follows; from 2^24 on the encoder writes nine bytes that the reader
    takes for the one-byte value zero. *)
Theorem lenenc_roundtrip v rest :
  0 <= v ->
  (v < 2 ^ 24 -> read_lenenc (encode_lenenc v ++ rest) = (v, length (encode_lenenc v)) /\
                 lenenc_size (default 0 (head (encode_lenenc v))) = length (encode_lenenc v)) /\
  (2 ^ 24 <= v -> read_lenenc (encode_lenenc v ++ rest) = (0, 1%nat)).
Proof.
  intros Hv. destruct (encode_lenenc_range v Hv) as [[H ->]|[[H ->]|[[H ->]|[H [t ->]]]]];
    cbn [app read_lenenc length head default]; (split; [|intros; try lia]); intros; try lia.
  - rewrite (proj2 (Z.leb_le v 250)) by lia. unfold lenenc_size. simpl.
    by rewrite (proj2 (Z.leb_le v 250)) by lia.
  - split; [|done]. cbn. f_equal. apply of_le2. lia.
  - split; [|done]. cbn. f_equal. exact (header_of_len v ltac:(lia) 0).
  - done.
Qed.

Lemma lenenc_roundtrip_witness :
  read_lenenc (encode_lenenc 300 ++ [9]) = (300, length (encode_lenenc 300)) /\
  read_lenenc (encode_lenenc (2 ^ 24) ++ []) = (0, 1%nat).
Proof.
  split.
  - apply (lenenc_roundtrip 300 [9]); lia.
  - apply (lenenc_roundtrip (2 ^ 24) []); lia.
Defined.

Lemma encode_lenenc_cons v : 0 <= v -> exists b t, encode_lenenc v = b :: t.
Proof.
  intros Hv. destruct (encode_lenenc_range v Hv) as [[? ->]|[[? ->]|[[? ->]|[? [t ->]]]]]; eauto.
Qed.

Lemma lookup_app_mid (p s r : bytes) b t i :
  s = b :: t -> i = length p -> (p ++ s ++ r) !! i = Some b.
Proof. intros -> ->. by rewrite lookup_app_r, Nat.sub_diag by lia. Qed.

(** What the flag parser sees of two encoded integers. *)
Lemma lenenc_skip p v r :
  0 <= v < 2 ^ 24 -> exists b, (p ++ encode_lenenc v ++ r) !! length p = Some b /\
    (length p + lenenc_size b)%nat = length (p ++ encode_lenenc v).
Proof.
  intros Hv. destruct (encode_lenenc_cons v ltac:(lia)) as (b & t & E). exists b. split.
  - by eapply lookup_app_mid.
  - pose proof (proj2 (proj1 (lenenc_roundtrip v [] ltac:(lia)) ltac:(lia))) as L.
    rewrite E in L. cbn [head default] in L. rewrite length_app, E. unfold id in L. by rewrite L.
Qed.

Lemma at_app_right p s i : at_ (p ++ s) (length p + i) = at_ s i.
Proof. unfold at_. rewrite lookup_app_r by lia. do 2 f_equal. lia. Qed.

(** The flags of an OK packet, with whatever text after the warnings. *)
Lemma ok_flags_of_packet rows insert_id status warnings info :
  0 <= rows < 2 ^ 24 -> 0 <= insert_id < 2 ^ 24 -> 0 <= status < 65536 ->
  ok_status_flags (encode_ok_packet rows insert_id status warnings ++ info) = Some status.
Proof.
  intros Hr Hi Hs. unfold ok_status_flags, encode_ok_packet. rewrite <- !app_assoc.
  rewrite bool_decide_true by done. cbn [negb].
  set (tail := [byte_at status 0; byte_at status 1; byte_at warnings 0; byte_at warnings 1] ++ info).
  destruct (lenenc_skip [0] rows (encode_lenenc insert_id ++ tail) Hr) as (b1 & H1 & L1).
  cbn [length] in H1, L1. rewrite H1, L1. cbv zeta.
  destruct (lenenc_skip ([0] ++ encode_lenenc rows) insert_id tail Hi) as (b2 & H2 & L2).
  rewrite <- !app_assoc in H2. rewrite H2, L2.
  set (p := ([0] ++ encode_lenenc rows) ++ encode_lenenc insert_id).
  replace ([0] ++ encode_lenenc rows ++ encode_lenenc insert_id ++ tail) with (p ++ tail)
    by (unfold p; by rewrite <- !app_assoc).
  rewrite (proj2 (Nat.ltb_ge _ _)) by (rewrite length_app; unfold tail; simpl; lia).
  rewrite <- (Nat.add_0_r (length p)) at 1. rewrite !at_app_right. f_equal.
  exact (of_le2 status Hs).
Qed.

(** The status flags of an OK packet the proxy builds are the ones it is given, for
    row counts and insert ids below 2^24. *)
Theorem ok_flags_roundtrip rows insert_id status warnings :
  0 <= rows < 2 ^ 24 -> 0 <= insert_id < 2 ^ 24 -> 0 <= status < 65536 ->
  ok_status_flags (encode_ok_packet rows insert_id status warnings) = Some status.
Proof. intros. rewrite <- (app_nil_r (encode_ok_packet _ _ _ _)). by apply ok_flags_of_packet. Qed.

Lemma ok_flags_roundtrip_witness :
  ok_status_flags (encode_ok_packet 70000 300 (SERVER_STATUS_AUTOCOMMIT + SERVER_MORE_RESULTS_EXISTS) 0)
  = Some 10.
Proof. apply (ok_flags_roundtrip 70000 300 10 0); lia. Defined.

(** With more rows the flags read are bytes of the count. *)
Example ok_flags_misread :
  ok_status_flags (encode_ok_packet (2 ^ 24 + 8) 0 SERVER_STATUS_AUTOCOMMIT 0) = Some 0 /\
  more_results (encode_ok_packet (2 ^ 24 + 2048) 0 SERVER_STATUS_AUTOCOMMIT 0) = true.
Proof. vm_compute. done. Qed.

(** ** What the collector takes at once *)

Definition fits (p : bytes) : Prop := Z.of_nat (length p) < 2 ^ 24.

(** A sequence of packets, each with the sequence number it happens to have. *)
Definition packets (ps : list (Z * bytes)) : bytes :=
  concat (map (fun sp => framed_packet (fst sp) (snd sp)) ps).

(** The shapes the loop runs through to its end; what a response is, is said below without
    them. *)
Inductive taken_whole : bytes -> Prop :=
| whole_single seq p :
    fits p -> head p = None \/ head p = Some 255 \/ head p = Some 251 \/
              head p = Some 0 /\ more_results p = false ->
    taken_whole (framed_packet seq p)
| whole_more seq p r :
    fits p -> head p = Some 0 -> more_results p = true -> taken_whole r ->
    taken_whole (framed_packet seq p ++ r)
| whole_set seq n t defs eof rows seql pl :
    fits (n :: t) -> 1 <= n <= 250 ->
    length defs = Z.to_nat n -> Forall (fun sp => fits (snd sp)) (defs ++ [eof] ++ rows) ->
    Forall (fun sp => ends_rows (snd sp) = false) rows ->
    fits pl -> ends_rows pl = true ->
    taken_whole (framed_packet seq (n :: t) ++ packets (defs ++ [eof]) ++ packets rows
              ++ framed_packet seql pl).

Lemma next_packet_app w seq p rest :
  fits p -> input w = framed_packet seq p ++ rest ->
  next_packet w = (Ok (header_of (Z.of_nat (length p)) seq, p), with_input rest w).
Proof.
  intros Hf Hi. unfold framed_packet in Hi. rewrite <- app_assoc in Hi. unfold next_packet.
  erewrite bind_ok by (by apply (read_exact_app 4 w _ _ Hi)).
  unfold u24_le. rewrite header_of_len by (unfold fits in Hf; lia). rewrite Nat2Z.id.
  erewrite bind_ok by (by apply (read_exact_app (length p) _ p rest)). done.
Qed.

Lemma collect_raw_packet_app buf w seq p rest :
  fits p -> input w = framed_packet seq p ++ rest ->
  collect_raw_packet buf w = (Ok (buf ++ framed_packet seq p), with_input rest w).
Proof.
  intros Hf Hi. unfold collect_raw_packet.
  erewrite bind_ok by (by apply next_packet_app). done.
Qed.

Lemma packets_cons sp ps : packets (sp :: ps) = framed_packet (fst sp) (snd sp) ++ packets ps.
Proof. done. Qed.

Lemma packets_app ps qs : packets (ps ++ qs) = packets ps ++ packets qs.
Proof. unfold packets. by rewrite map_app, concat_app. Qed.

Lemma collect_raw_packets_app ps buf w rest :
  Forall (fun sp => fits (snd sp)) ps -> input w = packets ps ++ rest ->
  collect_raw_packets (length ps) buf w = (Ok (buf ++ packets ps), with_input rest w).
Proof.
  intros Hps. revert buf w. induction Hps as [|[s p] ps Hp Hps IH]; intros buf w Hi.
  - cbn in *. rewrite app_nil_r. destruct w; cbn in *. by subst.
  - rewrite packets_cons in *. cbn [fst snd] in *. rewrite <- app_assoc in Hi.
    cbn [length collect_raw_packets].
    erewrite bind_ok by (by apply (collect_raw_packet_app buf w s p (packets ps ++ rest))).
    erewrite IH by done. by rewrite app_assoc.
Qed.

Lemma framed_length seq p : length (framed_packet seq p) = (4 + length p)%nat.
Proof. done. Qed.

Lemma collect_rows_app fuel buf w rows seql pl rest :
  Forall (fun sp => fits (snd sp)) rows -> Forall (fun sp => ends_rows (snd sp) = false) rows ->
  fits pl -> ends_rows pl = true ->
  input w = packets rows ++ framed_packet seql pl ++ rest -> (length rows < fuel)%nat ->
  collect_rows fuel buf w
  = (Ok (buf ++ packets rows ++ framed_packet seql pl), with_input rest w).
Proof.
  intros Hf He Hfl Hel. revert fuel buf w.
  induction Hf as [|[s p] rows Hp Hf IH]; intros fuel buf w Hi Hl;
    (destruct fuel as [|fuel]; [lia|]); cbn [collect_rows].
  - cbn [packets map concat app] in *. erewrite bind_ok by (by apply next_packet_app).
    cbn [snd]. rewrite Hel. done.
  - rewrite packets_cons in *. cbn [fst snd] in *. rewrite <- app_assoc in Hi.
    erewrite bind_ok by (by apply (next_packet_app w s p)). cbn [snd fst].
    inversion He as [|? ? He1 He2]; subst. cbn [snd] in He1. rewrite He1.
    rewrite (IH He2 fuel _ (with_input _ w)); [|done | simpl in Hl; lia].
    f_equal. f_equal. unfold framed_packet at 2. by rewrite <- !app_assoc.
Qed.

Lemma packets_length ps : (length ps <= length (packets ps))%nat.
Proof.
  induction ps as [|[s p] ps IH]; [done|]. rewrite packets_cons, length_app, framed_length.
  simpl. lia.
Qed.

Lemma collect_result_set_app n buf w defs eof rows seql pl rest :
  length defs = Z.to_nat n -> Forall (fun sp => fits (snd sp)) (defs ++ [eof] ++ rows) ->
  Forall (fun sp => ends_rows (snd sp) = false) rows -> fits pl -> ends_rows pl = true ->
  input w = packets (defs ++ [eof]) ++ packets rows ++ framed_packet seql pl ++ rest ->
  collect_result_set n buf w
  = (Ok (buf ++ packets (defs ++ [eof]) ++ packets rows ++ framed_packet seql pl), with_input rest w).
Proof.
  intros Hn Hf He Hfl Hel Hi. rewrite !Forall_app in Hf. destruct Hf as (Hf1 & Hf2 & Hf3).
  rewrite packets_app, <- app_assoc in Hi. unfold collect_result_set. rewrite <- Hn.
  destruct eof as [se pe]. inversion Hf2 as [|? ? Hpe _]; subst.
  replace (packets [(se, pe)]) with (framed_packet se pe) in Hi by (by cbn; rewrite app_nil_r).
  erewrite bind_ok by (by apply collect_raw_packets_app).
  erewrite bind_ok by (by apply (collect_raw_packet_app _ _ se pe)).
  erewrite bind_ok by reflexivity.
  rewrite (collect_rows_app _ _ _ rows seql pl rest); [|done..|].
  - rewrite packets_app. replace (packets [(se, pe)]) with (framed_packet se pe)
      by (by cbn; rewrite app_nil_r). by rewrite <- !app_assoc.
  - cbn [input with_input]. rewrite !length_app. pose proof (packets_length rows). lia.
Qed.

Lemma collect_loop_app fuel r buf w rest :
  taken_whole r -> input w = r ++ rest -> (length r < fuel)%nat ->
  collect_loop fuel buf w = (Ok (buf ++ r), with_input rest w).
Proof.
  intros Hr. revert fuel buf w. induction Hr as [seq p Hf Hh | seq p r Hf Hh Hm Hr IH |
    seq n t defs eof rows seql pl Hf Hn Hd Hfs He Hfl Hel]; intros fuel buf w Hi Hl;
    (destruct fuel as [|fuel]; [lia|]); cbn [collect_loop].
  - erewrite bind_ok by (by apply next_packet_app). cbn [snd fst].
    destruct p as [|b p]; [reflexivity|]. simpl in Hh.
    destruct Hh as [?|[[= ->]|[[= ->]|[[= ->] Hm]]]]; [done|reflexivity|reflexivity|].
    cbn [Z.eqb]. by rewrite Hm.
  - rewrite <- app_assoc in Hi. erewrite bind_ok by (by apply next_packet_app). cbn [snd fst].
    destruct p as [|b p]; [done|]. simpl in Hh. injection Hh as ->. cbn. rewrite Hm.
    rewrite (IH fuel _ (with_input _ w)); [|done|].
    + unfold framed_packet. by rewrite <- !app_assoc.
    + rewrite length_app, framed_length in Hl. lia.
  - rewrite <- !app_assoc in Hi. erewrite bind_ok by (by apply (next_packet_app w seq (n :: t))).
    cbn [snd fst]. rewrite (proj2 (Z.eqb_neq n 255)), (proj2 (Z.eqb_neq n 251)), (proj2 (Z.eqb_neq n 0)) by lia.
    rewrite (collect_result_set_app n _ _ defs eof rows seql pl rest) by done. f_equal. f_equal.
    unfold framed_packet. by rewrite <- !app_assoc.
Qed.

Lemma collect_takes_whole r w rest :
  taken_whole r -> input w = r ++ rest ->
  collect_response w = (Ok r, with_input rest w).
Proof.
  intros Hr Hi. unfold collect_response. erewrite bind_ok by reflexivity.
  rewrite (collect_loop_app _ r [] w rest Hr Hi); [done|]. rewrite Hi, length_app. lia.
Qed.

(** ** What a response is

    The answer of a server to a command, as the protocol documents it and independently of
    the collector: one result after another, each an error, a request for a local file, an OK
    or a result set; every one but the last announces with SERVER_MORE_RESULTS_EXISTS (bit 3
    of its status) that another follows, and nothing follows an error or a request. *)
Module Protocol.

Definition lenenc_int (v : Z) : bytes :=
  if v <? 251 then [v]
  else if v <? 2 ^ 16 then 252 :: to_le 2 v
  else if v <? 2 ^ 24 then 253 :: to_le 3 v
  else 254 :: to_le 8 v.
Definition lenenc_str (s : bytes) : bytes := lenenc_int (Z.of_nat (length s)) ++ s.

(** A row of the text protocol (a field is NULL or a text), or of the binary one. *)
Inductive Row := TextRow (fields : list (option bytes)) | BinaryRow (body : bytes).
Inductive RowsEnd := EofEnd (warnings status : Z) | ErrEnd (body : bytes).
(** The status flags here are those besides the announcement. *)
Inductive Result :=
| ErrResult (body : bytes)
| InfileResult (name : bytes)
| OkResult (affected insert_id status warnings : Z) (info : bytes)
| SetResult (definitions : list bytes) (warnings status : Z) (rows : list Row) (end_ : RowsEnd).

Definition row_payload (r : Row) : bytes :=
  match r with
  | TextRow fields => concat (map (fun f => match f with None => [251] | Some s => lenenc_str s end) fields)
  | BinaryRow body => 0 :: body
  end.
Definition flags (more : bool) (status : Z) : bytes := to_le 2 (if more then status + 8 else status).
Definition eof (more : bool) (warnings status : Z) : bytes := 254 :: to_le 2 warnings ++ flags more status.
Definition end_payload (more : bool) (e : RowsEnd) : bytes :=
  match e with EofEnd warnings status => eof more warnings status | ErrEnd body => 255 :: body end.
Definition payloads (more : bool) (r : Result) : list bytes :=
  match r with
  | ErrResult body => [255 :: body]
  | InfileResult name => [251 :: name]
  | OkResult affected insert_id status warnings info =>
      [0 :: lenenc_int affected ++ lenenc_int insert_id ++ flags more status ++ to_le 2 warnings ++ info]
  | SetResult definitions warnings status rows end_ =>
      lenenc_int (Z.of_nat (length definitions)) :: definitions ++ [eof false warnings status]
      ++ map row_payload rows ++ [end_payload more end_]
  end.
(** The packets of a response, the announcements in place, and as they are numbered on the wire. *)
Fixpoint answer (rs : list Result) : list bytes :=
  match rs with
  | [] => []
  | r :: rs' => payloads (negb (bool_decide (rs' = []))) r ++ answer rs'
  end.
Definition next_seq (seq : Z) : Z := (seq + 1) mod 256.
Fixpoint numbered (seq : Z) (ps : list bytes) : list (Z * bytes) :=
  match ps with [] => [] | p :: ps' => (seq, p) :: numbered (next_seq seq) ps' end.
Definition frame (seq : Z) (ps : list bytes) : bytes := packets (numbered seq ps).
Definition seq_after (seq : Z) (ps : list bytes) : Z := foldl (fun seq _ => next_seq seq) seq ps.

(** A result that others may follow. *)
Definition goes_on (r : Result) : bool :=
  match r with
  | OkResult _ _ _ _ _ | SetResult _ _ _ _ (EofEnd _ _) => true
  | _ => false
  end.
Definition is_ok (r : Result) : bool := match r with OkResult _ _ _ _ _ => true | _ => false end.

(** What the proxy can read: packets that are not split, at most 250 columns, and counts of
    rows and insert ids below 2^24 (see [ok_flags_misread]). *)
Definition plain_status (v : Z) : Prop := 0 <= v < 2 ^ 16 /\ Z.testbit v 3 = false.
Definition row_fits (columns : nat) (r : Row) : Prop :=
  fits (row_payload r) /\ match r with TextRow fields => length fields = columns | BinaryRow _ => True end.
Definition result_fits (r : Result) : Prop :=
  Forall fits (payloads false r) /\
  match r with
  | OkResult affected insert_id status _ _ => 0 <= affected < 2 ^ 24 /\ 0 <= insert_id < 2 ^ 24 /\ plain_status status
  | SetResult definitions _ _ rows _ =>
      (1 <= length definitions <= 250)%nat /\ Forall (row_fits (length definitions)) rows
  | _ => True
  end.
(** A response: at least one result, and each that another follows is one that may be followed. *)
Definition response (rs : list Result) : Prop :=
  rs <> [] /\ Forall (fun r => goes_on r = true) (removelast rs) /\ Forall result_fits rs.

Lemma lenenc_encoded v : 0 <= v < 2 ^ 24 -> lenenc_int v = encode_lenenc v.
Proof.
  intros Hv. unfold lenenc_int. destruct (encode_lenenc_range v ltac:(lia)) as [[H ->]|[[H ->]|[[H ->]|[H _]]]]; [..|lia].
  - by rewrite (proj2 (Z.ltb_lt _ _)) by lia.
  - rewrite (proj2 (Z.ltb_ge _ _)), (proj2 (Z.ltb_lt _ _)) by lia. by rewrite byte_at_le2.
  - rewrite (proj2 (Z.ltb_ge _ _)), (proj2 (Z.ltb_ge _ _)), (proj2 (Z.ltb_lt _ _)) by lia. by rewrite byte_at_le3.
Qed.
Lemma lenenc_head v : 0 <= v < 2 ^ 24 -> exists b t, lenenc_int v = b :: t /\ b < 254 /\ 0 <= b.
Proof.
  intros Hv. rewrite lenenc_encoded by done.
  destruct (encode_lenenc_range v ltac:(lia)) as [[H ->]|[[H ->]|[[H ->]|[H _]]]]; [..|lia]; do 2 eexists; (split; [done | lia]).
Qed.

(** No row looks like the end of the rows. *)
Lemma row_goes_on n r : (1 <= n)%nat -> row_fits n r -> ends_rows (row_payload r) = false.
Proof.
  intros Hn [Hf Hr]. destruct r as [[|f fields]|body]; [cbn in Hr; lia| |done]. unfold fits in Hf. cbn [row_payload map concat] in *.
  assert (exists b t, match f with None => [251] | Some s => lenenc_str s end = b :: t /\ b < 254) as (b & t & -> & Hb).
  { destruct f as [s|]; [|by exists 251, []]. unfold lenenc_str in *. rewrite !length_app in Hf.
    destruct (lenenc_head (Z.of_nat (length s)) ltac:(lia)) as (b & t & -> & Hb & _). exists b, (t ++ s). by split; [|lia]. }
  cbn [app ends_rows]. rewrite (proj2 (Z.eqb_neq b 254)), (proj2 (Z.eqb_neq b 255)) by lia. done.
Qed.
Lemma eof_ends more w s : ends_rows (eof more w s) = true.
Proof. done. Qed.
Lemma end_ends more e : ends_rows (end_payload more e) = true.
Proof. destruct e; [apply eof_ends | done]. Qed.
Lemma end_fits more e : fits (end_payload false e) -> fits (end_payload more e).
Proof. by destruct e. Qed.

(** The announcement is what the collector reads. *)
Lemma flags_range (more : bool) status : plain_status status -> 0 <= (if more then status + 8 else status) < 2 ^ 16.
Proof.
  intros [H Ht]. apply Z.testbit_false in Ht; [|lia]. change (2 ^ 3) with 8 in Ht. change (2 ^ 16) with 65536 in *. destruct more; [|lia].
  assert (status <> 65528 /\ status <> 65529 /\ status <> 65530 /\ status <> 65531 /\ status <> 65532 /\ status <> 65533
    /\ status <> 65534 /\ status <> 65535) by (split_and!; intros ->; done).
  lia.
Qed.
Lemma ok_announces more a i status w info :
  0 <= a < 2 ^ 24 -> 0 <= i < 2 ^ 24 -> plain_status status ->
  more_results (0 :: lenenc_int a ++ lenenc_int i ++ flags more status ++ to_le 2 w ++ info) = more.
Proof.
  intros Ha Hi Hs. pose proof (flags_range more status Hs) as Hr. unfold more_results, flags. rewrite !lenenc_encoded, <- !byte_at_le2 by done.
  set (st := if more then status + 8 else status) in *.
  replace (0 :: encode_lenenc a ++ encode_lenenc i ++ [byte_at st 0; byte_at st 1] ++ [byte_at w 0; byte_at w 1] ++ info)
    with (encode_ok_packet a i st w ++ info) by (unfold encode_ok_packet; cbn [app]; by rewrite <- !app_assoc).
  rewrite ok_flags_of_packet by done. destruct Hs as [Hs Ht]. unfold SERVER_MORE_RESULTS_EXISTS, st.
  destruct more; [apply negb_true_iff, Z.eqb_neq | apply negb_false_iff, Z.eqb_eq].
  - intros E. apply Z.testbit_false in Ht; [|lia]. assert (Z.testbit (Z.land (status + 8) 8) 3 = true) as E2; [|by rewrite E in E2].
    rewrite Z.land_spec. replace (Z.testbit 8 3) with true by done. rewrite andb_true_r. apply Z.testbit_true; [lia|].
    change (2 ^ 3) with 8 in *. replace (status + 8) with (status + 1 * 8) by lia. rewrite Z.div_add by lia.
    rewrite <- Zplus_mod_idemp_l, Ht. done.
  - apply Z.bits_inj'. intros n Hn. rewrite Z.land_spec, Z.bits_0. change 8 with (2 ^ 3). rewrite Z.pow2_bits_eqb by lia.
    destruct (3 =? n) eqn:E; [|apply andb_false_r]. bool_to_prop. subst. by rewrite Ht.
Qed.

(** ** Numbered packets *)

Lemma numbered_app seq ps qs : numbered seq (ps ++ qs) = numbered seq ps ++ numbered (seq_after seq ps) qs.
Proof. revert seq. induction ps as [|p ps IH]; intros seq; [done|]. cbn. by rewrite IH. Qed.
Lemma frame_app seq ps qs : frame seq (ps ++ qs) = frame seq ps ++ frame (seq_after seq ps) qs.
Proof. unfold frame. by rewrite numbered_app, packets_app. Qed.
Lemma frame_cons seq p ps : frame seq (p :: ps) = framed_packet seq p ++ frame (next_seq seq) ps.
Proof. done. Qed.
Lemma frame_one seq p : frame seq [p] = framed_packet seq p.
Proof. unfold frame, packets. cbn [numbered map concat fst snd]. apply app_nil_r. Qed.
Lemma numbered_length seq ps : length (numbered seq ps) = length ps.
Proof. revert seq. induction ps as [|p ps IH]; intros seq; [done|]. cbn. by rewrite IH. Qed.
Lemma numbered_forall (P : bytes -> Prop) seq ps : Forall P ps -> Forall (fun sp => P (snd sp)) (numbered seq ps).
Proof. intros H. revert seq. induction H; intros seq; constructor; auto. Qed.

(** A result that nothing more is announced by, or that is not an OK, ends the collecting. *)
Lemma payloads_whole seq more r : result_fits r -> more = false \/ is_ok r = false ->
  taken_whole (frame seq (payloads more r)).
Proof.
  intros [Hf Hr] Hm. destruct r as [body|name|a i status w info|defs w status rows e]; cbn [payloads] in *.
  - rewrite frame_one. inversion Hf; subst. apply whole_single; auto.
  - rewrite frame_one. inversion Hf; subst. apply whole_single; auto.
  - destruct Hm as [->|]; [|done]. destruct Hr as (Ha & Hi & Hs). rewrite frame_one. inversion Hf; subst. apply whole_single; [done|].
    do 3 right. split; [done|]. by apply ok_announces.
  - destruct Hr as [Hn Hrows]. set (n := Z.of_nat (length defs)) in *.
    assert (lenenc_int n = [n]) as En by (unfold lenenc_int; by rewrite (proj2 (Z.ltb_lt _ _)) by lia). rewrite En in *.
    rewrite frame_cons.
    replace (defs ++ [eof false w status] ++ map row_payload rows ++ [end_payload more e])
      with ((defs ++ [eof false w status]) ++ map row_payload rows ++ [end_payload more e]) by (by rewrite <- app_assoc).
    rewrite !frame_app, !frame_one. set (k := next_seq seq).
    replace (frame k defs ++ framed_packet (seq_after k defs) (eof false w status))
      with (packets (numbered k defs ++ [(seq_after k defs, eof false w status)])) by (by rewrite packets_app, <- frame_one).
    apply Forall_cons_1 in Hf as [Hf1 Hf]. rewrite !Forall_app in Hf. destruct Hf as (Hf2 & Hf3 & Hf4 & Hf5).
    inversion Hf3; subst. inversion Hf5; subst.
    apply whole_set; [done | lia | | | | by apply end_fits | apply end_ends].
    + rewrite numbered_length. lia.
    + rewrite !Forall_app. split_and!; [by apply numbered_forall | by repeat constructor | by apply numbered_forall].
    + apply (numbered_forall (fun p => ends_rows p = false)). apply Forall_map. eapply Forall_impl; [|exact Hrows]. intros r. apply row_goes_on. lia.
Qed.

(** The results up to the first that is not an OK, or to the last. *)
Lemma oks_whole oks r left seq : forallb is_ok oks = true -> left = [] \/ is_ok r = false ->
  Forall result_fits (oks ++ [r]) ->
  exists first, answer (oks ++ r :: left) = first ++ answer left /\ taken_whole (frame seq first).
Proof.
  intros Ho Hl. revert seq. induction oks as [|k oks IH]; intros seq Hf; cbn [app] in *.
  - eexists. split; [reflexivity|]. inversion Hf; subst. apply payloads_whole; [done|].
    destruct Hl as [->|Hl]; [by left | by right].
  - cbn [forallb] in Ho. apply andb_true_iff in Ho as [Hk Ho]. inversion Hf as [|? ? Hf1 Hf2]; subst.
    destruct k as [| |a i status w info|]; try done. destruct Hf1 as [Hf1 (Ha & Hi & Hs)]. cbn [answer payloads] in *.
    rewrite bool_decide_false by (by destruct oks). cbn [negb].
    destruct (IH Ho (next_seq seq) Hf2) as (first & E & Hw). rewrite E. eexists. split; [by rewrite app_assoc|]. cbn [app].
    rewrite frame_cons. inversion Hf1 as [|? ? Hfit _]; subst. apply whole_more; [|done|by apply ok_announces|done].
    unfold fits, flags in *. cbn [length] in *. rewrite !length_app, !to_le_length in *. exact Hfit.
Qed.

Lemma collect_up_to oks r left rest w seq :
  forallb is_ok oks = true -> left = [] \/ is_ok r = false -> Forall result_fits (oks ++ [r]) ->
  input w = frame seq (answer (oks ++ r :: left)) ++ rest ->
  exists first, answer (oks ++ r :: left) = first ++ answer left /\
    collect_response w = (Ok (frame seq first), with_input (frame (seq_after seq first) (answer left) ++ rest) w).
Proof.
  intros Ho Hl Hf Hi. destruct (oks_whole oks r left seq Ho Hl Hf) as (first & E & Hw). exists first. split; [done|].
  apply collect_takes_whole; [done|]. by rewrite Hi, E, frame_app, app_assoc.
Qed.


(** After a result set the collector stops even when the server announces another result:
    the rest of the answer to a multi-statement query stays in the stream and is taken for
    the answer to the next command. *)
Theorem second_result_set_left oks defs w0 status rows e left rest w seq :
  let rs := oks ++ SetResult defs w0 status rows e :: left in
  response rs -> forallb is_ok oks = true -> left <> [] -> input w = frame seq (answer rs) ++ rest ->
  exists first, answer rs = first ++ answer left /\ answer left <> [] /\
    collect_response w = (Ok (frame seq first), with_input (frame (seq_after seq first) (answer left) ++ rest) w).
Proof.
  intros rs (_ & _ & Hf) Ho Hl Hi. unfold rs in *.
  destruct (collect_up_to oks (SetResult defs w0 status rows e) left rest w seq Ho (or_intror eq_refl)) as (first & E & Hc).
  - rewrite Forall_app in *. destruct Hf as [H1 H2]. split; [done|]. inversion H2; subst. by constructor.
  - done.
  - exists first. split_and!; [done| |done]. destruct left as [|r left]; [done|]. cbn [answer]. by destruct r.
Qed.

(** Two OKs and a result set; and two result sets. *)
Definition demo_set : Result := SetResult [bs "def"; bs "def"] 0 2 [TextRow [Some (bs "A"); None]; TextRow [None; Some []]] (EofEnd 0 2).
Definition demo_ok : Result := OkResult 300 7 2 0 (bs "done").
Ltac decide_fits := repeat first [constructor | lia | done | (vm_compute; (reflexivity || congruence))].
Lemma demo_results_fit : result_fits demo_set /\ result_fits demo_ok.
Proof. decide_fits. Qed.

Lemma second_result_set_left_witness :
  let w := {| codec := new; input := frame 1 (answer [demo_set; demo_ok]); output := [] |} in
  exists first, collect_response w = (Ok first, with_input (frame 8 (answer [demo_ok])) w).
Proof.
  intros w. destruct (second_result_set_left [] [bs "def"; bs "def"] 0 2 [TextRow [Some (bs "A"); None]; TextRow [None; Some []]]
    (EofEnd 0 2) [demo_ok] [] w 1) as (first & E & _ & Hc); [|done..|].
  - destruct demo_results_fit. split_and!; [done | by repeat constructor | by repeat constructor].
  - exists (frame 1 first). rewrite Hc. symmetry in E.
    apply (app_inv_tail (answer [demo_ok]) first (payloads true demo_set)) in E.
    subst first. by rewrite app_nil_r.
Defined.
End Protocol.

Definition demo_eof (status : Z) : bytes := [254; 0; 0; byte_at status 0; byte_at status 1].

Lemma tracked_loop_same fuel buf acc w :
  match collect_loop fuel buf w with
  | (Ok b, w') => exists t, collect_tracked_loop fuel buf acc w = (Ok (b, t), w')
  | (Err e, w') => collect_tracked_loop fuel buf acc w = (Err e, w')
  end.
Proof.
  revert buf acc w. induction fuel as [|fuel IH]; intros buf acc w; [done|].
  cbn [collect_loop collect_tracked_loop]. unfold mbind, se_bind.
  destruct (next_packet w) as [[[h p]|e] w1]; [|done]. cbn [snd fst].
  destruct p as [|b p]; [by exists acc|].
  destruct (b =? 255); [by exists acc|]. destruct (b =? 251); [by exists acc|].
  destruct (b =? 0).
  - destruct (more_results (b :: p)); [apply IH | by eexists].
  - destruct (collect_result_set _ _ w1) as [[b2|e] w2]; [by exists acc | done].
Qed.

(** The tracking collector reads what the plain one reads: same bytes, same stream
    position, same errors. *)
Theorem tracked_reads_the_same w :
  match collect_response w with
  | (Ok b, w') => exists t, collect_response_tracked w = (Ok (b, t), w')
  | (Err e, w') => collect_response_tracked w = (Err e, w')
  end.
Proof.
  unfold collect_response, collect_response_tracked.
  pose proof (tracked_loop_same (S (length (input w))) [] ([], None) w) as H.
  unfold mbind, se_bind, se_get. exact H.
Qed.

(** ** The session-track section *)

Lemma read_lenenc_at p v r :
  0 <= v < 2 ^ 24 ->
  read_lenenc (drop (length p) (p ++ encode_lenenc v ++ r)) = (v, length (encode_lenenc v)).
Proof. intros Hv. rewrite drop_app_length. apply lenenc_roundtrip; lia. Qed.

(** The part of an OK packet in front of the session state. *)
Definition ok_prefix (rows insert_id status warnings : Z) : bytes :=
  encode_ok_packet rows insert_id status warnings.

Lemma parse_prefix rows insert_id status warnings tail acc :
  0 <= rows < 2 ^ 24 -> 0 <= insert_id < 2 ^ 24 -> 0 <= status < 65536 ->
  let pre := ok_prefix rows insert_id status warnings in
  parse_ok_session_track (pre ++ tail) acc =
  if Z.land status SERVER_SESSION_STATE_CHANGED =? 0 then acc
  else match tail with
  | [] => acc
  | _ =>
      let (session_len, n) := read_lenenc tail in
      let pos := (length pre + n)%nat in
      let end_ := (pos + Z.to_nat session_len)%nat in
      if (length (pre ++ tail) <? end_)%nat then acc
      else track_blocks (length (pre ++ tail)) (pre ++ tail) pos end_ acc
  end.
Proof.
  intros Hr Hi Hs pre. unfold parse_ok_session_track.
  rewrite bool_decide_true by done. cbn [negb].
  set (flags := [byte_at status 0; byte_at status 1; byte_at warnings 0; byte_at warnings 1]).
  assert (pre ++ tail = [0] ++ encode_lenenc rows ++ (encode_lenenc insert_id ++ flags ++ tail)) as E1.
  { unfold pre, ok_prefix, encode_ok_packet. fold flags. by rewrite <- !app_assoc. }
  assert (pre ++ tail = ([0] ++ encode_lenenc rows) ++ encode_lenenc insert_id ++ (flags ++ tail)) as E2.
  { rewrite E1. by rewrite <- !app_assoc. }
  assert (length pre = length (([0%Z] ++ encode_lenenc rows) ++ encode_lenenc insert_id) + 4)%nat as Hlp.
  { unfold pre, ok_prefix, encode_ok_packet. fold flags. rewrite !length_app. simpl. lia. }
  pose proof (read_lenenc_at [0] rows (encode_lenenc insert_id ++ flags ++ tail) Hr) as R1.
  rewrite <- E1 in R1. cbn [length] in R1. rewrite R1. cbv zeta.
  rewrite (proj2 (Nat.leb_gt _ _)) by (rewrite E2, !length_app; simpl; lia).
  pose proof (read_lenenc_at ([0] ++ encode_lenenc rows) insert_id (flags ++ tail) Hi) as R2.
  rewrite <- E2, length_app in R2. cbn [length] in R2.
  rewrite R2. rewrite (proj2 (Nat.ltb_ge _ _)) by (rewrite E2, !length_app; simpl; lia).
  set (q := ([0] ++ encode_lenenc rows) ++ encode_lenenc insert_id) in *.
  replace (1 + length (encode_lenenc rows) + length (encode_lenenc insert_id))%nat with (length q)
    by (unfold q; rewrite !length_app; simpl; lia).
  assert (pre ++ tail = q ++ flags ++ tail) as E3 by (rewrite E2; unfold q; by rewrite <- !app_assoc).
  rewrite E3 at 1 2. rewrite <- (Nat.add_0_r (length q)) at 1. rewrite !at_app_right.
  change (of_le [at_ (flags ++ tail) 0; at_ (flags ++ tail) 1]) with (of_le [byte_at status 0; byte_at status 1]).
  rewrite of_le2 by done. destruct (_ =? 0); [done|].
  rewrite <- Hlp. destruct tail as [|b tail].
  - rewrite (proj2 (Nat.leb_le _ _)) by (rewrite app_nil_r; lia). done.
  - rewrite (proj2 (Nat.leb_gt _ _)) by (rewrite length_app; simpl; lia).
    by rewrite drop_app_length.
Qed.

(** A server that speaks the documented OK layout puts the (length-encoded) info
    text between the warnings and the session state; the parser takes it for the length
    of the session state, so with the usual empty text nothing is ever tracked. *)
Theorem info_string_hides_tracking rows insert_id status warnings blocks acc :
  0 <= rows < 2 ^ 24 -> 0 <= insert_id < 2 ^ 24 -> 0 <= status < 65536 ->
  parse_ok_session_track (ok_prefix rows insert_id status warnings ++ encode_lenenc 0 ++ blocks) acc = acc.
Proof.
  intros Hr Hi Hs. rewrite parse_prefix by done. destruct (_ =? 0); [done|].
  cbn [encode_lenenc Z.leb Z.compare app read_lenenc].
  rewrite Nat.add_0_r. case_match; [done|]. rewrite length_app. cbn [length Nat.add].
  rewrite Nat.add_succ_r. cbn [track_blocks]. by rewrite (proj2 (Nat.leb_le _ _)).
Qed.

Lemma info_string_hides_tracking_witness :
  parse_ok_session_track (ok_prefix 1 0 (SERVER_SESSION_STATE_CHANGED + 2) 0 ++ encode_lenenc 0
    ++ [9; 3; 7; 0; 5] ++ bs "uuid:") ([], None) = ([], None).
Proof. apply (info_string_hides_tracking 1 0 (SERVER_SESSION_STATE_CHANGED + 2) 0); vm_compute; intuition congruence. Defined.

(** One block of the section. *)
Definition track_block (ty : Z) (data : bytes) : bytes :=
  ty :: encode_lenenc (Z.of_nat (length data)) ++ data.

Definition lenenc_text (s : bytes) : bytes := encode_lenenc (Z.of_nat (length s)) ++ s.
Definition encode_variables (vs : list (bytes * bytes)) : bytes :=
  concat (map (fun nv => lenenc_text (fst nv) ++ lenenc_text (snd nv)) vs).

Definition text (s : bytes) : Prop := utf8_valid s = true /\ fits s.

Lemma slice_app p s r : slice (p ++ s ++ r) (length p) (length p + length s) = s.
Proof.
  unfold slice. rewrite drop_app_length.
  replace (length p + length s - length p)%nat with (length s) by lia. apply take_app_length.
Qed.

Lemma track_variables_encoded fuel p vs r :
  Forall (fun nv => text (fst nv) /\ text (snd nv)) vs -> (length vs < fuel)%nat ->
  track_variables fuel (p ++ encode_variables vs ++ r) (length p)
    (length p + length (encode_variables vs)) = vs.
Proof.
  intros Hvs. revert fuel p. induction Hvs as [|[n v] vs [[Hn1 Hn2] [Hv1 Hv2]] Hvs IH]; intros fuel p Hf;
    (destruct fuel as [|fuel]; [simpl in Hf; lia|]); cbn [track_variables].
  - rewrite (proj2 (Nat.leb_le _ _)) by (simpl; lia). done.
  - cbn [fst snd] in *. unfold fits in *.
    set (En := encode_lenenc (Z.of_nat (length n))). set (Ev := encode_lenenc (Z.of_nat (length v))).
    assert (encode_variables ((n, v) :: vs) = En ++ n ++ Ev ++ v ++ encode_variables vs) as E.
    { unfold encode_variables, lenenc_text. cbn [map concat fst snd]. fold En Ev. by rewrite <- !app_assoc. }
    rewrite E. destruct (encode_lenenc_cons (Z.of_nat (length n)) ltac:(lia)) as (b & t & Hb).
    rewrite (proj2 (Nat.leb_gt _ _)) by (rewrite !length_app; unfold En; rewrite Hb; simpl; lia).
    rewrite <- !app_assoc.
    pose proof (read_lenenc_at p (Z.of_nat (length n)) (n ++ Ev ++ v ++ encode_variables vs ++ r) ltac:(lia)) as R1.
    fold En in R1. rewrite R1. cbv zeta. rewrite Nat2Z.id.
    set (tot := (length p + length (En ++ n ++ Ev ++ v ++ encode_variables vs))%nat).
    assert (tot = length p + (length En + (length n + (length Ev + (length v + length (encode_variables vs))))))%nat
      as Htot by (unfold tot; rewrite !length_app; lia).
    rewrite (proj2 (Z.ltb_ge _ _)) by lia.
    replace (p ++ En ++ n ++ Ev ++ v ++ encode_variables vs ++ r)
      with ((p ++ En) ++ n ++ (Ev ++ v ++ encode_variables vs ++ r)) by (by rewrite <- !app_assoc).
    replace (length p + length En)%nat with (length (p ++ En)) by (by rewrite length_app).
    rewrite slice_app, utf8_lossy_valid by done.
    replace (length (p ++ En) + length n)%nat with (length ((p ++ En) ++ n)) by (by rewrite length_app).
    replace ((p ++ En) ++ n ++ Ev ++ v ++ encode_variables vs ++ r)
      with (((p ++ En) ++ n) ++ Ev ++ (v ++ encode_variables vs ++ r)) by (by rewrite <- !app_assoc).
    pose proof (read_lenenc_at ((p ++ En) ++ n) (Z.of_nat (length v)) (v ++ encode_variables vs ++ r) ltac:(lia)) as R2.
    fold Ev in R2. rewrite R2, Nat2Z.id.
    rewrite (proj2 (Z.ltb_ge _ _)) by (rewrite !length_app; lia).
    replace (((p ++ En) ++ n) ++ Ev ++ v ++ encode_variables vs ++ r)
      with ((((p ++ En) ++ n) ++ Ev) ++ v ++ (encode_variables vs ++ r)) by (by rewrite <- !app_assoc).
    replace (length ((p ++ En) ++ n) + length Ev)%nat with (length (((p ++ En) ++ n) ++ Ev))
      by (by rewrite length_app).
    rewrite slice_app, utf8_lossy_valid by done. f_equal.
    replace ((((p ++ En) ++ n) ++ Ev) ++ v ++ encode_variables vs ++ r)
      with (((((p ++ En) ++ n) ++ Ev) ++ v) ++ encode_variables vs ++ r) by (by rewrite <- !app_assoc).
    replace (length (((p ++ En) ++ n) ++ Ev) + length v)%nat with (length ((((p ++ En) ++ n) ++ Ev) ++ v))
      by (by rewrite length_app).
    replace tot with (length ((((p ++ En) ++ n) ++ Ev) ++ v) + length (encode_variables vs))%nat
      by (rewrite !length_app; lia).
    apply IH. simpl in Hf. lia.
Qed.

(** What a server may report: changed variables, or the GTID of a write. *)
Inductive change := Variables (vs : list (bytes * bytes)) | Gtid (g : bytes).

Definition change_data (c : change) : bytes :=
  match c with Variables vs => encode_variables vs | Gtid g => 0 :: lenenc_text g end.
Definition change_type (c : change) : Z := match c with Variables _ => 0 | Gtid _ => 3 end.
Definition encode_changes (cs : list change) : bytes :=
  concat (map (fun c => track_block (change_type c) (change_data c)) cs).

Definition change_ok (c : change) : Prop :=
  fits (change_data c) /\
  match c with
  | Variables vs => Forall (fun nv => text (fst nv) /\ text (snd nv)) vs
  | Gtid g => text g /\ g <> []
  end.

Definition apply_change (acc : Tracked) (c : change) : Tracked :=
  match c with
  | Variables vs => (fst acc ++ vs, snd acc)
  | Gtid g => (fst acc, Some g)
  end.

Lemma encode_variables_length vs : (2 * length vs <= length (encode_variables vs))%nat.
Proof.
  induction vs as [|[n v] vs IH]; [done|]. unfold encode_variables, lenenc_text in *.
  cbn [map concat fst snd length]. rewrite !length_app.
  destruct (encode_lenenc_cons (Z.of_nat (length n)) ltac:(lia)) as (b & t & ->).
  destruct (encode_lenenc_cons (Z.of_nat (length v)) ltac:(lia)) as (b' & t' & ->). simpl. lia.
Qed.

Lemma track_gtid_encoded p g r :
  text g -> g <> [] ->
  track_gtid (p ++ (0 :: lenenc_text g) ++ r) (length p) (length p + length (0 :: lenenc_text g)) = Some g.
Proof.
  intros [Hg Hf] Hne. unfold track_gtid, lenenc_text, fits in *. cbn [length].
  rewrite (proj2 (Nat.ltb_lt _ _)) by lia.
  set (E := encode_lenenc (Z.of_nat (length g))).
  replace (p ++ (0 :: E ++ g) ++ r) with ((p ++ [0]) ++ E ++ (g ++ r))
    by (rewrite <- !app_assoc; cbn [app]; by rewrite <- app_assoc).
  pose proof (read_lenenc_at (p ++ [0]) (Z.of_nat (length g)) (g ++ r) ltac:(lia)) as R. fold E in R.
  replace (length p + 1)%nat with (length (p ++ [0])) by (by rewrite length_app). rewrite R.
  cbv zeta. rewrite Nat2Z.id.
  assert (0 < length g)%nat by (destruct g; [done | simpl; lia]).
  rewrite (proj2 (Z.leb_le _ _)), (proj2 (Z.ltb_lt _ _)) by (rewrite ?length_app; cbn [length]; lia).
  cbn [andb].
  replace ((p ++ [0]) ++ E ++ g ++ r) with (((p ++ [0]) ++ E) ++ g ++ r) by (by rewrite <- !app_assoc).
  replace (length (p ++ [0%Z]) + length E)%nat with (length ((p ++ [0]) ++ E)) by (by rewrite length_app).
  rewrite slice_app, utf8_lossy_valid by done.
  unfold beq. by rewrite bool_decide_false.
Qed.

Lemma track_blocks_encoded fuel p cs acc :
  Forall change_ok cs -> (length cs < fuel)%nat ->
  let payload := p ++ encode_changes cs in
  track_blocks fuel payload (length p) (length payload) acc = foldl apply_change acc cs.
Proof.
  intros Hcs. revert fuel p acc. induction Hcs as [|c cs [Hfit Hok] Hcs IH]; intros fuel p acc Hf payload;
    (destruct fuel as [|fuel]; [simpl in Hf; lia|]); cbn [track_blocks foldl].
  - unfold payload. cbn. rewrite app_nil_r. by rewrite (proj2 (Nat.leb_le _ _)).
  - set (d := change_data c) in *. set (E := encode_lenenc (Z.of_nat (length d))).
    unfold fits in Hfit.
    assert (payload = p ++ [change_type c] ++ E ++ d ++ encode_changes cs) as Hp.
    { unfold payload, encode_changes, track_block. cbn [map concat]. fold d E.
      cbn [app]. by rewrite <- !app_assoc. }
    destruct (encode_lenenc_cons (Z.of_nat (length d)) ltac:(lia)) as (b & t & Hb).
    assert (length payload = length p + (1 + (length E + (length d + length (encode_changes cs)))))%nat as Hl
      by (rewrite Hp, !length_app; simpl; lia).
    assert (0 < length E)%nat by (unfold E; rewrite Hb; simpl; lia).
    rewrite !(proj2 (Nat.leb_gt _ _)) by lia.
    assert (at_ payload (length p) = change_type c) as Hat.
    { rewrite Hp. rewrite <- (Nat.add_0_r (length p)). by rewrite at_app_right. }
    rewrite Hat.
    pose proof (read_lenenc_at (p ++ [change_type c]) (Z.of_nat (length d)) (d ++ encode_changes cs)
      ltac:(lia)) as R. fold E in R. rewrite <- !app_assoc, <- Hp, length_app in R. cbn [length] in R.
    rewrite R. cbv zeta. rewrite Nat2Z.id, (proj2 (Nat.ltb_ge _ _)) by lia.
    set (q := p ++ [change_type c] ++ E).
    assert (length p + 1 + length E = length q)%nat as Hq by (unfold q; rewrite !length_app; simpl; lia).
    rewrite Hq. assert (payload = q ++ d ++ encode_changes cs) as Hp2
      by (rewrite Hp; unfold q; by rewrite <- !app_assoc).
    assert (payload = (q ++ d) ++ encode_changes cs) as Hp3 by (rewrite Hp2; by rewrite <- app_assoc).
    simpl in Hf. assert (length q + length d = length (q ++ d))%nat as Hqd by (by rewrite length_app).
    destruct c as [vs|g]; cbn [change_type Z.eqb apply_change] in *.
    + pose proof (track_variables_encoded (length payload) q vs (encode_changes cs) Hok) as Ht.
      pose proof (encode_variables_length vs). unfold d in *. cbn [change_data] in *.
      rewrite <- Hp2 in Ht. rewrite Ht by lia. rewrite Hqd, Hp3.
      apply (IH fuel (q ++ encode_variables vs)). lia.
    + destruct Hok as [Hg Hne]. pose proof (track_gtid_encoded q g (encode_changes cs) Hg Hne) as Ht.
      unfold d in *. cbn [change_data] in *. rewrite <- Hp2 in Ht. rewrite Ht, Hqd, Hp3.
      apply (IH fuel (q ++ 0 :: lenenc_text g)). lia.
Qed.

(** An OK packet in the layout the parser documents gives back every variable
    change, in order, and the GTID of the write. *)
Theorem session_track_roundtrip rows insert_id status warnings cs :
  0 <= rows < 2 ^ 24 -> 0 <= insert_id < 2 ^ 24 -> 0 <= status < 65536 ->
  Z.land status SERVER_SESSION_STATE_CHANGED <> 0 ->
  Forall change_ok cs -> fits (encode_changes cs) ->
  parse_ok_session_track
    (ok_prefix rows insert_id status warnings ++ lenenc_text (encode_changes cs)) ([], None)
  = foldl apply_change ([], None) cs.
Proof.
  intros Hr Hi Hs Hst Hcs Hfit. unfold fits in Hfit. rewrite parse_prefix by done.
  rewrite (proj2 (Z.eqb_neq _ _)) by done. unfold lenenc_text.
  set (E := encode_lenenc (Z.of_nat (length (encode_changes cs)))).
  set (pre := ok_prefix rows insert_id status warnings).
  destruct (encode_lenenc_cons (Z.of_nat (length (encode_changes cs))) ltac:(lia)) as (b & t & Hb).
  pose proof (read_lenenc_at [] (Z.of_nat (length (encode_changes cs))) (encode_changes cs) ltac:(lia)) as R.
  fold E in R. cbn [length app] in R. rewrite drop_0 in R. rewrite R.
  destruct (E ++ encode_changes cs) as [|x y] eqn:Ex; [unfold E in Ex; by rewrite Hb in Ex|]. rewrite <- Ex.
  rewrite Nat2Z.id, app_assoc. cbv zeta.
  replace (length pre + length E)%nat with (length (pre ++ E)) by (by rewrite length_app).
  rewrite (proj2 (Nat.ltb_ge _ _)) by (rewrite (length_app (pre ++ E)); lia).
  rewrite <- (length_app (pre ++ E)).
  apply track_blocks_encoded; [done|]. rewrite !length_app.
  assert (length cs <= length (encode_changes cs))%nat; [|unfold E; rewrite Hb; simpl; lia].
  clear. induction cs as [|c cs IH]; [done|]. unfold encode_changes, track_block in *.
  cbn [map concat length app]. rewrite !length_app. lia.
Qed.

Definition demo_changes : list change := [Variables [(bs "autocommit", bs "OFF")]; Gtid (bs "u:1-5")].

Lemma demo_changes_ok : Forall change_ok demo_changes.
Proof. repeat constructor; vm_compute; congruence. Qed.

Lemma session_track_roundtrip_witness :
  parse_ok_session_track (ok_prefix 1 0 16386 0 ++ lenenc_text (encode_changes demo_changes)) ([], None)
  = foldl apply_change ([], None) demo_changes.
Proof.
  apply (session_track_roundtrip 1 0 16386 0 demo_changes); [lia | lia | lia | | apply demo_changes_ok |].
  - vm_compute. discriminate.
  - vm_compute. reflexivity.
Defined.

Example demo_changes_tracked :
  foldl apply_change ([], None) demo_changes = ([(bs "autocommit", bs "OFF")], Some (bs "u:1-5")).
Proof. reflexivity. Qed.
