(* ===== verification/Auth.v ===== *)
(** * Client authentication (src/src/protocol/mysql/auth.rs, src/src/proxy/auth_cache.rs,
    [compute_native_auth] of src/src/protocol/mysql/mod.rs)

    The two hash functions are the class [Hashes]; only the lengths of their results
    are used. *)

From S2P Require Import Prelude Bytes Config.

Class Hashes := { sha1 : bytes -> bytes; sha256 : bytes -> bytes }.
Class HashLaws (H : Hashes) : Prop := {
  sha1_length m : length (sha1 m) = 20%nat;
  sha256_length m : length (sha256 m) = 32%nat
}.

(** Bytewise exclusive or of two arrays of one length. *)
Definition xor_bytes (a b : bytes) : bytes := zip_with Z.lxor a b.

(** [diff |= a[i] ^ b[i]] over both arrays. *)
Definition constant_time_eq (a b : bytes) : bool :=
  foldl (fun diff x => Z.lor diff x) 0 (xor_bytes a b) =? 0.

Section Auth.
Context `{HS : Hashes} `{ENV : Environment} `{SC : SecretCodec}.

Definition stage2_hash (password : bytes) : bytes := sha1 (sha1 password).
Definition sha256_stage2 (password : bytes) : bytes := sha256 (sha256 password).

Definition verify (challenge client_token stored_stage2 : bytes) : bool :=
  if negb (length client_token =? 20)%nat then false else
  let xor := sha1 (challenge ++ stored_stage2) in
  let stage1 := xor_bytes client_token xor in
  let computed := sha1 stage1 in
  constant_time_eq computed stored_stage2.

Definition verify_sha256 (challenge client_token stored_stage2 : bytes) : bool :=
  if negb (length client_token =? 32)%nat then false else
  let xor := sha256 (challenge ++ stored_stage2) in
  let stage1 := xor_bytes client_token xor in
  let computed := sha256 stage1 in
  constant_time_eq computed stored_stage2.

(** The proxy's own answer to a backend's challenge. *)
Definition compute_native_auth (challenge password : bytes) : bytes :=
  let stage1 := sha1 password in
  let stage2 := sha1 stage1 in
  let hash := sha1 (challenge ++ stage2) in
  xor_bytes stage1 hash.

(** ** [AuthConfig] *)

Record AuthConfig := {
  ac_user : option bytes;
  ac_stage2 : option bytes;
  ac_sha256_stage2 : option bytes
}.

Definition from_credentials (user password : bytes) : AuthConfig :=
  {| ac_user := Some user; ac_stage2 := Some (stage2_hash password);
     ac_sha256_stage2 := Some (sha256_stage2 password) |}.

Definition is_open (c : AuthConfig) : bool :=
  match ac_user c with None => true | Some _ => false end.

Definition check (c : AuthConfig) (challenge username token : bytes) : bool :=
  if is_open c then true
  else if negb (beq username (default [] (ac_user c))) then false
  else match ac_stage2 c with
  | Some stored =>
      if beq token [] then beq stored (stage2_hash [])
      else verify challenge token stored
           || match ac_sha256_stage2 c with
              | Some s => verify_sha256 challenge token s
              | None => false
              end
  | None => true
  end.

Definition check_sha256 (c : AuthConfig) (challenge username token : bytes) : bool :=
  if is_open c then true
  else if negb (beq username (default [] (ac_user c))) then false
  else match ac_sha256_stage2 c with
       | Some s => verify_sha256 challenge token s
       | None => false
       end.

(** ** [AuthCache] *)

Record UserRules := { allow_writes : bool; max_connections : Z }.

Record CachedEntry := {
  stage2 : bytes;
  sha256_ : bytes;
  rules : UserRules;
  expires : Z
}.

Record AuthCache := { entries : gmap bytes CachedEntry; open : bool }.

(** A configured user; the password is the resolved one. *)
Definition cached_entry (expires_at : Z) (u : UserConfig) : CachedEntry :=
  {| stage2 := stage2_hash (resolved_password u); sha256_ := sha256_stage2 (resolved_password u);
     rules := {| allow_writes := uc_allow_writes u; max_connections := uc_max_connections u |};
     expires := expires_at |}.

(** [now] is the time the cache is built, in nanoseconds. *)
Definition from_config (now : Z) (users : list UserConfig) (ttl_secs : Z) : AuthCache :=
  let expires_at := now + ttl_secs * 10 ^ 9 in
  {| entries := foldl (fun m u => <[name u := cached_entry expires_at u]> m) ∅ users;
     open := match users with [] => true | _ => false end |}.

Definition cache_verify (c : AuthCache) (now : Z) (username challenge token : bytes) : option UserRules :=
  if open c then Some {| allow_writes := true; max_connections := 0 |}
  else match entries c !! username with
  | None => None
  | Some entry =>
      if expires entry <=? now then None
      else if beq token [] then
        (if beq (stage2 entry) (stage2_hash []) then Some (rules entry) else None)
      else if verify challenge token (stage2 entry) || verify_sha256 challenge token (sha256_ entry)
      then Some (rules entry) else None
  end.
End Auth.

(** ** Lemmas *)

Lemma lor_zero a b : 0 <= a -> 0 <= b -> Z.lor a b = 0 <-> a = 0 /\ b = 0.
Proof. intros Ha Hb. apply Z.lor_eq_0_iff. Qed.

Lemma fold_lor_zero l acc :
  foldl (fun d x => Z.lor d x) acc l = 0 <-> acc = 0 /\ Forall (fun x => x = 0) l.
Proof.
  revert acc. induction l as [|x l IH]; intros acc; cbn [foldl].
  - split; [done | tauto].
  - rewrite IH, Z.lor_eq_0_iff, Forall_cons_iff. tauto.
Qed.

(** The constant-time comparison decides equality of arrays of one length. *)
Lemma constant_time_eq_spec a b : length a = length b -> constant_time_eq a b = true <-> a = b.
Proof.
  unfold constant_time_eq, xor_bytes. rewrite Z.eqb_eq, fold_lor_zero.
  revert b. induction a as [|x a IH]; intros [|y b] Hl; try discriminate.
  - cbn. split; [done | intros _; split; [done|constructor]].
  - injection Hl as Hl. cbn [zip_with]. rewrite Forall_cons_iff, Z.lxor_eq_0_iff.
    specialize (IH b Hl). split.
    + intros [_ [-> H]]. f_equal. by apply IH.
    + intros [= -> ->]. split; [done|]. split; [done|]. by apply IH.
Qed.

Lemma xor_bytes_length a b : length a = length b -> length (xor_bytes a b) = length a.
Proof. intros H. unfold xor_bytes. rewrite length_zip_with. lia. Qed.

Lemma xor_bytes_cancel a b : length a = length b -> xor_bytes (xor_bytes a b) b = a.
Proof.
  unfold xor_bytes. revert b. induction a as [|x a IH]; intros [|y b] Hl; try discriminate; [done|].
  injection Hl as Hl. cbn [zip_with]. rewrite IH by done. f_equal.
  by rewrite Z.lxor_assoc, Z.lxor_nilpotent, Z.lxor_0_r.
Qed.

Section AuthLemmas.
Context `{HS : Hashes} `{!HashLaws HS} `{ENV : Environment} `{SC : SecretCodec}.

(** What the two verifications decide. *)
Lemma verify_spec challenge token stored :
  length stored = 20%nat ->
  verify challenge token stored = true <->
  length token = 20%nat /\ sha1 (xor_bytes token (sha1 (challenge ++ stored))) = stored.
Proof.
  intros Hs. unfold verify. destruct (length token =? 20)%nat eqn:E; cbn [negb].
  - apply Nat.eqb_eq in E. rewrite constant_time_eq_spec by (by rewrite sha1_length). tauto.
  - apply Nat.eqb_neq in E. split; [done | tauto].
Qed.

Lemma verify_sha256_spec challenge token stored :
  length stored = 32%nat ->
  verify_sha256 challenge token stored = true <->
  length token = 32%nat /\ sha256 (xor_bytes token (sha256 (challenge ++ stored))) = stored.
Proof.
  intros Hs. unfold verify_sha256. destruct (length token =? 32)%nat eqn:E; cbn [negb].
  - apply Nat.eqb_eq in E. rewrite constant_time_eq_spec by (by rewrite sha256_length). tauto.
  - apply Nat.eqb_neq in E. split; [done | tauto].
Qed.

Lemma stage2_length p : length (stage2_hash p) = 20%nat.
Proof. apply sha1_length. Qed.

Lemma from_config_fold (ex : Z) (users : list UserConfig) (m : gmap bytes CachedEntry) (k : bytes) :
  foldl (fun m u => <[name u := cached_entry ex u]> m) m users !! k =
  match list.last (filter (fun u => name u = k) users) with
  | Some u => Some (cached_entry ex u)
  | None => m !! k
  end.
Proof.
  induction users as [|u users IH] using rev_ind; [done|].
  rewrite foldl_app, list.filter_app, filter_cons. cbn [foldl].
  destruct (decide (name u = k)) as [<-|Hn].
  - rewrite lookup_insert_eq, filter_nil. by rewrite last_snoc.
  - rewrite lookup_insert_ne by done. by rewrite filter_nil, app_nil_r.
Qed.

(** The challenge-response protocol accepts the right password: the answer the
    proxy itself computes for a challenge (and every client that follows the scheme)
    is accepted against the stored double hash of the same password. *)
Theorem native_auth_accepted challenge password :
  verify challenge (compute_native_auth challenge password) (stage2_hash password) = true.
Proof.
  apply verify_spec; [apply stage2_length|]. unfold compute_native_auth. split.
  - rewrite xor_bytes_length; by rewrite !sha1_length.
  - fold (stage2_hash password). rewrite xor_bytes_cancel by (by rewrite !sha1_length). done.
Qed.

(** A user is let in only with the configured rights: outside open mode the cache
    accepts exactly the tokens that pass one of the two verifications against the last
    configuration of that very user (the empty token only for an empty password's
    hash), and only before the entries expire. *)
Theorem cache_verify_iff (t0 : Z) (users : list UserConfig) (ttl now : Z) (username challenge token : bytes) r :
  users <> [] ->
  cache_verify (from_config t0 users ttl) now username challenge token = Some r <->
  exists u, list.last (filter (fun u => name u = username) users) = Some u /\
    now < t0 + ttl * 10 ^ 9 /\
    r = {| allow_writes := uc_allow_writes u; max_connections := uc_max_connections u |} /\
    (if beq token [] then stage2_hash (resolved_password u) = stage2_hash []
     else (length token = 20%nat /\
           sha1 (xor_bytes token (sha1 (challenge ++ stage2_hash (resolved_password u))))
           = stage2_hash (resolved_password u)) \/
          (length token = 32%nat /\
           sha256 (xor_bytes token (sha256 (challenge ++ sha256_stage2 (resolved_password u))))
           = sha256_stage2 (resolved_password u))).
Proof.
  intros Hne. unfold cache_verify, from_config. cbn [open entries].
  destruct users as [|u0 us0] eqn:Eu; [done|]. rewrite <- Eu. clear Eu Hne u0 us0.
  rewrite from_config_fold. rewrite lookup_empty.
  destruct (list.last _) as [u|]; [|split; [done | by intros (u & H & _)]].
  cbn [expires cached_entry stage2 sha256_ rules].
  destruct (_ <=? now) eqn:Et; bool_to_prop.
  { split; [done|]. intros (u' & _ & Hlt & _). lia. }
  assert (forall (b : bool) (P : Prop), (b = true <-> P) ->
    (if b then Some {| allow_writes := uc_allow_writes u; max_connections := uc_max_connections u |}
     else None) = Some r <->
    r = {| allow_writes := uc_allow_writes u; max_connections := uc_max_connections u |} /\ P) as Hif.
  { intros b P Hb. destruct b; [|intuition congruence]. intuition congruence. }
  transitivity (r = {| allow_writes := uc_allow_writes u; max_connections := uc_max_connections u |} /\
    (if beq token [] then stage2_hash (resolved_password u) = stage2_hash []
     else (length token = 20%nat /\
           sha1 (xor_bytes token (sha1 (challenge ++ stage2_hash (resolved_password u))))
           = stage2_hash (resolved_password u)) \/
          (length token = 32%nat /\
           sha256 (xor_bytes token (sha256 (challenge ++ sha256_stage2 (resolved_password u))))
           = sha256_stage2 (resolved_password u)))).
  - destruct (beq token []); [apply Hif, beq_true|]. apply Hif.
    rewrite orb_true_iff, verify_spec, verify_sha256_spec
      by (apply sha1_length || apply sha256_length). done.
  - split; [intros [H1 H2]; by exists u | intros (u' & [= <-] & _ & H1 & H2); done].
Qed.

(** The entries are never refreshed: from the configured time after the cache was
    built every login of every configured user is refused, whatever the password. *)
Theorem auth_cache_locks_out t0 users ttl now username challenge token :
  users <> [] -> t0 + ttl * 10 ^ 9 <= now ->
  cache_verify (from_config t0 users ttl) now username challenge token = None.
Proof.
  intros Hne Ht. destruct (cache_verify _ _ _ _ _) as [r|] eqn:E; [|done].
  unfold cache_verify, from_config in E. cbn [open entries] in E.
  destruct users as [|u0 us0]; [done|].
  rewrite from_config_fold, lookup_empty in E. destruct (list.last _) as [u|]; [|done].
  cbn [expires cached_entry] in E. by rewrite (proj2 (Z.leb_le _ _)) in E.
Qed.

(** A user whose password is a reference to a secret that is not there is let in without a
    password. *)
Theorem missing_secret_opens_login t0 users ttl now u challenge :
  list.last (filter (fun v => name v = name u) users) = Some u -> now < t0 + ttl * 10 ^ 9 ->
  resolved_password u = [] ->
  cache_verify (from_config t0 users ttl) now (name u) challenge []
  = Some {| allow_writes := uc_allow_writes u; max_connections := uc_max_connections u |}.
Proof.
  intros Hu Ht Hp. apply cache_verify_iff; [by intros ->|]. exists u. split_and!; [done..|]. cbn. by rewrite Hp.
Qed.

(** [AuthConfig.check] accepts a client that answers the challenge with the
    configured password and refuses every other user name. *)
Theorem auth_config_check user password challenge username :
  check (from_credentials user password) challenge user
    (compute_native_auth challenge password) = true /\
  (username <> user -> forall token,
     check (from_credentials user password) challenge username token = false /\
     check_sha256 (from_credentials user password) challenge username token = false).
Proof.
  split.
  - unfold check. cbn. rewrite beq_refl. cbn [negb]. rewrite native_auth_accepted by done.
    assert (beq (compute_native_auth challenge password) [] = false) as ->; [|done].
    apply bool_decide_eq_false. intros H. apply (f_equal length) in H.
    unfold compute_native_auth in H. rewrite xor_bytes_length in H by (by rewrite !sha1_length).
    by rewrite sha1_length in H.
  - intros Hn token. unfold check, check_sha256. cbn.
    assert (beq username user = false) as -> by (by apply bool_decide_eq_false). done.
Qed.
End AuthLemmas.

(** Hash functions with the right lengths, for concrete runs: the sum of the bytes,
    repeated. *)
Definition sum_hashes : Hashes := {|
  sha1 m := repeat (foldr Z.add 0 m mod 256) 20;
  sha256 m := repeat ((7 + foldr Z.add 0 m) mod 256) 32 |}.
#[export] Instance sum_hash_laws : HashLaws sum_hashes.
Proof. split; intros m; apply repeat_length. Qed.

Section Witnesses.
#[local] Existing Instance sum_hashes.
#[local] Existing Instance plain_env.
#[local] Existing Instance toy_codec.

Definition demo_user : UserConfig :=
  {| name := bs "app"; uc_password := bs "secret"; uc_allow_writes := false;
     uc_max_connections := 3; default_schema := []; transaction_isolation := [] |}.

Lemma native_auth_accepted_witness :
  verify (bs "12345678901234567890") (compute_native_auth (bs "12345678901234567890") (bs "secret"))
    (stage2_hash (bs "secret")) = true.
Proof. apply (native_auth_accepted (bs "12345678901234567890") (bs "secret")). Defined.

Lemma cache_verify_iff_witness :
  cache_verify (from_config 0 [demo_user] 10) 5 (bs "app") (bs "c")
    (compute_native_auth (bs "c") (bs "secret"))
  = Some {| allow_writes := false; max_connections := 3 |}.
Proof.
  apply (cache_verify_iff 0 [demo_user] 10 5 (bs "app") (bs "c")); [discriminate|].
  exists demo_user. split_and!; [reflexivity | reflexivity | reflexivity |].
  vm_compute. left. done.
Defined.

Definition envless_user : UserConfig :=
  {| name := bs "report"; uc_password := bs "env:REPORT_PASSWORD"; uc_allow_writes := true;
     uc_max_connections := 0; default_schema := []; transaction_isolation := [] |}.
Lemma missing_secret_opens_login_witness :
  cache_verify (from_config 0 [demo_user; envless_user] 10) 5 (bs "report") (bs "c") []
  = Some {| allow_writes := true; max_connections := 0 |}.
Proof.
  apply (missing_secret_opens_login 0 [demo_user; envless_user] 10 5 envless_user (bs "c")); [by vm_compute | lia |].
  apply (missing_secret_is_empty (bs "env:REPORT_PASSWORD")); [by vm_compute | by vm_compute | |]; intros H; vm_compute in H; done.
Defined.

Lemma auth_cache_locks_out_witness :
  cache_verify (from_config 0 [demo_user] 10) (10 * 10 ^ 9) (bs "app") (bs "c")
    (compute_native_auth (bs "c") (bs "secret")) = None.
Proof.
  apply (auth_cache_locks_out 0 [demo_user] 10 (10 * 10 ^ 9) (bs "app") (bs "c")); [discriminate | lia].
Defined.

Lemma auth_config_check_witness :
  check (from_credentials (bs "u") (bs "p")) (bs "c") (bs "u") (compute_native_auth (bs "c") (bs "p")) = true.
Proof. exact (proj1 (auth_config_check (bs "u") (bs "p") (bs "c") (bs "v"))). Defined.
End Witnesses.
