(* ===== verification/Handshake.v ===== *)
(** * The MySQL connection phase (src/src/protocol/mysql/handshake.rs and the
    [accept_client], [mysql_connect] and [read_command] of src/src/protocol/mysql/mod.rs)

    The greeting the proxy sends, the client's answer, both directions of the exchange,
    and the decoding of commands.  TLS is a function that gives the upgraded stream.  A
    read past the end of a slice panics: that is an outcome of its own. *)

From S2P Require Import Prelude Bytes Config MysqlCodec MysqlResponse Auth.

Definition LONG_PASSWORD : Z := Z.shiftl 1 0.
Definition LONG_FLAG : Z := Z.shiftl 1 2.
Definition CONNECT_WITH_DB : Z := Z.shiftl 1 3.
Definition COMPRESS : Z := Z.shiftl 1 5.
Definition PROTOCOL_41 : Z := Z.shiftl 1 9.
Definition SSL : Z := Z.shiftl 1 11.
Definition TRANSACTIONS : Z := Z.shiftl 1 13.
Definition SECURE_CONNECTION : Z := Z.shiftl 1 15.
Definition MULTI_STATEMENTS : Z := Z.shiftl 1 16.
Definition MULTI_RESULTS : Z := Z.shiftl 1 17.
Definition PLUGIN_AUTH : Z := Z.shiftl 1 19.
Definition CONNECT_ATTRS : Z := Z.shiftl 1 20.
Definition CLIENT_SESSION_TRACK : Z := Z.shiftl 1 23.
Definition ZSTD_COMPRESSION_ALGORITHM : Z := Z.shiftl 1 26.

Definition has_cap (caps c : Z) : bool := negb (Z.land caps c =? 0).

(** ** Outcomes *)

Inductive failure := Panic | Fail (e : ProtocolError).
Definition F (A : Type) : Type := SE Wire failure A.

Definition lift {A} (m : M A) : F A := fun w =>
  match m w with (Ok a, w') => (Ok a, w') | (Err e, w') => (Err (Fail e), w') end.

(** ** The greeting *)

Record HandshakeV10 := {
  protocol_version : Z;
  server_version : bytes;
  connection_id : Z;
  auth_plugin_data_1 : bytes;   (* 8 bytes *)
  auth_plugin_data_2 : bytes;   (* 12 bytes *)
  hs_capability_flags : Z;
  hs_character_set : Z;
  status_flags : Z;
  hs_auth_plugin_name : bytes
}.

Definition encode_greeting (h : HandshakeV10) : bytes :=
  [protocol_version h] ++ server_version h ++ [0] ++ to_le 4 (connection_id h)
  ++ auth_plugin_data_1 h ++ [0]
  ++ to_le 2 (Z.land (hs_capability_flags h) 65535) ++ [hs_character_set h]
  ++ to_le 2 (status_flags h)
  ++ to_le 2 (Z.land (Z.shiftr (hs_capability_flags h) 16) 65535)
  ++ [21] ++ repeat 0 10 ++ auth_plugin_data_2 h ++ [0] ++ hs_auth_plugin_name h ++ [0].

(** ** The client's answer *)

Record HandshakeResponse41 := {
  capability_flags : Z;
  max_packet_size : Z;
  character_set : Z;
  username : bytes;
  auth_response : bytes;
  database : option bytes;
  auth_plugin_name : option bytes;
  app_name : option bytes
}.

Definition read_null_terminated_string (buf : bytes) : result failure (bytes * bytes) :=
  match split_nul buf with
  | Some (s, r) => Ok (utf8_lossy s, r)
  | None => Err (Fail (InvalidFormat (bs "Missing null terminator in string")))
  end.

(** The value and what remains; [None] also for NULL. *)
Definition read_lenenc_int (buf : bytes) : option (Z * bytes) :=
  match buf with
  | [] => None
  | first :: buf =>
      if first =? 251 then None
      else if first =? 252 then
        if (length buf <? 2)%nat then None else Some (of_le (take 2 buf), drop 2 buf)
      else if first =? 253 then
        if (length buf <? 3)%nat then None else Some (of_le (take 3 buf), drop 3 buf)
      else if first =? 254 then
        if (length buf <? 8)%nat then None else Some (of_le (take 8 buf), drop 8 buf)
      else Some (first, buf)
  end.

(** The loop over the key and value pairs; each one takes at least a byte. *)
Fixpoint find_program_name (fuel : nat) (attrs : bytes) : option bytes :=
  match fuel, attrs with
  | O, _ | _, [] => None
  | S fuel', _ =>
      match read_lenenc_int attrs with
      | None => None
      | Some (key_len, attrs) =>
          if Z.of_nat (length attrs) <? key_len then None else
          let key := from_utf8_or_empty (take (Z.to_nat key_len) attrs) in
          let attrs := drop (Z.to_nat key_len) attrs in
          match read_lenenc_int attrs with
          | None => None
          | Some (val_len, attrs) =>
              if Z.of_nat (length attrs) <? val_len then None else
              let val := from_utf8_or_empty (take (Z.to_nat val_len) attrs) in
              let attrs := drop (Z.to_nat val_len) attrs in
              if beq key (bs "_program_name") && negb (beq val []) then Some val
              else find_program_name fuel' attrs
          end
      end
  end.

Definition parse_app_name_from_attrs (buf : bytes) : option bytes :=
  match read_lenenc_int buf with
  | None => None
  | Some (total_len, remaining) =>
      if Z.of_nat (length remaining) <? total_len then None
      else let attrs := take (Z.to_nat total_len) remaining in
           find_program_name (length attrs) attrs
  end.

Definition result_bind {E A B} (r : result E A) (f : A -> result E B) : result E B :=
  match r with Ok a => f a | Err e => Err e end.

Definition decode_response (buf : bytes) : result failure HandshakeResponse41 :=
  if (length buf <? 32)%nat
  then Err (Fail (InvalidFormat (bs "HandshakeResponse41 too short"))) else
  let caps := of_le (take 4 buf) in
  let max_size := of_le (take 4 (drop 4 buf)) in
  let charset := at_ buf 8 in
  let buf := drop 9 buf in
  if (length buf <? 23)%nat
  then Err (Fail (InvalidFormat (bs "HandshakeResponse41 missing reserved bytes"))) else
  let buf := drop 23 buf in
  result_bind (read_null_terminated_string buf) (fun '(user, buf) =>
  match buf with
  | [] => Err Panic  (* [get_u8] on an empty buffer *)
  | auth_response_len :: buf =>
      if Z.of_nat (length buf) <? auth_response_len
      then Err (Fail (InvalidFormat (bs "HandshakeResponse41 auth response truncated"))) else
      let auth := take (Z.to_nat auth_response_len) buf in
      let buf := drop (Z.to_nat auth_response_len) buf in
      result_bind (if has_cap caps CONNECT_WITH_DB then
                     result_bind (read_null_terminated_string buf)
                       (fun '(db, buf) => Ok (Some db, buf))
                   else Ok (None, buf)) (fun '(db, buf) =>
      result_bind (if has_cap caps PLUGIN_AUTH then
                     result_bind (read_null_terminated_string buf)
                       (fun '(p, buf) => Ok (Some p, buf))
                   else Ok (None, buf)) (fun '(plugin, buf) =>
      let app := if has_cap caps CONNECT_ATTRS && negb (beq buf [])
                 then parse_app_name_from_attrs buf else None in
      Ok {| capability_flags := caps; max_packet_size := max_size; character_set := charset;
            username := user; auth_response := auth; database := db;
            auth_plugin_name := plugin; app_name := app |}))
  end).

Definition encode_response (r : HandshakeResponse41) : bytes :=
  to_le 4 (capability_flags r) ++ to_le 4 (max_packet_size r) ++ [character_set r] ++ repeat 0 23
  ++ username r ++ [0] ++ [u8 (Z.of_nat (length (auth_response r)))] ++ auth_response r
  ++ match database r with Some db => db ++ [0] | None => [] end
  ++ match auth_plugin_name r with Some p => p ++ [0] | None => [] end.

(** ** Commands of a client *)

Inductive Command :=
| Query (sql : bytes)
| Ping
| Quit
| Stmt (packet : bytes)
| Other (packet : bytes)
| ResetConnection.

Definition COM_QUIT : Z := 1.
Definition COM_QUERY : Z := 3.
Definition COM_PING : Z := 7.
Definition COM_RESET_CONNECTION : Z := 31.
(** PREPARE, EXECUTE, SEND_LONG_DATA, CLOSE, RESET and FETCH. *)
Definition COM_STMT : list Z := [22; 23; 24; 25; 26; 28].

Definition decode_command (packet : bytes) : result ProtocolError Command :=
  match packet with
  | [] => Err (InvalidFormat (bs "empty command packet"))
  | b :: rest =>
      if b =? COM_QUIT then Ok Quit
      else if b =? COM_PING then Ok Ping
      else if b =? COM_QUERY then Ok (Query rest)
      else if b =? COM_RESET_CONNECTION then Ok ResetConnection
      else if mem b COM_STMT then Ok (Stmt packet)
      else Ok (Other packet)
  end.

Definition read_command : M Command :=
  upd_codec reset_sequence ;;
  packet ← read_packet;
  match decode_command packet with Ok c => mret c | Err e => se_fail e end.

(** ** Accepting a client *)

Record MySQLClientSession := {
  in_transaction : bool;
  cs_username : bytes;
  cs_allow_writes : bool;
  cs_app_name : option bytes
}.

Section Connect.
Context `{HS : Hashes} `{ENV : Environment} `{SC : SecretCodec}.

(** The stream after a TLS handshake, or the text of its error. *)
Variable tls_accept : Wire -> result bytes Wire.

Definition tls_upgrade (prefix : bytes) : F unit := fun w =>
  match tls_accept w with
  | Ok w' => (Ok tt, w')
  | Err msg => (Err (Fail (AuthFailed (prefix ++ msg))), w)
  end.

Definition greeting (with_tls : bool) (version : bytes) (conn_id : Z)
    (challenge_1 challenge_2 : bytes) : HandshakeV10 :=
  {| protocol_version := 10; server_version := version; connection_id := conn_id;
     auth_plugin_data_1 := challenge_1; auth_plugin_data_2 := challenge_2;
     hs_capability_flags :=
       Z.lor (Z.lor (Z.lor (Z.lor (Z.lor (Z.lor (Z.lor PROTOCOL_41 SECURE_CONNECTION) PLUGIN_AUTH)
         CONNECT_WITH_DB) TRANSACTIONS) MULTI_STATEMENTS) MULTI_RESULTS)
         (if with_tls then SSL else 0);
     hs_character_set := 33; status_flags := SERVER_STATUS_AUTOCOMMIT;
     hs_auth_plugin_name := bs "mysql_native_password" |}.

Definition access_denied (user : bytes) : bytes := bs "Access denied for user '" ++ user ++ bs "'".

(** [e.to_string()] of the errors that are sent to clients. *)
Definition auth_failed_text (msg : bytes) : bytes := bs "Authentication failed: " ++ msg.

(** Check the credentials of the answer and send OK or ERR; the same code for the
    plain and the encrypted stream. *)
Definition authenticate (cache : AuthCache) (now : Z) (challenge packet : bytes)
  : F MySQLClientSession :=
  match decode_response packet with
  | Err e => se_fail e
  | Ok client_hs =>
      w ← se_get;
      match cache_verify cache now (username client_hs) challenge (auth_response client_hs) with
      | None =>
          let msg := access_denied (username client_hs) in
          lift (write_all (framed_packet (sequence_id (codec w))
                  (encode_err_packet 1045 (bs "28000") (auth_failed_text msg)))) ;;
          se_fail (Fail (AuthFailed msg))
      | Some rules =>
          lift (write_all (framed_packet (sequence_id (codec w))
                  (encode_ok_packet 0 0 SERVER_STATUS_AUTOCOMMIT 0))) ;;
          mret {| in_transaction := false; cs_username := username client_hs;
                  cs_allow_writes := Auth.allow_writes rules; cs_app_name := app_name client_hs |}
      end
  end.

Definition accept_client (with_tls : bool) (cache : AuthCache) (now : Z) (version : bytes)
    (conn_id : Z) (challenge_1 challenge_2 : bytes) : F MySQLClientSession :=
  lift (write_packet (encode_greeting (greeting with_tls version conn_id challenge_1 challenge_2))) ;;
  response_packet ← lift read_packet;
  let challenge := challenge_1 ++ challenge_2 in
  if (length response_packet =? 32)%nat && has_cap (of_le (take 4 response_packet)) SSL then
    if negb with_tls then
      lift (write_all (framed_packet 1 (encode_err_packet 1045 (bs "28000")
        (bs "SSL not supported by TurbineProxy")))) ;;
      se_fail (Fail (AuthFailed (bs "SSL not supported")))
    else
      tls_upgrade (bs "TLS handshake failed: ") ;;
      full_response ← lift read_packet;
      authenticate cache now challenge full_response
  else authenticate cache now challenge response_packet.

(** ** Connecting to a backend *)

Definition idx (s : bytes) (i : nat) : F Z :=
  match s !! i with Some b => mret b | None => se_fail Panic end.
Definition sub (s : bytes) (i n : nat) : F bytes :=
  if (i + n <=? length s)%nat then mret (take n (drop i s)) else se_fail Panic.

(** Position of the first zero byte from [pos] on, or the end. *)
Fixpoint skip_to_nul (fuel pos : nat) (s : bytes) : nat :=
  match fuel with
  | O => pos
  | S fuel' =>
      match s !! pos with
      | Some b => if b =? 0 then pos else skip_to_nul fuel' (S pos) s
      | None => pos
      end
  end.

(** Connection id, challenge and capabilities of a server's greeting. *)
Definition parse_server_greeting (hs_packet : bytes) : F (Z * bytes * Z) :=
  _ ← idx hs_packet 0;
  let pos := S (skip_to_nul (length hs_packet) 1 hs_packet) in
  id_bytes ← sub hs_packet pos 4;
  let pos := (pos + 4)%nat in
  part1 ← sub hs_packet pos 8;
  let pos := (pos + 9)%nat in
  cap_lower ← sub hs_packet pos 2;
  let pos := (pos + 5)%nat in
  cap_upper ← sub hs_packet pos 2;
  let server_caps := Z.lor (of_le cap_lower) (Z.shiftl (of_le cap_upper) 16) in
  let pos := (pos + 13)%nat in
  if (length hs_packet <? pos)%nat then se_fail Panic  (* usize underflow, then a slice out of range *)
  else
    let remaining := Nat.min (length hs_packet - pos) 12 in
    mret (of_le id_bytes, part1 ++ take remaining (drop pos hs_packet), server_caps).

Inductive BackendCompression := CompressionNone | CompressionZlib | CompressionZstd.

Definition compress_cap (compression : BackendCompression) (server_caps : Z) : Z :=
  match compression with
  | CompressionZstd =>
      if has_cap server_caps ZSTD_COMPRESSION_ALGORITHM then ZSTD_COMPRESSION_ALGORITHM
      else if has_cap server_caps COMPRESS then COMPRESS else 0
  | CompressionZlib => if has_cap server_caps COMPRESS then COMPRESS else 0
  | CompressionNone => 0
  end.

Definition negotiated_algo (cap : Z) : CompressAlgo :=
  if cap =? ZSTD_COMPRESSION_ALGORITHM then Zstd
  else if cap =? COMPRESS then Zlib else NoCompression.

Definition client_flags (cap : Z) (has_db : bool) : Z :=
  let flags := Z.lor (Z.lor (Z.lor (Z.lor (Z.lor (Z.lor (Z.lor (Z.lor (Z.lor
    LONG_PASSWORD LONG_FLAG) PROTOCOL_41) TRANSACTIONS) SECURE_CONNECTION) MULTI_STATEMENTS)
    MULTI_RESULTS) PLUGIN_AUTH) CLIENT_SESSION_TRACK) cap in
  if has_db then Z.lor flags CONNECT_WITH_DB else flags.

Definition login_packet (flags : Z) (user auth : bytes) (db : option bytes) : bytes :=
  to_le 4 flags ++ to_le 4 (16 * 1024 * 1024) ++ [33] ++ repeat 0 23
  ++ user ++ [0] ++ [u8 (Z.of_nat (length auth))] ++ auth
  ++ match db with Some d => d ++ [0] | None => [] end
  ++ bs "mysql_native_password" ++ [0].

Definition ssl_request : bytes :=
  to_le 4 (Z.lor (Z.lor (Z.lor (Z.lor LONG_PASSWORD LONG_FLAG) PROTOCOL_41) SECURE_CONNECTION) SSL)
  ++ to_le 4 (16 * 1024 * 1024) ++ [33] ++ repeat 0 23.

Definition track_sql : bytes :=
  bs "SET SESSION session_track_system_variables='*', session_track_state_change=ON".

Record MySQLBackendConnection := {
  backend_conn_id : Z;
  session_tracking_enabled : bool;
  connection_algo : CompressAlgo
}.

(** Ask for variable tracking; every error is ignored. *)
Definition enable_tracking : F bool := fun w =>
  let w1 := {| codec := MysqlCodec.new; input := input w; output := output w |} in
  let w2 := snd (write_packet (3 :: track_sql) w1) in
  match collect_response w2 with
  | (Ok resp, w3) => (Ok (negb (bool_decide (resp !! 4%nat = Some 255))),
                      {| codec := codec w; input := input w3; output := output w3 |})
  | (Err _, w3) => (Ok false, {| codec := codec w; input := input w3; output := output w3 |})
  end.

(** From the open socket on; [tls_on] is [tls_mode != Off]. *)
Definition mysql_connect (tls_on : bool) (user password : bytes) (db : option bytes)
    (compression : BackendCompression) : F MySQLBackendConnection :=
  hs_packet ← lift read_packet;
  g ← parse_server_greeting hs_packet;
  let '(conn_id, challenge, server_caps) := g in
  (if tls_on && has_cap server_caps SSL then
     lift (write_packet ssl_request) ;; tls_upgrade (bs "Backend TLS: ")
   else mret tt) ;;
  let auth := if beq password [] then [] else compute_native_auth challenge password in
  let cap := compress_cap compression server_caps in
  lift (write_packet (login_packet (client_flags cap (bool_decide (db <> None))) user auth db)) ;;
  auth_result ← lift read_packet;
  if bool_decide (head auth_result = Some 255) then
    se_fail (Fail (AuthFailed (bs "Backend auth failed: " ++ utf8_lossy (drop 9 auth_result))))
  else
    tracking ← enable_tracking;
    let algo := negotiated_algo cap in
    upd ← se_modify (fun w =>
      {| codec := if bool_decide (algo = NoCompression) then MysqlCodec.new
                  else enable_compression algo MysqlCodec.new;
         input := input w; output := output w |});
    mret {| backend_conn_id := conn_id; session_tracking_enabled := tracking;
            connection_algo := algo |}.
End Connect.

(** ** Lemmas *)

Lemma read_null_terminated_app s r :
  cstr s -> read_null_terminated_string (s ++ 0 :: r) = Ok (s, r).
Proof. intros [Hn Hv]. unfold read_null_terminated_string. by rewrite split_nul_app, utf8_lossy_valid. Qed.

Lemma drop_of_to_le n v r : drop n (to_le n v ++ r) = r.
Proof. apply drop_app_length'. by rewrite to_le_length. Qed.

Lemma take_of_to_le n v r : take n (to_le n v ++ r) = to_le n v.
Proof. apply take_app_length'. by rewrite to_le_length. Qed.

(** The fixed part in front of the user name. *)
Lemma decode_fixed_part caps size charset rest :
  0 <= caps < 2 ^ 32 -> 0 <= size < 2 ^ 32 ->
  let buf := to_le 4 caps ++ to_le 4 size ++ [charset] ++ repeat 0 23 ++ rest in
  length buf = (32 + length rest)%nat /\ of_le (take 4 buf) = caps /\
  of_le (take 4 (drop 4 buf)) = size /\ at_ buf 8 = charset /\
  drop 9 buf = repeat 0 23 ++ rest.
Proof.
  intros Hc Hz buf. unfold buf. split_and!.
  - rewrite !length_app, !to_le_length, repeat_length. simpl. lia.
  - rewrite take_of_to_le. apply of_to_le. simpl. lia.
  - rewrite drop_of_to_le, take_of_to_le. apply of_to_le. simpl. lia.
  - pose proof (at_app_right (to_le 4 caps ++ to_le 4 size) ([charset] ++ repeat 0 23 ++ rest) 0) as H.
    rewrite length_app, !to_le_length, <- app_assoc in H. exact H.
  - replace (to_le 4 caps ++ to_le 4 size ++ [charset] ++ repeat 0 23 ++ rest)
      with ((to_le 4 caps ++ to_le 4 size ++ [charset]) ++ (repeat 0 23 ++ rest))
      by (by rewrite <- !app_assoc).
    apply drop_app_length'. by rewrite !length_app, !to_le_length.
Qed.

Lemma u8_small n : (n < 256)%nat -> u8 (Z.of_nat n) = Z.of_nat n.
Proof. intros H. apply wrap_small. unfold in_width. lia. Qed.

(** Decoding behind the fixed part. *)
Lemma decode_response_body caps size charset user auth db plugin rest :
  0 <= caps < 2 ^ 32 -> 0 <= size < 2 ^ 32 -> cstr user -> (length auth < 256)%nat ->
  (if has_cap caps CONNECT_WITH_DB then exists d, db = Some d /\ cstr d else db = None) ->
  (if has_cap caps PLUGIN_AUTH then exists p, plugin = Some p /\ cstr p else plugin = None) ->
  decode_response (to_le 4 caps ++ to_le 4 size ++ [charset] ++ repeat 0 23
    ++ user ++ [0] ++ [u8 (Z.of_nat (length auth))] ++ auth
    ++ match db with Some d => d ++ [0] | None => [] end
    ++ match plugin with Some p => p ++ [0] | None => [] end ++ rest) =
  Ok {| capability_flags := caps; max_packet_size := size; character_set := charset;
        username := user; auth_response := auth; database := db; auth_plugin_name := plugin;
        app_name := if has_cap caps CONNECT_ATTRS && negb (beq rest [])
                    then parse_app_name_from_attrs rest else None |}.
Proof.
  intros Hc Hz Hu Ha Hdb Hpl. set (tail := user ++ _).
  destruct (decode_fixed_part caps size charset tail Hc Hz) as (Hl & H1 & H2 & H3 & H4).
  set (buf := to_le 4 caps ++ _) in *. unfold decode_response.
  rewrite Hl, H1, H2, H3, H4. rewrite (proj2 (Nat.ltb_ge _ 32)) by lia.
  rewrite (proj2 (Nat.ltb_ge _ 23)) by (rewrite length_app, repeat_length; lia).
  rewrite drop_app_length' by (by rewrite repeat_length). unfold tail.
  change (user ++ [0] ++ ?x) with (user ++ 0 :: x).
  rewrite read_null_terminated_app by done. cbn [result_bind app].
  rewrite u8_small by done. rewrite (proj2 (Z.ltb_ge _ _)) by (rewrite length_app; lia).
  rewrite Nat2Z.id, take_app_length, drop_app_length.
  destruct (has_cap caps CONNECT_WITH_DB).
  - destruct Hdb as (d & -> & Hd). rewrite <- app_assoc. change ([0] ++ ?x) with (0 :: x).
    rewrite read_null_terminated_app by done. cbn [result_bind].
    destruct (has_cap caps PLUGIN_AUTH).
    + destruct Hpl as (p & -> & Hp). rewrite <- app_assoc. change ([0] ++ ?x) with (0 :: x).
      by rewrite read_null_terminated_app by done.
    + by rewrite Hpl.
  - rewrite Hdb. cbn [app result_bind]. destruct (has_cap caps PLUGIN_AUTH).
    + destruct Hpl as (p & -> & Hp). rewrite <- app_assoc. change ([0] ++ ?x) with (0 :: x).
      by rewrite read_null_terminated_app by done.
    + by rewrite Hpl.
Qed.

(** A response the encoder can represent. *)
Definition response_ok (r : HandshakeResponse41) : Prop :=
  0 <= capability_flags r < 2 ^ 32 /\ 0 <= max_packet_size r < 2 ^ 32 /\ cstr (username r) /\
  (length (auth_response r) < 256)%nat /\
  (if has_cap (capability_flags r) CONNECT_WITH_DB
   then exists d, database r = Some d /\ cstr d else database r = None) /\
  (if has_cap (capability_flags r) PLUGIN_AUTH
   then exists p, auth_plugin_name r = Some p /\ cstr p else auth_plugin_name r = None) /\
  app_name r = None.

(** Decoding an encoded handshake response gives it back, whatever subset of the
    optional fields its capability flags announce. *)
Theorem handshake_response_roundtrip r :
  response_ok r -> decode_response (encode_response r) = Ok r.
Proof.
  intros (Hc & Hz & Hu & Ha & Hdb & Hpl & Happ). unfold encode_response.
  pose proof (decode_response_body (capability_flags r) (max_packet_size r) (character_set r)
    (username r) (auth_response r) (database r) (auth_plugin_name r) [] Hc Hz Hu Ha Hdb Hpl) as H.
  rewrite app_nil_r in H. rewrite H. rewrite beq_refl, andb_false_r.
  destruct r. cbn in *. by subst.
Qed.

Definition demo_response : HandshakeResponse41 :=
  {| capability_flags := Z.lor PROTOCOL_41 PLUGIN_AUTH; max_packet_size := 16777216;
     character_set := 33; username := bs "app"; auth_response := bs "12345678901234567890";
     database := None; auth_plugin_name := Some (bs "mysql_native_password"); app_name := None |}.

Lemma cstrb_ok s : forallb (fun b => negb (b =? 0)) s = true -> utf8_valid s = true -> cstr s.
Proof.
  intros H Hv. split; [|done]. rewrite forallb_forall in H. apply Forall_forall. intros b Hb.
  specialize (H b Hb). bool_to_prop. done.
Qed.

Lemma handshake_response_roundtrip_witness :
  decode_response (encode_response demo_response) = Ok demo_response.
Proof.
  apply (handshake_response_roundtrip demo_response). split_and!.
  - vm_compute. discriminate.
  - vm_compute. reflexivity.
  - vm_compute. discriminate.
  - vm_compute. reflexivity.
  - by apply cstrb_ok.
  - simpl. lia.
  - reflexivity.
  - exists (bs "mysql_native_password"). split; [reflexivity | by apply cstrb_ok].
  - reflexivity.
Defined.

(** A response that ends right behind the user name makes the decoder panic, and
    that is the only way it can: every other malformed packet is an error value. *)
Theorem decode_panics_iff buf :
  decode_response buf = Err Panic <->
  (32 <= length buf)%nat /\ exists user, drop 32 buf = user ++ [0] /\ no_nul user.
Proof.
  assert (forall b s, read_null_terminated_string b <> Err Panic /\
    (read_null_terminated_string b = Ok s -> exists u, b = u ++ 0 :: snd s /\ no_nul u)) as Hrn.
  { intros b s. unfold read_null_terminated_string. destruct (split_nul b) as [[u r]|] eqn:E.
    - split; [done|]. intros [= <-]. apply split_nul_some in E. by exists u.
    - done. }
  unfold decode_response. destruct (length buf <? 32)%nat eqn:E32.
  { apply Nat.ltb_lt in E32. split; [done|]. intros [? _]. lia. }
  apply Nat.ltb_ge in E32. rewrite length_drop, (proj2 (Nat.ltb_ge _ 23)) by lia. rewrite drop_drop.
  change (9 + 23)%nat with 32%nat.
  destruct (read_null_terminated_string (drop 32 buf)) as [[user rest]|e] eqn:Eu; cbn [result_bind].
  2: { split.
       - intros [= ->]. by destruct (Hrn (drop 32 buf) ([], [])) as [Hx _].
       - intros [_ (u & Hd & Hn)]. rewrite Hd in Eu. unfold read_null_terminated_string in Eu.
         by rewrite split_nul_app in Eu. }
  destruct (proj2 (Hrn (drop 32 buf) (user, rest)) Eu) as (u & Hd & Hn). cbn [snd] in Hd.
  destruct rest as [|len rest].
  { split; [|done]. intros _. split; [done|]. by exists u. }
  split.
  - destruct (_ <? len); [done|]. intros H. exfalso. revert H.
    destruct (has_cap _ CONNECT_WITH_DB), (has_cap _ PLUGIN_AUTH); cbn [result_bind]; try done;
      repeat (match goal with
      | |- context [read_null_terminated_string ?b] =>
          pose proof (proj1 (Hrn b ([], []))); destruct (read_null_terminated_string b) as [[??]|?]; cbn [result_bind]
      end); congruence.
  - intros [_ (u' & Hd' & Hn')]. exfalso. rewrite Hd in Hd'.
    pose proof (split_nul_app u (len :: rest) Hn) as S1.
    pose proof (split_nul_app u' [] Hn') as S2. rewrite <- Hd', S1 in S2. done.
Qed.

(** ** Accepting clients *)

Section AcceptLemmas.
Context `{HS : Hashes} `{ENV : Environment} `{SC : SecretCodec}.
Variable tls_accept : Wire -> result bytes Wire.

Lemma lift_ok {A} (m : M A) w a w' : m w = (Ok a, w') -> lift m w = (Ok a, w').
Proof. intros H. unfold lift. by rewrite H. Qed.

(** A computation that answers must have answered at its first step. *)
Lemma bind_ok_inv {A B} (m : F A) (f : A -> F B) w b w' :
  (m ≫= f) w = (Ok b, w') -> exists a w1, m w = (Ok a, w1) /\ f a w1 = (Ok b, w').
Proof.
  unfold mbind, se_bind. destruct (m w) as [[a|e] w1]; [|done]. intros H. by exists a, w1.
Qed.

Lemma authenticate_ok cache now challenge packet w s w' :
  authenticate cache now challenge packet w = (Ok s, w') ->
  exists hs rules, decode_response packet = Ok hs /\
    cache_verify cache now (username hs) challenge (auth_response hs) = Some rules /\
    s = {| in_transaction := false; cs_username := username hs;
           cs_allow_writes := Auth.allow_writes rules; cs_app_name := app_name hs |} /\
    output w' = output w ++ framed_packet (sequence_id (codec w))
      (encode_ok_packet 0 0 SERVER_STATUS_AUTOCOMMIT 0).
Proof.
  unfold authenticate. destruct (decode_response packet) as [hs|e]; [|done].
  intros (w1 & w2 & [= -> ->] & H)%bind_ok_inv.
  destruct (cache_verify _ _ _ _ _) as [rules|] eqn:Ev.
  - exists hs, rules. apply bind_ok_inv in H as (u & w3 & Hw & H).
    injection Hw as <- <-. injection H as <- <-. done.
  - apply bind_ok_inv in H as (u & w3 & _ & H). done.
Qed.

(** C1: A session exists only after successful authentication: whatever the client
    sends and whether or not it switches to TLS, when [accept_client] returns a session
    the credential cache accepted the user name and token of some packet of the client
    against this connection's challenge, and the session carries that user's name and
    write permission. *)
Theorem session_only_if_verified with_tls cache now version conn_id ch1 ch2 w s w' :
  accept_client tls_accept with_tls cache now version conn_id ch1 ch2 w = (Ok s, w') ->
  exists packet hs rules, decode_response packet = Ok hs /\
    cache_verify cache now (username hs) (ch1 ++ ch2) (auth_response hs) = Some rules /\
    cs_username s = username hs /\ cs_allow_writes s = Auth.allow_writes rules /\
    in_transaction s = false.
Proof.
  unfold accept_client.
  intros (u & w1 & _ & H)%bind_ok_inv. apply bind_ok_inv in H as (packet & w2 & _ & H).
  cbv zeta in H. destruct (_ && _).
  - destruct with_tls; cbn [negb] in H.
    + apply bind_ok_inv in H as (u2 & w3 & _ & H). apply bind_ok_inv in H as (full & w4 & _ & H).
      apply authenticate_ok in H as (hs & rules & H1 & H2 & -> & _). by exists full, hs, rules.
    + apply bind_ok_inv in H as (u2 & w3 & _ & H). done.
  - apply authenticate_ok in H as (hs & rules & H1 & H2 & -> & _). by exists packet, hs, rules.
Qed.

(** The greeting a well-formed record encodes to. *)
Definition greeting_ok (h : HandshakeV10) : Prop :=
  no_nul (server_version h) /\ 0 <= connection_id h < 2 ^ 32 /\
  length (auth_plugin_data_1 h) = 8%nat /\ length (auth_plugin_data_2 h) = 12%nat /\
  0 <= hs_capability_flags h < 2 ^ 32.

Lemma skip_to_nul_app p s r fuel :
  no_nul s -> (length s < fuel)%nat ->
  skip_to_nul fuel (length p) (p ++ s ++ 0 :: r) = (length p + length s)%nat.
Proof.
  intros Hs. revert p fuel. induction Hs as [|b s Hb Hs IH]; intros p fuel Hf;
    (destruct fuel as [|fuel]; [simpl in Hf; lia|]); cbn [skip_to_nul].
  - rewrite lookup_app_r, Nat.sub_diag by lia. cbn. lia.
  - rewrite lookup_app_r, Nat.sub_diag by lia. cbn [lookup list_lookup app].
    rewrite (proj2 (Z.eqb_neq b 0)) by done.
    specialize (IH (p ++ [b]) fuel ltac:(simpl in Hf; lia)). rewrite <- app_assoc in IH.
    cbn [app] in IH. rewrite length_app in IH. cbn [length] in *.
    rewrite Nat.add_1_r in IH. rewrite IH. lia.
Qed.

Lemma sub_app p s r w n : length s = n -> sub (p ++ s ++ r) (length p) n w = (Ok s, w).
Proof.
  intros <-. unfold sub. rewrite !length_app. rewrite (proj2 (Nat.leb_le _ _)) by lia.
  by rewrite drop_app_length, take_app_length.
Qed.

Lemma caps_split caps : 0 <= caps < 2 ^ 32 ->
  Z.lor (of_le (to_le 2 (Z.land caps 65535)))
        (Z.shiftl (of_le (to_le 2 (Z.land (Z.shiftr caps 16) 65535))) 16) = caps.
Proof.
  intros Hc. rewrite !(Z.land_ones _ 16), Z.shiftr_div_pow2 by lia.
  pose proof (Z.mod_pos_bound caps (2 ^ 16) ltac:(lia)).
  pose proof (Z.mod_pos_bound (caps / 2 ^ 16) (2 ^ 16) ltac:(lia)).
  rewrite !of_to_le by (simpl in *; lia). rewrite lor_add_low by lia.
  rewrite (Z.mod_small (caps / 2 ^ 16)).
  - pose proof (Z.div_mod caps (2 ^ 16) ltac:(lia)). lia.
  - split; [apply Z.div_pos; lia | apply Z.div_lt_upper_bound; lia].
Qed.

Lemma bind_ok_F {A B} (m : F A) (f : A -> F B) w a w' :
  m w = (Ok a, w') -> (m ≫= f) w = f a w'.
Proof. intros H. unfold mbind, se_bind. by rewrite H. Qed.

(** The proxy's backend side understands the proxy's front side: parsing an encoded
    greeting gives the connection id, the whole twenty-byte challenge and the
    capability flags, without a panic. *)
Theorem greeting_roundtrip h w :
  greeting_ok h ->
  parse_server_greeting (encode_greeting h) w =
  (Ok (connection_id h, auth_plugin_data_1 h ++ auth_plugin_data_2 h, hs_capability_flags h), w).
Proof.
  intros (Hv & Hid & H1 & H2 & Hc). unfold parse_server_greeting.
  set (s := encode_greeting h).
  set (c1 := to_le 2 (Z.land (hs_capability_flags h) 65535)).
  set (c2 := to_le 2 (Z.land (Z.shiftr (hs_capability_flags h) 16) 65535)).
  set (st := to_le 2 (status_flags h)). set (idb := to_le 4 (connection_id h)).
  set (d1 := auth_plugin_data_1 h) in *. set (d2 := auth_plugin_data_2 h) in *.
  set (end_ := [0] ++ hs_auth_plugin_name h ++ [0]).
  set (v := [protocol_version h] ++ server_version h ++ [0]).
  assert (s = v ++ idb ++ d1 ++ [0] ++ c1 ++ [hs_character_set h] ++ st ++ c2 ++ [21]
              ++ repeat 0 10 ++ d2 ++ end_) as Hs.
  { unfold s, v, encode_greeting, end_. fold c1 c2 st idb d1 d2. by rewrite <- !app_assoc. }
  assert (length c1 = 2%nat /\ length c2 = 2%nat /\ length st = 2%nat /\ length idb = 4%nat)
    as (L1 & L2 & L3 & L4) by (unfold c1, c2, st, idb; by rewrite !to_le_length).
  erewrite bind_ok_F by (by unfold idx, s, encode_greeting).
  assert (S (skip_to_nul (length s) 1 s) = length v) as Hpos.
  { pose proof (skip_to_nul_app [protocol_version h] (server_version h)
      (idb ++ d1 ++ [0] ++ c1 ++ [hs_character_set h] ++ st ++ c2 ++ [21] ++ repeat 0 10 ++ d2 ++ end_)
      (length s) Hv) as Hk.
    replace ([protocol_version h] ++ server_version h ++ 0 :: _) with s in Hk
      by (rewrite Hs; unfold v; by rewrite <- !app_assoc).
    change (length [protocol_version h]) with 1%nat in Hk. rewrite Hk.
    - unfold v. rewrite !length_app. simpl. lia.
    - rewrite Hs. unfold v. rewrite !length_app. simpl. lia. }
  rewrite Hpos. clear Hpos.
  erewrite bind_ok_F by (rewrite Hs; by apply (sub_app v idb)).
  replace (length v + 4)%nat with (length (v ++ idb)) by (rewrite length_app; lia).
  erewrite bind_ok_F by (rewrite Hs, app_assoc; by apply (sub_app (v ++ idb) d1)).
  replace (length (v ++ idb) + 9)%nat with (length (((v ++ idb) ++ d1) ++ [0%Z]))
    by (rewrite !length_app; simpl; lia).
  erewrite bind_ok_F by (rewrite Hs, !app_assoc, <- (app_assoc _ c1);
    rewrite <- !(app_assoc (((v ++ idb) ++ d1) ++ [0])); by apply (sub_app (((v ++ idb) ++ d1) ++ [0]) c1)).
  set (p5 := ((((v ++ idb) ++ d1) ++ [0]) ++ c1) ++ [hs_character_set h] ++ st).
  replace (length (((v ++ idb) ++ d1) ++ [0%Z]) + 5)%nat with (length p5)
    by (unfold p5; rewrite !length_app; simpl; lia).
  assert (s = p5 ++ c2 ++ [21] ++ repeat 0 10 ++ d2 ++ end_) as Hs5
    by (rewrite Hs; unfold p5; by rewrite <- !app_assoc).
  erewrite bind_ok_F by (rewrite Hs5; by apply (sub_app p5 c2)). cbv zeta.
  set (p6 := p5 ++ c2 ++ [21] ++ repeat 0 10).
  replace (length p5 + 13)%nat with (length p6)
    by (unfold p6; rewrite !length_app, repeat_length; simpl; lia).
  assert (s = p6 ++ d2 ++ end_) as Hs6 by (rewrite Hs5; unfold p6; by rewrite <- !app_assoc).
  assert (length s = length p6 + (12 + length end_))%nat as Hls by (rewrite Hs6, !length_app; lia).
  rewrite (proj2 (Nat.ltb_ge _ _)) by lia.
  replace (Nat.min (length s - length p6) 12) with 12%nat by lia.
  rewrite Hs6, drop_app_length. rewrite take_app_length' by done.
  unfold idb, c1, c2. rewrite of_to_le by (simpl; lia). by rewrite caps_split.
Qed.
End AcceptLemmas.

Section LoginLemmas.
Context `{HS : Hashes} `{ENV : Environment} `{SC : SecretCodec} `{!HashLaws HS}.

(** The flags the backend side sends, for each compression it may ask for. *)
Lemma client_flags_spec compression caps has_db :
  let f := client_flags (compress_cap compression caps) has_db in
  0 <= f < 2 ^ 32 /\ has_cap f CONNECT_WITH_DB = has_db /\ has_cap f PLUGIN_AUTH = true /\
  has_cap f CONNECT_ATTRS = false.
Proof.
  assert (compress_cap compression caps = 0 \/ compress_cap compression caps = COMPRESS \/
          compress_cap compression caps = ZSTD_COMPRESSION_ALGORITHM) as [-> | [-> | ->]]
    by (unfold compress_cap; destruct compression; repeat case_match; auto);
    destruct has_db; vm_compute; intuition congruence.
Qed.

(** Logging in to a front end of the proxy with the backend side of the proxy
    works: for a configured user and before the credentials expire, the packet
    [mysql_connect] builds from the front end's challenge and the right password is
    decoded and accepted, with the user's write permission, and OK is sent. *)
Theorem proxy_login_accepted t0 users ttl now ch u db compression caps w :
  list.last (filter (fun v => name v = name u) users) = Some u ->
  now < t0 + ttl * 10 ^ 9 -> cstr (name u) ->
  (forall d, db = Some d -> cstr d) ->
  let auth := compute_native_auth ch (resolved_password u) in
  let packet := login_packet (client_flags (compress_cap compression caps) (bool_decide (db <> None)))
                  (name u) auth db in
  authenticate (from_config t0 users ttl) now ch packet w =
  (Ok {| in_transaction := false; cs_username := name u; cs_allow_writes := uc_allow_writes u;
         cs_app_name := None |},
   {| codec := codec w; input := input w;
      output := output w ++ framed_packet (sequence_id (codec w))
                  (encode_ok_packet 0 0 SERVER_STATUS_AUTOCOMMIT 0) |}).
Proof.
  intros Hu Hnow Hn Hdb auth packet.
  set (flags := client_flags (compress_cap compression caps) (bool_decide (db <> None))) in *.
  destruct (client_flags_spec compression caps (bool_decide (db <> None))) as (Hf & F1 & F2 & F3).
  fold flags in Hf, F1, F2, F3.
  assert (length auth = 20%nat) as Hauth.
  { unfold auth, compute_native_auth. rewrite xor_bytes_length; by rewrite !sha1_length. }
  pose proof (decode_response_body flags (16 * 1024 * 1024) 33 (name u) auth db
    (Some (bs "mysql_native_password")) [] Hf ltac:(lia) Hn ltac:(lia)) as Hd.
  rewrite F1, F2, F3 in Hd. rewrite app_nil_r in Hd. unfold authenticate, packet, login_packet.
  rewrite Hd.
  - assert (cache_verify (from_config t0 users ttl) now (name u) ch auth =
      Some {| Auth.allow_writes := uc_allow_writes u; max_connections := uc_max_connections u |}) as Hv.
    { apply cache_verify_iff; [by intros ->|]. exists u. split_and!; try done.
      assert (beq auth [] = false) as -> by (apply bool_decide_eq_false; intros Hx; by rewrite Hx in Hauth).
      left. split; [done|]. pose proof (native_auth_accepted ch (resolved_password u)) as Hacc.
      apply verify_spec in Hacc as [_ Hacc]; [exact Hacc | apply stage2_length]. }
    cbn [username auth_response app_name]. erewrite bind_ok_F by reflexivity. by rewrite Hv.
  - destruct db as [d|]; cbn.
    + exists d. split; [done | by apply Hdb].
    + done.
  - exists (bs "mysql_native_password"). split; [done | by apply cstrb_ok].
Qed.
End LoginLemmas.

Section Witnesses.
#[local] Existing Instance sum_hashes.
#[local] Existing Instance plain_env.
#[local] Existing Instance toy_codec.

Definition demo_greeting : HandshakeV10 :=
  greeting true (bs "8.0.36") 77 (bs "abcdefgh") (bs "ijklmnopqrst").

Lemma greeting_roundtrip_witness :
  let w := {| codec := MysqlCodec.new; input := []; output := [] |} in
  parse_server_greeting (encode_greeting demo_greeting) w =
  (Ok (77, bs "abcdefghijklmnopqrst", hs_capability_flags demo_greeting), w).
Proof.
  apply (greeting_roundtrip demo_greeting {| codec := MysqlCodec.new; input := []; output := [] |}).
  split_and!; try reflexivity; try (vm_compute; congruence). by apply cstrb_ok.
Defined.

Lemma proxy_login_accepted_witness :
  let w := {| codec := MysqlCodec.set_sequence 2 MysqlCodec.new; input := []; output := [] |} in
  fst (authenticate (from_config 0 [demo_user] 10) 5 (bs "12345678901234567890")
    (login_packet (client_flags (compress_cap CompressionNone 0) (bool_decide (Some (bs "db") <> None)))
      (name demo_user) (compute_native_auth (bs "12345678901234567890") (resolved_password demo_user))
      (Some (bs "db"))) w)
  = Ok {| in_transaction := false; cs_username := bs "app"; cs_allow_writes := false; cs_app_name := None |}.
Proof.
  intros w.
  pose proof (proxy_login_accepted 0 [demo_user] 10 5 (bs "12345678901234567890") demo_user
    (Some (bs "db")) CompressionNone 0 w eq_refl ltac:(lia) (cstrb_ok (name demo_user) eq_refl eq_refl)) as H.
  rewrite H; [reflexivity|]. intros d [= <-]. by apply cstrb_ok.
Defined.

(** A whole accepted login over plain TCP. *)
Definition demo_login : Wire :=
  {| codec := MysqlCodec.new; output := [];
     input := framed_packet 1 (login_packet (client_flags 0 false) (bs "app")
       (compute_native_auth (bs "abcdefghijklmnopqrst") (bs "secret")) None) |}.
Definition no_tls (w : Wire) : result bytes Wire := Err [].

Lemma session_only_if_verified_witness :
  exists packet hs rules, decode_response packet = Ok hs /\
    cache_verify (from_config 0 [demo_user] 10) 5 (username hs) (bs "abcdefgh" ++ bs "ijklmnopqrst")
      (auth_response hs) = Some rules /\
    bs "app" = username hs /\ false = Auth.allow_writes rules /\ false = false.
Proof.
  apply (session_only_if_verified no_tls false (from_config 0 [demo_user] 10) 5 (bs "8.0.36") 77
    (bs "abcdefgh") (bs "ijklmnopqrst") demo_login
    {| in_transaction := false; cs_username := bs "app"; cs_allow_writes := false; cs_app_name := None |}
    (snd (accept_client no_tls false (from_config 0 [demo_user] 10) 5 (bs "8.0.36") 77
      (bs "abcdefgh") (bs "ijklmnopqrst") demo_login))).
  vm_compute. reflexivity.
Defined.
End Witnesses.
