(* ===== verification/Pool.v ===== *)
(** * Backend connection pools (src/src/proxy/pool.rs)

    [ConnectionPool]: the pool of one backend.  [BackendPool]: the primary, the
    replicas, their health, breakers and the failover and Group Replication indices.
    Backends are behind the class [BackendIO]: what a connection attempt or a query
    gives is up to the outside world [W], which is threaded through every call.  A call
    runs without interruption here; PoolTasks interleaves them. *)

From S2P Require Import Prelude Bytes Config MysqlResponse CircuitBreaker.

(** The world of the proxy: connections of type [C], a clock in nanoseconds, the
    milliseconds since the epoch, random numbers and the log level.  [interrupted c sql
    ms w] is what is left of a query that has not finished after [ms] milliseconds.  An
    error is its text. *)
Class BackendIO (W C : Type) := {
  connect_backend : BackendConfig -> W -> result bytes C * W;
  execute_query : C -> bytes -> W -> result bytes BackendResponse * C * W;
  send_raw : C -> bytes -> W -> result bytes BackendResponse * C * W;
  send_raw_no_response : C -> bytes -> W -> result bytes unit * C * W;
  ping : C -> W -> result bytes unit * C * W;
  in_transaction : C -> bool;
  is_healthy : C -> bool;
  backend_conn_id : C -> option Z;
  interrupted : C -> bytes -> Z -> W -> option (C * W);
  now_ns : W -> Z;
  unix_ms : W -> Z;
  draw : W -> nat -> Z;
  info_log : W -> bool
}.
Definition unix_secs {W C} `{BackendIO W C} (w : W) : Z := unix_ms w / 1000.

Record BackendHealth := { healthy : bool; lag_ms : Z; consecutive_failures : Z }.
Definition health_new (initial : bool) : BackendHealth :=
  {| healthy := initial; lag_ms := 0; consecutive_failures := 0 |}.
Definition set_healthy (b : bool) (h : BackendHealth) : BackendHealth :=
  {| healthy := b; lag_ms := lag_ms h; consecutive_failures := consecutive_failures h |}.

Record PooledConn (C : Type) := { conn : C; idle_since : Z }.
Arguments conn {C}.
Arguments idle_since {C}.

(** The counters of one pool. *)
Record Counters := {
  borrowed : Z;
  connections_created : Z;
  connections_reused : Z;
  connections_evicted : Z;
  permits : option Z;          (* the semaphore, when there is a wait queue *)
  wait_queue_length : Z;
  wait_timeouts_total : Z
}.

(** [connections] keeps each vector with its last element first. *)
Record ConnectionPool (C : Type) := {
  config : BackendConfig;
  connections : gmap bytes (list (PooledConn C));
  max_size : nat;
  max_idle : option Z;
  weight : Z;
  backup : bool;
  wait_timeout_ms : Z;
  counters : Counters
}.
Arguments config {C}.
Arguments connections {C}.
Arguments max_size {C}.
Arguments max_idle {C}.
Arguments weight {C}.
Arguments backup {C}.
Arguments wait_timeout_ms {C}.
Arguments counters {C}.

Definition with_wait_queue {C} (cfg : BackendConfig) (size : nat) (idle : option Z)
    (wait_queue_size wait_timeout : Z) : ConnectionPool C :=
  {| config := cfg; connections := ∅; max_size := size; max_idle := idle;
     weight := cfg_weight cfg; backup := cfg_backup cfg; wait_timeout_ms := wait_timeout;
     counters := {| borrowed := 0; connections_created := 0; connections_reused := 0;
                    connections_evicted := 0;
                    permits := if 0 <? wait_queue_size then Some wait_queue_size else None;
                    wait_queue_length := 0; wait_timeouts_total := 0 |} |}.
Definition with_idle_timeout {C} (cfg : BackendConfig) (size : nat) (idle : option Z) : ConnectionPool C :=
  with_wait_queue cfg size idle 0 5000.

Definition set_counters {C} (k : Counters) (p : ConnectionPool C) : ConnectionPool C :=
  {| config := config p; connections := connections p; max_size := max_size p;
     max_idle := max_idle p; weight := weight p; backup := backup p;
     wait_timeout_ms := wait_timeout_ms p; counters := k |}.
Definition set_connections {C} (m : gmap bytes (list (PooledConn C))) (p : ConnectionPool C)
  : ConnectionPool C :=
  {| config := config p; connections := m; max_size := max_size p; max_idle := max_idle p;
     weight := weight p; backup := backup p; wait_timeout_ms := wait_timeout_ms p;
     counters := counters p |}.

Definition on_borrowed (f : Z -> Z) (k : Counters) : Counters :=
  {| borrowed := f (borrowed k); connections_created := connections_created k;
     connections_reused := connections_reused k; connections_evicted := connections_evicted k;
     permits := permits k; wait_queue_length := wait_queue_length k;
     wait_timeouts_total := wait_timeouts_total k |}.
Definition count_reused (k : Counters) : Counters :=
  {| borrowed := usize (borrowed k + 1); connections_created := connections_created k;
     connections_reused := usize (connections_reused k + 1);
     connections_evicted := connections_evicted k; permits := permits k;
     wait_queue_length := wait_queue_length k; wait_timeouts_total := wait_timeouts_total k |}.
Definition count_created (k : Counters) : Counters :=
  {| borrowed := usize (borrowed k + 1); connections_created := usize (connections_created k + 1);
     connections_reused := connections_reused k; connections_evicted := connections_evicted k;
     permits := permits k; wait_queue_length := wait_queue_length k;
     wait_timeouts_total := wait_timeouts_total k |}.
Definition count_evicted (n : nat) (k : Counters) : Counters :=
  {| borrowed := borrowed k; connections_created := connections_created k;
     connections_reused := connections_reused k;
     connections_evicted := usize (connections_evicted k + Z.of_nat n); permits := permits k;
     wait_queue_length := wait_queue_length k; wait_timeouts_total := wait_timeouts_total k |}.
Definition set_permits (n : option Z) (k : Counters) : Counters :=
  {| borrowed := borrowed k; connections_created := connections_created k;
     connections_reused := connections_reused k; connections_evicted := connections_evicted k;
     permits := n; wait_queue_length := wait_queue_length k;
     wait_timeouts_total := wait_timeouts_total k |}.
Definition count_timeout (k : Counters) : Counters :=
  {| borrowed := borrowed k; connections_created := connections_created k;
     connections_reused := connections_reused k; connections_evicted := connections_evicted k;
     permits := permits k; wait_queue_length := wait_queue_length k;
     wait_timeouts_total := usize (wait_timeouts_total k + 1) |}.

Definition db_key (database : option bytes) : bytes := default [] database.
(** [database.or(self.config.database)]. *)
Definition or_else {A} (a b : option A) : option A := match a with Some _ => a | None => b end.

(** Pop until an entry is fresh: the entry, the entries that stay, how many were evicted. *)
Fixpoint pop_fresh {C} (idle : option Z) (now : Z) (l : list (PooledConn C))
  : option C * list (PooledConn C) * nat :=
  match l with
  | [] => (None, [], 0%nat)
  | e :: l' =>
      if (match idle with Some max => max <=? now - idle_since e | None => false end)
      then let '(r, rest, n) := pop_fresh idle now l' in (r, rest, S n)
      else (Some (conn e), l', 0%nat)
  end.

Section OnePool.
Context {W C : Type} `{IO : !BackendIO W C}.

Definition P (A : Type) : Type := SE (ConnectionPool C * W) bytes A.

Definition upd_counters (f : Counters -> Counters) : P unit :=
  se_modify (fun s => (set_counters (f (counters (fst s))) (fst s), snd s)).

(** The idle connections of the wanted database. *)
Definition take_idle (key : bytes) : P (option C) := fun s =>
  let (p, w) := s in
  match connections p !! key with
  | None => (Ok None, s)
  | Some l =>
      let '(r, rest, n) := pop_fresh (max_idle p) (now_ns w) l in
      let k := count_evicted n (counters p) in
      let k := match r with Some _ => count_reused k | None => k end in
      (Ok r, (set_counters k (set_connections (<[key := rest]> (connections p)) p), w))
  end.

Definition limit_message (cfg : BackendConfig) (max : Z) : bytes :=
  bs "backend " ++ addr cfg ++ bs " connection limit reached (max: " ++ show_u64 max
  ++ bs "); try again later".
Definition timeout_message (cfg : BackendConfig) (max wait_ms : Z) : bytes :=
  bs "backend " ++ addr cfg ++ bs " connection limit reached and wait queue timed out (max: "
  ++ show_u64 max ++ bs ", timeout: " ++ show_u64 wait_ms ++ bs "ms)".

(** The limit on borrowed connections.  Waiting for a permit ends at once when there
    is one; otherwise it times out, unless another task puts a connection back, which
    is the run in which that task is scheduled first. *)
Definition enforce_limit : P unit :=
  s ← se_get;
  let k := counters (fst s) in
  match max_connections (config (fst s)) with
  | Some max =>
      if max <=? borrowed k then
        match permits k with
        | Some n =>
            if 0 <? n then upd_counters (set_permits (Some (n - 1)))
            else upd_counters count_timeout ;;
                 se_fail (timeout_message (config (fst s)) max (wait_timeout_ms (fst s)))
        | None => se_fail (limit_message (config (fst s)) max)
        end
      else mret tt
  | None => mret tt
  end.

Definition connect (cfg : BackendConfig) : P C := fun s =>
  let (r, w) := connect_backend cfg (snd s) in (r, (fst s, w)).
Definition query (c : C) (sql : bytes) : P (result bytes BackendResponse * C) := fun s =>
  let '(r, c', w) := execute_query c sql (snd s) in (Ok (r, c'), (fst s, w)).

(** The [init_connect] statements; the first failure discards the connection. *)
Fixpoint run_init (sqls : list bytes) (c : C) : P C :=
  match sqls with
  | [] => mret c
  | sql :: sqls' =>
      rc ← query c sql;
      match fst rc with
      | Ok _ => run_init sqls' (snd rc)
      | Err e => se_fail (bs "init_connect failed: " ++ e)
      end
  end.

Definition get_for_database (database : option bytes) : P C :=
  s ← se_get;
  let cfg := config (fst s) in
  let key := db_key (or_else database (cfg_database cfg)) in
  r ← take_idle key;
  match r with
  | Some c => mret c
  | None =>
      enforce_limit ;;
      let connect_cfg := with_database (match key with [] => None | _ => Some key end) cfg in
      c ← connect connect_cfg;
      c ← run_init (init_connect connect_cfg) c;
      upd_counters count_created ;;
      mret c
  end.

Definition get : P C := s ← se_get; get_for_database (cfg_database (config (fst s))).

Definition put_for_database (c : C) (database : option bytes) : P unit := fun s =>
  let (p, w) := s in
  let k := on_borrowed (fun b => usize (b - 1)) (counters p) in
  let k := match permits k with Some n => set_permits (Some (n + 1)) k | None => k end in
  let p := set_counters k p in
  if in_transaction c || negb (is_healthy c) then (Ok tt, (p, w))
  else
    let key := db_key (or_else database (cfg_database (config p))) in
    let bucket := default [] (connections p !! key) in
    let bucket := if (length bucket <? max_size p)%nat
                  then {| conn := c; idle_since := now_ns w |} :: bucket else bucket in
    (Ok tt, (set_connections (<[key := bucket]> (connections p)) p, w)).

Definition put (c : C) : P unit :=
  s ← se_get; put_for_database c (cfg_database (config (fst s))).

(** Idle, in use, created, reused, evicted. *)
Definition snapshot (p : ConnectionPool C) : nat * Z * Z * Z * Z :=
  (map_fold (fun _ l n => (length l + n)%nat) 0%nat (connections p),
   borrowed (counters p), connections_created (counters p), connections_reused (counters p),
   connections_evicted (counters p)).
End OnePool.

(** ** The pools of all backends *)

Record GrMember := { gm_addr : bytes; gm_role : bytes; gm_state : bytes; gm_version : bytes }.

Record BackendPool (C : Type) := {
  primary : ConnectionPool C;
  replicas : list (ConnectionPool C);
  replica_index : Z;
  primary_health : BackendHealth;
  replica_health : list BackendHealth;
  failover_idx : Z;
  gr_primary_idx : Z;
  gr_members : list GrMember;
  failover_events_total : Z;
  failover_flap_total : Z;
  recovery_checks : Z;
  failover_triggered_at : Z;
  replica_breakers : list CircuitBreaker;
  primary_breaker : CircuitBreaker
}.
Arguments primary {C}.
Arguments replicas {C}.
Arguments replica_index {C}.
Arguments primary_health {C}.
Arguments replica_health {C}.
Arguments failover_idx {C}.
Arguments gr_primary_idx {C}.
Arguments gr_members {C}.
Arguments failover_events_total {C}.
Arguments failover_flap_total {C}.
Arguments recovery_checks {C}.
Arguments failover_triggered_at {C}.
Arguments replica_breakers {C}.
Arguments primary_breaker {C}.

Definition with_options {C} (primary_config : BackendConfig) (replica_configs : list BackendConfig)
    (pool_size : nat) (idle : option Z) (cb_threshold cb_recovery_ms : Z)
    (wait_queue_size wait_timeout : Z) : BackendPool C :=
  {| primary := with_wait_queue primary_config pool_size idle wait_queue_size wait_timeout;
     replicas := map (fun c => with_wait_queue c pool_size idle wait_queue_size wait_timeout)
                     replica_configs;
     replica_index := 0; primary_health := health_new true;
     replica_health := map (fun _ => health_new true) replica_configs;
     failover_idx := -1; gr_primary_idx := -1; gr_members := [];
     failover_events_total := 0; failover_flap_total := 0; recovery_checks := 0;
     failover_triggered_at := 0;
     replica_breakers := map (fun _ => CircuitBreaker.new cb_threshold cb_recovery_ms) replica_configs;
     primary_breaker := CircuitBreaker.new cb_threshold cb_recovery_ms |}.

Section Setters.
Context {C : Type}.
Implicit Types p : BackendPool C.

Definition set_primary x p : BackendPool C :=
  {| primary := x; replicas := replicas p; replica_index := replica_index p;
     primary_health := primary_health p; replica_health := replica_health p;
     failover_idx := failover_idx p; gr_primary_idx := gr_primary_idx p; gr_members := gr_members p;
     failover_events_total := failover_events_total p; failover_flap_total := failover_flap_total p;
     recovery_checks := recovery_checks p; failover_triggered_at := failover_triggered_at p;
     replica_breakers := replica_breakers p; primary_breaker := primary_breaker p |}.
Definition set_replicas x p : BackendPool C :=
  {| primary := primary p; replicas := x; replica_index := replica_index p;
     primary_health := primary_health p; replica_health := replica_health p;
     failover_idx := failover_idx p; gr_primary_idx := gr_primary_idx p; gr_members := gr_members p;
     failover_events_total := failover_events_total p; failover_flap_total := failover_flap_total p;
     recovery_checks := recovery_checks p; failover_triggered_at := failover_triggered_at p;
     replica_breakers := replica_breakers p; primary_breaker := primary_breaker p |}.
Definition set_replica_index x p : BackendPool C :=
  {| primary := primary p; replicas := replicas p; replica_index := x;
     primary_health := primary_health p; replica_health := replica_health p;
     failover_idx := failover_idx p; gr_primary_idx := gr_primary_idx p; gr_members := gr_members p;
     failover_events_total := failover_events_total p; failover_flap_total := failover_flap_total p;
     recovery_checks := recovery_checks p; failover_triggered_at := failover_triggered_at p;
     replica_breakers := replica_breakers p; primary_breaker := primary_breaker p |}.
Definition set_health ph rh p : BackendPool C :=
  {| primary := primary p; replicas := replicas p; replica_index := replica_index p;
     primary_health := ph; replica_health := rh;
     failover_idx := failover_idx p; gr_primary_idx := gr_primary_idx p; gr_members := gr_members p;
     failover_events_total := failover_events_total p; failover_flap_total := failover_flap_total p;
     recovery_checks := recovery_checks p; failover_triggered_at := failover_triggered_at p;
     replica_breakers := replica_breakers p; primary_breaker := primary_breaker p |}.
Definition set_breakers pb rb p : BackendPool C :=
  {| primary := primary p; replicas := replicas p; replica_index := replica_index p;
     primary_health := primary_health p; replica_health := replica_health p;
     failover_idx := failover_idx p; gr_primary_idx := gr_primary_idx p; gr_members := gr_members p;
     failover_events_total := failover_events_total p; failover_flap_total := failover_flap_total p;
     recovery_checks := recovery_checks p; failover_triggered_at := failover_triggered_at p;
     replica_breakers := rb; primary_breaker := pb |}.
(** The high-availability fields, all at once. *)
Definition set_ha idx events flaps checks at_ p : BackendPool C :=
  {| primary := primary p; replicas := replicas p; replica_index := replica_index p;
     primary_health := primary_health p; replica_health := replica_health p;
     failover_idx := idx; gr_primary_idx := gr_primary_idx p; gr_members := gr_members p;
     failover_events_total := events; failover_flap_total := flaps;
     recovery_checks := checks; failover_triggered_at := at_;
     replica_breakers := replica_breakers p; primary_breaker := primary_breaker p |}.
Definition set_gr idx members p : BackendPool C :=
  {| primary := primary p; replicas := replicas p; replica_index := replica_index p;
     primary_health := primary_health p; replica_health := replica_health p;
     failover_idx := failover_idx p; gr_primary_idx := idx; gr_members := members;
     failover_events_total := failover_events_total p; failover_flap_total := failover_flap_total p;
     recovery_checks := recovery_checks p; failover_triggered_at := failover_triggered_at p;
     replica_breakers := replica_breakers p; primary_breaker := primary_breaker p |}.

Definition mark_replica (b : bool) (i : nat) (p : BackendPool C) : BackendPool C :=
  set_health (primary_health p) (alter (set_healthy b) i (replica_health p)) p.
End Setters.

(** The index of the replica a non-negative [i64] names, if there is one. *)
Definition named_replica {C} (idx : Z) (p : BackendPool C) : option nat :=
  if (0 <=? idx) && (Z.to_nat idx <? length (replicas p))%nat then Some (Z.to_nat idx) else None.

(** [get_primary] and [put_primary] look for the primary's pool in different ways. *)
Inductive which := ThePrimary | Replica (i : nat).
#[export] Instance which_eq_dec : EqDecision which.
Proof. solve_decision. Defined.

Definition failover_active {C} (p : BackendPool C) : bool := 0 <=? failover_idx p.

Definition serving_primary {C} (p : BackendPool C) : which :=
  match named_replica (gr_primary_idx p) p with
  | Some i => Replica i
  | None => match named_replica (failover_idx p) p with Some i => Replica i | None => ThePrimary end
  end.
Definition returning_primary {C} (p : BackendPool C) : which :=
  match named_replica (failover_idx p) p with Some i => Replica i | None => ThePrimary end.

Definition pool_of {C} (x : which) (p : BackendPool C) : option (ConnectionPool C) :=
  match x with ThePrimary => Some (primary p) | Replica i => replicas p !! i end.
Definition set_pool_of {C} (x : which) (cp : ConnectionPool C) (p : BackendPool C) : BackendPool C :=
  match x with ThePrimary => set_primary cp p | Replica i => set_replicas (<[i := cp]> (replicas p)) p end.

Definition primary_addr {C} (p : BackendPool C) : bytes :=
  match pool_of (serving_primary p) p with Some cp => addr (config cp) | None => [] end.

Definition now_ms_of (ns : Z) : Z := ns / 1000000.

(** Index and weight of the candidates of one pass, the weight being at least one. *)
Definition total_weight (cands : list (nat * Z)) : Z :=
  foldl (fun acc iw => u32 (acc + snd iw)) 0 cands.

(** The first candidate whose accumulated weight exceeds the slot. *)
Fixpoint choose (slot acc : Z) (dflt : nat) (cands : list (nat * Z)) : nat :=
  match cands with
  | [] => dflt
  | (i, w) :: cands' =>
      let acc := u32 (acc + w) in
      if slot <? acc then i else choose slot acc dflt cands'
  end.

Section AllPools.
Context {W C : Type} `{IO : !BackendIO W C}.

Definition B (A : Type) : Type := SE (BackendPool C * W) bytes A.

(** Run an operation of one pool. *)
Definition on_pool {A} (x : which) (m : SE (ConnectionPool C * W) bytes A) : B A := fun s =>
  match pool_of x (fst s) with
  | Some cp =>
      let '(r, (cp', w')) := m (cp, snd s) in (r, (set_pool_of x cp' (fst s), w'))
  | None => (Err (bs "panic: index out of bounds"), s)
  end.

Definition upd_pool (f : BackendPool C -> BackendPool C) : B unit :=
  se_modify (fun s => (f (fst s), snd s)).

(** [breaker.allows()] of the primary and of a replica. *)
Definition primary_allows : B bool := fun s =>
  let (b, cb) := allows (now_ms_of (now_ns (snd s))) (primary_breaker (fst s)) in
  (Ok b, (set_breakers cb (replica_breakers (fst s)) (fst s), snd s)).
Definition replica_allows (i : nat) : B bool := fun s =>
  match replica_breakers (fst s) !! i with
  | Some cb =>
      let (b, cb') := allows (now_ms_of (now_ns (snd s))) cb in
      (Ok b, (set_breakers (primary_breaker (fst s)) (<[i := cb']> (replica_breakers (fst s))) (fst s),
              snd s))
  | None => (Err (bs "panic: index out of bounds"), s)
  end.

Definition get_primary_for_database (database : option bytes) : B C :=
  s ← se_get;
  match serving_primary (fst s) with
  | Replica i => on_pool (Replica i) (get_for_database database)
  | ThePrimary =>
      ok ← primary_allows;
      if ok : bool then on_pool ThePrimary (get_for_database database)
      else se_fail (bs "[CB] primary circuit breaker is open")
  end.
Definition get_primary : B C := get_primary_for_database None.

(** The filter of the candidates; the breaker is asked last. *)
Fixpoint candidates_from (backup_pass : bool) (i : nat) (rs : list (ConnectionPool C)) : B (list (nat * Z)) :=
  match rs with
  | [] => mret []
  | r :: rs' =>
      s ← se_get;
      ok ← (if Bool.eqb (backup r) backup_pass
               && match replica_health (fst s) !! i with Some h => healthy h | None => false end
            then replica_allows i else mret false);
      rest ← candidates_from backup_pass (S i) rs';
      mret (if ok : bool then (i, Z.max (weight r) 1) :: rest else rest)
  end.

(** After the chosen replica failed: the others in order, each marked as it fails. *)
Fixpoint try_others (chosen : nat) (database : option bytes) (cands : list (nat * Z))
  : B (option (C * nat)) :=
  match cands with
  | [] => mret None
  | (i, _) :: cands' =>
      if (i =? chosen)%nat then try_others chosen database cands'
      else
        r ← se_try (on_pool (Replica i) (get_for_database database));
        match r with
        | Ok c => mret (Some (c, i))
        | Err _ => upd_pool (mark_replica false i) ;; try_others chosen database cands'
        end
  end.

Definition try_weighted_replica (backup_pass : bool) (database : option bytes) : B (option (C * nat)) :=
  s ← se_get;
  cands ← candidates_from backup_pass 0 (replicas (fst s));
  match cands with
  | [] => mret None
  | (first, _) :: _ =>
      let total := total_weight cands in
      s ← se_get;
      let slot := u32 (replica_index (fst s) mod total) in
      upd_pool (fun p => set_replica_index (usize (replica_index p + 1)) p) ;;
      if total =? 0 then se_fail (bs "panic: remainder with a divisor of zero") else
      let chosen := choose slot 0 first cands in
      r ← se_try (on_pool (Replica chosen) (get_for_database database));
      match r with
      | Ok c => mret (Some (c, chosen))
      | Err _ => upd_pool (mark_replica false chosen) ;; try_others chosen database cands
      end
  end.

(** The connection and the replica's index, or [usize_max] for the primary. *)
Definition get_replica_for_database (database : option bytes) : B (C * Z) :=
  s ← se_get;
  let fallback : B (C * Z) := (c ← get_primary_for_database database; mret (c, usize_max)) in
  match replicas (fst s) with
  | [] => fallback
  | _ =>
      r ← try_weighted_replica false database;
      match r with
      | Some (c, i) => mret (c, Z.of_nat i)
      | None =>
          r ← try_weighted_replica true database;
          match r with
          | Some (c, i) => mret (c, Z.of_nat i)
          | None => fallback
          end
      end
  end.

Definition get_hostgroup_for_database (hostgroup : Z) (database : option bytes) : B (C * Z) :=
  let fallback : B (C * Z) := (c ← get_primary_for_database database; mret (c, usize_max)) in
  if hostgroup =? 0 then fallback
  else
    s ← se_get;
    let i := Z.to_nat (hostgroup - 1) in
    if (i <? length (replicas (fst s)))%nat
       && match replica_health (fst s) !! i with Some h => healthy h | None => false end
    then
      r ← se_try (on_pool (Replica i) (get_for_database database));
      match r with
      | Ok c => mret (c, Z.of_nat i)
      | Err _ => upd_pool (mark_replica false i) ;; fallback
      end
    else fallback.

Definition put_primary_for_database (c : C) (database : option bytes) : B unit :=
  s ← se_get; on_pool (returning_primary (fst s)) (put_for_database c database).

(** Nothing happens for an index that names no replica, such as [usize_max]. *)
Definition put_replica_for_database (c : C) (idx : Z) (database : option bytes) : B unit :=
  s ← se_get;
  if (idx <? Z.of_nat (length (replicas (fst s))))
  then on_pool (Replica (Z.to_nat idx)) (put_for_database c database)
  else mret tt.
End AllPools.

(** ** Snapshots *)

Record PoolStats := {
  ps_primary : nat * Z * Z * Z * Z;
  ps_replicas : nat * Z * Z * Z * Z;
  replica_count : nat;
  ps_failover_active : bool;
  ps_failover_events_total : Z;
  ps_failover_flap_total : Z
}.

Definition add_stats (a b : nat * Z * Z * Z * Z) : nat * Z * Z * Z * Z :=
  let '(i, u, c, r, e) := a in let '(i', u', c', r', e') := b in
  ((i + i')%nat, usize (u + u'), usize (c + c'), usize (r + r'), usize (e + e')).

Definition pool_stats {C} (p : BackendPool C) : PoolStats :=
  {| ps_primary := snapshot (primary p);
     ps_replicas := foldl (fun acc r => add_stats acc (snapshot r)) (0%nat, 0, 0, 0, 0) (replicas p);
     replica_count := length (replicas p); ps_failover_active := failover_active p;
     ps_failover_events_total := failover_events_total p;
     ps_failover_flap_total := failover_flap_total p |}.

Record BackendStat := {
  bst_addr : bytes; bst_role : bytes; bst_hostgroup : nat; bst_weight : Z; bst_backup : bool;
  bst_healthy : bool; bst_lag_ms : Z; bst_failures : Z; bst_snapshot : nat * Z * Z * Z * Z
}.

Definition replica_stat {C} (i : nat) (r : ConnectionPool C) (h : BackendHealth) : BackendStat :=
  {| bst_addr := addr (config r); bst_role := bs "replica"; bst_hostgroup := i + 1;
     bst_weight := weight r; bst_backup := backup r; bst_healthy := healthy h;
     bst_lag_ms := lag_ms h; bst_failures := consecutive_failures h; bst_snapshot := snapshot r |}.

Definition backend_stats {C} (p : BackendPool C) : list BackendStat :=
  {| bst_addr := addr (config (primary p)); bst_role := bs "primary"; bst_hostgroup := 0;
     bst_weight := cfg_weight (config (primary p)); bst_backup := false;
     bst_healthy := healthy (primary_health p); bst_lag_ms := 0;
     bst_failures := consecutive_failures (primary_health p);
     bst_snapshot := snapshot (primary p) |}
  :: imap (fun i r => replica_stat i r (default (health_new false) (replica_health p !! i))) (replicas p).

(** ** One pool: lemmas *)

Lemma pop_fresh_spec {C} idle now (l : list (PooledConn C)) r rest n :
  pop_fresh idle now l = (r, rest, n) ->
  (length rest <= length l)%nat /\
  (forall c, r = Some c -> exists e, e ∈ l /\ conn e = c /\
     match idle with Some max => now - idle_since e < max | None => True end) /\
  (forall e, e ∈ rest -> e ∈ l).
Proof.
  revert r rest n. induction l as [|e l IH]; intros r rest n; cbn [pop_fresh].
  - by intros [= <- <- <-].
  - destruct (match idle with Some _ => _ | None => _ end) eqn:E.
    + destruct (pop_fresh idle now l) as [[r' rest'] n'] eqn:Ep. intros [= <- <- <-].
      destruct (IH _ _ _ eq_refl) as (H1 & H3 & H4). split_and!.
      * simpl. lia.
      * intros c ->. destruct (H3 c eq_refl) as (e' & ? & ? & ?). exists e'.
        split_and!; try done. by right.
      * intros e' He'. right. by apply H4.
    + intros [= <- <- <-]. split_and!.
      * simpl. lia.
      * intros c [= <-]. exists e. split_and!; try done; [by left|].
        destruct idle; [|done]. bool_to_prop. lia.
      * intros e' He'. by right.
Qed.

Section OnePoolLemmas.
Context {W C : Type} `{IO : !BackendIO W C}.
Implicit Types (p : ConnectionPool C) (s : ConnectionPool C * W).

(** The parts of a pool that no operation changes. *)
Definition same_config p p' : Prop :=
  config p' = config p /\ max_size p' = max_size p /\ max_idle p' = max_idle p /\
  weight p' = weight p /\ backup p' = backup p.

Lemma same_config_refl p : same_config p p.
Proof. done. Qed.

Lemma run_init_pool sqls c s : fst (snd (run_init sqls c s)) = fst s.
Proof.
  revert c s. induction sqls as [|sql sqls IH]; intros c s; [done|]. cbn [run_init].
  unfold mbind, se_bind, query. destruct (execute_query c sql (snd s)) as [[r c'] w'].
  cbn [fst snd]. destruct r; [|done]. by rewrite IH.
Qed.

Lemma enforce_limit_cases s :
  let k := counters (fst s) in
  (exists e k', enforce_limit s = (Err e, (set_counters k' (fst s), snd s)) /\ borrowed k' = borrowed k /\
     (exists max, max_connections (config (fst s)) = Some max /\ max <= borrowed k) /\
     match permits k with Some n => n <= 0 | None => True end) \/
  (exists k', enforce_limit s = (Ok tt, (set_counters k' (fst s), snd s)) /\ borrowed k' = borrowed k /\
     connections_created k' = connections_created k /\
     (match max_connections (config (fst s)) with
      | Some max => borrowed k < max \/ exists n, permits k = Some n /\ 0 < n
      | None => True end)).
Proof.
  destruct s as [p w]. unfold enforce_limit, mbind, se_bind, se_get. cbn [fst snd].
  assert (set_counters (counters p) p = p) as Hid by (by destruct p).
  destruct (max_connections (config p)) as [max|] eqn:Em.
  - destruct (max <=? borrowed (counters p)) eqn:El; bool_to_prop.
    + destruct (permits (counters p)) as [n|] eqn:Ep.
      * destruct (0 <? n) eqn:En; bool_to_prop; cbn.
        -- right. eexists. split_and!; [reflexivity | done | done |]. right. by exists n.
        -- left. eexists _, _. split_and!; [reflexivity | done | by exists max | lia].
      * left. exists (limit_message (config p) max), (counters p). cbn. rewrite Hid. split_and!; try done.
        by exists max.
    + right. exists (counters p). cbn. rewrite Hid. split_and!; try done. by left.
  - right. exists (counters p). cbn. rewrite Hid. done.
Qed.

Definition is_fresh p (now : Z) (e : PooledConn C) : Prop :=
  match max_idle p with Some m => now - idle_since e < m | None => True end.

Lemma take_idle_spec key s :
  exists r p', take_idle key s = (Ok r, (p', snd s)) /\ same_config (fst s) p' /\
  permits (counters p') = permits (counters (fst s)) /\
  match r with
  | None => borrowed (counters p') = borrowed (counters (fst s)) /\
      connections_created (counters p') = connections_created (counters (fst s))
  | Some c => borrowed (counters p') = usize (borrowed (counters (fst s)) + 1) /\
      connections_reused (counters p') = usize (connections_reused (counters (fst s)) + 1) /\
      exists l e, connections (fst s) !! key = Some l /\ e ∈ l /\ conn e = c /\
        is_fresh (fst s) (now_ns (snd s)) e
  end.
Proof.
  destruct s as [p w]. unfold take_idle. cbn [fst snd].
  destruct (connections p !! key) as [l|] eqn:El; [|by exists None, p].
  destruct (pop_fresh (max_idle p) (now_ns w) l) as [[r rest] n] eqn:Ep.
  apply pop_fresh_spec in Ep as (_ & H3 & _).
  eexists r, _. split; [reflexivity|]. destruct r as [c|]; [|done].
  destruct (H3 c eq_refl) as (e & H4 & H5 & H6). split_and!; try done. by exists l, e.
Qed.

(** How a get succeeded: with an idle connection of the database, or with a new one
    while the limit, if there is one, allowed it. *)
Definition reused_idle database s (c : C) p' : Prop :=
  connections_reused (counters p') = usize (connections_reused (counters (fst s)) + 1) /\
  exists l e, connections (fst s) !! db_key (or_else database (cfg_database (config (fst s)))) = Some l /\
    e ∈ l /\ conn e = c /\ is_fresh (fst s) (now_ns (snd s)) e.
Definition opened_new s p' : Prop :=
  connections_created (counters p') = usize (connections_created (counters (fst s)) + 1) /\
  match max_connections (config (fst s)) with
  | Some max => borrowed (counters (fst s)) < max \/ exists n, permits (counters (fst s)) = Some n /\ 0 < n
  | None => True
  end.

Lemma get_spec database s r s' :
  get_for_database database s = (r, s') ->
  same_config (fst s) (fst s') /\
  match r with
  | Err _ => borrowed (counters (fst s')) = borrowed (counters (fst s))
  | Ok c => borrowed (counters (fst s')) = usize (borrowed (counters (fst s)) + 1) /\
      (reused_idle database s c (fst s') \/ opened_new s (fst s'))
  end.
Proof.
  unfold get_for_database. unfold mbind at 1, se_bind at 1, se_get. cbv beta iota zeta.
  unfold mbind at 1, se_bind at 1.
  destruct (take_idle_spec (db_key (or_else database (cfg_database (config (fst s))))) s)
    as (r1 & p1 & -> & Hc1 & Hperm & H1).
  destruct r1 as [c|].
  { intros [= <- <-]. split; [done|]. destruct H1 as (H1 & H2 & H3). split; [done|]. by left. }
  destruct H1 as [H1 H1']. unfold mbind at 1, se_bind at 1.
  destruct (enforce_limit_cases (p1, snd s)) as [(e & k & -> & H2 & _)|(k & -> & H2 & H2' & H3)].
  { intros [= <- <-]. cbn [fst snd counters set_counters] in *. split; [done|]. congruence. }
  cbn [fst snd] in *. unfold mbind at 1, se_bind at 1, connect. cbn [fst snd].
  destruct (connect_backend _ (snd s)) as [[c|e] w1].
  2: { intros [= <- <-]. cbn [fst snd counters set_counters] in *. split; [done|]. congruence. }
  unfold mbind at 1, se_bind at 1.
  pose proof (run_init_pool (init_connect (with_database
    match db_key (or_else database (cfg_database (config (fst s)))) with
    | [] => None | _ :: _ => Some (db_key (or_else database (cfg_database (config (fst s))))) end
    (config (fst s)))) c (set_counters k p1, w1)) as Hrun.
  destruct (run_init _ c _) as [[c2|e] [p2 w2]]; cbn [fst snd] in Hrun; subst p2.
  2: { intros [= <- <-]. cbn [fst snd counters set_counters] in *. split; [done|]. congruence. }
  intros [= <- <-]. cbn [fst snd counters set_counters count_created borrowed] in *.
  split; [done|]. split; [congruence|]. right. unfold opened_new.
  cbn [counters set_counters count_created connections_created]. split; [congruence|].
  destruct Hc1 as (Hcfg & _). rewrite Hcfg in H3. destruct (max_connections _); [|done].
  destruct H3 as [H3|(n & H3 & H4)]; [left; lia | right; exists n; split; [congruence|done]].
Qed.

Lemma put_spec c database s :
  let s' := snd (put_for_database c database s) in
  fst (put_for_database c database s) = Ok tt /\ snd s' = snd s /\ same_config (fst s) (fst s') /\
  borrowed (counters (fst s')) = usize (borrowed (counters (fst s)) - 1) /\
  permits (counters (fst s')) = (fun n => n + 1) <$> permits (counters (fst s)).
Proof.
  destruct s as [p w]. unfold put_for_database.
  destruct (permits (counters p)) eqn:Ep; cbn; case_match; cbn; rewrite ?Ep; done.
Qed.

(** What every pool keeps: buckets within the size limit, holding only connections
    that may be handed to anyone. *)
Definition pool_wf p : Prop :=
  map_Forall (fun _ l => (length l <= max_size p)%nat /\
    Forall (fun e => in_transaction (conn e) = false /\ is_healthy (conn e) = true) l) (connections p).

Lemma with_wait_queue_wf cfg size idle n t : pool_wf (with_wait_queue cfg size idle n t).
Proof. apply map_Forall_empty. Qed.

Lemma take_idle_wf key s : pool_wf (fst s) -> pool_wf (fst (snd (take_idle key s))).
Proof.
  destruct s as [p w]. cbn [fst]. intros Hwf. unfold take_idle.
  destruct (connections p !! key) as [l|] eqn:El; [|done].
  destruct (pop_fresh (max_idle p) (now_ns w) l) as [[r rest] n] eqn:Ep.
  apply pop_fresh_spec in Ep as (H1 & _ & H4). cbn [snd fst].
  destruct (Hwf _ _ El) as [Hlen Hall]. apply map_Forall_insert_2; [|exact Hwf].
  cbn [max_size set_counters set_connections]. split; [lia|].
  rewrite Forall_forall in *. intros e He. apply Hall, list_elem_of_In, H4. by apply list_elem_of_In.
Qed.

Lemma pool_get_wf database s : pool_wf (fst s) -> pool_wf (fst (snd (get_for_database database s))).
Proof.
  intros Hwf. unfold get_for_database. unfold mbind at 1, se_bind at 1, se_get. cbv beta iota zeta.
  set (key := db_key _). unfold mbind at 1, se_bind at 1.
  pose proof (take_idle_wf key s Hwf) as H1. destruct (take_idle_spec key s) as (r1 & p1 & E & _).
  rewrite E in *. cbn [fst snd] in H1. destruct r1 as [c|]; [done|].
  unfold mbind at 1, se_bind at 1.
  destruct (enforce_limit_cases (p1, snd s)) as [(e & k & -> & _)|(k & -> & _)]; [done|].
  unfold mbind at 1, se_bind at 1, connect. cbn [fst snd].
  destruct (connect_backend _ (snd s)) as [[c|e] w1]; [|done].
  unfold mbind at 1, se_bind at 1.
  match goal with |- context [run_init ?l c ?st] => pose proof (run_init_pool l c st) as Hrun;
    destruct (run_init l c st) as [[c2|e] [p2 w2]] end; cbn [fst snd] in Hrun; subst p2; done.
Qed.

Lemma pool_put_wf c database s : pool_wf (fst s) -> pool_wf (fst (snd (put_for_database c database s))).
Proof.
  destruct s as [p w]. cbn [fst]. intros Hwf. unfold put_for_database.
  destruct (in_transaction c || negb (is_healthy c)) eqn:Eh; [by destruct (permits _)|].
  apply orb_false_iff in Eh as [Ht Hh]. apply negb_false_iff in Hh. cbn [snd fst].
  assert (forall k m, pool_wf (set_counters k (set_connections m p)) <-> pool_wf (set_connections m p)) as Hk
    by done.
  set (key := db_key _). destruct (permits (counters p));
    cbn [connections set_counters set_connections max_size config];
    (apply map_Forall_insert_2; [|exact Hwf]); cbn [max_size set_counters set_connections];
    (destruct (connections p !! key) as [l|] eqn:El; cbn [default];
     [destruct (Hwf _ _ El) as [Hlen Hall] | assert (length ([] : list (PooledConn C)) <= max_size p)%nat as Hlen by (simpl; lia);
      assert (Forall (fun e : PooledConn C => in_transaction (conn e) = false /\ is_healthy (conn e) = true) []) as Hall by done]);
    unfold id; case_match eqn:Eb; try done; apply Nat.ltb_lt in Eb;
    (split; [simpl; lia | constructor; [done | exact Hall]]).
Qed.

(** Calls on one pool. *)
Inductive pool_op := OpGet (database : option bytes) | OpPut (c : C) (database : option bytes).
Definition apply_op (op : pool_op) s : ConnectionPool C * W :=
  match op with
  | OpGet d => snd (get_for_database d s)
  | OpPut c d => snd (put_for_database c d s)
  end.
Inductive pool_step : ConnectionPool C * W -> ConnectionPool C * W -> Prop :=
| step_op op s : pool_step s (apply_op op s)
| step_world p w w' : pool_step (p, w) (p, w').

Lemma reachable_wf s s' : steps pool_step s s' -> pool_wf (fst s) -> pool_wf (fst s').
Proof.
  intros Hs. apply (steps_invariant pool_step (fun s => pool_wf (fst s))); [|exact Hs].
  intros s1 s2 H1 H2. destruct H2 as [op s0|p w w']; [|exact H1].
  destruct op; [by apply pool_get_wf | by apply pool_put_wf].
Qed.


(** The borrowed counter counts: a successful get adds one, a failed get adds
    nothing, and putting back takes one away, modulo 2^64. *)
Theorem borrowed_accounting s database c s' :
  get_for_database database s = (Ok c, s') -> in_width 64 (borrowed (counters (fst s))) ->
  forall database' w,
  borrowed (counters (fst (snd (put_for_database c database' (fst s', w)))))
  = borrowed (counters (fst s)) /\
  (forall d e s2, get_for_database d s = (Err e, s2) ->
     borrowed (counters (fst s2)) = borrowed (counters (fst s))).
Proof.
  intros Hg Hw database' w. apply get_spec in Hg as (_ & Hb & _). split.
  - destruct (put_spec c database' (fst s', w)) as (_ & _ & _ & -> & _). cbn [fst].
    rewrite Hb. unfold usize. replace (wrap 64 (borrowed (counters (fst s)) + 1) - 1)
      with (wrap 64 (borrowed (counters (fst s)) + 1) + (-1)) by lia.
    rewrite wrap_add_l. rewrite wrap_small; [lia|].
    replace (borrowed (counters (fst s)) + 1 + -1) with (borrowed (counters (fst s))) by lia. done.
  - intros d e s2 H. by apply get_spec in H as [_ ->].
Qed.
End OnePoolLemmas.

(** ** All pools: lemmas *)

Definition borrowed_of {C} (x : which) (p : BackendPool C) : option Z :=
  (fun cp => borrowed (counters cp)) <$> pool_of x p.

Section AllPoolsLemmas.
Context {W C : Type} `{IO : !BackendIO W C}.
Implicit Types (p : BackendPool C) (s : BackendPool C * W).

Lemma named_replica_some idx p i :
  named_replica idx p = Some i -> (i < length (replicas p))%nat /\ idx = Z.of_nat i.
Proof.
  unfold named_replica. destruct ((0 <=? idx) && _) eqn:E; [|done]. intros [= <-].
  apply andb_true_iff in E as [E1 E2]. apply Nat.ltb_lt in E2. bool_to_prop. lia.
Qed.

Lemma named_replica_length idx p p' :
  length (replicas p') = length (replicas p) -> named_replica idx p' = named_replica idx p.
Proof. unfold named_replica. by intros ->. Qed.

Lemma serving_pool p : exists cp, pool_of (serving_primary p) p = Some cp.
Proof.
  unfold serving_primary.
  destruct (named_replica (gr_primary_idx p) p) eqn:E1; [|destruct (named_replica (failover_idx p) p) eqn:E2];
    cbn [pool_of].
  - apply lookup_lt_is_Some. by apply named_replica_some in E1 as [? _].
  - apply lookup_lt_is_Some. by apply named_replica_some in E2 as [? _].
  - by eexists.
Qed.

Lemma set_pool_of_fields x cp p :
  failover_idx (set_pool_of x cp p) = failover_idx p /\
  gr_primary_idx (set_pool_of x cp p) = gr_primary_idx p /\
  length (replicas (set_pool_of x cp p)) = length (replicas p) /\
  replica_health (set_pool_of x cp p) = replica_health p.
Proof. destruct x; cbn; by rewrite ?length_insert. Qed.

Lemma pool_of_set x y cp cp0 p :
  pool_of x p = Some cp0 ->
  pool_of y (set_pool_of x cp p) = if decide (y = x) then Some cp else pool_of y p.
Proof.
  destruct x as [|i]; destruct y as [|j]; cbn [pool_of set_pool_of set_primary set_replicas primary replicas].
  - intros _. by rewrite decide_True.
  - intros _. by rewrite decide_False.
  - intros _. by rewrite decide_False.
  - intros Hi. destruct (decide (Replica j = Replica i)) as [[= ->]|Hn].
    + apply list_lookup_insert_eq. by eapply lookup_lt_Some.
    + apply list_lookup_insert_ne. congruence.
Qed.

Lemma on_pool_eq {A} x (m : SE (ConnectionPool C * W) bytes A) s cp :
  pool_of x (fst s) = Some cp ->
  on_pool x m s = (fst (m (cp, snd s)),
                   (set_pool_of x (fst (snd (m (cp, snd s)))) (fst s), snd (snd (m (cp, snd s))))).
Proof. unfold on_pool. intros ->. by destruct (m (cp, snd s)) as [r [cp' w']]. Qed.

(** A connection for the primary comes from the pool of the serving primary. *)
Lemma get_primary_spec database s r s' :
  get_primary_for_database database s = (r, s') ->
  exists cp cb, pool_of (serving_primary (fst s)) (fst s) = Some cp /\
  let p0 := set_breakers cb (replica_breakers (fst s)) (fst s) in
  (exists cp' w', get_for_database database (cp, snd s) = (r, (cp', w')) /\
     s' = (set_pool_of (serving_primary (fst s)) cp' p0, w')) \/
  (serving_primary (fst s) = ThePrimary /\ is_err r = true /\ s' = (p0, snd s)).
Proof.
  destruct (serving_pool (fst s)) as [cp Hcp].
  unfold get_primary_for_database. unfold mbind at 1, se_bind at 1, se_get. cbv beta iota zeta.
  destruct s as [p w]. cbn [fst snd] in *.
  destruct (serving_primary p) as [|i] eqn:Es.
  - unfold mbind, se_bind, primary_allows. cbn [fst snd].
    destruct (allows (now_ms_of (now_ns w)) (primary_breaker p)) as [ok cb].
    destruct ok.
    + rewrite (on_pool_eq _ _ _ cp) by done. intros [= <- <-]. exists cp, cb. split; [done|]. left.
      cbn [snd]. destruct (get_for_database database (cp, w)) as [r0 [cp' w']] eqn:Eg.
      by exists cp', w'.
    + intros [= <- <-]. exists cp, cb. split; [done|]. by right.
  - rewrite (on_pool_eq _ _ _ cp) by done. intros [= <- <-]. exists cp, (primary_breaker p). split; [done|].
    left. cbn [fst snd]. destruct (get_for_database database (cp, w)) as [r0 [cp' w']] eqn:Eg.
    exists cp', w'. split; [done|]. by destruct p.
Qed.

Lemma serving_after x cp cb rb p :
  serving_primary (set_pool_of x cp (set_breakers cb rb p)) = serving_primary p /\
  returning_primary (set_pool_of x cp (set_breakers cb rb p)) = returning_primary p.
Proof.
  destruct (set_pool_of_fields x cp (set_breakers cb rb p)) as (H1 & H2 & H3 & _).
  unfold serving_primary, returning_primary. rewrite H1, H2.
  cbn [failover_idx gr_primary_idx set_breakers].
  by rewrite !(named_replica_length _ p (set_pool_of x cp (set_breakers cb rb p))) by done.
Qed.

(** The counters after a get and after a put, pool by pool. *)
Lemma get_primary_borrowed database s c s' y b :
  get_primary_for_database database s = (Ok c, s') -> borrowed_of y (fst s) = Some b ->
  borrowed_of y (fst s') = Some (if decide (y = serving_primary (fst s)) then usize (b + 1) else b) /\
  serving_primary (fst s') = serving_primary (fst s) /\ returning_primary (fst s') = returning_primary (fst s).
Proof.
  intros Hg Hb. apply get_primary_spec in Hg as (cp & cb & Hcp & [(cp' & w' & Hg & ->)|(_ & ? & _)]); [|done].
  apply get_spec in Hg as (_ & Hbor & _). cbn [fst snd] in *.
  destruct (serving_after (serving_primary (fst s)) cp' cb (replica_breakers (fst s)) (fst s)) as [Hs1 Hs2].
  rewrite Hs1, Hs2. split; [|done]. unfold borrowed_of in *.
  rewrite (pool_of_set _ y cp' cp) by done. destruct (decide (y = serving_primary (fst s))) as [->|Hy]; [|exact Hb].
  rewrite Hcp in Hb. injection Hb as <-. cbn [fmap option_fmap option_map]. by rewrite Hbor.
Qed.

Lemma put_primary_borrowed c database s y b :
  borrowed_of y (fst s) = Some b ->
  fst (put_primary_for_database c database s) = Ok tt /\
  borrowed_of y (fst (snd (put_primary_for_database c database s)))
  = Some (if decide (y = returning_primary (fst s)) then usize (b - 1) else b).
Proof.
  intros Hb. assert (exists cz, pool_of (returning_primary (fst s)) (fst s) = Some cz) as [cz Hcz].
  { unfold returning_primary. destruct (named_replica (failover_idx (fst s)) (fst s)) eqn:E; cbn [pool_of]; [|by eexists].
    apply lookup_lt_is_Some. by apply named_replica_some in E as [? _]. }
  unfold put_primary_for_database. unfold mbind at 1 2, se_bind at 1 2, se_get.
  rewrite (on_pool_eq _ _ _ cz) by done. cbn [fst snd].
  destruct (put_spec c database (cz, snd s)) as (H1 & _ & _ & H4 & _). cbn [fst] in *.
  split; [done|]. unfold borrowed_of in *. rewrite (pool_of_set _ y _ cz) by done.
  destruct (decide (y = returning_primary (fst s))) as [->|Hy]; [|exact Hb].
  rewrite Hcz in Hb. injection Hb as <-. cbn [fmap option_fmap option_map]. by rewrite H4.
Qed.

(** One round trip of a primary connection, pool by pool. *)
Lemma primary_round_trip database s c s' :
  get_primary_for_database database s = (Ok c, s') ->
  forall database' y b, borrowed_of y (fst s) = Some b -> in_width 64 b ->
  let s2 := snd (put_primary_for_database c database' s') in
  fst (put_primary_for_database c database' s') = Ok tt /\
  borrowed_of y (fst s2) = Some
    (usize ((if decide (y = serving_primary (fst s)) then usize (b + 1) else b)
            - (if decide (y = returning_primary (fst s)) then 1 else 0))).
Proof.
  intros Hg database' y b Hb Hw s2.
  destruct (get_primary_borrowed database s c s' y b Hg Hb) as (Hb' & _ & Hret).
  destruct (put_primary_borrowed c database' s' y _ Hb') as [H1 H2]. split; [exact H1|].
  unfold s2. rewrite H2, Hret. destruct (decide (y = returning_primary (fst s))); [done|].
  f_equal. rewrite Z.sub_0_r. destruct (decide (y = serving_primary (fst s))); unfold usize;
    [by rewrite wrap_idem | symmetry; by apply wrap_small].
Qed.

(** Without a Group Replication primary, taking a primary connection and giving it
    back leaves the borrowed counters of every pool as they were, with or without a
    failover. *)
Theorem primary_round_trip_balanced database s c s' database' y b :
  get_primary_for_database database s = (Ok c, s') ->
  named_replica (gr_primary_idx (fst s)) (fst s) = None ->
  borrowed_of y (fst s) = Some b -> in_width 64 b ->
  borrowed_of y (fst (snd (put_primary_for_database c database' s'))) = Some b.
Proof.
  intros Hg Hgr Hb Hw. destruct (primary_round_trip database s c s' Hg database' y b Hb Hw) as [_ ->].
  assert (serving_primary (fst s) = returning_primary (fst s)) as ->
    by (unfold serving_primary, returning_primary; by rewrite Hgr).
  f_equal. case_match; [|rewrite Z.sub_0_r; by apply wrap_small].
  unfold usize. replace (wrap 64 (b + 1) - 1) with (wrap 64 (b + 1) + (-1)) by lia.
  rewrite wrap_add_l. replace (b + 1 + -1) with b by lia. by apply wrap_small.
Qed.

(** With a Group Replication primary elected among the replicas (and no
    failover), every round trip moves a borrowed unit: the elected replica's counter is
    left one too high, and the configured primary's, when it was zero, wraps round to
    2^64 - 1. *)
Theorem gr_round_trip_corrupts_counters database s c s' database' i b :
  get_primary_for_database database s = (Ok c, s') ->
  named_replica (gr_primary_idx (fst s)) (fst s) = Some i ->
  named_replica (failover_idx (fst s)) (fst s) = None ->
  borrowed_of (Replica i) (fst s) = Some b -> 0 <= b < 2 ^ 64 - 1 ->
  borrowed_of ThePrimary (fst s) = Some 0 ->
  let p2 := fst (snd (put_primary_for_database c database' s')) in
  borrowed_of (Replica i) p2 = Some (b + 1) /\ borrowed_of ThePrimary p2 = Some (2 ^ 64 - 1).
Proof.
  intros Hg Hgr Hfo Hbi Hwi Hb0.
  assert (serving_primary (fst s) = Replica i) as Es by (unfold serving_primary; by rewrite Hgr).
  assert (returning_primary (fst s) = ThePrimary) as Er by (unfold returning_primary; by rewrite Hfo).
  split.
  - destruct (primary_round_trip database s c s' Hg database' (Replica i) b Hbi) as [_ ->];
      [unfold in_width; lia|]. rewrite Es, Er, decide_True, decide_False by done.
    rewrite Z.sub_0_r. unfold usize. rewrite wrap_idem by lia. f_equal. apply wrap_small. unfold in_width. lia.
  - destruct (primary_round_trip database s c s' Hg database' ThePrimary 0 Hb0) as [_ ->];
      [unfold in_width; lia|]. by rewrite Es, Er, decide_False, decide_True by done.
Qed.

(** A pool whose counter is at the limit, has no wait queue and no idle connection
    refuses every request; so when the counter is left at the limit by connections that never come back, the primary is shut for good. *)
Theorem limit_refuses (q : ConnectionPool C) (w : W) database max :
  max_connections (config q) = Some max -> max <= borrowed (counters q) ->
  permits (counters q) = None -> connections q = ∅ ->
  get_for_database database (q, w) = (Err (limit_message (config q) max), (q, w)).
Proof.
  intros Hm Hb Hp Hc. unfold get_for_database, mbind, se_bind, se_get, take_idle. cbn [fst].
  rewrite Hc, lookup_empty. unfold enforce_limit, mbind, se_bind, se_get. cbn [fst].
  by rewrite Hm, (proj2 (Z.leb_le _ _) Hb), Hp.
Qed.
(** *** Replicas *)

Definition healthy_at p (n : nat) : bool :=
  match replica_health p !! n with Some h => healthy h | None => false end.
Definition breaker_allows s (n : nat) : bool :=
  match replica_breakers (fst s) !! n with
  | Some cb => fst (allows (now_ms_of (now_ns (snd s))) cb) | None => false
  end.
Definition is_backup p (n : nat) : option bool := backup <$> replicas p !! n.

(** What getting connections may change: replicas stay what they are and are only
    marked as failed. *)
Definition only_fails p p' : Prop :=
  (forall n, is_backup p' n = is_backup p n) /\
  (forall n, healthy_at p' n = true -> healthy_at p n = true) /\
  length (replicas p') = length (replicas p).

Lemma only_fails_refl p : only_fails p p.
Proof. done. Qed.
Lemma only_fails_trans p1 p2 p3 : only_fails p1 p2 -> only_fails p2 p3 -> only_fails p1 p3.
Proof.
  intros (A1 & A2 & A3) (B1 & B2 & B3). split_and!; [|auto|congruence].
  intros n. by rewrite B1, A1.
Qed.

Lemma mark_fails p i : only_fails p (mark_replica false i p) /\ healthy_at (mark_replica false i p) i = false.
Proof.
  unfold only_fails. split_and!; try done.
  - intros n. unfold healthy_at, mark_replica. cbn [replica_health set_health].
    destruct (decide (n = i)) as [->|Hn]; [|by rewrite list_lookup_alter_ne by done].
    rewrite list_lookup_alter_eq. by destruct (replica_health p !! i).
  - unfold healthy_at, mark_replica. cbn [replica_health set_health]. rewrite list_lookup_alter_eq.
    by destruct (replica_health p !! i).
Qed.

(** A replica asked for a connection. *)
Lemma ask_replica i database s :
  only_fails (fst s) (fst (snd (on_pool (Replica i) (get_for_database database) s))).
Proof.
  unfold on_pool. cbn [pool_of]. destruct (replicas (fst s) !! i) as [cp|] eqn:Ei; [|done].
  destruct (get_for_database database (cp, snd s)) as [r [cp' w']] eqn:Eg.
  apply get_spec in Eg as [(_ & _ & _ & _ & Hb) _]. cbn [fst snd] in *.
  unfold only_fails. split_and!; try done; [|apply length_insert].
  intros n. unfold is_backup. cbn [set_pool_of set_replicas replicas].
  destruct (decide (n = i)) as [->|Hn]; [|by rewrite list_lookup_insert_ne].
  rewrite list_lookup_insert_eq by (by eapply lookup_lt_Some). rewrite Ei. cbn. by rewrite Hb.
Qed.

(** The candidates are the replicas of the pass that are healthy and admitted. *)
Lemma candidates_spec bp rs i s r s' :
  candidates_from bp i rs s = (r, s') ->
  only_fails (fst s) (fst s') /\ replica_health (fst s') = replica_health (fst s) /\ snd s' = snd s /\
  (forall n, (n < i)%nat -> replica_breakers (fst s') !! n = replica_breakers (fst s) !! n) /\
  match r with
  | Err _ => True
  | Ok cands => forall n, n ∈ cands.*1 <->
      (i <= n)%nat /\ (exists q, rs !! (n - i)%nat = Some q /\ backup q = bp) /\
      healthy_at (fst s) n = true /\ breaker_allows s n = true
  end.
Proof.
  revert i s r s'. induction rs as [|q rs IH]; intros i s r s'; cbn [candidates_from].
  { intros [= <- <-]. split_and!; try done. intros n. split; [set_solver|]. by intros (_ & (? & ? & _) & _). }
  unfold mbind, se_bind, se_get. fold (healthy_at (fst s) i).
  (* the replica itself *)
  assert (exists ok s1, ((if Bool.eqb (backup q) bp && healthy_at (fst s) i then replica_allows i else mret false) s
      = (Ok ok, s1) \/ exists e, (if Bool.eqb (backup q) bp && healthy_at (fst s) i then replica_allows i else mret false) s
      = (Err e, s1) /\ s1 = s) /\
    replicas (fst s1) = replicas (fst s) /\ replica_health (fst s1) = replica_health (fst s) /\ snd s1 = snd s /\
    (forall n, n <> i -> replica_breakers (fst s1) !! n = replica_breakers (fst s) !! n) /\
    ok = Bool.eqb (backup q) bp && healthy_at (fst s) i && breaker_allows s i) as (ok & s1 & Hask & H1 & H2 & H3 & H4 & Hok).
  { destruct (Bool.eqb (backup q) bp && healthy_at (fst s) i); [|exists false, s; split_and!; auto; by left].
    unfold replica_allows, breaker_allows. destruct (replica_breakers (fst s) !! i) as [cb|] eqn:Eb.
    - destruct (allows _ cb) as [b cb'] eqn:Ea. eexists b, _. split; [by left|]. cbn. split_and!; try done.
      intros n Hn. by rewrite list_lookup_insert_ne.
    - exists false, s. split; [right; by eexists|]. by split_and!. }
  destruct Hask as [->|(e & -> & ->)]; [|by intros [= <- <-]].
  destruct (candidates_from bp (S i) rs s1) as [rest s2] eqn:Er.
  apply IH in Er as ((A1 & A2 & A3) & A4 & A5 & A6 & A7).
  assert (only_fails (fst s) (fst s2) /\ replica_health (fst s2) = replica_health (fst s) /\ snd s2 = snd s /\
    (forall n, (n < i)%nat -> replica_breakers (fst s2) !! n = replica_breakers (fst s) !! n)) as Hs.
  { split_and!; [|congruence|congruence|].
    - unfold only_fails, healthy_at, is_backup in *. rewrite H1, H2 in *. by split_and!.
    - intros n Hn. rewrite A6, H4 by lia. done. }
  destruct Hs as (B1 & B2 & B3 & B4).
  destruct rest as [rest|e]; intros [= <- <-]; split_and!; try done.
  assert (forall n, (i < n)%nat -> breaker_allows s1 n = breaker_allows s n) as Hba.
  { intros n Hn. unfold breaker_allows. by rewrite H4, H3 by lia. }
  assert (forall n, healthy_at (fst s1) n = healthy_at (fst s) n) as Hha by (intros n; unfold healthy_at; by rewrite H2).
  intros n. assert (n ∈ (if ok then (i, Z.max (weight q) 1) :: rest else rest).*1 <-> (ok = true /\ n = i) \/ n ∈ rest.*1) as ->.
  { clear. destruct ok; cbn [fmap list_fmap fst]; [rewrite elem_of_cons|]; naive_solver. }
  rewrite A7, Hha. destruct (decide (n = i)) as [->|Hn].
  - rewrite Nat.sub_diag. rewrite Hok, !andb_true_iff, eqb_true_iff. split.
    + intros [(((? & ?) & ?) & _)|[? _]]; [|lia]. split_and!; eauto.
    + intros (_ & (q' & [= ->] & ?) & ? & ?). by left.
  - split.
    + intros [[_ ?]|(? & (q' & Hq & ?) & ? & Hb)]; [done|]. rewrite Hba in Hb by lia.
      split_and!; [lia | | done | done]. exists q'. replace (n - i)%nat with (S (n - S i)) by lia. done.
    + intros (? & (q' & Hq & ?) & ? & ?). right. replace (n - i)%nat with (S (n - S i)) in Hq by lia.
      split_and!; [lia | by exists q' | done |]. rewrite Hba by lia. done.
Qed.
Lemma only_fails_unhealthy p p' n : only_fails p p' -> healthy_at p n = false -> healthy_at p' n = false.
Proof.
  intros (_ & H & _) Hn. destruct (healthy_at p' n) eqn:E; [|done]. apply H in E. congruence.
Qed.

(** One replica asked, and marked when it failed. *)
Definition ask_or_mark (i : nat) (database : option bytes) (k : B (option (C * nat))) : B (option (C * nat)) :=
  r ← se_try (on_pool (Replica i) (get_for_database database));
  match r with
  | Ok c => mret (Some (c, i))
  | Err _ => upd_pool (mark_replica false i) ;; k
  end.

Lemma ask_or_mark_spec i database k s r s' :
  ask_or_mark i database k s = (r, s') ->
  (exists c, r = Ok (Some (c, i)) /\ only_fails (fst s) (fst s')) \/
  (exists s1, only_fails (fst s) (fst s1) /\ healthy_at (fst s1) i = false /\ k s1 = (r, s')).
Proof.
  unfold ask_or_mark. unfold mbind at 1, se_bind at 1, se_try.
  pose proof (ask_replica i database s) as Ha.
  destruct (on_pool (Replica i) (get_for_database database) s) as [[c|e] s1]; cbn [fst snd] in *.
  - intros [= <- <-]. left. by exists c.
  - unfold mbind, se_bind, upd_pool, se_modify. intros Hk. right. eexists. split_and!; [| |exact Hk].
    + eapply only_fails_trans; [exact Ha|]. apply (mark_fails (fst s1) i).
    + apply (mark_fails (fst s1) i).
Qed.

Lemma try_others_spec chosen database cands s r s' :
  try_others chosen database cands s = (r, s') ->
  only_fails (fst s) (fst s') /\
  match r with
  | Err _ => True
  | Ok (Some (_, i)) => i ∈ cands.*1
  | Ok None => forall n, n ∈ cands.*1 -> n <> chosen -> healthy_at (fst s') n = false
  end.
Proof.
  revert s. induction cands as [|[i w] cands IH]; intros s.
  { cbn. intros [= <- <-]. split; [done|]. intros n Hn. by apply elem_of_nil in Hn. }
  cbn [try_others fmap list_fmap fst]. destruct (i =? chosen)%nat eqn:E.
  - apply Nat.eqb_eq in E as ->. intros H. apply IH in H as [H1 H2]. split; [done|].
    destruct r as [[[c j]|]|e]; [by right| |done]. intros n Hn. apply elem_of_cons in Hn as [->|Hn]; [done|by apply H2].
  - intros H. apply (ask_or_mark_spec i database) in H as [(c & -> & H)|(s1 & H1 & H2 & H)].
    + split; [done|]. by left.
    + apply IH in H as [H3 H4]. split; [by eapply only_fails_trans|].
      destruct r as [[[c j]|]|e]; [by right| |done]. intros n Hn Hc. apply elem_of_cons in Hn as [->|Hn].
      * by eapply only_fails_unhealthy.
      * by apply H4.
Qed.

(** One pass: the replica found is of the pass, was healthy and admitted; when none is
    found, every replica of the pass is now marked, or was refused by its breaker. *)
Lemma try_weighted_spec bp database s r s' :
  try_weighted_replica bp database s = (r, s') ->
  only_fails (fst s) (fst s') /\
  match r with
  | Err _ => True
  | Ok (Some (_, n)) => is_backup (fst s) n = Some bp /\ healthy_at (fst s) n = true /\ breaker_allows s n = true
  | Ok None => forall n, is_backup (fst s) n = Some bp ->
      healthy_at (fst s') n = false \/ breaker_allows s n = false
  end.
Proof.
  unfold try_weighted_replica. unfold mbind at 1, se_bind at 1, se_get. cbv beta iota.
  unfold mbind at 1, se_bind at 1.
  destruct (candidates_from bp 0 (replicas (fst s)) s) as [[cands|e] s1] eqn:Ec.
  2: { intros [= <- <-]. by apply candidates_spec in Ec as (H & _). }
  apply candidates_spec in Ec as (H1 & H2 & _ & _ & Hc).
  assert (forall n, n ∈ cands.*1 <->
    is_backup (fst s) n = Some bp /\ healthy_at (fst s) n = true /\ breaker_allows s n = true) as Hc'.
  { intros n. rewrite Hc, Nat.sub_0_r. unfold is_backup. destruct (replicas (fst s) !! n) as [q|]; cbn.
    - split; [intros (_ & (q' & [= ->] & ?) & ?); split; [by f_equal|done]|].
      intros ([= ?] & ?). split_and!; [lia | by exists q | tauto | tauto].
    - split; [intros (_ & (? & ? & _) & _)|intros [? _]]; done. }
  clear Hc. destruct cands as [|[first w0] cands0].
  { intros [= <- <-]. split; [done|]. intros n Hn.
    destruct (healthy_at (fst s) n) eqn:Eh; [|left; unfold healthy_at in *; by rewrite H2].
    right. destruct (breaker_allows s n) eqn:Eb; [|done]. exfalso. by apply (not_elem_of_nil n), Hc'. }
  set (cands := (first, w0) :: cands0) in *.
  unfold mbind at 1, se_bind at 1, se_get. cbv beta iota. unfold mbind at 1, se_bind at 1, upd_pool, se_modify.
  set (s2 := (_ (fst s1), snd s1)). assert (only_fails (fst s) (fst s2)) as Hs2.
  { destruct H1 as (A1 & A2 & A3). by split_and!. }
  destruct (total_weight cands =? 0); [by intros [= <- <-]|].
  set (chosen := choose _ 0 first cands).
  assert (chosen ∈ cands.*1) as Hch.
  { unfold chosen. generalize 0. generalize (u32 (replica_index (fst s1) mod total_weight cands)).
    assert (first ∈ cands.*1) as Hf by (by left). intros slot acc. revert acc Hf. generalize first as d.
    assert (forall l, l ⊆ cands -> forall d acc, d ∈ cands.*1 -> choose slot acc d l ∈ cands.*1) as Hgen; [|by apply Hgen].
    induction l as [|[j v] l IH]; intros Hl d acc Hd; cbn [choose]; [done|].
    destruct (slot <? _); [|apply IH; [set_solver|done]].
    apply list_elem_of_fmap. exists (j, v). split; [done|]. apply Hl. by left. }
  intros H. apply (ask_or_mark_spec chosen database) in H as [(c & -> & H)|(s3 & H3 & H4 & H)].
  - split; [by eapply only_fails_trans|]. by apply Hc'.
  - apply try_others_spec in H as [H5 H6].
    assert (only_fails (fst s) (fst s')) as Hs' by (eapply only_fails_trans; [|exact H5]; by eapply only_fails_trans).
    split; [done|]. destruct r as [[[c j]|]|e]; [by apply Hc' | |done].
    intros n Hn. destruct (decide (n ∈ cands.*1)) as [Hin|Hout].
    + left. destruct (decide (n = chosen)) as [->|Hne]; [exact (only_fails_unhealthy _ _ _ H5 H4) | by apply H6].
    + destruct (healthy_at (fst s) n) eqn:Eh; [|left; exact (only_fails_unhealthy _ _ _ Hs' Eh)].
      right. destruct (breaker_allows s n) eqn:Eb; [|done]. exfalso. by apply Hout, Hc'.
Qed.

(** *** Which server a connection is of *)

(** A connection was idle in this pool, in the bucket of the wanted database, or it was opened
    to the server of this pool, for that database, and the initial statements were run on it. *)
Definition came_from database (cp : ConnectionPool C) (c : C) : Prop :=
  let key := db_key (or_else database (cfg_database (config cp))) in
  let cfg := with_database (match key with [] => None | _ => Some key end) (config cp) in
  (exists l e, connections cp !! key = Some l /\ e ∈ l /\ conn e = c) \/
  (exists w c0 w' st, connect_backend cfg w = (Ok c0, w') /\ fst (run_init (init_connect cfg) c0 st) = Ok c).

(** What getting connections makes of the pools: the servers stay, and nothing becomes idle. *)
Definition uses_up (cp cp' : ConnectionPool C) : Prop :=
  config cp' = config cp /\
  forall key l', connections cp' !! key = Some l' -> exists l, connections cp !! key = Some l /\ l' ⊆ l.
Definition pools_used p p' : Prop :=
  serving_primary p' = serving_primary p /\
  forall x cp', pool_of x p' = Some cp' -> exists cp, pool_of x p = Some cp /\ uses_up cp cp'.
#[local] Instance uses_up_refl : Reflexive uses_up.
Proof. intros cp. split; [done|]. by intros key l Hl; exists l. Qed.
#[local] Instance uses_up_trans : Transitive uses_up.
Proof.
  intros a b d [E1 H1] [E2 H2]. split; [congruence|]. intros key l Hl. destruct (H2 _ _ Hl) as (l1 & Hl1 & ?).
  destruct (H1 _ _ Hl1) as (l2 & ? & ?). exists l2. split; [done | by etransitivity].
Qed.
#[local] Instance pools_used_refl : Reflexive pools_used.
Proof. intros p. split; [done|]. intros x cp Hx. by exists cp. Qed.
#[local] Instance pools_used_trans : Transitive pools_used.
Proof.
  intros a b d [E1 H1] [E2 H2]. split; [congruence|]. intros x cp Hx. destruct (H2 _ _ Hx) as (cp1 & Hx1 & ?).
  destruct (H1 _ _ Hx1) as (cp2 & ? & ?). exists cp2. split; [done | by etransitivity].
Qed.
Lemma pools_used_same p p' : serving_primary p' = serving_primary p -> primary p' = primary p -> replicas p' = replicas p -> pools_used p p'.
Proof. intros H1 H2 H3. split; [done|]. intros [|i] cp; cbn [pool_of]; rewrite ?H2, ?H3; by exists cp. Qed.

Lemma take_idle_uses_up key (s : ConnectionPool C * W) :
  let (r, s') := take_idle key s in
  uses_up (fst s) (fst s') /\
  match r with Ok (Some c) => exists l e, connections (fst s) !! key = Some l /\ e ∈ l /\ conn e = c | _ => True end.
Proof.
  destruct s as [p w]. unfold take_idle. destruct (connections p !! key) as [l|] eqn:El; [|done].
  destruct (pop_fresh (max_idle p) (now_ns w) l) as [[r rest] n] eqn:Ep. apply pop_fresh_spec in Ep as (_ & H1 & H2).
  split; [|destruct r as [c|]; [|done]; destruct (H1 c eq_refl) as (e & ? & ? & _); by exists l, e].
  split; [done|]. intros key' l'. cbn. destruct (decide (key' = key)) as [->|Hk].
  - rewrite lookup_insert_eq. intros [= <-]. exists l. split; [done|]. intros e. apply H2.
  - rewrite lookup_insert_ne by done. by exists l'.
Qed.
Lemma get_came_from database (s : ConnectionPool C * W) :
  let (r, s') := get_for_database database s in
  uses_up (fst s) (fst s') /\ match r with Ok c => came_from database (fst s) c | Err _ => True end.
Proof.
  unfold get_for_database. unfold mbind at 1, se_bind at 1, se_get. cbv beta iota zeta.
  unfold mbind at 1, se_bind at 1. set (key := db_key _).
  pose proof (take_idle_uses_up key s) as Ht. destruct (take_idle key s) as [[[c|]|e] s1]; destruct Ht as [Hu Hc]; [split; [done | by left]| |done].
  unfold mbind at 1, se_bind at 1. assert (config (fst s1) = config (fst s)) as Hcfg by apply Hu.
  destruct (enforce_limit_cases s1) as [(e & k & -> & _)|(k & -> & _)]; [done|].
  unfold mbind at 1, se_bind at 1, connect. cbn [fst snd].
  destruct (connect_backend _ (snd s1)) as [[c0|e] w1] eqn:Ec; [|done].
  unfold mbind at 1, se_bind at 1. destruct (run_init _ c0 _) as [[c2|e] s2] eqn:Er.
  all: pose proof (f_equal (fun x => fst (snd x)) Er) as Hrun; cbv beta in Hrun; rewrite run_init_pool in Hrun; cbn [fst snd] in Hrun.
  2: { split; [by rewrite <- Hrun | done]. }
  destruct s2 as [p2 w2]. cbn [fst] in Hrun. subst p2.
  split; [exact Hu|]. right. exists (snd s1), c0, w1. eexists. split; [exact Ec | exact (f_equal fst Er)].
Qed.

(** A connection that a pool has delivered since [p]. *)
Definition of_pool database p (x : which) (c : C) : Prop := exists cp, pool_of x p = Some cp /\ came_from database cp c.
Lemma came_from_earlier database cp cp' c : uses_up cp cp' -> came_from database cp' c -> came_from database cp c.
Proof.
  intros [Hcfg Hl]. unfold came_from. rewrite Hcfg. intros [(l & e & H & He & Hc)|H]; [|by right].
  destruct (Hl _ _ H) as (l0 & ? & Hsub). left. exists l0, e. split_and!; [done | by apply Hsub | done].
Qed.
Lemma of_pool_earlier database p p' x c : pools_used p p' -> of_pool database p' x c -> of_pool database p x c.
Proof. intros [_ H] (cp' & Hx & Hc). destruct (H x cp' Hx) as (cp & ? & ?). exists cp. split; [done | by eapply came_from_earlier]. Qed.

Lemma on_pool_delivers x database s :
  let (r, s') := on_pool x (get_for_database database) s in
  pools_used (fst s) (fst s') /\ match r with Ok c => of_pool database (fst s) x c | Err _ => True end.
Proof.
  unfold on_pool. destruct (pool_of x (fst s)) as [cp|] eqn:Ex; [|done].
  pose proof (get_came_from database (cp, snd s)) as H. destruct (get_for_database database (cp, snd s)) as [r [cp' w']].
  destruct H as [Hu Hc]. split; [|destruct r; [by exists cp | done]]. split.
  - cbn [fst]. pose proof (serving_after x cp' (primary_breaker (fst s)) (replica_breakers (fst s)) (fst s)) as [H1 _].
    by destruct (fst s).
  - cbn [fst]. intros y cp1. rewrite (pool_of_set _ _ _ _ _ Ex). destruct (decide (y = x)) as [->|]; [|by exists cp1].
    intros [= <-]. by exists cp.
Qed.
Lemma ask_delivers i database (k : B (option (C * nat))) s :
  (forall s1 : BackendPool C * W, let (r, s') := k s1 in pools_used (fst s1) (fst s') /\
     match r with Ok (Some (c, n)) => of_pool database (fst s1) (Replica n) c | _ => True end) ->
  let (r, s') := ask_or_mark i database k s in
  pools_used (fst s) (fst s') /\ match r with Ok (Some (c, n)) => of_pool database (fst s) (Replica n) c | _ => True end.
Proof.
  intros Hk. unfold ask_or_mark. unfold mbind at 1, se_bind at 1, se_try. pose proof (on_pool_delivers (Replica i) database s) as H.
  destruct (on_pool (Replica i) (get_for_database database) s) as [[c|e] s1]; [exact H|]. destruct H as [H _].
  unfold mbind, se_bind, upd_pool, se_modify. specialize (Hk (mark_replica false i (fst s1), snd s1)).
  destruct (k _) as [r s']. destruct Hk as [Hu Hr]. cbn [fst] in Hu, Hr.
  assert (pools_used (fst s) (mark_replica false i (fst s1))) as Hm by (etransitivity; [exact H | by apply pools_used_same]).
  split; [by etransitivity|]. destruct r as [[[c n]|]|e']; try done. by eapply of_pool_earlier.
Qed.
Lemma try_others_delivers chosen database cands : forall s,
  let (r, s') := try_others chosen database cands s in
  pools_used (fst s) (fst s') /\ match r with Ok (Some (c, n)) => of_pool database (fst s) (Replica n) c | _ => True end.
Proof.
  induction cands as [|[i w] cands IH]; intros s; cbn [try_others]; [done|]. destruct (i =? chosen)%nat; [apply IH|].
  by apply (ask_delivers i database (try_others chosen database cands)).
Qed.
Lemma candidates_used bp (rs : list (ConnectionPool C)) : forall i (s : BackendPool C * W), pools_used (fst s) (fst (snd (candidates_from bp i rs s))).
Proof.
  induction rs as [|q rs IH]; intros i s; cbn [candidates_from]; [done|]. unfold mbind, se_bind, se_get.
  assert (forall b : bool, pools_used (fst s) (fst (snd ((if b then replica_allows i else mret false) s)))) as Hm.
  { intros [|]; [|done]. unfold replica_allows. destruct (replica_breakers (fst s) !! i); [|done].
    destruct (allows _ _). by apply pools_used_same. }
  specialize (Hm (Bool.eqb (backup q) bp && match replica_health (fst s) !! i with Some h => healthy h | None => false end)).
  match goal with |- context [let (r, s') := ?m in _] => destruct m as [[ok|e] s1] eqn:E end; cbn [snd] in Hm.
  - specialize (IH (S i) s1). destruct (candidates_from bp (S i) rs s1) as [[rest|e] s2]; cbn [snd] in *; by etransitivity.
  - exact Hm.
Qed.
Lemma try_weighted_delivers bp database s :
  let (r, s') := try_weighted_replica bp database s in
  pools_used (fst s) (fst s') /\ match r with Ok (Some (c, n)) => of_pool database (fst s) (Replica n) c | _ => True end.
Proof.
  unfold try_weighted_replica. unfold mbind at 1, se_bind at 1, se_get. cbv beta iota. unfold mbind at 1, se_bind at 1.
  pose proof (candidates_used bp (replicas (fst s)) 0 s) as Hc.
  destruct (candidates_from bp 0 (replicas (fst s)) s) as [[[|[first w0] cands]|e] s1]; cbn [snd] in Hc; [done| |done].
  unfold mbind at 1, se_bind at 1, se_get. cbv beta iota. unfold mbind at 1, se_bind at 1, upd_pool, se_modify.
  set (s2 := (_ (fst s1), snd s1)). assert (pools_used (fst s) (fst s2)) as Hs2 by (etransitivity; [exact Hc | by apply pools_used_same]).
  destruct (_ =? 0); [done|].
  match goal with |- context [choose ?a ?b ?d ?l] => set (chosen := choose a b d l) end.
  pose proof (ask_delivers chosen database _ s2 (try_others_delivers chosen database ((first, w0) :: cands))) as H.
  match goal with |- context [let (_, _) := ?m in _] => change m with (ask_or_mark chosen database (try_others chosen database ((first, w0) :: cands)) s2) end.
  destruct (ask_or_mark _ _ _ s2) as [r s']. destruct H as [Hu Hr]. split; [by etransitivity|].
  destruct r as [[[c n]|]|e]; try done. by eapply of_pool_earlier.
Qed.
Lemma get_primary_delivers database s c s' :
  get_primary_for_database database s = (Ok c, s') -> of_pool database (fst s) (serving_primary (fst s)) c.
Proof.
  intros H. apply get_primary_spec in H as (cp & cb & Hcp & [(cp' & w' & Hg & _)|(_ & ? & _)]); [|done].
  exists cp. split; [done|]. pose proof (get_came_from database (cp, snd s)) as Hf. rewrite Hg in Hf. apply Hf.
Qed.
(** The index that is returned names the server of the connection. *)
Definition named_pool p (i : Z) : which := if i =? usize_max then serving_primary p else Replica (Z.to_nat i).
Lemma get_replica_delivers database s c i s' : Z.of_nat (length (replicas (fst s))) <= usize_max ->
  get_replica_for_database database s = (Ok (c, i), s') -> of_pool database (fst s) (named_pool (fst s) i) c.
Proof.
  intros Hlen. assert (forall n, of_pool database (fst s) (Replica n) c -> of_pool database (fst s) (named_pool (fst s) (Z.of_nat n)) c) as Hn.
  { intros n (cp & Hcp & Hf). pose proof (lookup_lt_Some _ _ _ Hcp) as Hlt. unfold named_pool.
    rewrite (proj2 (Z.eqb_neq _ _)) by lia. rewrite Nat2Z.id. by exists cp. }
  unfold get_replica_for_database. unfold mbind at 1, se_bind at 1, se_get. cbv beta iota zeta.
  assert (forall s2, pools_used (fst s) (fst s2) ->
    (c ← get_primary_for_database database; mret (c, usize_max)) s2 = (Ok (c, i), s') -> of_pool database (fst s) (named_pool (fst s) i) c) as Hp.
  { intros s2 Hu H. unfold mbind, se_bind in H. destruct (get_primary_for_database database s2) as [[c1|e] s3] eqn:E; [|done].
    injection H as -> <- ->. unfold named_pool. rewrite Z.eqb_refl. apply get_primary_delivers in E.
    rewrite <- (proj1 Hu). by eapply of_pool_earlier. }
  destruct (replicas (fst s)); [by apply Hp|]. unfold mbind at 1, se_bind at 1.
  pose proof (try_weighted_delivers false database s) as H1. destruct (try_weighted_replica false database s) as [[[[c1 n1]|]|e] s1]; [|destruct H1 as [H1 _]|done].
  { intros [= -> <- ->]. by apply Hn, H1. }
  unfold mbind at 1, se_bind at 1. pose proof (try_weighted_delivers true database s1) as H2.
  destruct (try_weighted_replica true database s1) as [[[[c1 n1]|]|e] s2]; [|destruct H2 as [H2 _]|done].
  - intros [= -> <- ->]. apply Hn. eapply of_pool_earlier; [exact H1 | apply H2].
  - apply Hp. by etransitivity.
Qed.

(** C17: Reads go where they should: [get_replica] returns a connection of an ordinary replica
    that was healthy and admitted by its breaker, or else every ordinary replica is now marked
    as failed or was refused by its breaker, and what it returns is a connection of a backup
    replica that was healthy, or of the serving primary.  The connection is one of the very
    server that the index names: it was idle in the pool of that server for the wanted
    database, or was opened to that server for that database. *)
Theorem get_replica_selects_healthy database s c (i : Z) s' :
  get_replica_for_database database s = (Ok (c, i), s') ->
  replicas (fst s) <> [] -> Z.of_nat (length (replicas (fst s))) <= usize_max ->
  of_pool database (fst s) (named_pool (fst s) i) c /\
  ((exists n, i = Z.of_nat n /\ is_backup (fst s) n = Some false /\ healthy_at (fst s) n = true /\
      breaker_allows s n = true) \/
   ((i = usize_max \/
     exists n, i = Z.of_nat n /\ is_backup (fst s) n = Some true /\ healthy_at (fst s) n = true) /\
    forall n, is_backup (fst s) n = Some false ->
      healthy_at (fst s') n = false \/ breaker_allows s n = false)).
Proof.
  intros H Hne Hlen. split; [by eapply get_replica_delivers|]. clear Hlen. revert H Hne.
  unfold get_replica_for_database. unfold mbind at 1, se_bind at 1, se_get. cbv beta iota zeta.
  intros H Hne. destruct (replicas (fst s)) as [|q0 qs] eqn:Eq; [done|]. clear Hne.
  unfold mbind at 1, se_bind at 1 in H.
  destruct (try_weighted_replica false database s) as [[[[c1 n1]|]|e] s1] eqn:E1; [| |done].
  { apply try_weighted_spec in E1 as (H1 & H2 & H3 & H4). injection H as <- <- <-. left. by exists n1. }
  apply try_weighted_spec in E1 as (H1 & H2).
  assert (forall s2, only_fails (fst s1) (fst s2) -> forall n, is_backup (fst s) n = Some false ->
    healthy_at (fst s2) n = false \/ breaker_allows s n = false) as Hall.
  { intros s2 Hs2 n Hn. destruct (H2 n Hn) as [Hh|Hb]; [left; by eapply only_fails_unhealthy | by right]. }
  unfold mbind at 1, se_bind at 1 in H.
  destruct (try_weighted_replica true database s1) as [[[[c1 n1]|]|e] s2] eqn:E2; [| |done].
  { apply try_weighted_spec in E2 as (H5 & H6 & H7 & H8). injection H as <- <- <-.
    destruct H1 as (A1 & A2 & _). rewrite A1 in H6. right. split; [|intros n Hn; by apply Hall].
    right. exists n1. split_and!; auto. }
  apply try_weighted_spec in E2 as (H5 & _).
  unfold mbind at 1, se_bind at 1 in H.
  destruct (get_primary_for_database database s2) as [[c1|e] s3] eqn:E3; [|done]. injection H as <- <- <-.
  right. split; [by left|]. intros n Hn. apply Hall; [|done].
  eapply only_fails_trans; [exact H5|].
  apply get_primary_spec in E3 as (cp & cb & Hcp & [(cp' & w' & Hg & ->)|(_ & ? & _)]); [|done].
  apply get_spec in Hg as [(_ & _ & _ & _ & Hb) _]. cbn [fst snd] in *.
  unfold only_fails, is_backup, healthy_at.
  destruct (set_pool_of_fields (serving_primary (fst s2)) cp' (set_breakers cb (replica_breakers (fst s2)) (fst s2)))
    as (_ & _ & Hlen & Hrh). rewrite Hlen, Hrh. split_and!; try done. intros m.
  destruct (serving_primary (fst s2)) as [|j]; [done|]. cbn [set_pool_of set_replicas replicas set_breakers].
  cbn [pool_of] in Hcp. destruct (decide (m = j)) as [->|Hm]; [|by rewrite list_lookup_insert_ne].
  rewrite list_lookup_insert_eq by (by eapply lookup_lt_Some). rewrite Hcp. cbn. by rewrite Hb.
Qed.
End AllPoolsLemmas.

(** ** Weighted round robin *)

Definition weights (cands : list (nat * Z)) : Z := foldr (fun iw acc => snd iw + acc) 0 cands.

Lemma weights_app a b : weights (a ++ b) = weights a + weights b.
Proof. induction a as [|x a IH]; cbn; [done|]. unfold weights in *. rewrite IH. lia. Qed.

Definition positive (cands : list (nat * Z)) : Prop := Forall (fun iw => 1 <= snd iw) cands.

Lemma weights_nonneg cands : positive cands -> 0 <= weights cands.
Proof. induction 1 as [|x l Hx Hl IH]; [done|]. unfold weights in *. cbn. lia. Qed.

Lemma total_weight_sum cands : positive cands -> weights cands < 2 ^ 32 -> total_weight cands = weights cands.
Proof.
  intros Hp Hw. unfold total_weight.
  assert (forall acc, 0 <= acc -> acc + weights cands < 2 ^ 32 ->
    foldl (fun acc iw => u32 (acc + snd iw)) acc cands = acc + weights cands) as H;
    [|apply (H 0); lia]. clear Hw.
  induction Hp as [|x l Hx Hl IH]; intros acc Ha Hb; cbn [foldl].
  - unfold weights. cbn. lia.
  - assert (weights (x :: l) = snd x + weights l) as E by done. pose proof (weights_nonneg l Hl).
    unfold u32. rewrite wrap_small by (unfold in_width; lia). rewrite IH by lia. lia.
Qed.

(** The slots of a candidate are an interval as long as its weight. *)
Lemma choose_interval slot acc dflt pre i w post :
  positive (pre ++ (i, w) :: post) -> 0 <= acc ->
  acc + weights (pre ++ (i, w) :: post) < 2 ^ 32 ->
  acc + weights pre <= slot < acc + weights pre + w ->
  choose slot acc dflt (pre ++ (i, w) :: post) = i.
Proof.
  revert acc. induction pre as [|[j v] pre IH]; intros acc Hp Ha Hb Hs; cbn [app choose] in *.
  - inversion Hp as [|? ? Hw Hp']; subst. cbn [snd] in Hw. pose proof (weights_nonneg post Hp').
    assert (weights ((i, w) :: post) = w + weights post) as E by done. change (weights []) with 0 in Hs.
    rewrite E in Hb.
    unfold u32. rewrite wrap_small by (unfold in_width; lia). by rewrite (proj2 (Z.ltb_lt _ _)) by lia.
  - inversion Hp as [|? ? Hv Hp']; subst. cbn [snd] in Hv. pose proof (weights_nonneg _ Hp').
    assert (weights ((j, v) :: pre) = v + weights pre) as E by done.
    assert (weights ((j, v) :: pre ++ (i, w) :: post) = v + weights (pre ++ (i, w) :: post)) as E2 by done.
    assert (0 <= weights pre) by (apply weights_nonneg; by apply Forall_app in Hp' as [? _]).
    unfold u32. rewrite wrap_small by (unfold in_width; lia).
    rewrite (proj2 (Z.ltb_ge _ _)) by lia. apply IH; [done | lia | lia | lia].
Qed.

Lemma choose_member slot acc dflt cands :
  positive cands -> 0 <= acc -> acc + weights cands < 2 ^ 32 -> acc <= slot < acc + weights cands ->
  exists pre i w post, cands = pre ++ (i, w) :: post /\ choose slot acc dflt cands = i /\
    acc + weights pre <= slot < acc + weights pre + w.
Proof.
  revert acc. induction cands as [|[j v] cands IH]; intros acc Hp Ha Hb Hs.
  - unfold weights in Hs. cbn in Hs. lia.
  - inversion Hp as [|? ? Hv Hp']; subst. cbn [snd] in Hv. pose proof (weights_nonneg _ Hp').
    assert (weights ((j, v) :: cands) = v + weights cands) as E by done. cbn [choose].
    unfold u32. rewrite wrap_small by (unfold in_width; lia).
    destruct (slot <? acc + v) eqn:El; bool_to_prop.
    + exists [], j, v, cands. split_and!; try done; unfold weights; cbn; lia.
    + destruct (IH (acc + v)) as (pre & i & w & post & -> & H1 & H2); [done | lia | lia | lia |].
      exists ((j, v) :: pre), i, w, post. split_and!; try done;
        unfold weights in *; cbn [foldr snd] in *; lia.
Qed.

Lemma seqZ_mod_window start n :
  0 < n -> (fun k => k mod n) <$> seqZ start n ≡ₚ seqZ 0 n.
Proof.
  intros Hn. apply submseteq_length_Permutation.
  - apply NoDup_submseteq.
    + apply NoDup_fmap_2_strong; [|apply NoDup_seqZ].
      intros x y Hx Hy Hxy. apply elem_of_seqZ in Hx, Hy.
      assert ((x - y) mod n = 0) as Hz by (rewrite Zminus_mod, Hxy, Z.sub_diag; apply Z.mod_0_l; lia).
      apply Z.mod_divide in Hz as [q Hq]; [|lia]. assert (q = 0) by nia. lia.
    + intros z Hz. apply list_elem_of_fmap in Hz as (k & -> & Hk). apply elem_of_seqZ.
      pose proof (Z.mod_pos_bound k n Hn). lia.
  - rewrite length_fmap, !length_seqZ. lia.
Qed.

(** Counting after a reduction modulo the window counts over the window. *)
Lemma count_window {A} `{EqDecision A} (f : Z -> A) (i : A) start n :
  0 < n ->
  length (filter (fun k => f (k mod n) = i) (seqZ start n)) = length (filter (fun s => f s = i) (seqZ 0 n)).
Proof.
  intros Hn. rewrite <- (seqZ_mod_window start n Hn). induction (seqZ start n) as [|k l IH]; [done|].
  cbn [fmap list_fmap]. rewrite !filter_cons. by repeat case_decide; cbn [length]; rewrite ?IH.
Qed.

Lemma filter_all {A} (Q : A -> Prop) `{forall x, Decision (Q x)} (l : list A) :
  (forall x, x ∈ l -> Q x) -> filter Q l = l.
Proof.
  induction l as [|x l IH]; intros Hl; [done|]. rewrite filter_cons_True by (apply Hl; by left).
  f_equal. apply IH. intros y Hy. apply Hl. by right.
Qed.

Lemma filter_none {A} (Q : A -> Prop) `{forall x, Decision (Q x)} (l : list A) :
  (forall x, x ∈ l -> ~ Q x) -> filter Q l = [].
Proof.
  induction l as [|x l IH]; intros Hl; [done|]. rewrite filter_cons_False by (apply Hl; by left).
  apply IH. intros y Hy. apply Hl. by right.
Qed.

(** The split of a list of candidates around an index is unique. *)
Lemma split_unique (pre pre' post post' : list (nat * Z)) i w v :
  NoDup (map fst (pre ++ (i, w) :: post)) -> pre ++ (i, w) :: post = pre' ++ (i, v) :: post' ->
  pre' = pre /\ v = w.
Proof.
  revert pre'. induction pre as [|[j u] pre IH]; intros [|[j' u'] pre'] Hnd E; cbn in *.
  - by injection E as -> ->.
  - injection E as -> -> E. exfalso. inversion Hnd as [|? ? Hx _]; subst. apply Hx.
    rewrite map_app. apply elem_of_app. right. by left.
  - injection E as -> -> E. exfalso. inversion Hnd as [|? ? Hx _]; subst. apply Hx.
    rewrite map_app. apply elem_of_app. right. by left.
  - injection E as <- <- E. inversion Hnd; subst. by destruct (IH pre' ltac:(done) E) as [-> ->].
Qed.

(** The slots at which a candidate is chosen. *)
Lemma chosen_slots slot dflt pre i w post :
  positive (pre ++ (i, w) :: post) -> NoDup (map fst (pre ++ (i, w) :: post)) ->
  weights (pre ++ (i, w) :: post) < 2 ^ 32 -> 0 <= slot < weights (pre ++ (i, w) :: post) ->
  choose slot 0 dflt (pre ++ (i, w) :: post) = i <-> weights pre <= slot < weights pre + w.
Proof.
  intros Hp Hnd Hw Hs. split.
  - intros Hi. destruct (choose_member slot 0 dflt (pre ++ (i, w) :: post))
      as (pre' & j & v & post' & E & Hj & Hr); [done | lia | lia | lia |].
    rewrite Hi in Hj. subst j. destruct (split_unique _ _ _ _ _ _ _ Hnd E) as [-> ->]. lia.
  - intros Hr. apply choose_interval; [done | lia | lia | lia].
Qed.

(** Weighted round robin is exactly fair: over as many consecutive values of the
    counter as the weights add up to, from any starting value, each candidate is chosen
    as often as its weight says, and nothing else is chosen. *)
Theorem weighted_round_robin_fair cands start i w dflt :
  positive cands -> NoDup (map fst cands) -> weights cands < 2 ^ 32 -> (i, w) ∈ cands ->
  Z.of_nat (length (filter (fun k => choose (k mod total_weight cands) 0 dflt cands = i)
    (seqZ start (total_weight cands)))) = w.
Proof.
  intros Hp Hnd Hw Hin. rewrite (total_weight_sum cands Hp Hw).
  apply list_elem_of_split in Hin as (pre & post & ->).
  assert (positive pre /\ 1 <= w /\ positive post) as (Hp1 & Hw1 & Hp2).
  { unfold positive in Hp. apply Forall_app in Hp as [? H]. by inversion H. }
  pose proof (weights_app pre ((i, w) :: post)) as En.
  assert (weights ((i, w) :: post) = w + weights post) as Ew by done.
  pose proof (weights_nonneg pre Hp1). pose proof (weights_nonneg post Hp2).
  pose proof (fun s => chosen_slots s dflt pre i w post Hp Hnd Hw) as Hch.
  set (cands := pre ++ (i, w) :: post) in *.
  rewrite (count_window (fun s => choose s 0 dflt cands) i) by lia.
  replace (weights cands) with (weights pre + (w + weights post)) by lia.
  rewrite seqZ_app, seqZ_app by lia. rewrite !list.filter_app, !length_app.
  rewrite (filter_none _ (seqZ 0 _)), (filter_all _ (seqZ _ w)), (filter_none _ (seqZ _ (weights post))).
  - cbn [length]. rewrite length_seqZ. lia.
  - intros s Hs Hi. apply elem_of_seqZ in Hs. apply Hch in Hi; lia.
  - intros s Hs. apply elem_of_seqZ in Hs. apply Hch; lia.
  - intros s Hs Hi. apply elem_of_seqZ in Hs. apply Hch in Hi; lia.
Qed.

Lemma weighted_round_robin_fair_witness :
  Z.of_nat (length (filter (fun k => choose (k mod total_weight [(0%nat, 2); (2%nat, 3)]) 0 0 [(0%nat, 2); (2%nat, 3)] = 2%nat)
    (seqZ 17 (total_weight [(0%nat, 2); (2%nat, 3)])))) = 3.
Proof.
  apply (weighted_round_robin_fair [(0%nat, 2); (2%nat, 3)] 17 2 3 0).
  - repeat constructor; simpl; lia.
  - repeat constructor; set_solver.
  - vm_compute. reflexivity.
  - set_solver.
Defined.

(** ** A world to run in

    Backends that answer unless their address is listed as down; [BEGIN] and [COMMIT]
    change the transaction state, a statement that starts with [FAIL] gets an error. *)

Record TestConn := { tc_id : Z; tc_addr : bytes; tc_database : option bytes; tc_tx : bool }.
Record TestWorld := {
  tw_ns : Z; tw_ms : Z; tw_next : Z;
  tw_down : list bytes;            (* addresses that refuse connections *)
  tw_lost : list Z;                (* connections that break while a query runs *)
  tw_slow : list bytes;            (* statements that never end *)
  tw_log : list (bytes * bytes)    (* where each statement ran *)
}.

Definition test_world : TestWorld :=
  {| tw_ns := 0; tw_ms := 1000000; tw_next := 1; tw_down := []; tw_lost := []; tw_slow := []; tw_log := [] |}.
Definition scenario (down : list bytes) (lost : list Z) (slow : list bytes) : TestWorld :=
  {| tw_ns := 0; tw_ms := 1000000; tw_next := 1; tw_down := down; tw_lost := lost; tw_slow := slow; tw_log := [] |}.
Definition log_query (c : TestConn) (sql : bytes) (w : TestWorld) : TestWorld :=
  {| tw_ns := tw_ns w; tw_ms := tw_ms w; tw_next := tw_next w; tw_down := tw_down w; tw_lost := tw_lost w;
     tw_slow := tw_slow w; tw_log := tw_log w ++ [(tc_addr c, sql)] |}.

Definition test_response (sql : bytes) : BackendResponse :=
  {| br_bytes := sql; affected_rows := None; is_error := starts_with sql (bs "FAIL");
     session_changes := []; write_gtid := None |}.

Definition test_query (c : TestConn) (sql : bytes) (w : TestWorld)
  : result bytes BackendResponse * TestConn * TestWorld :=
  ((if mem (tc_id c) (tw_lost w) then Err (bs "Lost connection to MySQL server during query")
    else Ok (test_response sql)),
   {| tc_id := tc_id c; tc_addr := tc_addr c; tc_database := tc_database c;
      tc_tx := if beq sql (bs "BEGIN") then true else if beq sql (bs "COMMIT") then false else tc_tx c |},
   log_query c sql w).

Definition test_connect (cfg : BackendConfig) (w : TestWorld) : result bytes TestConn * TestWorld :=
  if mem (addr cfg) (tw_down w) then (Err (bs "connection refused"), w)
  else (Ok {| tc_id := tw_next w; tc_addr := addr cfg; tc_database := cfg_database cfg; tc_tx := false |},
        {| tw_ns := tw_ns w; tw_ms := tw_ms w; tw_next := tw_next w + 1; tw_down := tw_down w;
           tw_lost := tw_lost w; tw_slow := tw_slow w; tw_log := tw_log w |}).

#[export] Instance test_io : BackendIO TestWorld TestConn := {|
  connect_backend := test_connect;
  execute_query := test_query;
  send_raw := test_query;
  send_raw_no_response c sql w := let '(_, c', w') := test_query c sql w in (Ok tt, c', w');
  ping c w := if mem (tc_addr c) (tw_down w) then (Err (bs "early eof"), c, w) else (Ok tt, c, w);
  in_transaction := tc_tx;
  is_healthy _ := true;
  backend_conn_id c := Some (tc_id c);
  interrupted c sql ms w := if mem sql (tw_slow w) then Some (c, log_query c sql w) else None;
  now_ns := tw_ns;
  unix_ms := tw_ms;
  draw _ _ := 0;
  info_log _ := true |}.

Definition test_config (a : string) (wt : Z) (bk : bool) (limit : option Z) : BackendConfig :=
  {| addr := bs a; cfg_user := bs "app"; cfg_password := []; cfg_database := Some (bs "shop");
     cfg_tls_mode := TlsOff; cfg_tls_ca := None; cfg_tls_cert := None; cfg_tls_key := None;
     cfg_weight := wt; cfg_backup := bk; init_connect := []; cfg_compression := NoCompression;
     cfg_resolution_family := bs "system"; cfg_ssl_keylog_file := []; max_connections := limit |}.

Definition demo_pool : ConnectionPool TestConn := with_wait_queue (test_config "p:3306" 1 false (Some 1)) 4 None 0 5000.

Definition conn_to (a : string) : TestConn :=
  {| tc_id := 1; tc_addr := bs a; tc_database := Some (bs "shop"); tc_tx := false |}.

(** The pool after a get and a put. *)
Definition demo_used : ConnectionPool TestConn * TestWorld :=
  apply_op (OpPut (conn_to "p:3306") None) (apply_op (OpGet None) (demo_pool, test_world)).


Lemma borrowed_accounting_witness :
  let s1 := snd (get_for_database None (demo_pool, test_world)) in
  borrowed (counters (fst (snd (put_for_database (conn_to "p:3306") None (fst s1, snd s1))))) = 0.
Proof.
  intros s1.
  pose proof (borrowed_accounting (IO := test_io) (demo_pool, test_world) None (conn_to "p:3306") s1) as H.
  assert (get_for_database None (demo_pool, test_world) = (Ok (conn_to "p:3306"), s1)) as Hg by (vm_compute; done).
  specialize (H Hg ltac:(vm_compute; split; [intros ?; discriminate | reflexivity]) None (snd s1)).
  etransitivity; [exact (proj1 H) | vm_compute; reflexivity].
Defined.

Definition demo_backends (gr : Z) : BackendPool TestConn :=
  set_gr gr [] (with_options (test_config "p:3306" 1 false (Some 1))
    [test_config "r1:3306" 2 false None; test_config "r2:3306" 1 true None] 4 None 3 1000 0 5000).

Lemma primary_round_trip_balanced_witness :
  let s := (demo_backends (-1), test_world) in
  borrowed_of ThePrimary (fst (snd (put_primary_for_database (conn_to "p:3306") None
    (snd (get_primary_for_database None s))))) = Some 0.
Proof.
  intros s. apply (primary_round_trip_balanced None s (conn_to "p:3306")
    (snd (get_primary_for_database None s)) None ThePrimary 0).
  - vm_compute. done.
  - done.
  - done.
  - split; lia.
Defined.

Lemma gr_round_trip_corrupts_counters_witness :
  let s := (demo_backends 0, test_world) in
  let p2 := fst (snd (put_primary_for_database (conn_to "r1:3306") None
              (snd (get_primary_for_database None s)))) in
  borrowed_of (Replica 0) p2 = Some 1 /\ borrowed_of ThePrimary p2 = Some (2 ^ 64 - 1).
Proof.
  intros s. apply (gr_round_trip_corrupts_counters None s (conn_to "r1:3306")
    (snd (get_primary_for_database None s)) None 0 0).
  - vm_compute. done.
  - done.
  - done.
  - done.
  - lia.
  - done.
Defined.

Lemma limit_refuses_witness :
  let q := snd (get_for_database None (demo_pool, test_world)) in
  get_for_database (Some (bs "crm")) (set_connections ∅ (fst q), snd q)
  = (Err (bs "backend p:3306 connection limit reached (max: 1); try again later"), (set_connections ∅ (fst q), snd q)).
Proof.
  intros q. exact (limit_refuses (set_connections ∅ (fst q)) (snd q) (Some (bs "crm")) 1
    ltac:(vm_compute; reflexivity) ltac:(vm_compute; intros ?; discriminate) ltac:(vm_compute; reflexivity)
    ltac:(reflexivity)).
Defined.

(** With the only ordinary replica down, a read goes to the backup replica. *)
Lemma get_replica_selects_healthy_witness :
  let s := (demo_backends (-1), scenario [bs "r1:3306"] [] []) in
  let s' := snd (get_replica_for_database None s) in
  get_replica_for_database None s = (Ok (conn_to "r2:3306", 1), s') /\ healthy_at (fst s') 0 = false.
Proof.
  intros s s'. assert (get_replica_for_database None s = (Ok (conn_to "r2:3306", 1), s')) as H by (vm_compute; done).
  split; [exact H|].
  destruct (get_replica_selects_healthy None s (conn_to "r2:3306") 1 s' H ltac:(done) ltac:(vm_compute; discriminate))
    as [_ [(n & Hn & Hb & _)|[_ Hall]]].
  - assert (n = 1%nat) as -> by lia. vm_compute in Hb. discriminate.
  - destruct (Hall 0%nat ltac:(vm_compute; reflexivity)) as [Hx|Hx]; [exact Hx | vm_compute in Hx; discriminate].
Defined.
