(* ===== verification/TextRows.v ===== *)
(** * Reading text result sets (src/src/proxy/health.rs, group_replication.rs)

    The health checker and the Group Replication monitor read the framed bytes of a
    complete response with the same helpers, which each file has its own copy of.  A
    position in the buffer is the rest of the buffer.  The second half is the server's
    side: how a result set is laid out, and that the readers give back its values. *)

From S2P Require Import Prelude Bytes MysqlCodec MysqlResponse.

(** ** Packets and length-encoded values *)

Definition next_packet (s : bytes) : option (bytes * bytes) :=
  match s with
  | b0 :: b1 :: b2 :: _ :: s' =>
      let len := Z.to_nat (u24_or b0 b1 b2) in
      if (length s' <? len)%nat then None else Some (take len s', drop len s')
  | _ => None
  end.

Definition read_lenenc_int (s : bytes) : option (Z * bytes) :=
  match s with
  | [] => None
  | b :: s' =>
      if b <=? 250 then Some (b, s')
      else if b =? 252 then
        match s' with lo :: hi :: r => Some (Z.lor lo (Z.shiftl hi 8), r) | _ => None end
      else if b =? 253 then
        match s' with b0 :: b1 :: b2 :: r => Some (u24_or b0 b1 b2, r) | _ => None end
      else None
  end.

(** [Some None] is the SQL NULL. *)
Definition read_lenenc_str (s : bytes) : option (option bytes * bytes) :=
  match s with
  | [] => None
  | b :: s' =>
      if b =? 251 then Some (None, s')
      else
        p ← read_lenenc_int s;
        let len := Z.to_nat (fst p) in
        if (length (snd p) <? len)%nat then None else Some (Some (take len (snd p)), drop len (snd p))
  end.

(** *** Column definitions *)

(** [pos += len] may go past the end; the next read then fails. *)
Definition skip_lenenc_str (s : bytes) : option bytes :=
  match s with
  | [] => None
  | b :: s' => if b =? 251 then Some s' else p ← read_lenenc_int s; Some (drop (Z.to_nat (fst p)) (snd p))
  end.

Definition col_def_name (payload : bytes) : option bytes :=
  s ← skip_lenenc_str payload; s ← skip_lenenc_str s; s ← skip_lenenc_str s; s ← skip_lenenc_str s;
  match s with
  | [] => None
  | b :: _ =>
      if b =? 251 then None
      else
        p ← read_lenenc_int s;
        let len := Z.to_nat (fst p) in
        if (length (snd p) <? len)%nat then None else Some (take len (snd p))
  end.

(** *** Several packets *)

Fixpoint skip_packets (n : nat) (s : bytes) : option bytes :=
  match n with O => Some s | S n' => p ← next_packet s; skip_packets n' (snd p) end.

(** The column count, which is its own packet. *)
Definition read_col_count (s : bytes) : option (Z * bytes) :=
  p ← next_packet s; c ← read_lenenc_int (fst p); Some (fst c, snd p).

(** ** What a server sends *)

Definition lenenc_str (v : option bytes) : bytes :=
  match v with None => [251] | Some s => encode_lenenc (Z.of_nat (length s)) ++ s end.
Definition short (v : option bytes) : Prop :=
  match v with None => True | Some s => fits s end.

(** A column definition: catalog, schema, table, table before aliasing, name, the rest. *)
Definition column_def (catalog schema table org_table name rest : bytes) : bytes :=
  lenenc_str (Some catalog) ++ lenenc_str (Some schema) ++ lenenc_str (Some table)
  ++ lenenc_str (Some org_table) ++ lenenc_str (Some name) ++ rest.

Definition row_packet (vals : list (option bytes)) : bytes := concat (map lenenc_str vals).

Lemma read_lenenc_int_encode v rest :
  0 <= v < 2 ^ 24 -> read_lenenc_int (encode_lenenc v ++ rest) = Some (v, rest).
Proof.
  intros Hv. destruct (encode_lenenc_range v ltac:(lia)) as [[H ->]|[[H ->]|[[H ->]|[H _]]]]; [| | |lia];
    cbn [app read_lenenc_int].
  - by rewrite (proj2 (Z.leb_le _ _)) by lia.
  - cbn. f_equal. f_equal. pose proof (byte_at_le3 v) as E.
    assert (of_le [byte_at v 0; byte_at v 1; 0] = v) as Ev.
    { replace [byte_at v 0; byte_at v 1; 0] with (to_le 3 v); [apply of_to_le; lia|].
      rewrite <- E. do 2 f_equal. f_equal. rewrite byte_at_div by lia. rewrite Z.div_small by lia. done. }
    assert (byte (byte_at v 0) /\ byte (byte_at v 1)) as [? ?].
    { split; unfold byte; rewrite byte_at_div by lia; apply Z.mod_pos_bound; lia. }
    rewrite <- Ev at 3. rewrite <- u24_or_le by (done || unfold byte; lia).
    unfold u24_or. by rewrite Z.shiftl_0_l, Z.lor_0_r.
  - cbn [Z.leb Z.eqb Z.compare Pos.eqb Pos.compare Pos.compare_cont].
    f_equal. f_equal. assert (forall i, 0 <= i -> byte (byte_at v i)) as Hb.
    { intros i Hi. unfold byte. rewrite byte_at_div by lia. apply Z.mod_pos_bound. lia. }
    rewrite u24_or_le by (apply Hb; lia). rewrite byte_at_le3. apply of_to_le. lia.
Qed.

Lemma encode_lenenc_not_null v : 0 <= v < 2 ^ 24 -> exists b t, encode_lenenc v = b :: t /\ (b =? 251) = false.
Proof.
  intros Hv. destruct (encode_lenenc_range v ltac:(lia)) as [[H ->]|[[H ->]|[[H ->]|[H _]]]]; [| | |lia];
    eexists _, _; (split; [reflexivity|]); apply Z.eqb_neq; lia.
Qed.

Lemma read_lenenc_str_encode v rest :
  short v -> read_lenenc_str (lenenc_str v ++ rest) = Some (v, rest).
Proof.
  destruct v as [s|]; [|done]. intros Hs. cbn [lenenc_str short] in *. unfold fits in Hs.
  destruct (encode_lenenc_not_null (Z.of_nat (length s)) ltac:(lia)) as (b & t & E & Eb).
  rewrite <- app_assoc. unfold read_lenenc_str. rewrite E. cbn [app]. rewrite Eb.
  change (b :: t ++ s ++ rest) with ((b :: t) ++ s ++ rest). rewrite <- E.
  rewrite read_lenenc_int_encode by lia. cbn [mbind option_bind fst snd]. rewrite Nat2Z.id.
  rewrite (proj2 (Nat.ltb_ge _ _)) by (rewrite length_app; lia).
  by rewrite take_app_length, drop_app_length.
Qed.

Lemma skip_lenenc_str_encode s rest :
  fits s -> skip_lenenc_str (lenenc_str (Some s) ++ rest) = Some rest.
Proof.
  intros Hs. cbn [lenenc_str]. unfold fits in Hs.
  destruct (encode_lenenc_not_null (Z.of_nat (length s)) ltac:(lia)) as (b & t & E & Eb).
  rewrite <- app_assoc. unfold skip_lenenc_str. rewrite E. cbn [app]. rewrite Eb.
  change (b :: t ++ s ++ rest) with ((b :: t) ++ s ++ rest). rewrite <- E.
  rewrite read_lenenc_int_encode by lia. cbn [mbind option_bind fst snd]. rewrite Nat2Z.id.
  by rewrite drop_app_length.
Qed.

Lemma col_def_name_encode catalog schema table org_table name rest :
  fits catalog -> fits schema -> fits table -> fits org_table -> fits name ->
  col_def_name (column_def catalog schema table org_table name rest) = Some name.
Proof.
  intros H1 H2 H3 H4 H5. unfold col_def_name, column_def.
  rewrite skip_lenenc_str_encode by exact H1. cbn [mbind option_bind].
  rewrite skip_lenenc_str_encode by exact H2. cbn [mbind option_bind].
  rewrite skip_lenenc_str_encode by exact H3. cbn [mbind option_bind].
  rewrite skip_lenenc_str_encode by exact H4. cbn [mbind option_bind].
  cbn [lenenc_str]. unfold fits in H5.
  destruct (encode_lenenc_not_null (Z.of_nat (length name)) ltac:(lia)) as (b & t & E & Eb).
  rewrite <- app_assoc. rewrite E. cbn [app]. rewrite Eb.
  change (b :: t ++ name ++ rest) with ((b :: t) ++ name ++ rest). rewrite <- E.
  rewrite read_lenenc_int_encode by lia. cbn [mbind option_bind fst snd]. rewrite Nat2Z.id.
  rewrite (proj2 (Nat.ltb_ge _ _)) by (rewrite length_app; lia).
  by rewrite take_app_length.
Qed.

Lemma next_packet_framed seq p rest :
  fits p -> next_packet (framed_packet seq p ++ rest) = Some (p, rest).
Proof.
  intros Hp. unfold fits in Hp. unfold framed_packet. rewrite <- app_assoc.
  pose proof (header_of_len (Z.of_nat (length p)) ltac:(lia) seq) as Hh.
  change (u24_or (byte_at (Z.of_nat (length p)) 0) (byte_at (Z.of_nat (length p)) 1)
    (byte_at (Z.of_nat (length p)) 2) = Z.of_nat (length p)) in Hh.
  unfold header_of, next_packet. cbn [app]. rewrite Hh, Nat2Z.id.
  rewrite (proj2 (Nat.ltb_ge _ _)) by (rewrite length_app; lia).
  by rewrite take_app_length, drop_app_length.
Qed.

Lemma skip_packets_framed ps rest :
  Forall (fun sp => fits (snd sp)) ps -> skip_packets (length ps) (packets ps ++ rest) = Some rest.
Proof.
  induction 1 as [|[seq p] ps Hp _ IH]; [done|]. rewrite packets_cons, <- app_assoc. cbn [fst snd length skip_packets].
  by rewrite next_packet_framed.
Qed.

Lemma read_col_count_framed seq n rest :
  0 <= n < 2 ^ 24 -> read_col_count (framed_packet seq (encode_lenenc n) ++ rest) = Some (n, rest).
Proof.
  intros Hn. unfold read_col_count. rewrite next_packet_framed.
  - cbn [mbind option_bind fst snd]. rewrite <- (app_nil_r (encode_lenenc n)).
    by rewrite read_lenenc_int_encode by done.
  - unfold fits. destruct (encode_lenenc_range n ltac:(lia)) as [[_ ->]|[[_ ->]|[[_ ->]|[? _]]]]; [..|lia]; cbn; lia.
Qed.

Lemma packets_app_rest a b rest : packets (a ++ b) ++ rest = packets a ++ packets b ++ rest.
Proof. by rewrite packets_app, <- app_assoc. Qed.
