(* ===== verification/Health.v ===== *)
(** * The health checker (src/src/proxy/health.rs)

    Checks of the primary, the failover they trigger and clear, and the checks of the
    replicas.  The checker acts on the [BackendPool] through the same monad as the pool's
    own operations; a tick is one round of the loop of [run].  The theorems on the
    primary are about a sequence of ticks, each with the world and the replicas' health
    it happens to find. *)

From S2P Require Import Prelude Bytes Config MysqlCodec MysqlResponse TextRows CircuitBreaker Pool.

Record HealthChecker := {
  primary_config : BackendConfig;
  replica_configs : list BackendConfig;
  max_lag_ms : Z;
  failover_threshold : Z;
  galera_check : bool;
  cooldown_secs : Z;
  min_recovery_checks : Z
}.

(** ** Result-set parsers *)

Definition is_lag_column (name : bytes) : bool :=
  beq name (bs "Seconds_Behind_Source") || beq name (bs "Seconds_Behind_Master").

(** The column definitions: the last lag column wins. *)
Fixpoint find_lag_column (n : nat) (i : nat) (target : option nat) (s : bytes) : option (option nat * bytes) :=
  match n with
  | O => Some (target, s)
  | S n' =>
      p ← next_packet s;
      let target := match col_def_name (fst p) with
                    | Some name => if is_lag_column name then Some i else target
                    | None => target
                    end in
      find_lag_column n' (S i) target (snd p)
  end.

(** The value of a column of a row. *)
Fixpoint nth_value (n : nat) (row : bytes) : option (option bytes) :=
  v ← read_lenenc_str row;
  match n with O => Some (fst v) | S n' => nth_value n' (snd v) end.

Definition lag_of_value (v : option bytes) : option Z :=
  match v with
  | None => Some 0
  | Some t => if utf8_valid t then secs ← parse_uint 64 t; Some (u64 (secs * 1000)) else None
  end.

Definition parse_lag_bytes (s : bytes) : option Z :=
  c ← read_col_count s;
  if fst c =? 0 then None else
  t ← find_lag_column (Z.to_nat (fst c)) 0 None (snd c);
  p ← next_packet (snd t);
  row ← next_packet (snd p);
  if bool_decide (head (fst row) = Some 254) then None else
  i ← fst t;
  v ← nth_value i (fst row);
  lag_of_value v.

Definition parse_wsrep_state (s : bytes) : option bool :=
  p ← next_packet s;
  p ← next_packet (snd p);
  p ← next_packet (snd p);
  p ← next_packet (snd p);
  row ← next_packet (snd p);
  if bool_decide (head (fst row) = Some 254) then None else
  n ← read_lenenc_str (fst row);
  v ← read_lenenc_str (snd n);
  t ← fst v;
  if utf8_valid t then state ← parse_uint 32 (trim t); Some (state =? 4) else None.

(** ** Changes of the pool *)

Section Changes.
Context {C : Type}.
Implicit Types p : BackendPool C.

Definition set_primary_health (h : BackendHealth) (p : BackendPool C) : BackendPool C :=
  set_health h (replica_health p) p.
Definition set_recovery_checks (n : Z) (p : BackendPool C) : BackendPool C :=
  set_ha (failover_idx p) (failover_events_total p) (failover_flap_total p) n (failover_triggered_at p) p.

(** The first of the healthy replicas with the least lag. *)
Fixpoint min_by_lag (l : list (nat * BackendHealth)) : option (nat * BackendHealth) :=
  match l with
  | [] => None
  | x :: l' =>
      match min_by_lag l' with
      | Some y => if lag_ms (snd x) <=? lag_ms (snd y) then Some x else Some y
      | None => Some x
      end
  end.
Definition best_replica (n : nat) (health : list BackendHealth) : option (nat * BackendHealth) :=
  min_by_lag (filter (fun ih => healthy (snd ih) = true) (imap pair (take n health))).
End Changes.

Section Checks.
Context {W C : Type} `{IO : !BackendIO W C}.
Variable hc : HealthChecker.
Local Abbreviation HB := (B (W := W) (C := C)).
Implicit Types p : BackendPool C.

(** *** The primary *)

Definition cooldown_active (now : Z) (p : BackendPool C) : bool :=
  (0 <? failover_triggered_at p) && (0 <? cooldown_secs hc)
  && (sat_sub now (failover_triggered_at p) <? cooldown_secs hc).

Definition clear_failover (p : BackendPool C) : BackendPool C :=
  set_ha (-1) (failover_events_total p) (failover_flap_total p) 0 0 p.

(** The primary answered. *)
Definition primary_up (now : Z) (p : BackendPool C) : BackendPool C :=
  let prev_failures := consecutive_failures (primary_health p) in
  let was_down := negb (healthy (primary_health p)) in
  let p := set_primary_health {| healthy := true; lag_ms := lag_ms (primary_health p);
                                 consecutive_failures := 0 |} p in
  if failover_active p then
    let recovery_count := usize (recovery_checks p + 1) in
    let p := set_recovery_checks recovery_count p in
    if recovery_count <? min_recovery_checks hc then p
    else if cooldown_active now p then p
    else clear_failover p
  else if was_down || (failover_threshold hc <=? prev_failures) then set_recovery_checks 0 p
  else p.

Definition is_flap (now : Z) (p : BackendPool C) : bool :=
  (0 <? failover_triggered_at p) && (0 <? cooldown_secs hc)
  && (sat_sub now (failover_triggered_at p) <? u64 (cooldown_secs hc * 2)).

(** The first half of [trigger_failover]: flap detection and the time of the trigger. *)
Definition note_trigger (now : Z) (p : BackendPool C) : BackendPool C :=
  set_ha (failover_idx p) (failover_events_total p)
    (if is_flap now p then usize (failover_flap_total p + 1) else failover_flap_total p) 0 now p.

(** The second half: the promotion. *)
Definition promote (p : BackendPool C) : BackendPool C :=
  match best_replica (length (replica_configs hc)) (replica_health p) with
  | Some (i, _) =>
      set_ha (Z.of_nat i) (usize (failover_events_total p + 1)) (failover_flap_total p)
        (recovery_checks p) (failover_triggered_at p) p
  | None => p
  end.

Definition trigger_failover : HB unit :=
  s ← se_get;
  upd_pool (note_trigger (unix_secs (snd s))) ;;
  if (length (replica_health (fst s)) <? length (replica_configs hc))%nat
  then se_fail (bs "panic: index out of bounds")
  else upd_pool promote.

Definition primary_failed (p : BackendPool C) : BackendPool C :=
  set_primary_health {| healthy := false; lag_ms := lag_ms (primary_health p);
                        consecutive_failures := u32 (consecutive_failures (primary_health p) + 1) |} p.

Definition connect_to (cfg : BackendConfig) : HB (result bytes C) := fun s =>
  let (r, w) := connect_backend cfg (snd s) in (Ok r, (fst s, w)).
Definition query_conn (c : C) (sql : bytes) : HB (result bytes BackendResponse * C) := fun s =>
  let '(r, c', w) := execute_query c sql (snd s) in (Ok (r, c'), (fst s, w)).

(** Does the primary answer, and the world afterwards. *)
Definition probe_primary (w : W) : bool * W :=
  match connect_backend (primary_config hc) w with
  | (Ok c, w') => let '(r, _, w'') := ping c w' in (is_ok r, w'')
  | (Err _, w') => (false, w')
  end.

Definition check_primary : HB unit :=
  ok ← (fun s => let (ok, w) := probe_primary (snd s) in (Ok ok, (fst s, w)));
  s ← se_get;
  if ok : bool then upd_pool (primary_up (unix_secs (snd s)))
  else
    upd_pool primary_failed ;;
    s ← se_get;
    if (failover_threshold hc <=? consecutive_failures (primary_health (fst s)))
       && (failover_idx (fst s) <? 0)
    then trigger_failover
    else mret tt.

(** *** Replicas *)

Definition query_replica_lag (c : C) : HB (option Z) :=
  r ← query_conn c (bs "SHOW REPLICA STATUS");
  match fst r with
  | Err _ => mret None
  | Ok resp =>
      if is_error resp then
        r2 ← query_conn (snd r) (bs "SHOW SLAVE STATUS");
        match fst r2 with
        | Err _ => mret None
        | Ok resp2 => mret (if is_error resp2 then Some 0 else parse_lag_bytes (br_bytes resp2))
        end
      else mret (parse_lag_bytes (br_bytes resp))
  end.

(** The state of a Galera node, and the connection. *)
Definition query_wsrep_state (c : C) : HB (option bool * C) :=
  r ← query_conn c (bs "SHOW GLOBAL STATUS LIKE 'wsrep_local_state'");
  match fst r with
  | Err _ => mret (None, snd r)
  | Ok resp => mret (if is_error resp then None else parse_wsrep_state (br_bytes resp), snd r)
  end.

Definition upd_replica_health (idx : nat) (f : BackendHealth -> BackendHealth) : HB unit :=
  s ← se_get;
  if (idx <? length (replica_health (fst s)))%nat
  then upd_pool (fun p => set_health (primary_health p) (alter f idx (replica_health p)) p)
  else se_fail (bs "panic: index out of bounds").

Definition check_replica (idx : nat) (cfg : BackendConfig) : HB unit :=
  r ← connect_to cfg;
  match r with
  | Ok c =>
      st ← (if galera_check hc then query_wsrep_state c else mret (None, c));
      match fst st with
      | Some false => upd_replica_health idx (set_healthy false)
      | _ =>
          lag ← query_replica_lag (snd st);
          let lag := default 0 lag in
          upd_replica_health idx (fun _ =>
            {| healthy := lag <=? max_lag_ms hc; lag_ms := lag; consecutive_failures := 0 |})
      end
  | Err _ =>
      upd_replica_health idx (fun h =>
        {| healthy := false; lag_ms := lag_ms h;
           consecutive_failures := u32 (consecutive_failures h + 1) |})
  end.

Fixpoint check_replicas (idx : nat) (cfgs : list BackendConfig) : HB unit :=
  match cfgs with
  | [] => mret tt
  | cfg :: cfgs' => check_replica idx cfg ;; check_replicas (S idx) cfgs'
  end.

(** One round of [run]. *)
Definition tick : HB unit :=
  check_primary ;; check_replicas 0 (replica_configs hc).
End Checks.

(** ** Reading the replication lag *)

(** A column of a result set: its definition packet and the name it carries. *)
Definition column_ok (col : bytes * bytes) : Prop := fits (fst col) /\ col_def_name (fst col) = Some (snd col).

Lemma find_lag_column_spec cols seqs i target rest :
  Forall column_ok cols -> length seqs = length cols ->
  exists t, find_lag_column (length cols) i target (packets (zip seqs cols.*1) ++ rest) = Some (t, rest) /\
    ((forall c, c ∈ cols -> is_lag_column (snd c) = false) -> t = target) /\
    (forall pre c post, cols = pre ++ c :: post -> is_lag_column (snd c) = true ->
       (forall c', c' ∈ post -> is_lag_column (snd c') = false) -> t = Some (i + length pre)%nat).
Proof.
  intros Hc. revert seqs i target. induction Hc as [|[p name] cols [Hf Hn] Hc IH]; intros [|seq seqs] i target Hl; try done.
  - exists target. split; [done|]. split; [done|]. by intros [|] ? ? ?.
  - cbn [length fmap list_fmap zip fst snd] in *. rewrite packets_cons, <- app_assoc.
    cbn [find_lag_column fst snd]. rewrite next_packet_framed by done. cbn [mbind option_bind fst snd].
    rewrite Hn. destruct (IH seqs (S i) (if is_lag_column name then Some i else target)) as (t & H1 & H2 & H3); [lia|].
    exists t. split; [exact H1|]. split.
    + intros Hall. rewrite H2 by (intros c Hin; apply Hall; by right).
      by rewrite (Hall (p, name) ltac:(by left) : is_lag_column name = false).
    + intros [|c0 pre] c post [= <- ->] Hlag Hpost; cbn [fst snd] in *.
      * rewrite H2 by done. rewrite Hlag. f_equal. simpl. lia.
      * rewrite (H3 pre c post) by done. f_equal. simpl. lia.
Qed.

Lemma nth_value_encode vals i v :
  Forall short vals -> vals !! i = Some v -> nth_value i (row_packet vals) = Some v.
Proof.
  intros Hs. revert i. induction Hs as [|x vals Hx Hs IH]; intros i Hi; [done|].
  unfold row_packet. cbn [map concat]. destruct i as [|i]; cbn [nth_value];
    rewrite read_lenenc_str_encode by done; cbn [mbind option_bind fst snd].
  - by injection Hi as ->.
  - by apply IH.
Qed.

(** A result set with one row, as the server frames it. *)
Definition one_row_set (seqs : list Z) (cols : list (bytes * bytes)) (row : bytes) (rest : bytes) : bytes :=
  framed_packet 1 (encode_lenenc (Z.of_nat (length cols))) ++ packets (zip seqs cols.*1)
  ++ framed_packet 0 (demo_eof 2) ++ framed_packet 0 row ++ rest.

(** The lag that is read is the lag the server reports: of a result set with one
    row the parser reads the value in the last column called [Seconds_Behind_Source] or
    [Seconds_Behind_Master], whatever the other columns are, and gives it in
    milliseconds.  A NULL, which means that replication is stopped, is read as no lag. *)
Theorem parse_lag_exact seqs pre c post vals v rest :
  let cols := pre ++ c :: post in
  Forall column_ok cols -> length seqs = length cols -> Z.of_nat (length cols) < 2 ^ 24 ->
  is_lag_column (snd c) = true -> (forall c', c' ∈ post -> is_lag_column (snd c') = false) ->
  Forall short vals -> fits (row_packet vals) -> head (row_packet vals) <> Some 254 ->
  vals !! length pre = Some v ->
  parse_lag_bytes (one_row_set seqs cols (row_packet vals) rest) = lag_of_value v /\
  (v = None -> lag_of_value v = Some 0) /\
  (forall secs, v = Some (show_u64 secs) -> 0 <= secs -> secs * 1000 < 2 ^ 64 ->
     lag_of_value v = Some (secs * 1000)).
Proof.
  intros cols Hc Hl Hn Hlag Hpost Hs Hf He Hv. split; [|split].
  - unfold parse_lag_bytes, one_row_set. rewrite read_col_count_framed by lia. cbn [mbind option_bind fst snd].
    assert (length cols <> 0)%nat by (unfold cols; rewrite length_app; simpl; lia).
    rewrite (proj2 (Z.eqb_neq _ _)) by lia. rewrite Nat2Z.id.
    destruct (find_lag_column_spec cols seqs 0 None
      (framed_packet 0 (demo_eof 2) ++ framed_packet 0 (row_packet vals) ++ rest) Hc Hl) as (t & -> & _ & Ht).
    rewrite (Ht pre c post eq_refl Hlag Hpost). cbn [mbind option_bind fst snd].
    rewrite next_packet_framed by done. cbn [mbind option_bind fst snd].
    rewrite next_packet_framed by done. cbn [mbind option_bind fst snd].
    rewrite bool_decide_eq_false_2 by done. cbn [plus].
    by rewrite (nth_value_encode _ _ v) by done.
  - by intros ->.
  - intros secs -> H0 H1. unfold lag_of_value.
    rewrite utf8_valid_ascii by apply show_u64_ascii. rewrite parse_show_u64 by lia. cbn [mbind option_bind].
    f_equal. apply wrap_small. unfold in_width. lia.
Qed.

Lemma parse_lag_exact_witness :
  let cols := [(column_def (bs "def") [] [] [] (bs "Replica_IO_State") [12], bs "Replica_IO_State");
               (column_def (bs "def") [] [] [] (bs "Seconds_Behind_Source") [12], bs "Seconds_Behind_Source")] in
  parse_lag_bytes (one_row_set [2; 3] cols (row_packet [None; Some (show_u64 17)]) []) = Some 17000.
Proof.
  intros cols.
  destruct (parse_lag_exact [2; 3] [(column_def (bs "def") [] [] [] (bs "Replica_IO_State") [12], bs "Replica_IO_State")]
    (column_def (bs "def") [] [] [] (bs "Seconds_Behind_Source") [12], bs "Seconds_Behind_Source") []
    [None; Some (show_u64 17)] (Some (show_u64 17)) []) as (H & _ & H2).
  - repeat constructor; vm_compute; done.
  - done.
  - vm_compute. done.
  - vm_compute. done.
  - intros c' Hc'. by apply elem_of_nil in Hc'.
  - repeat constructor; vm_compute; done.
  - vm_compute. done.
  - vm_compute. done.
  - done.
  - etransitivity; [exact H|]. apply (H2 17); [done | lia | lia].
Defined.

(** ** Choosing a replica *)

Lemma min_by_lag_spec l x :
  min_by_lag l = Some x -> x ∈ l /\ forall y, y ∈ l -> lag_ms (snd x) <= lag_ms (snd y).
Proof.
  revert x. induction l as [|z l IH]; intros x; cbn [min_by_lag]; [done|].
  destruct (min_by_lag l) as [m|] eqn:E.
  - destruct (IH m eq_refl) as [H1 H2]. destruct (_ <=? _) eqn:El; bool_to_prop; intros [= <-].
    + split; [by left|]. intros y Hy. apply elem_of_cons in Hy as [->|Hy]; [lia|]. specialize (H2 y Hy). lia.
    + split; [by right|]. intros y Hy. apply elem_of_cons in Hy as [->|Hy]; [lia | by apply H2].
  - intros [= <-]. split; [by left|]. intros y Hy. apply elem_of_cons in Hy as [->|Hy]; [lia|].
    destruct l as [|y0 l]; [by apply elem_of_nil in Hy|]. cbn [min_by_lag] in E.
    destruct (min_by_lag l); [|done]. by destruct (_ <=? _).
Qed.

Lemma min_by_lag_none l : min_by_lag l = None -> l = [].
Proof. destruct l as [|x l]; [done|]. cbn. destruct (min_by_lag l); [|done]. by destruct (_ <=? _). Qed.

(** A replica fit for promotion: healthy and no other healthy one lags less. *)
Definition best_of (rh : list BackendHealth) (i : Z) : Prop :=
  exists n h, i = Z.of_nat n /\ rh !! n = Some h /\ healthy h = true /\
    forall j h', rh !! j = Some h' -> healthy h' = true -> lag_ms h <= lag_ms h'.

Lemma elem_of_imap_pair {A} (l : list A) n x : (n, x) ∈ imap pair l <-> l !! n = Some x.
Proof.
  rewrite list_elem_of_lookup. split.
  - intros [i Hi]. rewrite list_lookup_imap in Hi. destruct (l !! i) eqn:E; [|done]. cbn in Hi. by injection Hi as -> ->.
  - intros H. exists n. by rewrite list_lookup_imap, H.
Qed.

Lemma best_replica_spec n rh :
  length rh = n ->
  match best_replica n rh with
  | Some (i, _) => best_of rh (Z.of_nat i)
  | None => forall j h, rh !! j = Some h -> healthy h = false
  end.
Proof.
  intros <-. unfold best_replica. rewrite take_ge by done.
  assert (forall j h, (j, h) ∈ filter (fun ih => healthy (snd ih) = true) (imap pair rh) <->
    rh !! j = Some h /\ healthy h = true) as Hin.
  { intros j h. rewrite list_elem_of_filter, elem_of_imap_pair. cbn. tauto. }
  destruct (min_by_lag _) as [[i h]|] eqn:E.
  - apply min_by_lag_spec in E as [H1 H2]. apply Hin in H1 as [H1 H3]. exists i, h. split_and!; try done.
    intros j h' Hj Hh. apply (H2 (j, h')). by apply Hin.
  - apply min_by_lag_none in E. intros j h Hj. destruct (healthy h) eqn:Eh; [|done].
    assert ((j, h) ∈ (@nil (nat * BackendHealth))) as Hx by (rewrite <- E; by apply Hin).
    by apply elem_of_nil in Hx.
Qed.

Section PrimaryChecks.
Context {W C : Type} `{IO : !BackendIO W C}.
Variable hc : HealthChecker.
Implicit Types (p : BackendPool C) (w : W).

(** What a tick finds: the world, and the health of the replicas. *)
Definition Tick : Type := W * list BackendHealth.
Definition answers (t : Tick) : bool := fst (probe_primary hc (fst t)).
Definition seen_at (t : Tick) : Z := unix_secs (snd (probe_primary hc (fst t))).
Definition with_replica_health (rh : list BackendHealth) p : BackendPool C := set_health (primary_health p) rh p.
Definition check_at (p : BackendPool C) (t : Tick) : BackendPool C :=
  fst (snd (check_primary hc (with_replica_health (snd t) p, fst t))).
Definition run_checks (ts : list Tick) (p : BackendPool C) : BackendPool C := foldl check_at p ts.
(** The health list is as long as the configuration, which is how both are made. *)
Definition tick_ok (t : Tick) : Prop := length (snd t) = length (replica_configs hc).
Definition some_healthy (t : Tick) : Prop := exists n h, snd t !! n = Some h /\ healthy h = true.

Lemma check_up p t :
  answers t = true -> check_at p t = primary_up hc (seen_at t) (with_replica_health (snd t) p).
Proof.
  unfold answers, seen_at, check_at, check_primary. unfold mbind at 1, se_bind at 1. cbn [fst snd].
  destruct (probe_primary hc (fst t)) as [ok w]. cbn [fst snd]. by intros ->.
Qed.

Definition failed_at (t : Tick) p : BackendPool C := primary_failed (with_replica_health (snd t) p).

Lemma check_down p t :
  tick_ok t -> answers t = false ->
  check_at p t =
    if (failover_threshold hc <=? u32 (consecutive_failures (primary_health p) + 1)) && (failover_idx p <? 0)
    then promote hc (note_trigger hc (seen_at t) (failed_at t p)) else failed_at t p.
Proof.
  intros Hok. unfold answers, seen_at, check_at, check_primary. unfold mbind at 1, se_bind at 1. cbn [fst snd].
  destruct (probe_primary hc (fst t)) as [ok w]. cbn [fst snd]. intros ->.
  unfold mbind, se_bind, se_get, upd_pool, se_modify. cbn [fst snd].
  change (failover_idx (primary_failed (with_replica_health (snd t) p))) with (failover_idx p).
  change (consecutive_failures (primary_health (primary_failed (with_replica_health (snd t) p))))
    with (u32 (consecutive_failures (primary_health p) + 1)).
  destruct (_ && _); [|done]. unfold trigger_failover, mbind, se_bind, se_get, upd_pool, se_modify. cbn [fst snd].
  change (replica_health (primary_failed (with_replica_health (snd t) p))) with (snd t).
  by rewrite Hok, Nat.ltb_irrefl.
Qed.

Lemma promote_spec p t :
  tick_ok t -> replica_health p = snd t ->
  (some_healthy t -> best_of (snd t) (failover_idx (promote hc p))) /\
  (~ some_healthy t -> promote hc p = p).
Proof.
  intros Hok Hr. unfold promote. rewrite Hr. pose proof (best_replica_spec _ (snd t) Hok) as Hb.
  destruct (best_replica _ _) as [[i h]|].
  - split; [done|]. intros Hn. exfalso. apply Hn. destruct Hb as (n & h' & _ & H1 & H2 & _). by exists n, h'.
  - split; [|done]. intros (n & h & H1 & H2). by rewrite (Hb n h H1) in H2.
Qed.

Lemma best_of_nonneg rh i : best_of rh i -> 0 <= i.
Proof. intros (n & h & -> & _). lia. Qed.

(** C25: Failover happens at the threshold: while the primary does not answer, nothing
    is promoted before the threshold, and at the tick that reaches it a replica that is
    healthy at that tick, and lags least among the healthy ones, becomes the failover
    primary. *)
Theorem failover_at_threshold ts p :
  Forall (fun t => tick_ok t /\ answers t = false /\ some_healthy t) ts ->
  failover_idx p < 0 -> consecutive_failures (primary_health p) = 0 ->
  Z.of_nat (length ts) < 2 ^ 32 -> 0 < failover_threshold hc ->
  (Z.of_nat (length ts) < failover_threshold hc -> failover_idx (run_checks ts p) = failover_idx p) /\
  (forall pre t, ts = pre ++ [t] -> Z.of_nat (length ts) = failover_threshold hc ->
     best_of (snd t) (failover_idx (run_checks ts p))).
Proof.
  intros Hts Hidx Hf Hlen Hth.
  assert (forall ts, Forall (fun t => tick_ok t /\ answers t = false /\ some_healthy t) ts ->
    Z.of_nat (length ts) < 2 ^ 32 -> Z.of_nat (length ts) < failover_threshold hc ->
    failover_idx (run_checks ts p) = failover_idx p /\
    consecutive_failures (primary_health (run_checks ts p)) = Z.of_nat (length ts)) as Hbelow.
  { clear Hts Hlen ts. intros ts. induction ts as [|t ts IH] using rev_ind; intros Hts Hlen Hlt.
    - split; [done | exact Hf].
    - rewrite length_app in *. cbn [length] in *. apply Forall_app in Hts as [Hts Ht].
      apply Forall_cons_iff in Ht as [(Ht1 & Ht2 & _) _].
      destruct IH as [IH1 IH2]; [done | lia | lia |].
      unfold run_checks. rewrite foldl_app. cbn [foldl]. fold (run_checks ts p).
      rewrite check_down by done. rewrite IH1, IH2. unfold u32.
      rewrite wrap_small by (unfold in_width; lia). rewrite (proj2 (Z.leb_gt _ _)) by lia. cbn [andb].
      cbn [failed_at primary_failed set_primary_health set_health failover_idx primary_health
           consecutive_failures with_replica_health]. rewrite IH2. unfold u32.
      rewrite wrap_small by (unfold in_width; lia). split; [done | lia]. }
  split; [intros Hlt; by apply Hbelow|].
  intros pre t -> Heq. rewrite length_app in *. cbn [length] in *.
  apply Forall_app in Hts as [Hts Ht]. apply Forall_cons_iff in Ht as [(Ht1 & Ht2 & Ht3) _].
  destruct (Hbelow pre) as [H1 H2]; [done | lia | lia |].
  unfold run_checks. rewrite foldl_app. cbn [foldl]. fold (run_checks pre p).
  rewrite check_down by done. rewrite H1, H2. unfold u32. rewrite wrap_small by (unfold in_width; lia).
  rewrite (proj2 (Z.leb_le _ _)), (proj2 (Z.ltb_lt _ _)) by lia. cbn [andb].
  by apply (promote_spec (note_trigger hc (seen_at t) (failed_at t (run_checks pre p))) t Ht1 eq_refl).
Qed.
Definition answered (ts : list Tick) : Z := Z.of_nat (length (filter (fun t => answers t = true) ts)).

Lemma answered_snoc ts t : answered (ts ++ [t]) = answered ts + (if answers t then 1 else 0).
Proof.
  unfold answered. rewrite list.filter_app, length_app, filter_cons, filter_nil.
  destruct (answers t); [rewrite decide_True by done | rewrite decide_False by done]; cbn; lia.
Qed.

Lemma failover_active_spec p : failover_active p = true <-> 0 <= failover_idx p.
Proof. apply Z.leb_le. Qed.

(** A tick during a failover: a failed check changes nothing of it, an answered one is
    counted, and the failover ends when enough were counted and it has cooled down. *)
Lemma check_during_failover p t :
  tick_ok t -> 0 <= failover_idx p -> 0 <= recovery_checks p -> recovery_checks p + 1 < 2 ^ 64 ->
  let p' := check_at p t in
  let count := recovery_checks p + (if answers t then 1 else 0) in
  if answers t && (min_recovery_checks hc <=? count) && negb (cooldown_active hc (seen_at t) p)
  then failover_idx p' = -1 /\ recovery_checks p' = 0 /\ failover_triggered_at p' = 0
  else failover_idx p' = failover_idx p /\ recovery_checks p' = count /\
       failover_triggered_at p' = failover_triggered_at p.
Proof.
  intros Hok Hidx H0 Hc p' count. unfold p', count. destruct (answers t) eqn:Ha.
  - rewrite check_up by done. unfold primary_up. set (q := set_primary_health _ _).
    change (failover_active q) with (0 <=? failover_idx p).
    change (recovery_checks q) with (recovery_checks p).
    assert (failover_idx q = failover_idx p /\ failover_triggered_at q = failover_triggered_at p) as [Hq1 Hq2] by done.
    assert (cooldown_active hc (seen_at t) (set_recovery_checks (usize (recovery_checks p + 1)) q)
      = cooldown_active hc (seen_at t) p) as Hq3 by done.
    rewrite Hq3. clearbody q. rewrite (proj2 (Z.leb_le 0 _)) by lia.
    unfold usize. rewrite wrap_small by (unfold in_width; lia). cbn [andb].
    rewrite Z.ltb_antisym. destruct (min_recovery_checks hc <=? recovery_checks p + 1); cbn [negb andb]; [|done].
    by destruct (cooldown_active hc (seen_at t) p).
  - rewrite check_down by done. rewrite (proj2 (Z.ltb_ge _ _)) by lia. rewrite andb_false_r. cbn [andb].
    rewrite Z.add_0_r. done.
Qed.

(** The checks that end a failover need not be consecutive: the failover goes on
    until the primary has answered [min_recovery_checks] times since it began, with any
    number of failed checks in between, and (without a cooldown) ends at that answer. *)
Theorem recovery_counts_every_answer ts p :
  Forall tick_ok ts -> 0 <= failover_idx p -> recovery_checks p = 0 ->
  Z.of_nat (length ts) + 1 < 2 ^ 64 ->
  (answered ts < min_recovery_checks hc -> failover_idx (run_checks ts p) = failover_idx p) /\
  (forall pre t, ts = pre ++ [t] -> answers t = true -> answered ts = min_recovery_checks hc ->
     cooldown_secs hc = 0 -> failover_idx (run_checks ts p) = -1).
Proof.
  intros Hts Hidx Hr Hlen.
  assert (forall ts, Forall tick_ok ts -> Z.of_nat (length ts) + 1 < 2 ^ 64 -> answered ts < min_recovery_checks hc ->
    failover_idx (run_checks ts p) = failover_idx p /\ recovery_checks (run_checks ts p) = answered ts) as Hbelow.
  { clear Hts Hlen ts. intros ts. induction ts as [|t ts IH] using rev_ind; intros Hts Hlen Hlt.
    - by split.
    - rewrite length_app in Hlen. cbn [length] in Hlen. apply Forall_app in Hts as [Hts Ht].
      apply Forall_cons_iff in Ht as [Ht _]. rewrite answered_snoc in *.
      destruct IH as [IH1 IH2]; [done | lia | destruct (answers t); lia |].
      assert (answered ts <= Z.of_nat (length ts)) by (unfold answered; pose proof (length_filter (fun t => answers t = true) ts); lia).
      assert (0 <= answered ts) by (unfold answered; lia).
      unfold run_checks. rewrite foldl_app. cbn [foldl]. fold (run_checks ts p).
      pose proof (check_during_failover (run_checks ts p) t Ht) as Hs. rewrite IH1, IH2 in Hs.
      specialize (Hs ltac:(lia) ltac:(lia) ltac:(lia)). cbv zeta in Hs.
      rewrite (proj2 (Z.leb_gt _ _) Hlt), andb_false_r in Hs. cbn [andb] in Hs. split; apply Hs. }
  split; [intros Hlt; by apply Hbelow|].
  intros pre t -> Ha Heq Hcd. rewrite length_app in Hlen. cbn [length] in Hlen.
  apply Forall_app in Hts as [Hts Ht]. apply Forall_cons_iff in Ht as [Ht _].
  rewrite answered_snoc, Ha in Heq. destruct (Hbelow pre) as [H1 H2]; [done | lia | lia |].
  assert (answered pre <= Z.of_nat (length pre)) by (unfold answered; pose proof (length_filter (fun t => answers t = true) pre); lia).
  assert (0 <= answered pre) by (unfold answered; lia).
  unfold run_checks. rewrite foldl_app. cbn [foldl]. fold (run_checks pre p).
  pose proof (check_during_failover (run_checks pre p) t Ht) as Hs. rewrite H1, H2, Ha in Hs.
  specialize (Hs ltac:(lia) ltac:(lia) ltac:(lia)). cbv zeta in Hs.
  assert (cooldown_active hc (seen_at t) (run_checks pre p) = false) as Hca
    by (unfold cooldown_active; rewrite Hcd; by rewrite andb_false_r).
  rewrite Hca, (proj2 (Z.leb_le _ _)) in Hs by lia. cbn [andb negb] in Hs. apply Hs.
Qed.

(** When no failover is active, none is remembered as triggered. *)
Definition forgotten p : Prop := failover_flap_total p = 0 /\ (failover_idx p < 0 -> failover_triggered_at p = 0).

Lemma check_forgotten p t : tick_ok t -> some_healthy t -> forgotten p -> forgotten (check_at p t).
Proof.
  intros Hok Hh [Hfl Hft]. destruct (answers t) eqn:Ha.
  - rewrite check_up by done. unfold primary_up, forgotten.
    repeat match goal with |- context [if ?c then _ else _] => destruct c eqn:? end; cbn; by auto.
  - rewrite check_down by done. destruct (_ && _) eqn:E; [|by split].
    apply andb_true_iff in E as [_ E]. bool_to_prop.
    set (q := note_trigger hc (seen_at t) (failed_at t p)).
    pose proof (proj1 (promote_spec q t Hok eq_refl) Hh) as Hb. split.
    + transitivity (failover_flap_total q); [|].
      * unfold promote. by destruct (best_replica _ _) as [[? ?]|].
      * unfold q, note_trigger. cbn [failover_flap_total set_ha].
        change (is_flap hc (seen_at t) (failed_at t p)) with (is_flap hc (seen_at t) p).
        unfold is_flap. rewrite Hft by done. done.
    + intros Hn. apply best_of_nonneg in Hb. lia.
Qed.

(** The flap counter never counts a flap: as long as a failover finds a healthy
    replica, it stays zero however often, and however fast, the primary fails and
    recovers, since ending a failover forgets when it was triggered. *)
Theorem flaps_are_never_counted ts p :
  Forall (fun t => tick_ok t /\ some_healthy t) ts -> forgotten p ->
  failover_flap_total (run_checks ts p) = 0.
Proof.
  intros Hts Hp. enough (forgotten (run_checks ts p)) as H by apply H. revert p Hp.
  induction Hts as [|t ts [H1 H2] _ IH]; intros p Hp; [done|]. cbn [run_checks foldl].
  apply IH. by apply check_forgotten.
Qed.

(** What it counts instead is a failover that finds nothing to promote. *)
Lemma failed_failover_counted p t :
  tick_ok t -> answers t = false -> ~ some_healthy t -> failover_idx p < 0 ->
  failover_threshold hc <= u32 (consecutive_failures (primary_health p) + 1) ->
  0 < failover_triggered_at p -> 0 < cooldown_secs hc < 2 ^ 63 ->
  seen_at t - failover_triggered_at p < cooldown_secs hc * 2 ->
  failover_flap_total (check_at p t) = usize (failover_flap_total p + 1).
Proof.
  intros Hok Ha Hn Hi Hth H0 Hcd Hlt. rewrite check_down by done.
  rewrite (proj2 (Z.leb_le _ _) Hth), (proj2 (Z.ltb_lt _ _) Hi). cbn [andb].
  rewrite (proj2 (promote_spec (note_trigger hc (seen_at t) (failed_at t p)) t Hok eq_refl) Hn).
  unfold note_trigger. cbn [failover_flap_total set_ha].
  change (is_flap hc (seen_at t) (failed_at t p)) with (is_flap hc (seen_at t) p).
  unfold is_flap, u64. rewrite wrap_small by (unfold in_width; lia).
  rewrite !(proj2 (Z.ltb_lt _ _)) by (unfold sat_sub; lia). done.
Qed.
End PrimaryChecks.

(** ** The verdict on a replica *)

Section ReplicaChecks.
Context {W C : Type} `{IO : !BackendIO W C}.
Variable hc : HealthChecker.
Implicit Types s : BackendPool C * W.

Lemma query_lag_pool c s : exists lag w', query_replica_lag c s = (Ok lag, (fst s, w')).
Proof.
  unfold query_replica_lag, mbind, se_bind, query_conn.
  destruct (execute_query c (bs "SHOW REPLICA STATUS") (snd s)) as [[[r|e] c'] w']; cbn [fst snd]; [|eexists _, _; reflexivity].
  destruct (is_error r); cbn [fst snd]; [|eexists _, _; reflexivity].
  destruct (execute_query c' (bs "SHOW SLAVE STATUS") w') as [[[r2|e] c''] w'']; cbn [fst snd]; eexists _, _; reflexivity.
Qed.

Lemma query_wsrep_pool c s : exists st c' w', query_wsrep_state c s = (Ok (st, c'), (fst s, w')).
Proof.
  unfold query_wsrep_state, mbind, se_bind, query_conn.
  destruct (execute_query c (bs "SHOW GLOBAL STATUS LIKE 'wsrep_local_state'") (snd s)) as [[[r|e] c'] w']; cbn [fst snd]; eexists _, _, _; reflexivity.
Qed.

(** The state and the lag that the queries of a check report, on the connection of it. *)
Definition galera_state (c : C) s : option bool * C :=
  if galera_check hc then match fst (query_wsrep_state c s) with Ok x => x | Err _ => (None, c) end
  else (None, c).
Definition after_galera (c : C) s : BackendPool C * W :=
  if galera_check hc then snd (query_wsrep_state c s) else s.
Definition reported_lag (c : C) s : option Z :=
  match fst (query_replica_lag c s) with Ok lag => lag | Err _ => None end.

(** A replica is in the read pool exactly when its check says so: it can be
    connected to, it is not a Galera node out of sync, and the lag it reports, if it
    reports one, is within the limit; a replica whose lag cannot be read counts as
    having none.  No other replica, and nothing else of the pool, is touched. *)
Theorem check_replica_verdict idx cfg s h :
  replica_health (fst s) !! idx = Some h ->
  exists h' w', check_replica hc idx cfg s =
    (Ok tt, (set_health (primary_health (fst s)) (<[idx := h']> (replica_health (fst s))) (fst s), w')) /\
  match connect_backend cfg (snd s) with
  | (Err _, _) => healthy h' = false /\ consecutive_failures h' = u32 (consecutive_failures h + 1)
  | (Ok c, w1) =>
      let s1 := (fst s, w1) in
      let '(st, c') := galera_state c s1 in
      (st = Some false -> healthy h' = false /\ lag_ms h' = lag_ms h) /\
      (st <> Some false ->
        let lag := default 0 (reported_lag c' (after_galera c s1)) in
        consecutive_failures h' = 0 /\ lag_ms h' = lag /\
        (healthy h' = true <-> lag <= max_lag_ms hc))
  end.
Proof.
  intros Hh. pose proof (lookup_lt_Some _ _ _ Hh) as Hlt.
  assert (forall f (w : W), upd_replica_health idx f (fst s, w) =
    (Ok tt, (set_health (primary_health (fst s)) (<[idx := f h]> (replica_health (fst s))) (fst s), w))) as Hupd.
  { intros f w. unfold upd_replica_health, mbind, se_bind, se_get. cbn [fst].
    rewrite (proj2 (Nat.ltb_lt _ _) Hlt). unfold upd_pool, se_modify. cbn [fst snd]. do 3 f_equal.
    apply list_eq. intros j. destruct (decide (j = idx)) as [->|Hj].
    - rewrite list_lookup_alter_eq, Hh, list_lookup_insert_eq by done. done.
    - by rewrite list_lookup_alter_ne, list_lookup_insert_ne by done. }
  unfold check_replica, connect_to. unfold mbind at 1, se_bind at 1.
  destruct (connect_backend cfg (snd s)) as [[c|e] w1].
  2: { rewrite Hupd. eexists _, _. split; [reflexivity|]. done. }
  unfold galera_state, after_galera. unfold mbind at 1, se_bind at 1.
  assert (forall (st : option bool) (c' : C) (w2 : W), (st <> Some false) ->
    exists h' w', (lag ← query_replica_lag c';
      let lag := default 0 lag in
      upd_replica_health idx (fun _ =>
        {| healthy := lag <=? max_lag_ms hc; lag_ms := lag; consecutive_failures := 0 |})) (fst s, w2)
    = (Ok tt, (set_health (primary_health (fst s)) (<[idx := h']> (replica_health (fst s))) (fst s), w')) /\
    (st = Some false -> healthy h' = false /\ lag_ms h' = lag_ms h) /\
    (st <> Some false ->
      let lag := default 0 (reported_lag c' (fst s, w2)) in
      consecutive_failures h' = 0 /\ lag_ms h' = lag /\ (healthy h' = true <-> lag <= max_lag_ms hc))) as Hlag.
  { intros st c' w2 Hst. unfold mbind, se_bind, reported_lag.
    destruct (query_lag_pool c' (fst s, w2)) as (lag & w3 & ->). cbn [fst]. rewrite Hupd.
    eexists _, _. split; [reflexivity|]. split; [done|]. intros _. cbn. split_and!; try done. apply Z.leb_le. }
  destruct (galera_check hc).
  - destruct (query_wsrep_pool c (fst s, w1)) as (st & c' & w2 & ->). cbn [fst snd].
    destruct st as [[|]|]; [apply Hlag; done | | apply Hlag; done].
    rewrite Hupd. eexists _, _. split; [reflexivity|]. split; [by intros _|done].
  - cbn [fst snd]. unfold mret, se_ret. cbn [fst snd]. by apply (Hlag None).
Qed.
End ReplicaChecks.

(** ** Concrete runs *)

Definition demo_checker : HealthChecker :=
  {| primary_config := test_config "p:3306" 1 false None;
     replica_configs := [test_config "r1:3306" 2 false None; test_config "r2:3306" 1 true None];
     max_lag_ms := 5000; failover_threshold := 3; galera_check := false; cooldown_secs := 0;
     min_recovery_checks := 2 |}.

Definition demo_health : list BackendHealth :=
  [ {| healthy := true; lag_ms := 900; consecutive_failures := 0 |};
    {| healthy := true; lag_ms := 20; consecutive_failures := 0 |} ].
Definition bad_tick : Tick (W := TestWorld) := (scenario [bs "p:3306"] [] [], demo_health).
Definition good_tick : Tick (W := TestWorld) := (test_world, demo_health).

Lemma bad_tick_ok : tick_ok (W := TestWorld) demo_checker bad_tick /\ answers demo_checker bad_tick = false /\
  some_healthy (W := TestWorld) bad_tick.
Proof. split_and!; [done | done |]. by exists 0%nat, (Build_BackendHealth true 900 0). Qed.

(** Three failed checks promote the replica with the least lag. *)
Lemma failover_at_threshold_witness :
  best_of demo_health (failover_idx (run_checks demo_checker [bad_tick; bad_tick; bad_tick] (demo_backends (-1)))).
Proof.
  apply (proj2 (failover_at_threshold demo_checker [bad_tick; bad_tick; bad_tick] (demo_backends (-1))
    ltac:(repeat constructor; apply bad_tick_ok) ltac:(vm_compute; reflexivity) ltac:(reflexivity)
    ltac:(vm_compute; reflexivity) ltac:(vm_compute; reflexivity)) [bad_tick; bad_tick] bad_tick); reflexivity.
Defined.

(** Two answers, with a failed check between them, end a failover. *)
Lemma recovery_counts_every_answer_witness :
  failover_idx (run_checks demo_checker [bad_tick; good_tick; bad_tick; good_tick]
    (set_ha 1 1 0 0 900 (demo_backends (-1)))) = -1.
Proof.
  pose proof (recovery_counts_every_answer demo_checker [bad_tick; good_tick; bad_tick; good_tick]
    (set_ha 1 1 0 0 900 (demo_backends (-1)))) as H.
  specialize (H ltac:(repeat constructor) ltac:(vm_compute; discriminate) ltac:(reflexivity) ltac:(vm_compute; reflexivity)).
  apply (proj2 H [bad_tick; good_tick; bad_tick] good_tick); [reflexivity | vm_compute; reflexivity..].
Defined.

(** A primary that goes down and up again and again. *)
Lemma flaps_are_never_counted_witness :
  let ts := concat (repeat [bad_tick; bad_tick; bad_tick; good_tick; good_tick] 3) in
  failover_flap_total (run_checks demo_checker ts (demo_backends (-1))) = 0 /\
  failover_events_total (run_checks demo_checker ts (demo_backends (-1))) = 3.
Proof.
  intros ts. split; [|vm_compute; reflexivity].
  apply (flaps_are_never_counted demo_checker ts (demo_backends (-1))).
  - assert (forall t, t = bad_tick \/ t = good_tick -> tick_ok demo_checker t /\ some_healthy t) as Ht.
    { intros t [->| ->]; (split; [done | by exists 0%nat, (Build_BackendHealth true 900 0)]). }
    unfold ts. cbn [repeat concat app]. repeat (constructor; [apply Ht; tauto|]). constructor.
  - split; [done | intros _; done].
Defined.

(** A replica whose query of the lag gives nothing that can be read. *)
Lemma check_replica_verdict_witness :
  exists h' w', check_replica demo_checker 0 (test_config "r1:3306" 2 false None)
    (with_replica_health demo_health (demo_backends (-1)), test_world)
  = (Ok tt, (set_health (health_new true) (<[0%nat := h']> demo_health) (demo_backends (-1)), w')) /\
  healthy h' = true /\ lag_ms h' = 0.
Proof.
  destruct (check_replica_verdict demo_checker 0 (test_config "r1:3306" 2 false None)
    (with_replica_health demo_health (demo_backends (-1)), test_world) (Build_BackendHealth true 900 0) eq_refl)
    as (h' & w' & H1 & H2).
  exists h', w'. split; [exact H1|]. vm_compute in H2. destruct H2 as [_ H2].
  destruct H2 as (_ & H3 & H4); [discriminate|]. split; [by apply H4 | exact H3].
Defined.
