(* ===== verification/GroupReplication.v ===== *)
(** * Group Replication (src/src/proxy/group_replication.rs)

    The monitor that reads the members of a MySQL group from any backend that answers
    and redirects the primary's traffic ([gr_primary_idx] of the [BackendPool]). *)

From S2P Require Import Prelude Bytes Config MysqlCodec MysqlResponse TextRows Pool.

Record GrChecker := {
  gr_primary_config : BackendConfig;
  gr_replica_configs : list BackendConfig
}.

(** ** Rows of a result set *)

Fixpoint parse_row (n : nat) (s : bytes) : option (list (option bytes)) :=
  match n with
  | O => Some []
  | S n' =>
      v ← read_lenenc_str s;
      row ← parse_row n' (snd v);
      Some (match fst v with None => None | Some t => Some (utf8_lossy t) end :: row)
  end.

(** Rows up to an EOF or error packet; every turn consumes a packet of the input, so as
    much fuel as there are bytes is enough. *)
Fixpoint parse_rows (fuel : nat) (cols : nat) (s : bytes) : option (list (list (option bytes))) :=
  match fuel with
  | O => None
  | S fuel' =>
      p ← next_packet s;
      if bool_decide (head (fst p) = Some 254) || bool_decide (head (fst p) = Some 255) then Some []
      else
        row ← parse_row cols (fst p);
        rows ← parse_rows fuel' cols (snd p);
        Some (row :: rows)
  end.

Definition parse_text_rows (s : bytes) : option (list (list (option bytes))) :=
  c ← read_col_count s;
  if fst c =? 0 then Some [] else
  r ← skip_packets (Z.to_nat (fst c)) (snd c);
  p ← next_packet r;
  parse_rows (length s) (Z.to_nat (fst c)) (snd p).

(** ** Members *)

Definition str_col (row : list (option bytes)) (idx : nat) : bytes :=
  match row !! idx with Some (Some v) => v | _ => [] end.

Definition member_of_row (row : list (option bytes)) : GrMember :=
  let host := str_col row 0 in
  let port := str_col row 1 in
  {| gm_addr := match port with
                | [] => host
                | _ => if beq port (bs "3306") then host else host ++ [58] ++ port
                end;
     gm_role := str_col row 2; gm_state := str_col row 3; gm_version := str_col row 4 |}.

Definition parse_gr_members (s : bytes) : list GrMember :=
  match parse_text_rows s with
  | None => []
  | Some rows => map member_of_row rows
  end.

(** ** Routing *)

Definition addr_matches (config_addr gr_addr : bytes) : bool :=
  eq_ignore_ascii_case (trim config_addr) (trim gr_addr).

Definition is_online_primary (m : GrMember) : bool :=
  beq (gm_role m) (bs "PRIMARY") && beq (gm_state m) (bs "ONLINE").

Section Monitor.
Context {W C : Type} `{IO : !BackendIO W C}.
Variable gc : GrChecker.
Implicit Types p : BackendPool C.

Definition find_backend_index (a : bytes) : Z :=
  if addr_matches (addr (gr_primary_config gc)) a then -1
  else
    match find_index_from (fun r => addr_matches (addr r) a) 0 (gr_replica_configs gc) with
    | Some i => Z.of_nat i
    | None => -1
    end.

Definition apply_members (members : list GrMember) (p : BackendPool C) : BackendPool C :=
  match members with
  | [] => set_gr (-1) [] p
  | _ =>
      let idx := match List.find is_online_primary members with
                 | Some pm => find_backend_index (gm_addr pm)
                 | None => gr_primary_idx p
                 end in
      set_gr idx members p
  end.

Definition members_query : bytes :=
  bs "SELECT MEMBER_HOST, MEMBER_PORT, MEMBER_ROLE, MEMBER_STATE, MEMBER_VERSION FROM performance_schema.replication_group_members".

Definition query_gr_members (cfg : BackendConfig) (w : W) : result bytes (list GrMember) * W :=
  match connect_backend cfg w with
  | (Err e, w') => (Err e, w')
  | (Ok c, w') =>
      let '(r, _, w'') := execute_query c members_query w' in
      match r with
      | Err e => (Err e, w'')
      | Ok resp => (Ok (if is_error resp then [] else parse_gr_members (br_bytes resp)), w'')
      end
  end.

Fixpoint poll_backends (cfgs : list BackendConfig) (s : BackendPool C * W) : BackendPool C * W :=
  match cfgs with
  | [] => s
  | cfg :: cfgs' =>
      let (r, w) := query_gr_members cfg (snd s) in
      match r with
      | Ok members => (apply_members members (fst s), w)
      | Err _ => poll_backends cfgs' (fst s, w)
      end
  end.
Definition poll_once (s : BackendPool C * W) : BackendPool C * W :=
  poll_backends (gr_primary_config gc :: gr_replica_configs gc) s.
End Monitor.

(** ** Parsing what the server sends *)

Definition values_ok (row : list (option bytes)) : Prop :=
  Forall (fun v => short v /\ match v with None => True | Some t => utf8_valid t = true end) row.
Definition row_ok (cols : nat) (row : list (option bytes)) : Prop :=
  length row = cols /\ values_ok row /\ fits (row_packet row) /\
  head (row_packet row) <> Some 254 /\ head (row_packet row) <> Some 255.

Lemma parse_row_encode row rest :
  values_ok row -> parse_row (length row) (row_packet row ++ rest) = Some row.
Proof.
  unfold row_packet. induction 1 as [|v row [Hs Hu] _ IH]; [done|]. cbn [length map concat parse_row].
  rewrite <- app_assoc, read_lenenc_str_encode by done. cbn [mbind option_bind fst snd]. rewrite IH.
  cbn [mbind option_bind]. destruct v as [t|]; [|done]. by rewrite utf8_lossy_valid.
Qed.

Lemma parse_rows_encode cols rows seqs fuel eof rest :
  Forall (row_ok cols) rows -> length seqs = length rows -> (length rows < fuel)%nat ->
  fits eof -> head eof = Some 254 ->
  parse_rows fuel cols (packets (zip seqs (map row_packet rows)) ++ framed_packet 0 eof ++ rest) = Some rows.
Proof.
  intros Hr. revert seqs fuel. induction Hr as [|row rows (Hl & Hv & Hf & H1 & H2) _ IH]; intros [|seq seqs] [|fuel] Hs Hlt He Hh;
    cbn [length] in *; try lia; cbn [map zip_with parse_rows].
  - replace (packets []) with (@nil Z) by done. cbn [app]. rewrite next_packet_framed by done. cbn [mbind option_bind fst snd].
    by rewrite bool_decide_eq_true_2.
  - rewrite packets_cons, <- app_assoc. cbn [fst snd]. rewrite next_packet_framed by done. cbn [mbind option_bind fst snd].
    rewrite !bool_decide_eq_false_2 by done. cbn [orb].
    rewrite <- (app_nil_r (row_packet row)), <- Hl, parse_row_encode by done. cbn [mbind option_bind]. rewrite Hl.
    rewrite IH by (done || lia). done.
Qed.

(** A result set with any number of rows. *)
Definition result_set (seqs : list Z) (defs : list (Z * bytes)) (rows : list (list (option bytes))) (rest : bytes) : bytes :=
  framed_packet 1 (encode_lenenc (Z.of_nat (length defs))) ++ packets defs ++ framed_packet 0 (demo_eof 2)
  ++ packets (zip seqs (map row_packet rows)) ++ framed_packet 0 (demo_eof 2) ++ rest.

(** The rows of a result set are read back value by value, however many there
    are. *)
Theorem text_rows_roundtrip seqs defs rows rest :
  Forall (fun sp => fits (snd sp)) defs -> (0 < length defs)%nat -> Z.of_nat (length defs) < 2 ^ 24 ->
  length seqs = length rows -> Forall (row_ok (length defs)) rows ->
  parse_text_rows (result_set seqs defs rows rest) = Some rows.
Proof.
  intros Hd Hpos Hn Hs Hr. unfold parse_text_rows. set (s := result_set seqs defs rows rest).
  assert (length rows < length s)%nat as Hlen.
  { unfold s, result_set. rewrite !length_app, !framed_length.
    assert (forall (l : list (Z * bytes)), (length l <= length (packets l))%nat) as Hp.
    { induction l as [|[q x] l IH]; [done|]. rewrite packets_cons, length_app, framed_length. simpl. lia. }
    pose proof (Hp (zip seqs (map row_packet rows))) as H. rewrite length_zip_with, length_map in H. lia. }
  revert Hlen. generalize (length s) as fuel. intros fuel Hlen. unfold s, result_set.
  rewrite read_col_count_framed by lia. cbn [mbind option_bind fst snd].
  rewrite (proj2 (Z.eqb_neq _ _)) by lia. rewrite Nat2Z.id.
  rewrite skip_packets_framed by done. cbn [mbind option_bind].
  rewrite next_packet_framed by done. cbn [mbind option_bind fst snd].
  by apply parse_rows_encode.
Qed.

(** ** Following the primary *)

Section Follow.
Context {W C : Type} `{IO : !BackendIO W C}.
Variable gc : GrChecker.
Implicit Types p : BackendPool C.


Lemma lower_colon (s : bytes) : 58 ∈ to_ascii_lowercase s <-> 58 ∈ s.
Proof.
  unfold to_ascii_lowercase. rewrite list_elem_of_fmap. split.
  - intros (b & Hb & Hin). unfold ascii_lower in Hb. destruct ((65 <=? b) && (b <=? 90)) eqn:E.
    + bool_to_prop. lia.
    + by subst b.
  - intros H. by exists 58.
Qed.

Lemma colon_mismatch a b : 58 ∈ trim a -> 58 ∉ trim b -> addr_matches a b = false.
Proof.
  intros Ha Hb. unfold addr_matches, eq_ignore_ascii_case, beq. apply bool_decide_eq_false_2. intros E.
  apply Hb. rewrite <- lower_colon, <- E. by rewrite lower_colon.
Qed.

(** A group on the standard port is never followed: the monitor drops the port of
    a member when it is 3306, while a configured address has to have one, so no backend
    matches and the traffic stays with (or goes back to) the configured primary, which
    may be a read-only secondary by then. *)
Theorem default_port_is_never_followed members row p :
  List.find is_online_primary members = Some (member_of_row row) ->
  str_col row 1 = bs "3306" -> 58 ∉ trim (str_col row 0) ->
  58 ∈ trim (addr (gr_primary_config gc)) ->
  Forall (fun c => 58 ∈ trim (addr c)) (gr_replica_configs gc) ->
  gr_primary_idx (apply_members gc members p) = -1.
Proof.
  intros Hf Hport Hhost Hp Hr. unfold apply_members. destruct members as [|m0 members]; [done|].
  rewrite Hf. cbn [gr_primary_idx set_gr]. unfold find_backend_index.
  assert (gm_addr (member_of_row row) = str_col row 0) as -> by (unfold member_of_row; cbn [gm_addr]; by rewrite Hport).
  rewrite colon_mismatch by done.
  assert (find_index_from (fun r => addr_matches (addr r) (str_col row 0)) 0 (gr_replica_configs gc) = None) as ->; [|done].
  apply find_index_from_none. intros c Hc. apply colon_mismatch; [|done].
  rewrite Forall_forall in Hr. apply Hr. by apply list_elem_of_In.
Qed.

(** Polling leaves the pool alone when no backend answers. *)
Lemma poll_frozen cfgs (s : BackendPool C * W) :
  (forall cfg w, cfg ∈ cfgs -> is_err (fst (query_gr_members cfg w)) = true) -> fst (poll_backends gc cfgs s) = fst s.
Proof.
  revert s. induction cfgs as [|cfg cfgs IH]; intros s Hall; [done|]. cbn [poll_backends].
  pose proof (Hall cfg (snd s) ltac:(by left)) as H. destruct (query_gr_members cfg (snd s)) as [[ms|e] w]; [done|].
  rewrite IH; [done|]. intros c w' Hc. apply Hall. by right.
Qed.
End Follow.

(** ** A group of two *)

Definition demo_group : GrChecker :=
  {| gr_primary_config := test_config "db1:3306" 1 false None;
     gr_replica_configs := [test_config "DB2:3307" 1 false None] |}.
Definition demo_pool2 : BackendPool TestConn :=
  with_options (test_config "db1:3306" 1 false None) [test_config "DB2:3307" 1 false None] 4 None 3 1000 0 5000.
Definition demo_row (host port : string) : list (option bytes) :=
  [Some (bs host); Some (bs port); Some (bs "PRIMARY"); Some (bs "ONLINE"); Some (bs "8.0.36")].

Lemma text_rows_roundtrip_witness :
  parse_text_rows (result_set [7] (repeat (2, bs "def") 5) [demo_row "db2" "3307"] []) = Some [demo_row "db2" "3307"].
Proof.
  apply (text_rows_roundtrip [7] (repeat (2, bs "def") 5) [demo_row "db2" "3307"] []).
  - repeat constructor; vm_compute; done.
  - cbn. lia.
  - vm_compute. done.
  - done.
  - constructor; [|constructor]. split_and!; [done | | vm_compute; done | vm_compute; discriminate..].
    repeat constructor; vm_compute; done.
Defined.


Lemma default_port_is_never_followed_witness :
  gr_primary_idx (apply_members
    {| gr_primary_config := test_config "db1:3306" 1 false None; gr_replica_configs := [test_config "db2:3306" 1 false None] |}
    [member_of_row (demo_row "db2" "3306")] demo_pool2) = -1.
Proof.
  apply (default_port_is_never_followed
    {| gr_primary_config := test_config "db1:3306" 1 false None; gr_replica_configs := [test_config "db2:3306" 1 false None] |}
    [member_of_row (demo_row "db2" "3306")] (demo_row "db2" "3306") demo_pool2).
  - vm_compute. done.
  - done.
  - eapply bool_decide_eq_true_1. vm_compute. done.
  - eapply bool_decide_eq_true_1. vm_compute. done.
  - constructor; [|constructor]. eapply bool_decide_eq_true_1. vm_compute. done.
Defined.
