(* ===== verification/Tracer.v ===== *)
(** * Transaction traces (src/src/proxy/tracer.rs)

    The builder a session keeps while a transaction is open, and the ring of the last
    thousand finished traces.  Durations are kept in nanoseconds. *)

From S2P Require Import Prelude Bytes.

Definition CAPACITY : nat := 1000.

Record TraceEntry := {
  te_fingerprint : bytes;
  te_sql : bytes;
  te_duration : Z;
  te_backend : bytes;
  te_intent : bytes;
  te_started_at_ms : Z
}.

Record TransactionTrace := {
  tt_id : Z;
  tt_session : Z;
  tt_user : bytes;
  tt_client : bytes;
  tt_started_at_ms : Z;
  tt_duration : Z;
  query_count : Z;
  outcome : bytes;
  tx_fingerprint : bytes;
  tt_queries : list TraceEntry
}.

(** ** The builder *)

Record ActiveTrace := {
  at_session : Z;
  at_user : bytes;
  at_client : bytes;
  at_started_at_ms : Z;
  at_start : Z;
  at_entries : list TraceEntry
}.

Definition trace_new (session_id : Z) (user client_addr : bytes) (unix_ms now : Z) : ActiveTrace :=
  {| at_session := session_id; at_user := user; at_client := client_addr; at_started_at_ms := unix_ms;
     at_start := now; at_entries := [] |}.

Definition MAX_SQL : nat := 4096.

(** The stored text, or a panic: the slice must not end inside a character. *)
Definition stored_sql (sql : bytes) : option bytes :=
  if (MAX_SQL <? length sql)%nat then
    match drop MAX_SQL sql with
    | b :: _ => if is_cont b then None else Some (take MAX_SQL sql ++ [226; 128; 166])
    | [] => Some (take MAX_SQL sql ++ [226; 128; 166])
    end
  else Some sql.

Definition elapsed (since now : Z) : Z := Z.max 0 (now - since).

(** [None] is the panic. *)
Definition record (sql fp : bytes) (duration : Z) (backend intent : bytes) (now : Z) (t : ActiveTrace)
  : option ActiveTrace :=
  match stored_sql sql with
  | None => None
  | Some stored =>
      let started := u64 (u64 (at_started_at_ms t + u64 (elapsed (at_start t) now / 10 ^ 6)) - u64 (duration / 10 ^ 6)) in
      Some {| at_session := at_session t; at_user := at_user t; at_client := at_client t;
              at_started_at_ms := at_started_at_ms t; at_start := at_start t;
              at_entries := at_entries t ++
                [{| te_fingerprint := fp; te_sql := stored; te_duration := duration; te_backend := backend;
                    te_intent := intent; te_started_at_ms := started |}] |}
  end.

(** FNV-1a over the fingerprints, separated by bars, as sixteen hexadecimal digits. *)
Definition fnv_byte (h b : Z) : Z := u64 (Z.lxor h b * 1099511628211).
Fixpoint fnv_entries (first : bool) (h : Z) (entries : list TraceEntry) : Z :=
  match entries with
  | [] => h
  | e :: entries' =>
      let h := if first then h else fnv_byte h 124 in
      fnv_entries false (foldl fnv_byte h (te_fingerprint e)) entries'
  end.
Definition hex (n : Z) : Z := if n <? 10 then 48 + n else 87 + n.
Definition hex16 (h : Z) : bytes := map (fun i => hex (h / 16 ^ Z.of_nat i mod 16)) (rev (seq 0 16)).
Definition compute_tx_fingerprint (entries : list TraceEntry) : bytes :=
  hex16 (fnv_entries true 14695981039346656037 entries).

Definition finish (out : bytes) (now : Z) (t : ActiveTrace) : TransactionTrace :=
  {| tt_id := 0; tt_session := at_session t; tt_user := at_user t; tt_client := at_client t;
     tt_started_at_ms := at_started_at_ms t; tt_duration := elapsed (at_start t) now;
     query_count := Z.of_nat (length (at_entries t)); outcome := out;
     tx_fingerprint := compute_tx_fingerprint (at_entries t); tt_queries := at_entries t |}.

(** ** The store *)

Record TracerStore := { traces : list TransactionTrace; next_trace : Z }.

Definition store_new : TracerStore := {| traces := []; next_trace := 1 |}.

Definition numbered (id : Z) (t : TransactionTrace) : TransactionTrace :=
  {| tt_id := id; tt_session := tt_session t; tt_user := tt_user t; tt_client := tt_client t;
     tt_started_at_ms := tt_started_at_ms t; tt_duration := tt_duration t; query_count := query_count t;
     outcome := outcome t; tx_fingerprint := tx_fingerprint t; tt_queries := tt_queries t |}.

Definition push (t : TransactionTrace) (s : TracerStore) : TracerStore :=
  let buf := if (length (traces s) =? CAPACITY)%nat then drop 1 (traces s) else traces s in
  {| traces := buf ++ [numbered (next_trace s) t]; next_trace := u64 (next_trace s + 1) |}.

Definition snapshot (limit : nat) (fp : option bytes) (s : TracerStore) : list TransactionTrace :=
  take limit (List.filter (fun t => match fp with Some f => beq (tx_fingerprint t) f | None => true end) (rev (traces s))).

Definition count_of (m : gmap bytes Z) (fp : bytes) : gmap bytes Z := <[fp := usize (default 0 (m !! fp) + 1)]> m.

(** A stable sort, the largest count first. *)
Fixpoint insert_count (x : bytes * Z) (l : list (bytes * Z)) : list (bytes * Z) :=
  match l with
  | [] => [x]
  | y :: l' => if snd x <=? snd y then y :: insert_count x l' else x :: l
  end.
Definition fingerprint_counts `{!MapOrder bytes Z} (s : TracerStore) : list (bytes * Z) :=
  foldl (fun l x => insert_count x l) [] (iter (foldl count_of ∅ (map tx_fingerprint (traces s)))).

(** ** What the store holds *)

Definition push_all (ts : list TransactionTrace) (s : TracerStore) : TracerStore := foldl (fun s t => push t s) s ts.

Fixpoint number_from (id : Z) (ts : list TransactionTrace) : list TransactionTrace :=
  match ts with [] => [] | t :: ts' => numbered id t :: number_from (u64 (id + 1)) ts' end.

(** The last [n] elements of a list. *)
Definition suffix {A} (n : nat) (l : list A) : list A := drop (length l - n) l.

Lemma suffix_app {A} n (l r : list A) : suffix n (suffix n l ++ r) = suffix n (l ++ r).
Proof.
  unfold suffix. destruct (decide (length l <= n)%nat) as [Hl|Hl].
  - by replace (length l - n)%nat with 0%nat by lia.
  - rewrite <- (drop_app_le l r) by lia. rewrite drop_drop, length_drop, !length_app. f_equal. lia.
Qed.

Lemma push_traces t s : (length (traces s) <= CAPACITY)%nat ->
  traces (push t s) = suffix CAPACITY (traces s ++ [numbered (next_trace s) t]) /\
  (length (traces (push t s)) <= CAPACITY)%nat.
Proof.
  intros Hl. unfold push, suffix. cbn [traces]. rewrite length_app. cbn [length].
  destruct (Nat.eqb_spec (length (traces s)) CAPACITY) as [He|He]; rewrite length_app; cbn [length].
  - rewrite length_drop. replace (length (traces s) + 1 - CAPACITY)%nat with 1%nat by (unfold CAPACITY in *; lia).
    rewrite drop_app_le by (unfold CAPACITY in *; lia). split; [done|unfold CAPACITY in *; lia].
  - replace (length (traces s) + 1 - CAPACITY)%nat with 0%nat by lia. rewrite drop_0. split; [done|lia].
Qed.

Lemma push_all_traces ts s : (length (traces s) <= CAPACITY)%nat ->
  traces (push_all ts s) = suffix CAPACITY (traces s ++ number_from (next_trace s) ts) /\
  (length (traces (push_all ts s)) <= CAPACITY)%nat.
Proof.
  revert s. induction ts as [|t ts IH]; intros s Hl; cbn [push_all foldl number_from].
  - rewrite app_nil_r. unfold suffix. replace (length (traces s) - CAPACITY)%nat with 0%nat by lia. by rewrite drop_0.
  - destruct (push_traces t s Hl) as [Hp Hl']. destruct (IH (push t s) Hl') as [H1 H2]. fold push_all in *.
    unfold push_all in H1, H2. split; [|exact H2]. rewrite H1, Hp. cbn [push next_trace].
    rewrite suffix_app. f_equal. by rewrite <- app_assoc.
Qed.

(** The store holds the last thousand traces, in the order they ended, numbered by a counter
    that starts at one; an unfiltered snapshot gives the newest of them first. *)
Theorem ring_keeps_last ts limit :
  let s := push_all ts store_new in
  traces s = suffix CAPACITY (number_from 1 ts) /\
  snapshot limit None s = take limit (rev (suffix CAPACITY (number_from 1 ts))).
Proof.
  intros s. destruct (push_all_traces ts store_new) as [H _]; [cbn; lia|]. cbn [traces store_new app next_trace] in H.
  split; [exact H|]. unfold snapshot. fold s in H. rewrite H. f_equal.
  induction (rev _) as [|t l IH]; [done|]. cbn [List.filter]. by rewrite IH.
Qed.

(** A statement of more than 4096 bytes whose slice would end inside a character panics, and
    no other statement does. *)
Theorem record_panics_iff sql fp d backend intent now t :
  record sql fp d backend intent now t = None <->
  exists b, sql !! 4096%nat = Some b /\ is_cont b = true.
Proof.
  unfold record, stored_sql. destruct (Nat.ltb_spec MAX_SQL (length sql)) as [H|H].
  - destruct (lookup_lt_is_Some_2 sql MAX_SQL H) as [b Hb]. rewrite (drop_S _ _ _ Hb).
    change 4096%nat with MAX_SQL. rewrite Hb. destruct (is_cont b) eqn:E.
    + split; [eauto|done].
    + split; [done|]. intros (b' & [= <-] & H'). congruence.
  - split; [done|]. intros (b & Hb & _). apply lookup_lt_Some in Hb. unfold MAX_SQL in H. lia.
Qed.

Example fingerprint_of_none : compute_tx_fingerprint [] = bs "cbf29ce484222325".
Proof. reflexivity. Qed.
