(* ===== verification/QueryStats.v ===== *)
(** * Query statistics (src/src/proxy/n1.rs, the SessionQueryTracker of
    src/src/proxy/server.rs, src/src/analytics/collector.rs and the counters of
    src/src/analytics/timeseries.rs, src/src/proxy/heatmap.rs, src/src/proxy/histogram.rs)

    What the sessions report about the statements they run.  Times are numbers of
    nanoseconds; the averages and deviations the dashboard computes in floating point are
    left out. *)

From S2P Require Import Prelude Bytes Fingerprint Tracer.

(** The first [n] characters of a text. *)
Fixpoint take_chars (n : nat) (s : bytes) : bytes :=
  match s with
  | [] => []
  | b :: s' => if is_cont b then b :: take_chars n s'
               else match n with O => [] | S n' => b :: take_chars n' s' end
  end.

(** ** Repeated statements *)

Record N1Pattern := { n1_fingerprint : bytes; n1_connections : Z; max_per_conn : Z; n1_last_seen : Z }.
Abbreviation N1Store := (gmap Z N1Pattern).

Section Tracker.
Variable default_hash : bytes -> Z.

Record SessionQueryTracker := {
  counts : gmap Z (Z * bytes);
  exact_counts : gmap Z (Z * bytes)
}.
Definition WARN_THRESHOLD : Z := 5.
Definition HOT_KEY_THRESHOLD : Z := 30.
Definition tracker_new : SessionQueryTracker := {| counts := ∅; exact_counts := ∅ |}.

(** An entry counted up, or made with the given text. *)
Definition bump_entry (key : Z) (text : bytes) (m : gmap Z (Z * bytes)) : Z * bytes :=
  let e := default (0, text) (m !! key) in (u32 (fst e + 1), snd e).

Definition record (sql : bytes) (t : SessionQueryTracker) : SessionQueryTracker :=
  let (fp, hash) := fingerprint_with_hash default_hash sql in
  {| counts := <[hash := bump_entry hash fp (counts t)]> (counts t); exact_counts := exact_counts t |}.

Definition track_exact (sql : bytes) (t : SessionQueryTracker)
  : option (bytes * bytes * Z) * SessionQueryTracker :=
  let hash := default_hash sql in
  let e := bump_entry hash (take_chars 300 sql) (exact_counts t) in
  (if fst e =? HOT_KEY_THRESHOLD then Some (fingerprint sql, snd e, fst e) else None,
   {| counts := counts t; exact_counts := <[hash := e]> (exact_counts t) |}).

(** ** The store of repeated patterns *)


Definition record_pattern (now : Z) (m : N1Store) (p : Z * bytes * Z) : N1Store :=
  let '(hash, fp, count) := p in
  let e := default {| n1_fingerprint := fp; n1_connections := 0; max_per_conn := 0; n1_last_seen := now |} (m !! hash) in
  <[hash := {| n1_fingerprint := n1_fingerprint e; n1_connections := u32 (n1_connections e + 1);
               max_per_conn := Z.max (max_per_conn e) count; n1_last_seen := now |}]> m.
Definition record_connection (now : Z) (patterns : list (Z * bytes * Z)) (m : N1Store) : N1Store :=
  foldl (record_pattern now) m patterns.

Context `{MO : !MapOrder Z (Z * bytes)}.
Definition repeated (t : SessionQueryTracker) : list (Z * bytes * Z) :=
  map (fun e => (fst e, snd (snd e), fst (snd e))) (List.filter (fun e => WARN_THRESHOLD <=? fst (snd e)) (iter (counts t))).
Definition summarise (now : Z) (t : SessionQueryTracker) (m : N1Store) : N1Store :=
  record_connection now (repeated t) m.
End Tracker.

(** * What the tracker finds *)

Section TrackerProps.
Variable default_hash : bytes -> Z.

(** A session that runs these statements. *)
Definition track_all (sqls : list bytes) (t : SessionQueryTracker) : SessionQueryTracker :=
  foldl (fun t sql => snd (track_exact default_hash sql (record default_hash sql t))) t sqls.

Fixpoint times (p : bytes -> bool) (l : list bytes) : Z :=
  match l with [] => 0 | x :: l' => (if p x then 1 else 0) + times p l' end.
Lemma times_app p l1 l2 : times p (l1 ++ l2) = times p l1 + times p l2.
Proof. induction l1 as [|x l1 IH]; cbn [times app]; lia. Qed.
Lemma times_range p l : 0 <= times p l <= Z.of_nat (length l).
Proof. induction l as [|x l IH]; cbn [times length]; [lia|]. destruct (p x); lia. Qed.

Definition hash_is (h : Z) (sql : bytes) : bool := default_hash sql =? h.
Definition pattern_is (h : Z) (sql : bytes) : bool := snd (fingerprint_with_hash default_hash sql) =? h.
Definition count_at (m : gmap Z (Z * bytes)) (h : Z) : Z := match m !! h with Some e => fst e | None => 0 end.

Lemma bump_count key text m : count_at m key + 1 < 2 ^ 32 -> 0 <= count_at m key -> fst (bump_entry key text m) = count_at m key + 1.
Proof.
  unfold bump_entry, count_at. destruct (m !! key) as [e|]; cbn [default from_option fst id]; intros H1 H2; unfold u32, id; rewrite wrap_small;
    unfold in_width; cbn [fst] in *; lia.
Qed.

Lemma track_all_counts sqls : Z.of_nat (length sqls) < 2 ^ 32 -> forall h,
  count_at (exact_counts (track_all sqls tracker_new)) h = times (hash_is h) sqls /\
  count_at (counts (track_all sqls tracker_new)) h = times (pattern_is h) sqls.
Proof.
  induction sqls as [|sql sqls IH] using rev_ind; intros Hl h; [done|]. rewrite length_app in Hl. cbn [length] in Hl.
  unfold track_all. rewrite foldl_app. cbn [foldl]. fold (track_all sqls tracker_new). rewrite !times_app. cbn [times].
  unfold track_exact, record. destruct (fingerprint_with_hash default_hash sql) as [fp hp] eqn:Ef. cbn [snd exact_counts counts].
  set (t := track_all sqls tracker_new) in *. assert (forall h, count_at (exact_counts t) h = times (hash_is h) sqls /\
    count_at (counts t) h = times (pattern_is h) sqls) as H by (intros; apply IH; lia).
  pose proof (times_range (hash_is (default_hash sql)) sqls) as Hr1. pose proof (times_range (pattern_is hp) sqls) as Hr2.
  unfold hash_is at 2. unfold pattern_is at 2. rewrite Ef. cbn [snd]. split.
  - unfold count_at. rewrite lookup_insert. case_decide as Hh.
    + subst h. rewrite bump_count by (rewrite (proj1 (H _)); lia). rewrite (proj1 (H _)), Z.eqb_refl. lia.
    + rewrite (proj2 (Z.eqb_neq _ _)) by done. rewrite <- (proj1 (H h)). unfold count_at. lia.
  - unfold count_at. rewrite lookup_insert. case_decide as Hh.
    + subst h. rewrite bump_count by (rewrite (proj2 (H _)); lia). rewrite (proj2 (H _)), Z.eqb_refl. lia.
    + rewrite (proj2 (Z.eqb_neq _ _)) by done. rewrite <- (proj2 (H h)). unfold count_at. lia.
Qed.

(** A statement is reported as a hot key when it runs for the thirtieth time in the session
    and at no other time. *)
Theorem hot_key_reported_once sqls sql : Z.of_nat (length sqls) + 1 < 2 ^ 32 ->
  is_Some (fst (track_exact default_hash sql (record default_hash sql (track_all sqls tracker_new)))) <->
  times (hash_is (default_hash sql)) sqls = 29.
Proof.
  intros Hl. destruct (track_all_counts sqls ltac:(lia) (default_hash sql)) as [H _].
  pose proof (times_range (hash_is (default_hash sql)) sqls) as Hr. unfold track_exact, record.
  destruct (fingerprint_with_hash default_hash sql) as [fp hp]. cbn [exact_counts fst].
  rewrite bump_count by (rewrite H; lia). rewrite H. unfold HOT_KEY_THRESHOLD.
  destruct (_ =? 30) eqn:E; [apply Z.eqb_eq in E | apply Z.eqb_neq in E]; split; intros Hx; [lia | eauto | by destruct Hx | lia].
Qed.

(** What the session hands to the store when it ends: the patterns it ran five times or
    more, with the number of times. *)
Theorem repeated_exactly `{MO : !MapOrder Z (Z * bytes)} sqls h n : Z.of_nat (length sqls) < 2 ^ 32 ->
  (exists fp, (h, fp, n) ∈ repeated (track_all sqls tracker_new)) <-> n = times (pattern_is h) sqls /\ WARN_THRESHOLD <= n.
Proof.
  intros Hl. destruct (track_all_counts sqls Hl h) as [_ H]. unfold repeated, count_at in *.
  setoid_rewrite list_elem_of_In. setoid_rewrite in_map_iff. setoid_rewrite filter_In. setoid_rewrite <- list_elem_of_In.
  setoid_rewrite Z.leb_le. split.
  - intros (fp & [k [c text]] & Heq & Hin & Hle). cbn [fst snd] in *. injection Heq as -> -> ->.
    apply iter_lookup in Hin. by rewrite Hin in H.
  - intros [-> Hle]. destruct (counts (track_all sqls tracker_new) !! h) as [[c text]|] eqn:E; [|unfold WARN_THRESHOLD in Hle; lia].
    exists text, (h, (c, text)). cbn [fst snd] in *. subst c. split_and!; [done | by apply iter_lookup | done].
Qed.
End TrackerProps.

Lemma hot_key_reported_once_witness :
  is_Some (fst (track_exact (fun _ => 7) (bs "SELECT 1") (record (fun _ => 7) (bs "SELECT 1") (track_all (fun _ => 7) (repeat (bs "SELECT 1") 29) tracker_new)))).
Proof. apply (hot_key_reported_once (fun _ => 7) (repeat (bs "SELECT 1") 29) (bs "SELECT 1")); by vm_compute. Defined.

Section RepeatedWitness.
#[local] Instance tracker_order : MapOrder Z (Z * bytes) := list_order.
Lemma repeated_exactly_witness : exists fp, (7, fp, 6) ∈ repeated (track_all (fun _ => 7) (repeat (bs "SELECT 1") 6) tracker_new).
Proof. apply (repeated_exactly (fun _ => 7) (repeat (bs "SELECT 1") 6) 7 6); [by vm_compute|]. split; by vm_compute. Defined.
End RepeatedWitness.

(** A store that hears of a pattern counts the connection and keeps the largest count. *)
Lemma record_pattern_counts now m hash fp count :
  record_pattern now m (hash, fp, count) !! hash =
  Some {| n1_fingerprint := match m !! hash with Some e => n1_fingerprint e | None => fp end;
          n1_connections := u32 (match m !! hash with Some e => n1_connections e | None => 0 end + 1);
          max_per_conn := Z.max (match m !! hash with Some e => max_per_conn e | None => 0 end) count; n1_last_seen := now |}.
Proof. unfold record_pattern. rewrite lookup_insert_eq. by destruct (m !! hash). Qed.
