(* ===== verification/Router.v ===== *)
(** * The query router (src/src/proxy/router.rs)

    Every operation of [Router], over the router's own state, the outside world and the
    connections a session keeps (its transaction, statement and sticky connections,
    which the source passes by reference).  A task the router spawns (the kill of a slow
    query, a mirrored query) runs to its end where it is spawned; it shares only
    counters and mirror pools with the rest. *)

From S2P Require Import Prelude Bytes Config Classifier QueryCache Rules Rewriter StmtShadow MysqlCodec MysqlResponse.
From S2P Require Import TextRows CircuitBreaker Pool.

(** How an operation of the router ends early: with the text of an error, or with a
    panic of the task it runs in. *)
Inductive failure := Failed (e : bytes) | Panicked.
Definition failed {A} (r : result bytes A) : result failure A :=
  match r with Ok a => Ok a | Err e => Err (Failed e) end.

Section Router.
Context {W C : Type} `{IO : !BackendIO W C} `{CT : CaseTable} `{RE : RegexEngine}
  `{MO : !MapOrder bytes CacheEntry} `{MO1 : !MapOrder bytes bytes}
  `{MO2 : !MapOrder Z Z} `{MO3 : !MapOrder Z My.MysqlStmtInfo}.

Record Router := {
  r_pool : BackendPool C;
  r_cache : QueryCache;
  r_rules : list Rules.CompiledRule;
  r_rewriter : list Rewriter.CompiledRule;
  r_mirror : gmap bytes (ConnectionPool C);
  r_template : BackendConfig;
  r_primary_config : BackendConfig;
  max_query_time_ms : Z;
  queries_killed : Z
}.

Definition Router_new (pool : BackendPool C) (rules : list Rules.CompiledRule)
    (rewriter : list Rewriter.CompiledRule) : Router :=
  {| r_pool := pool; r_cache := with_defaults; r_rules := rules; r_rewriter := rewriter; r_mirror := ∅;
     r_template := config (primary pool); r_primary_config := config (primary pool);
     max_query_time_ms := 0; queries_killed := 0 |}.

(** The router, the world and the connections of the session. *)
Record Env := {
  router : Router;
  world : W;
  tx_conn : option C;
  stmt_conn : option C;
  sticky_conn : option C;
  sticky_idx : Z;
  shadow : My.MysqlStmtShadow
}.

Definition set_router (r : Router) (e : Env) : Env :=
  {| router := r; world := world e; tx_conn := tx_conn e; stmt_conn := stmt_conn e;
     sticky_conn := sticky_conn e; sticky_idx := sticky_idx e; shadow := shadow e |}.
Definition set_world (w : W) (e : Env) : Env :=
  {| router := router e; world := w; tx_conn := tx_conn e; stmt_conn := stmt_conn e;
     sticky_conn := sticky_conn e; sticky_idx := sticky_idx e; shadow := shadow e |}.
Definition set_tx (c : option C) (e : Env) : Env :=
  {| router := router e; world := world e; tx_conn := c; stmt_conn := stmt_conn e;
     sticky_conn := sticky_conn e; sticky_idx := sticky_idx e; shadow := shadow e |}.
Definition set_stmt (c : option C) (e : Env) : Env :=
  {| router := router e; world := world e; tx_conn := tx_conn e; stmt_conn := c;
     sticky_conn := sticky_conn e; sticky_idx := sticky_idx e; shadow := shadow e |}.
Definition set_sticky (c : option C) (i : Z) (e : Env) : Env :=
  {| router := router e; world := world e; tx_conn := tx_conn e; stmt_conn := stmt_conn e;
     sticky_conn := c; sticky_idx := i; shadow := shadow e |}.
Definition set_shadow (s : My.MysqlStmtShadow) (e : Env) : Env :=
  {| router := router e; world := world e; tx_conn := tx_conn e; stmt_conn := stmt_conn e;
     sticky_conn := sticky_conn e; sticky_idx := sticky_idx e; shadow := s |}.

Definition with_state (pool : BackendPool C) (cache : QueryCache) (rules : list Rules.CompiledRule)
    (rw : list Rewriter.CompiledRule) (mirror : gmap bytes (ConnectionPool C)) (killed : Z) (r : Router) : Router :=
  {| r_pool := pool; r_cache := cache; r_rules := rules; r_rewriter := rw; r_mirror := mirror;
     r_template := r_template r; r_primary_config := r_primary_config r;
     max_query_time_ms := max_query_time_ms r; queries_killed := killed |}.
Definition set_pool (p : BackendPool C) (r : Router) : Router :=
  with_state p (r_cache r) (r_rules r) (r_rewriter r) (r_mirror r) (queries_killed r) r.
Definition set_cache (c : QueryCache) (r : Router) : Router :=
  with_state (r_pool r) c (r_rules r) (r_rewriter r) (r_mirror r) (queries_killed r) r.
Definition set_rules (rs : list Rules.CompiledRule) (r : Router) : Router :=
  with_state (r_pool r) (r_cache r) rs (r_rewriter r) (r_mirror r) (queries_killed r) r.
Definition set_rewriter (rs : list Rewriter.CompiledRule) (r : Router) : Router :=
  with_state (r_pool r) (r_cache r) (r_rules r) rs (r_mirror r) (queries_killed r) r.
Definition set_mirror (m : gmap bytes (ConnectionPool C)) (r : Router) : Router :=
  with_state (r_pool r) (r_cache r) (r_rules r) (r_rewriter r) m (queries_killed r) r.
Definition set_killed (n : Z) (r : Router) : Router :=
  with_state (r_pool r) (r_cache r) (r_rules r) (r_rewriter r) (r_mirror r) n r.

Definition set_max_query_time_ms (ms : Z) (r : Router) : Router :=
  {| r_pool := r_pool r; r_cache := r_cache r; r_rules := r_rules r; r_rewriter := r_rewriter r;
     r_mirror := r_mirror r; r_template := r_template r; r_primary_config := r_primary_config r;
     max_query_time_ms := ms; queries_killed := queries_killed r |}.
Definition reload_pool (new_pool : BackendPool C) (r : Router) : Router := set_pool new_pool r.

Local Abbreviation RT := (SE Env failure).

(** ** Access to the parts *)

Definition on_backends {A} (m : B (W := W) (C := C) A) : RT A := fun e =>
  let '(r, (p, w)) := m (r_pool (router e), world e) in
  (failed r, set_world w (set_router (set_pool p (router e)) e)).
Definition upd_router (f : Router -> Router) : RT unit := se_modify (fun e => set_router (f (router e)) e).
Definition upd_env (f : Env -> Env) : RT unit := se_modify f.
Definition upd_backends (f : BackendPool C -> BackendPool C) : RT unit :=
  upd_router (fun r => set_pool (f (r_pool r)) r).

(** A query on a connection, and the connection after it. *)
Definition ask (c : C) (sql : bytes) : RT (result bytes BackendResponse * C) := fun e =>
  let '(r, c', w) := execute_query c sql (world e) in (Ok (r, c'), set_world w e).
Definition ask_raw (c : C) (packet : bytes) : RT (result bytes BackendResponse * C) := fun e =>
  let '(r, c', w) := send_raw c packet (world e) in (Ok (r, c'), set_world w e).
Definition tell_raw (c : C) (packet : bytes) : RT (result bytes unit * C) := fun e =>
  let '(r, c', w) := send_raw_no_response c packet (world e) in (Ok (r, c'), set_world w e).
Definition lift {A} (r : result bytes A) : RT A := fun e => (failed r, e).

Definition put_primary_db (c : C) (db : option bytes) : RT unit := on_backends (put_primary_for_database c db).
(** The put of a connection obtained as a replica. *)
Definition put_back (c : C) (idx : Z) (db : option bytes) : RT unit :=
  if idx =? usize_max then put_primary_db c db else on_backends (put_replica_for_database c idx db).

Definition breaker_failed (idx : Z) (now : Z) (p : BackendPool C) : BackendPool C :=
  if idx <? Z.of_nat (length (replica_breakers p))
  then set_breakers (primary_breaker p) (alter (record_failure now) (Z.to_nat idx) (replica_breakers p)) p else p.
Definition breaker_succeeded (idx : Z) (p : BackendPool C) : BackendPool C :=
  if idx <? Z.of_nat (length (replica_breakers p))
  then set_breakers (primary_breaker p) (alter record_success (Z.to_nat idx) (replica_breakers p)) p else p.
Definition record_replica_failure (idx : Z) : RT unit :=
  e ← se_get; upd_backends (breaker_failed idx (now_ms_of (now_ns (world e)))).
Definition record_replica_success (idx : Z) : RT unit := upd_backends (breaker_succeeded idx).
Definition record_primary_failure : RT unit :=
  e ← se_get;
  upd_backends (fun p => set_breakers (record_failure (now_ms_of (now_ns (world e))) (primary_breaker p))
                           (replica_breakers p) p).
Definition record_primary_success : RT unit :=
  upd_backends (fun p => set_breakers (record_success (primary_breaker p)) (replica_breakers p) p).

Definition cache_get (key : bytes) : RT (option bytes) := fun e =>
  let (v, c) := QueryCache.get (now_ns (world e)) key (r_cache (router e)) in (Ok v, set_router (set_cache c (router e)) e).
Definition cache_put (key data : bytes) : RT unit :=
  e ← se_get; upd_router (fun r => set_cache (QueryCache.put (now_ns (world e)) key data (r_cache r)) r).
Definition cache_invalidate (tables : list bytes) : RT unit :=
  upd_router (fun r => set_cache (invalidate_tables tables (r_cache r)) r).

(** [is_connection_lost]: the error is known by its text. *)
Definition LOST_MARKERS : list string :=
  ["gone away"; "lost connection"; "broken pipe"; "connection reset"; "eof"; "2006"; "2013"]%string.
Definition is_connection_lost (e : bytes) : bool :=
  let msg := to_lowercase e in existsb (fun m => str_contains msg (bs m)) LOST_MARKERS.

(** Errors of the replayed statements are only logged. *)
Fixpoint replay_session_vars (c : C) (init_sqls : list bytes) : RT C :=
  match init_sqls with
  | [] => mret c
  | sql :: sqls => r ← ask c sql; replay_session_vars (snd r) sqls
  end.

(** ** Mirroring *)

Definition mirror_get_or_create (a : bytes) : RT (ConnectionPool C) :=
  e ← se_get;
  match r_mirror (router e) !! a with
  | Some p => mret p
  | None =>
      let t := r_template (router e) in
      let cfg := with_addr a t in
      let p := with_idle_timeout cfg 4 (Some (60 * 10 ^ 9)) in
      upd_router (fun r => set_mirror (<[a := p]> (r_mirror r)) r) ;;
      mret p
  end.

(** An operation of a mirror pool. *)
Definition on_mirror {A} (a : bytes) (m : P (W := W) (C := C) A) : RT (result bytes A) := fun e =>
  match r_mirror (router e) !! a with
  | Some p =>
      let '(r, (p', w)) := m (p, world e) in
      (Ok r, set_world w (set_router (set_mirror (<[a := p']> (r_mirror (router e))) (router e)) e))
  | None => (Ok (Err (bs "no such pool")), e)
  end.

Definition fire_mirror (a : bytes) (sql : bytes) : RT unit :=
  _ ← mirror_get_or_create a;
  r ← on_mirror a Pool.get;
  match r with
  | Ok c =>
      q ← ask c sql;
      match fst q with
      | Ok _ => _ ← on_mirror a (Pool.put (snd q)); mret tt
      | Err _ => mret tt
      end
  | Err _ => mret tt
  end.
Definition mirror_if (m : option RuleMatch) (sql : bytes) : RT unit :=
  match m with
  | Some m => match rm_mirror_to m with Some a => fire_mirror a sql | None => mret tt end
  | None => mret tt
  end.

(** ** Timeouts *)

Definition kill_message (ms : Z) : bytes :=
  bs "Query killed: exceeded max_query_time_ms (" ++ show_u64 ms ++ bs "ms)".

(** The spawned kill: a new connection to the configured primary. *)
Definition kill_query (thread_id : Z) : RT unit :=
  e ← se_get;
  let (r, w) := connect_backend (r_primary_config (router e)) (world e) in
  upd_env (set_world w) ;;
  match r with
  | Ok k =>
      q ← ask k (bs "KILL QUERY " ++ show_u64 thread_id);
      match fst q with
      | Ok _ => upd_router (fun r => set_killed (usize (queries_killed r + 1)) r)
      | Err _ => mret tt
      end
  | Err _ => mret tt
  end.

Definition execute_timed (c : C) (sql : bytes) (ms : Z) : RT (result bytes BackendResponse * C) :=
  e ← se_get;
  match interrupted c sql ms (world e) with
  | None => ask c sql
  | Some (c', w) =>
      upd_env (set_world w) ;;
      match backend_conn_id c' with Some id => kill_query id | None => mret tt end ;;
      mret (Err (kill_message ms), c')
  end.

Definition run_query (c : C) (sql : bytes) : RT (result bytes BackendResponse * C) :=
  e ← se_get;
  let ms := max_query_time_ms (router e) in
  if 0 <? ms then execute_timed c sql ms else ask c sql.

(** ** Routing a query *)

(** [Some bytes] as the answer the cache gives. *)
Definition cached_response (b : bytes) : BackendResponse :=
  {| br_bytes := b; affected_rows := None; is_error := false; session_changes := []; write_gtid := None |}.

Definition is_fast_forward_rule (sql user schema : bytes) : RT bool :=
  e ← se_get;
  let w := world e in
  let (o, rs) := match_query (info_log w) (draw w) (unix_ms w) sql user schema (r_rules (router e)) in
  upd_router (set_rules rs) ;;
  match o with
  | Panic => se_fail Panicked
  | Returns m => mret (match m with Some m => rm_fast_forward m | None => false end)
  end.

(** In a transaction: the sticky primary connection, and nothing else. *)
Definition route_in_transaction (sql : bytes) (init_sqls : list bytes) (database : option bytes)
  : RT BackendResponse :=
  e ← se_get;
  c ← match tx_conn e with
      | Some c => mret c
      | None =>
          c ← on_backends (get_primary_for_database database);
          upd_env (set_tx (Some c)) ;;
          c ← replay_session_vars c init_sqls;
          upd_env (set_tx (Some c)) ;;
          mret c
      end;
  r ← ask c sql;
  upd_env (set_tx (Some (snd r))) ;;
  lift (fst r).

(** Step 1: the statement after the rewriter. *)
Definition rewrite_step (sql_str : bytes) : RT (option bytes) :=
  e ← se_get;
  if Rewriter.is_empty (r_rewriter (router e)) then mret None
  else
    let (o, rs) := apply (unix_secs (world e)) sql_str (r_rewriter (router e)) in
    upd_router (set_rewriter rs) ;;
    match o with
    | Blocked msg => se_fail (Failed msg)
    | Rewritten s => mret (Some s)
    | Unchanged => mret None
    end.

Definition scoped_cache_key (database : option bytes) (sql : bytes) : bytes :=
  match database with Some db => bs "[db:" ++ db ++ bs "] " ++ sql | None => sql end.

Definition rule_step (sql user schema : bytes) : RT (option RuleMatch) :=
  e ← se_get;
  let w := world e in
  let (o, rs) := match_query (info_log w) (draw w) (unix_ms w) sql user schema (r_rules (router e)) in
  upd_router (set_rules rs) ;;
  match o with
  | Panic => se_fail Panicked
  | Returns None => mret None
  | Returns (Some m) =>
      if rate_limited m then se_fail (Failed (bs "Too many requests: query rate limit exceeded")) else mret (Some m)
  end.

(** What the rules and the rewriter made of the statement. *)
Record Plan := {
  pl_sql : bytes;        (* effective_sql *)
  pl_bytes : bytes;      (* sql_bytes_to_use *)
  pl_key : bytes;        (* scoped_cache_key *)
  pl_database : option bytes;
  pl_init : list bytes;
  pl_rule : option RuleMatch
}.

Definition hostgroup_path (hg : Z) (cache_ok : bool) (pl : Plan) : RT BackendResponse :=
  hit ← (if cache_ok && is_cacheable (pl_sql pl) then cache_get (pl_key pl) else mret None);
  match hit with
  | Some b => mret (cached_response b)
  | None =>
      ci ← on_backends (get_hostgroup_for_database hg (pl_database pl));
      r ← run_query (fst ci) (pl_bytes pl);
      response ← lift (fst r);
      put_back (snd r) (snd ci) (pl_database pl) ;;
      (if cache_ok && negb (is_error response) then cache_put (pl_key pl) (br_bytes response)
       else if negb (is_error response) && (hg =? 0) then cache_invalidate (extract_tables_simple (pl_sql pl))
       else mret tt) ;;
      mret response
  end.

(** A read that failed: once more on a fresh connection, if the old one was lost. *)
Definition retry_read (err : bytes) (idx : Z) (pl : Plan) : RT BackendResponse :=
  record_replica_failure idx ;;
  if is_connection_lost err then
    ci ← on_backends (get_replica_for_database (pl_database pl));
    c ← replay_session_vars (fst ci) (pl_init pl);
    r ← ask c (pl_bytes pl);
    response ← lift (fst r);
    record_replica_success (snd ci) ;;
    put_back (snd r) (snd ci) (pl_database pl) ;;
    mret response
  else se_fail (Failed err).

Definition read_path (cache_allowed : bool) (pl : Plan) : RT BackendResponse :=
  ci ← on_backends (get_replica_for_database (pl_database pl));
  c ← replay_session_vars (fst ci) (pl_init pl);
  r ← run_query c (pl_bytes pl);
  match fst r with
  | Err err => retry_read err (snd ci) pl
  | Ok response =>
      record_replica_success (snd ci) ;;
      put_back (snd r) (snd ci) (pl_database pl) ;;
      (if cache_allowed && negb (is_error response) then cache_put (pl_key pl) (br_bytes response) else mret tt) ;;
      mirror_if (pl_rule pl) (pl_sql pl) ;;
      mret response
  end.

(** The same for a write, on the primary. *)
Definition retry_write (err : bytes) (pl : Plan) : RT BackendResponse :=
  record_primary_failure ;;
  if is_connection_lost err then
    c ← on_backends (get_primary_for_database (pl_database pl));
    c ← replay_session_vars c (pl_init pl);
    r ← ask c (pl_bytes pl);
    response ← lift (fst r);
    record_primary_success ;;
    put_primary_db (snd r) (pl_database pl) ;;
    mret response
  else se_fail (Failed err).

(** The first try of a write: its result, and the connection. *)
Definition attempt_write (pl : Plan) : RT (result bytes BackendResponse * C) :=
  c ← on_backends (get_primary_for_database (pl_database pl));
  c ← replay_session_vars c (pl_init pl);
  run_query c (pl_bytes pl).

Definition write_path (pl : Plan) : RT BackendResponse :=
  r ← attempt_write pl;
  match fst r with
  | Err err => retry_write err pl
  | Ok response =>
      record_primary_success ;;
      put_primary_db (snd r) (pl_database pl) ;;
      (if negb (is_error response) then cache_invalidate (extract_tables_simple (pl_sql pl)) else mret tt) ;;
      mirror_if (pl_rule pl) (pl_sql pl) ;;
      mret response
  end.

(** Replica or primary, and whether the cache may be used. *)
Definition choose_path (m : option RuleMatch) (use_replica : bool) : bool * bool :=
  match m with
  | Some m =>
      match rm_destination m with
      | Rules.Primary => (false, false)
      | Rules.Replica => (true, 0 <? rm_cache_ttl_secs m)
      | Any | Hostgroup _ => (use_replica, true)
      end
  | None => (use_replica, true)
  end.

Definition dispatch (use_replica : bool) (pl : Plan) : RT BackendResponse :=
  let to_pool :=
    let (effective_replica, cache_allowed) := choose_path (pl_rule pl) use_replica in
    if effective_replica then
      hit ← (if cache_allowed && is_cacheable (pl_sql pl) then cache_get (pl_key pl) else mret None);
      match hit with
      | Some b => mret (cached_response b)
      | None => read_path cache_allowed pl
      end
    else write_path pl in
  match pl_rule pl with
  | Some m =>
      match rm_destination m with
      | Hostgroup hg => hostgroup_path hg (0 <? rm_cache_ttl_secs m) pl
      | _ => to_pool
      end
  | None => to_pool
  end.

Definition route_query_inner (sql : bytes) (in_tx use_replica : bool) (user schema : bytes)
    (init_sqls : list bytes) (database : option bytes) : RT BackendResponse :=
  if in_tx then route_in_transaction sql init_sqls database
  else
    let sql_str := from_utf8_or_empty sql in
    rewritten ← rewrite_step sql_str;
    let effective := default sql_str rewritten in
    let to_use := match rewritten with Some s => s | None => sql end in
    m ← rule_step effective user schema;
    dispatch use_replica
      {| pl_sql := effective; pl_bytes := to_use; pl_key := scoped_cache_key database effective;
         pl_database := database; pl_init := init_sqls; pl_rule := m |}.

Definition route_query (sql : bytes) (in_tx use_replica : bool) (user schema : bytes) : RT BackendResponse :=
  route_query_inner sql in_tx use_replica user schema [] None.
Definition route_query_with_database (sql : bytes) (in_tx use_replica : bool) (user schema database : bytes)
  : RT BackendResponse := route_query_inner sql in_tx use_replica user schema [] (Some database).
Definition route_query_with_session_vars (sql : bytes) (in_tx use_replica : bool) (user schema : bytes)
    (init_sqls : list bytes) : RT BackendResponse :=
  route_query_inner sql in_tx use_replica user schema init_sqls None.
Definition route_query_with_session_vars_and_database (sql : bytes) (in_tx use_replica : bool)
    (user schema : bytes) (init_sqls : list bytes) (database : bytes) : RT BackendResponse :=
  route_query_inner sql in_tx use_replica user schema init_sqls (Some database).

(** ** Connections of the session *)

Definition router_put_primary (c : C) : RT unit := put_primary_db c None.
Definition router_put_primary_for_database (c : C) (database : bytes) : RT unit := put_primary_db c (Some database).
Definition router_put_replica (c : C) (idx : Z) : RT unit := put_back c idx None.

Definition route_sticky_query (sql : bytes) : RT BackendResponse :=
  e ← se_get;
  c ← match sticky_conn e with
      | Some c => mret c
      | None =>
          ci ← on_backends (get_replica_for_database None);
          upd_env (set_sticky (Some (fst ci)) (snd ci)) ;;
          mret (fst ci)
      end;
  r ← ask c sql;
  upd_env (fun e => set_sticky (Some (snd r)) (sticky_idx e) e) ;;
  lift (fst r).

(** The transaction's connection, taken from the primary when there is none yet. *)
Definition need_tx (database : option bytes) : RT C :=
  e ← se_get;
  match tx_conn e with
  | Some c => mret c
  | None =>
      c ← on_backends (get_primary_for_database database);
      upd_env (set_tx (Some c)) ;;
      mret c
  end.
Definition need_stmt (database : option bytes) : RT C :=
  e ← se_get;
  match stmt_conn e with
  | Some c => mret c
  | None =>
      c ← on_backends (get_primary_for_database database);
      upd_env (set_stmt (Some c)) ;;
      mret c
  end.
Definition raw_on_tx (c : C) (packet : bytes) : RT (result bytes BackendResponse) :=
  r ← ask_raw c packet; upd_env (set_tx (Some (snd r))) ;; mret (fst r).
Definition raw_on_stmt (c : C) (packet : bytes) : RT (result bytes BackendResponse) :=
  r ← ask_raw c packet; upd_env (set_stmt (Some (snd r))) ;; mret (fst r).

Definition route_raw_inner (packet : bytes) (in_tx : bool) (database : option bytes) : RT BackendResponse :=
  if in_tx then
    c ← need_tx database; r ← raw_on_tx c packet; lift r
  else
    c ← on_backends (get_primary_for_database database);
    r ← ask_raw c packet;
    response ← lift (fst r);
    put_primary_db (snd r) database ;;
    mret response.
Definition route_raw (packet : bytes) (in_tx : bool) : RT BackendResponse := route_raw_inner packet in_tx None.
Definition route_raw_with_database (packet : bytes) (in_tx : bool) (database : bytes) : RT BackendResponse :=
  route_raw_inner packet in_tx (Some database).

Definition route_fast (sql : bytes) (in_tx : bool) : RT BackendResponse :=
  if in_tx then
    c ← need_tx None;
    r ← ask c sql;
    upd_env (set_tx (Some (snd r))) ;;
    lift (fst r)
  else
    c ← on_backends get_primary;
    r ← ask c sql;
    response ← lift (fst r);
    put_primary_db (snd r) None ;;
    mret response.

(** Prepared statements without the shadow. *)
Definition route_stmt (packet : bytes) (in_tx : bool) : RT BackendResponse :=
  if in_tx then
    c ← need_tx None; r ← raw_on_tx c packet; lift r
  else
    c ← need_stmt None;
    r ← raw_on_stmt c packet;
    match r with
    | Ok x => mret x
    | Err err =>
        if is_connection_lost err then
          if bool_decide (head packet = Some 22) then
            c ← on_backends get_primary;
            upd_env (set_stmt (Some c)) ;;
            r ← raw_on_stmt c packet; lift r
          else upd_env (set_stmt None) ;; se_fail (Failed err)
        else se_fail (Failed err)
    end.

(** ** The GTID check *)

(** [s.replace('\'', "''")]. *)
Definition double_quotes (s : bytes) : bytes := concat (map (fun b => if b =? 39 then [39; 39] else [b]) s).
Definition gtid_query (gtid : bytes) : bytes :=
  bs "SELECT GTID_SUBSET('" ++ double_quotes gtid ++ bs "', @@global.gtid_executed)".

Definition gtid_answer (response : BackendResponse) : bool :=
  if is_error response then false else mem 49 (br_bytes response).

Definition check_replica_has_gtid (gtid : bytes) : RT bool :=
  e ← se_get;
  match replicas (r_pool (router e)) with
  | [] => mret false
  | _ =>
      r ← se_try (
        ci ← on_backends (get_replica_for_database None);
        q ← ask (fst ci) (gtid_query gtid);
        response ← lift (fst q);
        on_backends (put_replica_for_database (snd q) (snd ci) None) ;;
        mret (gtid_answer response));
      mret (match r with Ok b => b | Err _ => false end)
  end.

(** ** Statement shadowing *)

(** Errors of the re-prepare messages are only logged. *)
Fixpoint send_best_effort (c : C) (packets : list bytes) : RT C :=
  match packets with
  | [] => mret c
  | x :: packets' => r ← ask_raw c x; send_best_effort (snd r) packets'
  end.

(** The names a pipeline prepares itself. *)
Definition newly_prepared (scan : Pg.PgPipelineScan) : gset bytes :=
  list_to_set (filter (fun n => n <> []) (map Pg.name (Pg.parses scan))).

Definition route_stmt_pg_shadow_inner (raw : bytes) (scan : Pg.PgPipelineScan) (pg_shadow : Pg.PgStmtShadow)
    (in_tx : bool) (database : option bytes) : RT BackendResponse :=
  if in_tx then
    c ← need_tx database; r ← raw_on_tx c raw; lift r
  else
    c ← need_stmt database;
    r ← raw_on_stmt c raw;
    match r with
    | Ok x => mret x
    | Err err =>
        if is_connection_lost err then
          fresh ← on_backends (get_primary_for_database database);
          fresh ← send_best_effort fresh (Pg.build_reprepare_for (newly_prepared scan) pg_shadow);
          r ← raw_on_stmt fresh raw;
          lift r
        else se_fail (Failed err)
    end.
Definition route_stmt_pg_shadow raw scan pg_shadow in_tx : RT BackendResponse :=
  route_stmt_pg_shadow_inner raw scan pg_shadow in_tx None.
Definition route_stmt_pg_shadow_with_database raw scan pg_shadow in_tx database : RT BackendResponse :=
  route_stmt_pg_shadow_inner raw scan pg_shadow in_tx (Some database).

(** [active_conn!]: the transaction's connection, or the statements' one. *)
Definition on_active (in_tx : bool) (packet : bytes) : RT (result bytes BackendResponse) :=
  e ← se_get;
  if in_tx then
    match tx_conn e with Some c => raw_on_tx c packet | None => se_fail Panicked end
  else
    match stmt_conn e with Some c => raw_on_stmt c packet | None => se_fail Panicked end.
Definition tell_active (in_tx : bool) (packet : bytes) : RT (result bytes unit) :=
  e ← se_get;
  if in_tx then
    match tx_conn e with
    | Some c => r ← tell_raw c packet; upd_env (set_tx (Some (snd r))) ;; mret (fst r)
    | None => se_fail Panicked
    end
  else
    match stmt_conn e with
    | Some c => r ← tell_raw c packet; upd_env (set_stmt (Some (snd r))) ;; mret (fst r)
    | None => se_fail Panicked
    end.

Definition with_bytes (b : bytes) (r : BackendResponse) : BackendResponse :=
  {| br_bytes := b; affected_rows := affected_rows r; is_error := is_error r;
     session_changes := session_changes r; write_gtid := write_gtid r |}.

(** The statement of a prepare response is registered, and the client sees its
    proxy-level id. *)
Definition register_prepared (raw : bytes) (response : BackendResponse) : RT BackendResponse :=
  match My.mysql_parse_prepare_ok (br_bytes response) with
  | Some (backend_id, num_columns, num_params) =>
      e ← se_get;
      let (proxy_id, sh) := My.register (drop 1 raw) num_params num_columns backend_id (shadow e) in
      upd_env (set_shadow sh) ;;
      mret (with_bytes (My.mysql_rewrite_prepare_ok (br_bytes response) proxy_id) response)
  | None => mret response
  end.

Definition shadow_prepare (raw : bytes) (in_tx : bool) : RT BackendResponse :=
  r ← on_active in_tx raw;
  match r with
  | Ok response => register_prepared raw response
  | Err err =>
      if is_connection_lost err && negb in_tx then
        c ← on_backends get_primary;
        upd_env (set_stmt (Some c)) ;;
        r ← raw_on_stmt c raw;
        response ← lift r;
        register_prepared raw response
      else se_fail (Failed err)
  end.

(** Prepare every open statement again; the new backend ids by proxy id. *)
Fixpoint reprepare_all (c : C) (jobs : list (Z * bytes)) (ids : gmap Z Z) : RT (C * gmap Z Z) :=
  match jobs with
  | [] => mret (c, ids)
  | (pid, prep) :: jobs' =>
      r ← ask_raw c prep;
      let ids := match fst r with
                 | Ok resp => match My.mysql_parse_prepare_ok (br_bytes resp) with
                              | Some (bid, _, _) => <[pid := bid]> ids
                              | None => ids
                              end
                 | Err _ => ids
                 end in
      reprepare_all (snd r) jobs' ids
  end.

(** An EXECUTE whose connection was lost. *)
Definition reprepare_and_retry (raw : bytes) (proxy_id backend_id : Z) : RT BackendResponse :=
  fresh ← on_backends get_primary;
  e ← se_get;
  ci ← reprepare_all fresh (My.reprepare_jobs (shadow e)) ∅;
  upd_env (fun e => set_shadow (My.update_backend_ids (snd ci) (shadow e)) e) ;;
  upd_env (set_stmt (Some (fst ci))) ;;
  e ← se_get;
  let new_backend_id := default backend_id (My.backend_id proxy_id (shadow e)) in
  r ← raw_on_stmt (fst ci) (My.mysql_rewrite_stmt_id raw new_backend_id);
  lift r.

(** CLOSE and SEND_LONG_DATA have no response. *)
Definition shadow_no_response (cmd proxy_id : Z) (packet : bytes) (in_tx : bool) : RT BackendResponse :=
  r ← tell_active in_tx packet;
  _ ← lift r;
  (if cmd =? 25 then upd_env (fun e => set_shadow (My.remove proxy_id (shadow e)) e) else mret tt) ;;
  mret (cached_response []).

Definition shadow_command (cmd : Z) (raw : bytes) (in_tx : bool) : RT BackendResponse :=
  match My.mysql_read_stmt_id raw with
  | None => r ← on_active in_tx raw; lift r
  | Some proxy_id =>
      e ← se_get;
      let backend_id := default proxy_id (My.backend_id proxy_id (shadow e)) in
      let rewritten := My.mysql_rewrite_stmt_id raw backend_id in
      if (cmd =? 25) || (cmd =? 24) then shadow_no_response cmd proxy_id rewritten in_tx
      else
        r ← on_active in_tx rewritten;
        match r with
        | Ok x => mret x
        | Err err =>
            if (cmd =? 23) && is_connection_lost err && negb in_tx
            then reprepare_and_retry raw proxy_id backend_id
            else se_fail (Failed err)
        end
  end.

Definition route_stmt_mysql_shadow (raw : bytes) (in_tx : bool) : RT BackendResponse :=
  match raw with
  | [] => se_fail (Failed (bs "[mysql shadow] empty stmt packet"))
  | cmd :: _ =>
      _ ← (if in_tx then need_tx None else need_stmt None);
      if cmd =? 22 then shadow_prepare raw in_tx
      else if My.mysql_has_stmt_id cmd then shadow_command cmd raw in_tx
      else r ← on_active in_tx raw; lift r
  end.
End Router.

(** ** What the operations leave alone *)

Section Frame.
Context {W C : Type} `{IO : !BackendIO W C} `{CT : CaseTable} `{RE : RegexEngine}
  `{MO : !MapOrder bytes CacheEntry} `{MO1 : !MapOrder bytes bytes}
  `{MO2 : !MapOrder Z Z} `{MO3 : !MapOrder Z My.MysqlStmtInfo}.

Definition the_pool (e : Env (W := W) (C := C)) : BackendPool C := r_pool (router e).
Definition the_cache (e : Env (W := W) (C := C)) : QueryCache := r_cache (router e).

Lemma keeps_cache_backends {A} (m : B (W := W) (C := C) A) : keeps the_cache (on_backends m).
Proof. intros e. unfold on_backends. by destruct (m _) as [r [p w]]. Qed.
Lemma keeps_cache_ask c sql : keeps the_cache (ask c sql).
Proof. intros e. unfold ask. by destruct (execute_query _ _ _) as [[r c'] w]. Qed.
Lemma keeps_cache_mirror {A} a (m : P (W := W) (C := C) A) : keeps the_cache (on_mirror a m).
Proof. intros e. unfold on_mirror. destruct (_ !! a); [|done]. by destruct (m _) as [r [p w]]. Qed.
Lemma keeps_cache_lift {A} (r : result bytes A) : keeps the_cache (lift r).
Proof. by destruct r. Qed.
Lemma keeps_cache_upd f : (forall r, r_cache (f r) = r_cache r) -> keeps the_cache (upd_router f).
Proof. intros H e. apply H. Qed.
Lemma keeps_cache_env_world w : keeps the_cache (upd_env (set_world w)).
Proof. done. Qed.
Hint Resolve keeps_cache_backends keeps_cache_ask keeps_cache_mirror keeps_cache_lift
  keeps_cache_env_world : keeps.

Lemma keeps_cache_replay c sqls : keeps the_cache (replay_session_vars c sqls).
Proof. revert c. induction sqls as [|sql sqls IH]; intros c; cbn [replay_session_vars]; keeps_tac. Qed.
Lemma keeps_cache_kill id : keeps the_cache (kill_query id).
Proof. unfold kill_query. keeps_tac. by apply keeps_cache_upd. Qed.
Hint Resolve keeps_cache_replay keeps_cache_kill : keeps.
Lemma keeps_cache_run c sql : keeps the_cache (run_query c sql).
Proof. unfold run_query, execute_timed. keeps_tac. Qed.
Lemma keeps_cache_mirror_if m sql : keeps the_cache (mirror_if m sql).
Proof.
  unfold mirror_if, fire_mirror, mirror_get_or_create. keeps_tac. by apply keeps_cache_upd.
Qed.
Lemma keeps_cache_backends_upd f : keeps the_cache (upd_backends f).
Proof. by apply keeps_cache_upd. Qed.

Lemma keeps_pool_ask c sql : keeps the_pool (ask c sql).
Proof. intros e. unfold ask. by destruct (execute_query _ _ _) as [[r c'] w]. Qed.
Lemma keeps_pool_mirror {A} a (m : P (W := W) (C := C) A) : keeps the_pool (on_mirror a m).
Proof. intros e. unfold on_mirror. destruct (_ !! a); [|done]. by destruct (m _) as [r [p w]]. Qed.
Lemma keeps_pool_lift {A} (r : result bytes A) : keeps the_pool (lift r).
Proof. by destruct r. Qed.
Lemma keeps_pool_upd f : (forall r, r_pool (f r) = r_pool r) -> keeps the_pool (upd_router f).
Proof. intros H e. apply H. Qed.
Lemma keeps_pool_env_world w : keeps the_pool (upd_env (set_world w)).
Proof. done. Qed.
Hint Resolve keeps_pool_ask keeps_pool_mirror keeps_pool_lift keeps_pool_env_world : keeps.
Lemma keeps_pool_replay c sqls : keeps the_pool (replay_session_vars c sqls).
Proof. revert c. induction sqls as [|sql sqls IH]; intros c; cbn [replay_session_vars]; keeps_tac. Qed.
Lemma keeps_pool_kill id : keeps the_pool (kill_query id).
Proof. unfold kill_query. keeps_tac. by apply keeps_pool_upd. Qed.
Hint Resolve keeps_pool_replay keeps_pool_kill : keeps.
Lemma keeps_pool_run c sql : keeps the_pool (run_query c sql).
Proof. unfold run_query, execute_timed. keeps_tac. Qed.
Lemma keeps_pool_mirror_if m sql : keeps the_pool (mirror_if m sql).
Proof. unfold mirror_if, fire_mirror, mirror_get_or_create. keeps_tac. by apply keeps_pool_upd. Qed.
Lemma keeps_pool_invalidate tables : keeps the_pool (cache_invalidate tables).
Proof. by apply keeps_pool_upd. Qed.

Lemma mirror_if_ok m sql e : exists e', mirror_if m sql e = (Ok tt, e').
Proof.
  assert (forall A a (m : P (W := W) (C := C) A) e, exists r e', on_mirror a m e = (Ok r, e')) as Hm.
  { intros A a k s. unfold on_mirror. destruct (_ !! a) as [p|]; [|by eexists _, _].
    destruct (k _) as [r [p' w]]. by eexists _, _. }
  assert (forall c sql e, exists r e', ask c sql e = (Ok r, e')) as Ha.
  { intros c q s. unfold ask. destruct (execute_query _ _ _) as [[r c'] w]. by eexists _, _. }
  unfold mirror_if. destruct m as [m|]; [|by eexists]. destruct (rm_mirror_to m) as [a|]; [|by eexists].
  unfold fire_mirror. assert (exists p e', mirror_get_or_create a e = (Ok p, e')) as (p & e1 & H1).
  { unfold mirror_get_or_create. rewrite (se_bind_ok _ _ e e e) by done.
    destruct (r_mirror (router e) !! a) as [p|]; [by eexists _, _|]. eexists _, _. reflexivity. }
  rewrite (se_bind_ok _ _ _ _ _ H1). destruct (Hm _ a Pool.get e1) as (r & e2 & H2).
  rewrite (se_bind_ok _ _ _ _ _ H2). destruct r as [c|]; [|by eexists].
  destruct (Ha c sql e2) as (q & e3 & H3). rewrite (se_bind_ok _ _ _ _ _ H3).
  destruct (fst q); [|by eexists]. destruct (Hm _ a (Pool.put (snd q)) e3) as (r2 & e4 & H4).
  rewrite (se_bind_ok _ _ _ _ _ H4). by eexists.
Qed.
End Frame.
#[export] Hint Resolve keeps_cache_backends keeps_cache_ask keeps_cache_mirror keeps_cache_lift
  keeps_cache_env_world keeps_cache_replay keeps_cache_kill keeps_cache_run keeps_cache_mirror_if
  keeps_cache_backends_upd keeps_pool_ask keeps_pool_mirror keeps_pool_lift keeps_pool_env_world
  keeps_pool_replay keeps_pool_kill keeps_pool_run keeps_pool_mirror_if keeps_pool_invalidate : keeps.

(** ** Routing *)

Section Routing.
Context {W C : Type} `{IO : !BackendIO W C} `{CT : CaseTable} `{RE : RegexEngine}
  `{MO : !MapOrder bytes CacheEntry} `{MO1 : !MapOrder bytes bytes}
  `{MO2 : !MapOrder Z Z} `{MO3 : !MapOrder Z My.MysqlStmtInfo}.
Implicit Types (e : Env (W := W) (C := C)).

Lemma rewrite_step_empty sql e : r_rewriter (router e) = [] -> rewrite_step sql e = (Ok None, e).
Proof. intros H. unfold rewrite_step. rewrite (se_bind_ok _ _ e e e) by done. by rewrite H. Qed.

Lemma rule_step_empty sql user schema e : r_rules (router e) = [] -> rule_step sql user schema e = (Ok None, e).
Proof.
  intros H. unfold rule_step. rewrite (se_bind_ok _ _ e e e) by done. rewrite H.
  unfold match_query. cbn [match_loop]. rewrite (se_bind_ok _ _ e tt e); [done|].
  unfold upd_router, se_modify. destruct e as [[] ? ? ? ? ? ?]. cbn in *. by subst.
Qed.

Lemma in_transaction_runs e c sql use_replica user schema init db :
  tx_conn e = Some c ->
  let '(r, c', w) := execute_query c sql (world e) in
  route_query_inner sql true use_replica user schema init db e = (failed r, set_tx (Some c') (set_world w e)).
Proof.
  intros Htx. destruct (execute_query c sql (world e)) as [[r c'] w] eqn:Eq.
  cbn [route_query_inner]. unfold route_query_inner, route_in_transaction.
  rewrite (se_bind_ok _ _ e e e) by done. rewrite Htx. rewrite (se_bind_ok _ _ e c e) by done.
  rewrite (se_bind_ok _ _ e (r, c') (set_world w e)) by (unfold ask; by rewrite Eq).
  by rewrite (se_bind_ok _ _ _ tt (set_tx (Some c') (set_world w e))) by done.
Qed.

(** Inside a transaction a statement goes straight to the transaction's
    connection: no rewriting rule blocks or changes it, no query rule routes or limits
    it, and the cache is neither read nor invalidated. *)
Theorem transaction_goes_straight e c sql use_replica user schema init db :
  tx_conn e = Some c ->
  let '(r, c', w) := execute_query c sql (world e) in
  route_query_inner sql true use_replica user schema init db e = (failed r, set_tx (Some c') (set_world w e)).
Proof. apply in_transaction_runs. Qed.

(** So what a transaction writes does not invalidate the cache: an entry that was
    there before is still the answer afterwards, until it expires, to a read that the
    session routes to the replicas. *)
Theorem cached_read_survives_transaction e c write user schema init db sql entry :
  tx_conn e = Some c -> r_rules (router e) = [] -> r_rewriter (router e) = [] -> utf8_valid sql = true ->
  is_cacheable sql = true -> entries (inner (r_cache (router e))) !! sql = Some entry ->
  let e1 := snd (route_query_inner write true false user schema init db e) in
  now_ns (world e1) < expires_at entry ->
  exists e2, route_query sql false true user schema e1 = (Ok (cached_response (ce_bytes entry)), e2) /\
    world e2 = world e1.
Proof.
  intros Htx Hr Hrw Hu Hc He e1 Hnow.
  pose proof (in_transaction_runs e c write false user schema init db Htx) as Ht. fold e1 in Ht.
  destruct (execute_query c write (world e)) as [[r c'] w].
  assert (e1 = set_tx (Some c') (set_world w e)) as E1 by (unfold e1; by rewrite Ht). clearbody e1. subst e1.
  unfold route_query, route_query_inner, from_utf8_or_empty. rewrite Hu.
  rewrite (se_bind_ok _ _ _ None _ (rewrite_step_empty sql (set_tx (Some c') (set_world w e)) Hrw)).
  rewrite (se_bind_ok _ _ _ None _ (rule_step_empty sql user schema (set_tx (Some c') (set_world w e)) Hr)).
  unfold dispatch. cbn [pl_rule choose_path pl_sql pl_key scoped_cache_key default]. rewrite Hc. cbn [andb].
  unfold mbind, se_bind, cache_get, QueryCache.get.
  cbn [router set_tx set_world]. rewrite He. rewrite (proj2 (Z.ltb_lt _ _)) by exact Hnow.
  eexists. split; [reflexivity | done].
Qed.

Lemma rewrite_step_inv sql e rewritten e1 : rewrite_step sql e = (Ok rewritten, e1) ->
  exists rs, e1 = set_router (set_rewriter rs (router e)) e.
Proof.
  unfold rewrite_step. rewrite (se_bind_ok _ _ e e e) by done. destruct (Rewriter.is_empty _).
  - intros [= <- <-]. exists (r_rewriter (router e)). by destruct e as [[] ? ? ? ? ?].
  - destruct (apply _ _ _) as [o rs]. rewrite (se_bind_ok _ _ e tt (set_router (set_rewriter rs (router e)) e)) by done.
    destruct o; intros [=]; by exists rs.
Qed.

(** C24: Outside a transaction, a statement that the rewriter blocks, or that a query rule
    limits, whatever the rewriter has made of it, reaches no backend and no cache: the
    client gets the error, and only the counters of the rules and of the rewrite rules
    change. *)
Theorem refused_reaches_nothing e sql use_replica user schema init db :
  let sql_str := from_utf8_or_empty sql in
  (forall msg rs, r_rewriter (router e) <> [] ->
     apply (unix_secs (world e)) sql_str (r_rewriter (router e)) = (Blocked msg, rs) ->
     route_query_inner sql false use_replica user schema init db e
     = (Err (Failed msg), set_router (set_rewriter rs (router e)) e)) /\
  (forall rewritten e1 m rs, rewrite_step sql_str e = (Ok rewritten, e1) ->
     match_query (info_log (world e)) (draw (world e)) (unix_ms (world e)) (default sql_str rewritten) user schema (r_rules (router e))
       = (Returns (Some m), rs) -> rate_limited m = true ->
     exists rs', route_query_inner sql false use_replica user schema init db e
     = (Err (Failed (bs "Too many requests: query rate limit exceeded")),
        set_router (set_rules rs (set_rewriter rs' (router e))) e)).
Proof.
  intros sql_str. split.
  - intros msg rs Hne Ha. unfold route_query_inner. fold sql_str. apply se_bind_err.
    unfold rewrite_step. rewrite (se_bind_ok _ _ e e e) by done.
    destruct (Rewriter.is_empty (r_rewriter (router e))) eqn:E; [by destruct (r_rewriter (router e))|].
    rewrite Ha. by rewrite (se_bind_ok _ _ e tt (set_router (set_rewriter rs (router e)) e)) by done.
  - intros rewritten e1 m rs Hrw Hm Hl. unfold route_query_inner. fold sql_str.
    rewrite (se_bind_ok _ _ _ _ _ Hrw). apply rewrite_step_inv in Hrw as [rs' ->]. exists rs'. apply se_bind_err.
    unfold rule_step. rewrite (se_bind_ok _ _ (set_router (set_rewriter rs' (router e)) e) (set_router (set_rewriter rs' (router e)) e)
      (set_router (set_rewriter rs' (router e)) e)) by done. unfold id in *.
    match goal with |- context [match_query ?a ?b ?c ?d ?f ?g ?h] =>
      replace (match_query a b c d f g h) with (Returns (Some m), rs) by exact (eq_sym Hm) end.
    rewrite (se_bind_ok _ _ _ tt (set_router (set_rules rs (set_rewriter rs' (router e))) e)) by done. by rewrite Hl.
Qed.

(** *** Writes *)

Lemma invalidated_entries tables (c : QueryCache) k ent :
  tables <> [] -> entries (inner (invalidate_tables tables c)) !! k = Some ent -> touches tables ent = false.
Proof.
  unfold invalidate_tables. destruct tables as [|t ts]; [done|]. intros _ H. cbn [inner with_inner entries] in H.
  by apply map_lookup_filter_Some in H as [_ H].
Qed.

Lemma keeps_cache_attempt pl : keeps the_cache (attempt_write pl).
Proof. unfold attempt_write. keeps_tac. Qed.

Lemma keeps_cache_retry err pl : keeps the_cache (retry_write err pl).
Proof.
  unfold retry_write, record_primary_failure, record_primary_success, put_primary_db. keeps_tac;
    apply keeps_cache_backends_upd.
Qed.

Lemma keeps_cache_in_transaction sql init db : keeps the_cache (route_in_transaction sql init db).
Proof. unfold route_in_transaction. keeps_tac; by intros s. Qed.


Lemma breakers_borrowed y cb rb (p : BackendPool C) : borrowed_of y (set_breakers cb rb p) = borrowed_of y p.
Proof. by destruct y. Qed.

Lemma attempt_write_borrowed pl e r e1 y b :
  attempt_write pl e = (Ok r, e1) -> borrowed_of y (the_pool e) = Some b ->
  borrowed_of y (the_pool e1) = Some (if decide (y = serving_primary (the_pool e)) then usize (b + 1) else b) /\
  serving_primary (the_pool e1) = serving_primary (the_pool e) /\
  returning_primary (the_pool e1) = returning_primary (the_pool e).
Proof.
  intros Ha Hb. unfold attempt_write in Ha.
  apply se_bind_inv in Ha as [(c & e2 & Hg & Ha)|(? & _ & ?)]; [|done].
  assert (the_pool e1 = the_pool e2) as ->.
  { apply se_bind_inv in Ha as [(c' & e3 & Hr & Ha)|(? & _ & ?)]; [|done].
    pose proof (keeps_pool_replay c (pl_init pl) e2) as H1. rewrite Hr in H1. cbn [snd] in H1.
    pose proof (keeps_pool_run c' (pl_bytes pl) e3) as H2. rewrite Ha in H2. cbn [snd] in H2. congruence. }
  unfold on_backends in Hg.
  destruct (get_primary_for_database (pl_database pl) (r_pool (router e), world e)) as [r0 [p w]] eqn:Eg.
  destruct r0 as [c0|]; [|done]. injection Hg as -> <-. by apply (get_primary_borrowed _ _ _ _ _ _ Eg Hb).
Qed.

(** What a write does to the borrowed counters: a write that is answered gives its
    connection back; one that fails (and is not retried) does not, and every such
    failure leaves the counter of the serving primary one higher for good. *)
Theorem failed_write_leaks_connection pl e r e1 y b :
  attempt_write pl e = (Ok r, e1) -> named_replica (gr_primary_idx (the_pool e)) (the_pool e) = None ->
  borrowed_of y (the_pool e) = Some b -> in_width 64 b ->
  match fst r with
  | Ok response => fst (write_path pl e) = Ok response /\
      borrowed_of y (the_pool (snd (write_path pl e))) = Some b
  | Err err => is_connection_lost err = false ->
      fst (write_path pl e) = Err (Failed err) /\
      borrowed_of y (the_pool (snd (write_path pl e)))
      = Some (if decide (y = serving_primary (the_pool e)) then usize (b + 1) else b)
  end.
Proof.
  intros Ha Hgr Hb Hw. pose proof (attempt_write_borrowed pl e r e1 y b Ha Hb) as (Hb1 & Hs1 & Hr1).
  assert (serving_primary (the_pool e) = returning_primary (the_pool e)) as Hsr
    by (unfold serving_primary, returning_primary; by rewrite Hgr).
  unfold write_path. rewrite (se_bind_ok _ _ _ _ _ Ha). destruct (fst r) as [response|err].
  - set (e2 := snd (record_primary_success e1)).
    rewrite (se_bind_ok _ _ e1 tt e2) by done.
    assert (the_pool e2 = set_breakers (record_success (primary_breaker (the_pool e1))) (replica_breakers (the_pool e1)) (the_pool e1)) as Ep by done.
    set (k := snd r). unfold put_primary_db.
    destruct (put_primary_borrowed k (pl_database pl) (r_pool (router e2), world e2) y
      (if decide (y = serving_primary (the_pool e)) then usize (b + 1) else b)) as [Hp1 Hp2].
    { cbn [fst]. fold (the_pool e2). by rewrite Ep, breakers_borrowed. }
    set (e3 := snd (on_backends (put_primary_for_database k (pl_database pl)) e2)).
    assert (on_backends (put_primary_for_database k (pl_database pl)) e2 = (Ok tt, e3)) as Hput.
    { unfold e3, on_backends. destruct (put_primary_for_database _ _ _) as [x [p w]]. cbn [fst] in Hp1. by subst x. }
    rewrite (se_bind_ok _ _ _ _ _ Hput).
    assert (borrowed_of y (the_pool e3) = Some b) as Hb3.
    { assert (the_pool e3 = fst (snd (put_primary_for_database k (pl_database pl) (r_pool (router e2), world e2)))) as ->
        by (unfold e3, on_backends; by destruct (put_primary_for_database _ _ _) as [x [p w]]).
      rewrite Hp2. cbn [fst]. fold (the_pool e2). rewrite Ep.
      assert (returning_primary (set_breakers (record_success (primary_breaker (the_pool e1))) (replica_breakers (the_pool e1)) (the_pool e1))
        = serving_primary (the_pool e)) as -> by (rewrite Hsr, <- Hr1; done).
      f_equal. destruct (decide (y = serving_primary (the_pool e))); [|done]. unfold usize.
      replace (wrap 64 (b + 1) - 1) with (wrap 64 (b + 1) + -1) by lia. rewrite wrap_add_l.
      replace (b + 1 + -1) with b by lia. by apply wrap_small. }
    clearbody e3.
    set (inv := if negb (is_error response) then cache_invalidate (extract_tables_simple (pl_sql pl)) else mret tt).
    assert (exists e4, inv e3 = (Ok tt, e4) /\ the_pool e4 = the_pool e3) as (e4 & Hi & Hp4)
      by (unfold inv; destruct (negb (is_error response)); by eexists).
    rewrite (se_bind_ok _ _ _ _ _ Hi). destruct (mirror_if_ok (pl_rule pl) (pl_sql pl) e4) as (e5 & Hm).
    rewrite (se_bind_ok _ _ _ _ _ Hm).
    pose proof (keeps_pool_mirror_if (pl_rule pl) (pl_sql pl) e4) as Hk. rewrite Hm in Hk. cbn [snd] in Hk.
    split; [done|]. unfold mret, se_ret. cbn [snd]. by rewrite Hk, Hp4.
  - intros Hl. unfold retry_write. set (e2 := snd (record_primary_failure e1)).
    rewrite (se_bind_ok _ _ e1 tt e2) by done. rewrite Hl. split; [done|]. unfold se_fail. cbn [snd].
    assert (the_pool e2 = set_breakers (record_failure (now_ms_of (now_ns (world e1))) (primary_breaker (the_pool e1)))
      (replica_breakers (the_pool e1)) (the_pool e1)) as -> by done.
    by rewrite breakers_borrowed.
Qed.

(** A write whose connection breaks while it runs is run a second time: the retry
    sends the same statement on a fresh connection, and its answer is the client's,
    whether or not the first execution took effect. *)
Theorem lost_write_runs_again pl e err c e1 c2 e3 c3 e4 :
  attempt_write pl e = (Ok (Err err, c), e1) -> is_connection_lost err = true ->
  on_backends (get_primary_for_database (pl_database pl)) (snd (record_primary_failure e1)) = (Ok c2, e3) ->
  replay_session_vars c2 (pl_init pl) e3 = (Ok c3, e4) ->
  fst (write_path pl e) = failed (fst (fst (execute_query c3 (pl_bytes pl) (world e4)))).
Proof.
  intros Ha Hl Hg Hr. unfold write_path. rewrite (se_bind_ok _ _ _ _ _ Ha). cbn [fst].
  unfold retry_write. rewrite (se_bind_ok _ _ e1 tt (snd (record_primary_failure e1))) by done. rewrite Hl.
  rewrite (se_bind_ok _ _ _ _ _ Hg), (se_bind_ok _ _ _ _ _ Hr).
  destruct (execute_query c3 (pl_bytes pl) (world e4)) as [[r c4] w] eqn:Eq.
  rewrite (se_bind_ok _ _ e4 (r, c4) (set_world w e4)) by (unfold ask; by rewrite Eq). cbn [fst snd].
  destruct r as [response|e0]; [|by rewrite (se_bind_err _ _ _ (Failed e0) (set_world w e4)) by done].
  rewrite (se_bind_ok _ _ _ response (set_world w e4)) by done.
  set (e5 := snd (record_primary_success (set_world w e4))).
  rewrite (se_bind_ok _ _ _ tt e5) by done.
  destruct (put_primary_borrowed c4 (pl_database pl) (r_pool (router e5), world e5) ThePrimary
    (borrowed (counters (primary (r_pool (router e5)))))) as [Hp _]; [done|].
  unfold put_primary_db, on_backends. unfold mbind, se_bind.
  destruct (put_primary_for_database _ _ _) as [x [p w']]. cbn [fst] in Hp. by subst x.
Qed.

(** The kill of a slow query goes to the configured primary, with the thread id the
    query's own backend gave it: a query that ran on a replica is not stopped, and the
    primary's thread of that number, which is another client's, is. *)
Theorem kill_is_sent_to_primary e c sql ms c' w' id k w2 response k' w3 :
  interrupted c sql ms (world e) = Some (c', w') -> backend_conn_id c' = Some id ->
  connect_backend (r_primary_config (router e)) w' = (Ok k, w2) ->
  execute_query k (bs "KILL QUERY " ++ show_u64 id) w2 = (Ok response, k', w3) ->
  exists e', execute_timed c sql ms e = (Ok (Err (kill_message ms), c'), e') /\ world e' = w3 /\
    queries_killed (router e') = usize (queries_killed (router e) + 1) /\ the_pool e' = the_pool e.
Proof.
  intros Hi Hid Hc Hq. unfold execute_timed. rewrite (se_bind_ok _ _ e e e) by done. rewrite Hi.
  rewrite (se_bind_ok _ _ e tt (set_world w' e)) by done. rewrite Hid.
  set (e3 := set_router (set_killed (usize (queries_killed (router e) + 1)) (router e)) (set_world w3 e)).
  assert (kill_query id (set_world w' e) = (Ok tt, e3)) as Hk.
  { unfold kill_query. rewrite (se_bind_ok _ _ _ (set_world w' e) (set_world w' e)) by done.
    cbn [router world set_world]. rewrite Hc. rewrite (se_bind_ok _ _ _ tt (set_world w2 e)) by done.
    rewrite (se_bind_ok _ _ _ (Ok response, k') (set_world w3 e)); [done|].
    unfold ask. cbn [world set_world]. by rewrite Hq. }
  rewrite (se_bind_ok _ _ _ _ _ Hk). by exists e3.
Qed.

(** The check that a replica has applied a GTID reads its own question: the server
    names the column after the expression, which contains the GTID, so the answer is
    yes for every GTID with a digit 1 in it, whatever the row says. *)
Theorem gtid_check_reads_question gtid response pre rest post :
  49 ∈ gtid -> is_error response = false ->
  br_bytes response = pre ++ column_def (bs "def") [] [] [] (drop 7 (gtid_query gtid)) rest ++ post ->
  gtid_answer response = true.
Proof.
  intros Hg He Hb. unfold gtid_answer. rewrite He. apply mem_true. rewrite Hb.
  assert (49 ∈ drop 7 (gtid_query gtid)) as Hin.
  { unfold gtid_query. change (bs "SELECT GTID_SUBSET('") with (bs "SELECT " ++ bs "GTID_SUBSET('").
    rewrite <- app_assoc. change 7%nat with (length (bs "SELECT ")). rewrite drop_app_length.
    apply elem_of_app. right. apply elem_of_app. left. unfold double_quotes.
    apply list_elem_of_In, in_concat. exists [49]. split; [|by left].
    apply in_map_iff. exists 49. split; [done | by apply list_elem_of_In]. }
  unfold column_def. rewrite !elem_of_app. right. left. right. right. right. right. left.
  cbn [lenenc_str]. apply elem_of_app. by right.
Qed.
End Routing.

(** ** Concrete runs *)

Section Runs.
#[local] Existing Instance ascii_table.
#[local] Existing Instance substring_engine.
#[local] Instance demo_order {K A} `{Countable K} : MapOrder K A := list_order.

Definition demo_router (rw : list Rewriter.CompiledRule) : Router (C := TestConn) :=
  Router_new (with_options (test_config "p:3306" 1 false None) [test_config "r1:3306" 1 false None] 4 None 3 1000 0 5000)
    [] rw.
Definition demo_env (w : TestWorld) (tx : option TestConn) : Env (W := TestWorld) (C := TestConn) :=
  {| router := demo_router []; world := w; tx_conn := tx; stmt_conn := None; sticky_conn := None;
     sticky_idx := 0; shadow := My.new |}.
Definition demo_plan (sql : string) : Plan :=
  {| pl_sql := bs sql; pl_bytes := bs sql; pl_key := bs sql; pl_database := None; pl_init := []; pl_rule := None |}.

(** A cached count, a transaction that changes it, and the count again. *)
Definition cached_env : Env (W := TestWorld) (C := TestConn) :=
  let e := demo_env test_world (Some (conn_to "p:3306")) in
  set_router (set_cache (QueryCache.put 0 (bs "SELECT n FROM t") (bs "old") (r_cache (router e))) (router e)) e.

Lemma cached_read_survives_transaction_witness :
  let e1 := snd (route_query_inner (bs "UPDATE t SET n = 2") true false [] [] [] None cached_env) in
  exists e2, route_query (bs "SELECT n FROM t") false true [] [] e1 = (Ok (cached_response (bs "old")), e2) /\
    world e2 = world e1.
Proof.
  apply (cached_read_survives_transaction cached_env (conn_to "p:3306") (bs "UPDATE t SET n = 2") [] [] [] None
    (bs "SELECT n FROM t") {| ce_bytes := bs "old"; ce_tables := [bs "t"]; expires_at := 30 * 10 ^ 9; last_used := 0 |}).
  - reflexivity.
  - reflexivity.
  - reflexivity.
  - vm_compute. reflexivity.
  - vm_compute. reflexivity.
  - vm_compute. reflexivity.
  - vm_compute. reflexivity.
Defined.

Lemma transaction_goes_straight_witness :
  tw_log (world (snd (route_query_inner (bs "DROP TABLE t") true false [] [] [] None
    (demo_env test_world (Some (conn_to "p:3306")))))) = [(bs "p:3306", bs "DROP TABLE t")].
Proof.
  pose proof (transaction_goes_straight (demo_env test_world (Some (conn_to "p:3306"))) (conn_to "p:3306")
    (bs "DROP TABLE t") false [] [] [] None eq_refl) as H.
  destruct (execute_query _ _ _) as [[r c'] w] eqn:Eq. rewrite H. cbn [snd world set_tx set_world].
  vm_compute in Eq. injection Eq as _ _ <-. reflexivity.
Defined.

(** A rule whose bucket is empty, behind a rewrite rule that changes the statement. *)
Definition limited_rule : Rules.CompiledRule :=
  Rules.with_counters (Rules.demo_rule (bs "SELECT") RPrimary false) (Rules.Build_Counters 0 (2 ^ 60) 0 0).
Definition limited_env : Env (W := TestWorld) (C := TestConn) :=
  set_router (set_rules [limited_rule] (demo_router [Rewriter.Build_CompiledRule (bs "LIST") (Some (bs "1")) None None false [] 0 0]))
    (demo_env test_world None).

Lemma refused_reaches_nothing_witness :
  let r := Rewriter.Build_CompiledRule (bs "DROP") None None None true (bs "no DDL") 0 0 in
  let e := set_router (demo_router [r]) (demo_env test_world None) in
  fst (route_query_inner (bs "DROP TABLE t") false false [] [] [] None e)
  = Err (Failed (bs "Query blocked by rewrite rule: no DDL")) /\
  fst (route_query_inner (bs "SELECT LIST") false false [] [] [] None limited_env)
  = Err (Failed (bs "Too many requests: query rate limit exceeded")).
Proof.
  intros r e. split.
  - pose proof (proj1 (refused_reaches_nothing e (bs "DROP TABLE t") false [] [] [] None)
      (bs "Query blocked by rewrite rule: no DDL") (snd (apply 1000 (bs "DROP TABLE t") [r])) ltac:(done)) as H.
    rewrite H; [reflexivity | vm_compute; reflexivity].
  - destruct (rewrite_step (bs "SELECT LIST") limited_env) as [[rewritten|x] e1] eqn:E; [|by vm_compute in E].
    destruct (match_query (info_log (world limited_env)) (draw (world limited_env)) (unix_ms (world limited_env))
      (default (bs "SELECT LIST") rewritten) [] [] (r_rules (router limited_env))) as [o rs] eqn:Em.
    assert (exists m, o = Returns (Some m) /\ rate_limited m = true) as (m & -> & Hl).
    { vm_compute in E. injection E as <- <-. vm_compute in Em. injection Em as <- <-. eexists. by split. }
    destruct (proj2 (refused_reaches_nothing limited_env (bs "SELECT LIST") false [] [] [] None) rewritten e1 m rs E Em Hl) as [rs' H].
    exact (f_equal fst H).
Defined.

Definition idle_cached_env : Env (W := TestWorld) (C := TestConn) := set_tx None cached_env.


(** A write that breaks: the slow statement is killed, and its connection is not given back. *)
Definition slow_env : Env (W := TestWorld) (C := TestConn) :=
  set_router (set_max_query_time_ms 50 (demo_router [])) (demo_env (scenario [] [] [bs "UPDATE t SET n = 2"]) None).

Lemma failed_write_leaks_connection_witness :
  borrowed_of ThePrimary (the_pool (snd (write_path (demo_plan "UPDATE t SET n = 2") slow_env))) = Some 1.
Proof.
  pose proof (failed_write_leaks_connection (demo_plan "UPDATE t SET n = 2") slow_env
    (Err (kill_message 50), conn_to "p:3306") (snd (attempt_write (demo_plan "UPDATE t SET n = 2") slow_env))
    ThePrimary 0) as H.
  specialize (H ltac:(vm_compute; reflexivity) ltac:(reflexivity) ltac:(reflexivity) ltac:(split; lia)).
  cbn [fst] in H. destruct (H ltac:(vm_compute; reflexivity)) as [_ H2]. exact H2.
Defined.

(** The first connection breaks after the statement ran: it runs again. *)
Definition lost_env : Env (W := TestWorld) (C := TestConn) := demo_env (scenario [] [1] []) None.

Lemma lost_write_runs_again_witness :
  let sql := "UPDATE t SET n = n + 1" in
  fst (write_path (demo_plan sql) lost_env) = Ok (test_response (bs sql)) /\
  tw_log (world (snd (write_path (demo_plan sql) lost_env))) = [(bs "p:3306", bs sql); (bs "p:3306", bs sql)].
Proof.
  intros sql. split; [|vm_compute; reflexivity].
  set (e1 := snd (attempt_write (demo_plan sql) lost_env)).
  set (g := on_backends (get_primary_for_database None) (snd (record_primary_failure e1))).
  set (c2 := {| tc_id := 2; tc_addr := bs "p:3306"; tc_database := Some (bs "shop"); tc_tx := false |}).
  rewrite (lost_write_runs_again (demo_plan sql) lost_env (bs "Lost connection to MySQL server during query")
    (conn_to "p:3306") e1 c2 (snd g) c2 (snd g)); vm_compute; reflexivity.
Defined.

(** A slow read on the replica's connection 7; the primary gets the kill of its own thread 7. *)
Definition replica_conn : TestConn := {| tc_id := 7; tc_addr := bs "r1:3306"; tc_database := None; tc_tx := false |}.

Lemma kill_is_sent_to_primary_witness :
  exists e', execute_timed replica_conn (bs "UPDATE t SET n = 2") 50 slow_env
    = (Ok (Err (kill_message 50), replica_conn), e') /\
  tw_log (world e') = [(bs "r1:3306", bs "UPDATE t SET n = 2"); (bs "p:3306", bs "KILL QUERY 7")].
Proof.
  set (w1 := log_query replica_conn (bs "UPDATE t SET n = 2") (world slow_env)).
  set (k := fst (test_connect (r_primary_config (router slow_env)) w1)).
  set (w2 := snd (test_connect (r_primary_config (router slow_env)) w1)).
  set (w3 := log_query (conn_to "p:3306") (bs "KILL QUERY 7") w2).
  destruct (kill_is_sent_to_primary slow_env replica_conn (bs "UPDATE t SET n = 2") 50 replica_conn w1 7
    (conn_to "p:3306") w2 (test_response (bs "KILL QUERY 7")) (conn_to "p:3306") w3) as (e' & H1 & H2 & _).
  - vm_compute. reflexivity.
  - reflexivity.
  - vm_compute. reflexivity.
  - vm_compute. reflexivity.
  - exists e'. split; [exact H1|]. rewrite H2. vm_compute. reflexivity.
Defined.

(** The replica lags (the row says 0), and the check says yes. *)
Lemma gtid_check_reads_question_witness :
  let gtid := bs "3e11fa47-71ca-11e1-9e33-c80aa9429562:23" in
  let def := column_def (bs "def") [] [] [] (drop 7 (gtid_query gtid)) [12] in
  gtid_answer (cached_response (framed_packet 1 [1] ++ framed_packet 2 def ++ framed_packet 3 (demo_eof 2)
    ++ framed_packet 4 (row_packet [Some (bs "0")]) ++ framed_packet 5 (demo_eof 2))) = true.
Proof.
  intros gtid def.
  apply (gtid_check_reads_question gtid _ (framed_packet 1 [1] ++ header_of (Z.of_nat (length def)) 2) [12]
    (framed_packet 3 (demo_eof 2) ++ framed_packet 4 (row_packet [Some (bs "0")]) ++ framed_packet 5 (demo_eof 2))).
  - apply mem_true. vm_compute. reflexivity.
  - reflexivity.
  - vm_compute. reflexivity.
Defined.
End Runs.
