(* ===== verification/Ownership.v ===== *)
(** * Who holds which backend connection (src/src/proxy/pool.rs, src/src/proxy/router.rs)

    An account of the backend connections: each has an identity, an operation takes some
    connections in and hands some out, and what it hands out or leaves in the state it was
    given, found in the state, or opened.  The account is proved for every operation of the
    pools and of the router, bottom-up: one pool, all pools, the router and the slots of a
    session.  Isolation draws the conclusion for many clients. *)

From S2P Require Import Prelude Bytes Config QueryCache Rules Rewriter StmtShadow MysqlResponse CircuitBreaker Pool Router.

#[local] Open Scope nat_scope.

(** Connections have identities, and the outside keeps two accounts that nothing reads: how
    many connections were opened, and which ones were spoken to.  A connection attempt that
    succeeds gives a connection with an identity of its own, and a call speaks to the
    connection it is made on and to no other. *)
Class Tracked (W C : Type) `{IO : !BackendIO W C} := {
  ident : C -> nat;
  opened : W -> nat;
  spoken_to : W -> list nat;
  connect_tracked cfg w :
    let (r, w') := connect_backend cfg w in
    opened w <= opened w' /\ spoken_to w' = spoken_to w /\
    match r with Ok c => opened w <= ident c < opened w' | Err _ => True end;
  execute_tracked c sql w :
    let '(_, c', w') := execute_query c sql w in
    ident c' = ident c /\ opened w' = opened w /\ spoken_to w' = spoken_to w ++ [ident c];
  raw_tracked c packet w :
    let '(_, c', w') := send_raw c packet w in
    ident c' = ident c /\ opened w' = opened w /\ spoken_to w' = spoken_to w ++ [ident c];
  tell_tracked c packet w :
    let '(_, c', w') := send_raw_no_response c packet w in
    ident c' = ident c /\ opened w' = opened w /\ spoken_to w' = spoken_to w ++ [ident c];
  ping_tracked c w :
    let '(_, c', w') := ping c w in
    ident c' = ident c /\ opened w' = opened w /\ spoken_to w' = spoken_to w ++ [ident c];
  interrupted_tracked c sql ms w c' w' :
    interrupted c sql ms w = Some (c', w') ->
    ident c' = ident c /\ opened w' = opened w /\ spoken_to w' = spoken_to w ++ [ident c]
}.

(** ** Counting *)

Definition cnt (i : nat) (l : list nat) : nat := count_occ Nat.eq_dec l i.
#[global] Arguments cnt : simpl never.

Lemma cnt_nil i : cnt i [] = 0.
Proof. done. Qed.
Lemma cnt_app i l k : cnt i (l ++ k) = cnt i l + cnt i k.
Proof. apply count_occ_app. Qed.
Lemma cnt_cons i x l : cnt i (x :: l) = cnt i [x] + cnt i l.
Proof. apply (cnt_app i [x]). Qed.
Lemma cnt_perm i l k : l ≡ₚ k -> cnt i l = cnt i k.
Proof. intros H. by apply (Permutation_count_occ Nat.eq_dec). Qed.
Lemma cnt_pos i l : 0 < cnt i l <-> i ∈ l.
Proof. unfold cnt. rewrite list_elem_of_In, (count_occ_In Nat.eq_dec). lia. Qed.
Lemma cnt_NoDup l : NoDup l <-> forall i, cnt i l <= 1.
Proof. rewrite NoDup_ListNoDup. apply NoDup_count_occ. Qed.

(** One for an identity given out between two moments. *)
Definition fresh (a b i : nat) : nat := if (a <=? i) && (i <? b) then 1 else 0.

Lemma fresh_cases a b i : fresh a b i = 1 /\ a <= i < b \/ fresh a b i = 0 /\ (i < a \/ b <= i).
Proof.
  unfold fresh. destruct (a <=? i) eqn:E1, (i <? b) eqn:E2; cbn [andb];
    rewrite ?Nat.leb_le, ?Nat.leb_gt, ?Nat.ltb_lt, ?Nat.ltb_ge in *; lia.
Qed.
Lemma fresh_split a b c i : a <= b -> b <= c -> fresh a b i + fresh b c i = fresh a c i.
Proof. intros. destruct (fresh_cases a b i), (fresh_cases b c i), (fresh_cases a c i); lia. Qed.
Lemma fresh_none a i : fresh a a i = 0.
Proof. destruct (fresh_cases a a i); lia. Qed.

(** The identities of the elements of a list and of a map. *)
Definition ids_in {A} (f : A -> list nat) (l : list A) : list nat := concat (map f l).
Definition ids_of_map `{Countable K} {A} (f : A -> list nat) (m : gmap K A) : list nat :=
  ids_in (fun kx => f (snd kx)) (map_to_list m).
Definition ids_opt {A} (f : A -> list nat) (o : option A) : list nat := match o with Some a => f a | None => [] end.

Lemma cnt_ids_insert {A} (f : A -> list nat) l k x i : k < length l ->
  cnt i (ids_in f (<[k := x]> l)) + cnt i (ids_opt f (l !! k)) = cnt i (f x) + cnt i (ids_in f l).
Proof.
  unfold ids_in. revert k. induction l as [|y l IH]; intros [|k] Hk; cbn [length] in Hk; try lia.
  - cbn. rewrite !cnt_app. lia.
  - change (<[S k := x]> (y :: l)) with (y :: <[k := x]> l). change ((y :: l) !! S k) with (l !! k).
    cbn [map concat]. rewrite !cnt_app. specialize (IH k ltac:(lia)). lia.
Qed.
Lemma cnt_ids_delete {A} (f : A -> list nat) l k x i : l !! k = Some x ->
  cnt i (ids_in f (delete k l)) + cnt i (f x) = cnt i (ids_in f l).
Proof.
  unfold ids_in. revert k. induction l as [|y l IH]; intros [|k] Hk; try done.
  - injection Hk as ->. cbn. rewrite cnt_app. lia.
  - change (delete (S k) (y :: l)) with (y :: delete k l). cbn [map concat]. rewrite !cnt_app.
    specialize (IH k Hk). lia.
Qed.
Lemma cnt_ids_lookup {A} (f : A -> list nat) l k x i : l !! k = Some x -> cnt i (f x) <= cnt i (ids_in f l).
Proof. intros H. pose proof (cnt_ids_delete f l k x i H). lia. Qed.

Lemma cnt_ids_snoc {A} (f : A -> list nat) l x i : cnt i (ids_in f (l ++ [x])) = cnt i (ids_in f l) + cnt i (f x).
Proof. unfold ids_in. rewrite map_app, concat_app, cnt_app. cbn. by rewrite app_nil_r. Qed.

Lemma cnt_map_insert `{Countable K} {A} (f : A -> list nat) (m : gmap K A) k x i :
  cnt i (ids_of_map f (<[k := x]> m)) + cnt i (ids_opt f (m !! k)) = cnt i (f x) + cnt i (ids_of_map f m).
Proof.
  assert (forall (m : gmap K A) y, m !! k = None ->
    cnt i (ids_of_map f (<[k := y]> m)) = cnt i (f y) + cnt i (ids_of_map f m)) as Hnew.
  { intros m' y Hk. unfold ids_of_map, ids_in.
    rewrite (cnt_perm i _ (concat (map (fun kx => f (snd kx)) ((k, y) :: map_to_list m')))).
    - cbn. by rewrite cnt_app.
    - by rewrite (map_to_list_insert m' k y Hk). }
  rewrite <- insert_delete_eq. rewrite (Hnew _ x) by apply lookup_delete_eq.
  destruct (m !! k) as [y|] eqn:E; cbn [ids_opt].
  - rewrite <- (insert_id m k y E) at 2. rewrite <- insert_delete_eq.
    rewrite (Hnew _ y) by apply lookup_delete_eq. lia.
  - rewrite (delete_id m k E), cnt_nil. lia.
Qed.
Lemma cnt_map_lookup `{Countable K} {A} (f : A -> list nat) (m : gmap K A) k x i :
  m !! k = Some x -> cnt i (f x) <= cnt i (ids_of_map f m).
Proof.
  intros Hk. pose proof (cnt_map_insert f (delete k m) k x i) as H1.
  rewrite lookup_delete_eq, insert_delete_eq, (insert_id m k x Hk) in H1. cbn [ids_opt] in H1. rewrite cnt_nil in H1. lia.
Qed.

(** ** The logic

    [owns P ins m outs Q]: run in a state with [P], the connections [ins] in hand, [m] leaves
    in hand at most [outs] of its result, and [Q].  Whatever is in hand or in the state
    afterwards was there before or was opened by [m], and [m] speaks to nothing else. *)

Class Holds (W S : Type) := { holding : S -> list nat; in_world : S -> W }.

Section Logic.
Context {W C : Type} `{IO : !BackendIO W C} `{TR : !Tracked W C}.

Context {St : Type} `{HS : !Holds W St}.
Implicit Types (s : St) (P : St -> Prop) (ins : list nat).

Definition evolves (s : St) (ins : list nat) (s' : St) (outs : list nat) : Prop :=
  let a := opened (in_world s) in let b := opened (in_world s') in
  a <= b /\
  (forall i, cnt i outs + cnt i (holding s') <= cnt i ins + cnt i (holding s) + fresh a b i) /\
  exists l, spoken_to (in_world s') = spoken_to (in_world s) ++ l /\
    Forall (fun i => 0 < cnt i ins + cnt i (holding s) + fresh a b i) l.

Lemma evolves_same s s' ins outs :
  in_world s' = in_world s ->
  (forall i, cnt i outs + cnt i (holding s') <= cnt i ins + cnt i (holding s)) -> evolves s ins s' outs.
Proof.
  intros Hw Hc. unfold evolves. rewrite Hw. split_and!; [done | |].
  - intros i. specialize (Hc i). lia.
  - exists []. by rewrite app_nil_r.
Qed.

Lemma evolves_trans s ins s1 mid s2 outs : evolves s ins s1 mid -> evolves s1 mid s2 outs -> evolves s ins s2 outs.
Proof.
  intros (A1 & B1 & l1 & E1 & F1) (A2 & B2 & l2 & E2 & F2).
  pose proof (fun i => fresh_split _ _ _ i A1 A2) as Hf. split_and!.
  - lia.
  - intros i. specialize (B1 i). specialize (B2 i). specialize (Hf i). lia.
  - exists (l1 ++ l2). rewrite E2, E1, app_assoc. split; [done|]. apply Forall_app. split.
    + eapply Forall_impl; [|exact F1]. intros i Hi. specialize (Hf i). cbn in *. lia.
    + eapply Forall_impl; [|exact F2]. intros i Hi. specialize (Hf i). specialize (B1 i). cbn in *. lia.
Qed.

Lemma evolves_weak s ins ins' s' outs outs' : evolves s ins s' outs ->
  (forall i, cnt i ins <= cnt i ins') -> (forall i, cnt i outs' <= cnt i outs) -> evolves s ins' s' outs'.
Proof.
  intros (A & B & l & E & F) Hi Ho. split_and!; [done | |].
  - intros i. specialize (B i). specialize (Hi i). specialize (Ho i). lia.
  - exists l. split; [done|]. eapply Forall_impl; [|exact F]. intros i H. specialize (Hi i). cbn in *. lia.
Qed.

(** What happens to a part of the state happens to the whole. *)
Lemma evolves_frame `{!Holds W St'} (t t' : St') s s' ins outs : evolves s ins s' outs ->
  in_world t = in_world s -> in_world t' = in_world s' ->
  (forall i, cnt i (holding t') + cnt i (holding s) <= cnt i (holding t) + cnt i (holding s')) ->
  (forall i, cnt i (holding s) <= cnt i (holding t)) ->
  opened (in_world t) <= opened (in_world t') /\
  (forall i, cnt i outs + cnt i (holding t') <=
     cnt i ins + cnt i (holding t) + fresh (opened (in_world t)) (opened (in_world t')) i) /\
  exists l, spoken_to (in_world t') = spoken_to (in_world t) ++ l /\
    Forall (fun i => 0 < cnt i ins + cnt i (holding t) + fresh (opened (in_world t)) (opened (in_world t')) i) l.
Proof.
  intros (A & B & l & Hl & F) -> -> Hh Hle. split_and!; [done | |].
  - intros i. specialize (B i). specialize (Hh i). lia.
  - exists l. split; [done|]. eapply Forall_impl; [|exact F]. intros i H. specialize (Hle i). cbn in *. lia.
Qed.

Context {E : Type}.

Definition owns {A} P ins (m : SE St E A) (outs : A -> list nat) (Q : A -> St -> Prop) : Prop :=
  forall s, P s -> match m s with
                   | (Ok a, s') => evolves s ins s' (outs a) /\ Q a s'
                   | (Err _, s') => evolves s ins s' []
                   end.

(** The usual case, in which nothing is asked of the state. *)
Definition moves {A} ins (m : SE St E A) (outs : A -> list nat) : Prop :=
  owns (fun _ => True) ins m outs (fun _ _ => True).

Lemma owns_bind {A B} P ins (m : SE St E A) mid R (f : A -> SE St E B) outs Q :
  owns P ins m mid R -> (forall a, owns (R a) (mid a) (f a) outs Q) -> owns P ins (m ≫= f) outs Q.
Proof.
  intros Hm Hf s Hs. unfold mbind, se_bind. specialize (Hm s Hs). destruct (m s) as [[a|e] s1]; [|done].
  destruct Hm as [H1 HR]. specialize (Hf a s1 HR). destruct (f a s1) as [[b|e] s2].
  - destruct Hf as [H2 HQ]. split; [by eapply evolves_trans | done].
  - by eapply evolves_trans.
Qed.

Lemma owns_conseq {A} P P' ins (m : SE St E A) outs Q Q' : owns P ins m outs Q ->
  (forall s, P' s -> P s) -> (forall a s, Q a s -> Q' a s) -> owns P' ins m outs Q'.
Proof.
  intros H HP HQ s Hs. specialize (H s (HP s Hs)). destruct (m s) as [[a|e] s1]; [|done].
  destruct H as [H1 H2]. split; [done | by apply HQ].
Qed.

Lemma owns_drop {A} P ins ins' (m : SE St E A) outs Q : owns P ins' m outs Q ->
  (forall i, cnt i ins' <= cnt i ins) -> owns P ins m outs Q.
Proof.
  intros H Hi s Hs. specialize (H s Hs). destruct (m s) as [[a|e] s1]; [destruct H as [H HQ]; split; [|done]|];
    (eapply evolves_weak; [exact H | exact Hi | done]).
Qed.
Lemma owns_none {A} P ins (m : SE St E A) outs Q : owns P [] m outs Q -> owns P ins m outs Q.
Proof. intros H. eapply owns_drop; [exact H|]. intros i. rewrite cnt_nil. lia. Qed.

Lemma owns_ret {A} P ins (a : A) outs (Q : A -> St -> Prop) :
  (forall i, cnt i (outs a) <= cnt i ins) -> (forall s, P s -> Q a s) -> owns P ins (mret a : SE St E A) outs Q.
Proof. intros Ho HQ s Hs. split; [|by apply HQ]. apply evolves_same; [done|]. intros i. specialize (Ho i). lia. Qed.

Lemma owns_fail {A} P ins (e : E) outs (Q : A -> St -> Prop) : owns P ins (se_fail e : SE St E A) outs Q.
Proof. intros s Hs. apply evolves_same; [done|]. intros i. rewrite cnt_nil. lia. Qed.

Lemma owns_get {B} P ins (f : St -> SE St E B) outs Q :
  (forall s, P s -> owns (fun s' => s' = s) ins (f s) outs Q) -> owns P ins (se_get ≫= f) outs Q.
Proof. intros Hf s Hs. exact (Hf s Hs s eq_refl). Qed.

Lemma owns_modify P ins (f : St -> St) outs (Q : unit -> St -> Prop) :
  (forall s, P s -> in_world (f s) = in_world s /\ Q tt (f s) /\
     forall i, cnt i outs + cnt i (holding (f s)) <= cnt i ins + cnt i (holding s)) ->
  owns P ins (se_modify f : SE St E unit) (fun _ => outs) Q.
Proof. intros H s Hs. destruct (H s Hs) as (H1 & H2 & H3). split; [by apply evolves_same | done]. Qed.

Lemma moves_owns {A} P ins (m : SE St E A) outs : moves ins m outs -> owns P ins m outs (fun _ _ => True).
Proof. intros H. by eapply owns_conseq. Qed.

Lemma moves_bind {A B} ins (m : SE St E A) mid (f : A -> SE St E B) outs :
  moves ins m mid -> (forall a, moves (mid a) (f a) outs) -> moves ins (m ≫= f) outs.
Proof. apply owns_bind. Qed.
Lemma moves_bind_same {A B} ins (m : SE St E A) (f : A -> SE St E B) outs :
  moves ins m (fun _ => ins) -> (forall a, moves ins (f a) outs) -> moves ins (m ≫= f) outs.
Proof. apply moves_bind. Qed.
Lemma moves_ret {A} ins (a : A) outs : (forall i, cnt i (outs a) <= cnt i ins) -> moves ins (mret a : SE St E A) outs.
Proof. intros H. by apply owns_ret. Qed.
Lemma moves_fail {A} ins (e : E) outs : moves ins (se_fail e : SE St E A) outs.
Proof. apply owns_fail. Qed.
Lemma moves_get {B} ins (f : St -> SE St E B) outs : (forall s, moves ins (f s) outs) -> moves ins (se_get ≫= f) outs.
Proof. intros H. apply owns_get. intros s _. by apply moves_owns. Qed.
Lemma moves_none {A} ins (m : SE St E A) outs : moves [] m outs -> moves ins m outs.
Proof. apply owns_none. Qed.
Lemma moves_weak {A} ins (m : SE St E A) outs outs' : moves ins m outs -> (forall a i, cnt i (outs' a) <= cnt i (outs a)) ->
  moves ins m outs'.
Proof.
  intros H Ho s Hs. specialize (H s Hs). destruct (m s) as [[a|e] s1]; [|done]. destruct H as [H _]. split; [|done].
  eapply evolves_weak; [exact H | done | apply Ho].
Qed.
(** A change of the state that touches neither its connections nor the world. *)
Lemma moves_modify ins (f : St -> St) : (forall s, in_world (f s) = in_world s /\ holding (f s) = holding s) ->
  moves ins (se_modify f : SE St E unit) (fun _ => ins).
Proof. intros H. apply owns_modify. intros s _. destruct (H s) as [H1 H2]. by rewrite H1, H2. Qed.
Lemma evolves_add s s' ins outs more : evolves s ins s' outs -> evolves s (ins ++ more) s' (outs ++ more).
Proof.
  intros (A & B & l & Hl & F). split_and!; [done | |].
  - intros i. specialize (B i). rewrite !cnt_app. lia.
  - exists l. split; [done|]. eapply Forall_impl; [|exact F]. intros i H. cbn in *. rewrite cnt_app. lia.
Qed.
(** An error is caught: what it dropped is gone, the rest is still in hand. *)
Lemma moves_try {A} ins (m : SE St E A) outs : moves [] m outs ->
  moves ins (se_try m) (fun r => match r with Ok a => outs a | Err _ => [] end ++ ins).
Proof.
  intros H s Hs. unfold se_try. specialize (H s Hs). destruct (m s) as [[a|e] s1]; (split; [|done]).
  - apply (evolves_add _ _ [] _ ins). by destruct H.
  - by apply (evolves_add _ _ [] _ ins).
Qed.
End Logic.
#[global] Hint Mode Holds - ! : typeclass_instances.

Create HintDb owns discriminated.
#[global] Hint Constants Opaque : owns.
#[global] Hint Variables Opaque : owns.
Ltac count_tac := intros; cbv beta; cbn [ids_opt app fst snd]; rewrite ?cnt_app, ?cnt_nil;
  repeat match goal with
         | |- context [cnt ?i (?x :: ?l)] => lazymatch l with [] => fail | _ => rewrite (cnt_cons i x l) end
         end; lia.
(** Follows the structure of a computation; [moves] of the parts come from the hints. *)
Ltac moves_step :=
  match goal with
  | |- forall _, _ => intros
  | |- moves _ (se_get ≫= _) _ => apply moves_get; intros ?; cbv beta zeta
  | |- moves _ (se_fail _) _ => apply moves_fail
  | |- moves _ (mret _) _ => apply moves_ret; solve [count_tac]
  | |- moves _ (_ ≫= _) _ =>
      first [ eapply moves_bind; [solve [eauto 4 with owns nocore] | intros ?; cbv beta zeta]
            | apply moves_bind_same; [solve [moves_tac] | intros ?; cbv beta zeta]
            | apply (moves_bind _ _ (fun _ => [])); [solve [moves_tac] | intros ?; cbv beta zeta] ]
  | |- moves _ (match ?x with _ => _ end) _ => destruct x; cbn [ids_opt app fst snd]
  | |- moves _ (let (_, _) := ?x in _) _ => destruct x; cbn [ids_opt app fst snd]
  | |- moves _ _ _ =>
      first [ solve [eauto 4 with owns nocore]
            | eapply moves_weak; [solve [eauto 4 with owns nocore] | solve [count_tac]] ]
  end
with moves_tac := repeat moves_step.
Ltac to_moves := match goal with |- owns _ ?ins ?m ?outs _ => change (moves ins m outs) end.

(** ** One pool *)

Section Pools.
Context {W C : Type} `{IO : !BackendIO W C} `{TR : !Tracked W C}.

Definition bucket_ids (l : list (PooledConn C)) : list nat := map (fun e => ident (conn e)) l.
Definition idle_ids (p : ConnectionPool C) : list nat := ids_of_map bucket_ids (connections p).

#[export] Instance holds_pool : Holds W (ConnectionPool C * W) :=
  {| holding s := idle_ids (fst s); in_world := snd |}.

(** A call on a connection that is in hand or in the state. *)
Lemma call_evolves `{!Holds W St} (s s' : St) c c' ins :
  ident c' = ident c /\ opened (in_world s') = opened (in_world s) /\
    spoken_to (in_world s') = spoken_to (in_world s) ++ [ident c] ->
  0 < cnt (ident c) ins + cnt (ident c) (holding s) -> holding s' = holding s -> evolves s ins s' ins.
Proof.
  intros (_ & Ho & Hs) Hc Hh. unfold evolves. rewrite Ho, Hh. split_and!; [done | |].
  - intros i. lia.
  - exists [ident c]. split; [done|]. constructor; [|constructor]. lia.
Qed.
Lemma in_hand (c : C) ins k : 0 < cnt (ident c) (ident c :: ins) + k.
Proof. pose proof (proj2 (cnt_pos (ident c) (ident c :: ins))) as H. specialize (H ltac:(by left)). lia. Qed.

(** A connection attempt. *)
Lemma connect_evolves `{!Holds W St} (s s' : St) cfg ins :
  in_world s' = snd (connect_backend cfg (in_world s)) -> holding s' = holding s ->
  match fst (connect_backend cfg (in_world s)) with
  | Ok c => evolves s ins s' (ident c :: ins)
  | Err _ => evolves s ins s' ins
  end.
Proof.
  intros Hw Hh. unfold evolves. rewrite Hw, Hh. pose proof (connect_tracked cfg (in_world s)) as H.
  destruct (connect_backend cfg (in_world s)) as [[c|e] w']; cbn [fst snd]; destruct H as (Ho & Hs & Hc);
    rewrite Hs; (split_and!; [done | intros i | exists []; by rewrite app_nil_r]); [|lia].
  rewrite cnt_cons. destruct (fresh_cases (opened (in_world s)) (opened w') i) as [[F ?]|[F ?]]; rewrite F.
  - destruct (decide (ident c = i)) as [->|]; unfold cnt at 1; cbn; destruct (Nat.eq_dec _ _); lia.
  - unfold cnt at 1. cbn. destruct (Nat.eq_dec _ _); lia.
Qed.

Lemma pop_fresh_ids idle now (l : list (PooledConn C)) i :
  let '(r, rest, _) := pop_fresh idle now l in
  cnt i (ids_opt (fun c => [ident c]) r) + cnt i (bucket_ids rest) <= cnt i (bucket_ids l).
Proof.
  induction l as [|e l IH]; cbn [pop_fresh]; [done|]. destruct (match idle with Some _ => _ | None => _ end).
  - destruct (pop_fresh idle now l) as [[r rest] n]. unfold bucket_ids in *. cbn [map]. rewrite (cnt_cons i _ (map _ l)). lia.
  - unfold bucket_ids. cbn [map ids_opt]. rewrite (cnt_cons i _ (map _ l)). lia.
Qed.

Lemma take_idle_moves ins key : moves ins (take_idle key) (fun r => ids_opt (fun c => [ident c]) r ++ ins).
Proof.
  intros [p w] _. unfold take_idle. destruct (connections p !! key) as [l|] eqn:El.
  - pose proof (pop_fresh_ids (max_idle p) (now_ns w) l) as H.
    destruct (pop_fresh _ _ l) as [[r rest] n]. split; [|done]. apply evolves_same; [done|]. intros i. specialize (H i).
    cbn [holding holds_pool fst]. unfold idle_ids. cbn [connections set_counters set_connections].
    pose proof (cnt_map_insert bucket_ids (connections p) key rest i) as Hm. rewrite El in Hm. cbn [ids_opt] in Hm.
    rewrite cnt_app. lia.
  - split; [|done]. by apply evolves_same.
Qed.

Lemma connect_moves ins cfg : moves ins (connect cfg) (fun c => ident c :: ins).
Proof.
  intros s _. unfold connect. pose proof (connect_evolves s (fst s, snd (connect_backend cfg (snd s))) cfg ins eq_refl eq_refl) as H.
  cbn [in_world holds_pool] in H. destruct (connect_backend cfg (snd s)) as [[c|e] w]; cbn [fst snd] in H; [done|].
  eapply evolves_weak; [exact H | done |]. intros i. rewrite cnt_nil. lia.
Qed.
Lemma query_moves ins c sql : moves (ident c :: ins) (query c sql) (fun rc => ident (snd rc) :: ins).
Proof.
  intros s _. unfold query. pose proof (execute_tracked c sql (snd s)) as H.
  destruct (execute_query c sql (snd s)) as [[r c'] w]. cbn [snd]. rewrite (proj1 H). split; [|done].
  eapply call_evolves; [exact H | apply in_hand | done].
Qed.
Lemma upd_counters_moves ins f : moves ins (upd_counters f : P unit) (fun _ => ins).
Proof. apply moves_modify. by intros [p w]. Qed.
Hint Resolve take_idle_moves connect_moves query_moves upd_counters_moves : owns.

Lemma run_init_moves ins sqls c : moves (ident c :: ins) (run_init sqls c) (fun c => ident c :: ins).
Proof. revert c. induction sqls as [|sql sqls IH]; intros c; cbn [run_init]; moves_tac. Qed.
Lemma enforce_limit_moves ins : moves ins (enforce_limit : P unit) (fun _ => ins).
Proof. unfold enforce_limit. moves_tac. Qed.
Hint Resolve run_init_moves enforce_limit_moves : owns.

(** What a pool hands out was idle in it or is new. *)
Lemma pool_get_moves ins database : moves ins (get_for_database database) (fun c => ident c :: ins).
Proof. unfold get_for_database. moves_tac. Qed.
(** What is put back is kept or closed. *)
Lemma pool_put_moves ins c database : moves (ident c :: ins) (put_for_database c database) (fun _ => ins).
Proof.
  intros [p w] _. unfold put_for_database. set (k := match permits _ with Some _ => _ | None => _ end).
  destruct (in_transaction c || negb (is_healthy c)); (split; [|done]); apply evolves_same; try done; intros i.
  - rewrite (cnt_cons i (ident c)). cbn [holding holds_pool fst]. unfold idle_ids. cbn [connections set_counters]. lia.
  - cbn [holding holds_pool fst]. unfold idle_ids. cbn [connections set_counters set_connections].
    set (key := db_key _). set (b := if _ <? _ then _ else _).
    assert (cnt i (bucket_ids b) <= cnt i [ident c] + cnt i (ids_opt bucket_ids (connections p !! key))) as Hb.
    { unfold b, bucket_ids. destruct (_ <? _), (connections p !! key) as [l|]; cbn [default from_option id ids_opt map conn].
      1: rewrite (cnt_cons i (ident c)).
      all: lia. }
    pose proof (cnt_map_insert bucket_ids (connections p) key b i) as Hm. rewrite (cnt_cons i (ident c)). lia.
Qed.
Lemma get_moves ins : moves ins Pool.get (fun c => ident c :: ins).
Proof. pose proof pool_get_moves. unfold Pool.get. moves_tac. Qed.
Lemma put_moves ins c : moves (ident c :: ins) (Pool.put c) (fun _ => ins).
Proof. pose proof pool_put_moves. unfold Pool.put. moves_tac. Qed.
Hint Resolve pool_get_moves pool_put_moves get_moves put_moves : owns.

(** ** All pools *)

Definition all_idle (p : BackendPool C) : list nat := idle_ids (primary p) ++ ids_in idle_ids (replicas p).

#[export] Instance holds_pools : Holds W (BackendPool C * W) :=
  {| holding s := all_idle (fst s); in_world := snd |}.

Lemma set_pool_of_ids x (p : BackendPool C) cp cp' i : pool_of x p = Some cp ->
  cnt i (all_idle (set_pool_of x cp' p)) + cnt i (idle_ids cp) = cnt i (all_idle p) + cnt i (idle_ids cp').
Proof.
  unfold all_idle. destruct x as [|k]; cbn [pool_of set_pool_of]; intros H.
  - injection H as <-. cbn [primary replicas set_primary]. rewrite !cnt_app. lia.
  - cbn [primary replicas set_replicas]. rewrite !cnt_app.
    pose proof (cnt_ids_insert idle_ids (replicas p) k cp' i (lookup_lt_Some _ _ _ H)) as Hi. rewrite H in Hi.
    cbn [ids_opt] in Hi. lia.
Qed.

Lemma on_pool_moves {A} ins x (m : P (W := W) (C := C) A) outs : moves ins m outs -> moves ins (on_pool x m) outs.
Proof.
  intros Hm [p w] _. unfold on_pool. cbn [fst snd]. destruct (pool_of x p) as [cp|] eqn:Ex.
  - specialize (Hm (cp, w) I). destruct (m (cp, w)) as [[a|e] [cp' w']]; [destruct Hm as [Hm _]; split; [|done]|];
      (eapply evolves_frame; [exact Hm | done | done | |]; intros i; cbn [holding holds_pool holds_pools fst];
       pose proof (set_pool_of_ids x p cp cp' i Ex); pose proof (set_pool_of_ids x p cp cp i Ex) as H2).
    all: try lia.
    all: destruct x; cbn [pool_of] in Ex; unfold all_idle; rewrite cnt_app;
      [injection Ex as <-; lia | pose proof (cnt_ids_lookup idle_ids _ _ _ i Ex); lia].
  - apply evolves_same; [done|]. intros i. rewrite cnt_nil. lia.
Qed.
Lemma upd_pool_moves ins f : (forall p, all_idle (f p) = all_idle p) -> moves ins (upd_pool f : B unit) (fun _ => ins).
Proof. intros H. apply moves_modify. intros [p w]. cbn. by rewrite H. Qed.
Lemma primary_allows_moves ins : moves ins (primary_allows : B bool) (fun _ => ins).
Proof. intros [p w] _. unfold primary_allows. destruct (allows _ _) as [b cb]. split; [|done]. by apply evolves_same. Qed.
Lemma replica_allows_moves ins i : moves ins (replica_allows i : B bool) (fun _ => ins).
Proof.
  intros [p w] _. unfold replica_allows. destruct (_ !! i).
  - destruct (allows _ _) as [b cb]. split; [|done]. by apply evolves_same.
  - apply evolves_same; [done|]. intros k. rewrite cnt_nil. lia.
Qed.
Hint Resolve on_pool_moves upd_pool_moves primary_allows_moves replica_allows_moves moves_try : owns.
Hint Extern 1 (all_idle _ = all_idle _) => reflexivity : owns.

Lemma get_primary_moves ins database : moves ins (get_primary_for_database database) (fun c => ident c :: ins).
Proof. unfold get_primary_for_database. moves_tac. Qed.
Lemma candidates_moves ins b i rs : moves ins (candidates_from b i rs) (fun _ => ins).
Proof. revert i. induction rs as [|r rs IH]; intros i; cbn [candidates_from]; moves_tac. Qed.
Lemma try_others_moves ins chosen database cands :
  moves ins (try_others chosen database cands) (fun r => ids_opt (fun x => [ident (fst x)]) r ++ ins).
Proof.
  induction cands as [|[i w] cands IH]; cbn [try_others]; moves_tac.
Qed.
Hint Resolve get_primary_moves candidates_moves try_others_moves : owns.
Lemma try_weighted_moves ins b database : moves ins (try_weighted_replica b database) (fun r => ids_opt (fun x => [ident (fst x)]) r ++ ins).
Proof. unfold try_weighted_replica. moves_tac. Qed.
Hint Resolve try_weighted_moves : owns.
Lemma get_replica_moves ins database : moves ins (get_replica_for_database database) (fun r => ident (fst r) :: ins).
Proof. unfold get_replica_for_database. moves_tac. Qed.
Lemma get_hostgroup_moves ins hg database : moves ins (get_hostgroup_for_database hg database) (fun r => ident (fst r) :: ins).
Proof. unfold get_hostgroup_for_database. moves_tac. Qed.
Lemma put_primary_moves ins c database : moves (ident c :: ins) (put_primary_for_database c database) (fun _ => ins).
Proof. unfold put_primary_for_database. moves_tac. Qed.
Lemma put_replica_moves ins c idx database : moves (ident c :: ins) (put_replica_for_database c idx database) (fun _ => ins).
Proof. unfold put_replica_for_database. moves_tac. Qed.
End Pools.
#[export] Hint Resolve take_idle_moves connect_moves query_moves upd_counters_moves run_init_moves enforce_limit_moves
  pool_get_moves pool_put_moves get_moves put_moves on_pool_moves upd_pool_moves primary_allows_moves replica_allows_moves moves_try
  get_primary_moves candidates_moves try_others_moves try_weighted_moves get_replica_moves get_hostgroup_moves
  put_primary_moves put_replica_moves : owns.
#[export] Hint Extern 1 (all_idle _ = all_idle _) => reflexivity : owns.

(** ** The router, outside a session's own connections *)

Section Routes.
Context {W C : Type} `{IO : !BackendIO W C} `{TR : !Tracked W C} `{CT : CaseTable} `{RE : RegexEngine}
  `{MO : !MapOrder bytes CacheEntry} `{MO1 : !MapOrder bytes bytes}
  `{MO2 : !MapOrder Z Z} `{MO3 : !MapOrder Z My.MysqlStmtInfo}.
Local Abbreviation EE := (Env (W := W) (C := C)).

(** The connections of a session: of its transaction, its statements and its hint. *)
Definition slot_id (o : option C) : list nat := ids_opt (fun c => [ident c]) o.
Definition slot_ids (e : EE) : list nat := slot_id (tx_conn e) ++ slot_id (stmt_conn e) ++ slot_id (sticky_conn e).
(** The idle connections of the router: those of the pools and those for mirrored queries. *)
Definition router_ids (r : Router (C := C)) : list nat := all_idle (r_pool r) ++ ids_of_map idle_ids (r_mirror r).

#[export] Instance holds_env : Holds W EE :=
  {| holding e := router_ids (router e) ++ slot_ids e; in_world := world |}.

Local Abbreviation RT := (SE EE failure).

Lemma on_backends_moves {A} ins (m : B (W := W) (C := C) A) outs : moves ins m outs -> moves ins (on_backends m) outs.
Proof.
  intros Hm e _. unfold on_backends. specialize (Hm (r_pool (router e), world e) I).
  destruct (m _) as [[a|x] [p w]]; cbn [failed]; [destruct Hm as [Hm _]; split; [|done]|];
    (eapply evolves_frame; [exact Hm | done | done | |]; intros i; cbn [holding holds_env holds_pools fst]; 
     unfold router_ids, slot_ids; cbn [router set_world set_router set_pool with_state r_pool r_mirror tx_conn stmt_conn sticky_conn];
     rewrite !cnt_app; lia).
Qed.
Lemma upd_router_moves ins f : (forall r, router_ids (f r) = router_ids r) -> moves ins (upd_router f : RT unit) (fun _ => ins).
Proof. intros H. apply moves_modify. intros e. split; [done|]. cbn. by rewrite H. Qed.
Lemma upd_backends_moves ins f : (forall p, all_idle (f p) = all_idle p) -> moves ins (upd_backends f : RT unit) (fun _ => ins).
Proof. intros H. apply upd_router_moves. intros r. unfold router_ids. cbn. by rewrite H. Qed.
Lemma lift_moves {A} ins (r : result bytes A) : moves ins (lift r : RT A) (fun _ => ins).
Proof. destruct r as [a|x]; intros e _; cbn [lift failed]; [split; [|done]|]; apply evolves_same; try done. intros i. rewrite cnt_nil. lia. Qed.
Lemma set_shadow_moves ins (f : My.MysqlStmtShadow -> My.MysqlStmtShadow) :
  moves ins (upd_env (fun e => set_shadow (f (shadow e)) e) : RT unit) (fun _ => ins).
Proof. by apply moves_modify. Qed.

(** A call on a connection that is in hand, and on one that is in the state. *)
Lemma ask_moves ins c sql : moves (ident c :: ins) (ask c sql : RT _) (fun r => ident (snd r) :: ins).
Proof.
  intros e _. unfold ask. pose proof (execute_tracked c sql (world e)) as H. destruct (execute_query _ _ _) as [[r c'] w].
  cbn [snd]. rewrite (proj1 H). split; [|done]. eapply call_evolves; [exact H | apply in_hand | done].
Qed.
Lemma ask_raw_moves ins c packet : moves (ident c :: ins) (ask_raw c packet : RT _) (fun r => ident (snd r) :: ins).
Proof.
  intros e _. unfold ask_raw. pose proof (raw_tracked c packet (world e)) as H. destruct (send_raw _ _ _) as [[r c'] w].
  cbn [snd]. rewrite (proj1 H). split; [|done]. eapply call_evolves; [exact H | apply in_hand | done].
Qed.

Lemma put_primary_db_moves ins c db : moves (ident c :: ins) (put_primary_db c db : RT unit) (fun _ => ins).
Proof. apply on_backends_moves, put_primary_moves. Qed.
Hint Extern 1 (router_ids _ = router_ids _) => reflexivity : owns.
Hint Resolve on_backends_moves upd_router_moves upd_backends_moves lift_moves set_shadow_moves ask_moves ask_raw_moves put_primary_db_moves : owns.
Lemma put_back_moves ins c idx db : moves (ident c :: ins) (put_back c idx db : RT unit) (fun _ => ins).
Proof. unfold put_back. moves_tac. Qed.

Lemma breaker_failed_idle idx t (p : BackendPool C) : all_idle (breaker_failed idx t p) = all_idle p.
Proof. unfold breaker_failed. by destruct (Z.ltb _ _). Qed.
Lemma breaker_succeeded_idle idx (p : BackendPool C) : all_idle (breaker_succeeded idx p) = all_idle p.
Proof. unfold breaker_succeeded. by destruct (Z.ltb _ _). Qed.
Hint Resolve breaker_failed_idle breaker_succeeded_idle : owns.
Lemma record_replica_failure_moves ins idx : moves ins (record_replica_failure idx : RT unit) (fun _ => ins).
Proof. unfold record_replica_failure. moves_tac. Qed.
Lemma record_replica_success_moves ins idx : moves ins (record_replica_success idx : RT unit) (fun _ => ins).
Proof. unfold record_replica_success. moves_tac. Qed.
Lemma record_primary_failure_moves ins : moves ins (record_primary_failure : RT unit) (fun _ => ins).
Proof. unfold record_primary_failure. moves_tac. Qed.
Lemma record_primary_success_moves ins : moves ins (record_primary_success : RT unit) (fun _ => ins).
Proof. unfold record_primary_success. moves_tac. Qed.
Lemma cache_get_moves ins key : moves ins (cache_get key : RT _) (fun _ => ins).
Proof. intros e _. unfold cache_get. destruct (QueryCache.get _ _ _). split; [|done]. by apply evolves_same. Qed.
Lemma cache_put_moves ins key data : moves ins (cache_put key data : RT _) (fun _ => ins).
Proof. unfold cache_put. apply moves_get. intros e. by apply upd_router_moves. Qed.
Lemma cache_invalidate_moves ins tables : moves ins (cache_invalidate tables : RT _) (fun _ => ins).
Proof. by apply upd_router_moves. Qed.
Hint Resolve put_back_moves record_replica_failure_moves record_replica_success_moves record_primary_failure_moves
  record_primary_success_moves cache_get_moves cache_put_moves cache_invalidate_moves : owns.

Lemma replay_moves ins c sqls : moves (ident c :: ins) (replay_session_vars c sqls : RT C) (fun c => ident c :: ins).
Proof. revert c. induction sqls as [|sql sqls IH]; intros c; cbn [replay_session_vars]; moves_tac. Qed.
Lemma send_best_effort_moves ins c packets : moves (ident c :: ins) (send_best_effort c packets : RT C) (fun c => ident c :: ins).
Proof. revert c. induction packets as [|x packets IH]; intros c; cbn [send_best_effort]; moves_tac. Qed.
Lemma reprepare_all_moves ins c jobs ids :
  moves (ident c :: ins) (reprepare_all c jobs ids : RT _) (fun ci => ident (fst ci) :: ins).
Proof. revert c ids. induction jobs as [|[pid prep] jobs IH]; intros c ids; cbn [reprepare_all]; moves_tac. Qed.
Hint Resolve replay_moves send_best_effort_moves reprepare_all_moves : owns.

(** *** Mirroring and time limits *)

Lemma on_mirror_moves {A} given ins a (m : P (W := W) (C := C) A) outs : moves given m outs ->
  moves (given ++ ins) (on_mirror a m) (fun r => match r with Ok x => outs x | Err _ => [] end ++ ins).
Proof.
  intros Hm e _. unfold on_mirror. destruct (r_mirror (router e) !! a) as [p|] eqn:Ep.
  - specialize (Hm (p, world e) I). destruct (m (p, world e)) as [r [p' w]]. split; [|done].
    apply evolves_add.
    assert (evolves (p, world e) given (p', w) (match r with Ok x => outs x | Err _ => [] end)) as H by (destruct r; [by destruct Hm | done]).
    pose proof (fun i => cnt_map_insert idle_ids (r_mirror (router e)) a p' i) as Hi. rewrite Ep in Hi. cbn [ids_opt] in Hi.
    eapply evolves_frame; [exact H | done | done | |]; intros i; specialize (Hi i);
      pose proof (cnt_map_lookup idle_ids _ _ _ i Ep); cbn [holding holds_env holds_pool fst]; unfold router_ids, slot_ids;
      cbn [router set_world set_router set_mirror with_state r_pool r_mirror tx_conn stmt_conn sticky_conn];
      rewrite !cnt_app; lia.
  - split; [|done]. apply evolves_same; [done|]. count_tac.
Qed.
Lemma mirror_get_moves ins a : moves ins (on_mirror a Pool.get : RT (result bytes C)) (fun r => match r with Ok c => [ident c] | Err _ => [] end ++ ins).
Proof. apply (on_mirror_moves []), get_moves. Qed.
Lemma mirror_put_moves ins a c : moves (ident c :: ins) (on_mirror a (Pool.put c) : RT _) (fun _ => ins).
Proof.
  eapply moves_weak; [apply (on_mirror_moves [ident c] ins), put_moves|]. count_tac.
Qed.
Lemma mirror_create_moves ins a : moves ins (mirror_get_or_create a : RT _) (fun _ => ins).
Proof.
  unfold mirror_get_or_create. apply owns_get. intros e _. destruct (r_mirror (router e) !! a) as [p|] eqn:Ep.
  - by apply owns_ret.
  - cbv zeta. apply (owns_bind _ _ _ (fun _ => ins) (fun _ _ => True)); [|intros []; by apply owns_ret].
    apply owns_modify. intros e' ->. split_and!; [done | done |]. intros i.
    cbn [holding holds_env]. unfold router_ids, slot_ids.
    cbn [router set_world set_router set_mirror with_state r_pool r_mirror tx_conn stmt_conn sticky_conn]. rewrite !cnt_app.
    pose proof (cnt_map_insert idle_ids (r_mirror (router e)) a
      (with_idle_timeout (with_addr a (r_template (router e))) 4 (Some (60 * 10 ^ 9)%Z)) i) as H.
    rewrite Ep in H. change (idle_ids (with_idle_timeout _ _ _)) with (@nil nat) in H. cbn [ids_opt] in H.
    rewrite cnt_nil in H. lia.
Qed.
Hint Resolve mirror_get_moves mirror_put_moves mirror_create_moves : owns.
Lemma fire_mirror_moves ins a sql : moves ins (fire_mirror a sql : RT unit) (fun _ => ins).
Proof. unfold fire_mirror. moves_tac. Qed.
Lemma mirror_if_moves ins m sql : moves ins (mirror_if m sql : RT unit) (fun _ => ins).
Proof. pose proof fire_mirror_moves. unfold mirror_if. moves_tac. Qed.

Lemma kill_query_moves ins id : moves ins (kill_query id : RT unit) (fun _ => ins).
Proof.
  unfold kill_query. apply owns_get. intros e _. pose proof (fun e' => connect_evolves e e' (r_primary_config (router e)) ins) as Hc.
  cbn [in_world holds_env] in Hc. destruct (connect_backend _ (world e)) as [r w]. cbn [fst snd] in Hc.
  apply (owns_bind _ _ _ (fun _ => match r with Ok k => ident k :: ins | Err _ => ins end) (fun _ _ => True)).
  - intros e' ->. split; [|done]. specialize (Hc (set_world w e) eq_refl eq_refl). by destruct r.
  - intros []. destruct r as [k|]; [|by apply owns_ret].
    to_moves. moves_tac.
Qed.
Hint Resolve mirror_if_moves kill_query_moves : owns.

Lemma execute_timed_moves ins c sql ms : moves (ident c :: ins) (execute_timed c sql ms : RT _) (fun r => ident (snd r) :: ins).
Proof.
  unfold execute_timed. apply owns_get. intros e _. destruct (interrupted c sql ms (world e)) as [[c' w]|] eqn:Ei.
  - apply interrupted_tracked in Ei as Hi. rewrite <- (proj1 Hi).
    apply (owns_bind _ _ _ (fun _ => ident c' :: ins) (fun _ _ => True)).
    + intros e' ->. split; [|done]. rewrite (proj1 Hi). eapply call_evolves; [exact Hi | apply in_hand | done].
    + intros []. to_moves. moves_tac.
  - apply moves_owns. apply ask_moves.
Qed.
Hint Resolve execute_timed_moves : owns.
Lemma run_query_moves ins c sql : moves (ident c :: ins) (run_query c sql : RT _) (fun r => ident (snd r) :: ins).
Proof. unfold run_query. moves_tac. Qed.
Hint Resolve run_query_moves : owns.

(** *** Queries outside a transaction *)

Lemma ff_rule_moves ins sql user schema : moves ins (is_fast_forward_rule sql user schema : RT bool) (fun _ => ins).
Proof. unfold is_fast_forward_rule. moves_tac. Qed.
Lemma rewrite_step_moves ins sql : moves ins (rewrite_step sql : RT _) (fun _ => ins).
Proof. unfold rewrite_step. moves_tac. Qed.
Lemma rule_step_moves ins sql user schema : moves ins (rule_step sql user schema : RT _) (fun _ => ins).
Proof. unfold rule_step. moves_tac. Qed.
Lemma hostgroup_moves hg b pl : moves [] (hostgroup_path hg b pl : RT _) (fun _ => []).
Proof. unfold hostgroup_path. moves_tac. Qed.
Lemma retry_read_moves ins err idx pl : moves ins (retry_read err idx pl : RT _) (fun _ => []).
Proof. apply moves_none. unfold retry_read. moves_tac. Qed.
Lemma retry_write_moves ins err pl : moves ins (retry_write err pl : RT _) (fun _ => []).
Proof. apply moves_none. unfold retry_write. moves_tac. Qed.
Lemma attempt_write_moves pl : moves [] (attempt_write pl : RT _) (fun r => [ident (snd r)]).
Proof. unfold attempt_write. moves_tac. Qed.
Hint Resolve ff_rule_moves rewrite_step_moves rule_step_moves hostgroup_moves retry_read_moves retry_write_moves
  attempt_write_moves : owns.
Lemma read_path_moves b pl : moves [] (read_path b pl : RT _) (fun _ => []).
Proof. unfold read_path. moves_tac. Qed.
Lemma write_path_moves pl : moves [] (write_path pl : RT _) (fun _ => []).
Proof. unfold write_path. moves_tac. Qed.
Hint Resolve read_path_moves write_path_moves : owns.
Lemma dispatch_moves b pl : moves [] (dispatch b pl : RT _) (fun _ => []).
Proof. unfold dispatch. moves_tac. Qed.
Hint Resolve dispatch_moves : owns.
Lemma check_gtid_moves gtid : moves [] (check_replica_has_gtid gtid : RT bool) (fun _ => []).
Proof.
  unfold check_replica_has_gtid. apply moves_get. intros e. destruct (replicas _); [by apply moves_ret|].
  eapply moves_bind; [apply (moves_try [] _ (fun _ => [])); moves_tac|]. intros r. apply moves_ret. destruct r; count_tac.
Qed.

(** ** The connections of a session

    A slot is looked at and stored into.  A call on the connection of a slot leaves the
    connection where it is, so that storing what came back changes nothing. *)

Class Slot (look : EE -> option C) (store : C -> EE -> EE) := {
  slot_world w e : look (set_world w e) = look e;
  store_world c e : world (store c e) = world e;
  store_look c e : look (store c e) = Some c;
  slot_held c e i : look e = Some c -> cnt i [ident c] <= cnt i (holding e);
  store_count c e i : cnt i (holding (store c e)) + cnt i (slot_id (look e)) = cnt i (holding e) + cnt i [ident c]
}.

Ltac slot_count := intros; cbn [holding holds_env]; unfold slot_ids;
  cbn [router tx_conn stmt_conn sticky_conn set_tx set_stmt set_sticky];
  try match goal with H : _ = Some _ |- _ => rewrite H end;
  repeat match goal with |- context [slot_id (Some ?c)] => change (slot_id (Some c)) with [ident c] end; rewrite !cnt_app; lia.
#[export] Instance tx_slot : Slot tx_conn (fun c => set_tx (Some c)).
Proof. split; try done; slot_count. Qed.
#[export] Instance stmt_slot : Slot stmt_conn (fun c => set_stmt (Some c)).
Proof. split; try done; slot_count. Qed.
#[export] Instance sticky_slot : Slot sticky_conn (fun c e => set_sticky (Some c) (sticky_idx e) e).
Proof. split; try done; slot_count. Qed.

Section OneSlot.
Context (look : EE -> option C) (store : C -> EE -> EE) `{SL : !Slot look store}.

Definition in_slot (i : nat) (e : EE) : Prop := ident <$> look e = Some i.

Lemma in_slot_pos i e : in_slot i e -> 0 < cnt i (holding e).
Proof.
  unfold in_slot. destruct (look e) as [c|] eqn:El; [|done]. intros [= <-].
  pose proof (slot_held c e (ident c) El). pose proof (proj2 (cnt_pos (ident c) [ident c])) as H2.
  specialize (H2 ltac:(by left)). lia.
Qed.

Lemma store_hand ins c : owns (fun _ => True) (ident c :: ins) (upd_env (store c) : RT unit) (fun _ => ins) (fun _ => in_slot (ident c)).
Proof.
  apply owns_modify. intros e _. split_and!; [apply store_world | unfold in_slot; by rewrite store_look |].
  intros i. pose proof (store_count c e i). rewrite (cnt_cons i (ident c)). lia.
Qed.
Lemma store_same ins c : owns (in_slot (ident c)) ins (upd_env (store c) : RT unit) (fun _ => ins) (fun _ => in_slot (ident c)).
Proof.
  apply owns_modify. intros e He. split_and!; [apply store_world | unfold in_slot; by rewrite store_look |].
  intros i. pose proof (store_count c e i) as H. unfold in_slot in He. destruct (look e) as [c'|]; [|done].
  injection He as Ei. cbn [slot_id ids_opt] in H. rewrite Ei in H. lia.
Qed.

Lemma same_slot {A} ins c c' (a : A) e w : in_slot (ident c) e ->
  ident c' = ident c /\ opened w = opened (world e) /\ spoken_to w = spoken_to (world e) ++ [ident c] ->
  evolves e ins (set_world w e) ins /\ in_slot (ident c') (set_world w e).
Proof.
  intros He H. split; [|unfold in_slot; rewrite slot_world, (proj1 H); exact He].
  eapply call_evolves; [exact H | pose proof (in_slot_pos _ _ He); lia | done].
Qed.
Lemma ask_same ins c sql : owns (in_slot (ident c)) ins (ask c sql : RT _) (fun _ => ins) (fun r => in_slot (ident (snd r))).
Proof.
  intros e He. unfold ask. pose proof (execute_tracked c sql (world e)) as H. destruct (execute_query _ _ _) as [[r c'] w].
  by apply (same_slot ins c c' r).
Qed.
Lemma ask_raw_same ins c p : owns (in_slot (ident c)) ins (ask_raw c p : RT _) (fun _ => ins) (fun r => in_slot (ident (snd r))).
Proof.
  intros e He. unfold ask_raw. pose proof (raw_tracked c p (world e)) as H. destruct (send_raw _ _ _) as [[r c'] w].
  by apply (same_slot ins c c' r).
Qed.
Lemma tell_raw_same ins c p : owns (in_slot (ident c)) ins (tell_raw c p : RT _) (fun _ => ins) (fun r => in_slot (ident (snd r))).
Proof.
  intros e He. unfold tell_raw. pose proof (tell_tracked c p (world e)) as H. destruct (send_raw_no_response _ _ _) as [[r c'] w].
  by apply (same_slot ins c c' r).
Qed.
Lemma replay_same ins c sqls :
  owns (in_slot (ident c)) ins (replay_session_vars c sqls : RT C) (fun _ => ins) (fun c => in_slot (ident c)).
Proof.
  revert c. induction sqls as [|sql sqls IH]; intros c; cbn [replay_session_vars]; [by apply owns_ret|].
  eapply owns_bind; [apply ask_same|]. intros r. apply IH.
Qed.

(** A call on the slot's connection, and what came back stored. *)
Lemma raw_in_slot ins c p : owns (in_slot (ident c)) ins
  (r ← ask_raw c p; upd_env (store (snd r)) ;; mret (fst r) : RT (result bytes BackendResponse)) (fun _ => ins) (fun _ _ => True).
Proof.
  eapply owns_bind; [apply ask_raw_same|]. intros r. eapply owns_bind; [apply store_same|]. intros []. by apply owns_ret.
Qed.
Lemma tell_in_slot ins c p : owns (in_slot (ident c)) ins
  (r ← tell_raw c p; upd_env (store (snd r)) ;; mret (fst r) : RT (result bytes unit)) (fun _ => ins) (fun _ _ => True).
Proof.
  eapply owns_bind; [apply tell_raw_same|]. intros r. eapply owns_bind; [apply store_same|]. intros []. by apply owns_ret.
Qed.
Lemma ask_in_slot ins c sql : owns (in_slot (ident c)) ins
  (r ← ask c sql; upd_env (store (snd r)) ;; lift (fst r) : RT BackendResponse) (fun _ => ins) (fun _ _ => True).
Proof.
  eapply owns_bind; [apply ask_same|]. intros r. eapply owns_bind; [apply store_same|]. intros []. apply moves_owns, lift_moves.
Qed.
(** A fresh connection, called and stored. *)
Lemma raw_into_slot ins c p : moves (ident c :: ins)
  (r ← ask_raw c p; upd_env (store (snd r)) ;; mret (fst r) : RT (result bytes BackendResponse)) (fun _ => ins).
Proof.
  eapply moves_bind; [apply ask_raw_moves|]. intros r. eapply owns_bind; [apply store_hand|]. intros []. by apply owns_ret.
Qed.
(** The connection of the slot, filled if it is empty. *)
Lemma need_slot ins database : owns (fun _ => True) ins
  (e ← se_get; match look e with
               | Some c => mret c
               | None => c ← on_backends (get_primary_for_database database); upd_env (store c) ;; mret c
               end : RT C) (fun _ => ins) (fun c => in_slot (ident c)).
Proof.
  apply owns_get. intros e _. destruct (look e) as [c|] eqn:El.
  - apply owns_ret; [done|]. intros e' ->. unfold in_slot. by rewrite El.
  - eapply owns_bind; [apply moves_owns, on_backends_moves, get_primary_moves|]. intros c.
    eapply owns_bind; [apply store_hand|]. intros []. by apply owns_ret.
Qed.
End OneSlot.
End Routes.
#[export] Hint Extern 1 (router_ids _ = router_ids _) => reflexivity : owns.
#[export] Hint Resolve on_backends_moves upd_router_moves upd_backends_moves lift_moves set_shadow_moves ask_moves ask_raw_moves
  put_primary_db_moves put_back_moves replay_moves send_best_effort_moves reprepare_all_moves ff_rule_moves
  rewrite_step_moves rule_step_moves dispatch_moves check_gtid_moves : owns.

(** ** Every operation of the router *)

Section SlotRoutes.
Context {W C : Type} `{IO : !BackendIO W C} `{TR : !Tracked W C} `{CT : CaseTable} `{RE : RegexEngine}
  `{MO : !MapOrder bytes CacheEntry} `{MO1 : !MapOrder bytes bytes}
  `{MO2 : !MapOrder Z Z} `{MO3 : !MapOrder Z My.MysqlStmtInfo}.
Local Abbreviation EE := (Env (W := W) (C := C)).
Local Abbreviation RT := (SE EE failure).
Local Abbreviation in_tx_slot := (in_slot (W := W) tx_conn).
Local Abbreviation in_stmt_slot := (in_slot (W := W) stmt_conn).

Lemma route_in_transaction_moves sql sqls db : moves [] (route_in_transaction sql sqls db : RT _) (fun _ => []).
Proof.
  unfold route_in_transaction. apply owns_get. intros e _.
  eapply (owns_bind _ _ _ (fun _ => []) (fun c => in_tx_slot (ident c))); [|intros c; apply (ask_in_slot tx_conn (fun c => set_tx (Some c)))].
  destruct (tx_conn e) as [c|] eqn:Et.
  - apply owns_ret; [done|]. intros e' ->. unfold in_slot. by rewrite Et.
  - eapply owns_bind; [apply moves_owns, on_backends_moves, get_primary_moves|]. intros c.
    eapply owns_bind; [apply (store_hand tx_conn (fun c => set_tx (Some c)))|]. intros [].
    eapply owns_bind; [apply (replay_same tx_conn (fun c => set_tx (Some c)))|]. intros c2.
    eapply owns_bind; [apply (store_same tx_conn (fun c => set_tx (Some c)))|]. intros []. by apply owns_ret.
Qed.
Hint Resolve route_in_transaction_moves : owns.
Lemma route_query_inner_moves sql in_tx b user schema sqls db :
  moves [] (route_query_inner sql in_tx b user schema sqls db : RT _) (fun _ => []).
Proof. unfold route_query_inner. moves_tac. Qed.

Lemma need_tx_owns ins db : owns (fun _ => True) ins (need_tx db : RT C) (fun _ => ins) (fun c => in_tx_slot (ident c)).
Proof. apply (need_slot tx_conn (fun c => set_tx (Some c))). Qed.
Lemma need_stmt_owns ins db : owns (fun _ => True) ins (need_stmt db : RT C) (fun _ => ins) (fun c => in_stmt_slot (ident c)).
Proof. apply (need_slot stmt_conn (fun c => set_stmt (Some c))). Qed.
Lemma raw_on_tx_owns ins c p : owns (in_tx_slot (ident c)) ins (raw_on_tx c p : RT _) (fun _ => ins) (fun _ _ => True).
Proof. apply (raw_in_slot tx_conn (fun c => set_tx (Some c))). Qed.
Lemma raw_on_stmt_owns ins c p : owns (in_stmt_slot (ident c)) ins (raw_on_stmt c p : RT _) (fun _ => ins) (fun _ _ => True).
Proof. apply (raw_in_slot stmt_conn (fun c => set_stmt (Some c))). Qed.
Lemma raw_on_fresh_moves ins c p : moves (ident c :: ins) (raw_on_stmt c p : RT _) (fun _ => ins).
Proof. apply (raw_into_slot stmt_conn (fun c => set_stmt (Some c))). Qed.
Hint Resolve raw_on_fresh_moves : owns.

(** The transaction's connection, called once. *)
Lemma on_tx_moves {A} db (f : C -> RT (result bytes BackendResponse)) (g : result bytes BackendResponse -> RT A) :
  (forall c, owns (in_tx_slot (ident c)) [] (f c) (fun _ => []) (fun _ _ => True)) ->
  (forall r, moves [] (g r) (fun _ => [])) -> moves [] (c ← need_tx db; r ← f c; g r) (fun _ => []).
Proof. intros Hf Hg. eapply owns_bind; [apply need_tx_owns|]. intros c. eapply owns_bind; [apply Hf|]. intros r. apply Hg. Qed.
Lemma on_stmt_moves {A} db (f : C -> RT (result bytes BackendResponse)) (g : result bytes BackendResponse -> RT A) :
  (forall c, owns (in_stmt_slot (ident c)) [] (f c) (fun _ => []) (fun _ _ => True)) ->
  (forall r, moves [] (g r) (fun _ => [])) -> moves [] (c ← need_stmt db; r ← f c; g r) (fun _ => []).
Proof. intros Hf Hg. eapply owns_bind; [apply need_stmt_owns|]. intros c. eapply owns_bind; [apply Hf|]. intros r. apply Hg. Qed.

Lemma route_raw_moves p in_tx db : moves [] (route_raw_inner p in_tx db : RT _) (fun _ => []).
Proof.
  unfold route_raw_inner. destruct in_tx; [|moves_tac].
  apply on_tx_moves; [intros c; apply raw_on_tx_owns | intros r; apply lift_moves].
Qed.
Lemma route_fast_moves sql in_tx : moves [] (route_fast sql in_tx : RT _) (fun _ => []).
Proof.
  unfold route_fast, get_primary. destruct in_tx; [|moves_tac].
  eapply owns_bind; [apply need_tx_owns|]. intros c. apply (ask_in_slot tx_conn (fun c => set_tx (Some c))).
Qed.
Lemma route_sticky_query_moves sql : moves [] (route_sticky_query sql : RT _) (fun _ => []).
Proof.
  pose (st := fun (c : C) (e : EE) => set_sticky (Some c) (sticky_idx e) e).
  unfold route_sticky_query. apply owns_get. intros e _.
  eapply (owns_bind _ _ _ (fun _ => []) (fun c => in_slot (W := W) sticky_conn (ident c))); [|intros c; apply (ask_in_slot sticky_conn st)].
  destruct (sticky_conn e) as [c|] eqn:Et.
  - apply owns_ret; [done|]. intros e' ->. unfold in_slot. by rewrite Et.
  - eapply owns_bind; [apply moves_owns, on_backends_moves, get_replica_moves|]. intros ci.
    eapply (owns_bind _ _ _ (fun _ => []) (fun _ => in_slot (W := W) sticky_conn (ident (fst ci)))); [|intros []; by apply owns_ret].
    pose proof (store_hand sticky_conn st [] (fst ci)) as H. intros e1 H1. specialize (H e1 H1). exact H.
Qed.

(** A fresh connection takes the place of the statements' one. *)
Lemma set_fresh_owns ins c : owns (fun _ => True) (ident c :: ins) (upd_env (set_stmt (Some c)) : RT unit) (fun _ => ins)
  (fun _ => in_stmt_slot (ident c)).
Proof. apply (store_hand stmt_conn (fun c => set_stmt (Some c))). Qed.
Lemma forget_stmt_moves ins : moves ins (upd_env (set_stmt None) : RT unit) (fun _ => ins).
Proof. apply owns_modify. intros e _. split_and!; [done | done |]. intros i. cbn [holding holds_env]. unfold slot_ids.
  cbn [router tx_conn stmt_conn sticky_conn set_stmt]. rewrite !cnt_app. change (slot_id None) with (@nil nat). rewrite cnt_nil. lia. Qed.
Hint Resolve forget_stmt_moves : owns.

(** The statement runs again on a fresh connection. *)
Lemma again_moves {A} packet (g : result bytes BackendResponse -> RT A) : (forall r, moves [] (g r) (fun _ => [])) ->
  moves [] (c ← on_backends get_primary; upd_env (set_stmt (Some c)) ;; r ← raw_on_stmt c packet; g r) (fun _ => []).
Proof.
  intros Hg. eapply moves_bind; [apply on_backends_moves, get_primary_moves|]. intros c.
  eapply owns_bind; [apply set_fresh_owns|]. intros []. eapply owns_bind; [apply raw_on_stmt_owns|]. intros r. apply Hg.
Qed.
Lemma route_stmt_moves p in_tx : moves [] (route_stmt p in_tx : RT _) (fun _ => []).
Proof.
  unfold route_stmt. destruct in_tx.
  - apply on_tx_moves; [intros c; apply raw_on_tx_owns | intros r; apply lift_moves].
  - apply on_stmt_moves; [intros c; apply raw_on_stmt_owns|]. intros [x|err]; [by apply moves_ret|].
    destruct (is_connection_lost err); [|apply moves_fail]. destruct (bool_decide _); [|moves_tac].
    apply again_moves. intros r. apply lift_moves.
Qed.
Lemma route_stmt_pg_moves raw scan sh in_tx db : moves [] (route_stmt_pg_shadow_inner raw scan sh in_tx db : RT _) (fun _ => []).
Proof.
  unfold route_stmt_pg_shadow_inner. destruct in_tx.
  - apply on_tx_moves; [intros c; apply raw_on_tx_owns | intros r; apply lift_moves].
  - apply on_stmt_moves; [intros c; apply raw_on_stmt_owns|]. moves_tac.
Qed.

(** *** Statements of the MySQL protocol *)

Lemma on_active_moves in_tx p : moves [] (on_active in_tx p : RT _) (fun _ => []).
Proof.
  unfold on_active. apply owns_get. intros e _. destruct in_tx; [destruct (tx_conn e) as [c|] eqn:E | destruct (stmt_conn e) as [c|] eqn:E];
    try apply owns_fail; eapply owns_conseq; [apply raw_on_tx_owns | | done | apply raw_on_stmt_owns | | done];
    intros e' ->; unfold in_slot; by rewrite E.
Qed.
Lemma tell_active_moves in_tx p : moves [] (tell_active in_tx p : RT _) (fun _ => []).
Proof.
  unfold tell_active. apply owns_get. intros e _. destruct in_tx; [destruct (tx_conn e) as [c|] eqn:E | destruct (stmt_conn e) as [c|] eqn:E];
    try apply owns_fail; eapply owns_conseq;
      [apply (tell_in_slot tx_conn (fun c => set_tx (Some c))) | | done | apply (tell_in_slot stmt_conn (fun c => set_stmt (Some c))) | | done];
    intros e' ->; unfold in_slot; by rewrite E.
Qed.
Lemma register_moves raw r : moves [] (register_prepared raw r : RT _) (fun _ => []).
Proof.
  unfold register_prepared. destruct (My.mysql_parse_prepare_ok _) as [[[b k] n]|]; [|by apply moves_ret].
  apply moves_get. intros e. destruct (My.register _ _ _ _ _) as [pid sh].
  eapply moves_bind; [apply (set_shadow_moves [] (fun _ => sh))|]. intros []. by apply moves_ret.
Qed.
Hint Resolve on_active_moves tell_active_moves register_moves : owns.
Lemma shadow_prepare_moves raw in_tx : moves [] (shadow_prepare raw in_tx : RT _) (fun _ => []).
Proof.
  unfold shadow_prepare. eapply moves_bind; [apply on_active_moves|]. intros [x|err]; [apply register_moves|].
  destruct (is_connection_lost err && negb in_tx); [|apply moves_fail]. apply again_moves. intros r. moves_tac.
Qed.
Lemma reprepare_and_retry_moves raw pid bid : moves [] (reprepare_and_retry raw pid bid : RT _) (fun _ => []).
Proof.
  unfold reprepare_and_retry. eapply moves_bind; [apply on_backends_moves, get_primary_moves|]. intros c. apply moves_get. intros e.
  eapply moves_bind; [apply reprepare_all_moves|]. intros ci. eapply moves_bind; [apply set_shadow_moves|]. intros [].
  eapply owns_bind; [apply set_fresh_owns|]. intros []. apply owns_get. intros e2 H2.
  eapply owns_bind; [eapply owns_conseq; [apply raw_on_stmt_owns | by intros ? -> | done]|]. intros r. apply moves_owns, lift_moves.
Qed.
Lemma shadow_no_response_moves cmd pid p in_tx : moves [] (shadow_no_response cmd pid p in_tx : RT _) (fun _ => []).
Proof. unfold shadow_no_response. moves_tac. Qed.
Hint Resolve shadow_prepare_moves reprepare_and_retry_moves shadow_no_response_moves : owns.
Lemma shadow_command_moves cmd raw in_tx : moves [] (shadow_command cmd raw in_tx : RT _) (fun _ => []).
Proof. unfold shadow_command. moves_tac. Qed.
Hint Resolve shadow_command_moves : owns.
Lemma need_tx_moves ins db : moves ins (need_tx db : RT C) (fun _ => ins).
Proof. eapply owns_conseq; [apply need_tx_owns | done | done]. Qed.
Lemma need_stmt_moves ins db : moves ins (need_stmt db : RT C) (fun _ => ins).
Proof. eapply owns_conseq; [apply need_stmt_owns | done | done]. Qed.
Hint Resolve need_tx_moves need_stmt_moves : owns.
Lemma route_stmt_mysql_moves raw in_tx : moves [] (route_stmt_mysql_shadow raw in_tx : RT _) (fun _ => []).
Proof. unfold route_stmt_mysql_shadow. moves_tac. Qed.
End SlotRoutes.
#[export] Hint Resolve route_query_inner_moves route_raw_moves route_fast_moves route_sticky_query_moves route_stmt_moves
  route_stmt_pg_moves route_stmt_mysql_moves : owns.

(** ** Counting over any backends

    Identities and the two accounts can be added to whatever the backends do: so the laws ask
    nothing of the servers. *)

Record Counted (W : Type) := { under : W; count_opened : nat; count_spoken : list nat }.
Arguments under {W}.
Arguments count_opened {W}.
Arguments count_spoken {W}.

Section Counting.
Context {W C : Type} (IO : BackendIO W C).

Definition spoke (c : C * nat) (w' : W) (w : Counted W) : Counted W :=
  {| under := w'; count_opened := count_opened w; count_spoken := count_spoken w ++ [snd c] |}.
Definition counted_io : BackendIO (Counted W) (C * nat) := {|
  connect_backend cfg w :=
    match connect_backend cfg (under w) with
    | (Ok c, w') => (Ok (c, count_opened w), {| under := w'; count_opened := S (count_opened w); count_spoken := count_spoken w |})
    | (Err e, w') => (Err e, {| under := w'; count_opened := count_opened w; count_spoken := count_spoken w |})
    end;
  execute_query c sql w := let '(r, c', w') := execute_query (fst c) sql (under w) in (r, (c', snd c), spoke c w' w);
  send_raw c packet w := let '(r, c', w') := send_raw (fst c) packet (under w) in (r, (c', snd c), spoke c w' w);
  send_raw_no_response c packet w :=
    let '(r, c', w') := send_raw_no_response (fst c) packet (under w) in (r, (c', snd c), spoke c w' w);
  ping c w := let '(r, c', w') := ping (fst c) (under w) in (r, (c', snd c), spoke c w' w);
  in_transaction c := in_transaction (fst c);
  is_healthy c := is_healthy (fst c);
  backend_conn_id c := backend_conn_id (fst c);
  interrupted c sql ms w :=
    match interrupted (fst c) sql ms (under w) with Some (c', w') => Some ((c', snd c), spoke c w' w) | None => None end;
  now_ns w := now_ns (under w);
  unix_ms w := unix_ms (under w);
  draw w := draw (under w);
  info_log w := info_log (under w)
|}.

Definition counted_tracked : Tracked (Counted W) (C * nat) (IO := counted_io).
Proof.
  refine {| ident := snd; opened := count_opened; spoken_to := count_spoken |}; intros *; cbn [counted_io
    connect_backend execute_query send_raw send_raw_no_response ping interrupted].
  - destruct (connect_backend cfg (under w)) as [[c|e] w']; cbn; repeat split; lia.
  - by destruct (execute_query _ _ _) as [[r c'] w'].
  - by destruct (send_raw _ _ _) as [[r c'] w'].
  - by destruct (send_raw_no_response _ _ _) as [[r c'] w'].
  - by destruct (ping _ _) as [[r c'] w'].
  - destruct (interrupted _ _ _ _) as [[c2 w2]|]; [|done]. by intros [= <- <-].
Defined.
End Counting.
