(* ===== verification/PoolTasks.v ===== *)
(** * Many tasks on one pool (src/src/proxy/pool.rs)

    [ConnectionPool::get_for_database] and [put_for_database] as they interleave: every task
    gets and returns connections of one pool, and between two awaits of one task the others
    run.  Pool models each call as running alone; here a call is a machine whose steps end
    where the source awaits (the lock, the wait queue, the connection attempt, each statement
    of [init_connect]), and any task may take the next step, or be dropped where it stands.  A
    call that is not disturbed does what Pool says. *)

From S2P Require Import Prelude Bytes Config MysqlResponse CircuitBreaker Pool Ownership.

(** Where a task is.  [Asking] wants the lock of the idle connections; [Checking] looks at
    the limit; [Waiting] is in the wait queue since a moment; [Opening] connects; [Preparing]
    has [init_connect] statements left; [Holding] has got its connection; [Storing] gives it
    back and wants the lock; [Dropped] is no more: it lost its connection without giving it
    back, or was cancelled at an await (an early return when a statement fails, the time
    limit around one in [QueryRouter::execute_timed], a task aborted), while it held a
    connection that is counted, or while it was in the wait queue. *)
Inductive Task (C : Type) :=
| Asking (database : option bytes)
| Checking (database : option bytes) (key : bytes)
| Waiting (database : option bytes) (key : bytes) (since : Z)
| Opening (database : option bytes) (key : bytes)
| Preparing (database : option bytes) (c : C) (sqls : list bytes)
| Holding (database : option bytes) (c : C)
| Storing (database : option bytes) (c : C)
| Refused (message : bytes)
| Returned
| Dropped (held queued : bool).
Arguments Asking {C}.
Arguments Checking {C}.
Arguments Waiting {C}.
Arguments Opening {C}.
Arguments Preparing {C}.
Arguments Holding {C}.
Arguments Storing {C}.
Arguments Refused {C}.
Arguments Returned {C}.
Arguments Dropped {C}.

Definition on_queue (f : Z -> Z) (k : Counters) : Counters :=
  {| borrowed := borrowed k; connections_created := connections_created k;
     connections_reused := connections_reused k; connections_evicted := connections_evicted k;
     permits := permits k; wait_queue_length := f (wait_queue_length k); wait_timeouts_total := wait_timeouts_total k |}.

Section Steps.
Context {W C : Type} `{IO : !BackendIO W C}.
Local Abbreviation PW := (ConnectionPool C * W)%type.

Definition upd (f : Counters -> Counters) (s : PW) : PW := (set_counters (f (counters (fst s))) (fst s), snd s).

(** The critical section of a get. *)
Definition ask_step (database : option bytes) (s : PW) : Task C * PW :=
  let key := db_key (or_else database (cfg_database (config (fst s)))) in
  match take_idle key s with
  | (Ok (Some c), s') => (Holding database c, s')
  | (_, s') => (Checking database key, s')
  end.
Definition check_step (database : option bytes) (key : bytes) (s : PW) : Task C * PW :=
  let k := counters (fst s) in
  match max_connections (config (fst s)) with
  | Some max =>
      if max <=? borrowed k then
        match permits k with
        | Some _ => (Waiting database key (now_ns (snd s)), upd (on_queue (fun n => usize (n + 1))) s)
        | None => (Refused (limit_message (config (fst s)) max), s)
        end
      else (Opening database key, s)
  | None => (Opening database key, s)
  end.
(** A permit is looked for first, then the clock; without either the task sleeps on. *)
Definition wait_step (database : option bytes) (key : bytes) (since : Z) (s : PW) : option (Task C * PW) :=
  let p := fst s in
  let leave := on_queue (fun n => usize (n - 1)) in
  let n := default 0 (permits (counters p)) in
  if 0 <? n then Some (Opening database key, upd (fun k => set_permits (Some (n - 1)) (leave k)) s)
  else if wait_timeout_ms p * 10 ^ 6 <=? now_ns (snd s) - since then
    Some (Refused (timeout_message (config p) (default 0 (max_connections (config p))) (wait_timeout_ms p)),
          upd (fun k => count_timeout (leave k)) s)
  else None.
Definition open_step (database : option bytes) (key : bytes) (s : PW) : Task C * PW :=
  let connect_cfg := with_database (match key with [] => None | _ => Some key end) (config (fst s)) in
  match connect connect_cfg s with
  | (Ok c, s') => (Preparing database c (init_connect connect_cfg), s')
  | (Err e, s') => (Refused e, s')
  end.
Definition prepare_step (database : option bytes) (c : C) (sqls : list bytes) (s : PW) : Task C * PW :=
  match sqls with
  | [] => (Holding database c, upd count_created s)
  | sql :: sqls' =>
      let '(r, c', w') := execute_query c sql (snd s) in
      match r with
      | Ok _ => (Preparing database c' sqls', (fst s, w'))
      | Err e => (Refused (bs "init_connect failed: " ++ e), (fst s, w'))
      end
  end.
(** The count goes down, a waiter may go on, and an unclean connection is closed. *)
Definition return_step (database : option bytes) (c : C) (s : PW) : Task C * PW :=
  let s := upd (fun k =>
    let k := on_borrowed (fun b => usize (b - 1)) k in
    match permits k with Some n => set_permits (Some (n + 1)) k | None => k end) s in
  (if in_transaction c || negb (is_healthy c) then Returned else Storing database c, s).
Definition store_step (database : option bytes) (c : C) (s : PW) : Task C * PW :=
  let (p, w) := s in
  let key := db_key (or_else database (cfg_database (config p))) in
  let bucket := default [] (connections p !! key) in
  let bucket := if (length bucket <? max_size p)%nat then {| conn := c; idle_since := now_ns w |} :: bucket else bucket in
  (Returned, (set_connections (<[key := bucket]> (connections p)) p, w)).

(** The next step of a task; a holder's next step is to give back. *)
Definition task_step (t : Task C) (s : PW) : option (Task C * PW) :=
  match t with
  | Asking db => Some (ask_step db s)
  | Checking db key => Some (check_step db key s)
  | Waiting db key since => wait_step db key since s
  | Opening db key => Some (open_step db key s)
  | Preparing db c sqls => Some (prepare_step db c sqls s)
  | Holding db c => Some (return_step db c s)
  | Storing db c => Some (store_step db c s)
  | Refused _ | Returned | Dropped _ _ => None
  end.

(** ** All tasks *)

Record Tasks := { shared : PW; tasks : list (Task C) }.

(** A task that ends where it stands: its connection goes with it, and nothing is counted back
    (no [Drop] does it, for a connection or for a place in the wait queue). *)
Definition dropped (t : Task C) : Task C :=
  match t with
  | Refused _ | Returned | Dropped _ _ => t
  | Holding _ _ => Dropped true false
  | Waiting _ _ _ => Dropped false true
  | _ => Dropped false false
  end.

(** A task begins, takes its next step, uses the connection it holds, or is dropped; or time
    passes. *)
Inductive Move :=
| Begins (database : option bytes)
| Steps (i : nat)
| Uses (i : nat) (sql : bytes)
| Drops (i : nat)
| Passes (w : W).

Definition move (m : Move) (x : Tasks) : Tasks :=
  match m with
  | Begins db => {| shared := shared x; tasks := tasks x ++ [Asking db] |}
  | Steps i =>
      match tasks x !! i with
      | Some t =>
          match task_step t (shared x) with
          | Some (t', s') => {| shared := s'; tasks := <[i := t']> (tasks x) |}
          | None => x
          end
      | None => x
      end
  | Uses i sql =>
      match tasks x !! i with
      | Some (Holding db c) =>
          let '(_, c', w') := execute_query c sql (snd (shared x)) in
          {| shared := (fst (shared x), w'); tasks := <[i := Holding db c']> (tasks x) |}
      | _ => x
      end
  | Drops i => {| shared := shared x; tasks := alter dropped i (tasks x) |}
  | Passes w => {| shared := (fst (shared x), w); tasks := tasks x |}
  end.
Definition run (ms : list Move) (x : Tasks) : Tasks := foldl (fun x m => move m x) x ms.
Definition pool_new (p : ConnectionPool C) (w : W) : Tasks := {| shared := (p, w); tasks := [] |}.

Definition is_holding (t : Task C) : bool := match t with Holding _ _ => true | _ => false end.
Definition is_waiting (t : Task C) : bool := match t with Waiting _ _ _ => true | _ => false end.
(** The tasks that were dropped with a connection that was counted, or in the wait queue. *)
Definition lost_one (t : Task C) : bool := match t with Dropped true _ => true | _ => false end.
Definition left_queue (t : Task C) : bool := match t with Dropped _ true => true | _ => false end.
Definition number (f : Task C -> bool) (l : list (Task C)) : Z := Z.of_nat (length (List.filter f l)).
End Steps.

(** ** What every interleaving keeps *)

Section Invariants.
Context {W C : Type} `{IO : !BackendIO W C} `{TR : !Tracked W C}.
Local Abbreviation PW := (ConnectionPool C * W)%type.
Implicit Types (s : PW) (t : Task C) (x : Tasks (W := W) (C := C)).

Definition task_ids t : list nat :=
  match t with Preparing _ c _ | Holding _ c | Storing _ c => [ident c] | _ => [] end.
(** Every connection of the pool: idle, or with a task. *)
Definition all_ids x : list nat := idle_ids (fst (shared x)) ++ ids_in task_ids (tasks x).

(** One move.  While time passes others may open connections elsewhere. *)
Inductive task_move : Tasks (W := W) (C := C) -> Tasks -> Prop :=
| move_begins db x : task_move x (move (Begins db) x)
| move_steps i x : task_move x (move (Steps i) x)
| move_uses i sql x : task_move x (move (Uses i sql) x)
| move_drops i x : task_move x (move (Drops i) x)
| move_passes w x : (opened (snd (shared x)) <= opened w)%nat -> task_move x (move (Passes w) x).

Definition clean (c : C) : Prop := in_transaction c = false /\ is_healthy c = true.
Definition task_clean t : Prop := match t with Storing _ c => clean c | _ => True end.
Definition b2z (b : bool) : Z := if b then 1 else 0.
(** A counter that moves by [d]; it is not written when [d] is zero. *)
Definition moved (d a b : Z) : Prop := b = if d =? 0 then a else usize (a + d).

Lemma moved_same a : moved 0 a a.
Proof. done. Qed.
Lemma moved_usize d n a b : a = usize n -> moved d a b -> b = usize (n + d).
Proof.
  unfold moved. intros -> ->. destruct (d =? 0) eqn:E; bool_to_prop; [subst; f_equal; lia|].
  unfold usize. by rewrite wrap_add_l.
Qed.

(** The tasks the two counters count. *)
Definition on_count t : bool := is_holding t || lost_one t.
Definition in_queue t : bool := is_waiting t || left_queue t.

(** What one step does to the shared pool. *)
Definition step_ok t s t' s' : Prop :=
  evolves s (task_ids t) s' (task_ids t') /\
  (pool_wf (fst s) -> task_clean t -> pool_wf (fst s') /\ task_clean t') /\
  moved (b2z (on_count t') - b2z (on_count t)) (borrowed (counters (fst s))) (borrowed (counters (fst s'))) /\
  moved (b2z (in_queue t') - b2z (in_queue t)) (wait_queue_length (counters (fst s))) (wait_queue_length (counters (fst s'))).

Lemma take_idle_queue key s r s' : take_idle key s = (r, s') ->
  wait_queue_length (counters (fst s')) = wait_queue_length (counters (fst s)).
Proof.
  destruct s as [p w]. unfold take_idle. destruct (connections p !! key); [|by intros [= <- <-]].
  destruct (pop_fresh _ _ _) as [[o rest] n]. intros [= <- <-]. by destruct o.
Qed.
Lemma upd_evolves f s ins outs : (forall i, (cnt i outs <= cnt i ins)%nat) -> evolves s ins (upd f s) outs.
Proof. intros H. apply evolves_same; [done|]. intros i. specialize (H i). cbn [holding holds_pool upd fst]. unfold idle_ids. cbn [connections set_counters]. lia. Qed.

Lemma ask_ok db s : let '(t', s') := ask_step db s in step_ok (Asking db) s t' s'.
Proof.
  unfold ask_step. set (key := db_key _). pose proof (take_idle_moves [] key s I) as Hm. pose proof (take_idle_wf key s) as Hwf.
  destruct (take_idle_spec key s) as (r & p' & E & _ & _ & Hr). pose proof (take_idle_queue key s _ _ E) as Hq.
  rewrite E in *. destruct Hm as [Hm _]. rewrite app_nil_r in Hm. cbn [fst snd] in *.
  destruct r as [c|]; (split_and!; [exact Hm | by intros H _; split; [apply Hwf|] | | cbn; apply Hq]).
  - apply Hr.
  - cbn. apply Hr.
Qed.
Lemma check_ok db key s : let '(t', s') := check_step db key s in step_ok (Checking db key) s t' s'.
Proof.
  unfold check_step, step_ok. destruct (max_connections _) as [max|]; [destruct (max <=? _); [destruct (permits _)|]|];
    (split_and!; [by first [apply upd_evolves | apply evolves_same] | done..]).
Qed.
Lemma wait_ok db key since s t' s' : wait_step db key since s = Some (t', s') -> step_ok (Waiting db key since) s t' s'.
Proof.
  unfold wait_step, step_ok. destruct (0 <? _); [intros [= <- <-] | destruct (_ <=? _); [intros [= <- <-] | done]];
    (split_and!; [by apply upd_evolves | done..]).
Qed.
Lemma open_ok db key s : let '(t', s') := open_step db key s in step_ok (Opening db key) s t' s'.
Proof.
  unfold open_step, step_ok. set (cfg := with_database _ _). pose proof (connect_moves [] cfg s I) as Hm.
  assert (fst (snd (connect cfg s)) = fst s) as Hp by (unfold connect; by destruct (connect_backend _ _)).
  destruct (connect cfg s) as [[c|e] s']; cbn [fst snd] in Hp; rewrite Hp.
  - destruct Hm as [Hm _]. by split_and!.
  - by split_and!.
Qed.
Lemma prepare_ok db c sqls s : let '(t', s') := prepare_step db c sqls s in step_ok (Preparing db c sqls) s t' s'.
Proof.
  unfold prepare_step, step_ok. destruct sqls as [|sql sqls].
  - split_and!; [by apply upd_evolves | done..].
  - pose proof (execute_tracked c sql (snd s)) as H. destruct (execute_query c sql (snd s)) as [[r c'] w'].
    assert (evolves s [ident c] (fst s, w') [ident c']) as He.
    { rewrite (proj1 H). eapply call_evolves; [exact H | apply (in_hand c []) | done]. }
    destruct r; (split_and!; [|done..]); [exact He|]. eapply evolves_weak; [exact He | done|]. intros i. rewrite cnt_nil. lia.
Qed.
Lemma return_ok db c s : let '(t', s') := return_step db c s in step_ok (Holding db c) s t' s'.
Proof.
  unfold return_step, step_ok. destruct (in_transaction c || negb (is_healthy c)) eqn:E.
  - split_and!; [apply upd_evolves; count_tac | done | |]; cbn; by destruct (permits _).
  - apply orb_false_iff in E as [E1 E2]. apply negb_false_iff in E2.
    split_and!; [by apply upd_evolves | done | |]; cbn; by destruct (permits _).
Qed.
Lemma store_ok db c s : let '(t', s') := store_step db c s in step_ok (Storing db c) s t' s'.
Proof.
  destruct s as [p w]. unfold store_step, step_ok. set (key := db_key _). set (b := if (_ <? _)%nat then _ else _).
  split_and!; [| | done | done].
  - apply evolves_same; [done|]. intros i. cbn [holding holds_pool fst task_ids]. unfold idle_ids. cbn [connections set_connections].
    pose proof (cnt_map_insert bucket_ids (connections p) key b i) as Hm.
    assert (cnt i (bucket_ids b) <= cnt i [ident c] + cnt i (ids_opt bucket_ids (connections p !! key)))%nat as Hb.
    { unfold b, bucket_ids. destruct (_ <? _)%nat, (connections p !! key) as [l|]; cbn [default from_option id ids_opt map conn].
      1: rewrite (cnt_cons i (ident c)).
      all: lia. }
    rewrite cnt_nil. lia.
  - intros Hwf [Ht Hh]. split; [|done]. apply map_Forall_insert_2; [|exact Hwf]. cbn [max_size set_connections].
    assert (length (default [] (connections p !! key)) <= max_size p /\
      Forall (fun e => in_transaction (conn e) = false /\ is_healthy (conn e) = true) (default [] (connections p !! key)))%nat as [Hl Hf].
    { destruct (connections p !! key) as [l|] eqn:El; [exact (Hwf _ _ El) | split; [cbn; lia | constructor]]. }
    unfold b. destruct (_ <? _)%nat eqn:E; [apply Nat.ltb_lt in E; split; [cbn; lia | by constructor] | by split].
Qed.

Lemma task_step_ok t s t' s' : task_step t s = Some (t', s') -> step_ok t s t' s'.
Proof.
  destruct t as [db|db key|db key since|db key|db c sqls|db c|db c|m| |h q]; cbn [task_step]; try done.
  - intros E. apply (inj Some) in E. pose proof (ask_ok db s) as H. by rewrite E in H.
  - intros E. apply (inj Some) in E. pose proof (check_ok db key s) as H. by rewrite E in H.
  - apply wait_ok.
  - intros E. apply (inj Some) in E. pose proof (open_ok db key s) as H. by rewrite E in H.
  - intros E. apply (inj Some) in E. pose proof (prepare_ok db c sqls s) as H. by rewrite E in H.
  - intros E. apply (inj Some) in E. pose proof (return_ok db c s) as H. by rewrite E in H.
  - intros E. apply (inj Some) in E. pose proof (store_ok db c s) as H. by rewrite E in H.
Qed.

(** A task that is dropped changes nothing of the pool. *)
Lemma dropped_ok t s : step_ok t s (dropped t) s.
Proof.
  destruct t as [db|db key|db key since|db key|db c sqls|db c|db c|m| |h q]; cbn [dropped];
    (split_and!; [apply evolves_same; [done | count_tac] | done | first [done | by destruct h] | first [done | by destruct q]]).
Qed.
Lemma list_alter_insert {A} (f : A -> A) (i : nat) (l : list A) a : l !! i = Some a -> alter f i l = <[i := f a]> l.
Proof. intros Hi. rewrite list_insert_alter. apply list_alter_ext; [|done]. intros y Hy. by simplify_eq. Qed.
Lemma list_alter_none {A} (f : A -> A) (i : nat) (l : list A) : l !! i = None -> alter f i l = l.
Proof. intros Hi. rewrite (list_alter_ext f id l l i); [by apply list_alter_id | intros y Hy; by simplify_eq | done]. Qed.

Lemma number_insert (f : Task C -> bool) l i t t' : l !! i = Some t ->
  number f (<[i := t']> l) = number f l - b2z (f t) + b2z (f t').
Proof.
  unfold number. revert i. induction l as [|y l IH]; intros [|i] Hi; try done.
  - injection Hi as ->. cbn. destruct (f t), (f t'); cbn [length b2z]; lia.
  - change (<[S i := t']> (y :: l)) with (y :: <[i := t']> l). cbn [List.filter]. specialize (IH i Hi).
    destruct (f y); cbn [length]; lia.
Qed.
Lemma number_snoc (f : Task C -> bool) l t : number f (l ++ [t]) = number f l + b2z (f t).
Proof. unfold number. rewrite List.filter_app, length_app. cbn. destruct (f t); cbn; lia. Qed.

Lemma number_or (f g : Task C -> bool) l : (forall t, f t && g t = false) ->
  number (fun t => f t || g t) l = number f l + number g l.
Proof.
  intros H. unfold number. induction l as [|y l IH]; [done|]. cbn [List.filter]. specialize (H y).
  destruct (f y), (g y); cbn [orb length]; done || lia.
Qed.

(** The counters are exact but for the tasks that were dropped: what these held stays counted. *)
Definition counted x : Prop :=
  borrowed (counters (fst (shared x))) = usize (number is_holding (tasks x) + number lost_one (tasks x)) /\
  wait_queue_length (counters (fst (shared x))) = usize (number is_waiting (tasks x) + number left_queue (tasks x)).
Definition kept_count x : Prop :=
  borrowed (counters (fst (shared x))) = usize (number on_count (tasks x)) /\
  wait_queue_length (counters (fst (shared x))) = usize (number in_queue (tasks x)).
Lemma counted_iff x : counted x <-> kept_count x.
Proof.
  unfold counted, kept_count, on_count, in_queue. by rewrite !number_or by (by intros []).
Qed.
Definition placed x : Prop :=
  forall i, (cnt i (all_ids x) <= 1)%nat /\ (0 < cnt i (all_ids x) -> i < opened (snd (shared x)))%nat.
Definition tasks_inv x : Prop := kept_count x /\ placed x /\ pool_wf (fst (shared x)) /\ Forall task_clean (tasks x).

(** Whatever one task did, with its part of the account. *)
Lemma task_changed x i t t' s' : tasks x !! i = Some t -> tasks_inv x -> step_ok t (shared x) t' s' ->
  tasks_inv {| shared := s'; tasks := <[i := t']> (tasks x) |}.
Proof.
  intros Hi ((Hb & Hq) & Hp & Hwf & Hc) (He & Hw & Mb & Mq).
  destruct (Hw Hwf (Forall_lookup_1 _ _ _ _ Hc Hi)) as [Hwf' Ht']. split_and!; [split| |exact Hwf'|by apply Forall_insert].
  - cbn [shared tasks]. rewrite (moved_usize _ _ _ _ Hb Mb). rewrite (number_insert _ _ _ _ _ Hi). f_equal. lia.
  - cbn [shared tasks]. rewrite (moved_usize _ _ _ _ Hq Mq). rewrite (number_insert _ _ _ _ _ Hi). f_equal. lia.
  - intros n. destruct He as (Ho & Hn & _). specialize (Hn n). cbn [holding in_world holds_pool] in Hn, Ho. destruct (Hp n) as [P1 P2].
    unfold all_ids in *. cbn [shared tasks]. rewrite !cnt_app in *.
    pose proof (cnt_ids_insert task_ids (tasks x) i t' n (lookup_lt_Some _ _ _ Hi)) as Hx. rewrite Hi in Hx. cbn [ids_opt] in Hx.
    destruct (fresh_cases (opened (snd (shared x))) (opened (snd s')) n) as [[F ?]|[F ?]]; rewrite F in Hn; lia.
Qed.

Lemma tasks_inv_move x x' : task_move x x' -> tasks_inv x -> tasks_inv x'.
Proof.
  intros [db y|i y|i sql y|i y|w y Hw] Hinv; cbn [move].
  - destruct Hinv as ((Hb & Hq) & Hp & Hwf & Hc). split_and!; [split| |done|].
    + cbn [shared tasks]. rewrite number_snoc, Hb. cbn. f_equal. lia.
    + cbn [shared tasks]. rewrite number_snoc, Hq. cbn. f_equal. lia.
    + intros n. specialize (Hp n). unfold all_ids in *. cbn [shared tasks]. rewrite !cnt_app, cnt_ids_snoc in *. cbn [task_ids].
      rewrite cnt_nil. lia.
    + apply Forall_app. by repeat constructor.
  - destruct (tasks y !! i) as [t|] eqn:Ei; [|done]. destruct (task_step t (shared y)) as [[t' s']|] eqn:Es; [|done].
    apply (task_changed _ _ _ _ _ Ei Hinv), task_step_ok, Es.
  - destruct (tasks y !! i) as [[db|db key|db key since|db key|db c sqls|db c|db c|m| |h q]|] eqn:Ei; try done.
    pose proof (execute_tracked c sql (snd (shared y))) as H. destruct (execute_query _ _ _) as [[r c'] w'].
    apply (task_changed _ _ _ _ _ Ei Hinv). split_and!; [| done | apply moved_same | apply moved_same].
    cbn [task_ids]. rewrite (proj1 H). eapply call_evolves; [exact H | apply (in_hand c []) | done].
  - destruct (tasks y !! i) as [t|] eqn:Ei.
    + replace (alter dropped i (tasks y)) with (<[i := dropped t]> (tasks y)) by (by rewrite (list_alter_insert _ _ _ _ Ei)).
      apply (task_changed _ _ _ _ _ Ei Hinv), dropped_ok.
    + rewrite (list_alter_none _ _ _ Ei). by destruct y.
  - destruct Hinv as (? & Hp & ? & ?). split_and!; try done. intros n. destruct (Hp n) as [P1 P2].
    split; [exact P1|]. intros Hn. specialize (P2 Hn). cbn [shared snd]. lia.
Qed.

(** C11: However the tasks that use one pool interleave, at every moment: each connection is in
    one place, idle or with one task; the number of borrowed connections is the number of
    tasks that hold one and of tasks that ended with one in hand and did not give it back;
    the gauge of the wait queue is the number of tasks that are in it or were cancelled in
    it (what these held is never counted back); and the idle connections are healthy, outside
    a transaction and at most the size of the pool in each bucket. *)
Theorem interleaved_tasks_accounted cfg size idle q wait w x :
  steps task_move (pool_new (with_wait_queue cfg size idle q wait) w) x ->
  NoDup (all_ids x) /\ counted x /\ pool_wf (fst (shared x)).
Proof.
  intros Hs. assert (tasks_inv x) as (Hc & Hp & Hwf & _).
  { apply (steps_invariant task_move tasks_inv (fun a b Ha Hab => tasks_inv_move a b Hab Ha) _ _ Hs).
    split_and!; [split; done| | apply with_wait_queue_wf | constructor].
    intros n. change (all_ids _) with (@nil nat). rewrite cnt_nil. lia. }
  split_and!; [|by apply counted_iff|done]. apply cnt_NoDup. intros n. apply Hp.
Qed.
End Invariants.

(** ** A call that is not disturbed *)

Section Alone.
Context {W C : Type} `{IO : !BackendIO W C}.
Local Abbreviation PW := (ConnectionPool C * W)%type.
Implicit Types (s : PW) (t : Task C).

(** A task takes its steps with no other in between, until it has its connection, or ends, or
    sleeps. *)
Definition at_rest t : bool := match t with Holding _ _ | Refused _ | Returned | Dropped _ _ => true | _ => false end.
Fixpoint alone (fuel : nat) t s : option (Task C * PW) :=
  if at_rest t then Some (t, s)
  else match fuel with
       | O => None
       | S fuel => match task_step t s with Some (t', s') => alone fuel t' s' | None => None end
       end.

(** As many steps as a get can take. *)
Definition get_fuel s : nat := 5 + length (init_connect (config (fst s))).

Lemma alone_step fuel t s : at_rest t = false ->
  alone (S fuel) t s = match task_step t s with Some (t', s') => alone fuel t' s' | None => None end.
Proof. intros H. cbn [alone]. by rewrite H. Qed.
Lemma alone_rest fuel t s : at_rest t = true -> alone fuel t s = Some (t, s).
Proof. intros H. destruct fuel; cbn [alone]; by rewrite H. Qed.

(** What a get that returned [r] is as a task. *)
Definition outcome (database : option bytes) (r : result bytes C) : Task C :=
  match r with Ok c => Holding database c | Err e => Refused e end.

Lemma alone_prepares db c sqls s fuel : (length sqls < fuel)%nat ->
  alone fuel (Preparing db c sqls) s =
  (let (r, s') := (c ← run_init sqls c; upd_counters count_created ;; mret c : P C) s in Some (outcome db r, s')).
Proof.
  revert c s fuel. induction sqls as [|sql sqls IH]; intros c s fuel Hf; (destruct fuel as [|fuel]; [cbn in Hf; lia|]);
    (rewrite alone_step by done); cbn [task_step prepare_step].
  - rewrite alone_rest by done. by destruct s.
  - cbn [run_init]. unfold mbind, se_bind, query. destruct (execute_query c sql (snd s)) as [[[b|e] c'] w'].
    + rewrite IH by (cbn in Hf; lia). done.
    + by rewrite alone_rest.
Qed.
Lemma alone_opens db key s fuel : (length (init_connect (config (fst s))) + 1 < fuel)%nat ->
  let cfg := with_database (match key with [] => None | _ => Some key end) (config (fst s)) in
  alone fuel (Opening db key) s =
  (let (r, s') := (c ← connect cfg; c ← run_init (init_connect cfg) c; upd_counters count_created ;; mret c : P C) s in
   Some (outcome db r, s')).
Proof.
  intros Hf cfg. destruct fuel as [|fuel]; [lia|]. rewrite alone_step by done. cbn [task_step]. unfold open_step. fold cfg.
  unfold mbind at 1, se_bind at 1. destruct (connect cfg s) as [[c|e] s']; [|by rewrite alone_rest].
  rewrite alone_prepares by (change (init_connect cfg) with (init_connect (config (fst s))); lia). done.
Qed.

Lemma queue_round_trip n k : in_width 64 (wait_queue_length k) ->
  set_permits (Some n) (on_queue (fun n => usize (n - 1)) (on_queue (fun n => usize (n + 1)) k)) = set_permits (Some n) k.
Proof.
  intros H. unfold set_permits, on_queue. cbn. f_equal. unfold usize.
  replace (wrap 64 (wait_queue_length k + 1) - 1) with (wrap 64 (wait_queue_length k + 1) + -1) by lia.
  rewrite wrap_add_l. replace (wait_queue_length k + 1 + -1) with (wait_queue_length k) by lia. by apply wrap_small.
Qed.

(** From the look at the limit on. *)
Lemma alone_checks db key s fuel : in_width 64 (wait_queue_length (counters (fst s))) ->
  match permits (counters (fst s)) with Some n => 0 < n | None => True end ->
  (length (init_connect (config (fst s))) + 3 < fuel)%nat ->
  let cfg := with_database (match key with [] => None | _ => Some key end) (config (fst s)) in
  alone fuel (Checking db key) s =
  (let (r, s') := (enforce_limit ;; c ← connect cfg; c ← run_init (init_connect cfg) c; upd_counters count_created ;; mret c : P C) s in
   Some (outcome db r, s')).
Proof.
  intros Hq Hp Hf cfg. destruct fuel as [|[|fuel]]; [lia..|]. rewrite alone_step by done. cbn [task_step]. unfold check_step.
  unfold mbind at 1, se_bind at 1, enforce_limit. unfold mbind at 1, se_bind at 1, se_get. cbv zeta.
  destruct (max_connections (config (fst s))) as [max|].
  2: { rewrite (alone_opens db key s (S fuel)) by lia. by destruct s. }
  destruct (max <=? borrowed (counters (fst s))).
  2: { rewrite (alone_opens db key s (S fuel)) by lia. by destruct s. }
  destruct (permits (counters (fst s))) as [n|] eqn:En; [|by rewrite alone_rest].
  rewrite (proj2 (Z.ltb_lt _ _) Hp). rewrite alone_step by done. cbn [task_step]. unfold wait_step, upd. cbn [fst snd counters set_counters on_queue permits].
  rewrite En. cbn [default from_option id]. rewrite (proj2 (Z.ltb_lt _ _) Hp).
  rewrite (queue_round_trip (n - 1) _ Hq).
  rewrite alone_opens by (cbn [fst config set_counters]; lia). done.
Qed.

(** A get that no other task disturbs ends, unless it has to sleep in the wait queue, and
    gives what [get_for_database] gives, and leaves the pool and the world as it does. *)
Theorem undisturbed_get_refines db s : in_width 64 (wait_queue_length (counters (fst s))) ->
  match permits (counters (fst s)) with Some n => 0 < n | None => True end ->
  alone (get_fuel s) (Asking db) s = (let (r, s') := get_for_database db s in Some (outcome db r, s')).
Proof.
  intros Hq Hp. unfold get_fuel. cbn [plus]. rewrite alone_step by done. cbn [task_step]. unfold ask_step, get_for_database.
  unfold mbind at 1, se_bind at 1, se_get. cbv beta iota zeta. set (key := db_key _). unfold mbind at 1, se_bind at 1.
  destruct (take_idle_spec key s) as (r & p' & E & (Hc & _) & Hperm & _).
  assert (wait_queue_length (counters p') = wait_queue_length (counters (fst s))) as Hw by (by apply (take_idle_queue key s _ _ E)).
  rewrite E. destruct r as [c|]; [by rewrite alone_rest|].
  rewrite alone_checks; cbn [fst]; [by rewrite Hc | by rewrite Hw | by rewrite Hperm | rewrite Hc; lia].
Qed.

(** A return that no other task disturbs does what [put_for_database] does. *)
Theorem undisturbed_put_refines db c s :
  match task_step (Holding db c) s with
  | Some (Returned, s1) => put_for_database c db s = (Ok tt, s1)
  | Some (t1, s1) => task_step t1 s1 = Some (Returned, snd (put_for_database c db s)) /\ fst (put_for_database c db s) = Ok tt
  | None => False
  end.
Proof.
  destruct s as [p w]. cbn [task_step]. unfold return_step, put_for_database. cbn [fst snd upd].
  destruct (in_transaction c || negb (is_healthy c)); [reflexivity | split; reflexivity].
Qed.

(** ** No task is stuck *)

(** The steps a task has left before it holds a connection or ends. *)
Definition steps_left (cfg : BackendConfig) t : nat :=
  match t with
  | Asking _ => 5 + length (init_connect cfg)
  | Checking _ _ => 4 + length (init_connect cfg)
  | Waiting _ _ _ => 3 + length (init_connect cfg)
  | Opening _ _ => 2 + length (init_connect cfg)
  | Preparing _ _ sqls => 1 + length sqls
  | Storing _ _ => 1
  | _ => 0
  end.

(** C13: Each step of a task brings it nearer to its end, whatever the others have done to the
    pool meanwhile; and a task that has neither ended nor its connection can take one, unless
    it is in the wait queue, there is no permit, and its time is not over. *)
Theorem no_task_is_stuck t s : at_rest t = false ->
  match task_step t s with
  | Some (t', s') => (steps_left (config (fst s)) t' < steps_left (config (fst s)) t)%nat /\ config (fst s') = config (fst s)
  | None => exists db key since, t = Waiting db key since /\ default 0 (permits (counters (fst s))) <= 0 /\
      now_ns (snd s) - since < wait_timeout_ms (fst s) * 10 ^ 6
  end.
Proof.
  destruct t as [db|db key|db key since|db key|db c sqls|db c|db c|m| |h q]; cbn [at_rest task_step]; try done; intros _.
  - unfold ask_step. set (key := db_key _). destruct (take_idle_spec key s) as (r & p' & E & (Hc & _) & _). rewrite E.
    destruct r; cbn [steps_left fst]; (split; [lia | done]).
  - unfold check_step. destruct (max_connections _); [destruct (_ <=? _); [destruct (permits _)|]|]; cbn [steps_left]; (split; [lia | done]).
  - unfold wait_step. destruct (0 <? _) eqn:E1; bool_to_prop; [cbn [steps_left]; split; [lia | done]|].
    destruct (_ <=? _) eqn:E2; bool_to_prop; [cbn [steps_left]; split; [lia | done]|]. exists db, key, since. split_and!; [done | lia | lia].
  - unfold open_step. set (cfg := with_database _ _). unfold connect. destruct (connect_backend cfg (snd s)) as [[c|e] w];
      cbn [steps_left fst snd]; (split; [|done]); [change (init_connect cfg) with (init_connect (config (fst s)))|]; lia.
  - unfold prepare_step. destruct sqls as [|sql sqls]; [cbn; split; [lia | done]|]. destruct (execute_query _ _ _) as [[[b|e] c'] w'];
      cbn [steps_left length]; (split; [lia | done]).
  - unfold store_step. destruct s as [p w]. cbn. split; [lia | done].
Qed.
End Alone.

(** ** Concrete schedules *)

Section Schedules.
#[local] Instance counted_test : BackendIO (Counted TestWorld) (TestConn * nat) := counted_io test_io.
#[local] Instance tracked_test : Tracked (Counted TestWorld) (TestConn * nat) := counted_tracked test_io.
Local Abbreviation TT := (Tasks (W := Counted TestWorld) (C := TestConn * nat)).

Definition timeless {W} (m : Move (W := W)) : bool := match m with Passes _ => false | _ => true end.
Lemma run_reachable ms (x : TT) : forallb timeless ms = true -> steps task_move x (run ms x).
Proof.
  revert x. induction ms as [|m ms IH]; intros x H; [apply steps_refl|]. cbn [forallb] in H. apply andb_true_iff in H as [Hm H].
  eapply steps_next; [|by apply IH]. destruct m; [apply move_begins | apply move_steps | apply move_uses | apply move_drops | done].
Qed.

Definition limited (queue : Z) : TT :=
  pool_new (with_wait_queue (test_config "p:3306" 1 false (Some 1)) 4 None queue 5000)
    {| under := test_world; count_opened := 0; count_spoken := [] |}.
Definition some_db (k : nat) : option bytes := Some (bs "db" ++ show_u64 (Z.of_nat k)).
(** Task [i] takes [k] steps; the tasks one after the other, each with all its steps. *)
Definition goes (i k : nat) : list (Move (W := Counted TestWorld)) := repeat (Steps i) k.

(** The first task opens a connection and returns it while the second looks; the third takes
    it again and is dropped with it, and the fourth meets a limit that nobody holds. *)
Definition four_tasks : list (Move (W := Counted TestWorld)) :=
  [Begins None; Begins None] ++ goes 0 2 ++ goes 1 1 ++ goes 0 2 ++ [Uses 0 (bs "SELECT 1")] ++ goes 1 1 ++ goes 0 2 ++
  [Begins None] ++ goes 2 1 ++ [Drops 2; Begins None] ++ goes 3 2.
Lemma interleaved_tasks_accounted_witness :
  let x := run four_tasks (limited 0) in
  let full := Refused (limit_message (test_config "p:3306" 1 false (Some 1)) 1) in
  NoDup (all_ids x) /\ counted x /\ all_ids x = [] /\ borrowed (counters (fst (shared x))) = 1 /\
  tasks x = [Returned; full; Dropped true false; full].
Proof.
  destruct (interleaved_tasks_accounted (test_config "p:3306" 1 false (Some 1)) 4 None 0 5000
    {| under := test_world; count_opened := 0; count_spoken := [] |} (run four_tasks (limited 0))
    (run_reachable four_tasks (limited 0) eq_refl)) as (H1 & H2 & _).
  cbv zeta. split_and!; [exact H1 | exact H2 | vm_compute; reflexivity..].
Defined.

Lemma undisturbed_get_refines_witness :
  alone (get_fuel (shared (limited 2))) (Asking None) (shared (limited 2))
  = Some (outcome None (fst (get_for_database None (shared (limited 2)))), snd (get_for_database None (shared (limited 2)))) /\
  exists c, fst (get_for_database None (shared (limited 2))) = Ok c.
Proof.
  split; [|by eexists]. rewrite (undisturbed_get_refines None (shared (limited 2))); [by destruct (get_for_database _ _) | done | done].
Defined.
Lemma no_task_is_stuck_witness :
  (steps_left (config (fst (shared (limited 0)))) (fst (open_step None [] (shared (limited 0)))) < 2)%nat.
Proof. exact (proj1 (no_task_is_stuck (Opening None []) (shared (limited 0)) eq_refl)). Defined.

(** The limit is one connection, and three are open: the count goes up only after the
    connection was made, so tasks that look at it meanwhile are let through. *)
Example limit_is_raced :
  let x := run ([Begins None; Begins None; Begins None] ++ concat (map (fun i => goes i 2) [0; 1; 2]%nat)
                ++ concat (map (fun i => goes i 2) [0; 1; 2]%nat)) (limited 0) in
  number is_holding (tasks x) = 3 /\ borrowed (counters (fst (shared x))) = 3 /\
  max_connections (config (fst (shared x))) = Some 1.
Proof. vm_compute. by split_and!. Qed.

(** One task at a time, each returning its connection before the next begins: idle
    connections are not counted, so the server has one for every database that was used. *)
Example limit_ignores_idle :
  let x := run (concat (map (fun i => Begins (some_db i) :: goes i 6) [0; 1; 2]%nat)) (limited 0) in
  tasks x = [Returned; Returned; Returned] /\ length (idle_ids (fst (shared x))) = 3%nat.
Proof. vm_compute. by split_and!. Qed.

(** With a wait queue of two, the second and the third task do not wait until the first
    gives its connection back: the permits are there from the start. *)
Example wait_queue_waits_for_nothing :
  let x := run ([Begins None; Begins None; Begins None] ++ goes 0 4 ++ goes 1 5 ++ goes 2 5) (limited 2) in
  number is_holding (tasks x) = 3 /\ now_ns (snd (shared x)) = now_ns (snd (shared (limited 2))).
Proof. vm_compute. by split_and!. Qed.

(** And every connection that is given back adds a permit, waited for or not: after a
    hundred undisturbed uses the limit of one lets a hundred and two tasks past. *)
Example permits_pile_up :
  let x := run (concat (map (fun i => Begins None :: goes i 6) (seq 0 100))) (limited 2) in
  permits (counters (fst (shared x))) = Some 102 /\ borrowed (counters (fst (shared x))) = 0.
Proof. vm_compute. by split_and!. Qed.
End Schedules.
