(* ===== verification/UserRegistry.v ===== *)
(** * Per-user counters (src/src/proxy/user_registry.rs)

    Who is connected, and since when: the registry that every session reports to, and
    the calendar its time stamps are printed with.  Counters are plain additions of
    [usize]; a time is the number of seconds since the epoch. *)

From S2P Require Import Prelude Bytes.

Record MutableStats := {
  connections_active : Z;
  connections_total : Z;
  queries_total : Z;
  last_seen : option Z;
  us_allow_writes : bool
}.

Abbreviation UserRegistry := (gmap bytes MutableStats).
Definition registry_new : UserRegistry := ∅.

Definition fresh_stats (aw : bool) : MutableStats :=
  {| connections_active := 0; connections_total := 0; queries_total := 0; last_seen := None; us_allow_writes := aw |}.

Definition on_connect (user : bytes) (aw : bool) (now : Z) (m : UserRegistry) : UserRegistry :=
  let e := default (fresh_stats aw) (m !! user) in
  <[user := {| connections_active := usize (connections_active e + 1);
               connections_total := usize (connections_total e + 1);
               queries_total := queries_total e; last_seen := Some now; us_allow_writes := aw |}]> m.

Definition on_disconnect (user : bytes) (m : UserRegistry) : UserRegistry :=
  alter (fun e => {| connections_active := sat_sub (connections_active e) 1;
                     connections_total := connections_total e; queries_total := queries_total e;
                     last_seen := last_seen e; us_allow_writes := us_allow_writes e |}) user m.

Definition on_query (user : bytes) (m : UserRegistry) : UserRegistry :=
  alter (fun e => {| connections_active := connections_active e; connections_total := connections_total e;
                     queries_total := usize (queries_total e + 1);
                     last_seen := last_seen e; us_allow_writes := us_allow_writes e |}) user m.

Definition active_connections (user : bytes) (m : UserRegistry) : Z :=
  match m !! user with Some e => connections_active e | None => 0 end.

(** ** The calendar *)

Definition is_leap (y : Z) : bool :=
  ((y mod 4 =? 0) && negb (y mod 100 =? 0)) || (y mod 400 =? 0).
Definition year_days (y : Z) : Z := if is_leap y then 366 else 365.

(** The loop over the years; a year takes at least 365 days. *)
Fixpoint find_year (fuel : nat) (y days : Z) : Z * Z :=
  match fuel with
  | O => (y, days)
  | S fuel' => if days <? year_days y then (y, days) else find_year fuel' (y + 1) (days - year_days y)
  end.

Definition months (leap : bool) : list Z := [31; if leap then 29 else 28; 31; 30; 31; 30; 31; 31; 30; 31; 30; 31].

Fixpoint find_month (ms : list Z) (mo days : Z) : Z * Z :=
  match ms with
  | [] => (mo, days)
  | n :: ms' => if days <? n then (mo, days) else find_month ms' (mo + 1) (days - n)
  end.

Definition days_to_ymd (days : Z) : Z * Z * Z :=
  let (y, d) := find_year (S (Z.to_nat (days / 365))) 1970 days in
  let (mo, d) := find_month (months (is_leap y)) 1 d in
  (y, mo, d + 1).

(** [{:0w}]. *)
Definition pad (w : nat) (n : Z) : bytes :=
  let s := show_u64 n in repeat 48 (w - length s) ++ s.

Definition fmt_epoch (secs : Z) : bytes :=
  let days := secs / 86400 in
  let day_s := secs mod 86400 in
  let '(y, mo, d) := days_to_ymd days in
  pad 4 y ++ [45] ++ pad 2 mo ++ [45] ++ pad 2 d ++ [84]
  ++ pad 2 (day_s / 3600) ++ [58] ++ pad 2 (day_s mod 3600 / 60) ++ [58] ++ pad 2 (day_s mod 60) ++ [90].

Record UserStats := {
  st_active : Z; st_total : Z; st_queries : Z; st_last_seen : option bytes; st_allow_writes : bool
}.
Definition user_stats (e : MutableStats) : UserStats :=
  {| st_active := connections_active e; st_total := connections_total e; st_queries := queries_total e;
     st_last_seen := fmt_epoch <$> last_seen e; st_allow_writes := us_allow_writes e |}.
Definition snapshot `{!MapOrder bytes MutableStats} (m : UserRegistry) : list (bytes * UserStats) :=
  map (fun kv => (fst kv, user_stats (snd kv))) (iter m).

(** ** The calendar is right *)

(** The day number of a date, by counting the days before it. *)
Fixpoint days_before (n : nat) : Z :=
  match n with O => 0 | S n' => days_before n' + year_days (1970 + Z.of_nat n') end.
Fixpoint month_days (ms : list Z) (n : nat) : Z :=
  match n, ms with S n', m :: ms' => m + month_days ms' n' | _, _ => 0 end.
Definition day_number (y mo d : Z) : Z :=
  days_before (Z.to_nat (y - 1970)) + month_days (months (is_leap y)) (Z.to_nat (mo - 1)) + (d - 1).

Lemma year_days_bounds y : 365 <= year_days y <= 366.
Proof. unfold year_days. destruct (is_leap y); lia. Qed.

Lemma days_before_succ n : days_before (S n) = days_before n + year_days (1970 + Z.of_nat n).
Proof. done. Qed.

Lemma days_before_nonneg n : 365 * Z.of_nat n <= days_before n.
Proof.
  induction n as [|n IH]; [done|]. rewrite days_before_succ. pose proof (year_days_bounds (1970 + Z.of_nat n)). lia.
Qed.

Lemma find_year_spec n k days fuel :
  0 <= days < year_days (1970 + Z.of_nat (k + n)) -> (n < fuel)%nat ->
  find_year fuel (1970 + Z.of_nat k) (days_before (k + n) - days_before k + days) = (1970 + Z.of_nat (k + n), days).
Proof.
  revert k fuel. induction n as [|n IH]; intros k [|fuel] Hd Hf; try lia; cbn [find_year].
  - rewrite Nat.add_0_r in *. replace (days_before k - days_before k + days) with days by lia.
    by rewrite (proj2 (Z.ltb_lt _ _)) by lia.
  - assert (forall m, days_before (S k) <= days_before (S k + m)) as Hmono.
    { induction m as [|m IHm]; [rewrite Nat.add_0_r; lia|]. rewrite Nat.add_succ_r, (days_before_succ (S k + m)).
      pose proof (year_days_bounds (1970 + Z.of_nat (S k + m))). lia. }
    specialize (Hmono n). rewrite Nat.add_succ_r in *. cbn [Nat.add] in Hmono. rewrite days_before_succ in Hmono.
    rewrite (proj2 (Z.ltb_ge _ _)) by lia. specialize (IH (S k) fuel). cbn [Nat.add] in IH.
    replace (1970 + Z.of_nat k + 1) with (1970 + Z.of_nat (S k)) by lia.
    rewrite <- IH by lia. f_equal. rewrite (days_before_succ k). lia.
Qed.

Lemma find_month_spec ms n days mo :
  (exists m, ms !! n = Some m /\ 0 <= days < m) -> Forall (fun m => 0 < m) ms ->
  find_month ms mo (month_days ms n + days) = (mo + Z.of_nat n, days).
Proof.
  revert n mo. induction ms as [|m ms IH]; intros n mo (x & Hx & Hd) Hp; [done|].
  inversion Hp as [|? ? Hm Hp']; subst. destruct n as [|n]; cbn [find_month month_days].
  - injection Hx as ->. rewrite (proj2 (Z.ltb_lt _ _)) by lia. f_equal; lia.
  - assert (0 <= month_days ms n) as H0.
    { clear - Hp'. revert n. induction Hp' as [|y l Hy Hl IH]; intros [|n]; cbn; [done..|]. specialize (IH n). lia. }
    rewrite (proj2 (Z.ltb_ge _ _)) by lia. replace (m + month_days ms n + days - m) with (month_days ms n + days) by lia.
    rewrite IH by (done || by exists x). f_equal; lia.
Qed.

(** Dates are printed right: the date computed for the day that is the number of
    days between the first of January 1970 and a date is that date, leap years and
    centuries included, and the loops have fuel enough for every day. *)
Theorem days_to_ymd_correct y mo d m :
  1970 <= y -> 1 <= mo -> months (is_leap y) !! Z.to_nat (mo - 1) = Some m -> 1 <= d <= m ->
  days_to_ymd (day_number y mo d) = (y, mo, d).
Proof.
  intros Hy Hmo Hm Hd. unfold days_to_ymd, day_number. set (n := Z.to_nat (y - 1970)).
  set (k := Z.to_nat (mo - 1)). set (inner := month_days (months (is_leap y)) k + (d - 1)).
  assert (0 <= inner < year_days y) as Hin.
  { assert (k < 12)%nat as Hk by (apply lookup_lt_Some in Hm; destruct (is_leap y); exact Hm).
    unfold inner, year_days. fold k in Hm. clearbody k. clear - Hd Hm Hk.
    assert (forall j, (j < 12)%nat -> j = 0 \/ j = 1 \/ j = 2 \/ j = 3 \/ j = 4 \/ j = 5 \/ j = 6 \/ j = 7 \/ j = 8 \/ j = 9 \/ j = 10 \/ j = 11)%nat as Hc by lia.
    destruct (Hc k Hk) as [->|[->|[->|[->|[->|[->|[->|[->|[->|[->|[->| ->]]]]]]]]]]];
      destruct (is_leap y); cbn in Hm |- *; simplify_eq; lia. }
  replace (days_before n + month_days (months (is_leap y)) k + (d - 1)) with (days_before n + inner) by (unfold inner; lia).
  pose proof (days_before_nonneg n) as Hb.
  pose proof (find_year_spec n 0 inner (S (Z.to_nat ((days_before n + inner) / 365)))) as Hf.
  cbn [Nat.add] in Hf. replace (1970 + Z.of_nat n) with y in Hf by lia.
  change (1970 + Z.of_nat 0) with 1970 in Hf. change (days_before 0) with 0 in Hf. rewrite Z.sub_0_r in Hf.
  rewrite Hf; [|exact Hin|].
  - unfold inner. rewrite find_month_spec.
    + f_equal; [f_equal|]; lia.
    + exists m. split; [exact Hm | lia].
    + by destruct (is_leap y); repeat constructor.
  - assert (Z.of_nat n <= (days_before n + inner) / 365) by (apply Z.div_le_lower_bound; lia). lia.
Qed.

Lemma days_to_ymd_correct_witness : days_to_ymd (day_number 2024 2 29) = (2024, 2, 29) /\ day_number 2024 2 29 = 19782.
Proof. split; [apply (days_to_ymd_correct 2024 2 29 29); [lia | lia | reflexivity | lia] | reflexivity]. Defined.

Example epoch_printed : fmt_epoch 1709210096 = bs "2024-02-29T12:34:56Z".
Proof. reflexivity. Qed.
