(* ===== verification/ProxyProtocol.v ===== *)
(** * The PROXY protocol (src/src/proxy/server.rs, parse_proxy_header and below)

    The header a load balancer puts before the connection, in its text and its binary
    version.  A stream is the list of the bytes that will arrive before it ends; peeking
    sees those that have arrived so far, so its length is an argument. *)

From S2P Require Import Prelude Bytes.

Definition PPV2_SIGNATURE : bytes := [13; 10; 13; 10; 0; 13; 10; 81; 85; 73; 84; 10].

Definition take_exact (n : nat) (s : bytes) : option (bytes * bytes) :=
  if (length s <? n)%nat then None else Some (take n s, drop n s).

(** ** Addresses as text *)

Definition ipv4_text (a b c d : Z) : bytes :=
  show_u64 a ++ [46] ++ show_u64 b ++ [46] ++ show_u64 c ++ [46] ++ show_u64 d.

(** [{:x}] of a 16-bit segment. *)
Definition hex_digit (n : Z) : Z := if n <? 10 then 48 + n else 87 + n.
Fixpoint hex_digits (fuel : nat) (n : Z) (acc : bytes) : bytes :=
  match fuel with
  | O => acc
  | S fuel' =>
      let acc := hex_digit (n mod 16) :: acc in
      if n / 16 =? 0 then acc else hex_digits fuel' (n / 16) acc
  end.
Definition hex_text (n : Z) : bytes := hex_digits 4 n [].

Fixpoint segments (octets : bytes) : list Z :=
  match octets with a :: b :: r => (256 * a + b) :: segments r | _ => [] end.

Fixpoint join (sep : bytes) (l : list bytes) : bytes :=
  match l with [] => [] | [x] => x | x :: l' => x ++ sep ++ join sep l' end.

(** The first longest run of zero segments: start and length.  [i] is the position,
    [cur] the run that ends here. *)
Fixpoint zero_run (i : nat) (cur best : nat * nat) (l : list Z) : nat * nat :=
  match l with
  | [] => best
  | x :: l' =>
      if x =? 0 then
        let cur := (if (snd cur =? 0)%nat then i else fst cur, S (snd cur)) in
        zero_run (S i) cur (if (snd best <? snd cur)%nat then cur else best) l'
      else zero_run (S i) (0, 0)%nat best l'
  end.

Definition ipv6_text (octets : bytes) : bytes :=
  match segments octets with
  | [0; 0; 0; 0; 0; 65535; ab; cd] =>
      bs "::ffff:" ++ ipv4_text (ab / 256) (ab mod 256) (cd / 256) (cd mod 256)
  | segs =>
      let (start, len) := zero_run 0 (0, 0)%nat (0, 0)%nat segs in
      if (1 <? len)%nat
      then join [58] (map hex_text (take start segs)) ++ bs "::" ++ join [58] (map hex_text (drop (start + len) segs))
      else join [58] (map hex_text segs)
  end.

(** ** Version 2 *)

Definition v2_address (ver_cmd family : Z) (block : bytes) : option bytes :=
  if negb (Z.shiftr ver_cmd 4 =? 2) then None
  else if Z.land ver_cmd 15 =? 1 then
    if (family =? 17) && (12 <=? length block)%nat then
      match block with
      | a :: b :: c :: d :: _ :: _ :: _ :: _ :: p1 :: p2 :: _ =>
          Some (ipv4_text a b c d ++ [58] ++ show_u64 (of_be [p1; p2]))
      | _ => None
      end
    else if (family =? 33) && (36 <=? length block)%nat then
      Some ([91] ++ ipv6_text (take 16 block) ++ [93; 58] ++ show_u64 (of_be (take 2 (drop 32 block))))
    else None
  else None.

(** The address and the bytes that are left; what was read stays read on a failure. *)
Definition parse_proxy_v2 (s : bytes) : option bytes * bytes :=
  match take_exact 16 s with
  | None => (None, [])
  | Some (hdr, s1) =>
      let byte i := default 0 (hdr !! i) in
      let addr_len := Z.to_nat (of_be [byte 14%nat; byte 15%nat]) in
      match take_exact addr_len s1 with
      | None => (None, [])
      | Some (block, s2) => (v2_address (byte 12%nat) (byte 13%nat) block, s2)
      end
  end.

(** ** Version 1 *)

(** The line, byte by byte; [acc] holds it reversed.  A line of more than 108 bytes is
    refused, so 109 turns are enough. *)
Fixpoint read_line (fuel : nat) (acc : bytes) (s : bytes) : option bytes * bytes :=
  match fuel with
  | O => (None, s)
  | S fuel' =>
      match s with
      | [] => (None, [])
      | b :: s' =>
          let acc := b :: acc in
          match acc with
          | 10 :: 13 :: _ => (Some (rev acc), s')
          | _ => if (108 <? length acc)%nat then (None, s') else read_line fuel' acc s'
          end
      end
  end.

(** [split_ascii_whitespace]; [word] holds the current word reversed. *)
Fixpoint split_words (word : bytes) (s : bytes) : list bytes :=
  match s with
  | [] => match word with [] => [] | _ => [rev word] end
  | b :: s' =>
      if is_ascii_whitespace b
      then match word with [] => split_words [] s' | _ => rev word :: split_words [] s' end
      else split_words (b :: word) s'
  end.

Definition v1_address (line : bytes) : option bytes :=
  if negb (utf8_valid line) then None
  else
    let parts := split_words [] (trim line) in
    if bool_decide (parts !! 1%nat = Some (bs "LOCAL")) then None
    else if (6 <=? length parts)%nat
    then Some (default [] (parts !! 2%nat) ++ [58] ++ default [] (parts !! 4%nat))
    else None.

Definition parse_proxy_v1 (s : bytes) : option bytes * bytes :=
  match read_line 109 [] s with
  | (Some line, s') => (v1_address line, s')
  | (None, s') => (None, s')
  end.

(** [arrived] bytes are there when the stream is peeked at. *)
Definition parse_proxy_header (arrived : nat) (s : bytes) : option bytes * bytes :=
  let peek_buf := take (Nat.min 12 arrived) s in
  let n := length peek_buf in
  if (12 <=? n)%nat && starts_with peek_buf PPV2_SIGNATURE then parse_proxy_v2 s
  else if (6 <=? n)%nat && starts_with peek_buf (bs "PROXY ") then parse_proxy_v1 s
  else (None, s).

(** ** Lemmas *)

Lemma split_words_word w word rest :
  Forall (fun b => is_ascii_whitespace b = false) w ->
  split_words word (w ++ rest) = split_words (rev w ++ word) rest.
Proof.
  intros Hw. revert word. induction Hw as [|b w Hb _ IH]; intros word; [done|].
  cbn [app split_words]. rewrite Hb, IH. cbn [rev]. by rewrite <- app_assoc.
Qed.

Lemma split_words_sep b w rest :
  is_ascii_whitespace b = true -> w <> [] -> Forall (fun b => is_ascii_whitespace b = false) w ->
  split_words [] (w ++ b :: rest) = w :: split_words [] rest.
Proof.
  intros Hb Hne Hw. rewrite split_words_word, app_nil_r by done. cbn [split_words]. rewrite Hb.
  destruct (rev w) as [|x t] eqn:E; [|by rewrite <- E, rev_involutive].
  apply (f_equal (@rev Z)) in E. by rewrite rev_involutive in E.
Qed.

Lemma read_line_spec line rest fuel acc :
  (forall k, line !! k = Some 10 -> False) -> (length acc + length line + 2 <= 108)%nat -> (length line + 2 <= fuel)%nat ->
  read_line fuel acc (line ++ 13 :: 10 :: rest) = (Some (rev acc ++ line ++ [13; 10]), rest).
Proof.
  intros Hn. revert fuel acc. induction line as [|b line IH]; intros fuel acc Hl Hf.
  - destruct fuel as [|[|fuel]]; cbn [length] in Hf; try lia. cbn [app read_line].
    assert ((108 <? length (13%Z :: acc))%nat = false) as -> by (apply Nat.ltb_ge; cbn [length] in *; lia).
    cbn [rev]. by rewrite <- !app_assoc.
  - destruct fuel as [|fuel]; cbn [length] in *; [lia|]. cbn [app read_line].
    assert (b <> 10) as Hb by (intros ->; by apply (Hn 0%nat)).
    assert (read_line fuel (b :: acc) (line ++ 13 :: 10 :: rest) = (Some (rev (b :: acc) ++ line ++ [13; 10]), rest)) as Hr.
    { apply IH; [intros k Hk; by apply (Hn (S k)) | cbn [length]; lia | lia]. }
    cbn [rev] in Hr. rewrite <- app_assoc in Hr.
    assert ((108 <? length (b :: acc))%nat = false) as E by (apply Nat.ltb_ge; cbn [length]; lia).
    rewrite E, Hr. destruct b as [|q|q]; try done. repeat (destruct q as [q|q|]; try done).
Qed.

Definition word_ok (w : bytes) : Prop :=
  w <> [] /\ Forall (fun b => 33 <= b < 127) w.

Lemma word_no_ws w : word_ok w -> Forall (fun b => is_ascii_whitespace b = false) w.
Proof.
  intros [_ H]. induction H as [|b w Hb _ IH]; constructor; [|done]. unfold is_ascii_whitespace.
  repeat (apply orb_false_intro); apply Z.eqb_neq; lia.
Qed.

Definition v1_line (family src dst sport dport : bytes) : bytes :=
  bs "PROXY " ++ family ++ [32] ++ src ++ [32] ++ dst ++ [32] ++ sport ++ [32] ++ dport.

Lemma split_words_last w : w <> [] -> Forall (fun b => is_ascii_whitespace b = false) w -> split_words [] w = [w].
Proof.
  intros Hne Hw. rewrite <- (app_nil_r w) at 1. rewrite split_words_word, app_nil_r by done. cbn [split_words].
  destruct (rev w) as [|x t] eqn:E; [|by rewrite <- E, rev_involutive].
  apply (f_equal (@rev Z)) in E. by rewrite rev_involutive in E.
Qed.

Lemma trim_rev_ascii b s : 33 <= b < 127 -> trim_rev (b :: s) = b :: s.
Proof.
  intros Hb. cbn [trim_rev].
  assert (ws1 b = false) as -> by (unfold ws1; apply orb_false_intro; [apply andb_false_intro2; apply Z.leb_gt | apply Z.eqb_neq]; lia).
  destruct s as [|c s]; [done|].
  assert (ws2 c b = false) as -> by (unfold ws2; apply andb_false_intro2; apply orb_false_intro; apply Z.eqb_neq; lia).
  destruct s as [|d s]; [done|].
  assert (ws3 d c b = false) as ->; [|done]. unfold ws3.
  rewrite (proj2 (Z.eqb_neq b 128)), (proj2 (Z.eqb_neq b 168)), (proj2 (Z.eqb_neq b 169)), (proj2 (Z.eqb_neq b 175)),
    (proj2 (Z.eqb_neq b 159)), (proj2 (Z.leb_gt 128 b)) by lia.
  by rewrite ?andb_false_r.
Qed.

Lemma trim_line b s w : 33 <= b < 127 -> w <> [] -> Forall (fun b => 33 <= b < 127) w ->
  trim (b :: s ++ w ++ [13; 10]) = b :: s ++ w.
Proof.
  intros Hb Hne Hw. unfold trim. rewrite trim_start_ascii; [|unfold ws1; apply orb_false_intro; [apply andb_false_intro2; apply Z.leb_gt | apply Z.eqb_neq]; lia | lia].
  unfold trim_end. destruct (exists_last Hne) as (p & c & ->). apply Forall_app in Hw as [_ Hc].
  apply (Forall_inv (P := fun b => 33 <= b < 127)) in Hc.
  replace (b :: s ++ (p ++ [c]) ++ [13; 10]) with ((b :: s ++ p) ++ [c] ++ [13; 10]) by (cbn [app]; by rewrite <- !app_assoc).
  rewrite !rev_app_distr. change (rev [13; 10]) with [10; 13]. change (rev [c]) with [c].
  etransitivity; [apply (f_equal (@rev Z)); exact (trim_rev_ascii c (rev (b :: s ++ p)) Hc)|].
  cbn [rev]. rewrite rev_app_distr, rev_involutive. cbn [rev app]. by rewrite <- !app_assoc.
Qed.

Lemma word_ascii w : word_ok w -> Forall (fun b => 0 <= b < 128) w.
Proof. intros [_ H]. induction H as [|b w Hb _ IH]; constructor; [lia|done]. Qed.

Lemma v1_address_words family src dst sport dport :
  word_ok family -> word_ok src -> word_ok dst -> word_ok sport -> word_ok dport -> family <> bs "LOCAL" ->
  v1_address (v1_line family src dst sport dport ++ [13; 10]) = Some (src ++ [58] ++ sport).
Proof.
  intros Hf Hs Hd Hp Hq Hl. unfold v1_address.
  assert (Forall (fun b => 0 <= b < 128) (v1_line family src dst sport dport ++ [13; 10])) as Hascii.
  { apply word_ascii in Hf, Hs, Hd, Hp, Hq. unfold v1_line. change (bs "PROXY ") with [80; 82; 79; 88; 89; 32].
    rewrite !Forall_app. split_and!; try done; repeat (apply Forall_cons_2; [lia|]); apply Forall_nil_2. }
  rewrite utf8_valid_ascii by done. cbn [negb].
  assert (trim (v1_line family src dst sport dport ++ [13; 10]) = v1_line family src dst sport dport) as ->.
  { destruct Hq as [Hne Hq].
    pose proof (trim_line 80 (bs "ROXY " ++ family ++ [32] ++ src ++ [32] ++ dst ++ [32] ++ sport ++ [32]) dport ltac:(lia) Hne Hq) as H.
    unfold v1_line. rewrite <- !app_assoc in *. exact H. }
  unfold v1_line. change (bs "PROXY " ++ family ++ [32] ++ src ++ [32] ++ dst ++ [32] ++ sport ++ [32] ++ dport)
    with (bs "PROXY" ++ 32 :: family ++ 32 :: src ++ 32 :: dst ++ 32 :: sport ++ 32 :: dport).
  rewrite (split_words_sep 32 (bs "PROXY")) by (done || (repeat constructor)).
  rewrite !split_words_sep by (done || (by apply word_no_ws) || (by apply Hf) || (by apply Hs) || (by apply Hd) || (by apply Hp)).
  rewrite split_words_last by ((by apply word_no_ws) || (by apply Hq)).
  cbn [length Nat.leb]. change ([bs "PROXY"; family; src; dst; sport; dport] !! 1%nat) with (Some family).
  rewrite bool_decide_eq_false_2 by congruence. done.
Qed.

(** Peeking sees the signature once it is there. *)
Lemma peek_signature arrived p s :
  (length p <= Nat.min 12 arrived)%nat ->
  starts_with (take (Nat.min 12 arrived) (p ++ s)) p = true /\ (length p <= length (take (Nat.min 12 arrived) (p ++ s)))%nat.
Proof.
  intros Hp. rewrite (take_app_ge p s) by done. split; [apply starts_with_app|]. rewrite length_app. lia.
Qed.

Lemma read_line_words family src dst sport dport rest :
  word_ok family -> word_ok src -> word_ok dst -> word_ok sport -> word_ok dport ->
  (length (v1_line family src dst sport dport) + 2 <= 108)%nat ->
  read_line 109 [] (v1_line family src dst sport dport ++ [13; 10] ++ rest)
  = (Some (v1_line family src dst sport dport ++ [13; 10]), rest).
Proof.
  intros Hf Hs Hd Hp Hq Hl. cbn [app]. rewrite read_line_spec; [done| |cbn [length]; lia|lia].
  intros k Hk. apply list_elem_of_lookup_2 in Hk. revert Hk. unfold v1_line. rewrite !elem_of_app.
  assert (forall w, word_ok w -> ~ 10 ∈ w) as Hw.
  { intros w [_ Hw] Hin. rewrite Forall_forall in Hw. apply list_elem_of_In, Hw in Hin. lia. }
  assert (~ 10 ∈ [32]) as H32 by set_solver.
  assert (~ 10 ∈ bs "PROXY ") as H0 by (change (bs "PROXY ") with [80; 82; 79; 88; 89; 32]; set_solver).
  pose proof (Hw _ Hf). pose proof (Hw _ Hs). pose proof (Hw _ Hd). pose proof (Hw _ Hp). pose proof (Hw _ Hq). tauto.
Qed.

(** A text header of at most 108 bytes whose five fields are printable words gives the
    source address and port it names, and exactly the header is consumed: the next byte read
    is the first of the database protocol.  Six bytes must have arrived when the proxy looks. *)
Theorem proxy_v1_header_exact family src dst sport dport rest arrived
  (Hf : word_ok family) (Hs : word_ok src) (Hd : word_ok dst) (Hp : word_ok sport) (Hq : word_ok dport)
  (Hlocal : family <> bs "LOCAL")
  (Hl : (length (v1_line family src dst sport dport) + 2 <= 108)%nat) (Ha : (6 <= arrived)%nat) :
  parse_proxy_header arrived (v1_line family src dst sport dport ++ [13; 10] ++ rest) = (Some (src ++ [58] ++ sport), rest).
Proof.
  unfold parse_proxy_header.
  assert (exists t, v1_line family src dst sport dport ++ [13; 10] ++ rest = bs "PROXY " ++ t) as [t Ht].
  { eexists. unfold v1_line. by rewrite <- app_assoc. }
  destruct (peek_signature arrived (bs "PROXY ") t) as [Hp1 Hp2]; [change (length (bs "PROXY ")) with 6%nat; lia|]. rewrite Ht, Hp1.
  change (length (bs "PROXY ")) with 6%nat in Hp2. apply Nat.leb_le in Hp2 as ->.
  assert (starts_with (take (Nat.min 12 arrived) (bs "PROXY " ++ t)) PPV2_SIGNATURE = false) as ->.
  { change (bs "PROXY ") with [80; 82; 79; 88; 89; 32]. destruct (Nat.min 12 arrived) as [|k] eqn:E; [lia|done]. }
  rewrite andb_false_r. cbn [andb]. unfold parse_proxy_v1. rewrite <- Ht, read_line_words by done.
  by rewrite v1_address_words.
Qed.

Lemma proxy_v1_header_exact_witness :
  parse_proxy_header 64 (bs "PROXY TCP4 203.0.113.7 10.0.0.1 56324 3306" ++ [13; 10] ++ [1; 2])
  = (Some (bs "203.0.113.7:56324"), [1; 2]).
Proof.
  assert (forall w, forallb (fun b => (33 <=? b) && (b <? 127)) w = true -> w <> [] -> word_ok w) as Hw.
  { intros w H Hne. split; [done|]. induction w as [|b w IH]; constructor; cbn [forallb] in H; apply andb_prop in H as [H1 H2].
    - apply andb_prop in H1 as [H1%Z.leb_le H3%Z.ltb_lt]. lia.
    - destruct w; [constructor|]. apply IH; done. }
  exact (proxy_v1_header_exact (bs "TCP4") (bs "203.0.113.7") (bs "10.0.0.1") (bs "56324") (bs "3306") [1; 2] 64
    ltac:(by apply Hw) ltac:(by apply Hw) ltac:(by apply Hw) ltac:(by apply Hw) ltac:(by apply Hw) ltac:(done)
    ltac:(vm_compute; lia) ltac:(lia)).
Defined.

(** A binary header: version and command, family, and the address block with its length. *)
Definition v2_header (ver_cmd family : Z) (block : bytes) : bytes :=
  PPV2_SIGNATURE ++ [ver_cmd; family] ++ to_be 2 (Z.of_nat (length block)) ++ block.

Lemma take_exact_app n p s : length p = n -> take_exact n (p ++ s) = Some (p, s).
Proof.
  intros <-. unfold take_exact. rewrite length_app.
  assert ((length p + length s <? length p)%nat = false) as -> by (apply Nat.ltb_ge; lia).
  by rewrite take_app_length, drop_app_length.
Qed.

(** A binary header with any address block of at most 65535 bytes is consumed whole,
    whatever it says, so the stream stands at the database protocol; the address is the one of
    the block, and only when the proxy looks after all twelve signature bytes have arrived. *)
Theorem proxy_v2_header_consumed ver_cmd family block rest arrived
  (Hblock : Z.of_nat (length block) < 65536) (Ha : (12 <= arrived)%nat) :
  parse_proxy_header arrived (v2_header ver_cmd family block ++ rest) = (v2_address ver_cmd family block, rest).
Proof.
  unfold parse_proxy_header, v2_header. rewrite <- app_assoc.
  destruct (peek_signature arrived PPV2_SIGNATURE (([ver_cmd; family] ++ to_be 2 (Z.of_nat (length block)) ++ block) ++ rest)) as [Hp1 Hp2]; [change (length PPV2_SIGNATURE) with 12%nat; lia|].
  rewrite Hp1. change (length PPV2_SIGNATURE) with 12%nat in Hp2. apply Nat.leb_le in Hp2 as ->. cbn [andb].
  unfold parse_proxy_v2.
  destruct (to_be 2 (Z.of_nat (length block))) as [|hi [|lo [|]]] eqn:E; try (by apply (f_equal length) in E; rewrite to_be_length in E).
  rewrite !app_assoc. rewrite <- (app_assoc _ block rest), take_exact_app by done.
  change (of_be _) with (of_be [hi; lo]). rewrite <- E, of_to_be, Nat2Z.id, take_exact_app by (change (256 ^ Z.of_nat 2) with 65536; lia || done).
  done.
Qed.

Lemma proxy_v2_header_consumed_witness :
  parse_proxy_header 28 (v2_header 33 17 [203; 0; 113; 7; 10; 0; 0; 1; 220; 4; 12; 234] ++ [1; 2])
  = (Some (bs "203.0.113.7:56324"), [1; 2]).
Proof. exact (proxy_v2_header_consumed 33 17 [203; 0; 113; 7; 10; 0; 0; 1; 220; 4; 12; 234] [1; 2] 28 ltac:(done) ltac:(lia)). Defined.

(** Looking once, without waiting for the signature, misses a header whose first bytes come
    in a smaller piece: nothing is consumed and the header's own bytes are then read as the
    client's handshake. *)
Theorem partial_header_is_left ver_cmd family block rest arrived (Ha : (arrived < 12)%nat) :
  parse_proxy_header arrived (v2_header ver_cmd family block ++ rest) = (None, v2_header ver_cmd family block ++ rest).
Proof.
  unfold parse_proxy_header. unfold v2_header. set (s := _ ++ rest).
  assert ((12 <=? length (take (Nat.min 12 arrived) s))%nat = false) as ->.
  { apply Nat.leb_gt. rewrite length_take. lia. }
  cbn [andb]. assert (starts_with (take (Nat.min 12 arrived) s) (bs "PROXY ") = false) as ->; [|by rewrite andb_false_r].
  unfold s, PPV2_SIGNATURE. by destruct (Nat.min 12 arrived).
Qed.

Lemma partial_header_is_left_witness :
  parse_proxy_header 8 (v2_header 33 17 [203; 0; 113; 7; 10; 0; 0; 1; 220; 4; 12; 234])
  = (None, v2_header 33 17 [203; 0; 113; 7; 10; 0; 0; 1; 220; 4; 12; 234]).
Proof.
  pose proof (partial_header_is_left 33 17 [203; 0; 113; 7; 10; 0; 0; 1; 220; 4; 12; 234] [] 8 ltac:(lia)) as H.
  by rewrite app_nil_r in H.
Defined.

Example ipv6_text_1 : ipv6_text [32; 1; 13; 184; 0; 0; 0; 0; 0; 0; 0; 0; 0; 0; 0; 1] = bs "2001:db8::1".
Proof. reflexivity. Qed.
