(* ===== verification/Session.v ===== *)
(** * A client session (src/src/proxy/server.rs, handle_connection and below)

    What the server does for one authenticated client: the commands it reads are handled one
    by one, over the state of the session, the connections it holds, the router and the
    outside world.  What is only observed (analytics, audit log, error events) is a list of
    events.  The client is a list of commands and the answers the proxy writes to it; the
    k-th write succeeds when [client_ok k] says so. *)

From S2P Require Import Prelude Bytes Config Classifier Fingerprint QueryCache Rules Rewriter StmtShadow.
From S2P Require Import MysqlCodec MysqlResponse Auth Handshake TextRows CircuitBreaker Pool ProxyProtocol.
From S2P Require Import Router UserRegistry Tracer.

(** ** Text *)

(** [char::escape_debug] of a character beyond ASCII (its UTF-8 bytes). *)
Class EscapeTable := { escape_wide : bytes -> bytes }.

Definition escape_ascii (b : Z) : bytes :=
  if b =? 0 then [92; 48] else if b =? 9 then [92; 116] else if b =? 10 then [92; 110]
  else if b =? 13 then [92; 114] else if (b =? 34) || (b =? 92) then [92; b]
  else if (b <? 32) || (b =? 127) then [92; 117; 123] ++ hex_text b ++ [125] else [b].

(** [{:?}] of a string; [fuel] is the number of bytes. *)
Fixpoint escape_debug `{EscapeTable} (fuel : nat) (s : bytes) : bytes :=
  match fuel, s with
  | S fuel', b :: s' =>
      if b <? 128 then escape_ascii b ++ escape_debug fuel' s'
      else escape_wide (take (lead_len b) s) ++ escape_debug fuel' (drop (lead_len b) s)
  | _, _ => []
  end.
Definition debug_text `{EscapeTable} (s : bytes) : bytes := [34] ++ escape_debug (length s) s ++ [34].

(** [addr.rsplit_once(':')], the part before it, or the whole. *)
Fixpoint before_last_colon (rev_addr : bytes) : option bytes :=
  match rev_addr with
  | [] => None
  | b :: r => if b =? 58 then Some (rev r) else before_last_colon r
  end.
Definition strip_port (addr : bytes) : bytes := default addr (before_last_colon (rev addr)).

Definition needs_hard_pin `{CaseTable} (sql : bytes) : bool :=
  let upper := to_uppercase (trim_start sql) in
  let has_at := str_contains upper [64] in
  (starts_with upper (bs "SET") && has_at && negb (str_contains upper (bs "@@")))
  || (negb (starts_with upper (bs "SET")) && str_contains upper (bs ":=") && has_at)
  || starts_with upper (bs "LOCK TABLES").

Definition is_replayable_session_stmt `{CaseTable} (sql : bytes) : bool :=
  let upper := to_uppercase (trim_start sql) in
  starts_with upper (bs "SET") && negb (str_contains upper [64] && negb (str_contains upper (bs "@@"))).

(** ** The injection detector (src/src/proxy/security.rs) *)

Record InjectionDetector `{RegexEngine} := { patterns : list Regex }.

Definition number_in_quotes : bytes := bs "\s*['" ++ [34; 34] ++ bs "]?\d+['" ++ [34; 34] ++ bs "]?".
Definition RAW_PATTERNS : list bytes :=
  [bs "(?i)\bOR\b\s+['" ++ [34; 34] ++ bs "]?\d+['" ++ [34; 34] ++ bs "]?\s*=" ++ number_in_quotes;
   bs "(?i)\bAND\b\s+['" ++ [34; 34] ++ bs "]?\d+['" ++ [34; 34] ++ bs "]?\s*=" ++ number_in_quotes;
   bs "(?i)--\s*$"; bs "(?i)/\*.*?\*/"; bs "(?i)\bUNION\b\s+(ALL\s+)?\bSELECT\b";
   bs "(?i);\s*(SELECT|INSERT|UPDATE|DELETE|DROP|CREATE|ALTER|EXEC|EXECUTE|CALL)\b";
   bs "(?i)\bSLEEP\s*\("; bs "(?i)\bBENCHMARK\s*\("; bs "(?i)\bLOAD_FILE\s*\("; bs "(?i)\bINTO\s+OUTFILE\b";
   bs "(?i)\bINTO\s+DUMPFILE\b"; bs "(?i)\binformation_schema\s*\."; bs "(?i)\bperformance_schema\s*\.";
   bs "(?i)\b0x[0-9a-fA-F]+"; bs "(?i)\bCHAR\s*\("; bs "(?i)\bxp_cmdshell\b"; bs "(?i)\bsp_executesql\b";
   bs "(?i)\bWAITFOR\s+DELAY\b"].
Definition detector_new `{RegexEngine} : InjectionDetector := {| patterns := omap Regex_new RAW_PATTERNS |}.
Definition detector_check `{RegexEngine} (d : InjectionDetector) (sql : bytes) : option bytes :=
  as_str <$> List.find (fun re => is_match re sql) (patterns d).

(** ** The synthetic answer to a version probe *)

Definition mysql_pkt (payload : bytes) (seq : Z) : bytes :=
  let len := Z.of_nat (length payload) in
  [Z.land len 255; Z.land (Z.shiftr len 8) 255; Z.land (Z.shiftr len 16) 255; seq] ++ payload.
Definition lc_str (s : bytes) : bytes := u8 (Z.of_nat (length s)) :: s.
Definition VERSION_STR : bytes := bs "8.0.36-TurbineProxy".
Definition version_col_def : bytes :=
  lc_str (bs "def") ++ lc_str [] ++ lc_str [] ++ lc_str [] ++ lc_str (bs "VERSION()") ++ lc_str (bs "VERSION()")
  ++ [12; 45; 0; 30; 0; 0; 0; 253; 0; 0; 31; 0; 0].
Definition version_response : bytes :=
  let eof := [254; 0; 0; 2; 0] in
  mysql_pkt [1] 1 ++ mysql_pkt version_col_def 2 ++ mysql_pkt eof 3 ++ mysql_pkt (lc_str VERSION_STR) 4 ++ mysql_pkt eof 5.
Definition is_version_probe `{CaseTable} (sql : bytes) : bool :=
  let sql_up := to_uppercase (trim sql) in
  beq sql_up (bs "SELECT VERSION()") || beq sql_up (bs "SELECT @@VERSION") || beq sql_up (bs "SELECT @@GLOBAL.VERSION").

(** ** The state of a session *)

Inductive Metric :=
| QueriesTotal | QueriesRead | QueriesWrite | SessionsPinned | TransactionsKilled | SqliBlocked | WhitelistBlocked.
#[export] Instance Metric_eq_dec : EqDecision Metric.
Proof. solve_decision. Defined.

(** What is reported and never read again. *)
Inductive Event :=
| AppConnect (user ip app : bytes)
| AppDisconnect (user ip app : bytes)
| AppQuery (user ip app : bytes) (read write : bool)
| Audited (user ip sql destination : bytes) (duration : Z) (error : bool)
| ErrorSeen (kind : Z) (message fp ip user : bytes)
| Recorded (sql : bytes)
| Timed (sql : bytes) (read write : bool) (duration : Z)
| Summarised.

(** The stores every session shares. *)
Record Shared := { metrics : Metric -> Z; registry : UserRegistry; tracer : TracerStore; events : list Event }.

Inductive Reply := Response (b : bytes) | ErrorPacket (code message : bytes) | OkPacket | Flushed.

Record TxState := { tx_start : option Z; last_query_in_tx : option Z; active_trace : option ActiveTrace }.
Record Pins := { user_var_sticky : bool; session_init_sqls : list bytes; sticky_hint_active : bool }.
Record Ryow := { ryow_until : option Z; last_write_gtid : option bytes }.
Record ErrorCount := { consecutive_errors : Z; error_window_start : option Z }.

(** Why the handling of a command ends early: the loop goes on to the next command, the loop
    is left, or the task panics. *)
Inductive ctl := Continue | Break | Died.

Section Session.
Context {W C : Type} `{IO : !BackendIO W C} `{CT : CaseTable} `{ET : EscapeTable} `{RE : RegexEngine}
  `{MO : !MapOrder bytes CacheEntry} `{MO1 : !MapOrder bytes bytes}
  `{MO2 : !MapOrder Z Z} `{MO3 : !MapOrder Z My.MysqlStmtInfo}.

Record SessionConfig := {
  conn_id : Z;
  client_addr : bytes;
  max_transaction_time_ms : Z;
  max_transaction_idle_ms : Z;
  read_your_own_writes_ms : Z;
  gtid_aware_ryow : bool;
  fast_forward : bool;
  select_version_forwarding : bool;
  sqli_detector : option InjectionDetector;
  query_whitelist : QueryWhitelist;
  audit_active : bool;
  users_config : list UserConfig;
  client_error_limit : Z;
  client_error_window_secs : Z;
  debug_log : bool;
  client_ok : nat -> bool
}.

Record SState := {
  env : Env (W := W) (C := C);
  client : MySQLClientSession;
  tx : TxState;
  pins : Pins;
  ryow : Ryow;
  errors : ErrorCount;
  warned_failover_write : bool;
  shared : Shared;
  replies : list Reply
}.

Definition with_env (e : Env) (s : SState) : SState :=
  {| env := e; client := client s; tx := tx s; pins := pins s; ryow := ryow s; errors := errors s;
     warned_failover_write := warned_failover_write s; shared := shared s; replies := replies s |}.
Definition with_client (c : MySQLClientSession) (s : SState) : SState :=
  {| env := env s; client := c; tx := tx s; pins := pins s; ryow := ryow s; errors := errors s;
     warned_failover_write := warned_failover_write s; shared := shared s; replies := replies s |}.
Definition with_tx (t : TxState) (s : SState) : SState :=
  {| env := env s; client := client s; tx := t; pins := pins s; ryow := ryow s; errors := errors s;
     warned_failover_write := warned_failover_write s; shared := shared s; replies := replies s |}.
Definition with_pins (p : Pins) (s : SState) : SState :=
  {| env := env s; client := client s; tx := tx s; pins := p; ryow := ryow s; errors := errors s;
     warned_failover_write := warned_failover_write s; shared := shared s; replies := replies s |}.
Definition with_ryow (r : Ryow) (s : SState) : SState :=
  {| env := env s; client := client s; tx := tx s; pins := pins s; ryow := r; errors := errors s;
     warned_failover_write := warned_failover_write s; shared := shared s; replies := replies s |}.
Definition with_errors (n : ErrorCount) (s : SState) : SState :=
  {| env := env s; client := client s; tx := tx s; pins := pins s; ryow := ryow s; errors := n;
     warned_failover_write := warned_failover_write s; shared := shared s; replies := replies s |}.
Definition with_warned (b : bool) (s : SState) : SState :=
  {| env := env s; client := client s; tx := tx s; pins := pins s; ryow := ryow s; errors := errors s;
     warned_failover_write := b; shared := shared s; replies := replies s |}.
Definition with_shared (h : Shared) (s : SState) : SState :=
  {| env := env s; client := client s; tx := tx s; pins := pins s; ryow := ryow s; errors := errors s;
     warned_failover_write := warned_failover_write s; shared := h; replies := replies s |}.
Definition with_reply (r : Reply) (s : SState) : SState :=
  {| env := env s; client := client s; tx := tx s; pins := pins s; ryow := ryow s; errors := errors s;
     warned_failover_write := warned_failover_write s; shared := shared s; replies := replies s ++ [r] |}.

Variable cfg : SessionConfig.

Local Abbreviation ST := (SE SState ctl).

(** ** Small steps *)

Definition modify (f : SState -> SState) : ST unit := se_modify f.
Definition now (s : SState) : Z := now_ns (world (env s)).
Definition username (s : SState) : bytes := cs_username (client s).
(** The MySQL session does not override the default of the trait. *)
Definition database (s : SState) : bytes := [].
Definition app_name (s : SState) : bytes := default [] (cs_app_name (client s)).
Definition client_ip : bytes := strip_port (client_addr cfg).
Definition is_in_transaction (s : SState) : bool := Handshake.in_transaction (client s).

Definition set_in_transaction (b : bool) : ST unit :=
  modify (fun s => with_client {| Handshake.in_transaction := b; cs_username := cs_username (client s);
    cs_allow_writes := cs_allow_writes (client s); cs_app_name := cs_app_name (client s) |} s).
Definition set_tx_start (t : option Z) : ST unit :=
  modify (fun s => with_tx {| tx_start := t; last_query_in_tx := last_query_in_tx (tx s); active_trace := active_trace (tx s) |} s).
Definition set_last_query (t : option Z) : ST unit :=
  modify (fun s => with_tx {| tx_start := tx_start (tx s); last_query_in_tx := t; active_trace := active_trace (tx s) |} s).
Definition set_trace (t : option ActiveTrace) : ST unit :=
  modify (fun s => with_tx {| tx_start := tx_start (tx s); last_query_in_tx := last_query_in_tx (tx s); active_trace := t |} s).
Definition set_pinned (b : bool) : ST unit :=
  modify (fun s => with_pins {| user_var_sticky := b; session_init_sqls := session_init_sqls (pins s);
    sticky_hint_active := sticky_hint_active (pins s) |} s).
Definition set_init_sqls (f : list bytes -> list bytes) : ST unit :=
  modify (fun s => with_pins {| user_var_sticky := user_var_sticky (pins s);
    session_init_sqls := f (session_init_sqls (pins s)); sticky_hint_active := sticky_hint_active (pins s) |} s).
Definition set_hint (b : bool) : ST unit :=
  modify (fun s => with_pins {| user_var_sticky := user_var_sticky (pins s);
    session_init_sqls := session_init_sqls (pins s); sticky_hint_active := b |} s).
Definition set_ryow_until (t : option Z) : ST unit :=
  modify (fun s => with_ryow {| ryow_until := t; last_write_gtid := last_write_gtid (ryow s) |} s).
Definition set_gtid (g : option bytes) : ST unit :=
  modify (fun s => with_ryow {| ryow_until := ryow_until (ryow s); last_write_gtid := g |} s).

Definition on_shared (f : Shared -> Shared) : ST unit := modify (fun s => with_shared (f (shared s)) s).
Definition bump (m : Metric) : ST unit :=
  on_shared (fun h => {| metrics := fun k => if decide (k = m) then usize (metrics h k + 1) else metrics h k;
                         registry := registry h; tracer := tracer h; events := events h |}).
Definition on_registry (f : UserRegistry -> UserRegistry) : ST unit :=
  on_shared (fun h => {| metrics := metrics h; registry := f (registry h); tracer := tracer h; events := events h |}).
Definition push_trace (t : TransactionTrace) : ST unit :=
  on_shared (fun h => {| metrics := metrics h; registry := registry h; tracer := push t (tracer h); events := events h |}).
Definition observe (ev : SState -> Event) : ST unit :=
  modify (fun s => with_shared {| metrics := metrics (shared s); registry := registry (shared s);
    tracer := tracer (shared s); events := events (shared s) ++ [ev s] |} s).

(** One write to the client, and whether it succeeds. *)
Definition reply (r : Reply) : ST bool := fun s => (Ok (client_ok cfg (length (replies s))), with_reply r s).
Definition or_break (w : ST bool) : ST unit := ok ← w; if ok : bool then mret tt else se_fail Break.
Definition ignore {A} (w : ST A) : ST unit := _ ← w; mret tt.

(** An operation of the router: its error is a value, its panic ends the task. *)
Definition routed {A} (m : SE Env failure A) : ST (result bytes A) := fun s =>
  let (r, e) := m (env s) in
  match r with
  | Ok a => (Ok (Ok a), with_env e s)
  | Err (Failed x) => (Ok (Err x), with_env e s)
  | Err Panicked => (Err Died, with_env e s)
  end.
Definition on_env (f : Env -> Env) : ST unit := modify (fun s => with_env (f (env s)) s).

(** [tx_conn.take()] and its return to the pool; the same for the others. *)
Definition release_tx : ST unit :=
  s ← se_get;
  match tx_conn (env s) with
  | Some c => on_env (set_tx None) ;; ignore (routed (router_put_primary c))
  | None => mret tt
  end.
Definition release_stmt : ST unit :=
  s ← se_get;
  match stmt_conn (env s) with
  | Some c => on_env (set_stmt None) ;; ignore (routed (router_put_primary c))
  | None => mret tt
  end.
Definition release_sticky : ST unit :=
  s ← se_get;
  match sticky_conn (env s) with
  | Some c => on_env (set_sticky None (sticky_idx (env s))) ;; ignore (routed (router_put_replica c (sticky_idx (env s))))
  | None => mret tt
  end.
Definition reset_sticky_idx : ST unit := on_env (fun e => set_sticky (sticky_conn e) usize_max e).
Definition drop_tx : ST unit := on_env (set_tx None).

Definition finish_trace (out : bytes) : ST unit :=
  s ← se_get;
  match active_trace (tx s) with
  | Some t => set_trace None ;; push_trace (finish out (now s) t)
  | None => mret tt
  end.

(** The result of a routed command, answered; a failing error packet is only logged. *)
Definition answer (r : result bytes BackendResponse) : ST unit :=
  match r with
  | Ok response => or_break (reply (Response (br_bytes response)))
  | Err e => ignore (reply (ErrorPacket (bs "1") e))
  end.
Definition flush_or_break : ST unit := or_break (reply Flushed).
(** An error packet, a flush whose failure is ignored, and the next command. *)
Definition refuse {A} (code message : bytes) : ST A :=
  ignore (reply (ErrorPacket code message)) ;; ignore (reply Flushed) ;; se_fail Continue.

(** ** COM_QUERY, stage by stage *)

(** The global fast path. *)
Definition fast_forward_query (sql_bytes sql : bytes) (tx_was : bool) : ST unit :=
  let upper := to_ascii_uppercase (trim sql) in
  let ends := starts_with upper (bs "COMMIT") || starts_with upper (bs "ROLLBACK") in
  (if starts_with upper (bs "BEGIN") || starts_with upper (bs "START ") then set_in_transaction true
   else if ends then set_in_transaction false else mret tt) ;;
  bump QueriesTotal ;;
  result ← routed (route_fast sql_bytes tx_was);
  (if ends then release_tx else mret tt) ;;
  answer result ;;
  flush_or_break ;;
  se_fail Continue.

(** The fast path of a rule. *)
Definition rule_fast_forward (sql_bytes sql : bytes) (in_tx : bool) : ST unit :=
  if in_tx then mret tt
  else
    s ← se_get;
    r ← routed (is_fast_forward_rule sql (username s) (database s));
    match r with
    | Ok true =>
        (if debug_log cfg && slice_panics 60 sql then se_fail Died else mret tt) ;;
        bump QueriesTotal ;;
        result ← routed (route_fast sql_bytes false);
        answer result ;;
        flush_or_break ;;
        se_fail Continue
    | _ => mret tt
    end.

(** Read your own writes: whether a read has to go to the primary. *)
Definition ryow_check (was_read : bool) : ST bool :=
  s ← se_get;
  (match ryow_until (ryow s) with
   | Some until => if until <=? now s then set_ryow_until None else mret tt
   | None => mret tt
   end) ;;
  forced ← (if gtid_aware_ryow cfg && was_read then
              match last_write_gtid (ryow s) with
              | Some gtid =>
                  r ← routed (check_replica_has_gtid gtid);
                  match r with
                  | Ok true => set_gtid None ;; mret false
                  | _ => mret true
                  end
              | None => mret false
              end
            else mret false);
  s ← se_get;
  mret (bool_decide (ryow_until (ryow s) <> None) || forced).

(** Statements that change the session on the server. *)
Definition note_session_state (sql : bytes) : ST unit :=
  let hard_pin := needs_hard_pin sql in
  let replayable := negb hard_pin && is_replayable_session_stmt sql in
  (if hard_pin || replayable
   then set_init_sqls (fun l => if mem sql l then l else l ++ [sql]) else mret tt) ;;
  s ← se_get;
  if hard_pin && negb (user_var_sticky (pins s)) then set_pinned true ;; bump SessionsPinned else mret tt.

(** Begin of a transaction; the result tells whether the statement ends one. *)
Definition note_transaction (sql : bytes) (intent : QueryIntent) : ST bool :=
  if bool_decide (intent = Transaction) then
    let upper := to_uppercase (trim sql) in
    if starts_with upper (bs "BEGIN") || starts_with upper (bs "START") then
      set_in_transaction true ;;
      s ← se_get;
      set_tx_start (Some (now s)) ;;
      set_trace (Some (trace_new (conn_id cfg) (username s) (client_addr cfg) (unix_ms (world (env s))) (now s))) ;;
      mret false
    else mret (starts_with upper (bs "COMMIT") || starts_with upper (bs "ROLLBACK"))
  else mret false.

Definition elapsed_ms (since : Z) (s : SState) : Z := elapsed since (now s) / 10 ^ 6.

Definition kill_transaction (out message : bytes) : ST unit :=
  drop_tx ;;
  finish_trace out ;;
  bump TransactionsKilled ;;
  ignore (reply (ErrorPacket (bs "1205") message)) ;;
  flush_or_break ;;
  se_fail Continue.

Definition enforce_transaction_time : ST unit :=
  s ← se_get;
  let ms := max_transaction_time_ms cfg in
  match tx_start (tx s) with
  | Some ts =>
      if (0 <? ms) && (ms <? elapsed_ms ts s) then
        set_in_transaction false ;;
        set_tx_start None ;;
        kill_transaction (bs "killed")
          (bs "Transaction timeout: exceeded max_transaction_time_ms (" ++ show_u64 ms ++ bs "ms)")
      else mret tt
  | None => mret tt
  end.

Definition enforce_transaction_idle : ST unit :=
  s ← se_get;
  let ms := max_transaction_idle_ms cfg in
  match last_query_in_tx (tx s), tx_start (tx s) with
  | Some last_q, Some _ =>
      if (0 <? ms) && (ms <? elapsed_ms last_q s) then
        set_in_transaction false ;;
        set_tx_start None ;;
        set_last_query None ;;
        kill_transaction (bs "idle_killed") (bs "Transaction idle timeout: no query for " ++ show_u64 ms ++ bs "ms")
      else mret tt
  | _, _ => mret tt
  end.

Definition failover_active_nowait (s : SState) : bool := failover_active (r_pool (router (env s))).

Definition count_intent (was_read : bool) (intent : QueryIntent) : ST unit :=
  if was_read then bump QueriesRead
  else if bool_decide (intent = Write) then
    bump QueriesWrite ;;
    s ← se_get;
    if negb (warned_failover_write s) && failover_active_nowait s then modify (with_warned true)
    else if warned_failover_write s && negb (failover_active_nowait s) then modify (with_warned false)
    else mret tt
  else mret tt.

Definition deny_write (intent : QueryIntent) : ST unit :=
  s ← se_get;
  if negb (cs_allow_writes (client s)) && bool_decide (intent = Write) then
    ignore (reply (ErrorPacket (bs "1290") (bs "User is not allowed to write (read-only proxy account)"))) ;;
    flush_or_break ;;
    se_fail Continue
  else mret tt.

Definition forward_version (sql : bytes) (effective_in_tx : bool) : ST unit :=
  if select_version_forwarding cfg && negb effective_in_tx && is_version_probe sql then
    ignore (reply (Response version_response)) ;; ignore (reply Flushed) ;; se_fail Continue
  else mret tt.

(** A refusal by the injection detector or the allow-list. *)
Definition block (m : Metric) (sql destination event message : bytes) : ST unit :=
  bump m ;;
  (if audit_active cfg then observe (fun s => Audited (username s) client_ip sql destination 0 true) else mret tt) ;;
  observe (fun s => ErrorSeen 0 event (fingerprint sql) client_ip (username s)) ;;
  refuse (bs "1045") message.
Definition check_injection (sql : bytes) : ST unit :=
  match sqli_detector cfg with
  | Some d =>
      match detector_check d sql with
      | Some pattern => block SqliBlocked sql (bs "blocked:sqli") (bs "SQL injection blocked: " ++ pattern)
                          (bs "Query blocked: potential SQL injection detected")
      | None => mret tt
      end
  | None => mret tt
  end.
Definition check_whitelist (sql : bytes) : ST unit :=
  if is_allowed (query_whitelist cfg) sql then mret tt
  else block WhitelistBlocked sql (bs "blocked:whitelist") (bs "Query not permitted: not in the query allowlist")
         (bs "Query not permitted: not in the query allowlist").

Definition note_sticky_hint (sql : bytes) : ST unit :=
  match extract_sticky_hint sql with
  | Some true => set_hint true
  | Some false =>
      s ← se_get;
      if sticky_hint_active (pins s) then set_hint false ;; release_sticky ;; reset_sticky_idx else mret tt
  | None => mret tt
  end.

Definition STICKY_LOST : list string :=
  ["gone away"; "eof"; "broken pipe"; "connection reset"; "2006"; "2013"]%string.
Definition sticky_lost (e : bytes) : bool := existsb (fun m => str_contains (to_lowercase e) (bs m)) STICKY_LOST.

Definition route_sticky (sql_bytes : bytes) (effective_in_tx was_read : bool) : ST unit :=
  s ← se_get;
  if sticky_hint_active (pins s) && negb effective_in_tx && was_read then
    r ← routed (route_sticky_query sql_bytes);
    match r with
    | Ok response => or_break (reply (Response (br_bytes response))) ;; flush_or_break ;; se_fail Continue
    | Err e =>
        if sticky_lost e then on_env (set_sticky None usize_max) ;; set_hint false
        else refuse (bs "1") e
    end
  else mret tt.

Definition route (sql_bytes : bytes) (effective_in_tx use_replica : bool) : ST (result bytes BackendResponse) :=
  s ← se_get;
  match session_init_sqls (pins s) with
  | [] => routed (route_query sql_bytes effective_in_tx use_replica (username s) [])
  | sqls => routed (route_query_with_session_vars sql_bytes effective_in_tx use_replica (username s) [] sqls)
  end.

(** Bookkeeping between the answer of the backend and the answer to the client. *)
Definition after_route (is_err was_read : bool) (intent : QueryIntent) : ST unit :=
  s ← se_get;
  (if negb is_err && negb was_read && bool_decide (intent = Write) && (0 <? read_your_own_writes_ms cfg)
   then set_ryow_until (Some (now s + read_your_own_writes_ms cfg * 10 ^ 6)) else mret tt) ;;
  if bool_decide (tx_start (tx s) <> None) then set_last_query (Some (now s)) else mret tt.

Definition track_change (change : bytes * bytes) : ST unit :=
  let set_stmt := bs "SET SESSION " ++ fst change ++ [61] ++ debug_text (snd change) in
  set_init_sqls (fun l => if mem set_stmt l then l else l ++ [set_stmt]).

Definition on_response (was_read : bool) (response : BackendResponse) : ST unit :=
  modify (with_errors {| consecutive_errors := 0; error_window_start := None |}) ;;
  (match write_gtid response with
   | Some gtid =>
       if gtid_aware_ryow cfg && negb was_read && negb (is_error response) && bool_decide (gtid <> [])
       then set_gtid (Some gtid) else mret tt
   | None => mret tt
   end) ;;
  se_iter track_change (session_changes response) ;;
  or_break (reply (Response (br_bytes response))).

Definition is_gone (err : bytes) : bool :=
  str_contains err (bs "2006") || str_contains err (bs "2013") || str_contains (to_lowercase err) (bs "gone away")
  || str_contains (to_lowercase err) (bs "broken pipe") || str_contains (to_lowercase err) (bs "connection reset").

Definition abandon_transaction : ST unit :=
  set_in_transaction false ;;
  set_tx_start None ;;
  set_last_query None ;;
  drop_tx ;;
  finish_trace (bs "backend_error").

Definition count_error : ST unit :=
  s ← se_get;
  if 0 <? client_error_limit cfg then
    let t := now s in
    let expired := match error_window_start (errors s) with
                   | Some w => client_error_window_secs cfg <=? elapsed w t / 10 ^ 9
                   | None => false
                   end in
    let n := if expired then 0 else consecutive_errors (errors s) in
    let w := if expired then None else error_window_start (errors s) in
    let n := u32 (n + 1) in
    modify (with_errors {| consecutive_errors := n; error_window_start := Some (default t w) |}) ;;
    if client_error_limit cfg <=? n then ignore (reply Flushed) ;; se_fail Break else mret tt
  else mret tt.

Definition on_error (sql err : bytes) : ST unit :=
  observe (fun s => ErrorSeen 1 err (fingerprint sql) client_ip (username s)) ;;
  s ← se_get;
  (if is_gone err && is_in_transaction s then abandon_transaction else mret tt) ;;
  ignore (reply (ErrorPacket (bs "1") err)) ;;
  count_error.

Definition intent_text (intent : QueryIntent) : bytes :=
  match intent with
  | Read => bs "read" | Write => bs "write" | Transaction => bs "transaction" | Classifier.Other => bs "other"
  end.

Definition record_in_trace (sql : bytes) (intent : QueryIntent) (t0 : Z) : ST unit :=
  s ← se_get;
  match active_trace (tx s) with
  | Some t =>
      match record sql (fingerprint sql) (elapsed t0 (now s)) (primary_addr (r_pool (router (env s))))
              (intent_text intent) (now s) t with
      | Some t' => set_trace (Some t')
      | None => se_fail Died
      end
  | None => mret tt
  end.

Definition measure (sql : bytes) (was_read : bool) (intent : QueryIntent) (t0 : Z) (is_err : bool) : ST unit :=
  let is_write := bool_decide (intent = Write) in
  observe (fun _ => Recorded sql) ;;
  s ← se_get;
  on_registry (on_query (username s)) ;;
  observe (fun s => AppQuery (username s) client_ip (app_name s) was_read is_write) ;;
  observe (fun s => Timed sql was_read is_write (elapsed t0 (now s))) ;;
  (if audit_active cfg
   then observe (fun s => Audited (username s) client_ip sql (if was_read then bs "replica" else bs "primary")
                            (elapsed t0 (now s)) is_err)
   else mret tt) ;;
  record_in_trace sql intent t0.

Definition end_transaction (sql : bytes) : ST unit :=
  set_in_transaction false ;;
  set_tx_start None ;;
  set_last_query None ;;
  finish_trace (if starts_with (to_uppercase (trim sql)) (bs "COMMIT") then bs "commit" else bs "rollback") ;;
  release_tx.

Definition normal_query (sql_bytes sql : bytes) (in_tx : bool) : ST unit :=
  let intent := classify sql in
  let was_read := bool_decide (intent = Read) && negb in_tx in
  ryow_active ← ryow_check was_read;
  bump QueriesTotal ;;
  s0 ← se_get;
  note_session_state sql ;;
  is_tx_end ← note_transaction sql intent;
  enforce_transaction_time ;;
  enforce_transaction_idle ;;
  count_intent was_read intent ;;
  deny_write intent ;;
  s ← se_get;
  let sticky := user_var_sticky (pins s) in
  let effective_in_tx := is_in_transaction s || sticky in
  forward_version sql effective_in_tx ;;
  check_injection sql ;;
  check_whitelist sql ;;
  note_sticky_hint sql ;;
  route_sticky sql_bytes effective_in_tx was_read ;;
  result ← route sql_bytes effective_in_tx (was_read && negb sticky && negb ryow_active);
  after_route (is_err result) was_read intent ;;
  (match result with Ok response => on_response was_read response | Err err => on_error sql err end) ;;
  measure sql was_read intent (now s0) (is_err result) ;;
  (if is_tx_end : bool then end_transaction sql else mret tt) ;;
  flush_or_break.

Definition query_command (sql_bytes : bytes) : ST unit :=
  let sql := from_utf8_or_empty sql_bytes in
  s ← se_get;
  let in_tx := is_in_transaction s in
  if fast_forward cfg then fast_forward_query sql_bytes sql in_tx
  else
    rule_fast_forward sql_bytes sql in_tx ;;
    normal_query sql_bytes sql in_tx.

(** ** The other commands *)

Definition reset_connection : ST unit :=
  set_init_sqls (fun _ => []) ;;
  set_pinned false ;;
  on_env (set_shadow My.new) ;;
  set_tx_start None ;;
  set_last_query None ;;
  set_in_transaction false ;;
  modify (with_errors {| consecutive_errors := 0; error_window_start := None |}) ;;
  finish_trace (bs "reset") ;;
  release_stmt ;;
  release_tx ;;
  release_sticky ;;
  reset_sticky_idx ;;
  set_hint false ;;
  or_break (reply OkPacket).

Definition other_command (raw : bytes) : ST unit :=
  s ← se_get;
  result ← routed (route_raw raw (is_in_transaction s));
  answer result ;;
  flush_or_break.

Definition COM_STMT_EXECUTE : Z := 23.

Definition stmt_command (raw : bytes) : ST unit :=
  (if bool_decide (head raw = Some COM_STMT_EXECUTE) then
     s ← se_get;
     on_registry (on_query (username s)) ;;
     observe (fun s => AppQuery (username s) client_ip (app_name s) false false)
   else mret tt) ;;
  s ← se_get;
  result ← routed (route_stmt_mysql_shadow raw (is_in_transaction s));
  (match result with
   | Ok response => if bool_decide (br_bytes response = []) then mret tt else or_break (reply (Response (br_bytes response)))
   | Err e => ignore (reply (ErrorPacket (bs "1") e))
   end) ;;
  flush_or_break ;;
  s ← se_get;
  if My.is_empty (shadow (env s)) && negb (is_in_transaction s) then release_stmt else mret tt.

Definition command (cmd : Command) : ST unit :=
  match cmd with
  | Quit => se_fail Break
  | Ping => or_break (reply OkPacket)
  | ResetConnection => reset_connection
  | Query sql_bytes => query_command sql_bytes
  | Handshake.Other raw => other_command raw
  | Stmt raw => stmt_command raw
  end.

(** One turn of the loop: [continue] is the end of it. *)
Definition turn (cmd : Command) : ST unit := fun s =>
  match command cmd s with
  | (Err Continue, s') => (Ok tt, s')
  | r => r
  end.

(** ** A whole session *)

Definition user_init (u : UserConfig) : list bytes :=
  (if bool_decide (default_schema u = []) then [] else [bs "USE `" ++ default_schema u ++ bs "`"]) ++
  (if bool_decide (transaction_isolation u = []) then []
   else [bs "SET SESSION TRANSACTION ISOLATION LEVEL " ++ transaction_isolation u]).

(** [false]: the user has too many connections, and the session is over. *)
Definition start_session : ST bool :=
  s ← se_get;
  on_registry (on_connect (username s) (cs_allow_writes (client s)) (unix_secs (world (env s)))) ;;
  observe (fun s => AppConnect (username s) client_ip (app_name s)) ;;
  match List.find (fun u => beq (name u) (username s)) (users_config cfg) with
  | Some u =>
      s ← se_get;
      if (0 <? uc_max_connections u) && (uc_max_connections u <? active_connections (username s) (registry (shared s)))
      then
        ignore (reply (ErrorPacket (bs "1040") (bs "Too many connections for this user"))) ;;
        ignore (reply Flushed) ;;
        on_registry (on_disconnect (username s)) ;;
        observe (fun s => AppDisconnect (username s) client_ip (app_name s)) ;;
        mret false
      else set_init_sqls (fun l => l ++ user_init u) ;; mret true
  | None => mret true
  end.

Definition close_session : ST unit :=
  observe (fun _ => Summarised) ;;
  finish_trace (bs "disconnect") ;;
  release_tx ;;
  release_stmt ;;
  release_sticky ;;
  s ← se_get;
  on_registry (on_disconnect (username s)) ;;
  observe (fun s => AppDisconnect (username s) client_ip (app_name s)).

(** The loop ends when the client sends no more commands. *)
Fixpoint session_loop (cmds : list Command) : ST unit :=
  match cmds with
  | [] => mret tt
  | cmd :: cmds' => turn cmd ;; session_loop cmds'
  end.

Definition run_loop (cmds : list Command) : ST unit := fun s =>
  match session_loop cmds s with
  | (Err Died, s') => (Err Died, s')
  | (_, s') => close_session s'
  end.
Definition run_session (cmds : list Command) : ST unit :=
  go ← start_session; if go : bool then run_loop cmds else mret tt.

Definition initial (e : Env) (c : MySQLClientSession) (h : Shared) : SState :=
  {| env := set_shadow My.new (set_sticky None usize_max (set_stmt None (set_tx None e))); client := c;
     tx := {| tx_start := None; last_query_in_tx := None; active_trace := None |};
     pins := {| user_var_sticky := false; session_init_sqls := []; sticky_hint_active := false |};
     ryow := {| ryow_until := None; last_write_gtid := None |};
     errors := {| consecutive_errors := 0; error_window_start := None |};
     warned_failover_write := false; shared := h; replies := [] |}.
End Session.

(** ** What the router leaves alone of a session *)

Section Own.
Context {W C : Type} `{IO : !BackendIO W C} `{CT : CaseTable} `{RE : RegexEngine}
  `{MO : !MapOrder bytes CacheEntry} `{MO1 : !MapOrder bytes bytes}
  `{MO2 : !MapOrder Z Z} `{MO3 : !MapOrder Z My.MysqlStmtInfo}.
Local Abbreviation EE := (Env (W := W) (C := C)).

(** A part that belongs to the session, not to the router or the world. *)
Context {X : Type} (f : EE -> X).
Definition own : Prop := (forall w e, f (set_world w e) = f e) /\ (forall r e, f (set_router r e) = f e).
Hypothesis Hown : own.

Lemma own_backends {A} (m : B (W := W) (C := C) A) : keeps f (on_backends m).
Proof. intros e. unfold on_backends. destruct (m _) as [r [p w]]. cbn [snd]. by rewrite (proj1 Hown), (proj2 Hown). Qed.
Lemma own_ask c sql : keeps f (ask c sql).
Proof. intros e. unfold ask. destruct (execute_query _ _ _) as [[r c'] w]. apply Hown. Qed.
Lemma own_ask_raw c p : keeps f (ask_raw c p).
Proof. intros e. unfold ask_raw. destruct (send_raw _ _ _) as [[r c'] w]. apply Hown. Qed.
Lemma own_tell_raw c p : keeps f (tell_raw c p).
Proof. intros e. unfold tell_raw. destruct (send_raw_no_response _ _ _) as [[r c'] w]. apply Hown. Qed.
Lemma own_lift {A} (r : result bytes A) : keeps f (lift r).
Proof. done. Qed.
Lemma own_upd_router g : keeps f (upd_router g).
Proof. intros e. apply Hown. Qed.
Lemma own_world w : keeps f (upd_env (set_world w)).
Proof. intros e. apply Hown. Qed.
Lemma own_mirror {A} a (m : P (W := W) (C := C) A) : keeps f (on_mirror a m).
Proof.
  intros e. unfold on_mirror. destruct (_ !! a); [|done]. destruct (m _) as [r [p w]]. cbn [snd].
  by rewrite (proj1 Hown), (proj2 Hown).
Qed.
Lemma own_cache_get k : keeps f (cache_get k).
Proof. intros e. unfold cache_get. destruct (QueryCache.get _ _ _). apply Hown. Qed.
Hint Resolve own_backends own_ask own_ask_raw own_tell_raw own_lift own_upd_router own_world own_mirror own_cache_get : keeps.

Lemma own_replay c sqls : keeps f (replay_session_vars c sqls).
Proof. revert c. induction sqls as [|sql sqls IH]; intros c; cbn [replay_session_vars]; keeps_tac. Qed.
Lemma own_run c sql : keeps f (run_query c sql).
Proof. unfold run_query, execute_timed, kill_query. keeps_tac. Qed.
Lemma own_mirror_if m sql : keeps f (mirror_if m sql).
Proof. unfold mirror_if, fire_mirror, mirror_get_or_create. keeps_tac. Qed.
Lemma own_put_back c i db : keeps f (put_back c i db).
Proof. unfold put_back, put_primary_db. keeps_tac. Qed.
Lemma own_put_primary c db : keeps f (put_primary_db c db).
Proof. unfold put_primary_db. keeps_tac. Qed.
Lemma own_cache_put k d : keeps f (cache_put k d).
Proof. unfold cache_put. keeps_tac. Qed.
Hint Resolve own_replay own_run own_mirror_if own_put_back own_put_primary own_cache_put : keeps.
Lemma own_read pl b : keeps f (read_path b pl).
Proof. unfold read_path, retry_read, record_replica_failure, record_replica_success, upd_backends. keeps_tac. Qed.
Lemma own_write pl : keeps f (write_path pl).
Proof.
  unfold write_path, attempt_write, retry_write, record_primary_failure, record_primary_success, upd_backends, cache_invalidate.
  keeps_tac.
Qed.
Lemma own_hostgroup hg b pl : keeps f (hostgroup_path hg b pl).
Proof. unfold hostgroup_path, cache_invalidate. keeps_tac. Qed.
Hint Resolve own_read own_write own_hostgroup : keeps.
Lemma own_dispatch b pl : keeps f (dispatch b pl).
Proof. unfold dispatch. keeps_tac. Qed.
Lemma own_rewrite sql : keeps f (rewrite_step sql).
Proof. unfold rewrite_step. keeps_tac. Qed.
Lemma own_rule sql u sch : keeps f (rule_step sql u sch).
Proof. unfold rule_step. keeps_tac. Qed.
Hint Resolve own_dispatch own_rewrite own_rule : keeps.

(** Outside a transaction a query leaves the session's own part alone. *)
Lemma own_route sql b user sch sqls db : keeps f (route_query_inner sql false b user sch sqls db).
Proof. unfold route_query_inner. keeps_tac. Qed.
Lemma own_ff_rule sql user sch : keeps f (is_fast_forward_rule sql user sch).
Proof. unfold is_fast_forward_rule. keeps_tac. Qed.
Lemma own_gtid g : keeps f (check_replica_has_gtid g).
Proof. unfold check_replica_has_gtid. keeps_tac. apply keeps_try. keeps_tac. Qed.
Lemma own_fast sql : keeps f (route_fast sql false).
Proof. unfold route_fast. keeps_tac. Qed.
End Own.
