(* ===== verification/SessionProps.v ===== *)
(** * What a session guarantees (src/src/proxy/server.rs)

    Theorems about the sessions of Session: the protocol stays in step, a transaction keeps
    its connection, who is refused what, and what happens to the connections. *)

From S2P Require Import Prelude Bytes Config Classifier Fingerprint QueryCache Rules Rewriter StmtShadow.
From S2P Require Import GroupReplication MysqlCodec MysqlResponse Auth Handshake TextRows CircuitBreaker Pool ProxyProtocol.
From S2P Require Import Router UserRegistry Tracer Session.

Create HintDb silent discriminated.

(** ** What the stages say to the client *)

Section Answers.
Context {W C : Type} `{IO : !BackendIO W C} `{CT : CaseTable} `{ET : EscapeTable} `{RE : RegexEngine}
  `{MO : !MapOrder bytes CacheEntry} `{MO1 : !MapOrder bytes bytes}
  `{MO2 : !MapOrder Z Z} `{MO3 : !MapOrder Z My.MysqlStmtInfo}.
Variable cfg : SessionConfig.
Local Abbreviation ST := (SE (SState (W := W) (C := C)) ctl).
Local Abbreviation SS := (SState (W := W) (C := C)).

(** Nothing is said, and the only early end is a panic. *)
Definition silent {A} (m : ST A) : Prop :=
  forall l, triple (fun s => replies s = l) m (fun _ s => replies s = l) (fun e _ => e = Died).

Lemma silent_bind {A B} (m : ST A) (f : A -> ST B) : silent m -> (forall a, silent (f a)) -> silent (m ≫= f).
Proof. intros Hm Hf l. eapply triple_bind; [apply Hm|]. intros a. apply Hf. Qed.
Lemma silent_ret {A} (a : A) : silent (mret a : ST A).
Proof. intros l. apply triple_ret. Qed.
Lemma silent_get : silent (se_get : ST SS).
Proof. by intros l s Hs. Qed.
Lemma silent_modify f : (forall s, replies (f s) = replies s) -> silent (modify f : ST unit).
Proof. intros H l s Hs. cbn. by rewrite H. Qed.
Lemma silent_died {A} : silent (se_fail Died : ST A).
Proof. by intros l s Hs. Qed.
Lemma silent_routed {A} (m : SE (Env (W := W) (C := C)) failure A) : silent (routed m).
Proof. intros l s Hs. unfold routed. by destruct (m (env s)) as [[a|[x|]] e]. Qed.
Lemma silent_iter {A} (f : A -> ST unit) l : (forall a, silent (f a)) -> silent (se_iter f l).
Proof. intros Hf. induction l; cbn [se_iter]; [apply silent_ret | by apply silent_bind]. Qed.
Lemma silent_ignore {A} (m : ST A) : silent m -> silent (ignore m).
Proof. intros Hm. apply silent_bind; [done|]. intros. apply silent_ret. Qed.

Ltac silent_tac :=
  repeat first
    [ progress intros
    | solve [auto with silent nocore]
    | apply silent_bind
    | apply silent_ignore
    | apply silent_ret | apply silent_get | apply silent_died | apply silent_routed
    | apply silent_modify; reflexivity
    | apply silent_iter
    | match goal with |- silent (match ?x with _ => _ end) => destruct x end ].

Lemma silent_release_tx : silent (release_tx (W := W) (C := C)).
Proof. unfold release_tx. silent_tac. Qed.
Lemma silent_release_sticky : silent (release_sticky (W := W) (C := C)).
Proof. unfold release_sticky. silent_tac. Qed.
Lemma silent_finish_trace out : silent (finish_trace (W := W) (C := C) out).
Proof. unfold finish_trace. silent_tac. Qed.
Hint Resolve silent_release_tx silent_release_sticky silent_finish_trace : silent.

Lemma silent_ryow b : silent (ryow_check cfg b).
Proof. unfold ryow_check. silent_tac. Qed.
Lemma silent_session_state sql : silent (note_session_state (W := W) (C := C) sql).
Proof. unfold note_session_state. silent_tac. Qed.
Lemma silent_transaction sql i : silent (note_transaction cfg sql i).
Proof. unfold note_transaction. silent_tac. Qed.
Lemma silent_count_intent b i : silent (count_intent (W := W) (C := C) b i).
Proof. unfold count_intent. silent_tac. Qed.
Lemma silent_hint sql : silent (note_sticky_hint (W := W) (C := C) sql).
Proof. unfold note_sticky_hint. silent_tac. Qed.
Lemma silent_route sql b1 b2 : silent (route (W := W) (C := C) sql b1 b2).
Proof. unfold route. silent_tac. Qed.
Lemma silent_after_route b1 b2 i : silent (after_route cfg b1 b2 i).
Proof. unfold after_route. silent_tac. Qed.
Lemma silent_abandon : silent (abandon_transaction (W := W) (C := C)).
Proof. unfold abandon_transaction. silent_tac. Qed.
Lemma silent_measure sql b i t0 e : silent (measure cfg sql b i t0 e).
Proof. unfold measure, record_in_trace. silent_tac. Qed.
Lemma silent_end sql : silent (end_transaction (W := W) (C := C) sql).
Proof. unfold end_transaction. silent_tac. Qed.
Hint Resolve silent_ryow silent_session_state silent_transaction silent_count_intent silent_hint
  silent_route silent_after_route silent_abandon silent_measure silent_end : silent.

(** The client takes every write. *)
Hypothesis client_listens : forall k, client_ok cfg k = true.

Definition is_answer (a : Reply) : Prop :=
  match a with Response _ | ErrorPacket _ _ => True | OkPacket | Flushed => False end.
Definition says (l : list Reply) (s : SS) : Prop := replies s = l.
Definition answered (l : list Reply) (s : SS) : Prop := exists a, is_answer a /\ replies s = l ++ [a; Flushed].
(** How a stage may end the command: in a panic, or with one answer. *)
Definition ended (l : list Reply) (e : ctl) (s : SS) : Prop := e = Died \/ answered l s.
(** A stage goes on in silence or ends the command. *)
Definition stage {A} (m : ST A) : Prop := forall l, triple (says l) m (fun _ => says l) (ended l).

Lemma silent_stage {A} (m : ST A) : silent m -> stage m.
Proof. intros Hm l. eapply triple_conseq; [apply (Hm l) | done | done |]. intros e s ->. by left. Qed.
Lemma stage_bind {A B} (m : ST A) (f : A -> ST B) : stage m -> (forall a, stage (f a)) -> stage (m ≫= f).
Proof. intros Hm Hf l. eapply triple_bind; [apply Hm|]. intros a. apply Hf. Qed.
Lemma stage_ret {A} (a : A) : stage (mret a : ST A).
Proof. apply silent_stage, silent_ret. Qed.

Lemma says_reply r l : triple (says l) (or_break (reply cfg r)) (fun _ => says (l ++ [r])) (fun _ _ => False).
Proof. intros s Hs. unfold or_break, reply, mbind, se_bind. rewrite client_listens. unfold says in *. cbn. by rewrite Hs. Qed.
Lemma says_reply_eq r (s : SS) : or_break (reply cfg r) s = (Ok tt, with_reply r s).
Proof. unfold or_break, reply, mbind, se_bind. by rewrite client_listens. Qed.
Lemma says_ignored r l : triple (says l) (ignore (reply cfg r)) (fun _ => says (l ++ [r])) (fun _ _ => False).
Proof. intros s Hs. unfold ignore, reply, mbind, se_bind, says in *. cbn. by rewrite Hs. Qed.
Lemma says_answer r l :
  triple (says l) (answer cfg r) (fun _ s => exists a, is_answer a /\ says (l ++ [a]) s) (fun _ _ => False).
Proof.
  destruct r as [resp|err]; unfold answer.
  - eapply triple_conseq; [apply (says_reply (Response (br_bytes resp)) l) | done | | done].
    intros [] s Hs. eexists. split; [|exact Hs]. exact I.
  - eapply triple_conseq; [apply (says_ignored (ErrorPacket (bs "1") err) l) | done | | done].
    intros [] s Hs. eexists. split; [|exact Hs]. exact I.
Qed.

(** An answer, a flush and the end of the command. *)
Lemma answer_ends {A} (a : Reply) (m f : ST unit) e :
  is_answer a ->
  (forall l, triple (says l) m (fun _ => says (l ++ [a])) (fun _ _ => False)) ->
  (forall l, triple (says l) f (fun _ => says (l ++ [Flushed])) (fun _ _ => False)) ->
  stage (m ;; f ;; (se_fail e : ST A)).
Proof.
  intros Ha Hm Hf l. eapply triple_bind; [eapply triple_conseq; [apply (Hm l)|done|done|done]|].
  intros []. eapply triple_bind; [eapply triple_conseq; [apply (Hf (l ++ [a]))|done|done|done]|].
  intros [] s Hs. right. exists a. split; [exact Ha|]. unfold says in Hs. by rewrite Hs, <- app_assoc.
Qed.

Lemma stage_refuse {A} code msg : stage (refuse cfg code msg : ST A).
Proof. unfold refuse. apply (answer_ends (ErrorPacket code msg)); [exact I | apply says_ignored | apply says_ignored]. Qed.
Lemma stage_error_flush {A} code msg e :
  stage (ignore (reply cfg (ErrorPacket code msg)) ;; flush_or_break cfg ;; (se_fail e : ST A)).
Proof. apply (answer_ends (ErrorPacket code msg)); [exact I | apply says_ignored | apply says_reply]. Qed.

Lemma stage_response_flush {A} b e :
  stage (or_break (reply cfg (Response b)) ;; flush_or_break cfg ;; (se_fail e : ST A)).
Proof. apply (answer_ends (Response b)); [exact I | apply says_reply | apply says_reply]. Qed.

Ltac stage_tac :=
  repeat first
    [ progress intros
    | solve [auto with silent nocore]
    | apply silent_stage; solve [silent_tac]
    | apply stage_refuse | apply stage_error_flush | apply stage_response_flush | apply stage_ret
    | apply stage_bind
    | match goal with |- stage (match ?x with _ => _ end) => destruct x end ].

Lemma stage_kill out msg : stage (kill_transaction cfg out msg).
Proof. unfold kill_transaction, drop_tx. stage_tac. Qed.
Hint Resolve stage_kill : silent.
Lemma stage_time : stage (enforce_transaction_time cfg).
Proof. unfold enforce_transaction_time. stage_tac. Qed.
Lemma stage_idle : stage (enforce_transaction_idle cfg).
Proof. unfold enforce_transaction_idle. stage_tac. Qed.
Lemma stage_deny i : stage (deny_write cfg i).
Proof. unfold deny_write. stage_tac. Qed.
Lemma stage_version sql b : stage (forward_version cfg sql b).
Proof.
  unfold forward_version. destruct (_ && _); [|apply stage_ret].
  apply (answer_ends (Response version_response)); [exact I | apply says_ignored | apply says_ignored].
Qed.
Lemma stage_block m sql d ev msg : stage (block cfg m sql d ev msg).
Proof. unfold block. stage_tac. Qed.
Hint Resolve stage_block : silent.
Lemma stage_injection sql : stage (check_injection cfg sql).
Proof. unfold check_injection. stage_tac. Qed.
Lemma stage_whitelist sql : stage (check_whitelist cfg sql).
Proof. unfold check_whitelist. stage_tac. Qed.
Lemma stage_sticky sql b1 b2 : stage (route_sticky cfg sql b1 b2).
Proof. unfold route_sticky. stage_tac. Qed.
Hint Resolve stage_time stage_idle stage_deny stage_version stage_injection stage_whitelist stage_sticky : silent.

(** From the answer of the backend to the flush. *)
Definition finished (l : list Reply) (m : ST unit) : Prop :=
  triple (says l) m (fun _ => answered l) (ended l).

Lemma finished_stage {A} l (m : ST A) f : stage m -> (forall a, finished l (f a)) -> finished l (m ≫= f).
Proof. intros Hm Hf. eapply triple_bind; [apply Hm|]. intros a. apply Hf. Qed.

Lemma count_error_says l :
  triple (says l) (count_error cfg) (fun _ => says l) (fun e s => e = Break /\ says (l ++ [Flushed]) s).
Proof.
  unfold count_error. eapply triple_bind; [apply triple_get|]. intros s0.
  destruct (0 <? client_error_limit cfg); [|by intros s [H _]].
  eapply (triple_bind _ _ (fun _ => says l)); [by intros s [H _]|]. intros _.
  destruct (_ <=? _); [|apply triple_ret].
  eapply (triple_bind _ _ (fun _ => says (l ++ [Flushed]))); [|].
  - eapply triple_conseq; [apply (says_ignored Flushed l)|done|done|done].
  - intros [] s Hs. done.
Qed.

Lemma on_result_says l sql was_read result :
  triple (says l)
    (match result with Ok response => on_response cfg was_read response | Err err => on_error cfg sql err end)
    (fun _ s => exists a, is_answer a /\ says (l ++ [a]) s) (ended l).
Proof.
  destruct result as [response|err].
  - unfold on_response. unfold track_change.
    do 3 (eapply triple_bind; [refine (silent_stage _ _ l); silent_tac | intros ?]).
    eapply triple_conseq; [apply (says_reply (Response (br_bytes response)) l) | done | | done].
    intros [] s Hs. eexists. split; [|exact Hs]. exact I.
  - unfold on_error. do 3 (eapply triple_bind; [refine (silent_stage _ _ l); silent_tac | intros ?]).
    eapply (triple_bind _ _ (fun _ => says (l ++ [ErrorPacket (bs "1") err]))).
    { eapply triple_conseq; [apply (says_ignored (ErrorPacket (bs "1") err) l)|done|done|done]. }
    intros _. eapply triple_conseq; [apply count_error_says | done | |].
    + intros [] s Hs. eexists. split; [|exact Hs]. exact I.
    + intros e s [_ Hs]. right. exists (ErrorPacket (bs "1") err). split; [exact I|].
      unfold says in Hs. by rewrite Hs, <- app_assoc.
Qed.

(** An answer that is not flushed yet. *)
Definition pending (l : list Reply) (s : SS) : Prop := exists a, is_answer a /\ says (l ++ [a]) s.

Lemma pending_silent {A} l (m : ST A) : silent m -> triple (pending l) m (fun _ => pending l) (ended l).
Proof.
  intros Hm s (a & Ha & Hs). specialize (Hm _ s Hs). destruct (m s) as [[x|e] s1]; [|by left]. by exists a.
Qed.
Lemma pending_flush l : triple (pending l) (flush_or_break cfg) (fun _ => answered l) (ended l).
Proof.
  intros s (a & Ha & Hs). pose proof (says_reply Flushed _ s Hs) as Hf. unfold flush_or_break.
  destruct (or_break _ s) as [[[]|e] s1]; [|done]. exists a. split; [exact Ha|]. unfold says in Hf.
  by rewrite Hf, <- app_assoc.
Qed.

Lemma normal_query_finished l sql_bytes sql in_tx : finished l (normal_query cfg sql_bytes sql in_tx).
Proof.
  unfold normal_query.
  do 17 (apply finished_stage; [stage_tac | intros ?]).
  eapply triple_bind; [apply on_result_says | intros ?].
  do 2 (eapply triple_bind; [apply pending_silent; silent_tac | intros ?]).
  apply pending_flush.
Qed.

Lemma answer_flush_ends {A} r e l (Q : A -> SS -> Prop) :
  triple (says l) (answer cfg r ;; flush_or_break cfg ;; se_fail e) Q (ended l).
Proof.
  eapply triple_bind; [eapply triple_conseq; [apply says_answer|done|done|done]|intros []].
  eapply triple_bind; [apply pending_flush | intros []]. intros s Hs. by right.
Qed.

Lemma query_command_ended l sql_bytes :
  triple (says l) (query_command cfg sql_bytes) (fun _ => answered l) (ended l).
Proof.
  unfold query_command. apply (finished_stage l); [stage_tac | intros s0]. destruct (fast_forward cfg).
  - unfold fast_forward_query. do 4 (apply finished_stage; [stage_tac | intros ?]). apply answer_flush_ends.
  - apply finished_stage; [|intros []; apply normal_query_finished].
    unfold rule_fast_forward. destruct (is_in_transaction s0); [apply stage_ret|].
    do 2 (apply stage_bind; [stage_tac | intros ?]). destruct a0 as [[|]|]; try apply stage_ret.
    do 3 (apply stage_bind; [stage_tac | intros ?]). intros k. apply answer_flush_ends.
Qed.

(** C2: The protocol stays in step: whatever a query is (served by a fast path, killed,
    denied, blocked, answered by the proxy itself, routed, failed), the client gets exactly
    one response or error packet for it and then a flush, unless the task panics. *)
Theorem query_answered_once s sql_bytes :
  match turn cfg (Query sql_bytes) s with
  | (Err Died, _) => True
  | (_, s') => exists a, is_answer a /\ replies s' = replies s ++ [a; Flushed]
  end.
Proof.
  unfold turn. cbn [command]. pose proof (query_command_ended (replies s) sql_bytes s eq_refl) as H.
  destruct (query_command cfg sql_bytes s) as [[[]|[]] s']; try exact I; try exact H.
  all: by destruct H as [H|H].
Qed.
End Answers.
#[export] Hint Resolve silent_release_tx silent_release_sticky silent_finish_trace silent_ryow silent_session_state
  silent_transaction silent_count_intent silent_hint silent_route silent_after_route silent_abandon silent_measure
  silent_end : silent.

(** ** Transactions *)

Section Transactions.
Context {W C : Type} `{IO : !BackendIO W C} `{CT : CaseTable} `{ET : EscapeTable} `{RE : RegexEngine}
  `{MO : !MapOrder bytes CacheEntry} `{MO1 : !MapOrder bytes bytes}
  `{MO2 : !MapOrder Z Z} `{MO3 : !MapOrder Z My.MysqlStmtInfo}.
Variable cfg : SessionConfig.
Local Abbreviation ST := (SE (SState (W := W) (C := C)) ctl).
Local Abbreviation SS := (SState (W := W) (C := C)).

(** The connections and the identity of a session. *)
Definition view (s : SS) : Env (W := W) (C := C) * MySQLClientSession := (env s, client s).

Lemma view_modify f : (forall s, view (f s) = view s) -> keeps view (modify f : ST unit).
Proof. intros H s. apply H. Qed.
Lemma view_reply r : keeps view (reply cfg r : ST bool).
Proof. done. Qed.
Lemma view_observe ev : keeps view (observe ev : ST unit).
Proof. done. Qed.
Lemma view_iter {A} (f : A -> ST unit) l : (forall a, keeps view (f a)) -> keeps view (se_iter f l).
Proof. intros Hf. induction l; cbn [se_iter]; [apply keeps_ret | by apply keeps_bind]. Qed.
Hint Resolve view_reply view_observe : keeps.
Ltac view_tac := repeat first [progress keeps_tac | apply view_modify; reflexivity | apply view_iter].

Lemma view_finish_trace out : keeps view (finish_trace out : ST unit).
Proof. unfold finish_trace, push_trace, on_shared. view_tac. Qed.
Lemma view_session_state sql : keeps view (note_session_state sql : ST unit).
Proof. unfold note_session_state, bump, on_shared. view_tac. Qed.
Lemma view_count_intent b i : keeps view (count_intent b i : ST unit).
Proof. unfold count_intent, bump, on_shared. view_tac. Qed.
Lemma view_after_route b1 b2 i : keeps view (after_route cfg b1 b2 i : ST unit).
Proof. unfold after_route. view_tac. Qed.
Lemma view_on_response b r : keeps view (on_response cfg b r : ST unit).
Proof. unfold on_response, track_change, or_break. view_tac. Qed.
Lemma view_count_error : keeps view (count_error cfg : ST unit).
Proof. unfold count_error, ignore. view_tac. Qed.
Lemma view_measure sql b i t0 e : keeps view (measure cfg sql b i t0 e : ST unit).
Proof. unfold measure, record_in_trace, on_registry, on_shared. view_tac. Qed.
Lemma view_flush : keeps view (flush_or_break cfg : ST unit).
Proof. unfold flush_or_break, or_break. view_tac. Qed.
Lemma view_bump m : keeps view (bump m : ST unit).
Proof. unfold bump, on_shared. view_tac. Qed.
Lemma view_ryow : keeps view (ryow_check cfg false : ST bool).
Proof. unfold ryow_check. rewrite andb_false_r. view_tac. Qed.
Hint Resolve view_finish_trace view_session_state view_count_intent view_after_route view_on_response
  view_count_error view_measure view_flush view_bump view_ryow : keeps.

(** A step that keeps the view keeps whatever depends on it. *)
Lemma triple_view {A} (P : Env (W := W) (C := C) * MySQLClientSession -> Prop) (m : ST A) :
  keeps view m -> triple (fun s => P (view s)) m (fun _ s => P (view s)) (fun _ s => P (view s)).
Proof. intros Hm s Hs. specialize (Hm s). destruct (m s) as [[a|e] s1]; cbn [snd] in Hm; by rewrite Hm. Qed.

(** In a transaction on connection [c], in the world [w]. *)
Definition on_conn (c : C) (w : W) (aw : bool) (v : Env (W := W) (C := C) * MySQLClientSession) : Prop :=
  tx_conn (fst v) = Some c /\ world (fst v) = w /\ Handshake.in_transaction (snd v) = true /\
  cs_allow_writes (snd v) = aw.

Definition ends_transaction (sql : bytes) : bool :=
  let upper := to_uppercase (trim sql) in
  bool_decide (classify sql = Transaction) && negb (starts_with upper (bs "BEGIN") || starts_with upper (bs "START"))
  && (starts_with upper (bs "COMMIT") || starts_with upper (bs "ROLLBACK")).

(** Nothing in the configuration stops the statement. *)
Definition admitted (aw : bool) (sql : bytes) : Prop :=
  fast_forward cfg = false /\ (aw = true \/ classify sql <> Write) /\
  match sqli_detector cfg with Some d => detector_check d sql = None | None => True end /\
  is_allowed (query_whitelist cfg) sql = true /\ extract_sticky_hint sql <> Some false.

(** What the limits of a transaction look at: its clocks, and the time. *)
Definition timed (s : SS) : (Env (W := W) (C := C) * MySQLClientSession) * (option Z * option Z) :=
  (view s, (tx_start (tx s), last_query_in_tx (tx s))).
Definition expired (ms : Z) (since : Z) (w : W) : bool := (0 <? ms) && (ms <? elapsed since (now_ns w) / 10 ^ 6).
(** Neither limit has run out. *)
Definition in_time (w : W) (clocks : option Z * option Z) : bool :=
  match fst clocks with Some ts => negb (expired (max_transaction_time_ms cfg) ts w) | None => true end
  && match snd clocks with Some lq => negb (expired (max_transaction_idle_ms cfg) lq w) | None => true end.
Definition on_time (c : C) (w : W) (aw : bool) (s : SS) : Prop :=
  on_conn c w aw (view s) /\ in_time w (snd (timed s)) = true.

Lemma timed_modify f : (forall s, timed (f s) = timed s) -> keeps timed (modify f : ST unit).
Proof. intros H s. apply H. Qed.
Ltac timed_tac := repeat first [progress keeps_tac | apply timed_modify; reflexivity].
Lemma timed_ryow : keeps timed (ryow_check cfg false : ST bool).
Proof. unfold ryow_check. rewrite andb_false_r. timed_tac. Qed.
Lemma timed_bump m : keeps timed (bump m : ST unit).
Proof. unfold bump, on_shared. timed_tac. Qed.
Lemma timed_session_state sql : keeps timed (note_session_state sql : ST unit).
Proof. unfold note_session_state, bump, on_shared. timed_tac. Qed.
Lemma triple_calm {A} c w aw (m : ST A) Q (X : ctl -> SS -> Prop) (f : A -> ST unit) :
  keeps timed m -> silent m -> (forall s, X Died s) -> (forall a, triple (on_time c w aw) (f a) Q X) ->
  triple (on_time c w aw) (m ≫= f) Q X.
Proof.
  intros Hm Hsil HX Hf. eapply triple_bind; [|exact Hf]. intros s [H1 H2]. specialize (Hm s). specialize (Hsil _ s eq_refl).
  destruct (m s) as [[a|e] s1]; cbn [snd] in *; [|by subst e]. unfold on_time. rewrite Hm.
  split; [|done]. apply (f_equal fst) in Hm. cbn [timed fst] in Hm. by rewrite Hm.
Qed.

Lemma note_transaction_spec c w aw sql :
  triple (on_time c w aw) (note_transaction cfg sql (classify sql) : ST bool)
    (fun b s => b = ends_transaction sql /\ on_time c w aw s) (fun _ _ => False).
Proof.
  unfold note_transaction, ends_transaction. intros s [(H1 & H2 & H3 & H4) Ht].
  destruct (bool_decide (classify sql = Transaction)); [|done].
  destruct (_ || _) eqn:E; [|done]. cbn [negb andb]. unfold on_time. split; [done|]. split; [done|].
  apply andb_prop in Ht as [_ Ht]. cbn [timed snd] in *.
  assert (expired (max_transaction_time_ms cfg) (now s) w = false) as Hnow.
  { unfold expired, now. cbn [view fst] in H2. rewrite H2. unfold elapsed. rewrite Z.sub_diag.
    change (Z.max 0 0 / 10 ^ 6) with 0. destruct (Z.ltb_spec 0 (max_transaction_time_ms cfg)); [|done].
    apply Z.ltb_ge. lia. }
  cbn. change (now (with_client _ s)) with (now s). unfold in_time. cbn [fst snd]. rewrite Hnow. exact Ht.
Qed.
Lemma within_limits c w aw (s : SS) : on_time c w aw s ->
  enforce_transaction_time cfg s = (Ok tt, s) /\ enforce_transaction_idle cfg s = (Ok tt, s).
Proof.
  intros [(_ & Hw & _) Ht]. cbn [view fst timed snd] in *. apply andb_prop in Ht as [H1 H2]. cbn [fst snd] in *.
  unfold enforce_transaction_time, enforce_transaction_idle, elapsed_ms, now, expired in *.
  rewrite !(se_bind_ok _ _ s s s) by done. rewrite Hw. split.
  - destruct (tx_start (tx s)); [|done]. apply negb_true_iff in H1. by rewrite H1.
  - destruct (last_query_in_tx (tx s)); [|done]. apply negb_true_iff in H2. destruct (tx_start (tx s)); [|done]. by rewrite H2.
Qed.


Lemma checks_pass aw sql (s : SS) :
  admitted aw sql -> cs_allow_writes (client s) = aw ->
  deny_write cfg (classify sql) s = (Ok tt, s) /\ check_injection cfg sql s = (Ok tt, s) /\
  check_whitelist cfg sql s = (Ok tt, s).
Proof.
  intros (_ & Hw & Hs & Hl & _) Ha. split_and!.
  - unfold deny_write. rewrite (se_bind_ok _ _ s s s) by done. rewrite Ha.
    destruct Hw as [->|Hw]; [done|]. by rewrite bool_decide_eq_false_2, andb_false_r.
  - unfold check_injection. destruct (sqli_detector cfg) as [d|]; [by rewrite Hs | done].
  - unfold check_whitelist. by rewrite Hl.
Qed.

Lemma route_in_tx c w aw sql u :
  triple (fun s => on_conn c w aw (view s)) (route sql true u : ST (result bytes BackendResponse))
    (fun r s => let '(r', c', w') := execute_query c sql w in r = r' /\ on_conn c' w' aw (view s)) (fun _ _ => False).
Proof.
  intros s (H1 & H2 & H3 & H4). unfold route. rewrite (se_bind_ok _ _ s s s) by done. cbn [fst snd view] in *.
  assert (forall sqls, match routed (route_query_inner sql true u (username s) [] sqls None) s with
    | (Ok r, s') => let '(r', c', w') := execute_query c sql w in r = r' /\ on_conn c' w' aw (view s')
    | (Err _, _) => False end) as Hr.
  { intros sqls. pose proof (in_transaction_runs (env s) c sql u (username s) [] sqls None H1) as Hq.
    unfold routed. rewrite H2 in Hq. destruct (execute_query c sql w) as [[r c'] w']. rewrite Hq.
    destruct r; cbn; done. }
  by destruct (session_init_sqls (pins s)) as [|q qs]; apply Hr.
Qed.

(** A stage that lets the statement pass. *)
Lemma triple_pass {A} (P : SS -> Prop) (m : ST A) a Q X (f : A -> ST unit) :
  (forall s, P s -> m s = (Ok a, s)) -> triple P (f a) Q X -> triple P (m ≫= f) Q X.
Proof. intros Hm Hf s Hs. unfold mbind, se_bind. rewrite (Hm s Hs). by apply Hf. Qed.
(** A computation that does not end the command by itself. *)
Definition goes_on {A} (m : ST A) : Prop := forall s, fst (m s) <> Err Continue.
Lemma goes_on_bind {A B} (m : ST A) (f : A -> ST B) : goes_on m -> (forall a, goes_on (f a)) -> goes_on (m ≫= f).
Proof.
  intros Hm Hf s. unfold mbind, se_bind. specialize (Hm s). destruct (m s) as [[a|e] s1]; [apply Hf|].
  intros H. apply Hm. cbn in *. congruence.
Qed.
Lemma goes_on_iter {A} (f : A -> ST unit) l : (forall a, goes_on (f a)) -> goes_on (se_iter f l).
Proof. intros Hf. induction l; cbn [se_iter]; [done | by apply goes_on_bind]. Qed.
Ltac goes_on_tac :=
  repeat first
    [ progress intros
    | apply goes_on_bind | apply goes_on_iter
    | match goal with |- goes_on (match ?x with _ => _ end) => destruct x end
    | by intros ? ? ].

Lemma triple_kept {A} (P : Env (W := W) (C := C) * MySQLClientSession -> Prop) (m : ST A) Q (X : ctl -> SS -> Prop) (f : A -> ST unit) :
  keeps view m -> goes_on m -> (forall e s, e <> Continue -> P (view s) -> X e s) ->
  (forall a, triple (fun s => P (view s)) (f a) Q X) -> triple (fun s => P (view s)) (m ≫= f) Q X.
Proof.
  intros Hm Hg HX Hf. eapply triple_bind; [|exact Hf]. intros s Hs. specialize (Hm s). specialize (Hg s).
  destruct (m s) as [[a|e] s1]; cbn [snd fst] in *; [by rewrite Hm|].
  apply HX; [intros ->; by apply Hg | by rewrite Hm].
Qed.

Lemma triple_quiet {A} (P : Env (W := W) (C := C) * MySQLClientSession -> Prop) (m : ST A) Q (X : ctl -> SS -> Prop) (f : A -> ST unit) :
  keeps view m -> silent m -> (forall s, X Died s) -> (forall a, triple (fun s => P (view s)) (f a) Q X) ->
  triple (fun s => P (view s)) (m ≫= f) Q X.
Proof.
  intros Hm Hsil HX Hf. eapply triple_bind; [|exact Hf]. intros s Hs. specialize (Hm s). specialize (Hsil _ s eq_refl).
  destruct (m s) as [[a|e] s1]; cbn [snd] in *; [by rewrite Hm | by subst e].
Qed.

Lemma triple_lift {A} (H : Prop) (P : SS -> Prop) (m : ST A) Q X :
  (H -> triple P m Q X) -> triple (fun s => H /\ P s) m Q X.
Proof. intros Hm s [HH Hs]. by apply Hm. Qed.
Lemma silent_bump m : silent (bump m : ST unit).
Proof. intros l s Hs. exact Hs. Qed.
Lemma view_hint sql : extract_sticky_hint sql <> Some false -> keeps view (note_sticky_hint sql : ST unit).
Proof. intros H. unfold note_sticky_hint. by destruct (extract_sticky_hint sql) as [[|]|]. Qed.

Lemma view_on_error sql err : is_gone err = false -> keeps view (on_error cfg sql err : ST unit).
Proof. intros Hg. unfold on_error. rewrite Hg. cbn [andb]. unfold ignore. view_tac. Qed.

Lemma goes_on_response b r : goes_on (on_response cfg b r : ST unit).
Proof. unfold on_response, track_change, or_break. goes_on_tac. Qed.
Lemma goes_on_error sql err : goes_on (on_error cfg sql err : ST unit).
Proof. unfold on_error, abandon_transaction, finish_trace, count_error, ignore. goes_on_tac. Qed.

(** The transaction is over and its connection went back to the pool. *)
Definition closed (c : C) (w : W) (s : SS) : Prop :=
  is_in_transaction s = false /\ tx_start (tx s) = None /\
  exists e, world e = w /\ env s = snd (router_put_primary c (set_tx None e)).

Lemma put_primary_total (c : C) e : exists r, router_put_primary c e = (r, snd (router_put_primary c e)) /\ r <> Err Panicked.
Proof.
  unfold router_put_primary, put_primary_db, on_backends. destruct (put_primary_for_database _ _ _) as [r [p w]].
  exists (failed r). split; [done|]. by destruct r.
Qed.

Lemma end_transaction_spec c w aw sql :
  triple (fun s => on_conn c w aw (view s)) (end_transaction sql : ST unit) (fun _ => closed c w) (fun _ _ => False).
Proof.
  intros s (H1 & H2 & H3 & H4). unfold view in *. cbn [fst snd] in *. unfold end_transaction.
  set (s1 := snd (set_in_transaction false s)). rewrite (se_bind_ok _ _ s tt s1) by done.
  set (s2 := snd (set_tx_start None s1)). rewrite (se_bind_ok _ _ s1 tt s2) by done.
  set (s3 := snd (set_last_query None s2)). rewrite (se_bind_ok _ _ s2 tt s3) by done.
  set (ft := finish_trace _). assert (exists s4, ft s3 = (Ok tt, s4) /\ view s4 = view s3 /\ tx_start (tx s4) = None) as (s4 & E4 & V4 & T4).
  { unfold ft, finish_trace. rewrite (se_bind_ok _ _ s3 s3 s3) by done.
    destruct (active_trace (tx s3)); eexists; split_and!; reflexivity. }
  rewrite (se_bind_ok _ _ _ _ _ E4). unfold view in V4. injection V4 as V5 V6.
  unfold release_tx. rewrite (se_bind_ok _ _ s4 s4 s4) by done. rewrite V5.
  change (tx_conn (env s3)) with (tx_conn (env s)). rewrite H1.
  set (s5 := with_env (set_tx None (env s4)) s4). rewrite (se_bind_ok _ _ s4 tt s5) by done.
  destruct (put_primary_total c (env s5)) as (r & Hr & Hp). unfold ignore.
  assert (exists x, routed (router_put_primary c) s5 = (Ok x, with_env (snd (router_put_primary c (env s5))) s5)) as (x & Hx).
  { unfold routed. rewrite Hr. destruct r as [a|[e|]]; [eexists; reflexivity .. | done]. }
  rewrite (se_bind_ok _ _ _ _ _ Hx). split_and!.
  - change (Handshake.in_transaction (client s4) = false). by rewrite V6.
  - exact T4.
  - exists (env s4). split; [by rewrite V5 | done].
Qed.

(** Where a statement leaves a transaction. *)
Definition left_at (sql : bytes) (aw : bool) (c : C) (w : W) (s : SS) : Prop :=
  if ends_transaction sql then closed c w s else on_conn c w aw (view s).

Lemma normal_query_in_tx c w aw sql_bytes sql r c' w' :
  admitted aw sql -> execute_query c sql_bytes w = (r, c', w') ->
  (forall err, r = Err err -> is_gone err = false) ->
  triple (on_time c w aw) (normal_query cfg sql_bytes sql true)
    (fun _ s => left_at sql aw c' w' s)
    (fun e s => e = Died \/ e = Break /\ (on_conn c' w' aw (view s) \/ left_at sql aw c' w' s)).
Proof.
  intros Had Hq Hgone. pose proof Had as (Hff & _ & _ & _ & Hhint). unfold normal_query. rewrite andb_false_r.
  apply triple_calm; [apply timed_ryow | auto with silent | by left | intros ryow_active].
  apply triple_calm; [apply timed_bump | apply silent_bump | by left | intros _].
  apply triple_get_bind. intros s0 _.
  apply triple_calm; [apply timed_session_state | auto with silent | by left | intros _].
  eapply triple_bind; [eapply triple_conseq; [apply (note_transaction_spec c w aw)|done|intros a s Hs; exact Hs|by intros ? ? []]|].
  intros is_tx_end. apply (triple_lift (is_tx_end = ends_transaction sql)). intros ->.
  eapply triple_pass; [intros s1 Hs1; by apply (within_limits c w aw)|].
  eapply triple_pass; [intros s1 Hs1; by apply (within_limits c w aw)|].
  eapply (triple_conseq (fun s => on_conn c w aw (view s))); [|intros s [Hs _]; exact Hs | intros a s Hs; exact Hs | intros e s Hs; exact Hs].
  apply triple_quiet; [auto with keeps | auto with silent | by left | intros _].
  eapply triple_pass; [intros s1 (_ & _ & _ & H4); by apply (checks_pass aw sql s1 Had)|].
  apply triple_get_bind. intros s1 (_ & _ & Hin & _). cbn [view snd] in Hin.
  unfold is_in_transaction. rewrite Hin. cbn [orb].
  eapply triple_pass; [intros s2 _; unfold forward_version; by rewrite andb_false_r|].
  eapply triple_pass; [intros s2 (_ & _ & _ & H4); by apply (checks_pass aw sql s2 Had)|].
  eapply triple_pass; [intros s2 (_ & _ & _ & H4); by apply (checks_pass aw sql s2 Had)|].
  apply triple_quiet; [by apply view_hint | auto with silent | by left | intros _].
  eapply triple_pass; [intros s2 _; unfold route_sticky; rewrite (se_bind_ok _ _ s2 s2 s2) by done; by rewrite andb_false_r|].
  eapply triple_bind; [eapply triple_conseq; [apply (route_in_tx c w aw)|done|intros a s Hs; exact Hs|by intros ? ? []]|].
  cbn beta. rewrite Hq. intros result. apply (triple_lift (result = r)). intros ->.
  apply triple_quiet; [auto with keeps | auto with silent | by left | intros _].
  apply triple_kept; [| | by intros [] s He Hs; [|right; split; [|left]|left] | intros _].
  { destruct r as [response|err]; [apply view_on_response | by apply view_on_error, Hgone]. }
  { destruct r as [response|err]; [apply goes_on_response | apply goes_on_error]. }
  apply triple_quiet; [auto with keeps | auto with silent | by left | intros _].
  unfold left_at. destruct (ends_transaction sql).
  - eapply triple_bind; [eapply triple_conseq; [apply (end_transaction_spec c' w' aw sql)|done|intros a s Hs; exact Hs|by intros ? ? []]|].
    intros _ s Hs. unfold flush_or_break, or_break, reply, mbind, se_bind.
    destruct (client_ok cfg _); [exact Hs | right; split; [done | right; exact Hs]].
  - apply triple_kept; [apply keeps_ret | done | by intros [] s He Hs; [|right; split; [|left]|left] | intros _].
    intros s Hs. unfold flush_or_break, or_break, reply, mbind, se_bind.
    destruct (client_ok cfg _); [exact Hs | right; split; [done | left; exact Hs]].
Qed.

End Transactions.

(** ** Refusals *)

Section Refusals.
Context {W C : Type} `{IO : !BackendIO W C} `{CT : CaseTable} `{ET : EscapeTable} `{RE : RegexEngine}
  `{MO : !MapOrder bytes CacheEntry} `{MO1 : !MapOrder bytes bytes}
  `{MO2 : !MapOrder Z Z} `{MO3 : !MapOrder Z My.MysqlStmtInfo}.
Variable cfg : SessionConfig.
Local Abbreviation ST := (SE (SState (W := W) (C := C)) ctl).
Local Abbreviation SS := (SState (W := W) (C := C)).

(** What was said, the outside world and the permission. *)
Definition guard (s : SS) : list Reply * W * bool := (replies s, world (env s), cs_allow_writes (client s)).

Lemma guard_modify f : (forall s, guard (f s) = guard s) -> keeps guard (modify f : ST unit).
Proof. intros H s. apply H. Qed.
Lemma guard_routed {A} (m : SE (Env (W := W) (C := C)) failure A) : keeps world m -> keeps guard (routed m).
Proof.
  intros Hm s. unfold routed. specialize (Hm (env s)). destruct (m (env s)) as [[a|[x|]] e]; cbn [snd] in *;
    unfold guard; cbn; by rewrite Hm.
Qed.
Ltac guard_tac := repeat first [progress keeps_tac | apply guard_modify; reflexivity].

Lemma guard_finish_trace out : keeps guard (finish_trace out : ST unit).
Proof. unfold finish_trace, push_trace, on_shared, set_trace. guard_tac. Qed.
Lemma guard_bump m : keeps guard (bump m : ST unit).
Proof. unfold bump, on_shared. guard_tac. Qed.
Lemma guard_ryow : keeps guard (ryow_check cfg false : ST bool).
Proof. unfold ryow_check, set_ryow_until. rewrite andb_false_r. guard_tac. Qed.
Lemma guard_session_state sql : keeps guard (note_session_state sql : ST unit).
Proof. unfold note_session_state, set_init_sqls, set_pinned, bump, on_shared. guard_tac. Qed.
Lemma guard_count_intent b i : keeps guard (count_intent b i : ST unit).
Proof. unfold count_intent, bump, on_shared. guard_tac. Qed.
Lemma guard_set_tx b : keeps guard (set_in_transaction b : ST unit).
Proof. done. Qed.
Lemma guard_set_start t : keeps guard (set_tx_start t : ST unit).
Proof. done. Qed.
Lemma guard_set_last t : keeps guard (set_last_query t : ST unit).
Proof. done. Qed.
Lemma guard_drop_tx : keeps guard (drop_tx : ST unit).
Proof. done. Qed.
Lemma guard_ff_rule sql u sch : keeps guard (routed (is_fast_forward_rule sql u sch)).
Proof.
  apply guard_routed. intros e. unfold is_fast_forward_rule. rewrite (se_bind_ok _ _ e e e) by done.
  destruct (match_query _ _ _ _ _ _ _) as [o rs].
  rewrite (se_bind_ok _ _ e tt (set_router (set_rules rs (router e)) e)) by done. by destruct o.
Qed.

Lemma goes_on_silently {A} (m : ST A) (f : A -> ST unit) g Q X :
  keeps guard m -> silent m -> (forall s, X Died s) ->
  (forall a, triple (fun s => guard s = g) (f a) Q X) -> triple (fun s => guard s = g) (m ≫= f) Q X.
Proof.
  intros Hm Hsil HX Hf. eapply triple_bind; [|exact Hf]. intros s Hs. specialize (Hm s). specialize (Hsil _ s eq_refl).
  destruct (m s) as [[a|e] s1]; cbn [snd] in *; [by rewrite Hm | by subst e].
Qed.

Hypothesis client_listens : forall k, client_ok cfg k = true.

(** The command ended in an error packet, and nothing went to a backend. *)
Definition refused (l : list Reply) (w : W) (e : ctl) (s : SS) : Prop :=
  e = Died \/ e = Continue /\ world (env s) = w /\ exists code msg, replies s = l ++ [ErrorPacket code msg; Flushed].

(** The client got one error packet and no backend heard of the statement. *)
Definition denied (s s' : SS) : Prop :=
  world (env s') = world (env s) /\ exists code msg, replies s' = replies s ++ [ErrorPacket code msg; Flushed].

Lemma error_flush_refused {A} code msg l w a (Q : A -> SS -> Prop) :
  triple (fun s => guard s = (l, w, a))
    (ignore (reply cfg (ErrorPacket code msg)) ;; flush_or_break cfg ;; se_fail Continue) Q (refused l w).
Proof.
  intros s Hs. injection Hs as Hl Hw Ha. 
  set (s1 := with_reply (ErrorPacket code msg) s).
  rewrite (se_bind_ok _ _ s tt s1) by done.
  rewrite (se_bind_ok _ _ s1 tt (with_reply Flushed s1)) by (by apply says_reply_eq). right. split; [done|]. split; [exact Hw|]. exists code, msg. cbn.
  by rewrite Hl, <- app_assoc.
Qed.

Lemma silent_set_tx b : silent (set_in_transaction b : ST unit).
Proof. by intros l s Hs. Qed.
Lemma silent_drop_tx : silent (drop_tx : ST unit).
Proof. by intros l s Hs. Qed.

Lemma kill_refused out msg l w a (Q : unit -> SS -> Prop) :
  triple (fun s => guard s = (l, w, a)) (kill_transaction cfg out msg) Q (refused l w).
Proof.
  unfold kill_transaction.
  apply goes_on_silently; [apply guard_drop_tx | apply silent_drop_tx | by left | intros _].
  apply goes_on_silently; [apply guard_finish_trace | auto with silent | by left | intros _].
  apply goes_on_silently; [apply guard_bump | by intros ? ? ? | by left | intros _].
  apply error_flush_refused.
Qed.

Lemma time_refused l w a :
  triple (fun s => guard s = (l, w, a)) (enforce_transaction_time cfg : ST unit)
    (fun _ s => guard s = (l, w, a)) (refused l w).
Proof.
  unfold enforce_transaction_time. apply triple_get_bind. intros s0 _.
  destruct (tx_start (tx s0)); [|apply triple_ret]. destruct (_ && _); [|apply triple_ret].
  do 2 (apply goes_on_silently; [done | by intros ? ? ? | by left | intros _]). apply kill_refused.
Qed.
Lemma idle_refused l w a :
  triple (fun s => guard s = (l, w, a)) (enforce_transaction_idle cfg : ST unit)
    (fun _ s => guard s = (l, w, a)) (refused l w).
Proof.
  unfold enforce_transaction_idle. apply triple_get_bind. intros s0 _.
  destruct (last_query_in_tx (tx s0)), (tx_start (tx s0)); try apply triple_ret. destruct (_ && _); [|apply triple_ret].
  do 3 (apply goes_on_silently; [done | by intros ? ? ? | by left | intros _]). apply kill_refused.
Qed.

End Refusals.

(** ** The write permission *)

Section Permission.
Context {W C : Type} `{IO : !BackendIO W C} `{CT : CaseTable} `{ET : EscapeTable} `{RE : RegexEngine}
  `{MO : !MapOrder bytes CacheEntry} `{MO1 : !MapOrder bytes bytes}
  `{MO2 : !MapOrder Z Z} `{MO3 : !MapOrder Z My.MysqlStmtInfo}.
Variable cfg : SessionConfig.
Local Abbreviation ST := (SE (SState (W := W) (C := C)) ctl).
Local Abbreviation SS := (SState (W := W) (C := C)).

(** The same session of a user with the permission [b]. *)
Definition allow (b : bool) (s : SS) : SS :=
  with_client {| Handshake.in_transaction := Handshake.in_transaction (client s); cs_username := cs_username (client s);
                 cs_allow_writes := b; cs_app_name := cs_app_name (client s) |} s.

(** A computation that does not look at the permission. *)
Definition blind {A} (m : ST A) : Prop := forall b s, m (allow b s) = (fst (m s), allow b (snd (m s))).

Lemma blind_bind {A B} (m : ST A) (f : A -> ST B) : blind m -> (forall a, blind (f a)) -> blind (m ≫= f).
Proof.
  intros Hm Hf b s. unfold mbind, se_bind. rewrite (Hm b s). destruct (m s) as [[a|e] s1]; cbn [fst snd]; [apply Hf | done].
Qed.
Lemma blind_get {B} (f : SS -> ST B) :
  (forall b s, f (allow b s) = f s) -> (forall s, blind (f s)) -> blind (se_get ≫= f).
Proof. intros H Hf b s. change (f (allow b s) (allow b s) = (fst (f s s), allow b (snd (f s s)))). rewrite H. apply Hf. Qed.
Lemma blind_ret {A} (a : A) : blind (mret a : ST A).
Proof. done. Qed.
Lemma blind_fail {A} e : blind (se_fail e : ST A).
Proof. done. Qed.
Lemma blind_modify f : (forall b s, f (allow b s) = allow b (f s)) -> blind (modify f : ST unit).
Proof. intros H b s. unfold modify, se_modify. cbn [fst snd]. by rewrite H. Qed.
Lemma blind_reply r : blind (reply cfg r : ST bool).
Proof. done. Qed.
Lemma blind_routed {A} (m : SE (Env (W := W) (C := C)) failure A) : blind (routed m).
Proof. intros b s. unfold routed. cbn [allow with_client env]. by destruct (m (env s)) as [[a|[x|]] e]. Qed.

Ltac blind_tac :=
  repeat (intros; lazymatch goal with
    | |- blind (mbind _ se_get) => apply blind_get; [intros; reflexivity|]
    | |- blind (mbind _ _) => apply blind_bind
    | |- blind (mret _) => apply blind_ret
    | |- blind (se_fail _) => apply blind_fail
    | |- blind (reply _ _) => apply blind_reply
    | |- blind (routed _) => apply blind_routed
    | |- blind (modify _) => apply blind_modify; intros; reflexivity
    | |- blind (match ?x with _ => _ end) => destruct x
    | |- blind _ => solve [auto with blind nocore]
    end).
Create HintDb blind discriminated.

Lemma blind_release_tx : blind (release_tx : ST unit).
Proof. unfold release_tx, ignore, on_env. blind_tac. Qed.
Lemma blind_release_stmt : blind (release_stmt : ST unit).
Proof. unfold release_stmt, ignore, on_env. blind_tac. Qed.
Lemma blind_release_sticky : blind (release_sticky : ST unit).
Proof. unfold release_sticky, ignore, on_env. blind_tac. Qed.
Lemma blind_finish_trace out : blind (finish_trace out : ST unit).
Proof. unfold finish_trace, push_trace, on_shared, set_trace. blind_tac. Qed.

Hint Resolve blind_release_tx blind_release_stmt blind_release_sticky blind_finish_trace : blind.

Lemma blind_stmt raw : blind (stmt_command cfg raw).
Proof.
  unfold stmt_command, flush_or_break, or_break, ignore, on_registry, on_shared, observe. blind_tac.
Qed.
Lemma blind_other raw : blind (other_command cfg raw).
Proof. unfold other_command, answer, flush_or_break, or_break, ignore. blind_tac. Qed.
Lemma blind_reset : blind (reset_connection cfg : ST unit).
Proof.
  unfold reset_connection, set_init_sqls, set_pinned, set_tx_start, set_last_query, set_in_transaction,
    reset_sticky_idx, set_hint, on_env, or_break. blind_tac.
Qed.
Lemma blind_fast sql_bytes sql b : blind (fast_forward_query cfg sql_bytes sql b : ST unit).
Proof.
  unfold fast_forward_query, set_in_transaction, bump, on_shared, answer, flush_or_break, or_break, ignore. blind_tac.
Qed.

(** The write permission is looked at for text queries only, and not even for those in
    the fast-forward mode: whatever prepared statement, raw command or fast-forwarded query a
    read-only user sends, the session does exactly what it does for a user who may write. *)
Theorem permission_guards_text_queries_only cmd b s :
  (forall sql, cmd = Query sql -> fast_forward cfg = true) ->
  turn cfg cmd (allow b s) = (fst (turn cfg cmd s), allow b (snd (turn cfg cmd s))).
Proof.
  intros Hq. assert (blind (command cfg cmd)) as H.
  { destruct cmd as [sql| | |raw|raw|]; cbn [command].
    - unfold query_command. rewrite (Hq sql eq_refl). apply blind_get; [done|]. intros s0. apply blind_fast.
    - unfold or_break. blind_tac.
    - apply blind_fail.
    - apply blind_stmt.
    - apply blind_other.
    - apply blind_reset. }
  unfold turn. rewrite (H b s). by destruct (command cfg cmd s) as [[[]|[]] s'].
Qed.
End Permission.

(** ** The state between two commands *)

Section Invariant.
Context {W C : Type} `{IO : !BackendIO W C} `{CT : CaseTable} `{ET : EscapeTable} `{RE : RegexEngine}
  `{MO : !MapOrder bytes CacheEntry} `{MO1 : !MapOrder bytes bytes}
  `{MO2 : !MapOrder Z Z} `{MO3 : !MapOrder Z My.MysqlStmtInfo}.
Variable cfg : SessionConfig.
Local Abbreviation ST := (SE (SState (W := W) (C := C)) ctl).
Local Abbreviation SS := (SState (W := W) (C := C)).
Local Abbreviation EE := (Env (W := W) (C := C)).

(** The flag, the clock and the trace of a transaction go together, a replica is held only
    while the hint is on, and errors are counted only inside a window. *)
Record session_wf (s : SS) : Prop := {
  wf_clock : is_in_transaction s = bool_decide (tx_start (tx s) <> None);
  wf_trace : active_trace (tx s) = None <-> tx_start (tx s) = None;
  wf_hint : sticky_hint_active (pins s) = false -> sticky_conn (env s) = None;
  wf_errors : error_window_start (errors s) = None -> consecutive_errors (errors s) = 0
}.

Lemma own_sticky : own (sticky_conn (W := W) (C := C)).
Proof. done. Qed.

(** *** The router and the replica of the hint *)

Lemma sticky_env f : (forall e : EE, sticky_conn (f e) = sticky_conn e) -> keeps sticky_conn (upd_env f).
Proof. intros H e. apply H. Qed.
Ltac own_tac := first [apply own_sticky | by apply sticky_env | keeps_tac].
Hint Resolve own_backends own_ask own_ask_raw own_tell_raw own_lift own_upd_router own_replay own_put_primary : keeps.
Hint Resolve own_sticky : keeps.
Ltac sticky_tac := repeat first [progress keeps_tac | apply sticky_env; reflexivity].

Lemma sticky_need_tx db : keeps sticky_conn (need_tx db : SE EE failure C).
Proof. unfold need_tx. sticky_tac. Qed.
Lemma sticky_need_stmt db : keeps sticky_conn (need_stmt db : SE EE failure C).
Proof. unfold need_stmt. sticky_tac. Qed.
Lemma sticky_raw_tx c p : keeps sticky_conn (raw_on_tx c p : SE EE failure _).
Proof. unfold raw_on_tx. sticky_tac. Qed.
Lemma sticky_raw_stmt c p : keeps sticky_conn (raw_on_stmt c p : SE EE failure _).
Proof. unfold raw_on_stmt. sticky_tac. Qed.
Hint Resolve sticky_need_tx sticky_need_stmt sticky_raw_tx sticky_raw_stmt : keeps.
Lemma sticky_route sql b1 b2 u sch sqls db : keeps sticky_conn (route_query_inner sql b1 b2 u sch sqls db : SE EE failure _).
Proof.
  destruct b1; [|apply own_route; apply own_sticky]. unfold route_query_inner, route_in_transaction. sticky_tac.
Qed.
Lemma sticky_fast sql b : keeps sticky_conn (route_fast sql b : SE EE failure _).
Proof. destruct b; [|apply own_fast; apply own_sticky]. unfold route_fast. sticky_tac. Qed.
Lemma sticky_raw p b db : keeps sticky_conn (route_raw_inner p b db : SE EE failure _).
Proof. unfold route_raw_inner. sticky_tac. Qed.
Lemma sticky_reprepare jobs (c : C) ids : keeps sticky_conn (reprepare_all c jobs ids : SE EE failure _).
Proof. revert c ids. induction jobs as [|[pid prep] jobs IH]; intros c ids; cbn [reprepare_all]; sticky_tac. Qed.
Lemma sticky_active b p : keeps sticky_conn (on_active b p : SE EE failure _).
Proof. unfold on_active. sticky_tac. Qed.
Lemma sticky_tell b p : keeps sticky_conn (tell_active b p : SE EE failure _).
Proof. unfold tell_active. sticky_tac. Qed.
Lemma sticky_register raw r : keeps sticky_conn (register_prepared raw r : SE EE failure _).
Proof. unfold register_prepared. sticky_tac. Qed.
Hint Resolve sticky_reprepare sticky_active sticky_tell sticky_register : keeps.
Lemma sticky_shadow raw b : keeps sticky_conn (route_stmt_mysql_shadow raw b : SE EE failure _).
Proof.
  unfold route_stmt_mysql_shadow, shadow_prepare, shadow_command, shadow_no_response, reprepare_and_retry. sticky_tac.
Qed.
(** *** Every command keeps the state well-formed *)

Lemma pres_modify f : (forall s, session_wf s -> session_wf (f s)) -> preserves session_wf (modify f : ST unit).
Proof. intros H s. apply H. Qed.
Lemma pres_routed {A} (m : SE EE failure A) : keeps sticky_conn m -> preserves session_wf (routed m).
Proof.
  intros Hm s [H1 H2 H3 H4]. unfold routed. specialize (Hm (env s)).
  destruct (m (env s)) as [[a|[x|]] e]; cbn [snd] in *; constructor; cbn; try done; intros Hh; by rewrite Hm, H3.
Qed.
Lemma pres_get_bind {B} (f : SS -> ST B) : (forall s, preserves session_wf (f s)) -> preserves session_wf (se_get ≫= f).
Proof. intros Hf s Hs. exact (Hf s s Hs). Qed.
Create HintDb wf discriminated.
Ltac by_fields := intros ? [? ? ? ?]; constructor; cbn; done.
Ltac pres_tac :=
  repeat (intros; lazymatch goal with
    | |- preserves _ (mbind _ se_get) => apply pres_get_bind
    | |- preserves _ (mbind _ _) => apply preserves_bind
    | |- preserves _ (mret _) => apply preserves_ret
    | |- preserves _ (se_fail _) => apply preserves_fail
    | |- preserves _ (se_iter _ _) => apply preserves_iter
    | |- preserves _ (modify _) => apply pres_modify; by_fields
    | |- preserves _ (reply _ _) => by_fields
    | |- preserves _ (match ?x with _ => _ end) => destruct x
    | |- preserves _ _ => solve [auto with wf nocore]
    end).
Ltac small := flush_steps; pres_tac
with flush_steps :=
  unfold answer, refuse, flush_or_break, or_break, ignore, bump, observe, on_registry, push_trace, on_shared, set_ryow_until,
    set_gtid, set_init_sqls, set_pinned, set_last_query.

(** What holds between leaving a transaction and closing its trace. *)
Record leaving (s : SS) : Prop := {
  lv_clock : is_in_transaction s = false /\ tx_start (tx s) = None;
  lv_hint : sticky_hint_active (pins s) = false -> sticky_conn (env s) = None;
  lv_errors : error_window_start (errors s) = None -> consecutive_errors (errors s) = 0
}.

Lemma finish_trace_wf out s : leaving s -> exists s', finish_trace out s = (Ok tt, s') /\ session_wf s'.
Proof.
  intros [[H1 H2] H3 H4]. unfold finish_trace. rewrite (se_bind_ok _ _ s s s) by done.
  destruct (active_trace (tx s)) as [t|] eqn:Et; eexists; (split; [reflexivity|]); constructor; cbn; rewrite ?H1, ?H2, ?Et; done.
Qed.
Lemma leave_preserves (m : ST unit) (out : bytes) (k : ST unit) :
  (forall s, session_wf s -> exists s', m s = (Ok tt, s') /\ leaving s') ->
  preserves session_wf k -> preserves session_wf (m ;; finish_trace out ;; k).
Proof.
  intros Hm Hk s Hs. destruct (Hm s Hs) as (s1 & E1 & H1). rewrite (se_bind_ok _ _ _ _ _ E1).
  destruct (finish_trace_wf out s1 H1) as (s2 & E2 & H2). rewrite (se_bind_ok _ _ _ _ _ E2). by apply Hk.
Qed.
Lemma kill_wf out msg s : leaving s -> session_wf (snd (kill_transaction cfg out msg s)).
Proof.
  intros [H1 H2 H3]. unfold kill_transaction. set (s1 := with_env (set_tx None (env s)) s).
  rewrite (se_bind_ok _ _ s tt s1) by done.
  destruct (finish_trace_wf out s1) as (s2 & E2 & Hs2); [by constructor|]. rewrite (se_bind_ok _ _ _ _ _ E2).
  revert s2 Hs2 E2. refine (fun s2 Hs2 _ => _ s2 Hs2). change (preserves session_wf
    (bump TransactionsKilled ;; ignore (reply cfg (ErrorPacket (bs "1205") msg)) ;; flush_or_break cfg ;; (se_fail Continue : ST unit))).
  small.
Qed.

Lemma time_wf : preserves session_wf (enforce_transaction_time cfg : ST unit).
Proof.
  intros s Hs. unfold enforce_transaction_time. rewrite (se_bind_ok _ _ s s s) by done.
  destruct (tx_start (tx s)); [|done]. destruct (_ && _); [|done].
  do 2 (erewrite se_bind_ok by reflexivity). apply kill_wf. by destruct Hs; constructor.
Qed.
Lemma idle_wf : preserves session_wf (enforce_transaction_idle cfg : ST unit).
Proof.
  intros s Hs. unfold enforce_transaction_idle. rewrite (se_bind_ok _ _ s s s) by done.
  destruct (last_query_in_tx (tx s)), (tx_start (tx s)); try done. destruct (_ && _); [|done].
  do 3 (erewrite se_bind_ok by reflexivity). apply kill_wf. by destruct Hs; constructor.
Qed.
Lemma note_transaction_wf sql i : preserves session_wf (note_transaction cfg sql i : ST bool).
Proof.
  intros s Hs. unfold note_transaction. destruct (bool_decide _); [|exact Hs]. destruct (_ || _); [|exact Hs].
  by destruct Hs; constructor.
Qed.
Lemma abandon_wf : preserves session_wf (abandon_transaction : ST unit).
Proof.
  intros s [H1 H2 H3 H4]. unfold abandon_transaction. do 4 (erewrite se_bind_ok by reflexivity).
  match goal with |- session_wf (snd (finish_trace _ ?s1)) => destruct (finish_trace_wf (bs "backend_error") s1) as (s2 & E2 & Hs2) end.
  - by constructor.
  - by rewrite E2.
Qed.
Lemma release_tx_wf : preserves session_wf (release_tx : ST unit).
Proof.
  unfold release_tx, ignore, on_env. pres_tac. apply pres_routed. apply own_put_primary, own_sticky.
Qed.
Lemma release_stmt_wf : preserves session_wf (release_stmt : ST unit).
Proof.
  unfold release_stmt, ignore, on_env. pres_tac. apply pres_routed. apply own_put_primary, own_sticky.
Qed.
Hint Resolve time_wf idle_wf note_transaction_wf abandon_wf release_tx_wf release_stmt_wf : wf.
Lemma end_wf sql : preserves session_wf (end_transaction sql : ST unit).
Proof.
  intros s [H1 H2 H3 H4]. unfold end_transaction. do 3 (erewrite se_bind_ok by reflexivity).
  match goal with |- context [finish_trace ?o] =>
    match goal with |- session_wf (snd ((_ ≫= _) ?s1)) => destruct (finish_trace_wf o s1) as (s2 & E2 & Hs2) end end.
  - by constructor.
  - rewrite (se_bind_ok _ _ _ _ _ E2). by apply release_tx_wf.
Qed.
(** Giving the replica back needs the hint to be off only afterwards. *)
Lemma release_sticky_wf s :
  is_in_transaction s = bool_decide (tx_start (tx s) <> None) ->
  (active_trace (tx s) = None <-> tx_start (tx s) = None) ->
  (error_window_start (errors s) = None -> consecutive_errors (errors s) = 0) -> exists r s', release_sticky s = (r, s') /\ session_wf s' /\
  sticky_conn (env s') = None /\ r = Ok tt.
Proof.
  intros H1 H2 H4. unfold release_sticky. rewrite (se_bind_ok _ _ s s s) by done.
  destruct (sticky_conn (env s)) as [c|] eqn:Es; [|by exists (Ok tt), s].
  set (s1 := with_env (set_sticky None (sticky_idx (env s)) (env s)) s). rewrite (se_bind_ok _ _ s tt s1) by done.
  unfold ignore, routed. pose proof (own_put_back sticky_conn own_sticky c (sticky_idx (env s)) None (env s1)) as Hk.
  unfold mbind, se_bind, router_put_replica. destruct (put_back c (sticky_idx (env s)) None (env s1)) as [r e] eqn:Ep.
  cbn [snd] in Hk. assert (r <> Err Panicked) as Hr.
  { unfold put_back, put_primary_db, on_backends in Ep. by destruct (_ =? _); [destruct (put_primary_for_database _ _ _) as [[|] [? ?]]
      | destruct (put_replica_for_database _ _ _ _) as [[|] [? ?]]]; injection Ep as <- _. }
  destruct r as [a|[x|]]; [| |done]; (do 2 eexists; split; [reflexivity|]; split; [constructor; cbn; try done; intros _; by rewrite Hk|by split]).
Qed.
Lemma set_hint_wf : preserves session_wf (set_hint true : ST unit).
Proof. by intros s [H1 H2 H3 H4]; constructor. Qed.
Lemma note_hint_wf sql : preserves session_wf (note_sticky_hint sql : ST unit).
Proof.
  unfold note_sticky_hint. destruct (extract_sticky_hint sql) as [[|]|]; [apply set_hint_wf| |apply preserves_ret].
  apply pres_get_bind. intros s0 s Hs. destruct (sticky_hint_active (pins s0)); [|exact Hs].
  erewrite se_bind_ok by reflexivity.
  match goal with |- session_wf (snd ((_ ≫= _) ?s1)) => destruct (release_sticky_wf s1) as (r & s2 & E2 & Hs2 & Hn & ->) end;
    [by destruct Hs..|]. rewrite (se_bind_ok _ _ _ _ _ E2). destruct Hs2; constructor; cbn; done.
Qed.

Lemma route_sticky_wf sql b1 b2 : preserves session_wf (route_sticky cfg sql b1 b2 : ST unit).
Proof.
  unfold route_sticky. intros s Hs. rewrite (se_bind_ok _ _ s s s) by done.
  destruct (sticky_hint_active (pins s)) eqn:Eh; [|exact Hs]. destruct (true && _ && _); [|exact Hs].
  assert (forall e, session_wf (with_env e s)) as Hany by (intros e; destruct Hs; constructor; cbn; [done..| |done]; by rewrite Eh).
  unfold mbind at 1, se_bind at 1, routed. destruct (route_sticky_query sql (env s)) as [[resp|[err|]] e].
  - assert (preserves session_wf
      (or_break (reply cfg (Response (br_bytes resp))) ;; flush_or_break cfg ;; (se_fail Continue : ST unit))) as Hk by small.
    exact (Hk (with_env e s) (Hany e)).
  - destruct (sticky_lost err).
    + erewrite se_bind_ok by reflexivity. destruct Hs; constructor; cbn; done.
    + assert (preserves session_wf (refuse cfg (bs "1") err : ST unit)) as Hk by small. exact (Hk (with_env e s) (Hany e)).
  - apply Hany.
Qed.
Hint Resolve note_hint_wf route_sticky_wf end_wf : wf.

Lemma ryow_wf b : preserves session_wf (ryow_check cfg b : ST bool).
Proof. unfold ryow_check. small. apply pres_routed, own_gtid, own_sticky. Qed.
Lemma session_state_wf sql : preserves session_wf (note_session_state sql : ST unit).
Proof. unfold note_session_state. small. Qed.
Lemma count_intent_wf b i : preserves session_wf (count_intent b i : ST unit).
Proof. unfold count_intent. small. Qed.
Lemma deny_wf i : preserves session_wf (deny_write cfg i : ST unit).
Proof. unfold deny_write. small. Qed.
Lemma version_wf sql b : preserves session_wf (forward_version cfg sql b : ST unit).
Proof. unfold forward_version. small. Qed.
Lemma injection_wf sql : preserves session_wf (check_injection cfg sql : ST unit).
Proof. unfold check_injection, block. small. Qed.
Lemma whitelist_wf sql : preserves session_wf (check_whitelist cfg sql : ST unit).
Proof. unfold check_whitelist, block. small. Qed.
Lemma route_wf sql b1 b2 : preserves session_wf (route sql b1 b2 : ST (result bytes BackendResponse)).
Proof. unfold route. small; apply pres_routed, sticky_route. Qed.
Lemma after_route_wf b1 b2 i : preserves session_wf (after_route cfg b1 b2 i : ST unit).
Proof. unfold after_route. small. Qed.
Lemma on_response_wf b r : preserves session_wf (on_response cfg b r : ST unit).
Proof. unfold on_response, track_change. small. Qed.
Lemma count_error_wf : preserves session_wf (count_error cfg : ST unit).
Proof. unfold count_error. small. Qed.
Hint Resolve count_error_wf : wf.
Lemma on_error_wf sql err : preserves session_wf (on_error cfg sql err : ST unit).
Proof. unfold on_error. small. Qed.
Lemma record_in_trace_wf sql i t0 : preserves session_wf (record_in_trace sql i t0 : ST unit).
Proof.
  intros s Hs. unfold record_in_trace. rewrite (se_bind_ok _ _ s s s) by done.
  destruct (active_trace (tx s)) as [t|] eqn:Et; [|exact Hs]. destruct (record _ _ _ _ _ _ _); [|exact Hs].
  destruct Hs as [H1 H2 H3 H4]; constructor; cbn; try done. rewrite Et in H2. intuition done.
Qed.
Hint Resolve record_in_trace_wf : wf.
Lemma measure_wf sql b i t0 e : preserves session_wf (measure cfg sql b i t0 e : ST unit).
Proof. unfold measure. small. Qed.
Hint Resolve ryow_wf session_state_wf count_intent_wf deny_wf version_wf injection_wf whitelist_wf route_wf
  after_route_wf on_response_wf on_error_wf measure_wf : wf.
(** COM_QUERY. *)
Lemma normal_query_wf sql_bytes sql b : preserves session_wf (normal_query cfg sql_bytes sql b : ST unit).
Proof. unfold normal_query. small. Qed.
Lemma rule_fast_wf sql_bytes sql b : preserves session_wf (rule_fast_forward cfg sql_bytes sql b : ST unit).
Proof.
  unfold rule_fast_forward. small; apply pres_routed; [apply own_ff_rule, own_sticky | apply sticky_fast].
Qed.
Hint Resolve normal_query_wf rule_fast_wf : wf.
Lemma reset_wf : preserves session_wf (reset_connection cfg : ST unit).
Proof.
  intros s [H1 H2 H3 H4]. unfold reset_connection. do 7 (erewrite se_bind_ok by reflexivity).
  match goal with |- session_wf (snd ((_ ≫= _) ?s1)) => destruct (finish_trace_wf (bs "reset") s1) as (s2 & E2 & Hs2) end.
  { by constructor. }
  rewrite (se_bind_ok _ _ _ _ _ E2).
  assert (preserves session_wf (release_stmt ;; release_tx ;; (release_sticky ;; reset_sticky_idx ;; set_hint false ;;
    or_break (reply cfg OkPacket)) : ST unit)) as Hk; [|exact (Hk s2 Hs2)].
  apply preserves_bind; [apply release_stmt_wf|]. intros []. apply preserves_bind; [apply release_tx_wf|]. intros [].
  intros s3 Hs3. destruct (release_sticky_wf s3) as (r & s4 & E4 & Hs4 & Hn & ->); [by destruct Hs3..|].
  rewrite (se_bind_ok _ _ _ _ _ E4). do 2 (erewrite se_bind_ok by reflexivity).
  assert (preserves session_wf (or_break (reply cfg OkPacket) : ST unit)) as Hr by small. apply Hr.
  by destruct Hs4; constructor.
Qed.
Lemma stmt_wf raw : preserves session_wf (stmt_command cfg raw : ST unit).
Proof. unfold stmt_command. small. apply pres_routed, sticky_shadow. Qed.
Lemma other_wf raw : preserves session_wf (other_command cfg raw : ST unit).
Proof. unfold other_command. small; apply pres_routed, sticky_raw. Qed.
Hint Resolve reset_wf stmt_wf other_wf : wf.

(** One step of a session's life: a command of its client, or a change that other sessions and
    the background tasks make to the router, the shared stores and the outside world. *)
Inductive session_step : SS -> SS -> Prop :=
| step_command cmd s s' : turn cfg cmd s = (Ok tt, s') -> session_step s s'
| step_elsewhere s r w h :
    session_step s (with_shared h (with_env (set_world w (set_router r (env s))) s)).

(** In the fast-forward mode transactions are only flagged: no clock runs, no trace is recorded,
    no replica is held and no error is counted. *)
Definition bare (s : SS) : Prop :=
  tx s = {| tx_start := None; last_query_in_tx := None; active_trace := None |} /\
  errors s = {| consecutive_errors := 0; error_window_start := None |} /\
  sticky_hint_active (pins s) = false /\ sticky_conn (env s) = None.

Lemma bare_modify f : (forall s, bare s -> bare (f s)) -> preserves bare (modify f : ST unit).
Proof. intros H s. apply H. Qed.
Lemma bare_routed {A} (m : SE EE failure A) : keeps sticky_conn m -> preserves bare (routed m).
Proof.
  intros Hm s (H1 & H2 & H3 & H4). unfold routed. specialize (Hm (env s)).
  destruct (m (env s)) as [[a|[x|]] e]; cbn [snd] in *; unfold bare; cbn; by rewrite Hm.
Qed.
Lemma bare_get_bind {B} (f : SS -> ST B) : (forall s, bare s -> preserves bare (f s)) -> preserves bare (se_get ≫= f).
Proof. intros Hf s Hs. exact (Hf s Hs s Hs). Qed.
Ltac bare_tac :=
  repeat (intros; lazymatch goal with
    | |- preserves _ (mbind _ se_get) => apply bare_get_bind
    | |- preserves _ (mbind _ _) => apply preserves_bind
    | |- preserves _ (mret _) => apply preserves_ret
    | |- preserves _ (se_fail _) => apply preserves_fail
    | |- preserves _ (se_iter _ _) => apply preserves_iter
    | |- preserves _ (modify _) => apply bare_modify; by intros ? (? & ? & ? & ?)
    | |- preserves _ (reply _ _) => by intros ? (? & ? & ? & ?)
    | |- preserves _ (routed _) => apply bare_routed
    | |- preserves _ (match ?x with _ => _ end) => destruct x eqn:?
    end).
Ltac bare_command := flush_steps; unfold set_in_transaction, set_tx_start, set_trace, set_hint, on_env; bare_tac.
Lemma bare_query sql_bytes sql b : preserves bare (fast_forward_query cfg sql_bytes sql b : ST unit).
Proof. unfold fast_forward_query, release_tx. bare_command; first [apply sticky_fast | apply own_put_primary, own_sticky]. Qed.
Lemma bare_stmt raw : preserves bare (stmt_command cfg raw : ST unit).
Proof. unfold stmt_command, release_stmt. bare_command; first [apply sticky_shadow | apply own_put_primary, own_sticky]. Qed.
Lemma bare_other raw : preserves bare (other_command cfg raw : ST unit).
Proof. unfold other_command. bare_command. apply sticky_raw. Qed.
Lemma bare_tx f : (forall t, t = {| tx_start := None; last_query_in_tx := None; active_trace := None |} -> f t = t) ->
  preserves bare (modify (fun s => with_tx (f (tx s)) s) : ST unit).
Proof. intros Hf. apply bare_modify. intros s (H1 & H2 & H3 & H4). unfold bare. cbn. by rewrite (Hf (tx s) H1). Qed.
Lemma bare_reset : preserves bare (reset_connection cfg : ST unit).
Proof. unfold reset_connection, finish_trace, release_stmt, release_tx, release_sticky, reset_sticky_idx.
  bare_command.
  1: apply (bare_tx (fun t => {| tx_start := None; last_query_in_tx := last_query_in_tx t; active_trace := active_trace t |})).
  2: apply (bare_tx (fun t => {| tx_start := tx_start t; last_query_in_tx := None; active_trace := active_trace t |})).
  3: apply (bare_tx (fun t => {| tx_start := tx_start t; last_query_in_tx := last_query_in_tx t; active_trace := None |})).
  1-3: by intros ? ->.
  1-2: apply own_put_primary, own_sticky.
  apply own_put_back, own_sticky.
Qed.

(** C5: In every reachable state of a session, whatever its client sends and whatever happens
    around it: the session is in a transaction exactly when its transaction clock runs and
    exactly when a trace is being recorded; a replica is held for the hint only while the
    hint is on; and errors are counted only inside a window.  In the fast-forward mode, where
    the session only flags its transactions, there is no clock, no trace, no held replica
    and no counted error at all. *)
Theorem session_reachable_wf e c h s :
  Handshake.in_transaction c = false -> steps session_step (initial e c h) s ->
  if fast_forward cfg then bare s else session_wf s.
Proof.
  intros Hc Hs. eapply (steps_invariant session_step (fun s => if fast_forward cfg then bare s else session_wf s)); [|exact Hs|].
  - intros s1 s2 H1 Hst. revert H1. destruct Hst as [cmd s3 s4 Ht|s3 r w h'].
    + unfold turn in Ht. destruct (fast_forward cfg) eqn:Hff; intros H1.
      * assert (preserves bare (command cfg cmd)) as Hp.
        { destruct cmd as [sql| | |raw|raw|]; cbn [command];
            [unfold query_command; rewrite Hff; intros s5 Hs5; exact (bare_query _ _ _ s5 Hs5)
            | first [apply bare_reset | apply bare_other | apply bare_stmt | bare_command]..]. }
        specialize (Hp s3 H1). destruct (command cfg cmd s3) as [[[]|[]] s5]; try done; by injection Ht as <-.
      * assert (preserves session_wf (command cfg cmd)) as Hp.
        { destruct cmd as [sql| | |raw|raw|]; cbn [command]; [|small..]. unfold query_command. rewrite Hff. small. }
        specialize (Hp s3 H1). destruct (command cfg cmd s3) as [[[]|[]] s5]; try done; by injection Ht as <-.
    + destruct (fast_forward cfg); [by intros (? & ? & ? & ?)|].
      intros [A1 A2 A3 A4]; constructor; [exact A1 | exact A2 | exact A3 | exact A4].
  - destruct (fast_forward cfg); [done | by constructor].
Qed.
End Invariant.
(** ** The fast-forward mode *)

Section FastForward.
Context {W C : Type} `{IO : !BackendIO W C} `{CT : CaseTable} `{ET : EscapeTable} `{RE : RegexEngine}
  `{MO : !MapOrder bytes CacheEntry} `{MO1 : !MapOrder bytes bytes}
  `{MO2 : !MapOrder Z Z} `{MO3 : !MapOrder Z My.MysqlStmtInfo}.
Variable cfg : SessionConfig.
Local Abbreviation SS := (SState (W := W) (C := C)).

Definition tx_view (s : SS) : option C * bool := (tx_conn (env s), is_in_transaction s).

Lemma own_tx : own (tx_conn (W := W) (C := C)).
Proof. done. Qed.
Lemma tx_view_routed {A} (m : SE (Env (W := W) (C := C)) failure A) : keeps tx_conn m -> keeps tx_view (routed m).
Proof.
  intros Hm s. unfold routed. specialize (Hm (env s)). destruct (m (env s)) as [[a|[x|]] e]; cbn [snd] in *;
    unfold tx_view; cbn; by rewrite Hm.
Qed.
Lemma tx_view_modify f : (forall s, tx_view (f s) = tx_view s) -> keeps tx_view (modify f : SE SS ctl unit).
Proof. intros H s. apply H. Qed.

(** In the fast-forward mode a transaction has no connection of its own: BEGIN runs on a
    connection that goes straight back to the pool, with the transaction open on it, while the
    session takes itself to be in a transaction and will take some other connection for the
    next statement. *)
Theorem fast_forward_begin_not_sticky s sql_bytes :
  fast_forward cfg = true -> tx_view s = (None, false) ->
  starts_with (to_ascii_uppercase (trim (from_utf8_or_empty sql_bytes))) (bs "BEGIN") = true ->
  tx_view (snd (turn cfg (Query sql_bytes) s)) = (None, true).
Proof.
  intros Hff Hs Hb. injection Hs as Htx Hin. unfold turn. cbn [command]. unfold query_command, fast_forward_query.
  rewrite (se_bind_ok _ _ s s s) by done. rewrite Hff, Hin, Hb. cbn [orb].
  set (upper := to_ascii_uppercase _) in *. destruct upper as [|b upper]; [done|].
  assert (b = 66) as -> by (cbn in Hb; by apply andb_prop in Hb as [Hb%Z.eqb_eq _]). cbn [starts_with orb andb].
  change (starts_with (66 :: upper) (bs "COMMIT")) with false. change (starts_with (66 :: upper) (bs "ROLLBACK")) with false.
  set (s1 := snd (set_in_transaction true s)). rewrite (se_bind_ok _ _ s tt s1) by done. cbn [orb].
  match goal with |- context [?m s1] =>
    assert (keeps tx_view m) as Hk; [|specialize (Hk s1); destruct (m s1) as [[[]|[]] s2]; cbn [snd] in *;
      rewrite Hk; unfold tx_view; cbn; by rewrite Htx] end.
  unfold answer, flush_or_break, or_break, ignore, bump, on_shared. keeps_tac;
    first [apply tx_view_routed, own_fast, own_tx | by apply tx_view_modify | done].
Qed.
End FastForward.

(** ** Concrete sessions *)

Section DemoSessions.
#[local] Existing Instance ascii_table.
#[local] Existing Instance substring_engine.
#[local] Existing Instance demo_order.
#[local] Instance plain_escapes : EscapeTable := {| escape_wide s := s |}.

Definition demo_cfg : SessionConfig :=
  {| conn_id := 1; client_addr := bs "10.0.0.9:41000"; max_transaction_time_ms := 0; max_transaction_idle_ms := 0;
     read_your_own_writes_ms := 0; gtid_aware_ryow := false; fast_forward := false;
     select_version_forwarding := true; sqli_detector := None; query_whitelist := whitelist_new [];
     audit_active := false; users_config := []; client_error_limit := 0; client_error_window_secs := 60;
     debug_log := false; client_ok _ := true |}.
Definition demo_shared : Shared :=
  {| metrics _ := 0; registry := registry_new; tracer := store_new; events := [] |}.
Definition demo_client (aw : bool) : MySQLClientSession :=
  {| Handshake.in_transaction := false; cs_username := bs "app"; cs_allow_writes := aw; cs_app_name := None |}.
Definition demo_session (aw : bool) : SState (W := TestWorld) (C := TestConn) :=
  initial (demo_env test_world None) (demo_client aw) demo_shared.

(** The state after some commands. *)
Definition after (cfg : SessionConfig) (cmds : list string) (s : SState (W := TestWorld) (C := TestConn)) :=
  snd (session_loop cfg (map (fun q => Query (bs q)) cmds) s).

Lemma query_answered_once_witness :
  exists a, is_answer a /\
    replies (snd (turn demo_cfg (Query (bs "SELECT 1")) (demo_session true))) = replies (demo_session true) ++ [a; Flushed].
Proof.
  pose proof (query_answered_once demo_cfg (fun _ => eq_refl) (demo_session true) (bs "SELECT 1")) as H.
  assert (fst (turn demo_cfg (Query (bs "SELECT 1")) (demo_session true)) = Ok tt) as E by (vm_compute; reflexivity).
  destruct (turn demo_cfg (Query (bs "SELECT 1")) (demo_session true)) as [[[]|e] s']; [exact H | discriminate E].
Defined.


Lemma allow_env b (s : SState (W := TestWorld) (C := TestConn)) : env (allow b s) = env s.
Proof. reflexivity. Qed.
Lemma allow_demo : allow false (demo_session true) = demo_session false.
Proof. reflexivity. Qed.

Lemma permission_guards_text_queries_only_witness :
  env (snd (turn demo_cfg (Stmt (22 :: bs "DELETE FROM t")) (demo_session false))) =
  env (snd (turn demo_cfg (Stmt (22 :: bs "DELETE FROM t")) (demo_session true))) /\
  tw_log (world (env (snd (turn demo_cfg (Stmt (22 :: bs "DELETE FROM t")) (demo_session true))))) <> [].
Proof.
  split; [|vm_compute; discriminate].
  pose proof (permission_guards_text_queries_only demo_cfg (Stmt (22 :: bs "DELETE FROM t")) false (demo_session true)
    ltac:(discriminate)) as H.
  rewrite allow_demo in H. apply (f_equal snd) in H. etransitivity; [exact (f_equal env H) | apply allow_env].
Defined.

Lemma session_reachable_wf_witness :
  let s := snd (turn demo_cfg (Query (bs "BEGIN")) (demo_session true)) in session_wf s /\ is_in_transaction s = true.
Proof.
  split; [|vm_compute; reflexivity].
  apply (session_reachable_wf demo_cfg (demo_env test_world None) (demo_client true) demo_shared); [done|].
  apply steps_one, (step_command _ (Query (bs "BEGIN"))).
  assert (fst (turn demo_cfg (Query (bs "BEGIN")) (demo_session true)) = Ok tt) as E by (vm_compute; reflexivity).
  unfold demo_session in *. by rewrite <- E, <- surjective_pairing.
Defined.

Definition fast_cfg : SessionConfig :=
  {| conn_id := 1; client_addr := bs "10.0.0.9:41000"; max_transaction_time_ms := 0; max_transaction_idle_ms := 0;
     read_your_own_writes_ms := 0; gtid_aware_ryow := false; fast_forward := true;
     select_version_forwarding := true; sqli_detector := None; query_whitelist := whitelist_new [];
     audit_active := false; users_config := []; client_error_limit := 0; client_error_window_secs := 60;
     debug_log := false; client_ok _ := true |}.

Lemma fast_forward_begin_not_sticky_witness :
  tx_view (snd (turn fast_cfg (Query (bs "BEGIN")) (demo_session true))) = (None, true).
Proof. apply (fast_forward_begin_not_sticky fast_cfg (demo_session true) (bs "BEGIN")); [done | done | vm_compute; reflexivity]. Defined.

(** ROLLBACK TO SAVEPOINT ends the transaction of the proxy, not the one of the server. *)
Example rollback_to_savepoint_ends : ends_transaction (bs "ROLLBACK TO SAVEPOINT a") = true.
Proof. vm_compute. reflexivity. Qed.
(** A comment in front hides the statement from the session: the classifier looks behind the
    comment, the session does not. *)
Example commented_begin_is_missed :
  is_in_transaction (after demo_cfg ["/* app */ BEGIN"]%string (demo_session true)) = false.
Proof. vm_compute. reflexivity. Qed.
(** The synthetic answer is a well-formed result set with one value, whatever version the
    configuration or the backend has. *)
Example version_response_reads : parse_text_rows version_response = Some [[Some VERSION_STR]].
Proof. vm_compute. reflexivity. Qed.
(** A statement of 4097 bytes whose 4096th byte is inside a character, in a transaction: it
    runs, and then the task panics. *)
Example long_statement_kills_session :
  let sql := repeat 120 4095 ++ [195; 169] in
  let r := turn demo_cfg (Query sql) (after demo_cfg ["BEGIN"]%string (demo_session true)) in
  fst r = Err Died /\ length (tw_log (world (env (snd r)))) = 2%nat.
Proof. vm_compute. split; reflexivity. Qed.
(** A session whose clock stands at [ns]. *)
Definition at_time (ns : Z) (s : SState (W := TestWorld) (C := TestConn)) : SState :=
  let w := world (env s) in
  with_env (set_world {| tw_ns := ns; tw_ms := tw_ms w; tw_next := tw_next w; tw_down := tw_down w;
    tw_lost := tw_lost w; tw_slow := tw_slow w; tw_log := tw_log w |} (env s)) s.
Definition limited_cfg : SessionConfig :=
  {| conn_id := 1; client_addr := bs "10.0.0.9:41000"; max_transaction_time_ms := 1000; max_transaction_idle_ms := 1500;
     read_your_own_writes_ms := 0; gtid_aware_ryow := false; fast_forward := false;
     select_version_forwarding := true; sqli_detector := None; query_whitelist := whitelist_new [];
     audit_active := false; users_config := []; client_error_limit := 0; client_error_window_secs := 60;
     debug_log := false; client_ok _ := true |}.

(** The kill of an overlong transaction leaves the idle clock running: the next BEGIN, in the
    same instant, is killed for having been idle, and never reaches the server. *)
Example stale_idle_clock_kills_begin :
  let s1 := after limited_cfg ["BEGIN"]%string (demo_session true) in
  let s2 := after limited_cfg ["SELECT 1"; "BEGIN"]%string (at_time (2 * 10 ^ 9) s1) in
  replies s2 = [Response (br_bytes (test_response (bs "BEGIN"))); Flushed;
    ErrorPacket (bs "1205") (bs "Transaction timeout: exceeded max_transaction_time_ms (1000ms)"); Flushed;
    ErrorPacket (bs "1205") (bs "Transaction idle timeout: no query for 1500ms"); Flushed] /\
  tw_log (world (env s2)) = [(bs "p:3306", bs "BEGIN")].
Proof. vm_compute. split; reflexivity. Qed.
End DemoSessions.
