(* ===== verification/Isolation.v ===== *)
(** * A server with many clients (src/src/proxy/server.rs, src/src/proxy/pg_server.rs)

    One router, one outside world, any number of sessions with connections of their own, for
    either protocol: what a server must do for it is the class [ServerOps], what it owes is
    [ServerLaws].  In every reachable state no backend connection is held twice, by two
    sessions or by a session and a pool, and what is done for one client speaks to no
    connection that another client holds.  A turn of a session is one step.  MysqlClients and
    PgClients are the two servers. *)

From S2P Require Import Prelude Bytes Config QueryCache Rules Rewriter StmtShadow CircuitBreaker Pool.
From S2P Require Import Health GroupReplication Router Ownership Session.

#[local] Open Scope nat_scope.

(** ** The checks of the backends *)

Section Background.
Context {W C : Type} `{IO : !BackendIO W C} `{TR : !Tracked W C}.
Local Abbreviation PS := (BackendPool C * W)%type.

(** An attempt, and then calls on the connection it gave. *)
Lemma attempt_evolves cfg (p : BackendPool C) w ins :
  match connect_backend cfg w with
  | (Ok c, w') => evolves (p, w) ins (p, w') (ident c :: ins)
  | (Err _, w') => evolves (p, w) ins (p, w') ins
  end.
Proof.
  pose proof (connect_evolves (p, w) (p, snd (connect_backend cfg w)) cfg ins eq_refl eq_refl) as H.
  cbn [in_world holds_pools snd] in H. destruct (connect_backend cfg w) as [[c|e] w']; exact H.
Qed.
Lemma connect_to_moves ins cfg :
  moves ins (connect_to cfg : B _) (fun r => match r with Ok c => [ident c] | Err _ => [] end ++ ins).
Proof.
  intros [p w] _. unfold connect_to. cbn [fst snd]. pose proof (attempt_evolves cfg p w ins) as H.
  destruct (connect_backend cfg w) as [[c|e] w']; (split; [exact H | done]).
Qed.
Lemma query_conn_moves ins c sql : moves (ident c :: ins) (query_conn c sql : B _) (fun r => ident (snd r) :: ins).
Proof.
  intros [p w] _. unfold query_conn. cbn [fst snd]. pose proof (execute_tracked c sql w) as H.
  destruct (execute_query c sql w) as [[r c'] w']. cbn [snd]. rewrite (proj1 H). split; [|done].
  eapply call_evolves; [exact H | apply in_hand | done].
Qed.
Lemma probe_moves hc ins :
  moves ins ((fun s => let (ok, w) := probe_primary hc (snd s) in (Ok ok, (fst s, w))) : B bool) (fun _ => ins).
Proof.
  intros [p w] _. unfold probe_primary. cbn [fst snd]. pose proof (attempt_evolves (primary_config hc) p w ins) as H.
  destruct (connect_backend _ w) as [[c|e] w']; [|done].
  pose proof (ping_tracked c w') as Hp. destruct (ping c w') as [[r c'] w'']. split; [|done].
  eapply evolves_trans; [exact H|]. eapply (evolves_weak _ (ident c :: ins)); [|done|].
  - eapply call_evolves; [exact Hp | apply in_hand | done].
  - intros i. rewrite (cnt_cons i (ident c)). lia.
Qed.
Hint Resolve connect_to_moves query_conn_moves : owns.

Lemma primary_up_idle hc now (p : BackendPool C) : all_idle (primary_up hc now p) = all_idle p.
Proof. unfold primary_up. repeat case_match; reflexivity. Qed.
Lemma promote_idle hc (p : BackendPool C) : all_idle (promote hc p) = all_idle p.
Proof. unfold promote. repeat case_match; reflexivity. Qed.
Hint Resolve primary_up_idle promote_idle : owns.
Lemma check_primary_moves hc : moves [] (check_primary hc : B unit) (fun _ => []).
Proof. unfold check_primary, trigger_failover. eapply moves_bind; [apply probe_moves|]. moves_tac. Qed.
Lemma upd_replica_health_moves ins i f : moves ins (upd_replica_health i f : B unit) (fun _ => ins).
Proof. unfold upd_replica_health. moves_tac. Qed.
Lemma replica_lag_moves ins c : moves (ident c :: ins) (query_replica_lag c : B _) (fun _ => ins).
Proof. unfold query_replica_lag. moves_tac. Qed.
Lemma wsrep_moves ins c : moves (ident c :: ins) (query_wsrep_state c : B _) (fun r => ident (snd r) :: ins).
Proof. unfold query_wsrep_state. moves_tac. Qed.
Hint Resolve upd_replica_health_moves replica_lag_moves wsrep_moves : owns.
Lemma check_replica_moves hc i cfg : moves [] (check_replica hc i cfg : B unit) (fun _ => []).
Proof.
  unfold check_replica. eapply moves_bind; [apply connect_to_moves|]. intros [c|e]; [|moves_tac].
  eapply (moves_bind _ _ (fun st => [ident (snd st)])); [moves_tac|]. moves_tac.
Qed.
Hint Resolve check_primary_moves check_replica_moves : owns.
Lemma check_replicas_moves hc i cfgs : moves [] (check_replicas hc i cfgs : B unit) (fun _ => []).
Proof. revert i. induction cfgs as [|cfg cfgs IH]; intros i; cbn [check_replicas]; moves_tac. Qed.
Lemma tick_evolves hc (s : PS) : evolves s [] (snd (tick hc s)) [].
Proof.
  assert (moves [] (tick hc : B unit) (fun _ => [])) as H by (pose proof check_replicas_moves; unfold tick; moves_tac).
  specialize (H s I). destruct (tick hc s) as [[[]|e] s']; [by destruct H | exact H].
Qed.

Lemma apply_members_idle gc ms (p : BackendPool C) : all_idle (apply_members gc ms p) = all_idle p.
Proof. unfold apply_members. repeat case_match; reflexivity. Qed.
Lemma gr_query_evolves cfg (p : BackendPool C) w : evolves (p, w) [] (p, snd (query_gr_members cfg w)) [].
Proof.
  unfold query_gr_members. pose proof (attempt_evolves cfg p w []) as H. destruct (connect_backend cfg w) as [[c|e] w']; [|exact H].
  pose proof (execute_tracked c members_query w') as Hx. destruct (execute_query c members_query w') as [[r c'] w''].
  assert (evolves (p, w) [] (p, w'') []) as He; [|by destruct r].
  eapply evolves_trans; [exact H|]. eapply (evolves_weak _ [ident c]); [|done|].
  - eapply call_evolves; [exact Hx | apply (in_hand c []) | done].
  - intros i. rewrite cnt_nil. lia.
Qed.
Lemma poll_evolves gc cfgs (s : PS) : evolves s [] (poll_backends gc cfgs s) [].
Proof.
  revert s. induction cfgs as [|cfg cfgs IH]; intros [p w]; cbn [poll_backends fst snd]; [by apply evolves_same|].
  pose proof (gr_query_evolves cfg p w) as H. destruct (query_gr_members cfg w) as [[ms|e] w']; cbn [snd] in H;
    (eapply evolves_trans; [exact H|]); [|apply IH].
  apply evolves_same; [done|]. intros i. cbn [holding holds_pools fst]. by rewrite apply_members_idle.
Qed.
End Background.

(** ** A server and its clients *)

(** What a server does for one client and what runs beside the clients, for either protocol:
    the session of a client that has authenticated, the beginning, one turn and the end of its
    loop, the tasks that work on the pools and the changes of the router. *)
Class ServerOps (W C : Type) `{RE : RegexEngine} := {
  Cfg : Type; Cli : Type; Cmd : Type; Sess : Type; Shr : Type; Task : Type; Change : Type;
  srv_env : Sess -> Env (W := W) (C := C);
  srv_shared : Sess -> Shr;
  srv_load : Env (W := W) (C := C) -> Shr -> Sess -> Sess;
  srv_new : Env (W := W) (C := C) -> Cli -> Shr -> Sess;
  srv_start : Cfg -> SE Sess ctl bool;
  srv_turn : Cfg -> Cmd -> SE Sess ctl unit;
  srv_close : Cfg -> SE Sess ctl unit;
  srv_task : Task -> BackendPool C * W -> BackendPool C * W;
  srv_change : Change -> Router (C := C) -> Router (C := C)
}.

#[export] Instance holds_srv {W C} `{RE : RegexEngine} `{SO : !ServerOps W C} `{IO : !BackendIO W C} `{TR : !Tracked W C} : Holds W Sess :=
  {| holding s := holding (srv_env s); in_world s := world (srv_env s) |}.

(** The account of connections that a server owes to the system. *)
Class ServerLaws (W C : Type) `{RE : RegexEngine} `{SO : !ServerOps W C} `{IO : !BackendIO W C} `{TR : !Tracked W C} := {
  load_env e h s : srv_env (srv_load e h s) = e;
  new_env e c h : slot_ids e = [] -> world (srv_env (srv_new e c h)) = world e /\ router (srv_env (srv_new e c h)) = router e /\
    slot_ids (srv_env (srv_new e c h)) = [];
  start_moves cfg : moves [] (srv_start cfg) (fun _ => []);
  turn_stays cfg cmd : moves [] (srv_turn cfg cmd) (fun _ => []);
  close_moves cfg : moves [] (srv_close cfg) (fun _ => []);
  task_evolves t s : evolves s [] (srv_task t s) [];
  change_ids c r i : cnt i (router_ids (srv_change c r)) <= cnt i (router_ids r)
}.

Section System.
Context {W C : Type} `{RE : RegexEngine} `{IO : !BackendIO W C} `{TR : !Tracked W C} `{SO : !ServerOps W C} `{SL : !ServerLaws W C}.

(** What the sessions share, and the sessions: the limits and the state of each.  The copy of
    the shared part inside a session counts only while the session has its turn. *)
Record System := {
  s_router : Router (C := C);
  s_world : W;
  s_shared : Shr;
  s_sessions : list (Cfg * Sess)
}.

Inductive Act :=
| Connects (cfg : Cfg) (c : Cli)      (* a client that has authenticated *)
| Sends (k : nat) (cmd : Cmd)
| HangsUp (k : nat)
| Works (t : Task)
| Changes (c : Change).

Definition load (sys : System) (s : Sess) : Sess :=
  srv_load (set_world (s_world sys) (set_router (s_router sys) (srv_env s))) (s_shared sys) s.
Definition save (s : Sess) (sessions : list (Cfg * Sess)) : System :=
  {| s_router := router (srv_env s); s_world := world (srv_env s); s_shared := srv_shared s; s_sessions := sessions |}.
Definition with_router (r : Router (C := C)) (w : W) (sys : System) : System :=
  {| s_router := r; s_world := w; s_shared := s_shared sys; s_sessions := s_sessions sys |}.

(** The session of a client that has just authenticated. *)
Definition new_session (sys : System) (c : Cli) : Sess :=
  srv_new {| router := s_router sys; world := s_world sys; tx_conn := None; stmt_conn := None; sticky_conn := None;
             sticky_idx := usize_max; shadow := My.new |} c (s_shared sys).
Definition connects (cfg : Cfg) (c : Cli) (sys : System) : System :=
  match srv_start cfg (new_session sys c) with
  | (Ok true, s) => save s (s_sessions sys ++ [(cfg, s)])
  | (_, s) => save s (s_sessions sys)
  end.
(** The loop of the session is left; a panic leaves it without the code behind it. *)
Definition sends (k : nat) (cmd : Cmd) (sys : System) : System :=
  match s_sessions sys !! k with
  | Some (cfg, s) =>
      match srv_turn cfg cmd (load sys s) with
      | (Ok _, s1) => save s1 (<[k := (cfg, s1)]> (s_sessions sys))
      | (Err Died, s1) => save s1 (delete k (s_sessions sys))
      | (Err _, s1) => save (snd (srv_close cfg s1)) (delete k (s_sessions sys))
      end
  | None => sys
  end.
Definition hangs_up (k : nat) (sys : System) : System :=
  match s_sessions sys !! k with
  | Some (cfg, s) => save (snd (srv_close cfg (load sys s))) (delete k (s_sessions sys))
  | None => sys
  end.
Definition works (t : Task) (sys : System) : System :=
  let (p, w) := srv_task t (r_pool (s_router sys), s_world sys) in with_router (set_pool p (s_router sys)) w sys.

Definition act (sys : System) (a : Act) : System :=
  match a with
  | Connects cfg c => connects cfg c sys
  | Sends k cmd => sends k cmd sys
  | HangsUp k => hangs_up k sys
  | Works t => works t sys
  | Changes c => with_router (srv_change c (s_router sys)) (s_world sys) sys
  end.
Definition server_start (r : Router (C := C)) (w : W) (h : Shr) : System :=
  {| s_router := r; s_world := w; s_shared := h; s_sessions := [] |}.

(** For which session something is done. *)
Definition acts_for (a : Act) : option nat := match a with Sends k _ | HangsUp k => Some k | _ => None end.
Definition session_ids (cs : Cfg * Sess) : list nat := slot_ids (srv_env (snd cs)).
(** Every connection that is held: idle in a pool, or by a session. *)
Definition all_ids (sys : System) : list nat := router_ids (s_router sys) ++ ids_in session_ids (s_sessions sys).
(** What may be used on behalf of a client: the pools and what the client holds. *)
Definition mine (a : Act) (sys : System) : list nat :=
  router_ids (s_router sys) ++ match acts_for a with Some k => ids_opt session_ids (s_sessions sys !! k) | None => [] end.

#[export] Instance holds_system : Holds W System := {| holding := all_ids; in_world := s_world |}.

(** What was spoken to on the way from one state of the server to another. *)
Definition speaks (sys : System) (to : list nat) (sys' : System) : Prop :=
  exists l, spoken_to (s_world sys') = spoken_to (s_world sys) ++ l /\
    Forall (fun i => 0 < cnt i to + fresh (opened (s_world sys)) (opened (s_world sys')) i) l.

Lemma evolves_speaks `{!Holds W St} (s s' : St) sys sys' to : evolves s [] s' [] ->
  in_world s = s_world sys -> in_world s' = s_world sys' -> (forall i, cnt i (holding s) <= cnt i to) -> speaks sys to sys'.
Proof.
  intros (_ & _ & l & Hl & F) E1 E2 Hto. rewrite E1, E2 in *. exists l. split; [done|].
  eapply Forall_impl; [|exact F]. intros i Hi. specialize (Hto i). cbn in *. rewrite cnt_nil in Hi. lia.
Qed.

Lemma load_holding sys s : holding (load sys s) = router_ids (s_router sys) ++ slot_ids (srv_env s).
Proof. unfold load. cbn [holding holds_srv]. by rewrite load_env. Qed.
Lemma load_world sys s : in_world (load sys s) = s_world sys.
Proof. unfold load. cbn [in_world holds_srv]. by rewrite load_env. Qed.

(** A session had its turn, and its state is kept or dropped. *)
Lemma session_turn sys k cfg (s s' : Sess) l a : s_sessions sys !! k = Some (cfg, s) -> evolves (load sys s) [] s' [] ->
  l = <[k := (cfg, s')]> (s_sessions sys) \/ l = delete k (s_sessions sys) -> acts_for a = Some k ->
  evolves sys [] (save s' l) [] /\ speaks sys (mine a sys) (save s' l).
Proof.
  intros Hk He Hl Ha. split.
  - eapply evolves_frame; [exact He | by rewrite load_world | done | |]; intros i; rewrite load_holding; cbn [holding holds_system holds_srv holds_env];
      unfold all_ids; rewrite !cnt_app.
    + cbn [save s_router s_sessions]. assert (cnt i (ids_in session_ids l) + cnt i (slot_ids (srv_env s)) <=
        cnt i (ids_in session_ids (s_sessions sys)) + cnt i (slot_ids (srv_env s'))); [|lia].
      destruct Hl as [-> | ->].
      * pose proof (cnt_ids_insert session_ids _ k (cfg, s') i (lookup_lt_Some _ _ _ Hk)) as H. rewrite Hk in H.
        unfold session_ids in H at 2 3. cbn [ids_opt snd] in H. lia.
      * pose proof (cnt_ids_delete session_ids _ k _ i Hk) as H. unfold session_ids in H at 2. cbn [snd] in H. lia.
    + pose proof (cnt_ids_lookup session_ids _ k _ i Hk) as H. unfold session_ids in H at 1. cbn [snd] in H. lia.
  - eapply evolves_speaks; [exact He | by rewrite load_world | done |]. intros i. rewrite load_holding. unfold mine. rewrite Ha, Hk. cbn [ids_opt].
    unfold session_ids. cbn [snd]. lia.
Qed.

Lemma moves_run {A} `{!Holds W St} {E} (m : SE St E A) s : moves [] m (fun _ => []) -> evolves s [] (snd (m s)) [].
Proof. intros H. specialize (H s I). destruct (m s) as [[a|e] s']; [by destruct H | exact H]. Qed.

Lemma sends_spec k cmd sys : let a := Sends k cmd in
  evolves sys [] (act sys a) [] /\ speaks sys (mine a sys) (act sys a).
Proof.
  cbn [act]. unfold sends. destruct (s_sessions sys !! k) as [[cfg s]|] eqn:Ek.
  - pose proof (moves_run (srv_turn cfg cmd) (load sys s) (turn_stays cfg cmd)) as Ht.
    pose proof (fun s1 => moves_run (srv_close cfg) s1 (close_moves cfg)) as Hc.
    destruct (srv_turn cfg cmd (load sys s)) as [[u|[]] s1]; cbn [snd] in Ht; (eapply session_turn; [exact Ek | | auto | done]).
    1, 4: exact Ht.
    all: eapply evolves_trans; [exact Ht | apply Hc].
  - split; [by apply evolves_same|]. exists []. by rewrite app_nil_r.
Qed.
Lemma hangs_up_spec k sys : let a := HangsUp k in evolves sys [] (act sys a) [] /\ speaks sys (mine a sys) (act sys a).
Proof.
  cbn [act]. unfold hangs_up. destruct (s_sessions sys !! k) as [[cfg s]|] eqn:Ek.
  - eapply session_turn; [exact Ek | apply moves_run, close_moves | auto | done].
  - split; [by apply evolves_same|]. exists []. by rewrite app_nil_r.
Qed.
Lemma connects_spec cfg c sys : let a := Connects cfg c in evolves sys [] (act sys a) [] /\ speaks sys (mine a sys) (act sys a).
Proof.
  cbn [act]. unfold connects. pose proof (moves_run (srv_start cfg) (new_session sys c) (start_moves cfg)) as H.
  assert (world (srv_env (new_session sys c)) = s_world sys /\
    forall i, cnt i (holding (new_session sys c)) = cnt i (router_ids (s_router sys))) as [Hw Hn].
  { unfold new_session. match goal with |- context [srv_new ?e c ?h] => destruct (new_env e c h eq_refl) as (E1 & E2 & E3) end.
    split; [exact E1|]. intros i. cbn [holding holds_srv holds_env]. by rewrite E2, E3, app_nil_r. }
  assert (forall s l, evolves (new_session sys c) [] s [] ->
    l = s_sessions sys ++ [(cfg, s)] \/ l = s_sessions sys ->
    evolves sys [] (save s l) [] /\ speaks sys (mine (Connects cfg c) sys) (save s l)) as Hs.
  { intros s l He Hl. split.
    - eapply evolves_frame; [exact He | by cbn; rewrite Hw | done | |]; intros i; rewrite Hn; cbn [holding holds_system holds_srv holds_env];
        unfold all_ids; rewrite !cnt_app; [|lia].
      cbn [save s_router s_sessions]. destruct Hl as [-> | ->]; [rewrite cnt_ids_snoc; unfold session_ids at 2; cbn [snd]|]; lia.
    - eapply evolves_speaks; [exact He | exact Hw | done |]. intros i. rewrite Hn. unfold mine. rewrite cnt_app. lia. }
  destruct (srv_start cfg (new_session sys c)) as [[[]|e] s]; cbn [snd] in H; apply Hs; auto.
Qed.
Lemma works_spec t sys : let a := Works t in evolves sys [] (act sys a) [] /\ speaks sys (mine a sys) (act sys a).
Proof.
  cbn [act]. unfold works. pose proof (task_evolves t (r_pool (s_router sys), s_world sys)) as H.
  destruct (srv_task t _) as [p w]. split.
  - eapply evolves_frame; [exact H | done | done | |]; intros i; cbn [holding holds_system holds_pools fst];
      unfold all_ids, router_ids; cbn [with_router s_router s_sessions set_pool with_state r_pool r_mirror]; rewrite !cnt_app; lia.
  - eapply evolves_speaks; [exact H | done | done |]. intros i. unfold mine, router_ids. rewrite !cnt_app. cbn [acts_for fst holding holds_pools]. lia.
Qed.
(** A change of the router that opens and speaks to nothing. *)
Lemma quiet_spec r a sys : (forall i, cnt i (router_ids r) <= cnt i (router_ids (s_router sys))) ->
  let sys' := with_router r (s_world sys) sys in evolves sys [] sys' [] /\ speaks sys (mine a sys) sys'.
Proof.
  intros H. split.
  - apply evolves_same; [done|]. intros i. cbn [holding holds_system]. unfold all_ids. cbn [with_router s_router s_sessions].
    rewrite !cnt_app. specialize (H i). lia.
  - exists []. by rewrite app_nil_r.
Qed.

Lemma act_spec a sys : evolves sys [] (act sys a) [] /\ speaks sys (mine a sys) (act sys a).
Proof.
  destruct a as [cfg c|k cmd|k|t|c]; [apply connects_spec | apply sends_spec | apply hangs_up_spec | apply works_spec|].
  apply quiet_spec. intros i. apply change_ids.
Qed.

(** Every connection has one holder, and is an old one. *)
Definition exclusive (sys : System) : Prop :=
  forall i, cnt i (all_ids sys) <= 1 /\ (0 < cnt i (all_ids sys) -> i < opened (s_world sys)).
Lemma exclusive_act sys a : exclusive sys -> exclusive (act sys a).
Proof.
  intros H i. destruct (act_spec a sys) as [(A & B & _) _]. cbn [in_world holding holds_system] in *. specialize (B i).
  rewrite !cnt_nil in B. destruct (H i) as [H1 H2].
  destruct (fresh_cases (opened (s_world sys)) (opened (s_world (act sys a))) i) as [[F ?]|[F ?]]; rewrite F in B; lia.
Qed.
Lemma exclusive_start r w h : router_ids r = [] -> exclusive (server_start r w h).
Proof. intros H i. unfold all_ids. cbn [server_start s_router s_sessions]. rewrite H. cbn. rewrite cnt_nil. lia. Qed.

(** What one act speaks to no other client holds. *)
Definition isolates (sys : System) (a : Act) : Prop :=
  exists calls, spoken_to (s_world (act sys a)) = spoken_to (s_world sys) ++ calls /\
    forall k cs, s_sessions sys !! k = Some cs -> acts_for a <> Some k -> Forall (fun i => i ∉ session_ids cs) calls.

Lemma exclusive_isolates sys a : exclusive sys -> isolates sys a.
Proof.
  intros Hx. destruct (act_spec a sys) as [_ (calls & Hc & F)]. exists calls. split; [done|]. intros k cs Hk Ha.
  eapply Forall_impl; [|exact F]. intros i Hi Hin. apply cnt_pos in Hin. destruct (Hx i) as [H1 H2]. cbn in Hi.
  unfold all_ids in H1, H2. rewrite cnt_app in H1, H2. pose proof (cnt_ids_lookup session_ids _ k cs i Hk).
  assert (cnt i (mine a sys) + cnt i (session_ids cs) <= cnt i (router_ids (s_router sys)) + cnt i (ids_in session_ids (s_sessions sys))).
  { unfold mine. rewrite cnt_app. destruct (acts_for a) as [k'|]; [|rewrite cnt_nil; lia].
    destruct (s_sessions sys !! k') as [cs'|] eqn:Ek'; [|cbn [ids_opt]; rewrite cnt_nil; lia]. cbn [ids_opt].
    pose proof (cnt_ids_delete session_ids _ k' cs' i Ek').
    assert (cnt i (session_ids cs) <= cnt i (ids_in session_ids (delete k' (s_sessions sys)))); [|lia].
    destruct (decide (k < k')) as [Hlt|Hge].
    - apply (cnt_ids_lookup _ _ k). by rewrite list_lookup_delete_lt.
    - apply (cnt_ids_lookup _ _ (pred k)). assert (k <> k') by congruence.
      rewrite list_lookup_delete_ge by lia. by replace (S (pred k)) with k by lia. }
  destruct (fresh_cases (opened (s_world sys)) (opened (s_world (act sys a))) i) as [[F' ?]|[F' ?]]; rewrite F' in Hi; lia.
Qed.

Lemma always_exclusive r w h acts : router_ids r = [] -> exclusive (foldl act (server_start r w h) acts).
Proof.
  intros Hr. rewrite <- (rev_involutive acts). induction (rev acts) as [|a l IH]; [by apply exclusive_start|].
  cbn [rev]. rewrite foldl_snoc. by apply exclusive_act.
Qed.
Lemma exclusive_NoDup sys : exclusive sys -> NoDup (all_ids sys).
Proof. intros H. apply cnt_NoDup. intros i. apply H. Qed.
End System.

(** New pools are empty. *)
Section Idle.
Context {W C : Type} `{IO : !BackendIO W C} `{TR : !Tracked W C}.
Lemma no_replicas_idle cfgs size idle q t : ids_in idle_ids (map (fun c => with_wait_queue (C := C) c size idle q t) cfgs) = [].
Proof. unfold ids_in. induction cfgs as [|c cfgs IH]; [done|]. cbn [map concat]. by rewrite IH. Qed.
Lemma with_options_idle p rs n idle a b q t : all_idle (with_options p rs n idle a b q t : BackendPool C) = [].
Proof. unfold all_idle. cbn [replicas primary with_options]. by rewrite no_replicas_idle. Qed.
End Idle.
