(* ===== verification/PgWire.v ===== *)
(** * The PostgreSQL wire format (src/src/protocol/postgres/mod.rs)

    Messages and their framing, the start-up parameters, error messages, the commands of a
    client, and the collection of a backend's response.  A connection is the bytes still to
    be read and the bytes written so far; a read past the end is the I/O error [read_exact]
    gives when the peer has hung up. *)

From S2P Require Import Prelude Bytes MysqlCodec MysqlResponse Handshake.

Definition PROTOCOL_V3 : Z := 196608.
Definition SSL_REQUEST_CODE : Z := 80877103.
Definition CANCEL_CODE : Z := 80877102.
Definition AUTH_OK : Z := 0.
Definition AUTH_CLEARTEXT : Z := 3.
Definition AUTH_MD5 : Z := 5.
Definition AUTH_SASL : Z := 10.
Definition AUTH_SASL_CONTINUE : Z := 11.
Definition AUTH_SASL_FINAL : Z := 12.

(** ** Frames *)

Record Link := { inbox : bytes; outbox : bytes }.
Abbreviation PG := (SE Link ProtocolError).

Definition read_exact (n : nat) : PG bytes := fun l =>
  if (n <=? length (inbox l))%nat
  then (Ok (take n (inbox l)), {| inbox := drop n (inbox l); outbox := outbox l |})
  else (Err Io, {| inbox := []; outbox := outbox l |}).
Definition write_all (b : bytes) : PG unit :=
  se_modify (fun l => {| inbox := inbox l; outbox := outbox l ++ b |}).

Definition read_pg_msg : PG (Z * bytes) :=
  hdr ← read_exact 5;
  let full_len := of_be (drop 1 hdr) in
  if full_len <? 4 then se_fail (InvalidFormat (bs "PG msg too short: " ++ show_u64 full_len))
  else
    payload ← read_exact (Z.to_nat (full_len - 4));
    mret (at_ hdr 0, payload).

Definition read_startup_bytes : PG bytes :=
  len_buf ← read_exact 4;
  let full_len := of_be len_buf in
  if full_len <? 4 then se_fail (InvalidFormat (bs "startup msg too short"))
  else read_exact (Z.to_nat (full_len - 4)).

Definition build_pg_raw (type_byte : Z) (payload : bytes) : bytes :=
  [type_byte] ++ to_be 4 (u32 (Z.of_nat (length payload) + 4)) ++ payload.
Definition write_pg_msg (type_byte : Z) (payload : bytes) : PG unit :=
  write_all (build_pg_raw type_byte payload).

(** ** Payloads *)

(** Key and value by turns, up to the first empty key; a later value of a key wins. *)
Fixpoint params_loop (parts : list bytes) (map : gmap bytes bytes) : gmap bytes bytes :=
  match parts with
  | [] => map
  | key :: parts =>
      if beq key [] then map
      else match parts with
           | [] => <[key := []]> map
           | value :: parts => params_loop parts (<[key := value]> map)
           end
  end.
Definition parse_startup_params (payload : bytes) : gmap bytes bytes :=
  if (4 <=? length payload)%nat then params_loop (utf8_lossy <$> split_on 0 (drop 4 payload)) ∅ else ∅.

(** Severity and message; [s] is the payload from the position on, and every field takes a
    byte at least. *)
Fixpoint error_fields (fuel : nat) (s severity message : bytes) : bytes * bytes :=
  match fuel, s with
  | S fuel', field_type :: s =>
      if field_type =? 0 then (severity, message)
      else
        let e := default (length s) (find_byte (Z.eqb 0) s) in
        let val := utf8_lossy (take e s) in
        let s := drop (e + 1) s in
        if field_type =? ch "S" then error_fields fuel' s val message
        else if field_type =? ch "M" then error_fields fuel' s severity val
        else error_fields fuel' s severity message
  | _, _ => (severity, message)
  end.
Definition parse_pg_error (payload : bytes) : bytes :=
  let (severity, message) := error_fields (length payload) payload [] [] in
  if beq message [] then bs "unknown PostgreSQL error"
  else if beq severity [] then message
  else severity ++ bs ": " ++ message.

(** The status byte of the last ReadyForQuery. *)
Fixpoint ready_loop (fuel : nat) (s : bytes) (last : option Z) : option Z :=
  match fuel with
  | O => last
  | S fuel' =>
      if (length s <? 5)%nat then last
      else
        let len := of_be (take 4 (drop 1 s)) in
        if (len <? 4) || (Z.of_nat (length s) <? 1 + len) then last
        else ready_loop fuel' (drop (Z.to_nat (1 + len)) s)
               (if (at_ s 0 =? ch "Z") && (len =? 5) then Some (at_ s 5) else last)
  end.
Definition extract_ready_status (s : bytes) : option Z := ready_loop (length s) s None.

(** ** The client's side *)

Record PgClientSession := {
  pgs_in_transaction : bool;
  pgs_username : bytes;
  pgs_database : bytes;
  pgs_allow_writes : bool;
  pgs_app_name : bytes
}.

(** Messages of a pipeline up to and with Sync. *)
Fixpoint read_pipeline (fuel : nat) (buf : bytes) : PG bytes :=
  match fuel with
  | O => se_fail Io
  | S fuel' =>
      m ← read_pg_msg;
      let buf := buf ++ build_pg_raw (fst m) (snd m) in
      if fst m =? ch "S" then mret buf else read_pipeline fuel' buf
  end.

Definition extended_query (t : Z) : bool :=
  mem t [ch "P"; ch "B"; ch "D"; ch "E"; ch "C"; ch "H"].

Definition read_command : PG Command :=
  m ← read_pg_msg;
  let (type_byte, payload) := m : Z * bytes in
  if type_byte =? ch "Q" then
    mret (Query (take (default (length payload) (find_byte (Z.eqb 0) payload)) payload))
  else if type_byte =? ch "X" then mret Quit
  else if extended_query type_byte then
    l ← se_get;
    buf ← read_pipeline (S (length (inbox l))) (build_pg_raw type_byte payload);
    mret (Stmt buf)
  else mret (Other (build_pg_raw type_byte payload)).

Definition sqlstate_of (code : bytes) : bytes :=
  if mem code [bs "1045"; bs "1044"; bs "28000"] then bs "28000"
  else if mem code [bs "1040"; bs "53300"] then bs "53300"
  else if mem code [bs "1064"; bs "42601"] then bs "42601"
  else if mem code [bs "1290"; bs "42501"] then bs "42501"
  else if mem code [bs "1205"; bs "40P01"] then bs "40P01"
  else bs "XX000".

Definition error_payload (severity sqlstate message : bytes) : bytes :=
  bs "S" ++ severity ++ [0] ++ bs "C" ++ sqlstate ++ [0] ++ bs "M" ++ message ++ [0] ++ [0].

(** The two messages of an error and of an OK the proxy makes up. *)
Definition error_response (in_transaction : bool) (code message : bytes) : bytes :=
  build_pg_raw (ch "E") (error_payload (bs "ERROR") (sqlstate_of code) message)
  ++ build_pg_raw (ch "Z") [if in_transaction then ch "E" else ch "I"].
Definition write_error (s : PgClientSession) (code message : bytes) : PG unit :=
  write_pg_msg (ch "E") (error_payload (bs "ERROR") (sqlstate_of code) message) ;;
  write_pg_msg (ch "Z") [if pgs_in_transaction s then ch "E" else ch "I"].
Definition send_ok : PG unit :=
  write_pg_msg (ch "C") (bs "OK" ++ [0]) ;; write_pg_msg (ch "Z") (bs "I").

(** ** The backend's side *)

Record PgBackendConnection := {
  link : Link;
  pc_in_transaction : bool;
  pc_healthy : bool;
  backend_pid : Z
}.
Abbreviation PC := (SE PgBackendConnection ProtocolError).

Definition over {A} (m : PG A) : PC A := fun c =>
  let (r, l) := m (link c) in
  (r, {| link := l; pc_in_transaction := pc_in_transaction c; pc_healthy := pc_healthy c;
         backend_pid := backend_pid c |}).
Definition set_pc_in_transaction (b : bool) (c : PgBackendConnection) : PgBackendConnection :=
  {| link := link c; pc_in_transaction := b; pc_healthy := pc_healthy c; backend_pid := backend_pid c |}.
Definition set_unhealthy (c : PgBackendConnection) : PgBackendConnection :=
  {| link := link c; pc_in_transaction := pc_in_transaction c; pc_healthy := false; backend_pid := backend_pid c |}.

(** [s.split_whitespace().last()]: the reversed text up to a white-space character. *)
Fixpoint word_rev (s acc : bytes) : bytes :=
  match s with
  | [] => acc
  | b :: s1 =>
      if ws1 b then acc
      else match s1 with
           | [] => b :: acc
           | c :: s2 =>
               if ws2 c b then acc
               else match s2 with
                    | d :: _ => if ws3 d c b then acc else word_rev s1 (b :: acc)
                    | [] => word_rev s1 (b :: acc)
                    end
           end
  end.
Definition last_word (s : bytes) : option bytes :=
  match word_rev (rev (trim_end s)) [] with [] => None | w => Some w end.

(** The number of rows of a CommandComplete. *)
Definition command_rows (payload : bytes) (affected : option Z) : option Z :=
  if utf8_valid payload
  then match last_word (trim_end_matches 0 payload) with Some n => parse_uint 64 n | None => None end
  else affected.

Definition in_tx_status (status : Z) : bool := (status =? ch "T") || (status =? ch "E").

Fixpoint collect_ready_loop (fuel : nat) (all : bytes) (is_err : bool) (affected : option Z) : PC BackendResponse :=
  match fuel with
  | O => se_modify set_unhealthy ;; se_fail Io
  | S fuel' =>
      r ← se_try (over read_pg_msg);
      match r with
      | Err e => se_modify set_unhealthy ;; se_fail e
      | Ok (t, payload) =>
          let all := all ++ build_pg_raw t payload in
          if t =? ch "Z" then
            se_modify (set_pc_in_transaction (in_tx_status (default (ch "I") (head payload)))) ;;
            mret {| br_bytes := all; affected_rows := affected; is_error := is_err;
                    session_changes := []; write_gtid := None |}
          else if t =? ch "E" then collect_ready_loop fuel' all true affected
          else if t =? ch "C" then collect_ready_loop fuel' all is_err (command_rows payload affected)
          else collect_ready_loop fuel' all is_err affected
      end
  end.
Definition collect_until_ready : PC BackendResponse :=
  c ← se_get; collect_ready_loop (S (length (inbox (link c)))) [] false None.

Definition execute_query (sql : bytes) : PC BackendResponse :=
  over (write_all ([ch "Q"] ++ to_be 4 (u32 (Z.of_nat (length sql) + 1 + 4)) ++ sql ++ [0])) ;;
  collect_until_ready.
Definition send_raw (packet : bytes) : PC BackendResponse :=
  over (write_all packet) ;; collect_until_ready.
Definition send_raw_no_response (packet : bytes) : PC unit := over (write_all packet).
Definition ping : PC unit := _ ← execute_query (bs "SELECT 1"); mret tt.

(** ** Frames: lemmas *)

Definition Msg : Type := Z * bytes.
Definition frame (m : Msg) : bytes := build_pg_raw (fst m) (snd m).
Definition frames (ms : list Msg) : bytes := concat (frame <$> ms).
(** The length fits its field. *)
Definition fits (m : Msg) : Prop := Z.of_nat (length (snd m)) + 4 < 2 ^ 32.
Definition fitsb (m : Msg) : bool := Z.of_nat (length (snd m)) + 4 <? 2 ^ 32.

Lemma fitsb_ok ms : forallb fitsb ms = true -> Forall fits ms.
Proof.
  induction ms as [|m ms IH]; [constructor|]. cbn [forallb]. intros [H1 H2]%andb_prop.
  constructor; [by apply Z.ltb_lt | by apply IH].
Qed.

Lemma pg_read_exact_app n p rest o :
  length p = n ->
  read_exact n {| inbox := p ++ rest; outbox := o |} = (Ok p, {| inbox := rest; outbox := o |}).
Proof.
  intros <-. unfold read_exact. cbn [inbox outbox]. rewrite length_app.
  rewrite (proj2 (Nat.leb_le _ _)) by lia. by rewrite take_app_length, drop_app_length.
Qed.

Lemma read_exact_short n l : (length (inbox l) < n)%nat -> read_exact n l = (Err Io, {| inbox := []; outbox := outbox l |}).
Proof. intros H. unfold read_exact. by rewrite (proj2 (Nat.leb_gt _ _)). Qed.

Lemma frame_length m : length (frame m) = (5 + length (snd m))%nat.
Proof. unfold frame, build_pg_raw. rewrite !length_app, to_be_length. reflexivity. Qed.

Lemma frames_cons m ms : frames (m :: ms) = frame m ++ frames ms.
Proof. reflexivity. Qed.
Lemma frames_app a b : frames (a ++ b) = frames a ++ frames b.
Proof. unfold frames. by rewrite fmap_app, concat_app. Qed.

Lemma frame_eq m : fits m ->
  frame m = (fst m :: to_be 4 (Z.of_nat (length (snd m)) + 4)) ++ snd m.
Proof.
  intros H. unfold frame, build_pg_raw. unfold u32. rewrite wrap_small; [done|]. unfold fits in H. unfold in_width. lia.
Qed.

Lemma of_to_be_len n : 0 <= n < 2 ^ 32 -> of_be (to_be 4 n) = n.
Proof. intros H. apply of_to_be. simpl Z.of_nat. lia. Qed.

(** What is written as a message is read back as the message. *)
Lemma read_pg_msg_frame m rest o : fits m ->
  read_pg_msg {| inbox := frame m ++ rest; outbox := o |} = (Ok m, {| inbox := rest; outbox := o |}).
Proof.
  intros Hm. rewrite frame_eq by done. unfold read_pg_msg. rewrite <- app_assoc.
  erewrite se_bind_ok by (apply pg_read_exact_app; cbn [length]; by rewrite to_be_length).
  cbn [drop]. rewrite drop_0. unfold fits in Hm. rewrite of_to_be_len by lia. rewrite (proj2 (Z.ltb_ge _ _)) by lia. cbv iota.
  erewrite se_bind_ok by (apply pg_read_exact_app; lia). by destruct m.
Qed.

Lemma read_pg_msg_empty o : read_pg_msg {| inbox := []; outbox := o |} = (Err Io, {| inbox := []; outbox := o |}).
Proof. reflexivity. Qed.

(** ** Collecting a response *)

Definition is_ready (m : Msg) : bool := fst m =? ch "Z".
Definition rows_of (affected : option Z) (m : Msg) : option Z :=
  if fst m =? ch "C" then command_rows (snd m) affected else affected.
Definition is_error_msg (m : Msg) : bool := fst m =? ch "E".

Definition with_link (l : Link) (c : PgBackendConnection) : PgBackendConnection :=
  {| link := l; pc_in_transaction := pc_in_transaction c; pc_healthy := pc_healthy c; backend_pid := backend_pid c |}.

Lemma over_frame m rest o c : fits m ->
  se_try (over read_pg_msg) (with_link {| inbox := frame m ++ rest; outbox := o |} c)
  = (Ok (Ok m), with_link {| inbox := rest; outbox := o |} c).
Proof. intros H. unfold se_try, over. cbn [link with_link]. by rewrite read_pg_msg_frame. Qed.

Lemma ch_distinct : ch "E" <> ch "Z" /\ ch "C" <> ch "Z" /\ ch "C" <> ch "E".
Proof. by repeat split. Qed.

(** One message that is not ReadyForQuery. *)
Lemma collect_step fuel m rest o c all is_err affected : fits m -> is_ready m = false ->
  collect_ready_loop (S fuel) all is_err affected (with_link {| inbox := frame m ++ rest; outbox := o |} c)
  = collect_ready_loop fuel (all ++ frame m) (is_err || is_error_msg m) (rows_of affected m)
      (with_link {| inbox := rest; outbox := o |} c).
Proof.
  intros Hm Hz. cbn [collect_ready_loop]. erewrite se_bind_ok by (by apply over_frame).
  destruct m as [t p]. unfold is_ready, is_error_msg, rows_of in *. cbn [fst snd] in *. rewrite Hz.
  change (build_pg_raw t p) with (frame (t, p)).
  destruct (t =? ch "E") eqn:He.
  - apply Z.eqb_eq in He. subst t. change (ch "E" =? ch "C") with false. by rewrite orb_true_r.
  - rewrite orb_false_r. by destruct (t =? ch "C").
Qed.

Lemma collect_steps ms : forall fuel rest o c all is_err affected,
  Forall fits ms -> forallb (fun m => negb (is_ready m)) ms = true ->
  collect_ready_loop (length ms + fuel) all is_err affected (with_link {| inbox := frames ms ++ rest; outbox := o |} c)
  = collect_ready_loop fuel (all ++ frames ms) (is_err || existsb is_error_msg ms) (foldl rows_of affected ms)
      (with_link {| inbox := rest; outbox := o |} c).
Proof.
  induction ms as [|m ms IH]; intros fuel rest o c all is_err affected Hf Hz.
  - cbn. by rewrite app_nil_r, orb_false_r.
  - apply Forall_cons_iff in Hf as [Hm Hf]. cbn [forallb] in Hz. apply andb_prop in Hz as [Hm2 Hz].
    rewrite frames_cons, <- app_assoc. cbn [length Nat.add]. rewrite collect_step; [|done|by apply negb_true_iff].
    rewrite IH by done. cbn [existsb foldl]. by rewrite <- app_assoc, orb_assoc.
Qed.

Lemma frames_count ms : (length ms <= length (frames ms))%nat.
Proof.
  induction ms as [|m ms IH]; [done|]. rewrite frames_cons, length_app, frame_length. cbn [length]. lia.
Qed.

(** C21: A response is collected exactly: the messages up to and with the first ReadyForQuery
    are taken, byte by byte, and nothing behind it; the response is an error when one of
    them is an ErrorResponse, the rows are those of the last CommandComplete, and the
    connection takes its transaction state from the status byte. *)
Theorem pg_response_collected c ms status rest :
  inbox (link c) = frames ms ++ frame (ch "Z", status) ++ rest ->
  Forall fits ms -> fits (ch "Z", status) -> forallb (fun m => negb (is_ready m)) ms = true ->
  collect_until_ready c =
  (Ok {| br_bytes := frames ms ++ frame (ch "Z", status); affected_rows := foldl rows_of None ms;
         is_error := existsb is_error_msg ms; session_changes := []; write_gtid := None |},
   set_pc_in_transaction (in_tx_status (default (ch "I") (head status)))
     (with_link {| inbox := rest; outbox := outbox (link c) |} c)).
Proof.
  intros Hi Hf Hs Hz. unfold collect_until_ready. rewrite (se_bind_ok _ _ c c c) by done.
  assert (exists fuel, S (length (inbox (link c))) = (length ms + S fuel)%nat) as [fuel ->].
  { exists (length (inbox (link c)) - length ms)%nat. rewrite Hi, length_app. pose proof (frames_count ms). lia. }
  assert (c = with_link {| inbox := frames ms ++ frame (ch "Z", status) ++ rest; outbox := outbox (link c) |} c) as Hc
    by (rewrite <- Hi; by destruct c as [[]]).
  rewrite Hc at 1. rewrite collect_steps by done. cbn [collect_ready_loop].
  erewrite se_bind_ok by (by apply over_frame). change (ch "Z" =? ch "Z") with true. cbn [orb app]. reflexivity.
Qed.

(** A response without ReadyForQuery is never delivered: whatever the backend has sent,
    a CopyInResponse for one, is read and held back, and when the backend hangs up the
    connection is marked broken. *)
Theorem no_ready_no_response c ms :
  inbox (link c) = frames ms -> Forall fits ms -> forallb (fun m => negb (is_ready m)) ms = true ->
  collect_until_ready c = (Err Io, set_unhealthy (with_link {| inbox := []; outbox := outbox (link c) |} c)).
Proof.
  intros Hi Hf Hz. unfold collect_until_ready. rewrite (se_bind_ok _ _ c c c) by done.
  assert (exists fuel, S (length (inbox (link c))) = (length ms + S fuel)%nat) as [fuel ->].
  { exists (length (inbox (link c)) - length ms)%nat. rewrite Hi. pose proof (frames_count ms). lia. }
  assert (c = with_link {| inbox := frames ms ++ []; outbox := outbox (link c) |} c) as Hc
    by (rewrite app_nil_r, <- Hi; by destruct c as [[]]).
  rewrite Hc at 1. by rewrite collect_steps.
Qed.

(** ** What was read, from what is known *)

Lemma to_of_be s : bytes_ok s -> to_be (length s) (of_be s) = s.
Proof.
  intros H. unfold to_be, of_be. rewrite <- (length_rev s), to_of_le; [apply rev_involutive|].
  by apply Forall_rev.
Qed.
Lemma of_be_range s : bytes_ok s -> 0 <= of_be s < 256 ^ Z.of_nat (length s).
Proof. intros H. unfold of_be. rewrite <- (length_rev s). apply of_le_range. by apply Forall_rev. Qed.

Lemma read_exact_inv n l p l' : read_exact n l = (Ok p, l') -> inbox l = p ++ inbox l' /\ length p = n.
Proof.
  unfold read_exact. destruct (n <=? length (inbox l))%nat eqn:E; [|done]. intros [= <- <-]. cbn.
  apply Nat.leb_le in E. rewrite take_drop, length_take. split; [done | lia].
Qed.

Lemma read_pg_msg_inv l m l' : bytes_ok (inbox l) -> read_pg_msg l = (Ok m, l') ->
  inbox l = frame m ++ inbox l' /\ fits m /\ bytes_ok (inbox l').
Proof.
  intros Hok H. unfold read_pg_msg in H. apply se_bind_inv in H as [(hdr & l1 & H1 & H)|(e & ? & ?)]; [|done].
  apply read_exact_inv in H1 as [Hi Hl]. destruct hdr as [|t len]; [done|]. cbn [drop] in H. rewrite drop_0 in H.
  rewrite Hi in Hok. apply Forall_app in Hok as [Hh Hok]. apply Forall_cons_iff in Hh as [_ Hlen].
  cbn [length] in Hl. injection Hl as Hl. pose proof (of_be_range len Hlen) as Hr. rewrite Hl in Hr. simpl Z.of_nat in Hr.
  destruct (of_be len <? 4) eqn:E; [done|]. apply Z.ltb_ge in E.
  apply se_bind_inv in H as [(p & l2 & H2 & H)|(e & ? & ?)]; [|done]. injection H as <- <-.
  apply read_exact_inv in H2 as [Hi2 Hp]. rewrite Hi2 in Hok. apply Forall_app in Hok as [_ Hok].
  assert (fits (t, p)) as Hf by (unfold fits; cbn [snd]; lia). change (at_ (t :: len) 0) with t.
  split; [|done]. rewrite Hi, Hi2, frame_eq by done. cbn [fst snd].
  replace (Z.of_nat (length p) + 4) with (of_be len) by lia. rewrite <- Hl at 1. rewrite to_of_be by done.
  by rewrite <- app_assoc.
Qed.

Lemma collect_inv fuel : forall c all is_err affected r c',
  bytes_ok (inbox (link c)) -> collect_ready_loop fuel all is_err affected c = (Ok r, c') ->
  exists ms status, inbox (link c) = frames ms ++ frame (ch "Z", status) ++ inbox (link c') /\
    br_bytes r = all ++ frames ms ++ frame (ch "Z", status) /\ Forall fits (ms ++ [(ch "Z", status)]) /\
    forallb (fun m => negb (is_ready m)) ms = true /\
    pc_in_transaction c' = in_tx_status (default (ch "I") (head status)).
Proof.
  induction fuel as [|fuel IH]; intros c all is_err affected r c' Hok H; [done|]. cbn [collect_ready_loop] in H.
  apply se_bind_inv in H as [(a & c1 & H1 & H)|(e & H1 & _)]; [|by unfold se_try in H1; destruct (over _ c)].
  unfold se_try, over in H1. destruct (read_pg_msg (link c)) as [[m|e] l] eqn:E; injection H1 as <- <-; [|done].
  apply read_pg_msg_inv in E as (Hi & Hf & Hok2); [|done]. destruct m as [t p].
  destruct (t =? ch "Z") eqn:Ez.
  - apply Z.eqb_eq in Ez. subst t. injection H as <- <-. exists [], p. split_and!; [exact Hi | done | by repeat constructor | done | done].
  - assert (exists e' a', collect_ready_loop fuel (all ++ frame (t, p)) e' a' (with_link l c) = (Ok r, c')) as (e' & a' & H')
      by (destruct (t =? ch "E"); [|destruct (t =? ch "C")]; eauto).
    apply IH in H' as (ms & st & Hi' & Hb & Hfs & Hz & Htx); [|done]. cbn [link with_link] in Hi'.
    exists ((t, p) :: ms), st. rewrite frames_cons, Hi, Hi', Hb, <- !app_assoc. split_and!; try done.
    + by constructor.
    + cbn [forallb]. unfold is_ready at 1. cbn [fst]. by rewrite Ez.
Qed.

(** ** The status in a response *)

Definition status_of (last : option Z) (m : Msg) : option Z :=
  if is_ready m && (length (snd m) =? 1)%nat then head (snd m) else last.

Lemma ready_loop_frames ms : forall fuel last, (length (frames ms) <= fuel)%nat -> Forall fits ms ->
  ready_loop fuel (frames ms) last = foldl status_of last ms.
Proof.
  induction ms as [|m ms IH]; intros fuel last Hfuel Hf; [by destruct fuel|]. apply Forall_cons_iff in Hf as [Hm Hf].
  rewrite frames_cons in *. rewrite length_app, frame_length in Hfuel. destruct fuel as [|fuel]; [lia|].
  cbn [ready_loop foldl]. rewrite length_app, frame_length. rewrite (proj2 (Nat.ltb_ge _ _)) by lia.
  assert (of_be (take 4 (drop 1 (frame m ++ frames ms))) = Z.of_nat (length (snd m)) + 4) as ->.
  { rewrite frame_eq by done. cbn [app drop]. rewrite drop_0, <- app_assoc, take_app_length' by (by rewrite to_be_length).
    apply of_to_be_len. unfold fits in Hm. lia. }
  rewrite (proj2 (Z.ltb_ge _ 4)) by lia. rewrite (proj2 (Z.ltb_ge _ _)) by lia. cbn [orb].
  rewrite drop_app_length' by (rewrite frame_length; lia). rewrite IH by (done || lia). f_equal.
  unfold status_of, is_ready. change (at_ (frame m ++ frames ms) 0) with (fst m).
  assert ((Z.of_nat (length (snd m)) + 4 =? 5) = (length (snd m) =? 1)%nat) as ->.
  { destruct (Nat.eqb_spec (length (snd m)) 1); [apply Z.eqb_eq | apply Z.eqb_neq]; lia. }
  destruct (fst m =? ch "Z"), (length (snd m) =? 1)%nat eqn:E1; try done. cbn [andb].
  apply Nat.eqb_eq in E1. rewrite frame_eq by done. cbn [app]. unfold at_. cbn [lookup list_lookup].
  rewrite <- app_assoc. destruct m as [t [|b [|]]]; try done.
Qed.

(** The session and the connection agree: the transaction state the session reads off the
    bytes of a response is the one the connection has taken from its last message. *)
Theorem pg_status_agrees c r c' status :
  bytes_ok (inbox (link c)) -> collect_until_ready c = (Ok r, c') ->
  extract_ready_status (br_bytes r) = Some status -> pc_in_transaction c' = in_tx_status status.
Proof.
  intros Hok H Hs. unfold collect_until_ready in H. rewrite (se_bind_ok _ _ c c c) in H by done.
  apply collect_inv in H as (ms & st & _ & Hb & Hf & Hz & ->); [|done]. f_equal.
  unfold extract_ready_status in Hs. rewrite Hb in Hs. cbn [app] in Hs.
  assert (frames ms ++ frame (ch "Z", st) = frames (ms ++ [(ch "Z", st)])) as He
    by (rewrite frames_app; cbn; by rewrite app_nil_r).
  rewrite He, ready_loop_frames, foldl_app in Hs by done. cbn [foldl] in Hs.
  assert (foldl status_of None ms = None) as Hn.
  { clear -Hz. induction ms as [|m ms IH]; [done|]. cbn [forallb foldl] in *. apply andb_prop in Hz as [Hm Hz].
    unfold status_of at 2. apply negb_true_iff in Hm. rewrite Hm. by apply IH. }
  rewrite Hn in Hs. unfold status_of in Hs. cbn [snd] in Hs.
  destruct (is_ready (ch "Z", st) && _); [|done]. by rewrite Hs.
Qed.

(** ** Commands *)

Lemma read_pipeline_frames ms : forall fuel buf sync rest o,
  (length ms < fuel)%nat -> Forall fits ms -> fits (ch "S", sync) ->
  forallb (fun m => negb (fst m =? ch "S")) ms = true ->
  read_pipeline fuel buf {| inbox := frames ms ++ frame (ch "S", sync) ++ rest; outbox := o |}
  = (Ok (buf ++ frames ms ++ frame (ch "S", sync)), {| inbox := rest; outbox := o |}).
Proof.
  induction ms as [|m ms IH]; intros fuel buf sync rest o Hfuel Hf Hs Hn; (destruct fuel as [|fuel]; [cbn in Hfuel; lia|]);
    cbn [read_pipeline].
  - change (frames [] ++ frame (ch "S", sync) ++ rest) with (frame (ch "S", sync) ++ rest).
    erewrite se_bind_ok by (by apply read_pg_msg_frame). reflexivity.
  - apply Forall_cons_iff in Hf as [Hm Hf]. cbn [forallb] in Hn. apply andb_prop in Hn as [Hm2 Hn].
    rewrite frames_cons, <- app_assoc. erewrite se_bind_ok by (by apply read_pg_msg_frame).
    apply negb_true_iff in Hm2. rewrite Hm2. cbn [length] in Hfuel. rewrite IH by (done || lia).
    change (build_pg_raw (fst m) (snd m)) with (frame m). by rewrite <- !app_assoc.
Qed.

(** A pipeline of the extended protocol is one command: everything from its first message
    up to and with Sync, byte by byte, and what the client has sent behind it stays unread. *)
Theorem pg_pipeline_is_one_command m ms sync rest o :
  extended_query (fst m) = true -> Forall fits (m :: ms) -> fits (ch "S", sync) ->
  forallb (fun m => negb (fst m =? ch "S")) ms = true ->
  read_command {| inbox := frames (m :: ms) ++ frame (ch "S", sync) ++ rest; outbox := o |}
  = (Ok (Stmt (frames (m :: ms) ++ frame (ch "S", sync))), {| inbox := rest; outbox := o |}).
Proof.
  intros He Hf Hs Hn. apply Forall_cons_iff in Hf as [Hm Hf]. unfold read_command. rewrite frames_cons, <- app_assoc.
  erewrite se_bind_ok by (by apply read_pg_msg_frame). destruct m as [t p]. cbn [fst] in He.
  assert ((t =? ch "Q") = false /\ (t =? ch "X") = false) as [-> ->].
  { unfold extended_query in He. apply mem_true in He. repeat (apply elem_of_cons in He as [->|He]; [done|]).
    by apply elem_of_nil in He. }
  rewrite He. match goal with |- context [_ {| inbox := ?i; outbox := ?ob |}] => rewrite (se_bind_ok _ _ _ {| inbox := i; outbox := ob |} {| inbox := i; outbox := ob |}) by done end. cbn [inbox].
  erewrite se_bind_ok; [|apply read_pipeline_frames; try done].
  - by rewrite <- app_assoc.
  - rewrite length_app. pose proof (frames_count ms). lia.
Qed.

(** ** Errors *)

Lemma find_byte_from_app i v rest : no_nul v -> find_byte_from i (Z.eqb 0) (v ++ 0 :: rest) = Some (i + length v)%nat.
Proof.
  intros H. revert i. induction H as [|b v Hb Hv IH]; intros i; cbn [app find_byte_from length].
  - by rewrite Nat.add_0_r.
  - rewrite (proj2 (Z.eqb_neq 0 b)) by done. rewrite IH. f_equal. lia.
Qed.

(** One field of an error message. *)
Lemma error_field fuel t v rest sev msg : cstr v -> t <> 0 ->
  error_fields (S fuel) (t :: v ++ 0 :: rest) sev msg =
  error_fields fuel rest (if t =? ch "S" then v else sev)
    (if t =? ch "S" then msg else if t =? ch "M" then v else msg).
Proof.
  intros [Hn Hu] Ht. cbn [error_fields]. rewrite (proj2 (Z.eqb_neq t 0)) by done.
  unfold find_byte. rewrite find_byte_from_app by done. cbn [from_option id Nat.add].
  rewrite take_app_length, utf8_lossy_valid by done.
  replace (drop (length v + 1) (v ++ 0 :: rest)) with rest.
  2:{ replace (v ++ 0 :: rest) with ((v ++ [0]) ++ rest) by (by rewrite <- app_assoc).
      rewrite drop_app_length'; [done|]. rewrite length_app. cbn. lia. }
  by destruct (t =? ch "S"), (t =? ch "M").
Qed.

(** The text of an error message is read back from it. *)
Theorem pg_error_roundtrip severity sqlstate message :
  cstr severity -> cstr sqlstate -> cstr message -> severity <> [] -> message <> [] ->
  parse_pg_error (error_payload severity sqlstate message) = severity ++ bs ": " ++ message.
Proof.
  intros Hs Hc Hm Hs0 Hm0. unfold parse_pg_error.
  assert (error_fields (length (error_payload severity sqlstate message)) (error_payload severity sqlstate message) [] []
    = (severity, message)) as ->.
  { assert (exists n, length (error_payload severity sqlstate message) = S (S (S (S n)))) as [n ->].
    { eexists (length severity + (length sqlstate + (length message + 3)))%nat. unfold error_payload. cbn [bs]. rewrite !length_app. cbn. lia. }
    unfold error_payload. change (bs "S") with [ch "S"]. change (bs "C") with [ch "C"]. change (bs "M") with [ch "M"].
    cbn [app]. rewrite (error_field _ (ch "S")), (error_field _ (ch "C")), (error_field _ (ch "M")) by done. reflexivity. }
  unfold beq. by rewrite !bool_decide_eq_false_2.
Qed.

(** The proxy's error codes are MySQL's or SQLSTATEs; whatever is not in the table, also
    the codes the PostgreSQL server uses for a lost backend, is sent as an internal error. *)
Example lost_backend_codes_are_not_sent :
  sqlstate_of (bs "25P02") = bs "XX000" /\ sqlstate_of (bs "08006") = bs "XX000" /\
  sqlstate_of (bs "42501") = bs "42501".
Proof. done. Qed.

(** A Sync on its own is not a pipeline but an unknown command. *)
Example lone_sync_is_other :
  read_command {| inbox := frame (ch "S", []); outbox := [] |} =
  (Ok (Other (frame (ch "S", []))), {| inbox := []; outbox := [] |}).
Proof. reflexivity. Qed.

(** ** Concrete exchanges *)

Definition demo_conn (input : bytes) : PgBackendConnection :=
  {| link := {| inbox := input; outbox := [] |}; pc_in_transaction := false; pc_healthy := true; backend_pid := 7 |}.
Definition demo_update : list Msg := [(ch "N", bs "hint"); (ch "C", bs "UPDATE 3" ++ [0])].

Lemma pg_response_collected_witness :
  exists r c', collect_until_ready (demo_conn (frames demo_update ++ frame (ch "Z", bs "T") ++ [1; 2])) = (Ok r, c') /\
  affected_rows r = Some 3 /\ pc_in_transaction c' = true /\ inbox (link c') = [1; 2].
Proof.
  do 2 eexists. split.
  - apply (pg_response_collected _ demo_update (bs "T") [1; 2]); [reflexivity | by apply fitsb_ok | unfold fits; cbn; lia | reflexivity].
  - by vm_compute.
Defined.

(** The answer to [COPY t FROM STDIN]: the backend now waits for data. *)
Lemma no_ready_no_response_witness :
  fst (collect_until_ready (demo_conn (frames [(ch "G", [0; 0; 1; 0; 0])]))) = Err Io.
Proof.
  rewrite (no_ready_no_response _ [(ch "G", [0; 0; 1; 0; 0])]); [reflexivity | reflexivity | by apply fitsb_ok | reflexivity].
Defined.

Lemma pg_status_agrees_witness :
  let c := demo_conn (frames [(ch "C", bs "BEGIN" ++ [0]); (ch "Z", bs "T")]) in
  pc_in_transaction (snd (collect_until_ready c)) = true.
Proof.
  cbv zeta. destruct (collect_until_ready _) as [[r|e] c'] eqn:E; [|by vm_compute in E].
  refine (pg_status_agrees _ r c' (ch "T") _ E _); [text_ok|]. vm_compute in E. by injection E as <- _.
Defined.

Lemma pg_pipeline_is_one_command_witness :
  let ms := [(ch "P", bs "s" ++ [0] ++ bs "SELECT 1" ++ [0; 0; 0]); (ch "E", [0; 0; 0; 0; 0])] in
  read_command {| inbox := frames ms ++ frame (ch "S", []) ++ [88]; outbox := [] |} =
  (Ok (Stmt (frames ms ++ frame (ch "S", []))), {| inbox := [88]; outbox := [] |}).
Proof.
  apply pg_pipeline_is_one_command; [reflexivity | by apply fitsb_ok | unfold fits; cbn; lia | reflexivity].
Defined.

Lemma pg_error_roundtrip_witness :
  parse_pg_error (error_payload (bs "FATAL") (bs "28P01") (bs "no")) = bs "FATAL: no".
Proof.
  apply pg_error_roundtrip; first [discriminate | apply cstrb_ok; reflexivity].
Defined.
