(* ===== verification/PgAuth.v ===== *)
(** * PostgreSQL start-up and authentication (src/src/protocol/postgres/mod.rs)

    The proxy as a server ([accept_client], [accept_startup]) and as a client
    ([connect_backend], [pg_backend_auth], SCRAM-SHA-256).  Hash functions and base64 are
    classes; TLS and name resolution are functions that give the stream to go on with. *)

From S2P Require Import Prelude Bytes Config MysqlCodec Auth Handshake PgWire.

(** The crates md5 and base64; a decoding error is its text. *)
Class TextCodecs := {
  md5 : bytes -> bytes;
  b64_encode : bytes -> bytes;
  b64_decode_raw : bytes -> result bytes bytes
}.

(** What the hash and base64 promise: digests of 32 bytes; a text without commas or zero
    bytes that decodes to what was encoded. *)
Class ScramLaws (HS : Hashes) (TC : TextCodecs) : Prop := {
  digest_length m : length (sha256 m) = 32%nat;
  digest_ok m : bytes_ok (sha256 m);
  b64_decode_encode d : bytes_ok d -> b64_decode_raw (b64_encode d) = Ok d;
  b64_text d : Forall (fun b => 0 < b < 128 /\ b <> 44) (b64_encode d)
}.

(** An outcome of the calls that may run into the stream being freed twice. *)
Inductive connect_failure := ConnectError (e : ProtocolError) | Undefined.

Section PgAuth.
Context `{HS : Hashes} `{ENV : Environment} `{SC : SecretCodec} `{TC : TextCodecs}.

(** ** Keyed hashes *)

Definition hmac_sha256 (key data : bytes) : bytes :=
  let k := if (64 <? length key)%nat then sha256 key ++ repeat 0 32 else key ++ repeat 0 (64 - length key) in
  sha256 (map (Z.lxor 92) k ++ sha256 (map (Z.lxor 54) k ++ data)).

(** [for _ in 1..iterations]. *)
Fixpoint pbkdf2_loop (n : nat) (password u res : bytes) : bytes :=
  match n with
  | O => res
  | S n' => let u := hmac_sha256 password u in pbkdf2_loop n' password u (xor_bytes res u)
  end.
Definition pbkdf2_sha256 (password salt : bytes) (iterations : Z) : bytes :=
  let u := hmac_sha256 password (salt ++ [0; 0; 0; 1]) in
  pbkdf2_loop (Z.to_nat (iterations - 1)) password u u.

Definition hex_char (n : Z) : Z := if n <? 10 then 48 + n else 87 + n.
Definition md5_hex (data : bytes) : bytes :=
  concat (map (fun b => [hex_char (b / 16); hex_char (b mod 16)]) (md5 data)).

Definition b64_decode (s : bytes) : result ProtocolError bytes :=
  match b64_decode_raw s with
  | Ok d => Ok d
  | Err e => Err (InvalidFormat (bs "base64 decode: " ++ e))
  end.
Definition from_result {A} (r : result ProtocolError A) : PG A := fun l => (r, l).

(** ** SCRAM-SHA-256, the client's part *)

Record ServerFirst := { full_nonce : bytes; salt_b64 : bytes; iterations : Z }.
Definition server_first_part (f : ServerFirst) (part : bytes) : ServerFirst :=
  if starts_with part (bs "r=") then
    {| full_nonce := drop 2 part; salt_b64 := salt_b64 f; iterations := iterations f |}
  else if starts_with part (bs "s=") then
    {| full_nonce := full_nonce f; salt_b64 := drop 2 part; iterations := iterations f |}
  else if starts_with part (bs "i=") then
    {| full_nonce := full_nonce f; salt_b64 := salt_b64 f; iterations := default 4096 (parse_uint 32 (drop 2 part)) |}
  else f.
Definition parse_server_first (sfm : bytes) : ServerFirst :=
  foldl server_first_part {| full_nonce := []; salt_b64 := []; iterations := 4096 |} (split_on 44 sfm).

(** The keys and messages both sides compute. *)
Definition client_first_bare (user client_nonce : bytes) : bytes := bs "n=" ++ user ++ bs ",r=" ++ client_nonce.
Definition without_proof (nonce : bytes) : bytes := bs "c=" ++ b64_encode (bs "n,,") ++ bs ",r=" ++ nonce.
Definition auth_message (cfmb sfm nonce : bytes) : bytes := cfmb ++ bs "," ++ sfm ++ bs "," ++ without_proof nonce.
Definition client_key (salted : bytes) : bytes := hmac_sha256 salted (bs "Client Key").
Definition stored_key (salted : bytes) : bytes := sha256 (client_key salted).
Definition server_key (salted : bytes) : bytes := hmac_sha256 salted (bs "Server Key").
Definition client_proof (salted auth_msg : bytes) : bytes :=
  xor_bytes (client_key salted) (hmac_sha256 (stored_key salted) auth_msg).
Definition server_signature (salted auth_msg : bytes) : bytes := hmac_sha256 (server_key salted) auth_msg.

Definition sasl_initial (cfmb : bytes) : bytes :=
  bs "SCRAM-SHA-256" ++ [0] ++ to_be 4 (u32 (Z.of_nat (length (bs "n,," ++ cfmb)))) ++ bs "n,," ++ cfmb.
Definition client_final (salted auth_msg nonce : bytes) : bytes :=
  without_proof nonce ++ bs ",p=" ++ b64_encode (client_proof salted auth_msg).

(** A message of the server that must be an R of one kind; its text. *)
Definition read_sasl (method : Z) (what : bytes) : PG bytes :=
  m ← read_pg_msg;
  if negb (fst m =? ch "R") || (length (snd m) <? 4)%nat
  then se_fail (AuthFailed (bs "expected SASL " ++ what))
  else
    let got := of_be (take 4 (snd m)) in
    if negb (got =? method)
    then se_fail (AuthFailed (bs "expected " ++ show_u64 method ++ bs ", got " ++ show_u64 got))
    else mret (drop 4 (snd m)).

(** [nonce_raw] is what the random number generator gives. *)
Definition scram_auth (user password mechanisms nonce_raw : bytes) : PG unit :=
  if negb (mem (bs "SCRAM-SHA-256") (split_on 0 (from_utf8_or_empty mechanisms)))
  then se_fail (AuthFailed (bs "SCRAM-SHA-256 not offered"))
  else
    let client_nonce := b64_encode nonce_raw in
    let cfmb := client_first_bare user client_nonce in
    write_pg_msg (ch "p") (sasl_initial cfmb) ;;
    sfm ← read_sasl AUTH_SASL_CONTINUE (bs "continue");
    if negb (utf8_valid sfm) then se_fail (AuthFailed (bs "invalid SCRAM server-first")) else
    let f := parse_server_first sfm in
    if iterations f <? 4096 then
      se_fail (AuthFailed (bs "SCRAM-SHA-256: server requested " ++ show_u64 (iterations f)
        ++ bs " iterations (minimum required: 4096 per RFC 7677)"))
    else if negb (starts_with (full_nonce f) client_nonce) then se_fail (AuthFailed (bs "SCRAM nonce mismatch"))
    else
      salt ← from_result (b64_decode (salt_b64 f));
      let salted := pbkdf2_sha256 password salt (iterations f) in
      let auth_msg := auth_message cfmb sfm (full_nonce f) in
      write_pg_msg (ch "p") (client_final salted auth_msg (full_nonce f)) ;;
      sfinal ← read_sasl AUTH_SASL_FINAL (bs "final");
      if beq (trim_end_matches 0 (from_utf8_or_empty sfinal)) (bs "v=" ++ b64_encode (server_signature salted auth_msg))
      then mret tt else se_fail (AuthFailed (bs "SCRAM server signature mismatch")).

(** ** Logging in to a backend *)

Definition startup_body (user database : bytes) : bytes :=
  to_be 4 PROTOCOL_V3 ++ bs "user" ++ [0] ++ user ++ [0] ++ bs "database" ++ [0] ++ database ++ [0]
  ++ bs "application_name" ++ [0] ++ bs "turbineproxy" ++ [0] ++ [0].
Definition startup_message (user database : bytes) : bytes :=
  to_be 4 (u32 (Z.of_nat (length (startup_body user database)) + 4)) ++ startup_body user database.

Definition md5_answer (user password salt : bytes) : bytes :=
  bs "md5" ++ md5_hex (md5_hex (password ++ user) ++ salt) ++ [0].

(** The answer to an authentication request. *)
Definition answer_auth (user password nonce_raw payload : bytes) : PG unit :=
  if (length payload <? 4)%nat then se_fail (AuthFailed (bs "auth packet too short"))
  else
    let method := of_be (take 4 payload) in
    if method =? AUTH_OK then mret tt
    else if method =? AUTH_CLEARTEXT then write_pg_msg (ch "p") (password ++ [0])
    else if method =? AUTH_MD5 then
      let salt := if (8 <=? length payload)%nat then take 4 (drop 4 payload) else [0; 0; 0; 0] in
      write_pg_msg (ch "p") (md5_answer user password salt)
    else if method =? AUTH_SASL then scram_auth user password (drop 4 payload) nonce_raw
    else se_fail (AuthFailed (bs "unsupported PG auth method " ++ show_u64 method)).

(** Messages up to ReadyForQuery; each one takes five bytes at least. *)
Fixpoint auth_loop (fuel : nat) (user password nonce_raw : bytes) (backend_pid : Z) : PG Z :=
  match fuel with
  | O => se_fail Io
  | S fuel' =>
      m ← read_pg_msg;
      let (t, payload) := m : Z * bytes in
      if t =? ch "R" then
        answer_auth user password nonce_raw payload ;; auth_loop fuel' user password nonce_raw backend_pid
      else if (t =? ch "K") && (4 <=? length payload)%nat then
        auth_loop fuel' user password nonce_raw (of_be (take 4 payload))
      else if t =? ch "Z" then mret backend_pid
      else if t =? ch "E" then se_fail (AuthFailed (parse_pg_error payload))
      else auth_loop fuel' user password nonce_raw backend_pid
  end.

Definition pg_backend_auth (user password database nonce_raw : bytes) : PG Z :=
  write_all (startup_message user database) ;;
  l ← se_get;
  auth_loop (S (length (inbox l))) user password nonce_raw 0.

Definition ssl_request : bytes := to_be 4 8 ++ to_be 4 SSL_REQUEST_CODE.

(** The stream after a TLS handshake, or the text of its error. *)
Variable tls_connect tls_accept : Link -> result bytes Link.
Definition tls_upgrade (tls : Link -> result bytes Link) (prefix : bytes) : PG unit := fun l =>
  match tls l with Ok l' => (Ok tt, l') | Err e => (Err (AuthFailed (prefix ++ e)), l) end.

Definition negotiate_tls (mode : TlsMode) (addr mode_text : bytes) : PG unit :=
  match mode with
  | TlsOff => mret tt
  | _ =>
      write_all ssl_request ;;
      resp ← read_exact 1;
      if at_ resp 0 =? ch "S" then tls_upgrade tls_connect []
      else match mode with
           | TlsVerifyCa | TlsVerifyIdentity =>
               se_fail (AuthFailed (bs "Backend " ++ addr ++ bs " declined TLS but tls_mode=" ++ mode_text ++ bs " requires it"))
           | _ => mret tt
           end
  end.

(** From the open socket on.  For each statement of [init_connect] the boxed halves of the
    stream are copied bit by bit into a temporary connection that is dropped at the end of
    the iteration; what the real connection does with them afterwards is undefined. *)
Definition connect_backend (mode : TlsMode) (addr mode_text user password : bytes) (database : option bytes)
    (init_connect : list bytes) (nonce_raw : bytes) : SE Link connect_failure PgBackendConnection := fun l =>
  match (negotiate_tls mode addr mode_text ;; pg_backend_auth user password (default (bs "postgres") database) nonce_raw) l with
  | (Err e, l) => (Err (ConnectError e), l)
  | (Ok pid, l) =>
      match init_connect with
      | [] => (Ok {| link := l; pc_in_transaction := false; pc_healthy := true; backend_pid := pid |}, l)
      | _ => (Err Undefined, l)
      end
  end.

(** ** Accepting a client *)

Variable users : list UserConfig.
Variable connection_id : Z.

Definition find_user (username : bytes) : option UserConfig := List.find (fun u => beq (name u) username) users.

Definition unknown_role (username : bytes) : bytes :=
  error_payload (bs "FATAL") (bs "28000") (bs "role " ++ [dquote] ++ username ++ [dquote] ++ bs " does not exist").
Definition bad_password : bytes := error_payload (bs "FATAL") (bs "28P01") (bs "password authentication failed").

Definition strip_nul (payload : bytes) : bytes :=
  match rev payload with 0 :: r => rev r | _ => payload end.

(** Ask for the password and compare; the write permission of the user. *)
Definition check_password (username : bytes) : PG bool :=
  match users with
  | [] => mret true
  | _ =>
      match find_user username with
      | None =>
          write_pg_msg (ch "E") (unknown_role username) ;;
          se_fail (AuthFailed (bs "unknown user: " ++ username))
      | Some u =>
          write_pg_msg (ch "R") (to_be 4 AUTH_CLEARTEXT) ;;
          m ← read_pg_msg;
          if negb (fst m =? ch "p") then se_fail (AuthFailed (bs "expected PasswordMessage"))
          else if negb (beq (utf8_lossy (strip_nul (snd m))) (resolved_password u)) then
            write_pg_msg (ch "E") bad_password ;;
            se_fail (AuthFailed (bs "password mismatch"))
          else mret (uc_allow_writes u)
      end
  end.

Definition params_to_send : list (bytes * bytes) :=
  [(bs "server_version", bs "16.0"); (bs "server_encoding", bs "UTF8"); (bs "client_encoding", bs "UTF8");
   (bs "DateStyle", bs "ISO, MDY"); (bs "TimeZone", bs "UTC"); (bs "integer_datetimes", bs "on");
   (bs "standard_conforming_strings", bs "on")].
Definition backend_key : bytes := to_be 4 connection_id ++ to_be 4 (u32 (connection_id * 1103515245)).

(** What follows a successful authentication. *)
Definition welcome : PG unit :=
  write_pg_msg (ch "R") (to_be 4 0) ;;
  se_iter (fun kv => write_pg_msg (ch "S") (fst kv ++ [0] ++ snd kv ++ [0])) params_to_send ;;
  write_pg_msg (ch "K") backend_key ;;
  write_pg_msg (ch "Z") (bs "I").

Definition accept_startup (startup : bytes) : PG PgClientSession :=
  let params := parse_startup_params startup in
  let username := default (bs "postgres") (params !! bs "user") in
  let database := default (bs "postgres") (params !! bs "database") in
  let app_name := default [] (params !! bs "application_name") in
  allow_writes ← check_password username;
  welcome ;;
  mret {| pgs_in_transaction := false; pgs_username := username; pgs_database := database;
          pgs_allow_writes := allow_writes; pgs_app_name := app_name |}.

Definition accept_client (with_tls : bool) : PG PgClientSession :=
  startup ← read_startup_bytes;
  if (length startup <? 4)%nat then se_fail (InvalidFormat (bs "startup too short"))
  else
    let version_code := of_be (take 4 startup) in
    if version_code =? SSL_REQUEST_CODE then
      (if with_tls then write_all (bs "S") ;; tls_upgrade tls_accept (bs "TLS client handshake failed: ")
       else write_all (bs "N")) ;;
      startup2 ← read_startup_bytes;
      accept_startup startup2
    else if version_code =? CANCEL_CODE then se_fail (InvalidFormat (bs "cancel request not supported"))
    else accept_startup startup.
End PgAuth.

(** ** Texts split at commas *)

Definition without (c : Z) (s : bytes) : Prop := Forall (fun b => b <> c) s.

Lemma split_on_sep c a r : without c a -> split_on c (a ++ c :: r) = a :: split_on c r.
Proof.
  induction 1 as [|b a Hb Ha IH]; cbn [app split_on]; [by rewrite Z.eqb_refl|].
  by rewrite (proj2 (Z.eqb_neq b c)), IH.
Qed.
Lemma split_on_none c a : without c a -> split_on c a = [a].
Proof.
  induction 1 as [|b a Hb Ha IH]; cbn [split_on]; [done|]. by rewrite (proj2 (Z.eqb_neq b c)), IH.
Qed.

Lemma parse_uint_narrow w s v : parse_uint 64 s = Some v -> v < 2 ^ w -> parse_uint w s = Some v.
Proof.
  unfold parse_uint. intros H Hv. destruct (match s with 43 :: s' => s' | _ => s end) as [|b s']; [done|].
  destruct (parse_digits 0 (b :: s')) as [x|]; [|done]. destruct (x <? 2 ^ 64); [|done]. injection H as ->.
  by rewrite (proj2 (Z.ltb_lt _ _)).
Qed.

Lemma byte_log2 x : byte x -> Z.log2 x < 8.
Proof.
  intros H. unfold byte in H. destruct (Z.eq_dec x 0) as [->|Hn]; [reflexivity|]. apply Z.log2_lt_pow2; lia.
Qed.
Lemma lxor_byte a b : byte a -> byte b -> byte (Z.lxor a b).
Proof.
  intros Ha Hb. pose proof (byte_log2 a Ha). pose proof (byte_log2 b Hb). unfold byte in *.
  assert (0 <= Z.lxor a b) by (apply Z.lxor_nonneg; lia). split; [done|].
  destruct (Z.eq_dec (Z.lxor a b) 0) as [->|Hn]; [lia|].
  change 256 with (2 ^ 8). apply Z.log2_lt_pow2; [lia|].
  eapply Z.le_lt_trans; [apply Z.log2_lxor; lia | by apply Z.max_lub_lt].
Qed.

Lemma xor_bytes_ok a b : bytes_ok a -> bytes_ok b -> bytes_ok (xor_bytes a b).
Proof.
  unfold bytes_ok, xor_bytes. intros Ha. revert b.
  induction Ha as [|x a Hx Ha IH]; intros b Hb; [constructor|].
  destruct Hb as [|y b Hy Hb]; [constructor|]. cbn [zip_with]. constructor; [by apply lxor_byte | by apply IH].
Qed.

(** ** SCRAM against a reference server *)

Section Scram.
Context `{HS : Hashes} `{ENV : Environment} `{SC : SecretCodec} `{TC : TextCodecs} `{!ScramLaws HS TC}.

Lemma hmac_length k m : length (hmac_sha256 k m) = 32%nat.
Proof. apply digest_length. Qed.
Lemma hmac_ok k m : bytes_ok (hmac_sha256 k m).
Proof. apply digest_ok. Qed.
Lemma b64_comma d : without 44 (b64_encode d).
Proof. unfold without. pose proof (b64_text d) as H. induction H as [|b s [_ Hb] _ IH]; by constructor. Qed.
Lemma b64_nul d : without 0 (b64_encode d).
Proof. unfold without. pose proof (b64_text d) as H. induction H as [|b s [Hb _] _ IH]; constructor; (lia || done). Qed.
Lemma b64_ascii d : ascii_only (b64_encode d).
Proof. unfold ascii_only. pose proof (b64_text d) as H. induction H as [|b s [Hb _] _ IH]; constructor; (lia || done). Qed.

(** A server of RFC 5802 that knows salt, iteration count and the two keys made from the
    password, and chooses the second half of the nonce. *)
Definition server_first_message (salt : bytes) (iters : Z) (nonce : bytes) : bytes :=
  bs "r=" ++ nonce ++ bs ",s=" ++ b64_encode salt ++ bs ",i=" ++ show_u64 iters.

(** It checks the channel binding, the nonce and the proof, and signs. *)
Definition server_final_message (stored_key server_key cfmb sfm nonce client_final : bytes) : option bytes :=
  match split_on 44 client_final with
  | [c; r; p] =>
      if beq c (bs "c=" ++ b64_encode (bs "n,,")) && beq r (bs "r=" ++ nonce) && starts_with p (bs "p=") then
        match b64_decode_raw (drop 2 p) with
        | Ok proof =>
            let am := cfmb ++ bs "," ++ sfm ++ bs "," ++ c ++ bs "," ++ r in
            if beq (sha256 (xor_bytes proof (hmac_sha256 stored_key am))) stored_key
            then Some (bs "v=" ++ b64_encode (hmac_sha256 server_key am)) else None
        | Err _ => None
        end
      else None
  | _ => None
  end.

Lemma show_without_comma n : without 44 (show_u64 n).
Proof.
  unfold without. induction (show_u64_digits n) as [|b s Hb _ IH]; constructor; [|done]. by intros ->.
Qed.

Lemma server_first_r f x : server_first_part f (114 :: 61 :: x) =
  {| full_nonce := x; salt_b64 := salt_b64 f; iterations := iterations f |}.
Proof. reflexivity. Qed.
Lemma server_first_s f x : server_first_part f (115 :: 61 :: x) =
  {| full_nonce := full_nonce f; salt_b64 := x; iterations := iterations f |}.
Proof. reflexivity. Qed.
Lemma server_first_i f x : server_first_part f (105 :: 61 :: x) =
  {| full_nonce := full_nonce f; salt_b64 := salt_b64 f; iterations := default 4096 (parse_uint 32 x) |}.
Proof. reflexivity. Qed.

Lemma parse_server_first_message salt iters nonce : without 44 nonce -> 0 <= iters < 2 ^ 32 ->
  parse_server_first (server_first_message salt iters nonce) =
  {| full_nonce := nonce; salt_b64 := b64_encode salt; iterations := iters |}.
Proof.
  intros Hn Hi. unfold parse_server_first, server_first_message.
  change (bs ",s=") with (44 :: bs "s="). change (bs ",i=") with (44 :: bs "i="). cbn [app].
  assert (forall x s, without 44 s -> x <> 44 -> without 44 (x :: 61 :: s)) as Hw by (intros; repeat constructor; done).
  change (bs "r=" ++ nonce ++ 44 :: ?s) with (114 :: 61 :: nonce ++ 44 :: s).
  match goal with |- context [split_on 44 ?x] => replace x with ((114 :: 61 :: nonce) ++ 44 ::
    ((115 :: 61 :: b64_encode salt) ++ 44 :: (105 :: 61 :: show_u64 iters))) by done end.
  rewrite !split_on_sep, split_on_none by (apply Hw; [apply Hn || apply b64_comma || apply show_without_comma | done]).
  cbn [foldl]. rewrite server_first_r, server_first_s, server_first_i. cbn [full_nonce salt_b64].
  rewrite (parse_uint_narrow 32 (show_u64 iters) iters); [reflexivity | | lia]. apply parse_show_u64. lia.
Qed.

(** The reference server accepts the client's last message and answers with its signature. *)
Lemma server_accepts_client (password salt : bytes) iters cfmb sfm nonce : without 44 nonce ->
  let salted := pbkdf2_sha256 password salt iters in
  let am := auth_message cfmb sfm nonce in
  server_final_message (stored_key salted) (server_key salted) cfmb sfm nonce (client_final salted am nonce)
  = Some (bs "v=" ++ b64_encode (server_signature salted am)).
Proof.
  intros Hn salted am. unfold server_final_message, client_final, without_proof.
  assert (split_on 44 ((bs "c=" ++ b64_encode (bs "n,,") ++ bs ",r=" ++ nonce) ++ bs ",p=" ++ b64_encode (client_proof salted am))
    = [bs "c=" ++ b64_encode (bs "n,,"); bs "r=" ++ nonce; bs "p=" ++ b64_encode (client_proof salted am)]) as ->.
  { rewrite <- !app_assoc. change (bs ",r=") with (44 :: bs "r="). change (bs ",p=") with (44 :: bs "p="). cbn [app].
    match goal with |- context [split_on 44 ?x] => replace x with ((bs "c=" ++ b64_encode (bs "n,,")) ++ 44 ::
      ((bs "r=" ++ nonce) ++ 44 :: (bs "p=" ++ b64_encode (client_proof salted am)))) by (by rewrite <- !app_assoc) end.
    assert (forall x s, without 44 s -> x <> 44 -> without 44 ([x; 61] ++ s)) as Hw by (intros; repeat constructor; done).
    rewrite !split_on_sep, split_on_none; [done | apply Hw; [apply b64_comma | done]
      | apply Hw; [exact Hn | done] | apply Hw; [apply b64_comma | done]]. }
  unfold beq. rewrite !bool_decide_eq_true_2 by done. rewrite starts_with_app. cbn [andb].
  change (drop 2 (bs "p=" ++ ?x)) with x. rewrite b64_decode_encode by (apply xor_bytes_ok; apply digest_ok).
  assert (cfmb ++ bs "," ++ sfm ++ bs "," ++ (bs "c=" ++ b64_encode (bs "n,,")) ++ bs "," ++ bs "r=" ++ nonce = am) as ->
    by (unfold am, auth_message, without_proof; by rewrite <- !app_assoc).
  unfold client_proof. rewrite xor_bytes_cancel by (unfold client_key; by rewrite !hmac_length).
  by rewrite bool_decide_eq_true_2.
Qed.

Lemma read_sasl_frame method what text rest o : fits (ch "R", to_be 4 method ++ text) -> 0 <= method < 2 ^ 32 ->
  read_sasl method what {| inbox := frame (ch "R", to_be 4 method ++ text) ++ rest; outbox := o |}
  = (Ok text, {| inbox := rest; outbox := o |}).
Proof.
  intros Hf Hm. unfold read_sasl. erewrite se_bind_ok by (by apply read_pg_msg_frame). cbn [fst snd].
  rewrite length_app, to_be_length. change (4 + length text <? 4)%nat with false. change (ch "R" =? ch "R") with true.
  cbn [negb orb]. rewrite take_app_length' by (by rewrite to_be_length). rewrite of_to_be_len by done.
  rewrite Z.eqb_refl. cbn [negb]. by rewrite drop_app_length' by (by rewrite to_be_length).
Qed.

Lemma write_msg_ok t p l :
  write_pg_msg t p l = (Ok tt, {| inbox := inbox l; outbox := outbox l ++ frame (t, p) |}).
Proof. reflexivity. Qed.

Lemma trim_no_nul c s : without c s -> trim_end_matches c s = s.
Proof.
  intros H. unfold trim_end_matches. assert (without c (rev s)) as Hr by (by apply Forall_rev).
  rewrite <- (rev_involutive s) at 2. f_equal. destruct Hr as [|b r Hb _]; [done|]. cbn [strip_front].
  by rewrite (proj2 (Z.eqb_neq b c)).
Qed.

Lemma server_first_ascii salt iters nonce : ascii_only nonce -> ascii_only (server_first_message salt iters nonce).
Proof.
  intros Hn. unfold server_first_message, ascii_only.
  apply Forall_app; split; [text_ok|]. apply Forall_app; split; [exact Hn|].
  apply Forall_app; split; [text_ok|]. apply Forall_app; split; [apply b64_ascii|].
  apply Forall_app; split; [text_ok | apply show_u64_ascii].
Qed.


Lemma bytes_ok_frame m rest : bytes_ok (frame m ++ rest) -> bytes_ok (snd m).
Proof.
  intros H. apply Forall_app in H as [H _]. unfold frame, build_pg_raw in H.
  do 2 apply Forall_app in H as [_ H]. exact H.
Qed.

Lemma read_sasl_inv method what l text l' : bytes_ok (inbox l) -> read_sasl method what l = (Ok text, l') ->
  inbox l = frame (ch "R", to_be 4 method ++ text) ++ inbox l' /\ bytes_ok (inbox l').
Proof.
  intros Hok H. unfold read_sasl in H. apply se_bind_inv in H as [(m & l1 & H1 & H)|(e & ? & ?)]; [|done].
  apply read_pg_msg_inv in H1 as (Hi & Hf & Hok1); [|done]. rewrite Hi in Hok. apply bytes_ok_frame in Hok.
  destruct (negb (fst m =? ch "R") || (length (snd m) <? 4)%nat) eqn:E; [done|].
  apply orb_false_iff in E as [Et El]. apply negb_false_iff, Z.eqb_eq in Et. apply Nat.ltb_ge in El.
  destruct (negb (of_be (take 4 (snd m)) =? method)) eqn:Em; [done|]. apply negb_false_iff, Z.eqb_eq in Em.
  injection H as <- <-. split; [|done]. rewrite Hi. f_equal. destruct m as [t p]. cbn [fst snd] in *. rewrite <- Et.
  assert (to_be 4 method = take 4 p) as ->.
  { rewrite <- Em. assert (length (take 4 p) = 4%nat) as Hl by (rewrite length_take; lia).
    rewrite <- Hl at 1. apply to_of_be. by apply Forall_take. }
  by rewrite take_drop.
Qed.

(** C9: SCRAM-SHA-256 succeeds with no other server: when the proxy goes on, the server has
    named the mechanism among those it offers, has asked for at least 4096 iterations, has
    extended the proxy's own nonce, and has signed the whole exchange with the key that
    belongs to the password. *)
Theorem scram_success_means_verified user password mechanisms nonce_raw l l' :
  bytes_ok (inbox l) -> scram_auth user password mechanisms nonce_raw l = (Ok tt, l') ->
  bs "SCRAM-SHA-256" ∈ split_on 0 (from_utf8_or_empty mechanisms) /\
  exists sfm sfinal salt,
    inbox l = frame (ch "R", to_be 4 AUTH_SASL_CONTINUE ++ sfm) ++ frame (ch "R", to_be 4 AUTH_SASL_FINAL ++ sfinal) ++ inbox l' /\
    let f := parse_server_first sfm in
    4096 <= iterations f /\ starts_with (full_nonce f) (b64_encode nonce_raw) = true /\
    b64_decode_raw (salt_b64 f) = Ok salt /\
    trim_end_matches 0 (from_utf8_or_empty sfinal) =
      bs "v=" ++ b64_encode (server_signature (pbkdf2_sha256 password salt (iterations f))
        (auth_message (client_first_bare user (b64_encode nonce_raw)) sfm (full_nonce f))).
Proof.
  intros Hok H. unfold scram_auth in H. destruct (negb (mem _ _)) eqn:Em; [done|].
  apply negb_false_iff, mem_true in Em. split; [exact Em|].
  erewrite se_bind_ok in H by apply write_msg_ok. apply se_bind_inv in H as [(sfm & l1 & H1 & H)|(e & ? & ?)]; [|done].
  apply read_sasl_inv in H1 as [Hi Hok1]; [|done]. cbn [inbox] in Hi.
  destruct (negb (utf8_valid sfm)); [done|]. cbv zeta in H. destruct (iterations (parse_server_first sfm) <? 4096) eqn:Ei; [done|].
  destruct (starts_with (full_nonce (parse_server_first sfm)) (b64_encode nonce_raw)) eqn:En; [|done]. cbn [negb] in H.
  apply se_bind_inv in H as [(salt & l2 & H2 & H)|(e & ? & ?)]; [|done].
  unfold from_result, b64_decode in H2. destruct (b64_decode_raw _) as [d|d] eqn:Ed; [|done]. injection H2 as <- <-.
  erewrite se_bind_ok in H by apply write_msg_ok. apply se_bind_inv in H as [(sf & l2 & H2 & H)|(e & ? & ?)]; [|done].
  apply read_sasl_inv in H2 as [Hi2 Hok2]; [|done]. cbn [inbox] in Hi2.
  destruct (beq _ _) eqn:Eb in H; [|done]. injection H as <-. apply beq_true in Eb. apply Z.ltb_ge in Ei.
  exists sfm, sf, d. by rewrite Hi, Hi2.
Qed.
End Scram.

(** ** Logging in and being logged in *)

Section Login.
Context `{HS : Hashes} `{ENV : Environment} `{SC : SecretCodec} `{TC : TextCodecs}.
Variable tls_accept : Link -> result bytes Link.
Variable users : list UserConfig.
Variable connection_id : Z.

Definition password_message (password : bytes) : bytes := frame (ch "p", password ++ [0]).
Definition welcome_msgs : list Msg :=
  (ch "R", to_be 4 0) :: map (fun kv => (ch "S", fst kv ++ [0] ++ snd kv ++ [0])) params_to_send
  ++ [(ch "K", backend_key connection_id); (ch "Z", bs "I")].
(** Everything the proxy sends to a client it admits by password. *)
Definition greeting_msgs : list Msg := (ch "R", to_be 4 AUTH_CLEARTEXT) :: welcome_msgs.

Lemma welcome_ok l : welcome connection_id l = (Ok tt, {| inbox := inbox l; outbox := outbox l ++ frames welcome_msgs |}).
Proof.
  unfold welcome, params_to_send. cbn [se_iter]. unfold write_pg_msg, write_all, mbind, se_bind, se_modify, mret, se_ret.
  cbn [inbox outbox]. unfold welcome_msgs, params_to_send. cbn [map app]. unfold frames. cbn [fmap list_fmap concat].
  rewrite <- !app_assoc. reflexivity.
Qed.

(** A start-up message, and the link on which the one of a client is read: its own, or what is
    left of it, or made of it, after a request for encryption. *)
Definition startup_packet (body : bytes) : bytes := to_be 4 (Z.of_nat (length body) + 4) ++ body.
Definition start_up_on (with_tls : bool) (l l0 : Link) : Prop :=
  l0 = l \/
  exists request rest, of_be (take 4 request) = SSL_REQUEST_CODE /\ inbox l = startup_packet request ++ rest /\
    if with_tls then tls_accept {| inbox := rest; outbox := outbox l ++ bs "S" |} = Ok l0
    else l0 = {| inbox := rest; outbox := outbox l ++ bs "N" |}.

Lemma read_exact_outbox n l p l' : read_exact n l = (Ok p, l') -> outbox l' = outbox l.
Proof. unfold read_exact. destruct (_ <=? _)%nat; [by intros [= _ <-] | done]. Qed.
Lemma read_startup_inv l body l' : bytes_ok (inbox l) -> read_startup_bytes l = (Ok body, l') ->
  inbox l = startup_packet body ++ inbox l' /\ outbox l' = outbox l /\ bytes_ok (inbox l').
Proof.
  intros Hok H. unfold read_startup_bytes in H. apply se_bind_inv in H as [(len & l1 & H1 & H)|(e & ? & ?)]; [|done].
  pose proof (read_exact_outbox _ _ _ _ H1) as Ho1.
  apply read_exact_inv in H1 as [Hi Hl]. rewrite Hi in Hok. apply Forall_app in Hok as [Hlen Hok].
  destruct (of_be len <? 4) eqn:E; [done|]. apply Z.ltb_ge in E.
  pose proof (read_exact_outbox _ _ _ _ H) as Ho2.
  apply read_exact_inv in H as [Hi2 Hp]. split; [|split; [congruence | rewrite Hi2 in Hok; by apply Forall_app in Hok as [_ Hok]]].
  unfold startup_packet. rewrite Hi, Hi2, <- app_assoc. f_equal.
  replace (Z.of_nat (length body) + 4) with (of_be len) by lia. rewrite <- Hl. symmetry. by apply to_of_be.
Qed.
Lemma check_password_inv username l aw l' : bytes_ok (inbox l) -> check_password users username l = (Ok aw, l') ->
  users = [] /\ aw = true /\ inbox l = inbox l' \/
  exists u m, find_user users username = Some u /\ aw = uc_allow_writes u /\
    inbox l = frame (ch "p", m) ++ inbox l' /\ utf8_lossy (strip_nul m) = resolved_password u.
Proof.
  intros Hok Hc. unfold check_password in Hc. destruct users as [|u0 us] eqn:Eu; [left; by injection Hc as <- <-|]. right.
  destruct (find_user (u0 :: us) _) as [u|] eqn:Ef; [|by apply se_bind_inv in Hc as [(? & ? & ? & ?)|(? & ? & ?)]].
  erewrite se_bind_ok in Hc by apply write_msg_ok. apply se_bind_inv in Hc as [(m & l3 & Hm & Hc)|(e & ? & ?)]; [|done].
  destruct (fst m =? ch "p") eqn:Et; [|done]. cbn [negb] in Hc. destruct (beq _ _) eqn:Eb in Hc; [|done]. injection Hc as <- <-.
  apply Z.eqb_eq in Et. apply beq_true in Eb. apply read_pg_msg_inv in Hm as (Hi & _ & _); [|done].
  exists u, (snd m). split_and!; [done..| | done]. rewrite <- Et. cbn [inbox] in Hi. by destruct m.
Qed.

(** C19: A session belongs to a configured user, the one named in the start-up message, whose
    password the client has sent as its next message and the last one read from it, or there
    are no users at all; and it has that user's write permission. *)
Theorem pg_session_only_if_authenticated with_tls l s l' :
  bytes_ok (inbox l) -> (forall l1 l2, tls_accept l1 = Ok l2 -> bytes_ok (inbox l2)) ->
  accept_client tls_accept users connection_id with_tls l = (Ok s, l') ->
  pgs_in_transaction s = false /\
  exists l0 body, start_up_on with_tls l l0 /\
    pgs_username s = default (bs "postgres") (parse_startup_params body !! bs "user") /\
    (users = [] /\ pgs_allow_writes s = true /\ inbox l0 = startup_packet body ++ inbox l' \/
     exists u m, find_user users (pgs_username s) = Some u /\ pgs_allow_writes s = uc_allow_writes u /\
       inbox l0 = startup_packet body ++ frame (ch "p", m) ++ inbox l' /\
       utf8_lossy (strip_nul m) = resolved_password u).
Proof.
  intros Hok Htls H.
  assert (exists l0 body l1, start_up_on with_tls l l0 /\ inbox l0 = startup_packet body ++ inbox l1 /\ bytes_ok (inbox l1) /\
    accept_startup users connection_id body l1 = (Ok s, l')) as (l0 & body & l1 & Hon & Hi & Hok1 & Hs).
  { unfold accept_client in H. apply se_bind_inv in H as [(st & l1 & H1 & H)|(e & ? & ?)]; [|done].
    apply read_startup_inv in H1 as (Hi & Ho & Hok1); [|done].
    destruct (_ <? _)%nat; [done|]. cbv zeta in H. destruct (_ =? SSL_REQUEST_CODE) eqn:Er.
    - apply Z.eqb_eq in Er. apply se_bind_inv in H as [(x & l2 & H2 & H)|(e & ? & ?)]; [|done].
      apply se_bind_inv in H as [(st2 & l3 & H3 & H)|(e & ? & ?)]; [|done].
      assert (start_up_on with_tls l l2 /\ bytes_ok (inbox l2)) as [Hon Hok2].
      { destruct with_tls.
        - erewrite se_bind_ok in H2 by reflexivity. unfold tls_upgrade in H2. rewrite Ho in H2.
          destruct (tls_accept _) as [l4|e] eqn:Et; [|done]. injection H2 as _ <-. split; [|by eapply Htls].
          right. by exists st, (inbox l1).
        - injection H2 as _ <-. rewrite Ho. split; [right; by exists st, (inbox l1) | done]. }
      apply read_startup_inv in H3 as (Hi3 & _ & Hok3); [|done]. by exists l2, st2, l3.
    - destruct (_ =? CANCEL_CODE); [done|]. exists l, st, l1. by split; [left|]. }
  clear H. unfold accept_startup in Hs. cbv zeta in Hs.
  apply se_bind_inv in Hs as [(aw & l2 & Hc & H)|(e & ? & ?)]; [|done].
  apply se_bind_inv in H as [([] & l3 & Hw & H)|(e & ? & ?)]; [|done]. injection H as <- <-.
  cbn [pgs_in_transaction pgs_allow_writes pgs_username]. split; [done|]. exists l0, body. split_and!; [done..|].
  rewrite Hi. replace (inbox l3) with (inbox l2) by (rewrite welcome_ok in Hw; by injection Hw as <-).
  apply check_password_inv in Hc as [(? & ? & Hc)|(u & m & Hf & Ha & Hc & Hm)]; [| |done].
  - left. by rewrite Hc.
  - right. exists u, m. by rewrite Hc.
Qed.

Lemma parse_startup_body user database : cstr user -> cstr database ->
  parse_startup_params (startup_body user database) =
  <[bs "application_name" := bs "turbineproxy"]> (<[bs "database" := database]> (<[bs "user" := user]> ∅)).
Proof.
  intros [Hu Hu8] [Hd Hd8]. unfold parse_startup_params, startup_body.
  rewrite !length_app, to_be_length. cbn [Nat.add Nat.leb]. rewrite drop_app_length' by (by rewrite to_be_length).
  cbn [app]. rewrite !split_on_sep by (done || by repeat constructor). cbn [split_on].
  cbn [fmap list_fmap]. rewrite !(utf8_lossy_valid user), !(utf8_lossy_valid database) by done. reflexivity.
Qed.

Lemma startup_lookups user database : cstr user -> cstr database ->
  let params := parse_startup_params (startup_body user database) in
  params !! bs "user" = Some user /\ params !! bs "database" = Some database /\
  params !! bs "application_name" = Some (bs "turbineproxy").
Proof.
  intros Hu Hd. cbv zeta. rewrite parse_startup_body by done. split_and!.
  - rewrite !lookup_insert_ne by done. apply lookup_insert_eq.
  - rewrite lookup_insert_ne by done. apply lookup_insert_eq.
  - apply lookup_insert_eq.
Qed.

Lemma read_startup_message user database rest o : Z.of_nat (length (startup_body user database)) + 4 < 2 ^ 32 ->
  read_startup_bytes {| inbox := startup_message user database ++ rest; outbox := o |} =
  (Ok (startup_body user database), {| inbox := rest; outbox := o |}).
Proof.
  intros H. unfold read_startup_bytes, startup_message. rewrite <- app_assoc.
  erewrite se_bind_ok by (apply pg_read_exact_app; by rewrite to_be_length).
  unfold u32. rewrite wrap_small by (unfold in_width; lia). rewrite of_to_be_len by lia.
  rewrite (proj2 (Z.ltb_ge _ _)) by lia. apply pg_read_exact_app. lia.
Qed.

Lemma strip_nul_app p : strip_nul (p ++ [0]) = p.
Proof. unfold strip_nul. rewrite rev_app_distr. cbn [rev app]. apply rev_involutive. Qed.

(** The answer of the backend side to each of the server's messages. *)
Lemma auth_loop_request fuel user password nonce_raw pid rest o : fits (ch "p", password ++ [0]) ->
  auth_loop (S fuel) user password nonce_raw pid {| inbox := frame (ch "R", to_be 4 AUTH_CLEARTEXT) ++ rest; outbox := o |}
  = auth_loop fuel user password nonce_raw pid {| inbox := rest; outbox := o ++ password_message password |}.
Proof. intros H. cbn [auth_loop]. by erewrite se_bind_ok by (apply read_pg_msg_frame; unfold fits; cbn; lia). Qed.
Lemma auth_loop_granted fuel user password nonce_raw pid rest o :
  auth_loop (S fuel) user password nonce_raw pid {| inbox := frame (ch "R", to_be 4 AUTH_OK) ++ rest; outbox := o |}
  = auth_loop fuel user password nonce_raw pid {| inbox := rest; outbox := o |}.
Proof. cbn [auth_loop]. by erewrite se_bind_ok by (apply read_pg_msg_frame; unfold fits; cbn; lia). Qed.
Lemma auth_loop_key fuel user password nonce_raw pid id secret rest o : 0 <= id < 2 ^ 32 ->
  auth_loop (S fuel) user password nonce_raw pid {| inbox := frame (ch "K", to_be 4 id ++ to_be 4 secret) ++ rest; outbox := o |}
  = auth_loop fuel user password nonce_raw id {| inbox := rest; outbox := o |}.
Proof.
  intros Hid. cbn [auth_loop].
  erewrite se_bind_ok by (apply read_pg_msg_frame; unfold fits; cbn [snd]; rewrite length_app, !to_be_length; lia).
  cbv beta iota. change (ch "K" =? ch "R") with false. change (ch "K" =? ch "K") with true. rewrite length_app, !to_be_length.
  change (4 <=? 4 + 4)%nat with true. cbn [andb]. cbv iota. by rewrite take_app_length', of_to_be_len by (done || by rewrite to_be_length).
Qed.
Lemma auth_loop_ready fuel user password nonce_raw pid status rest o : fits (ch "Z", status) ->
  auth_loop (S fuel) user password nonce_raw pid {| inbox := frame (ch "Z", status) ++ rest; outbox := o |}
  = (Ok pid, {| inbox := rest; outbox := o |}).
Proof. intros H. cbn [auth_loop]. by erewrite se_bind_ok by (by apply read_pg_msg_frame). Qed.
Lemma auth_loop_status fuel user password nonce_raw pid p rest o : fits (ch "S", p) ->
  auth_loop (S fuel) user password nonce_raw pid {| inbox := frame (ch "S", p) ++ rest; outbox := o |}
  = auth_loop fuel user password nonce_raw pid {| inbox := rest; outbox := o |}.
Proof. intros H. cbn [auth_loop]. by erewrite se_bind_ok by (by apply read_pg_msg_frame). Qed.
Lemma auth_loop_statuses ps : forall fuel user password nonce_raw pid rest o, Forall (fun p => fits (ch "S", p)) ps ->
  auth_loop (length ps + fuel) user password nonce_raw pid {| inbox := frames (map (pair (ch "S")) ps) ++ rest; outbox := o |}
  = auth_loop fuel user password nonce_raw pid {| inbox := rest; outbox := o |}.
Proof.
  induction ps as [|p ps IH]; intros fuel user password nonce_raw pid rest o H; [done|]. apply Forall_cons_iff in H as [Hp H].
  cbn [map length Nat.add]. rewrite frames_cons, <- app_assoc. by rewrite auth_loop_status, IH.
Qed.

(** Both ends of the proxy fit together: what its backend side sends to log in, its client
    side accepts as the session of that user, database and application; and what its client
    side answers, its backend side takes as a completed login with that backend id. *)
Theorem pg_proxy_login_accepted user u database with_tls nonce_raw rest rest' :
  find_user users user = Some u -> cstr user -> cstr database -> utf8_valid (resolved_password u) = true ->
  Z.of_nat (length (startup_body user database)) + 4 < 2 ^ 32 -> fits (ch "p", resolved_password u ++ [0]) ->
  0 <= connection_id < 2 ^ 32 ->
  let login := startup_message user database ++ password_message (resolved_password u) in
  let greeting := frames greeting_msgs in
  accept_client tls_accept users connection_id with_tls {| inbox := login ++ rest; outbox := [] |} =
    (Ok {| pgs_in_transaction := false; pgs_username := user; pgs_database := database;
           pgs_allow_writes := uc_allow_writes u; pgs_app_name := bs "turbineproxy" |},
     {| inbox := rest; outbox := greeting |}) /\
  pg_backend_auth user (resolved_password u) database nonce_raw {| inbox := greeting ++ rest'; outbox := [] |} =
    (Ok connection_id, {| inbox := rest'; outbox := login |}).
Proof.
  intros Hfind Hu Hd Hpw Hlen Hfit Hcid login greeting. split.
  - unfold accept_client, login. rewrite <- app_assoc. erewrite se_bind_ok by (by apply read_startup_message).
    assert (of_be (take 4 (startup_body user database)) = PROTOCOL_V3) as ->
      by (unfold startup_body; rewrite take_app_length' by (by rewrite to_be_length); reflexivity).
    assert ((length (startup_body user database) <? 4)%nat = false) as ->
      by (unfold startup_body; rewrite length_app, to_be_length; reflexivity).
    change (PROTOCOL_V3 =? SSL_REQUEST_CODE) with false. change (PROTOCOL_V3 =? CANCEL_CODE) with false. cbv iota zeta.
    unfold accept_startup. cbv zeta. destruct (startup_lookups user database Hu Hd) as (-> & -> & ->). cbn [from_option id].
    unfold check_password. rewrite Hfind. destruct users as [|u0 us]; [done|].
    erewrite (se_bind_ok _ _ _ (uc_allow_writes u)).
    2:{ erewrite se_bind_ok by apply write_msg_ok. cbn [inbox outbox app].
        erewrite se_bind_ok by (by apply read_pg_msg_frame). cbn [fst snd]. change (ch "p" =? ch "p") with true. cbn [negb].
        rewrite strip_nul_app, utf8_lossy_valid, beq_refl by done. reflexivity. }
    erewrite se_bind_ok by apply welcome_ok. reflexivity.
  - unfold pg_backend_auth. erewrite se_bind_ok by reflexivity. cbn [inbox outbox app].
    match goal with |- context [mbind _ se_get ?s] => rewrite (se_bind_ok se_get _ s s s) by done end. cbn [inbox].
    assert (exists n, length (greeting ++ rest') = (11 + n)%nat) as [n ->].
    { exists (length (greeting ++ rest') - 11)%nat. rewrite length_app. pose proof (frames_count greeting_msgs) as Hc.
      change (length greeting_msgs) with 11%nat in Hc. unfold greeting. lia. }
    unfold greeting, greeting_msgs, welcome_msgs. rewrite frames_cons, <- app_assoc. change (S (11 + n)) with (S (S (7 + S (S (S n))))).
    rewrite auth_loop_request by done. rewrite frames_cons, <- app_assoc, auth_loop_granted, frames_app, <- app_assoc.
    set (ps := map (fun kv => fst kv ++ [0] ++ snd kv ++ [0]) params_to_send).
    change (map (fun kv => (ch "S", fst kv ++ [0] ++ snd kv ++ [0])) params_to_send) with (map (pair (ch "S")) ps).
    change 7%nat with (length ps). rewrite auth_loop_statuses by (repeat (constructor; [unfold fits; cbn; lia|]); constructor).
    rewrite frames_cons, <- app_assoc. unfold backend_key. rewrite auth_loop_key by done.
    rewrite frames_cons, <- app_assoc, auth_loop_ready by (unfold fits; cbn; lia). reflexivity.
Qed.
End Login.

(** ** TLS and initial statements of a backend connection *)

Section Connecting.
Context `{HS : Hashes} `{ENV : Environment} `{SC : SecretCodec} `{TC : TextCodecs}.
Variable tls_connect : Link -> result bytes Link.

(** When the backend declines TLS, the verifying modes give up and have sent nothing but
    the request; the mode that only requires encryption goes on in plain text, exactly as
    with TLS switched off. *)
Theorem declined_tls_required_goes_plain addr mode_text user password database inits nonce_raw b rest o :
  b <> ch "S" ->
  let declined := {| inbox := b :: rest; outbox := o |} in
  let after := {| inbox := rest; outbox := o ++ ssl_request |} in
  let connect := fun mode => connect_backend tls_connect mode addr mode_text user password database inits nonce_raw in
  connect TlsRequired declined = connect TlsOff after /\
  forall mode, mode = TlsVerifyCa \/ mode = TlsVerifyIdentity ->
    exists msg, connect mode declined = (Err (ConnectError (AuthFailed msg)), after).
Proof.
  intros Hb declined after connect.
  assert (forall mode, mode <> TlsOff -> b <> ch "S" ->
    negotiate_tls tls_connect mode addr mode_text declined =
    (match mode with TlsVerifyCa | TlsVerifyIdentity =>
       se_fail (AuthFailed (bs "Backend " ++ addr ++ bs " declined TLS but tls_mode=" ++ mode_text ++ bs " requires it"))
     | _ => mret tt end) after) as Hneg.
  { intros mode Hmode _. unfold negotiate_tls. destruct mode; [done|..]; erewrite se_bind_ok by reflexivity;
      (erewrite se_bind_ok; [|apply (pg_read_exact_app 1 [b]); reflexivity]); unfold at_; cbn [lookup list_lookup default from_option id];
      by rewrite (proj2 (Z.eqb_neq b (ch "S"))). }
  split.
  - unfold connect, connect_backend. erewrite (se_bind_ok (negotiate_tls _ TlsRequired _ _)) by (by rewrite Hneg).
    by erewrite (se_bind_ok (negotiate_tls _ TlsOff _ _)) by reflexivity.
  - intros mode Hm. eexists. unfold connect, connect_backend.
    erewrite se_bind_err; [reflexivity|]. rewrite Hneg; [|by destruct Hm; subst | done]. by destruct Hm as [-> | ->].
Qed.

(** A connection with initial statements is never given out soundly: once the login has
    succeeded, its stream has been freed with the temporary connection. *)
Theorem init_connect_frees_stream mode addr mode_text user password database sql inits nonce_raw l pid l' :
  (negotiate_tls tls_connect mode addr mode_text ;;
   pg_backend_auth user password (default (bs "postgres") database) nonce_raw) l = (Ok pid, l') ->
  connect_backend tls_connect mode addr mode_text user password database (sql :: inits) nonce_raw l = (Err Undefined, l').
Proof. intros H. unfold connect_backend. by rewrite H. Qed.
End Connecting.

(** ** Concrete exchanges *)

(** A toy hash, and base16 in the place of base64. *)
Definition unhex_char (c : Z) : Z := if c <? 58 then c - 48 else c - 87.
Fixpoint unhex (s : bytes) : result bytes bytes :=
  match s with
  | [] => Ok []
  | h :: l :: s => match unhex s with Ok d => Ok (16 * unhex_char h + unhex_char l :: d) | Err e => Err e end
  | _ => Err (bs "odd length")
  end.
Definition to_hex (d : bytes) : bytes := concat (map (fun b => [hex_char (b / 16 mod 16); hex_char (b mod 16)]) d).
Definition toy_sum (m : bytes) : Z := (Z.of_nat (length m) + 3 * default 0 (head m) + 5 * default 0 (list.last m)) mod 251.
Definition toy_digest (m : bytes) : bytes := repeat (toy_sum m) 32.
Definition toy_hashes : Hashes := {| sha1 := toy_digest; sha256 := toy_digest |}.
Definition toy_codecs : TextCodecs := {| md5 := toy_digest; b64_encode := to_hex; b64_decode_raw := unhex |}.

Lemma hex_char_range n : 0 <= n < 16 -> 48 <= hex_char n < 128.
Proof. unfold hex_char. destruct (Z.ltb_spec n 10); lia. Qed.
Lemma unhex_hex_char n : 0 <= n < 16 -> unhex_char (hex_char n) = n.
Proof. intros H. unfold hex_char, unhex_char. destruct (Z.ltb_spec n 10); [rewrite (proj2 (Z.ltb_lt _ _)) by lia | rewrite (proj2 (Z.ltb_ge _ _)) by lia]; lia. Qed.

Lemma toy_sum_range m : 0 <= toy_sum m < 251.
Proof. by apply Z.mod_pos_bound. Qed.

Lemma to_hex_cons b d : to_hex (b :: d) = hex_char (b / 16 mod 16) :: hex_char (b mod 16) :: to_hex d.
Proof. reflexivity. Qed.
Lemma to_hex_length d : length (to_hex d) = (2 * length d)%nat.
Proof. induction d as [|b d IH]; [done|]. rewrite to_hex_cons. cbn [length]. lia. Qed.
Lemma unhex_to_hex d : bytes_ok d -> unhex (to_hex d) = Ok d.
Proof.
  induction 1 as [|b d Hb _ IH]; [done|]. unfold byte in Hb. rewrite to_hex_cons. cbn [unhex]. rewrite IH.
  assert (0 <= b / 16 < 16) by (split; [apply Z.div_pos; lia | apply Z.div_lt_upper_bound; lia]).
  pose proof (Z.mod_pos_bound b 16 ltac:(lia)). rewrite (Z.mod_small (b / 16)) by done. rewrite !unhex_hex_char by done. do 2 f_equal.
  pose proof (Z.div_mod b 16 ltac:(lia)). lia.
Qed.

#[export] Instance toy_laws : ScramLaws toy_hashes toy_codecs.
Proof.
  constructor.
  - intros m. apply repeat_length.
  - intros m. change (bytes_ok (toy_digest m)). unfold toy_digest, bytes_ok. pose proof (toy_sum_range m). generalize 32%nat. intros n.
    induction n as [|n IH]; [constructor|]. cbn [repeat]. constructor; [unfold byte; lia | done].
  - apply unhex_to_hex.
  - intros d. change (Forall (fun b => 0 < b < 128 /\ b <> 44) (to_hex d)). induction d as [|b d IH]; [constructor|]. rewrite to_hex_cons.
    pose proof (hex_char_range (b / 16 mod 16) ltac:(by apply Z.mod_pos_bound)).
    pose proof (hex_char_range (b mod 16) ltac:(by apply Z.mod_pos_bound)). repeat (constructor; [lia|]). exact IH.
Qed.

Section Demo.
Existing Instances toy_hashes toy_codecs plain_env toy_codec.

Definition demo_nonce : bytes := repeat 171 18.
Definition demo_server_nonce : bytes := bs "server".
Definition demo_sfm : bytes := server_first_message (bs "salt") 4096 (b64_encode demo_nonce ++ demo_server_nonce).
Definition demo_salted : bytes := pbkdf2_sha256 (bs "pencil") (bs "salt") 4096.
Definition demo_cfmb : bytes := client_first_bare (bs "app") (b64_encode demo_nonce).
Definition demo_auth_message : bytes := auth_message demo_cfmb demo_sfm (b64_encode demo_nonce ++ demo_server_nonce).
Definition demo_sfinal : bytes := bs "v=" ++ b64_encode (server_signature demo_salted demo_auth_message).
Definition demo_scram_input (tail : bytes) : bytes :=
  frame (ch "R", to_be 4 AUTH_SASL_CONTINUE ++ demo_sfm) ++ frame (ch "R", to_be 4 AUTH_SASL_FINAL ++ demo_sfinal) ++ tail.

Lemma demo_sfinal_fits : fits (ch "R", to_be 4 AUTH_SASL_FINAL ++ demo_sfinal).
Proof.
  unfold fits, demo_sfinal. cbn [snd]. rewrite !length_app, to_be_length. change (b64_encode ?x) with (to_hex x).
  unfold server_signature. rewrite to_hex_length, hmac_length. reflexivity.
Qed.

Lemma some_det {A} {x : option A} {a b} : x = Some a -> x = Some b -> b = a.
Proof. intros ->. by intros [= ->]. Qed.


(** The same server with another signature is refused. *)
Example scram_impostor_refused :
  fst (scram_auth (bs "app") (bs "pencil") (bs "SCRAM-SHA-256" ++ [0; 0]) demo_nonce
    {| inbox := frame (ch "R", to_be 4 AUTH_SASL_CONTINUE ++ demo_sfm)
                ++ frame (ch "R", to_be 4 AUTH_SASL_FINAL ++ bs "v=00"); outbox := [] |})
  = Err (AuthFailed (bs "SCRAM server signature mismatch")).
Proof. by vm_compute. Qed.

(** A server that asks for one iteration less than the minimum is refused. *)
Example scram_weak_server_refused :
  is_err (fst (scram_auth (bs "app") (bs "pencil") (bs "SCRAM-SHA-256" ++ [0; 0]) demo_nonce
    {| inbox := frame (ch "R", to_be 4 AUTH_SASL_CONTINUE ++
         server_first_message (bs "salt") 4095 (b64_encode demo_nonce ++ demo_server_nonce)); outbox := [] |})) = true.
Proof. by vm_compute. Qed.

Lemma frame_bytes_ok t p : byte t -> bytes_ok p -> bytes_ok (frame (t, p)).
Proof.
  intros Ht Hp. unfold frame, build_pg_raw. apply Forall_app; split; [constructor; [exact Ht | constructor]|].
  apply Forall_app; split; [apply Forall_rev; apply to_le_ok | exact Hp].
Qed.
Lemma ascii_bytes_ok s : ascii_only s -> bytes_ok s.
Proof. unfold ascii_only, bytes_ok, byte. induction 1 as [|b s Hb _ IH]; constructor; (lia || done). Qed.

Lemma scram_success_means_verified_witness :
  bs "SCRAM-SHA-256" ∈ split_on 0 (bs "SCRAM-SHA-256") /\
  exists sfm sfinal, demo_scram_input [] = frame (ch "R", to_be 4 AUTH_SASL_CONTINUE ++ sfm)
    ++ frame (ch "R", to_be 4 AUTH_SASL_FINAL ++ sfinal) ++ [] /\ 4096 <= iterations (parse_server_first sfm).
Proof.
  assert (bytes_ok (demo_scram_input [])) as Hok.
  { unfold demo_scram_input. apply Forall_app; split; [|apply Forall_app; split; [|constructor]]; apply frame_bytes_ok; try done;
      (apply Forall_app; split; [apply Forall_rev; apply to_le_ok | apply ascii_bytes_ok]).
    - apply server_first_ascii. apply Forall_app; split; [apply b64_ascii | text_ok].
    - apply Forall_app; split; [text_ok | apply b64_ascii]. }
  set (run := scram_auth (bs "app") (bs "pencil") (bs "SCRAM-SHA-256") demo_nonce {| inbox := demo_scram_input []; outbox := [] |}).
  assert (fst run = Ok tt /\ inbox (snd run) = []) as [Hr Hl] by (by vm_compute).
  destruct run as [r l'] eqn:E. cbn [fst snd] in Hr, Hl. subst r. unfold run in E.
  destruct (scram_success_means_verified _ _ _ _ {| inbox := demo_scram_input []; outbox := [] |} _ Hok E) as (Hm & sfm & sf & salt & Hi & Hit & _).
  rewrite Hl in Hi. split; [exact Hm|]. exists sfm, sf. by split.
Defined.

Definition demo_user : UserConfig :=
  {| name := bs "app"; uc_password := bs "pw"; uc_allow_writes := false; uc_max_connections := 0;
     default_schema := []; transaction_isolation := [] |}.

Lemma pg_proxy_login_accepted_witness :
  fst (accept_client (fun _ => Err []) [demo_user] 7 false
    {| inbox := (startup_message (bs "app") (bs "shop") ++ password_message (bs "pw")) ++ []; outbox := [] |}) =
    Ok {| pgs_in_transaction := false; pgs_username := bs "app"; pgs_database := bs "shop";
          pgs_allow_writes := false; pgs_app_name := bs "turbineproxy" |} /\
  fst (pg_backend_auth (bs "app") (bs "pw") (bs "shop") [] {| inbox := frames (greeting_msgs 7) ++ []; outbox := [] |}) = Ok 7.
Proof.
  destruct (pg_proxy_login_accepted (fun _ => Err []) [demo_user] 7 (bs "app") demo_user (bs "shop") false [] [] []
    eq_refl ltac:(by apply cstrb_ok) ltac:(by apply cstrb_ok) eq_refl ltac:(by vm_compute) ltac:(by vm_compute) ltac:(lia)) as [H1 H2].
  split; [exact (f_equal fst H1) | exact (f_equal fst H2)].
Defined.

(** A wrong password: no session. *)
Example pg_wrong_password_refused :
  fst (accept_client (fun _ => Err []) [demo_user] 7 false
    {| inbox := startup_message (bs "app") (bs "shop") ++ password_message (bs "guess"); outbox := [] |}) =
  Err (AuthFailed (bs "password mismatch")).
Proof. by vm_compute. Qed.

Lemma pg_session_only_if_authenticated_witness :
  exists u, find_user [demo_user] (bs "app") = Some u /\ uc_allow_writes u = false.
Proof.
  destruct (accept_client (fun _ => Err []) [demo_user] 7 false
    {| inbox := startup_message (bs "app") (bs "shop") ++ password_message (bs "pw"); outbox := [] |}) as [[s|e] l] eqn:E;
    [|by vm_compute in E].
  assert (bytes_ok (startup_message (bs "app") (bs "shop") ++ password_message (bs "pw"))) as Hok by text_ok.
  assert (forall l1 l2 : Link, Err [] = Ok (E := bytes) l2 -> bytes_ok (inbox l2)) as Ht by done.
  destruct (pg_session_only_if_authenticated (fun _ => Err []) [demo_user] 7 false
    {| inbox := startup_message (bs "app") (bs "shop") ++ password_message (bs "pw"); outbox := [] |} s l Hok
    (fun l1 => Ht l1) E) as [_ (l0 & body & _ & _ & [[? _]|(u & m & Hu & Hw & _)])]; [done|].
  exists u. assert (pgs_username s = bs "app" /\ pgs_allow_writes s = false) as [Hn Ha] by (vm_compute in E; by injection E as <- _).
  rewrite Hn in Hu. by rewrite <- Hw.
Defined.

(** The backend declines: the login goes out in the clear all the same. *)
Lemma declined_tls_required_goes_plain_witness :
  outbox (snd (connect_backend (fun _ => Err []) TlsRequired (bs "db:5432") (bs "Required") (bs "app") (bs "pw") None [] []
    {| inbox := ch "N" :: frames (greeting_msgs 7); outbox := [] |}))
  = ssl_request ++ startup_message (bs "app") (bs "postgres") ++ password_message (bs "pw").
Proof.
  destruct (declined_tls_required_goes_plain (fun _ => Err []) (bs "db:5432") (bs "Required") (bs "app") (bs "pw") None [] [] (ch "N")
    (frames (greeting_msgs 7)) [] ltac:(done)) as [H _].
  cbv zeta in H. rewrite H. by vm_compute.
Defined.

Lemma init_connect_frees_stream_witness :
  fst (connect_backend (fun _ => Err []) TlsOff (bs "db:5432") (bs "Off") (bs "app") (bs "pw") None [bs "SET x = 1"] []
    {| inbox := frames (greeting_msgs 7); outbox := [] |}) = Err Undefined.
Proof.
  destruct ((negotiate_tls (fun _ => Err []) TlsOff (bs "db:5432") (bs "Off") ;;
    pg_backend_auth (bs "app") (bs "pw") (default (bs "postgres") None) []) {| inbox := frames (greeting_msgs 7); outbox := [] |})
    as [[pid|e] l'] eqn:E; [|by vm_compute in E].
  by rewrite (init_connect_frees_stream _ _ _ _ _ _ _ _ _ _ _ _ _ E).
Defined.
End Demo.
