(* ===== verification/PgServer.v ===== *)
(** * A PostgreSQL session (src/src/proxy/pg_server.rs, handle_pg_connection)

    The commands of one authenticated client, over the state of the session, the connections
    it holds, the router and the world.  The client is a list of commands and the bytes
    written to it; the k-th write or flush succeeds when [client_ok k] says so. *)

From S2P Require Import Prelude Bytes Config PgWire.
From S2P Require Import Classifier Fingerprint QueryCache Rules Rewriter StmtShadow.
From S2P Require Import MysqlCodec MysqlResponse Auth Handshake TextRows CircuitBreaker Pool ProxyProtocol.
From S2P Require Import Router UserRegistry Tracer Session QueryStats.

(** ** Meta-commands of psql *)

Definition META_TABLES : bytes :=
  bs "SELECT schemaname, tablename AS name, 'table' AS type FROM pg_tables WHERE schemaname NOT IN ('pg_catalog','information_schema') ORDER BY schemaname, tablename".
Definition META_DATABASES : bytes :=
  bs "SELECT datname AS database, pg_catalog.pg_get_userbyid(datdba) AS owner, pg_encoding_to_char(encoding) AS encoding FROM pg_database ORDER BY datname".
Definition META_INDEXES : bytes :=
  bs "SELECT indexname, tablename, indexdef FROM pg_indexes WHERE schemaname NOT IN ('pg_catalog','information_schema') ORDER BY tablename, indexname".
Definition META_SCHEMAS : bytes :=
  bs "SELECT nspname AS schema, pg_catalog.pg_get_userbyid(nspowner) AS owner FROM pg_namespace WHERE nspname NOT LIKE 'pg_%' AND nspname != 'information_schema' ORDER BY nspname".
Definition META_ROLES : bytes :=
  bs "SELECT rolname AS role, rolsuper, rolcreatedb, rolcreaterole, rolcanlogin FROM pg_roles ORDER BY rolname".
Definition META_RELATIONS : bytes :=
  bs "SELECT table_schema, table_name, table_type FROM information_schema.tables WHERE table_schema NOT IN ('pg_catalog','information_schema') ORDER BY table_schema, table_name".

Definition translate_meta_command (cmd : bytes) : option bytes :=
  let parts := split_on 32 cmd in
  let first := default [] (head parts) in
  if mem first [bs "\dt"; bs "\dv"] then Some META_TABLES
  else if mem first [bs "\l"; bs "\list"] then Some META_DATABASES
  else if beq first (bs "\di") then Some META_INDEXES
  else if beq first (bs "\dn") then Some META_SCHEMAS
  else if mem first [bs "\du"; bs "\dg"] then Some META_ROLES
  else if beq first (bs "\d") then
    match parts !! 1%nat with
    | Some (_ :: _) => None
    | _ => Some META_RELATIONS
    end
  else None.

(** ** The state of a session *)

Inductive PgReply := Written (b : bytes) | PgFlushed.

(** What is reported and never read again by the session. *)
Inductive PgEvent :=
| PgAudited (user ip sql destination : bytes) (duration : Z) (error : bool)
| PgError (message fp ip user : bytes) (duration : Z)
| PgRecorded (sql : bytes) (duration : Z) (read : bool)
| Measured (duration : Z)
| HotKey (fp example : bytes) (count : Z).

(** The stores every session shares. *)
Record PgShared := {
  metrics : Metric -> Z;
  tracer : TracerStore;
  n1_store : N1Store;
  copy_active : Z;
  events : list PgEvent
}.

Section PgServer.
Context {W C : Type} `{IO : !BackendIO W C} `{CT : CaseTable} `{RE : RegexEngine}
  `{MO : !MapOrder bytes CacheEntry} `{MO1 : !MapOrder bytes bytes} `{MO2 : !MapOrder Z (Z * bytes)}.
Variable default_hash : bytes -> Z.

Record PgServerConfig := {
  conn_id : Z;
  client_ip : bytes;                     (* the address with its port *)
  read_your_own_writes_ms : Z;
  slow_query_log_ms : Z;
  sqli_detector : option InjectionDetector;
  query_whitelist : QueryWhitelist;
  users_config : list UserConfig;
  warn_log : bool;
  debug_log : bool;
  client_ok : nat -> bool
}.

Record PgState := {
  env : Env (W := W) (C := C);
  client : PgClientSession;
  pg_shadow : Pg.PgStmtShadow;
  query_tracker : SessionQueryTracker;
  active_trace : option ActiveTrace;
  warned_failover_write : bool;
  ryow_until : option Z;
  shared : PgShared;
  replies : list PgReply
}.

Definition with_env (e : Env) (s : PgState) : PgState :=
  {| env := e; client := client s; pg_shadow := pg_shadow s; query_tracker := query_tracker s;
     active_trace := active_trace s; warned_failover_write := warned_failover_write s;
     ryow_until := ryow_until s; shared := shared s; replies := replies s |}.
Definition with_client (c : PgClientSession) (s : PgState) : PgState :=
  {| env := env s; client := c; pg_shadow := pg_shadow s; query_tracker := query_tracker s;
     active_trace := active_trace s; warned_failover_write := warned_failover_write s;
     ryow_until := ryow_until s; shared := shared s; replies := replies s |}.
Definition with_shadow (m : Pg.PgStmtShadow) (s : PgState) : PgState :=
  {| env := env s; client := client s; pg_shadow := m; query_tracker := query_tracker s;
     active_trace := active_trace s; warned_failover_write := warned_failover_write s;
     ryow_until := ryow_until s; shared := shared s; replies := replies s |}.
Definition with_tracker (t : SessionQueryTracker) (s : PgState) : PgState :=
  {| env := env s; client := client s; pg_shadow := pg_shadow s; query_tracker := t;
     active_trace := active_trace s; warned_failover_write := warned_failover_write s;
     ryow_until := ryow_until s; shared := shared s; replies := replies s |}.
Definition with_trace (t : option ActiveTrace) (s : PgState) : PgState :=
  {| env := env s; client := client s; pg_shadow := pg_shadow s; query_tracker := query_tracker s;
     active_trace := t; warned_failover_write := warned_failover_write s;
     ryow_until := ryow_until s; shared := shared s; replies := replies s |}.
Definition with_warned (b : bool) (s : PgState) : PgState :=
  {| env := env s; client := client s; pg_shadow := pg_shadow s; query_tracker := query_tracker s;
     active_trace := active_trace s; warned_failover_write := b;
     ryow_until := ryow_until s; shared := shared s; replies := replies s |}.
Definition with_ryow (t : option Z) (s : PgState) : PgState :=
  {| env := env s; client := client s; pg_shadow := pg_shadow s; query_tracker := query_tracker s;
     active_trace := active_trace s; warned_failover_write := warned_failover_write s;
     ryow_until := t; shared := shared s; replies := replies s |}.
Definition with_shared (h : PgShared) (s : PgState) : PgState :=
  {| env := env s; client := client s; pg_shadow := pg_shadow s; query_tracker := query_tracker s;
     active_trace := active_trace s; warned_failover_write := warned_failover_write s;
     ryow_until := ryow_until s; shared := h; replies := replies s |}.
Definition with_reply (r : PgReply) (s : PgState) : PgState :=
  {| env := env s; client := client s; pg_shadow := pg_shadow s; query_tracker := query_tracker s;
     active_trace := active_trace s; warned_failover_write := warned_failover_write s;
     ryow_until := ryow_until s; shared := shared s; replies := replies s ++ [r] |}.

Variable cfg : PgServerConfig.
Local Abbreviation ST := (SE PgState ctl).

(** ** Small steps *)

Definition modify (f : PgState -> PgState) : ST unit := se_modify f.
Definition now (s : PgState) : Z := now_ns (world (env s)).
Definition username (s : PgState) : bytes := pgs_username (client s).
Definition client_database (s : PgState) : bytes :=
  match pgs_database (client s) with [] => bs "postgres" | db => db end.
Definition is_in_transaction (s : PgState) : bool := pgs_in_transaction (client s).
Definition set_in_transaction (b : bool) : ST unit :=
  modify (fun s => with_client {| pgs_in_transaction := b; pgs_username := pgs_username (client s);
    pgs_database := pgs_database (client s); pgs_allow_writes := pgs_allow_writes (client s);
    pgs_app_name := pgs_app_name (client s) |} s).

Definition on_shared (f : PgShared -> PgShared) : ST unit := modify (fun s => with_shared (f (shared s)) s).
Definition bump (m : Metric) : ST unit :=
  on_shared (fun h => {| metrics := fun k => if decide (k = m) then usize (metrics h k + 1) else metrics h k;
    tracer := tracer h; n1_store := n1_store h; copy_active := copy_active h; events := events h |}).
Definition push_trace (t : TransactionTrace) : ST unit :=
  on_shared (fun h => {| metrics := metrics h; tracer := push t (tracer h); n1_store := n1_store h;
    copy_active := copy_active h; events := events h |}).
Definition add_copy (n : Z) : ST unit :=
  on_shared (fun h => {| metrics := metrics h; tracer := tracer h; n1_store := n1_store h;
    copy_active := usize (copy_active h + n); events := events h |}).
Definition observe (ev : PgState -> PgEvent) : ST unit :=
  modify (fun s => with_shared {| metrics := metrics (shared s); tracer := tracer (shared s);
    n1_store := n1_store (shared s); copy_active := copy_active (shared s); events := events (shared s) ++ [ev s] |} s).

(** One write to the client, and whether it succeeds. *)
Definition reply (r : PgReply) : ST bool := fun s => (Ok (client_ok cfg (length (replies s))), with_reply r s).
Definition or_break (w : ST bool) : ST unit := ok ← w; if ok : bool then mret tt else se_fail Break.
Definition ignore {A} (w : ST A) : ST unit := _ ← w; mret tt.
(** The error and the ReadyForQuery behind it are one write here; nobody looks at which of
    the two has failed. *)
Definition write_error (code message : bytes) : ST unit :=
  s ← se_get; ignore (reply (Written (error_response (is_in_transaction s) code message))).
Definition write_response (r : BackendResponse) : ST unit := or_break (reply (Written (br_bytes r))).
Definition flush_or_break : ST unit := or_break (reply PgFlushed).
(** The end of an early exit: the result of the flush is ignored. *)
Definition flush_and_continue {A} : ST A := ignore (reply PgFlushed) ;; se_fail Continue.
Definition refuse {A} (code message : bytes) : ST A := write_error code message ;; flush_and_continue.

Definition routed {A} (m : SE Env failure A) : ST (result bytes A) := fun s =>
  let (r, e) := m (env s) in
  match r with
  | Ok a => (Ok (Ok a), with_env e s)
  | Err (Failed x) => (Ok (Err x), with_env e s)
  | Err Panicked => (Err Died, with_env e s)
  end.
Definition on_env (f : Env -> Env) : ST unit := modify (fun s => with_env (f (env s)) s).

(** [tx_conn.take()] and its return to the pool. *)
Definition release_tx : ST unit :=
  s ← se_get;
  match tx_conn (env s) with
  | Some c => on_env (set_tx None) ;; ignore (routed (router_put_primary_for_database c (client_database s)))
  | None => mret tt
  end.
(** The same for the connection of the prepared statements, which are dropped first. *)
Definition release_stmt : ST unit :=
  s ← se_get;
  match stmt_conn (env s) with
  | Some c =>
      on_env (set_stmt None) ;;
      r ← routed (ask c (bs "DEALLOCATE ALL"));
      match r with
      | Ok r => ignore (routed (router_put_primary_for_database (snd r) (client_database s)))
      | Err _ => mret tt
      end
  | None => mret tt
  end.
Definition drop_tx : ST unit := on_env (set_tx None).
Definition finish_trace (out : bytes) : ST unit :=
  s ← se_get;
  match active_trace s with
  | Some t => modify (with_trace None) ;; push_trace (finish out (now s) t)
  | None => mret tt
  end.
(** A log line that shows the first [n] bytes of a text. *)
Definition log_slice (enabled : bool) (n : nat) (text : bytes) : ST unit :=
  if enabled && slice_panics n text then se_fail Died else mret tt.

(** The status byte of a response decides whether the session is in a transaction. *)
Definition follow_status (result : result bytes BackendResponse) : ST unit :=
  match result with
  | Ok r =>
      match extract_ready_status (br_bytes r) with
      | Some status =>
          set_in_transaction (in_tx_status status) ;;
          (if in_tx_status status then mret tt else release_tx)
      | None => mret tt
      end
  | Err _ => mret tt
  end.

Definition track (sql : bytes) : ST unit :=
  s ← se_get;
  let t := QueryStats.record default_hash sql (query_tracker s) in
  let (hot, t) := track_exact default_hash sql t in
  modify (with_tracker t) ;;
  match hot with
  | Some (fp, example, count) => observe (fun _ => HotKey fp example count)
  | None => mret tt
  end.

(** ** A simple query, stage by stage *)

Definition meta_command (sql : bytes) : ST unit :=
  if starts_with sql [92] then
    match translate_meta_command sql with
    | Some translated =>
        s ← se_get;
        result ← routed (route_query_with_database translated (is_in_transaction s) true (username s) [] (client_database s));
        (match result with
         | Ok r => ignore (reply (Written (br_bytes r)))
         | Err e => write_error (bs "XX000") e
         end) ;;
        flush_and_continue
    | None => mret tt
    end
  else mret tt.

Definition failover_active_nowait (s : PgState) : bool := failover_active (r_pool (router (env s))).
Definition count_intent (intent : QueryIntent) : ST unit :=
  if bool_decide (intent = Read) then bump QueriesRead
  else if bool_decide (intent = Write) then
    bump QueriesWrite ;;
    s ← se_get;
    if negb (warned_failover_write s) && failover_active_nowait s then modify (with_warned true)
    else if warned_failover_write s && negb (failover_active_nowait s) then modify (with_warned false)
    else mret tt
  else mret tt.
Definition deny_write (intent : QueryIntent) : ST unit :=
  s ← se_get;
  if negb (pgs_allow_writes (client s)) && bool_decide (intent = Write)
  then refuse (bs "42501") (bs "User is not allowed to write (read-only account)") else mret tt.
Definition audit (sql destination : bytes) (duration : Z) (error : bool) : ST unit :=
  observe (fun s => PgAudited (username s) (client_ip cfg) sql destination duration error).
Definition error_event (message fp : bytes) (duration : Z) : ST unit :=
  observe (fun s => PgError message fp (client_ip cfg) (username s) duration).
Definition check_injection (sql : bytes) : ST unit :=
  match sqli_detector cfg with
  | Some d =>
      match detector_check d sql with
      | Some pattern =>
          bump SqliBlocked ;;
          audit sql (bs "blocked:sqli") 0 true ;;
          error_event (bs "SQL injection blocked: " ++ pattern) (fingerprint sql) 0 ;;
          refuse (bs "42501") (bs "Query blocked: potential SQL injection detected")
      | None => mret tt
      end
  | None => mret tt
  end.
Definition check_whitelist (sql : bytes) : ST unit :=
  if is_allowed (query_whitelist cfg) sql then mret tt
  else
    bump WhitelistBlocked ;;
    log_slice (warn_log cfg) 120 sql ;;
    audit sql (bs "blocked:whitelist") 0 true ;;
    error_event (bs "Query not permitted: not in the PostgreSQL query allowlist") (fingerprint sql) 0 ;;
    refuse (bs "42501") (bs "Query not permitted: not in the query allowlist").

Definition starts_tx (upper : bytes) : bool :=
  starts_with upper (bs "BEGIN") || starts_with upper (bs "START TRANSACTION") || starts_with upper (bs "START WORK").
Definition ends_tx (upper : bytes) : bool :=
  starts_with upper (bs "COMMIT") || starts_with upper (bs "ROLLBACK") || beq upper (bs "END") || starts_with upper (bs "END ").
Definition begin_transaction (upper : bytes) : ST unit :=
  if starts_tx upper then
    set_in_transaction true ;;
    modify (fun s => with_trace (Some (trace_new (conn_id cfg) (username s) (client_ip cfg) (unix_ms (world (env s))) (now s))) s)
  else mret tt.
Definition ryow_active (s : PgState) : bool :=
  (0 <? read_your_own_writes_ms cfg) && match ryow_until s with Some t => now s <? t | None => false end.

Definition after_route (upper : bytes) (result : result bytes BackendResponse) : ST unit :=
  if ends_tx upper then set_in_transaction false ;; release_tx else follow_status result.

Definition record_in_trace (sql fp : bytes) (duration : Z) (intent : QueryIntent) : ST unit :=
  s ← se_get;
  match active_trace s with
  | Some t =>
      match Tracer.record sql fp duration (primary_addr (r_pool (router (env s)))) (intent_text intent) (now s) t with
      | Some t' => modify (with_trace (Some t'))
      | None => se_fail Died
      end
  | None => mret tt
  end.

Definition on_success (sql : bytes) (intent : QueryIntent) (duration : Z) : ST unit :=
  let fp := fingerprint sql in
  let slow := slow_query_log_ms cfg in
  observe (fun _ => PgRecorded sql duration (bool_decide (intent = Read))) ;;
  audit sql (bs "primary") duration false ;;
  observe (fun _ => Measured duration) ;;
  log_slice (warn_log cfg && (0 <? slow) && (slow <=? u64 (duration / 10 ^ 6))) 200 fp ;;
  (if (0 <? read_your_own_writes_ms cfg) && bool_decide (intent = Write)
   then modify (fun s => with_ryow (Some (now s + read_your_own_writes_ms cfg * 10 ^ 6)) s) else mret tt) ;;
  track sql ;;
  record_in_trace sql fp duration intent.

Definition is_gone (err : bytes) : bool :=
  str_contains err (bs "broken pipe") || str_contains (to_lowercase err) (bs "connection reset")
  || str_contains (to_lowercase err) (bs "gone away") || str_contains err (bs "08006") || str_contains err (bs "08001").

Definition on_error (sql err : bytes) (duration : Z) : ST unit :=
  error_event err (fingerprint sql) duration ;;
  s ← se_get;
  if is_gone err && is_in_transaction s
  then set_in_transaction false ;; drop_tx ;; write_error (bs "25P02") err
  else write_error (bs "XX000") err.

Definition query_command (sql_bytes : bytes) : ST unit :=
  let sql := trim (from_utf8_or_empty sql_bytes) in
  bump QueriesTotal ;;
  meta_command sql ;;
  let intent := classify sql in
  count_intent intent ;;
  deny_write intent ;;
  check_injection sql ;;
  check_whitelist sql ;;
  let upper := to_uppercase (trim sql) in
  begin_transaction upper ;;
  s ← se_get;
  result ← routed (route_query_with_database sql_bytes (is_in_transaction s)
             (bool_decide (intent = Read) && negb (ryow_active s)) (username s) [] (client_database s));
  s1 ← se_get;
  let duration := elapsed (now s) (now s1) in
  after_route upper result ;;
  (match result with
   | Ok response =>
       (if is_error response then log_slice (debug_log cfg) 100 sql else on_success sql intent duration) ;;
       write_response response
   | Err err => on_error sql err duration
   end) ;;
  flush_or_break ;;
  (if ends_tx upper
   then finish_trace (if starts_with upper (bs "COMMIT") then bs "commit" else bs "rollback") else mret tt).

(** ** The other commands *)

Definition report_parses (scan : Pg.PgPipelineScan) (duration : Z) : ST unit :=
  let texts := List.filter (fun q => negb (beq q [])) (map (fun p => trim (Pg.query p)) (Pg.parses scan)) in
  se_iter (fun q => observe (fun _ => PgRecorded q duration (bool_decide (classify q = Read))) ;; track q) texts ;;
  (match texts with [] => observe (fun _ => PgRecorded (bs "extended_query") duration false) | _ => mret tt end) ;;
  observe (fun _ => Measured duration).

Definition stmt_command (raw : bytes) : ST unit :=
  bump QueriesTotal ;;
  let scan := Pg.scan_pg_pipeline raw in
  modify (fun s => with_shadow (Pg.apply_scan scan (pg_shadow s)) s) ;;
  s ← se_get;
  result ← routed (route_stmt_pg_shadow_with_database raw scan (pg_shadow s) (is_in_transaction s) (client_database s));
  s1 ← se_get;
  let duration := elapsed (now s) (now s1) in
  follow_status result ;;
  (match result with
   | Ok response => report_parses scan duration ;; write_response response
   | Err err => error_event err (bs "extended_query") duration ;; write_error (bs "XX000") err
   end) ;;
  flush_or_break ;;
  s ← se_get;
  if Pg.is_empty (pg_shadow s) && negb (is_in_transaction s) then release_stmt else mret tt.

Definition other_command (raw : bytes) : ST unit :=
  add_copy 1 ;;
  s ← se_get;
  c ← routed (on_backends (get_primary_for_database (Some (client_database s))));
  match c with
  | Err _ =>
      add_copy (-1) ;;
      write_error (bs "08006") (bs "could not connect to primary") ;;
      ignore (reply PgFlushed) ;;
      se_fail Break
  | Ok c =>
      r ← routed (ask_raw c raw);
      add_copy (-1) ;;
      (match r with
       | Ok (Ok response, c) =>
           (match extract_ready_status (br_bytes response) with
            | Some status => set_in_transaction (in_tx_status status)
            | None => mret tt
            end) ;;
           ignore (routed (router_put_primary_for_database c (client_database s))) ;;
           write_response response
       | Ok (Err e, _) => write_error (bs "XX000") e
       | Err e => write_error (bs "XX000") e
       end) ;;
      flush_or_break
  end.

Definition command (cmd : Command) : ST unit :=
  match cmd with
  | Quit => se_fail Break
  | Query sql_bytes => query_command sql_bytes
  | Stmt raw => stmt_command raw
  | Handshake.Other raw => other_command raw
  | _ => mret tt
  end.

(** One turn of the loop: [continue] is the end of it. *)
Definition turn (cmd : Command) : ST unit := fun s =>
  match command cmd s with
  | (Err Continue, s') => (Ok tt, s')
  | r => r
  end.

(** ** A whole session *)

Definition user_init (u : UserConfig) : list bytes :=
  (if bool_decide (default_schema u = []) then [] else [bs "SET search_path TO " ++ default_schema u]) ++
  (if bool_decide (transaction_isolation u = []) then []
   else [bs "SET SESSION CHARACTERISTICS AS TRANSACTION ISOLATION LEVEL " ++ transaction_isolation u]).
Definition session_init_sqls (s : PgState) : list bytes :=
  match List.find (fun u => beq (name u) (username s)) (users_config cfg) with
  | Some u => user_init u
  | None => []
  end.

(** Statement by statement; the results are ignored. *)
Fixpoint run_inits (c : C) (sqls : list bytes) : SE Env failure C :=
  match sqls with
  | [] => mret c
  | sql :: sqls => r ← ask c sql; run_inits (snd r) sqls
  end.

Definition start_session : ST unit :=
  s ← se_get;
  match session_init_sqls s with
  | [] => mret tt
  | sqls =>
      c ← routed (on_backends (get_primary_for_database (Some (client_database s))));
      match c with
      | Ok c => ignore (routed (c ← run_inits c sqls; router_put_primary_for_database c (client_database s)))
      | Err _ => mret tt
      end
  end.

Definition close_session : ST unit :=
  release_tx ;;
  release_stmt ;;
  modify (fun s => with_shared {| metrics := metrics (shared s); tracer := tracer (shared s);
    n1_store := summarise (unix_secs (world (env s))) (query_tracker s) (n1_store (shared s));
    copy_active := copy_active (shared s); events := events (shared s) |} s) ;;
  finish_trace (bs "disconnect").

Fixpoint session_loop (cmds : list Command) : ST unit :=
  match cmds with
  | [] => mret tt
  | cmd :: cmds' => turn cmd ;; session_loop cmds'
  end.
Definition run_loop (cmds : list Command) : ST unit := fun s =>
  match session_loop cmds s with
  | (Err Died, s') => (Err Died, s')
  | (_, s') => close_session s'
  end.
Definition run_session (cmds : list Command) : ST unit := start_session ;; run_loop cmds.

Definition initial (e : Env) (c : PgClientSession) (h : PgShared) : PgState :=
  {| env := set_stmt None (set_tx None e); client := c; pg_shadow := ∅; query_tracker := tracker_new;
     active_trace := None; warned_failover_write := false; ryow_until := None; shared := h; replies := [] |}.
End PgServer.
