(* ===== verification/PgServerProps.v ===== *)
(** * What a PostgreSQL session guarantees (src/src/proxy/pg_server.rs)

    Theorems about the sessions of PgServer: one answer per command, where the connection of
    a transaction goes, who is refused, and the commands that break these rules. *)

From S2P Require Import Prelude Bytes Config PgWire.
From S2P Require Import Classifier Fingerprint QueryCache Rules Rewriter StmtShadow.
From S2P Require Import GroupReplication MysqlCodec MysqlResponse Auth Handshake TextRows CircuitBreaker Pool ProxyProtocol.
From S2P Require Import Router UserRegistry Tracer Session QueryStats PgServer.

Create HintDb quiet discriminated.
Create HintDb view discriminated.

Section Answers.
Context {W C : Type} `{IO : !BackendIO W C} `{CT : CaseTable} `{RE : RegexEngine}
  `{MO : !MapOrder bytes CacheEntry} `{MO1 : !MapOrder bytes bytes} `{MO2 : !MapOrder Z (Z * bytes)}.
Variable default_hash : bytes -> Z.
Variable cfg : PgServerConfig.
Local Abbreviation PS := (PgState (W := W) (C := C)).
Local Abbreviation ST := (SE PS ctl).

(** The client takes every write. *)
Hypothesis client_listens : forall k, client_ok cfg k = true.

(** ** What is said *)

Definition says (l : list PgReply) (s : PS) : Prop := replies s = l.
(** One message, or one message and a flush. *)
Definition pending (l : list PgReply) (s : PS) : Prop := exists b, replies s = l ++ [Written b].
Definition answered (l : list PgReply) (s : PS) : Prop := exists b, replies s = l ++ [Written b; PgFlushed].
(** An early end: a panic, or an answer. *)
Definition ended (l : list PgReply) (e : ctl) (s : PS) : Prop := e = Died \/ answered l s.

(** Nothing is said, and the only early end is a panic. *)
Definition quiet {A} (m : ST A) : Prop :=
  forall l, triple (fun s => replies s = l) m (fun _ s => replies s = l) (fun e _ => e = Died).
(** It goes on in silence or ends the command. *)
Definition stage {A} (m : ST A) : Prop := forall l, triple (says l) m (fun _ => says l) (ended l).

Lemma quiet_bind {A B} (m : ST A) (f : A -> ST B) : quiet m -> (forall a, quiet (f a)) -> quiet (m ≫= f).
Proof. intros Hm Hf l. eapply triple_bind; [apply Hm|]. intros a. apply Hf. Qed.
Lemma quiet_ret {A} (a : A) : quiet (mret a : ST A).
Proof. intros l. apply triple_ret. Qed.
Lemma quiet_get : quiet (se_get : ST PS).
Proof. by intros l s Hs. Qed.
Lemma quiet_modify f : (forall s, replies (f s) = replies s) -> quiet (modify f : ST unit).
Proof. intros H l s Hs. cbn. by rewrite H. Qed.
Lemma quiet_died {A} : quiet (se_fail Died : ST A).
Proof. by intros l s Hs. Qed.
Lemma quiet_routed {A} (m : SE (Env (W := W) (C := C)) failure A) : quiet (routed m).
Proof. intros l s Hs. unfold routed. by destruct (m (env s)) as [[a|[x|]] e]. Qed.
Lemma quiet_iter {A} (f : A -> ST unit) l : (forall a, quiet (f a)) -> quiet (se_iter f l).
Proof. intros Hf. induction l; cbn [se_iter]; [apply quiet_ret | by apply quiet_bind]. Qed.

Ltac quiet_tac :=
  repeat first
    [ progress intros
    | solve [auto with quiet nocore]
    | apply quiet_bind
    | apply quiet_ret | apply quiet_get | apply quiet_died | apply quiet_routed
    | apply quiet_modify; reflexivity
    | apply quiet_iter
    | match goal with |- quiet (match ?x with _ => _ end) => destruct x end ].

Lemma quiet_release_tx : quiet (release_tx (W := W) (C := C)).
Proof. unfold release_tx, ignore, on_env. quiet_tac. Qed.
Lemma quiet_release_stmt : quiet (release_stmt (W := W) (C := C)).
Proof. unfold release_stmt, ignore, on_env. quiet_tac. Qed.
Lemma quiet_finish_trace out : quiet (finish_trace (W := W) (C := C) out).
Proof. unfold finish_trace, push_trace, on_shared. quiet_tac. Qed.
Hint Resolve quiet_release_tx quiet_release_stmt quiet_finish_trace : quiet.
Lemma quiet_follow r : quiet (follow_status (W := W) (C := C) r).
Proof. unfold follow_status, set_in_transaction. quiet_tac. Qed.
Lemma quiet_track sql : quiet (track (W := W) (C := C) default_hash sql).
Proof. unfold track, observe. quiet_tac. Qed.
Hint Resolve quiet_follow quiet_track : quiet.
Lemma quiet_count i : quiet (count_intent (W := W) (C := C) i).
Proof. unfold count_intent, bump, on_shared. quiet_tac. Qed.
Lemma quiet_begin upper : quiet (begin_transaction (W := W) (C := C) cfg upper).
Proof. unfold begin_transaction, set_in_transaction. quiet_tac. Qed.
Lemma quiet_after upper r : quiet (after_route (W := W) (C := C) upper r).
Proof. unfold after_route, set_in_transaction. quiet_tac. Qed.
Lemma quiet_success sql i d : quiet (on_success (W := W) (C := C) default_hash cfg sql i d).
Proof. unfold on_success, observe, audit, observe, log_slice, record_in_trace. quiet_tac. Qed.
Lemma quiet_report scan d : quiet (report_parses (W := W) (C := C) default_hash scan d).
Proof. unfold report_parses, observe. quiet_tac. Qed.
Hint Resolve quiet_count quiet_begin quiet_after quiet_success quiet_report : quiet.

Lemma quiet_stage {A} (m : ST A) : quiet m -> stage m.
Proof. intros Hm l. eapply triple_conseq; [apply (Hm l) | done | done |]. intros e s ->. by left. Qed.
Lemma pg_stage_bind {A B} (m : ST A) (f : A -> ST B) : stage m -> (forall a, stage (f a)) -> stage (m ≫= f).
Proof. intros Hm Hf l. eapply triple_bind; [apply Hm|]. intros a. apply Hf. Qed.

Lemma reply_eq r (s : PS) : or_break (reply cfg r) s = (Ok tt, with_reply r s).
Proof. unfold or_break, reply, mbind, se_bind. by rewrite client_listens. Qed.
Lemma ignore_eq r (s : PS) : ignore (reply cfg r) s = (Ok tt, with_reply r s).
Proof. done. Qed.
Lemma write_error_eq code msg (s : PS) :
  write_error cfg code msg s = (Ok tt, with_reply (Written (error_response (is_in_transaction s) code msg)) s).
Proof. done. Qed.

Lemma written_pending r l : triple (says l) (write_response cfg r) (fun _ => pending l) (ended l).
Proof. intros s Hs. unfold write_response. rewrite reply_eq. exists (br_bytes r). cbn. by rewrite Hs. Qed.
Lemma error_pending code msg l : triple (says l) (write_error cfg code msg) (fun _ => pending l) (ended l).
Proof. intros s Hs. rewrite write_error_eq. eexists. cbn. by rewrite Hs. Qed.
Lemma pg_pending_flush l : triple (pending l) (flush_or_break cfg) (fun _ => answered l) (ended l).
Proof. intros s [b Hs]. unfold flush_or_break. rewrite reply_eq. exists b. cbn. by rewrite Hs, <- app_assoc. Qed.
Lemma pending_end {A} l e (Q : A -> PS -> Prop) :
  triple (pending l) (ignore (reply cfg PgFlushed) ;; se_fail e) Q (ended l).
Proof. intros s [b Hs]. rewrite (se_bind_ok _ _ _ _ _ (ignore_eq _ _)). right. exists b. cbn. by rewrite Hs, <- app_assoc. Qed.
Lemma answered_quiet {A} l (m : ST A) : quiet m -> triple (answered l) m (fun _ => answered l) (ended l).
Proof.
  intros Hm s [b Hs]. specialize (Hm _ s Hs). destruct (m s) as [[x|e] s1]; [by exists b | by left].
Qed.
Lemma pg_stage_refuse {A} code msg : stage (refuse cfg code msg : ST A).
Proof. intros l. eapply triple_bind; [apply error_pending | intros []; apply pending_end]. Qed.

Ltac stage_tac :=
  repeat first
    [ progress intros
    | apply quiet_stage; solve [quiet_tac]
    | apply pg_stage_refuse
    | apply pg_stage_bind
    | match goal with |- stage (match ?x with _ => _ end) => destruct x end ].

Lemma stage_meta sql : stage (meta_command cfg sql).
Proof.
  unfold meta_command. destruct (starts_with _ _); [|stage_tac]. destruct (translate_meta_command sql) as [text|]; [|stage_tac].
  apply pg_stage_bind; [stage_tac | intros s0]. apply pg_stage_bind; [stage_tac | intros result]. intros l. unfold flush_and_continue.
  destruct result as [r|e].
  - eapply (triple_bind _ _ (fun _ => pending l)); [|intros []; apply pending_end].
    intros s Hs. rewrite ignore_eq. eexists. cbn. by rewrite Hs.
  - eapply triple_bind; [apply error_pending | intros []; apply pending_end].
Qed.
Lemma pg_stage_deny i : stage (deny_write (W := W) (C := C) cfg i).
Proof. unfold deny_write. stage_tac. Qed.
Lemma quiet_bump m : quiet (bump (W := W) (C := C) m).
Proof. unfold bump, on_shared. quiet_tac. Qed.
Lemma quiet_audit sql d n e : quiet (audit (W := W) (C := C) cfg sql d n e).
Proof. unfold audit, observe. quiet_tac. Qed.
Lemma quiet_event msg fp d : quiet (error_event (W := W) (C := C) cfg msg fp d).
Proof. unfold error_event, observe. quiet_tac. Qed.
Lemma quiet_log b n text : quiet (log_slice (W := W) (C := C) b n text).
Proof. unfold log_slice. quiet_tac. Qed.
Hint Resolve quiet_bump quiet_audit quiet_event quiet_log : quiet.
Lemma pg_stage_injection sql : stage (check_injection (W := W) (C := C) cfg sql).
Proof.
  unfold check_injection. destruct (sqli_detector cfg) as [d|]; [|apply quiet_stage, quiet_ret].
  destruct (detector_check d sql) as [pattern|]; [|apply quiet_stage, quiet_ret].
  do 3 (apply pg_stage_bind; [apply quiet_stage; auto with quiet | intros []]). apply pg_stage_refuse.
Qed.
Lemma pg_stage_whitelist sql : stage (check_whitelist (W := W) (C := C) cfg sql).
Proof.
  unfold check_whitelist. destruct (is_allowed _ sql); [apply quiet_stage, quiet_ret|].
  do 4 (apply pg_stage_bind; [apply quiet_stage; auto with quiet | intros []]). apply pg_stage_refuse.
Qed.

(** It answers and flushes, or ends the command so. *)
Definition finished (l : list PgReply) (m : ST unit) : Prop := triple (says l) m (fun _ => answered l) (ended l).
Lemma pg_finished_stage {A} l (m : ST A) f : stage m -> (forall a, finished l (f a)) -> finished l (m ≫= f).
Proof. intros Hm Hf. eapply triple_bind; [apply Hm|]. intros a. apply Hf. Qed.
Lemma finished_quiet {A} l (m : ST A) f : quiet m -> (forall a, finished l (f a)) -> finished l (m ≫= f).
Proof. intros Hm. apply pg_finished_stage. by apply quiet_stage. Qed.

Lemma pending_error sql err d l : triple (says l) (on_error cfg sql err d) (fun _ => pending l) (ended l).
Proof.
  unfold on_error, error_event, observe. eapply triple_bind; [refine (quiet_stage _ _ l); quiet_tac | intros []].
  apply triple_get_bind. intros s0 _. destruct (is_gone err && is_in_transaction s0); [|apply error_pending].
  do 2 (eapply triple_bind; [refine (quiet_stage _ _ l); unfold set_in_transaction, drop_tx, on_env; quiet_tac | intros []]).
  apply error_pending.
Qed.

Lemma query_finished l sql_bytes : finished l (query_command default_hash cfg sql_bytes).
Proof.
  unfold query_command. apply finished_quiet; [unfold bump, on_shared; quiet_tac | intros []].
  apply pg_finished_stage; [apply stage_meta | intros []]. apply finished_quiet; [auto with quiet | intros []].
  apply pg_finished_stage; [apply pg_stage_deny | intros []]. apply pg_finished_stage; [apply pg_stage_injection | intros []].
  apply pg_finished_stage; [apply pg_stage_whitelist | intros []]. apply finished_quiet; [auto with quiet | intros []].
  apply finished_quiet; [quiet_tac | intros s0]. apply finished_quiet; [quiet_tac | intros result].
  apply finished_quiet; [quiet_tac | intros s1]. apply finished_quiet; [auto with quiet | intros []].
  eapply (triple_bind _ _ (fun _ => pending l)).
  { destruct result as [r|err]; [|apply pending_error].
    eapply triple_bind; [refine (quiet_stage _ _ l); destruct (is_error r); unfold log_slice; quiet_tac | intros []; apply written_pending]. }
  intros []. eapply triple_bind; [apply pg_pending_flush | intros []]. apply answered_quiet. quiet_tac.
Qed.

Lemma stmt_finished l raw : finished l (stmt_command default_hash cfg raw).
Proof.
  unfold stmt_command. apply finished_quiet; [unfold bump, on_shared; quiet_tac | intros []].
  apply finished_quiet; [quiet_tac | intros []]. apply finished_quiet; [quiet_tac | intros s0].
  apply finished_quiet; [quiet_tac | intros result]. apply finished_quiet; [quiet_tac | intros s1].
  apply finished_quiet; [auto with quiet | intros []]. eapply (triple_bind _ _ (fun _ => pending l)).
  { destruct result as [r|err].
    - eapply triple_bind; [refine (quiet_stage _ _ l); quiet_tac | intros []; apply written_pending].
    - unfold error_event, observe. eapply triple_bind; [refine (quiet_stage _ _ l); quiet_tac | intros []; apply error_pending]. }
  intros []. eapply triple_bind; [apply pg_pending_flush | intros []]. apply answered_quiet. quiet_tac.
Qed.

Lemma other_finished l raw : finished l (other_command cfg raw).
Proof.
  unfold other_command, add_copy, on_shared. apply finished_quiet; [quiet_tac | intros []].
  apply finished_quiet; [quiet_tac | intros s0]. apply finished_quiet; [quiet_tac | intros [c|e]].
  - apply finished_quiet; [quiet_tac | intros r]. apply finished_quiet; [quiet_tac | intros []].
    eapply (triple_bind _ _ (fun _ => pending l)); [|intros []; apply pg_pending_flush].
    destruct r as [[[response|e] c']|e]; [|apply error_pending..]. unfold ignore, set_in_transaction.
    do 2 (eapply triple_bind; [refine (quiet_stage _ _ l); quiet_tac | intros []]). apply written_pending.
  - apply finished_quiet; [quiet_tac | intros []]. eapply triple_bind; [apply error_pending | intros []; apply pending_end].
Qed.

End Answers.

(** ** The connection of the transaction *)

Section Transactions.
Context {W C : Type} `{IO : !BackendIO W C} `{CT : CaseTable} `{RE : RegexEngine}
  `{MO : !MapOrder bytes CacheEntry} `{MO1 : !MapOrder bytes bytes} `{MO2 : !MapOrder Z (Z * bytes)}.
Variable default_hash : bytes -> Z.
Variable cfg : PgServerConfig.
Local Abbreviation PS := (PgState (W := W) (C := C)).
Local Abbreviation ST := (SE PS ctl).
Local Abbreviation EE := (Env (W := W) (C := C)).

Definition tx_view (s : PS) : option C * bool := (tx_conn (env s), is_in_transaction s).
(** A connection is held for a transaction only while the session is in one. *)
Definition no_stray (s : PS) : Prop := tx_conn (env s) = None \/ is_in_transaction s = true.

Lemma own_tx_conn : own (tx_conn (W := W) (C := C)).
Proof. done. Qed.
Lemma pg_view_modify f : (forall s, tx_view (f s) = tx_view s) -> keeps tx_view (modify f : ST unit).
Proof. intros H s. apply H. Qed.
Lemma pg_view_reply r : keeps tx_view (reply cfg r : ST bool).
Proof. by intros s. Qed.
Lemma view_routed {A} (m : SE EE failure A) : keeps tx_conn m -> keeps tx_view (routed m).
Proof.
  intros Hm s. unfold routed. specialize (Hm (env s)). unfold tx_view, is_in_transaction.
  destruct (m (env s)) as [[a|[x|]] e]; cbn in *; by rewrite Hm.
Qed.
Lemma pg_view_iter {A} (f : A -> ST unit) l : (forall a, keeps tx_view (f a)) -> keeps tx_view (se_iter f l).
Proof. intros Hf. induction l; cbn [se_iter]; [apply keeps_ret | by apply keeps_bind]. Qed.

Lemma stray_view {A} (m : ST A) : keeps tx_view m -> preserves no_stray m.
Proof.
  intros Hm s Hs. specialize (Hm s). unfold tx_view in Hm. injection Hm as H1 H2. unfold no_stray in *. by rewrite H1, H2.
Qed.

Ltac view_tac :=
  repeat first
    [ progress intros
    | solve [auto with view nocore]
    | apply keeps_bind | apply keeps_ret | apply keeps_get | apply keeps_fail | apply pg_view_reply
    | apply pg_view_modify; reflexivity
    | apply pg_view_iter
    | match goal with |- keeps _ (match ?x with _ => _ end) => destruct x end ].
Ltac neutral := apply stray_view; unfold bump, on_shared, observe, or_break, ignore; view_tac.

Lemma view_write_error code msg : keeps tx_view (write_error cfg code msg : ST unit).
Proof. unfold write_error, ignore. view_tac. Qed.
Lemma view_refuse {A} code msg : keeps tx_view (refuse cfg code msg : ST A).
Proof. unfold refuse, flush_and_continue, write_error, ignore. view_tac. Qed.
Lemma view_track sql : keeps tx_view (track default_hash sql : ST unit).
Proof. unfold track, observe. view_tac. Qed.
Lemma view_finish out : keeps tx_view (finish_trace out : ST unit).
Proof. unfold finish_trace, push_trace, on_shared. view_tac. Qed.
Lemma view_count i : keeps tx_view (count_intent i : ST unit).
Proof. unfold count_intent, bump, on_shared. view_tac. Qed.
Lemma view_event msg fp d : keeps tx_view (error_event cfg msg fp d : ST unit).
Proof. by intros s. Qed.
Hint Resolve view_write_error view_refuse view_track view_finish view_count view_event : view.
Lemma view_deny i : keeps tx_view (deny_write cfg i : ST unit).
Proof. unfold deny_write. view_tac. Qed.
Lemma view_injection sql : keeps tx_view (check_injection cfg sql : ST unit).
Proof.
  unfold check_injection. destruct (sqli_detector cfg) as [d|]; [|apply keeps_ret].
  destruct (detector_check d sql); [|apply keeps_ret]. unfold bump, on_shared, audit, observe. view_tac.
Qed.
Lemma view_whitelist sql : keeps tx_view (check_whitelist cfg sql : ST unit).
Proof.
  unfold check_whitelist. destruct (is_allowed _ sql); [apply keeps_ret|].
  unfold bump, on_shared, audit, observe, log_slice. view_tac.
Qed.
Lemma view_success sql i d : keeps tx_view (on_success default_hash cfg sql i d : ST unit).
Proof. unfold on_success, observe, audit, observe, log_slice, record_in_trace. view_tac. Qed.
Lemma view_report scan d : keeps tx_view (report_parses default_hash scan d : ST unit).
Proof. unfold report_parses, observe. view_tac. Qed.
Lemma view_release_stmt : keeps tx_view (release_stmt : ST unit).
Proof.
  unfold release_stmt, ignore, on_env. apply keeps_bind; [apply keeps_get | intros s]. destruct (stmt_conn (env s)); [|apply keeps_ret].
  apply keeps_bind; [by apply pg_view_modify | intros []]. apply keeps_bind; [apply view_routed, own_ask, own_tx_conn | intros [r|e]]; [|apply keeps_ret].
  apply keeps_bind; [apply view_routed; unfold router_put_primary_for_database; apply own_put_primary, own_tx_conn | intros; apply keeps_ret].
Qed.
Hint Resolve view_deny view_injection view_whitelist view_success view_report view_release_stmt : view.

(** Giving the connection back leaves none behind. *)
Lemma release_tx_none (s : PS) : tx_conn (env (snd ((release_tx : ST unit) s))) = None.
Proof.
  unfold release_tx. rewrite (se_bind_ok _ _ s s s) by done. destruct (tx_conn (env s)) as [c|] eqn:E; [|exact E].
  rewrite (se_bind_ok _ _ s tt (with_env (set_tx None (env s)) s)) by done.
  assert (keeps tx_view (ignore (routed (router_put_primary_for_database c (client_database s))) : ST unit)) as Hk.
  { unfold ignore. apply keeps_bind; [apply view_routed; unfold router_put_primary_for_database; apply own_put_primary, own_tx_conn |].
    intros; apply keeps_ret. }
  specialize (Hk (with_env (set_tx None (env s)) s)). unfold tx_view in Hk. by injection Hk as ->.
Qed.
Lemma leave_no_stray (b : bool) : preserves no_stray (set_in_transaction b ;; (if b then mret tt else release_tx) : ST unit).
Proof.
  intros s _. destruct b; [by right|]. rewrite (se_bind_ok _ _ s tt (snd (set_in_transaction false s))) by done.
  left. apply release_tx_none.
Qed.
Lemma follow_no_stray r : preserves no_stray (follow_status r : ST unit).
Proof.
  unfold follow_status. destruct r as [r|e]; [|apply preserves_ret]. destruct (extract_ready_status _); [|apply preserves_ret].
  apply leave_no_stray.
Qed.
Lemma after_no_stray upper r : preserves no_stray (after_route upper r : ST unit).
Proof. unfold after_route. destruct (ends_tx upper); [apply (leave_no_stray false) | apply follow_no_stray]. Qed.

(** The router takes a connection for the transaction only inside one. *)
Lemma query_routed_no_stray sql b user sch db (s : PS) : no_stray s ->
  no_stray (snd (routed (route_query_with_database sql (is_in_transaction s) b user sch db) s)).
Proof.
  intros Hs. destruct (is_in_transaction s) eqn:E.
  - right. unfold routed. destruct (route_query_with_database _ _ _ _ _ _ _) as [[a|[x|]] e]; exact E.
  - refine (stray_view _ _ s Hs). apply view_routed. unfold route_query_with_database. apply own_route, own_tx_conn.
Qed.

Lemma get_no_stray {B} (f : PS -> ST B) : (forall s, no_stray s -> no_stray (snd (f s s))) -> preserves no_stray (se_get ≫= f).
Proof. intros Hf s Hs. exact (Hf s Hs). Qed.
Lemma bind_no_stray {A B} (m : ST A) (f : A -> ST B) s : no_stray (snd (m s)) -> (forall a, preserves no_stray (f a)) ->
  no_stray (snd ((m ≫= f) s)).
Proof. intros Hm Hf. unfold mbind, se_bind. destruct (m s) as [[a|e] s']; [by apply Hf | exact Hm]. Qed.

Lemma meta_no_stray sql : preserves no_stray (meta_command cfg sql : ST unit).
Proof.
  unfold meta_command. destruct (starts_with _ _); [|apply preserves_ret]. destruct (translate_meta_command sql) as [text|]; [|apply preserves_ret].
  apply get_no_stray. intros s Hs. apply bind_no_stray; [by apply query_routed_no_stray | intros r].
  unfold flush_and_continue. destruct r; neutral.
Qed.
Lemma on_error_no_stray sql err d : preserves no_stray (on_error cfg sql err d : ST unit).
Proof.
  unfold on_error. apply preserves_bind; [neutral | intros []]. apply get_no_stray. intros s Hs.
  destruct (_ && _); [|refine (stray_view _ _ s Hs); auto with view]. by left.
Qed.
Lemma begin_no_stray upper : preserves no_stray (begin_transaction cfg upper : ST unit).
Proof.
  unfold begin_transaction. destruct (starts_tx upper); [|apply preserves_ret]. intros s _. by right.
Qed.

Lemma get_any {B} (f : PS -> ST B) : (forall s, preserves no_stray (f s)) -> preserves no_stray (se_get ≫= f).
Proof. intros Hf s Hs. exact (Hf s s Hs). Qed.

(** Outside a transaction a pipeline runs on the connection of the statements. *)
Lemma tx_stmt_routed raw scan sh db :
  keeps tx_conn (route_stmt_pg_shadow_with_database raw scan sh false db : SE EE failure BackendResponse).
Proof.
  unfold route_stmt_pg_shadow_with_database, route_stmt_pg_shadow_inner, need_stmt, raw_on_stmt.
  assert (forall (c : C) ps, keeps tx_conn (send_best_effort c ps : SE EE failure C)) as Hbest
    by (intros c ps; revert c; induction ps as [|p ps IH]; intros c; cbn [send_best_effort]; keeps_tac; apply own_ask_raw, own_tx_conn).
  keeps_tac; first [apply own_backends, own_tx_conn | apply own_ask_raw, own_tx_conn | apply own_lift | apply Hbest | by intros ?].
Qed.

Lemma query_no_stray sql_bytes : preserves no_stray (query_command default_hash cfg sql_bytes).
Proof.
  unfold query_command. apply preserves_bind; [neutral | intros []]. apply preserves_bind; [apply meta_no_stray | intros []].
  do 4 (apply preserves_bind; [apply stray_view; auto with view | intros []]).
  apply preserves_bind; [apply begin_no_stray | intros []]. apply get_no_stray. intros s Hs.
  apply bind_no_stray; [by apply query_routed_no_stray | intros result]. apply get_any. intros s1.
  apply preserves_bind; [apply after_no_stray | intros []].
  apply preserves_bind; [|intros []; apply preserves_bind; [neutral | intros []; neutral]].
  destruct result as [r|err]; [|apply on_error_no_stray]. apply preserves_bind; [|intros []; unfold write_response; neutral].
  destruct (is_error r); [unfold log_slice; neutral | neutral].
Qed.

(** A pipeline holds a connection for the transaction only inside one, too. *)
Lemma stmt_routed_no_stray raw scan sh db (s : PS) : no_stray s ->
  no_stray (snd (routed (route_stmt_pg_shadow_with_database raw scan sh (is_in_transaction s) db) s)).
Proof.
  intros Hs. destruct (is_in_transaction s) eqn:E.
  - right. unfold routed. destruct (route_stmt_pg_shadow_with_database _ _ _ _ _ _) as [[a|[x|]] e]; exact E.
  - refine (stray_view _ _ s Hs). apply view_routed, tx_stmt_routed.
Qed.

Lemma stmt_no_stray raw : preserves no_stray (stmt_command default_hash cfg raw).
Proof.
  unfold stmt_command. apply preserves_bind; [neutral | intros []]. apply preserves_bind; [neutral | intros []].
  apply get_no_stray. intros s Hs. apply bind_no_stray; [by apply stmt_routed_no_stray | intros result]. apply get_any. intros s1.
  apply preserves_bind; [apply follow_no_stray | intros []].
  apply preserves_bind; [|intros []; apply preserves_bind; [unfold flush_or_break; neutral | intros []; neutral]].
  destruct result as [r|err]; (apply preserves_bind; [neutral | intros []]); [unfold write_response; neutral | neutral].
Qed.

(** One step of a session: a query or a pipeline of its client, or the rest of the proxy and
    the world at work. *)
Inductive pg_step : PS -> PS -> Prop :=
| step_query sql s s' : turn default_hash cfg (Query sql) s = (Ok tt, s') -> pg_step s s'
| step_stmt raw s s' : turn default_hash cfg (Stmt raw) s = (Ok tt, s') -> pg_step s s'
| step_elsewhere s r w h : pg_step s (with_shared h (with_env (set_world w (set_router r (env s))) s)).

(** C22: No connection is held for a transaction that is over: in every state a session can
    reach by queries and pipelines, whatever happens around it, a session that is outside a
    transaction holds no connection for one. *)
Theorem pg_no_stray_connection e c h s :
  steps pg_step (initial e c h) s -> is_in_transaction s = false -> tx_conn (env s) = None.
Proof.
  intros Hs Hin. assert (no_stray s) as [H|H]; [|exact H|by rewrite Hin in H].
  assert (forall cmd s1 s2, preserves no_stray (command default_hash cfg cmd) -> turn default_hash cfg cmd s1 = (Ok tt, s2) ->
    no_stray s1 -> no_stray s2) as Hturn.
  { intros cmd s1 s2 Hp Ht H1. specialize (Hp s1 H1). unfold turn in Ht.
    destruct (command default_hash cfg cmd s1) as [[[]|[]] s3]; try done; by injection Ht as <-. }
  eapply (steps_invariant pg_step no_stray); [|exact Hs|by left].
  intros s1 s2 H1 Hst. destruct Hst as [sql s3 s4 Ht|raw s3 s4 Ht|s3 r w h'].
  - exact (Hturn (Query sql) s3 s4 (query_no_stray sql) Ht H1).
  - exact (Hturn (Stmt raw) s3 s4 (stmt_no_stray raw) Ht H1).
  - exact H1.
Qed.

(** Any other command breaks this, a Sync on its own for one: it runs on some connection
    of the pool, and the session takes itself to be in whatever state that connection is in;
    the connection of its own transaction stays open, and stays with it. *)
Theorem pg_other_command_strands_transaction s raw c c1 e1 response c2 e2 :
  tx_view s = (Some c, true) ->
  on_backends (get_primary_for_database (Some (client_database s))) (env s) = (Ok c1, e1) ->
  ask_raw c1 raw e1 = (Ok (Ok response, c2), e2) -> extract_ready_status (br_bytes response) = Some (ch "I") ->
  tx_view (snd (turn default_hash cfg (Handshake.Other raw) s)) = (Some c, false).
Proof.
  intros Hv Hc1 Hraw Hst. unfold turn. cbn [command]. unfold other_command.
  set (s1 := snd (add_copy 1 s)). rewrite (se_bind_ok _ _ s tt s1) by done. rewrite (se_bind_ok _ _ s1 s1 s1) by done.
  rewrite (se_bind_ok _ _ s1 (Ok c1) (with_env e1 s1)).
  2:{ unfold routed. change (env s1) with (env s). change (client_database s1) with (client_database s). by rewrite Hc1. }
  rewrite (se_bind_ok _ _ _ (Ok (Ok response, c2)) (with_env e2 s1)).
  2:{ unfold routed. change (env (with_env e1 s1)) with e1. by rewrite Hraw. }
  set (s2 := snd (add_copy (-1) (with_env e2 s1))). rewrite (se_bind_ok _ _ _ tt s2) by done. rewrite Hst.
  assert (tx_conn e2 = Some c) as Htx.
  { pose proof (own_ask_raw tx_conn own_tx_conn c1 raw e1) as H1. rewrite Hraw in H1.
    pose proof (own_backends tx_conn own_tx_conn (get_primary_for_database (Some (client_database s))) (env s)) as H2.
    rewrite Hc1 in H2. cbn [snd] in *. rewrite H1, H2. by injection Hv. }
  set (s3 := snd (set_in_transaction (in_tx_status (ch "I")) s2)).
  set (k := ignore (routed (router_put_primary_for_database c2 (client_database s1))) ;; write_response cfg response : ST unit).
  assert (keeps tx_view (k ;; flush_or_break cfg)) as Hk.
  { apply keeps_bind; [apply keeps_bind|].
    - unfold ignore. apply keeps_bind; [apply view_routed; unfold router_put_primary_for_database; apply own_put_primary, own_tx_conn |].
      intros; apply keeps_ret.
    - intros []. unfold write_response, or_break. view_tac.
    - intros []. unfold flush_or_break, or_break. view_tac. }
  specialize (Hk s3). assert (tx_view s3 = (Some c, false)) as H3 by (unfold tx_view; cbn; by rewrite Htx). rewrite H3 in Hk.
  match goal with |- tx_view (snd (match ?m s2 with _ => _ end)) = _ =>
    assert (m s2 = (k ;; flush_or_break cfg) s3) as -> end.
  { unfold k. rewrite se_bind_assoc. reflexivity. }
  destruct ((k ;; flush_or_break cfg) s3) as [[[]|[]] s4]; exact Hk.
Qed.

(** Writing and reporting leave the connections and the client's state alone. *)
Definition state_view (s : PS) : EE * PgClientSession := (env s, client s).
Ltac state_tac :=
  repeat first
    [ progress intros
    | apply keeps_bind | apply keeps_ret | apply keeps_get | apply keeps_fail
    | apply keeps_modify; reflexivity
    | match goal with |- keeps _ (match ?x with _ => _ end) => destruct x end ].
Lemma state_report scan d : keeps state_view (report_parses default_hash scan d : ST unit).
Proof.
  unfold report_parses. apply keeps_bind; [|intros []; unfold observe, modify; state_tac].
  induction (List.filter _ _) as [|q l IH]; cbn [se_iter]; [apply keeps_ret|].
  apply keeps_bind; [unfold track, observe, modify; state_tac | intros []; exact IH].
Qed.
Lemma state_write r : keeps state_view (write_response cfg r : ST unit).
Proof. unfold write_response, or_break. state_tac. by intros s. Qed.
Lemma state_flush : keeps state_view (flush_or_break cfg : ST unit).
Proof. unfold flush_or_break, or_break. state_tac. by intros s. Qed.

(** A transaction that is begun by the extended protocol is left behind: the pipeline
    runs on the connection of the statements, and when its answer says that a transaction is
    open, the session takes itself to be in one but has no connection for it, so that the
    next command gets another one from the pool. *)
Theorem pg_extended_begin_splits_transaction s raw response e1 :
  tx_view s = (None, false) ->
  let scan := Pg.scan_pg_pipeline raw in
  route_stmt_pg_shadow_with_database raw scan (Pg.apply_scan scan (pg_shadow s)) false (client_database s) (env s) = (Ok response, e1) ->
  extract_ready_status (br_bytes response) = Some (ch "T") ->
  let s' := snd (turn default_hash cfg (Stmt raw) s) in
  tx_view s' = (None, true) /\ stmt_conn (env s') = stmt_conn e1.
Proof.
  intros Hv scan Hr Hst s'. injection Hv as Htx Hin.
  set (s1 := with_shadow (Pg.apply_scan scan (pg_shadow s)) (snd (bump QueriesTotal s))).
  set (s2 := with_env e1 s1). set (s3 := snd (set_in_transaction true s2)).
  assert (tx_conn e1 = None) as Htx1.
  { pose proof (tx_stmt_routed raw scan (Pg.apply_scan scan (pg_shadow s)) (client_database s) (env s)) as H. rewrite Hr in H.
    cbn [snd] in H. by rewrite H. }
  set (k := (report_parses default_hash scan (elapsed (now s1) (now s2)) ;; write_response cfg response) ;; flush_or_break cfg : ST unit).
  assert (keeps state_view k) as Hk.
  { apply keeps_bind; [apply keeps_bind; [apply state_report | intros []; apply state_write] | intros []; apply state_flush]. }
  assert (stmt_command default_hash cfg raw s =
    (k ;; (s ← se_get; if Pg.is_empty (pg_shadow s) && negb (is_in_transaction s) then release_stmt else mret tt)) s3) as Hrun.
  { unfold stmt_command. rewrite (se_bind_ok _ _ s tt (snd (bump QueriesTotal s))) by done. cbv zeta. fold scan.
    rewrite (se_bind_ok _ _ _ tt s1) by done. rewrite (se_bind_ok _ _ s1 s1 s1) by done.
    change (is_in_transaction s1) with (is_in_transaction s). rewrite Hin.
    rewrite (se_bind_ok _ _ s1 (Ok response) s2).
    2:{ unfold routed. change (env s1) with (env s). change (client_database s1) with (client_database s).
        change (pg_shadow s1) with (Pg.apply_scan scan (pg_shadow s)). by rewrite Hr. }
    rewrite (se_bind_ok _ _ s2 s2 s2) by done. rewrite (se_bind_ok _ _ s2 tt s3).
    2:{ unfold follow_status. rewrite Hst. reflexivity. }
    unfold k. by rewrite !se_bind_assoc. }
  assert (state_view s' = (e1, client s3)) as Hs'.
  { unfold s', turn. cbn [command]. rewrite Hrun. specialize (Hk s3). destruct (k s3) as [[[]|e] s4] eqn:Ek; cbn [snd] in Hk.
    - rewrite (se_bind_ok _ _ _ _ _ Ek), (se_bind_ok _ _ s4 s4 s4) by done.
      assert (is_in_transaction s4 = true) as -> by (unfold is_in_transaction; injection Hk as _ ->; reflexivity).
      rewrite andb_false_r. exact Hk.
    - rewrite (se_bind_err _ _ _ _ _ Ek). destruct e; exact Hk. }
  injection Hs' as He Hc. unfold tx_view, is_in_transaction. rewrite He, Hc, Htx1. by split.
Qed.

(** A read-only user writes nothing with a query: a statement classified as a write is
    answered with an error packet, and no connection, no backend and no part of the router
    has anything to do with it. *)
Theorem pg_read_only_user_denied s sql_bytes :
  let sql := trim (from_utf8_or_empty sql_bytes) in
  classify sql = Write -> starts_with sql [92] = false -> pgs_allow_writes (client s) = false ->
  exists s', turn default_hash cfg (Query sql_bytes) s = (Ok tt, s') /\ state_view s' = state_view s /\
    replies s' = replies s ++ [Written (error_response (is_in_transaction s) (bs "42501")
      (bs "User is not allowed to write (read-only account)")); PgFlushed].
Proof.
  intros sql Hcl Hmeta Haw. set (s1 := snd (bump QueriesTotal s)).
  assert (exists s2, count_intent Write s1 = (Ok tt, s2) /\ state_view s2 = state_view s /\ replies s2 = replies s) as (s2 & E2 & Hv & Hr).
  { unfold count_intent. change (bool_decide (Write = Read)) with false. change (bool_decide (Write = Write)) with true. cbv iota. set (sb := snd (bump QueriesWrite s1)).
    rewrite (se_bind_ok _ _ s1 tt sb) by done. rewrite (se_bind_ok _ _ sb sb sb) by done.
    destruct (_ && _); [|destruct (_ && _)]; eexists; (split; [reflexivity | by split]). }
  injection Hv as Hv1 Hv2.
  set (s4 := with_reply PgFlushed (with_reply (Written (error_response (is_in_transaction s2) (bs "42501")
    (bs "User is not allowed to write (read-only account)"))) s2)).
  assert (deny_write cfg Write s2 = (Err Continue, s4)) as E4.
  { unfold deny_write. rewrite (se_bind_ok _ _ s2 s2 s2) by done. rewrite Hv2, Haw. reflexivity. }
  exists s4. split; [|split].
  - unfold turn. cbn [command]. unfold query_command. fold sql. rewrite (se_bind_ok _ _ s tt s1) by done.
    rewrite (se_bind_ok _ _ s1 tt s1) by (unfold meta_command; by rewrite Hmeta). cbv zeta. rewrite Hcl.
    rewrite (se_bind_ok _ _ _ _ _ E2). by rewrite (se_bind_err _ _ _ _ _ E4).
  - unfold state_view. cbn. by rewrite Hv1, Hv2.
  - cbn. unfold is_in_transaction. by rewrite Hv2, Hr, <- app_assoc.
Qed.
End Transactions.

(** ** Concrete sessions *)

Section DemoPgSessions.
#[local] Existing Instance ascii_table.
#[local] Existing Instance substring_engine.
#[local] Existing Instance demo_order.

(** A backend that answers every statement and follows BEGIN, COMMIT and ROLLBACK. *)
Record PgTestConn := { pt_id : Z; pt_tx : bool }.
Record PgTestWorld := { pt_next : Z; pt_log : list (Z * bytes) }.
Definition pg_test_query (c : PgTestConn) (text : bytes) (w : PgTestWorld) : result bytes BackendResponse * PgTestConn * PgTestWorld :=
  let tx := if str_contains text (bs "BEGIN") then true
            else if str_contains text (bs "COMMIT") || beq text (bs "ROLLBACK") then false else pt_tx c in
  (Ok {| br_bytes := frame (ch "C", bs "OK" ++ [0]) ++ frame (ch "Z", [if tx then ch "T" else ch "I"]);
         affected_rows := None; is_error := false; session_changes := []; write_gtid := None |},
   {| pt_id := pt_id c; pt_tx := tx |},
   {| pt_next := pt_next w; pt_log := pt_log w ++ [(pt_id c, text)] |}).
#[local] Instance pg_test_io : BackendIO PgTestWorld PgTestConn := {|
  connect_backend _ w := (Ok {| pt_id := pt_next w; pt_tx := false |}, {| pt_next := pt_next w + 1; pt_log := pt_log w |});
  execute_query := pg_test_query;
  send_raw := pg_test_query;
  send_raw_no_response c text w := let '(_, c', w') := pg_test_query c text w in (Ok tt, c', w');
  ping c w := (Ok tt, c, w);
  in_transaction := pt_tx;
  is_healthy _ := true;
  backend_conn_id c := Some (pt_id c);
  interrupted _ _ _ _ := None;
  now_ns _ := 0; unix_ms _ := 0; draw _ _ := 0; info_log _ := true |}.

Definition pg_cfg (allowed : list bytes) : PgServerConfig :=
  {| conn_id := 1; client_ip := bs "10.0.0.9:41000"; read_your_own_writes_ms := 0; slow_query_log_ms := 0;
     sqli_detector := None; query_whitelist := whitelist_new allowed; users_config := []; warn_log := true;
     debug_log := false; client_ok _ := true |}.
Definition pg_user (aw : bool) : PgClientSession :=
  {| pgs_in_transaction := false; pgs_username := bs "app"; pgs_database := bs "shop"; pgs_allow_writes := aw; pgs_app_name := [] |}.
Definition pg_env : Env (W := PgTestWorld) (C := PgTestConn) :=
  {| router := Router_new (with_options (test_config "p:5432" 1 false None) [] 4 None 3 1000 0 5000) [] [];
     world := {| pt_next := 1; pt_log := [] |}; tx_conn := None; stmt_conn := None; sticky_conn := None;
     sticky_idx := 0; shadow := My.new |}.
Definition pg_session (aw : bool) : PgState (W := PgTestWorld) (C := PgTestConn) :=
  initial pg_env (pg_user aw)
    {| metrics _ := 0; tracer := store_new; n1_store := ∅; copy_active := 0; events := [] |}.
Definition length_hash (s : bytes) : Z := Z.of_nat (length s).
Definition pg_turn (cmd : Command) (s : PgState (W := PgTestWorld) (C := PgTestConn)) := turn length_hash (pg_cfg []) cmd s.
Definition pg_after (cmds : list Command) := foldl (fun s cmd => snd (pg_turn cmd s)) (pg_session true) cmds.

Lemma pg_query_step (q : string) s : fst (pg_turn (Query (bs q)) s) = Ok tt ->
  pg_step length_hash (pg_cfg []) s (snd (pg_turn (Query (bs q)) s)).
Proof.
  intros H. apply (step_query _ _ (bs q)). unfold pg_turn in *. rewrite <- H. apply surjective_pairing.
Qed.


Lemma pg_no_stray_connection_witness :
  let s := pg_after [Query (bs "BEGIN"); Query (bs "COMMIT")] in tx_conn (env s) = None /\ pt_log (world (env s)) <> [].
Proof.
  cbv zeta. split; [|vm_compute; discriminate].
  apply (pg_no_stray_connection length_hash (pg_cfg []) pg_env (pg_user true)
    {| metrics _ := 0; tracer := store_new; n1_store := ∅; copy_active := 0; events := [] |}); [|by vm_compute].
  eapply steps_next; [apply (pg_query_step "BEGIN"); by vm_compute | apply steps_one, (pg_query_step "COMMIT"); by vm_compute].
Defined.

(** BEGIN, and then a Sync on its own. *)
Lemma pg_other_command_strands_transaction_witness :
  let s := pg_after [Query (bs "BEGIN")] in
  let s' := snd (pg_turn (Handshake.Other (frame (ch "S", []))) s) in
  tx_view s' = (Some {| pt_id := 1; pt_tx := true |}, false).
Proof.
  intros s s'.
  pose proof (pg_other_command_strands_transaction length_hash (pg_cfg []) s (frame (ch "S", [])) {| pt_id := 1; pt_tx := true |}) as H.
  destruct (on_backends (get_primary_for_database (Some (client_database s))) (env s)) as [[c1|e] e1] eqn:E1; [|by vm_compute in E1].
  destruct (ask_raw c1 (frame (ch "S", [])) e1) as [[[[r|e] c2]|e] e2] eqn:E2;
    [|apply (f_equal fst) in E2; apply (f_equal fst) in E1; vm_compute in E1; injection E1 as <-; vm_compute in E2; discriminate E2..].
  apply (H c1 e1 r c2 e2); [by vm_compute | reflexivity | exact E2 |].
  apply (f_equal fst) in E2, E1. vm_compute in E1. injection E1 as <-. vm_compute in E2. injection E2 as <- _. by vm_compute.
Defined.

Definition begin_pipeline : bytes :=
  PgWire.frames [(ch "P", [0] ++ bs "BEGIN" ++ [0; 0; 0]); (ch "B", [0; 0; 0; 0; 0; 0; 0; 0]); (ch "E", [0; 0; 0; 0; 0]); (ch "S", [])].

Lemma pg_extended_begin_splits_transaction_witness :
  tx_view (snd (pg_turn (Stmt begin_pipeline) (pg_session true))) = (None, true).
Proof.
  pose proof (pg_extended_begin_splits_transaction length_hash (pg_cfg []) (pg_session true) begin_pipeline) as H.
  destruct (route_stmt_pg_shadow_with_database begin_pipeline (Pg.scan_pg_pipeline begin_pipeline)
    (Pg.apply_scan (Pg.scan_pg_pipeline begin_pipeline) (pg_shadow (pg_session true))) false
    (client_database (pg_session true)) (env (pg_session true))) as [[r|e] e1] eqn:E; [|by apply (f_equal fst) in E; vm_compute in E].
  apply (H r e1); [reflexivity | exact E |]. apply (f_equal fst) in E. vm_compute in E. injection E as <-. by vm_compute.
Defined.
(** The insert that follows runs on another connection than the BEGIN. *)
Example pg_insert_runs_outside :
  pt_log (world (env (pg_after [Stmt begin_pipeline; Query (bs "INSERT INTO t VALUES (1)")]))) =
  [(1, begin_pipeline); (2, bs "INSERT INTO t VALUES (1)")].
Proof. by vm_compute. Qed.

Lemma pg_read_only_user_denied_witness :
  exists s', pg_turn (Query (bs "DELETE FROM t")) (pg_session false) = (Ok tt, s') /\ pt_log (world (env s')) = [].
Proof.
  destruct (pg_read_only_user_denied length_hash (pg_cfg []) (pg_session false) (bs "DELETE FROM t") ltac:(by vm_compute)
    ltac:(by vm_compute) eq_refl) as (s' & E & Hv & _).
  exists s'. split; [exact E|]. by injection Hv as -> _.
Defined.
(** The same statement as a pipeline is executed. *)
Example pg_read_only_user_writes_by_pipeline :
  pt_log (world (env (snd (pg_turn (Stmt (frame (ch "P", [0] ++ bs "DELETE FROM t" ++ [0; 0; 0]) ++ frame (ch "S", [])))
    (pg_session false))))) <> [].
Proof. by vm_compute. Qed.

(** A savepoint is rolled back: the session takes the transaction to be over and throws its
    connection, which is still inside, away. *)
Example pg_rollback_to_savepoint_ends :
  tx_view (pg_after [Query (bs "BEGIN"); Query (bs "ROLLBACK TO SAVEPOINT a")]) = (None, false).
Proof. by vm_compute. Qed.

(** A statement that the allow-list refuses and whose 120th byte is inside a character
    ends the task. *)
Example pg_refusal_kills_session :
  fst (turn length_hash (pg_cfg [bs "SELECT 1"]) (Query (bs "SELECT " ++ repeat 97 112 ++ [195; 169])) (pg_session true)) = Err Died.
Proof. by vm_compute. Qed.

(** The statements of a user's configuration run on a connection of the pool, which the
    session gives back before its first command. *)
Example pg_init_statements_lost :
  let u := {| name := bs "app"; uc_password := []; uc_allow_writes := true; uc_max_connections := 0;
              default_schema := bs "shop"; transaction_isolation := [] |} in
  let cfg := {| conn_id := 1; client_ip := []; read_your_own_writes_ms := 0; slow_query_log_ms := 0; sqli_detector := None;
                query_whitelist := whitelist_new []; users_config := [u]; warn_log := true; debug_log := false; client_ok _ := true |} in
  let s := snd (start_session cfg (pg_session true)) in
  pt_log (world (env s)) = [(1, bs "SET search_path TO shop")] /\ tx_conn (env s) = None /\ stmt_conn (env s) = None.
Proof. by vm_compute. Qed.
End DemoPgSessions.
