(* ===== verification/Analytics.v ===== *)
(** * Analytics (src/src/analytics/collector.rs, src/src/analytics/timeseries.rs,
    src/src/analytics/storage.rs, src/src/proxy/histogram.rs, src/src/proxy/heatmap.rs)

    The numbers the proxy keeps about the statements it runs.  Durations are numbers of
    nanoseconds, as [Duration] keeps them; a [f64] is a binary64 of the Standard Library's
    SpecFloat, so that rounding is the one of the machine.  The SQLite tables are finite
    maps by their primary key, each statement of SQL one operation. *)

From Stdlib Require Import SpecFloat Sorting.Sorted.
From S2P Require Import Prelude Bytes Fingerprint Tracer.

(** ** Floating point *)

Abbreviation f64 := spec_float.
Definition f_of_int (z : Z) : f64 := binary_normalize 53 1024 z 0 false.
Definition f_add : f64 -> f64 -> f64 := SFadd 53 1024.
Definition f_sub : f64 -> f64 -> f64 := SFsub 53 1024.
Definition f_mul : f64 -> f64 -> f64 := SFmul 53 1024.
Definition f_div : f64 -> f64 -> f64 := SFdiv 53 1024.
Definition f_sqrt : f64 -> f64 := SFsqrt 53 1024.
(** A literal: the binary64 nearest to [n / d]. *)
Definition f_lit (n d : Z) : f64 := f_div (f_of_int n) (f_of_int d).
(** The cast to u64 truncates and saturates. *)
Definition f_to_u64 (x : f64) : Z :=
  match x with
  | S754_finite false m e => Z.min (2 ^ 64 - 1) (Z.shiftl (Z.pos m) e)
  | S754_infinity false => 2 ^ 64 - 1
  | _ => 0
  end.
(** [Duration::as_secs_f64]. *)
Definition as_secs_f64 (d : Z) : f64 :=
  f_add (f_of_int (d / 10 ^ 9)) (f_div (f_of_int (d mod 10 ^ 9)) (f_of_int (10 ^ 9))).
Definition as_micros (d : Z) : Z := d / 1000.
Definition as_millis (d : Z) : Z := d / 10 ^ 6.
Definition DURATION_MAX : Z := (2 ^ 64 - 1) * 10 ^ 9 + 999999999.

(** ** Sorting: stable, the largest key first *)

Section Sort.
Context {A : Type} (key : A -> Z).
Fixpoint insert_desc (x : A) (l : list A) : list A :=
  match l with
  | [] => [x]
  | y :: l' => if key x <=? key y then y :: insert_desc x l' else x :: l
  end.
Definition sort_desc (l : list A) : list A := foldl (fun l x => insert_desc x l) [] l.

Lemma insert_desc_perm x l : insert_desc x l ≡ₚ x :: l.
Proof.
  induction l as [|y l IH]; cbn [insert_desc]; [done|]. destruct (_ <=? _); [|done].
  rewrite IH. apply Permutation_swap.
Qed.
Lemma sort_desc_perm l : sort_desc l ≡ₚ l.
Proof.
  unfold sort_desc. assert (forall acc, foldl (fun l x => insert_desc x l) acc l ≡ₚ acc ++ l) as H.
  { induction l as [|x l IH]; intros acc; cbn [foldl]; [by rewrite app_nil_r|].
    rewrite IH, insert_desc_perm. cbn [app]. apply Permutation_middle. }
  apply H.
Qed.
Lemma insert_desc_sorted x l :
  StronglySorted (fun a b => key b <= key a) l -> StronglySorted (fun a b => key b <= key a) (insert_desc x l).
Proof.
  induction 1 as [|y l Hs IH Hy]; cbn [insert_desc]; [repeat constructor|].
  destruct (key x <=? key y) eqn:E; bool_to_prop; constructor.
  - exact IH.
  - rewrite insert_desc_perm. by constructor.
  - by constructor.
  - constructor; [lia|]. eapply Forall_impl; [|exact Hy]. intros b. cbn beta. lia.
Qed.
Lemma sort_desc_sorted l : StronglySorted (fun a b => key b <= key a) (sort_desc l).
Proof.
  unfold sort_desc. assert (forall acc, StronglySorted (fun a b => key b <= key a) acc ->
    StronglySorted (fun a b => key b <= key a) (foldl (fun l x => insert_desc x l) acc l)) as H.
  { induction l as [|x l IH]; intros acc Ha; cbn [foldl]; [done|]. by apply IH, insert_desc_sorted. }
  apply H. constructor.
Qed.
Lemma sorted_filter p l :
  StronglySorted (fun a b => key b <= key a) l -> StronglySorted (fun a b => key b <= key a) (List.filter p l).
Proof.
  induction 1 as [|c l _ IH Hc]; cbn [List.filter]; [constructor|]. destruct (p c); [|done]. constructor; [done|].
  apply Forall_forall. intros x Hx. apply filter_In in Hx as [Hx _]. rewrite Forall_forall in Hc. by apply Hc.
Qed.
Lemma sorted_apart l1 l2 x y :
  StronglySorted (fun a b => key b <= key a) (l1 ++ l2) -> x ∈ l1 -> y ∈ l2 -> key y <= key x.
Proof.
  intros Hs Hx Hy. induction l1 as [|z l1 IH]; [by apply not_elem_of_nil in Hx|]. apply StronglySorted_inv in Hs as [Hs Hz].
  apply elem_of_cons in Hx as [->|Hx]; [|by apply IH]. rewrite Forall_forall in Hz. apply Hz, list_elem_of_In, elem_of_app. by right.
Qed.
Lemma filter_partition (p : A -> bool) l : List.filter p l ++ List.filter (fun c => negb (p c)) l ≡ₚ l.
Proof.
  induction l as [|c l IH]; cbn [List.filter]; [done|]. destruct (p c); cbn [negb app]; [by rewrite IH|].
  by rewrite <- Permutation_middle, IH.
Qed.
End Sort.

(** ** Sums over finite maps *)

Definition zsum (l : list Z) : Z := foldr Z.add 0 l.
Lemma zsum_app l1 l2 : zsum (l1 ++ l2) = zsum l1 + zsum l2.
Proof. induction l1 as [|x l1 IH]; cbn [zsum foldr app] in *; [done|]. unfold zsum in *. lia. Qed.
Lemma zsum_cons x l : zsum (x :: l) = x + zsum l.
Proof. done. Qed.
#[export] Instance zsum_proper : Proper (Permutation ==> eq) zsum.
Proof. intros l1 l2 H. induction H; unfold zsum in *; cbn [foldr]; lia. Qed.

Section MapSum.
Context {K A : Type} `{Countable K} (f : A -> Z).
Definition msum (m : gmap K A) : Z := zsum (map (fun kv => f kv.2) (map_to_list m)).
Lemma msum_empty : msum ∅ = 0.
Proof. unfold msum. by rewrite map_to_list_empty. Qed.
Lemma msum_new k x m : m !! k = None -> msum (<[k := x]> m) = f x + msum m.
Proof. intros Hk. unfold msum. by rewrite map_to_list_insert. Qed.
Lemma msum_delete k m : msum m = default 0 (f <$> m !! k) + msum (delete k m).
Proof.
  destruct (m !! k) as [x|] eqn:Hk; cbn [fmap option_fmap option_map default]; unfold msum.
  - by rewrite <- (map_to_list_delete m k x Hk).
  - by rewrite delete_id.
Qed.
Lemma msum_insert k x m : msum (<[k := x]> m) = msum m - default 0 (f <$> m !! k) + f x.
Proof.
  rewrite <- insert_delete_eq, msum_new by apply lookup_delete_eq. pose proof (msum_delete k m). lia.
Qed.
Lemma msum_iter `{!MapOrder K A} m : zsum (map f (map snd (iter m))) = msum m.
Proof. unfold msum. rewrite map_map. apply zsum_proper, Permutation_map, iter_perm. Qed.
Lemma msum_nonneg m : (forall k x, m !! k = Some x -> 0 <= f x) -> 0 <= msum m.
Proof.
  intros Hm. unfold msum. assert (Forall (fun kv => 0 <= f kv.2) (map_to_list m)) as Hall.
  { apply Forall_forall. intros [k x] Hx. apply list_elem_of_In, elem_of_map_to_list in Hx. eauto. }
  induction Hall as [|kv l Hk _ IH]; cbn [map]; [done|]. rewrite zsum_cons. lia.
Qed.
End MapSum.

(** ** The collector *)

Module Collector.

Record QueryStats := {
  hash : Z;
  fingerprint : bytes;
  count : Z;
  total_duration : Z;
  min_duration : Z;
  max_duration : Z;
  last_seen : Z;
  latencies : list Z;
  total_us : Z;
  min_us : Z;
  max_us : Z
}.
Definition new (now h : Z) (fp : bytes) : QueryStats :=
  {| hash := h; fingerprint := fp; count := 0; total_duration := 0; min_duration := DURATION_MAX; max_duration := 0;
     last_seen := now; latencies := []; total_us := 0; min_us := 2 ^ 64 - 1; max_us := 0 |}.

Definition record (now duration : Z) (s : QueryStats) : QueryStats :=
  let us := u64 (as_micros duration) in
  {| hash := hash s; fingerprint := fingerprint s;
     count := u64 (count s + 1);
     total_duration := total_duration s + duration;
     min_duration := Z.min (min_duration s) duration;
     max_duration := Z.max (max_duration s) duration;
     last_seen := now;
     latencies := (if (1000 <=? length (latencies s))%nat then drop 1 (latencies s) else latencies s) ++ [duration];
     total_us := u64_sat_add (total_us s) us;
     min_us := Z.min (min_us s) us;
     max_us := Z.max (max_us s) us |}.

(** The division by [count as u32] fails when the low 32 bits of the count are zero. *)
Definition avg_duration (s : QueryStats) : option Z :=
  if count s =? 0 then Some 0
  else if u32 (count s) =? 0 then None else Some (total_duration s / u32 (count s)).

Definition percentile (latencies : list Z) (pct : nat) : Z :=
  match latencies with
  | [] => 0
  | _ =>
      let sorted := sort_desc Z.opp latencies in
      let idx := Nat.min (length sorted * pct / 100) (length sorted - 1) in
      default 0 (sorted !! idx)
  end.
Definition p95 (s : QueryStats) : Z := percentile (latencies s) 95.
Definition p99 (s : QueryStats) : Z := percentile (latencies s) 99.

Record QueryEvent := { ev_sql : bytes; ev_duration : Z }.
(** The channel and the map; the aggregation task may have died in a log line. *)
Record Collector := {
  channel : list QueryEvent;
  stats : gmap Z QueryStats;
  receiving : bool
}.
Definition CHANNEL_CAP : Z := 10000.
Definition collector_new : Collector := {| channel := []; stats := ∅; receiving := true |}.

Definition try_record (sql : bytes) (duration : Z) (c : Collector) : Collector :=
  if receiving c && (Z.of_nat (length (channel c)) <? CHANNEL_CAP) then
    {| channel := channel c ++ [{| ev_sql := sql; ev_duration := duration |}]; stats := stats c; receiving := true |}
  else c.

Definition drain `{!MapOrder Z QueryStats} (c : Collector) : list QueryStats * Collector :=
  (map snd (iter (stats c)), {| channel := channel c; stats := ∅; receiving := receiving c |}).
Definition get_stats `{!MapOrder Z QueryStats} (c : Collector) : list QueryStats := map snd (iter (stats c)).
Definition get_slow_queries `{!MapOrder Z QueryStats} (limit : nat) (c : Collector) : list QueryStats :=
  take limit (sort_desc p95 (get_stats c)).

Section Aggregation.
Variable default_hash : bytes -> Z.
(** Is the level "info" logged? *)
Variable log_on : bool.
Variable slow_threshold : Z.

Definition add_event (now : Z) (e : QueryEvent) (m : gmap Z QueryStats) : gmap Z QueryStats :=
  let (fp, h) := fingerprint_with_hash default_hash (ev_sql e) in
  <[h := record now (ev_duration e) (default (new now h fp) (m !! h))]> m.
Definition logs_and_panics (e : QueryEvent) : bool :=
  (slow_threshold <=? ev_duration e) && log_on && slice_panics 200 (Fingerprint.fingerprint (ev_sql e)).

(** One round of the loop; the task that panics takes the receiver and the queue with it. *)
Definition aggregation_step (now : Z) (c : Collector) : Collector :=
  match channel c with
  | [] => c
  | e :: rest =>
      if logs_and_panics e then {| channel := []; stats := stats c; receiving := false |}
      else {| channel := rest; stats := add_event now e (stats c); receiving := true |}
  end.
End Aggregation.
End Collector.

(** ** The histogram *)

Module Histogram.

Definition BUCKET_BOUNDS : list f64 :=
  [f_lit 1 1000; f_lit 5 1000; f_lit 1 100; f_lit 25 1000; f_lit 5 100; f_lit 1 10; f_lit 25 100; f_lit 5 10;
   f_lit 1 1; f_lit 25 10; f_lit 5 1].
Definition N_BUCKETS : nat := 12.

Record QueryHistogram := { counts : list Z; sum_micros : Z; total : Z }.
Definition new : QueryHistogram := {| counts := repeat 0 N_BUCKETS; sum_micros := 0; total := 0 |}.

Definition count_bucket (secs : f64) (counts : list Z) (b : nat * f64) : list Z :=
  if SFleb secs (snd b) then alter (fun n => u64 (n + 1)) (fst b) counts else counts.
Definition record (secs : f64) (h : QueryHistogram) : QueryHistogram :=
  let finite := foldl (count_bucket secs) (counts h) (imap pair BUCKET_BOUNDS) in
  {| counts := alter (fun n => u64 (n + 1)) (N_BUCKETS - 1)%nat finite;
     sum_micros := u64 (sum_micros h + f_to_u64 (f_mul secs (f_of_int 1000000)));
     total := u64 (total h + 1) |}.
Definition snapshot (h : QueryHistogram) : list Z * f64 * Z :=
  (counts h, f_div (f_of_int (sum_micros h)) (f_of_int 1000000), total h).
End Histogram.

(** ** The heatmap *)

Module Heatmap.

Definition DAYS : nat := 7.
Definition HOURS : nat := 24.
Definition CELLS : nat := 168.
Definition SIGMA_K : f64 := f_of_int 2.

Record Cell := { queries : Z; slow : Z; duration_ms : Z }.
Definition cell_new : Cell := {| queries := 0; slow := 0; duration_ms := 0 |}.
Record HeatmapStore := { cells : list Cell; slow_threshold_ms : Z }.
Definition new (slow_threshold_ms : Z) : HeatmapStore :=
  {| cells := repeat cell_new CELLS; slow_threshold_ms := slow_threshold_ms |}.

(** The day of the week from Sunday and the hour of a Unix time. *)
Definition current_day_hour (secs : Z) : Z * Z :=
  let days_since_epoch := secs / 86400 in
  (u8 (u64 (days_since_epoch + 4) mod 7), u8 (secs mod 86400 / 3600)).

Definition count_in_cell (slow_threshold_ms ms : Z) (c : Cell) : Cell :=
  {| queries := u64 (queries c + 1);
     slow := if slow_threshold_ms <=? ms then u64 (slow c + 1) else slow c;
     duration_ms := u64 (duration_ms c + ms) |}.
(** No result: the index is out of range. *)
Definition record (secs ms : Z) (h : HeatmapStore) : option HeatmapStore :=
  let (day, hour) := current_day_hour secs in
  let idx := Z.to_nat (day * 24 + hour) in
  match cells h !! idx with
  | Some c => Some {| cells := <[idx := count_in_cell (slow_threshold_ms h) ms c]> (cells h);
                      slow_threshold_ms := slow_threshold_ms h |}
  | None => None
  end.

Record HeatCell := {
  hc_day : Z; hc_hour : Z; hc_queries : Z; hc_slow : Z; hc_avg_ms : f64; hc_is_anomaly : bool
}.
Record HeatmapSnapshot := {
  hs_cells : list HeatCell;
  hs_anomaly_threshold : f64;
  hs_total_queries : Z;
  hs_total_slow : Z;
  hs_peaks : list HeatCell
}.
Definition heat_cell (idx : nat) (c : Cell) : HeatCell :=
  {| hc_day := Z.of_nat idx / 24; hc_hour := Z.of_nat idx mod 24; hc_queries := queries c; hc_slow := slow c;
     hc_avg_ms := if 0 <? queries c then f_div (f_of_int (duration_ms c)) (f_of_int (queries c)) else f_of_int 0;
     hc_is_anomaly := false |}.
Definition sum_u64 (l : list Z) : Z := foldl (fun acc n => u64 (acc + n)) 0 l.
Definition f_sum (l : list f64) : f64 := foldl f_add (f_of_int 0) l.

Definition sigma_and_threshold (counts : list f64) : f64 * f64 :=
  let n := f_of_int (Z.of_nat (length counts)) in
  let mean := f_div (f_sum counts) n in
  let square v := let d := f_sub v mean in f_mul d d in
  let variance := f_div (f_sum (map square counts)) n in
  let sigma := f_sqrt variance in
  (sigma, f_add mean (f_mul SIGMA_K sigma)).
Definition flag (sigma threshold : f64) (c : HeatCell) : HeatCell :=
  if SFltb (f_of_int 0) sigma && SFltb threshold (f_of_int (hc_queries c)) then
    {| hc_day := hc_day c; hc_hour := hc_hour c; hc_queries := hc_queries c; hc_slow := hc_slow c;
       hc_avg_ms := hc_avg_ms c; hc_is_anomaly := true |}
  else c.
Definition snapshot (h : HeatmapStore) : HeatmapSnapshot :=
  let raw := imap heat_cell (cells h) in
  let active := length (List.filter (fun c => 0 <? hc_queries c) raw) in
  let (sigma, threshold) := sigma_and_threshold (map (fun c => f_of_int (hc_queries c)) raw) in
  let flagged := if (12 <=? active)%nat then map (flag sigma threshold) raw else raw in
  {| hs_cells := flagged; hs_anomaly_threshold := threshold;
     hs_total_queries := sum_u64 (map hc_queries raw); hs_total_slow := sum_u64 (map hc_slow raw);
     hs_peaks := take 3 (List.filter (fun c => 0 <? hc_queries c) (sort_desc hc_queries flagged)) |}.
End Heatmap.

(** ** Throughput and its time series *)

Module Throughput.

Record ThroughputCounters := { queries : Z; slow : Z; total_us : Z; max_us : Z; slow_threshold_us : Z }.
Record MinuteSnapshot := { m_queries : Z; m_slow : Z; m_total_us : Z; m_max_us : Z }.
Definition new (slow_threshold_ms : Z) : ThroughputCounters :=
  {| queries := 0; slow := 0; total_us := 0; max_us := 0;
     slow_threshold_us := Z.min (2 ^ 64 - 1) (slow_threshold_ms * 1000) |}.
Definition record (us : Z) (c : ThroughputCounters) : ThroughputCounters :=
  {| queries := u64 (queries c + 1); slow := if slow_threshold_us c <=? us then u64 (slow c + 1) else slow c;
     total_us := u64 (total_us c + us); max_us := Z.max (max_us c) us; slow_threshold_us := slow_threshold_us c |}.
Definition take_snapshot (c : ThroughputCounters) : MinuteSnapshot * ThroughputCounters :=
  ({| m_queries := queries c; m_slow := slow c; m_total_us := total_us c; m_max_us := max_us c |},
   {| queries := 0; slow := 0; total_us := 0; max_us := 0; slow_threshold_us := slow_threshold_us c |}).
End Throughput.

Module Timeseries.

Inductive Resolution := Minute | Hour | Day.
#[export] Instance resolution_eq : EqDecision Resolution.
Proof. solve_decision. Defined.
#[export] Instance resolution_countable : Countable Resolution.
Proof.
  refine (inj_countable' (fun r => match r with Minute => 0%nat | Hour => 1%nat | Day => 2%nat end)
    (fun n => match n with O => Minute | S O => Hour | _ => Day end) _). by intros [].
Defined.

Record Row := { queries : Z; slow_queries : Z; total_us : Z; max_us : Z }.
(** The table, by its primary key. *)
Abbreviation Table := (gmap (Z * Resolution) Row).

Definition add_row (r s : Row) : Row :=
  {| queries := queries r + queries s; slow_queries := slow_queries r + slow_queries s;
     total_us := total_us r + total_us s; max_us := Z.max (max_us r) (max_us s) |}.
Definition minute_row (snap : Throughput.MinuteSnapshot) : Row :=
  {| queries := i64 (Throughput.m_queries snap); slow_queries := i64 (Throughput.m_slow snap);
     total_us := i64 (Throughput.m_total_us snap); max_us := i64 (Throughput.m_max_us snap) |}.
(** INSERT ... ON CONFLICT DO UPDATE. *)
Definition record_minute (bucket : Z) (snap : Throughput.MinuteSnapshot) (t : Table) : Table :=
  <[(bucket, Minute) := match t !! (bucket, Minute) with
                        | Some r => add_row r (minute_row snap)
                        | None => minute_row snap
                        end]> t.

(** SELECT SUM(..), MAX(..) ... WHERE resolution = source GROUP BY (bucket / span) * span. *)
Definition group_key (span bucket : Z) : Z := Z.quot bucket span * span.
Definition add_to_group (source : Resolution) (span : Z) (key : Z * Resolution) (r : Row) (groups : gmap Z Row) : gmap Z Row :=
  if bool_decide (key.2 = source) then
    let b := group_key span key.1 in
    <[b := match groups !! b with Some g => add_row g r | None => r end]> groups
  else groups.
Definition grouped (source : Resolution) (span : Z) (t : Table) : gmap Z Row :=
  map_fold (add_to_group source span) ∅ t.
(** INSERT OR REPLACE. *)
Definition replace_rows (dest : Resolution) (groups : gmap Z Row) (t : Table) : Table :=
  map_fold (fun b r t => <[(b, dest) := r]> t) t groups.
Definition rollup_hourly (t : Table) : Table := replace_rows Hour (grouped Minute 3600 t) t.
Definition rollup_daily (t : Table) : Table := replace_rows Day (grouped Hour 86400 t) t.

Definition prune (now retention_days : Z) (t : Table) : Table :=
  let cutoff := now - retention_days * 86400 in
  filter (fun kr => ~ kr.1.1 < cutoff) t.

Record TsPoint := { bucket_unix : Z; pt_queries : Z; pt_slow_queries : Z; avg_us : f64; pt_max_us : Z }.
Definition point (b : Z) (r : Row) : TsPoint :=
  {| bucket_unix := b; pt_queries := queries r; pt_slow_queries := slow_queries r;
     avg_us := if 0 <? queries r then f_div (f_of_int (total_us r)) (f_of_int (queries r)) else f_of_int 0;
     pt_max_us := max_us r |}.
Definition select (res : Resolution) (t : Table) : list (Z * Row) :=
  omap (fun kr : Z * Resolution * Row => if bool_decide (kr.1.2 = res) then Some (kr.1.1, kr.2) else None) (map_to_list t).
Definition query (res : Resolution) (limit : nat) (t : Table) : list TsPoint :=
  rev (map (fun br => point br.1 br.2) (take limit (sort_desc fst (select res t)))).
Definition query_range (res : Resolution) (from_unix to_unix : Z) (limit : nat) (t : Table) : list TsPoint :=
  map (fun br => point br.1 br.2)
    (take limit (List.filter (fun br => (from_unix <=? br.1) && (br.1 <=? to_unix))
      (sort_desc (fun br => - br.1) (select res t)))).

(** One round of the background task: [now] is the Unix time, [mono] the clock that decides
    when a day has passed. *)
Record Loop := { throughput : Throughput.ThroughputCounters; table : Table; last_day : Z }.
Definition tick (retention_days now mono : Z) (l : Loop) : Loop :=
  let (snap, counters) := Throughput.take_snapshot (throughput l) in
  let t := rollup_daily (rollup_hourly (record_minute (Z.quot now 60 * 60) snap (table l))) in
  if 86400 * 10 ^ 9 <=? mono - last_day l
  then {| throughput := counters; table := prune now retention_days t; last_day := mono |}
  else {| throughput := counters; table := t; last_day := last_day l |}.
End Timeseries.

(** ** The stored statistics *)

Module Storage.

Record StoredQueryStats := {
  s_fingerprint : bytes; s_count : Z; s_total_us : Z; s_min_us : Z; s_max_us : Z; s_p95_us : Z; s_p99_us : Z; s_last_seen : Z
}.
(** The table, by fingerprint_hash. *)
Abbreviation StatsTable := (gmap Z StoredQueryStats).

Definition stored (s : Collector.QueryStats) : StoredQueryStats :=
  {| s_fingerprint := Collector.fingerprint s; s_count := i64 (Collector.count s);
     s_total_us := i64 (as_micros (Collector.total_duration s));
     s_min_us := i64 (as_micros (Collector.min_duration s)); s_max_us := i64 (as_micros (Collector.max_duration s));
     s_p95_us := i64 (as_micros (Collector.p95 s)); s_p99_us := i64 (as_micros (Collector.p99 s));
     s_last_seen := Collector.last_seen s |}.
Definition merge_stored (old new : StoredQueryStats) : StoredQueryStats :=
  {| s_fingerprint := s_fingerprint new; s_count := s_count old + s_count new; s_total_us := s_total_us old + s_total_us new;
     s_min_us := Z.min (s_min_us old) (s_min_us new); s_max_us := Z.max (s_max_us old) (s_max_us new);
     s_p95_us := s_p95_us new; s_p99_us := s_p99_us new; s_last_seen := s_last_seen new |}.
Definition flush_one (t : StatsTable) (s : Collector.QueryStats) : StatsTable :=
  let key := i64 (Collector.hash s) in
  <[key := match t !! key with Some old => merge_stored old (stored s) | None => stored s end]> t.
(** The statements of one transaction, numbered from [k]; [fails] says which calls of the
    database fail. *)
Fixpoint flush_rows (fails : nat -> bool) (k : nat) (stats : list Collector.QueryStats) (t : StatsTable) : option StatsTable :=
  match stats with
  | [] => Some t
  | s :: stats => if fails k then None else flush_rows fails (S k) stats (flush_one t s)
  end.
(** The begin of the transaction is call 0, preparing the statement call 1, the commit the
    last one.  A transaction that is not committed is rolled back. *)
Definition flush (fails : nat -> bool) (stats : list Collector.QueryStats) (t : StatsTable) : bool * StatsTable :=
  if fails 0%nat || fails 1%nat then (false, t)
  else match flush_rows fails 2 stats t with
       | Some t' => if fails (2 + length stats)%nat then (false, t) else (true, t')
       | None => (false, t)
       end.

(** Rows that tie come in the order the database finds them. *)
Definition get_top `{!MapOrder Z StoredQueryStats} (key : StoredQueryStats -> Z) (limit : nat) (t : StatsTable)
  : list (Z * StoredQueryStats) := take limit (sort_desc (fun kr => key kr.2) (iter t)).
Definition get_top_by_count `{!MapOrder Z StoredQueryStats} : nat -> StatsTable -> list (Z * StoredQueryStats) := get_top s_count.
Definition get_top_by_p95 `{!MapOrder Z StoredQueryStats} : nat -> StatsTable -> list (Z * StoredQueryStats) := get_top s_p95_us.
Definition load_total_query_count (t : StatsTable) : Z :=
  Z.max 0 (map_fold (fun _ r acc => s_count r + acc) 0 t).

(** One round of the flush task; an error is only logged. *)
Definition flush_tick `{!MapOrder Z Collector.QueryStats} (fails : nat -> bool) (c : Collector.Collector) (t : StatsTable)
  : Collector.Collector * StatsTable :=
  let (stats, c') := Collector.drain c in
  match stats with
  | [] => (c', t)
  | _ => (c', snd (flush fails stats t))
  end.
End Storage.

(** * What the numbers say *)

(** ** Percentiles *)

Fixpoint below (p : Z -> bool) (l : list Z) : Z :=
  match l with [] => 0 | x :: l' => (if p x then 1 else 0) + below p l' end.

Lemma below_app p l1 l2 : below p (l1 ++ l2) = below p l1 + below p l2.
Proof. induction l1 as [|x l1 IH]; cbn [below app]; lia. Qed.
Lemma below_all p l : Forall (fun x => p x = true) l -> below p l = Z.of_nat (length l).
Proof. induction 1 as [|x l Hx _ IH]; cbn [below length]; [done|]. rewrite Hx. lia. Qed.
Lemma below_none p l : Forall (fun x => p x = false) l -> below p l = 0.
Proof. induction 1 as [|x l Hx _ IH]; cbn [below]; [done|]. rewrite Hx. lia. Qed.
Lemma below_range p l : 0 <= below p l <= Z.of_nat (length l).
Proof. induction l as [|x l IH]; cbn [below length]; [lia|]. destruct (p x); lia. Qed.
#[export] Instance below_proper p : Proper (Permutation ==> eq) (below p).
Proof. intros l1 l2 H. induction H as [|x l1 l2 _ IH|x y l|l1 l2 l3 _ IH1 _ IH2]; cbn [below]; lia. Qed.

(** In a sorted list everything before a position is at most its element, everything
    behind it at least. *)
Lemma sorted_split (l : list Z) i x :
  StronglySorted (fun a b => Z.opp b <= Z.opp a) l -> l !! i = Some x ->
  Forall (fun y => y <= x) (take (S i) l) /\ Forall (fun y => x <= y) (drop i l).
Proof.
  intros Hs. revert i. induction Hs as [|y l Hs IH Hy]; intros i Hi; [done|].
  destruct i as [|i]; cbn [lookup list_lookup] in Hi.
  - injection Hi as ->. cbn [take drop]. rewrite take_0. split; [repeat constructor; lia|].
    constructor; [lia|]. eapply Forall_impl; [|exact Hy]. intros b. cbn beta. lia.
  - destruct (IH i Hi) as [IH1 IH2]. cbn [drop]. split; [|exact IH2].
    change (take (S (S i)) (y :: l)) with (y :: take (S i) l). constructor; [|exact IH1].
    apply list_elem_of_lookup_2, list_elem_of_In in Hi. rewrite Forall_forall in Hy. specialize (Hy x Hi). lia.
Qed.

(** The percentile of the samples is an order statistic: it is one of them, at least
    [pct] in a hundred (and at least one) are no larger, and no more than [pct] in a hundred
    are smaller. *)
Theorem percentile_order_statistic l pct :
  l <> [] -> (pct <= 99)%nat ->
  let p := Collector.percentile l pct in
  let n := Z.of_nat (length l) in
  p ∈ l /\ n * Z.of_nat pct < 100 * below (fun x => x <=? p) l /\
  100 * below (fun x => x <? p) l <= n * Z.of_nat pct.
Proof.
  intros Hl Hp p n.
  assert (p ∈ l /\ exists i, (i = length l * pct / 100)%nat /\ sort_desc Z.opp l !! i = Some p) as (Hin & i & Hi & Hip).
  { assert (0 < length l)%nat by (destruct l; [done | simpl; lia]).
    assert (length l * pct / 100 < length l)%nat by (apply Nat.Div0.div_lt_upper_bound; nia).
    pose proof (sort_desc_perm Z.opp l) as Hperm. pose proof (Permutation_length Hperm) as Hlen.
    assert (exists x, sort_desc Z.opp l !! (length l * pct / 100)%nat = Some x) as [x Hx]
      by (apply lookup_lt_is_Some; lia).
    assert (p = x) as ->.
    { unfold p, Collector.percentile. destruct l as [|y l']; [done|]. cbv zeta.
      rewrite Hlen, Nat.min_l by lia. by rewrite Hx. }
    split; [|eauto]. rewrite <- Hperm. by eapply list_elem_of_lookup_2. }
  subst n. split; [exact Hin|]. destruct (sorted_split _ i p (sort_desc_sorted Z.opp l) Hip) as [H1 H2].
  pose proof (Permutation_length (sort_desc_perm Z.opp l)) as Hlen. pose proof (lookup_lt_Some _ _ _ Hip) as Hlt.
  pose proof (Nat.div_mod_eq (length l * pct) 100) as Hdiv. pose proof (Nat.mod_upper_bound (length l * pct) 100) as Hmod.
  rewrite <- (below_proper _ _ _ (sort_desc_perm Z.opp l)), <- (below_proper _ _ _ (sort_desc_perm Z.opp l)).
  set (sl := sort_desc Z.opp l) in *. split.
  - rewrite <- (take_drop (S i) sl), below_app, (below_all _ (take (S i) sl)).
    + pose proof (below_range (fun x => x <=? p) (drop (S i) sl)). rewrite length_take. lia.
    + eapply Forall_impl; [|exact H1]. intros y Hy. by apply Z.leb_le.
  - rewrite <- (take_drop i sl) at 1. rewrite below_app, (below_none _ (drop i sl)).
    + pose proof (below_range (fun x => x <? p) (take i sl)) as Hr. rewrite length_take in Hr. lia.
    + eapply Forall_impl; [|exact H2]. intros y Hy. by apply Z.ltb_ge.
Qed.

Lemma percentile_order_statistic_witness : Collector.percentile [30; 10; 20; 40] 95 ∈ [30; 10; 20; 40].
Proof. apply (percentile_order_statistic [30; 10; 20; 40] 95); [done | lia]. Defined.

(** ** From the sessions to the database *)

Section Pipeline.
Import Collector Storage.
Context `{MO : !MapOrder Z Collector.QueryStats}.
Variable default_hash : bytes -> Z.
Variable log_on : bool.
Variable slow_threshold : Z.

(** What happens to the statistics: a session reports a statement, the task takes one from
    the channel, the other task writes the sums to the database, whose calls may fail. *)
Inductive stats_op := Report (sql : bytes) (duration : Z) | Aggregate (now : Z) | Flush (fails : nat -> bool).
Definition accepts (c : Collector) : bool := receiving c && (Z.of_nat (length (channel c)) <? CHANNEL_CAP).

(** The collector, the table, the number of reports that were not dropped, and the number of
    those in the sums of flushes that failed. *)
Definition stats_step (s : Collector * StatsTable * Z * Z) (op : stats_op) : Collector * StatsTable * Z * Z :=
  let '(c, t, n, failed) := s in
  match op with
  | Report sql d => (try_record sql d c, t, if accepts c then n + 1 else n, failed)
  | Aggregate now => (aggregation_step default_hash log_on slow_threshold now c, t, n, failed)
  | Flush fails => (flush_tick fails c t, n,
      if fst (flush fails (map snd (iter (stats c))) t) then failed else failed + msum count (stats c))
  end.
Definition run_stats (ops : list stats_op) : Collector * StatsTable * Z * Z := foldl stats_step (collector_new, ∅, 0, 0) ops.

(** All reports are somewhere, or their flush failed, or the task has died. *)
Definition accounted (s : Collector * StatsTable * Z * Z) : Prop :=
  let '(c, t, n, failed) := s in
  Z.of_nat (length (channel c)) <= CHANNEL_CAP /\ 0 <= failed /\ (receiving c = false -> channel c = []) /\
  (forall k r, stats c !! k = Some r -> 0 <= count r) /\ (forall k r, t !! k = Some r -> 0 <= s_count r) /\
  let all := Z.of_nat (length (channel c)) + msum count (stats c) + msum s_count t + failed in
  all <= n /\ (receiving c = true -> all = n).

Lemma flush_rows_counts fails l : forall k t t', Forall (fun r => 0 <= count r < 2 ^ 63) l ->
  (forall k r, t !! k = Some r -> 0 <= s_count r) -> flush_rows fails k l t = Some t' ->
  (forall k r, t' !! k = Some r -> 0 <= s_count r) /\ msum s_count t' = msum s_count t + zsum (map count l).
Proof.
  induction l as [|r l IH]; intros k t t' Hl Ht H; cbn [flush_rows map] in *; [injection H as <-; split; [done | cbn; lia]|].
  destruct (fails k); [done|]. apply Forall_cons_iff in Hl as [Hr Hl].
  assert (i64 (count r) = count r) as Hi by (unfold i64; rewrite Z.mod_small; lia).
  apply IH in H as [IH1 IH2]; [|done|].
  - split; [exact IH1|]. rewrite IH2, zsum_cons. unfold flush_one. rewrite msum_insert.
    destruct (t !! i64 (hash r)) as [old|] eqn:E; rewrite ?E; cbn; rewrite Hi; lia.
  - intros j x. unfold flush_one. rewrite lookup_insert. case_decide; [|apply Ht].
    intros [= <-]. destruct (t !! _) eqn:Hk; cbn [s_count merge_stored stored]; rewrite Hi; [|lia].
    specialize (Ht _ _ Hk). lia.
Qed.
(** A flush writes all its sums or none. *)
Lemma flush_counts fails l t : Forall (fun r => 0 <= count r < 2 ^ 63) l -> (forall k r, t !! k = Some r -> 0 <= s_count r) ->
  let (ok, t') := flush fails l t in
  (forall k r, t' !! k = Some r -> 0 <= s_count r) /\
  msum s_count t' = msum s_count t + (if ok then zsum (map count l) else 0).
Proof.
  intros Hl Ht. unfold flush. destruct (_ || _); [split; [done | lia]|].
  destruct (flush_rows fails 2 l t) as [t'|] eqn:E; [|split; [done | lia]].
  destruct (fails _); [split; [done | lia]|]. by eapply flush_rows_counts.
Qed.
Lemma flush_nothing fails t : snd (flush fails [] t) = t.
Proof. unfold flush. cbn. by repeat case_match. Qed.

Lemma msum_ge {K A} `{Countable K} (f : A -> Z) (m : gmap K A) k x :
  (forall k x, m !! k = Some x -> 0 <= f x) -> m !! k = Some x -> f x <= msum f m.
Proof.
  intros Hm Hk. rewrite (msum_delete f k), Hk. cbn [fmap option_fmap option_map from_option default id]. unfold id.
  assert (0 <= msum f (delete k m)); [|lia]. apply msum_nonneg. intros k' x'.
  rewrite lookup_delete. case_decide; [done|]. apply Hm.
Qed.

Lemma add_event_counts now e m : (forall k r, m !! k = Some r -> 0 <= count r) -> msum count m + 1 < 2 ^ 64 ->
  (forall k r, add_event default_hash now e m !! k = Some r -> 0 <= count r) /\
  msum count (add_event default_hash now e m) = msum count m + 1.
Proof.
  intros Hm Hn. unfold add_event. destruct (fingerprint_with_hash _ _) as [fp h].
  set (old := default (new now h fp) (m !! h)).
  assert (0 <= count old /\ count old = default 0 (count <$> m !! h) /\ count old + 1 < 2 ^ 64) as (H0 & H1 & H2).
  { unfold old. destruct (m !! h) as [r|] eqn:Hr; cbn; [|lia]. pose proof (msum_ge _ _ _ _ Hm Hr). specialize (Hm _ _ Hr). lia. }
  assert (count (record now (ev_duration e) old) = count old + 1) as Hc
    by (cbn [record count]; unfold u64; apply wrap_small; unfold in_width; lia).
  split.
  - intros k r. rewrite lookup_insert. case_decide; [|apply Hm]. intros [= <-]. lia.
  - rewrite msum_insert, Hc. lia.
Qed.

Lemma stats_step_accounted op s :
  let n' := snd (fst (stats_step s op)) in
  snd (fst s) <= n' /\ (n' < 2 ^ 63 -> accounted s -> accounted (stats_step s op)).
Proof.
  destruct s as [[[c t] n] failed]. destruct op as [sql d|now|fails]; cbn [stats_step snd fst].
  - split; [destruct (accepts c); lia|]. intros Hn (Hcap & Hf & Hd & Hs & Ht & Hle & Heq).
    unfold try_record. change (receiving c && _) with (accepts c). destruct (accepts c) eqn:Ha; [|done].
    unfold accepts in Ha. apply andb_prop in Ha as [Hr Hc]. apply Z.ltb_lt in Hc. specialize (Heq Hr).
    cbn [accounted channel stats receiving]. rewrite length_app. cbn [length]. repeat split; try done; lia.
  - split; [lia|]. intros Hn (Hcap & Hf & Hd & Hs & Ht & Hle & Heq). unfold aggregation_step.
    destruct (channel c) as [|e rest] eqn:Ech; [unfold accounted; rewrite Ech; by repeat split|]. cbn [length] in *.
    pose proof (msum_nonneg _ _ Hs) as H1. pose proof (msum_nonneg _ _ Ht) as H2.
    destruct (receiving c) eqn:Er; [|by specialize (Hd eq_refl)]. specialize (Heq eq_refl).
    destruct (logs_and_panics _ _ _); cbn [accounted channel stats receiving length]; [repeat split; try done; lia|].
    destruct (add_event_counts now e (stats c) Hs ltac:(lia)) as [H3 H4]. repeat split; try done; lia.
  - split; [lia|]. intros Hn (Hcap & Hf & Hd & Hs & Ht & Hle & Heq). unfold flush_tick, drain.
    pose proof (msum_nonneg _ _ Hs) as H1. pose proof (msum_nonneg _ _ Ht) as H2.
    assert (Forall (fun r => 0 <= count r < 2 ^ 63) (map snd (iter (stats c)))) as Hl.
    { apply Forall_forall. intros r Hr. apply in_map_iff in Hr as [[k r'] [<- Hr]].
      apply list_elem_of_In, iter_lookup in Hr. pose proof (msum_ge _ _ _ _ Hs Hr). specialize (Hs _ _ Hr). cbn [snd]. lia. }
    pose proof (flush_counts fails _ t Hl Ht) as Hfl. rewrite msum_iter in Hfl.
    assert (forall c' : Collector, match map snd (iter (stats c)) with [] => (c', t) | _ => (c', snd (flush fails (map snd (iter (stats c))) t)) end
      = (c', snd (flush fails (map snd (iter (stats c))) t))) as -> by (intros c'; destruct (map _ _); [by rewrite flush_nothing | done]).
    destruct (flush fails _ t) as [ok t']. destruct Hfl as [H3 H4]. cbn [accounted channel stats receiving fst snd]. rewrite msum_empty.
    split_and!; [done | by destruct ok; lia | done | by intros k r; rewrite lookup_empty | done | destruct ok; lia
                | intros Hr; specialize (Heq Hr); destruct ok; lia].
Qed.

Lemma run_accounted ops s : let s' := foldl stats_step s ops in
  snd (fst s) <= snd (fst s') /\ (snd (fst s') < 2 ^ 63 -> accounted s -> accounted s').
Proof.
  revert s. induction ops as [|op ops IH]; intros s; cbn [foldl]; [by split|].
  destruct (stats_step_accounted op s) as [H1 H2], (IH (stats_step s op)) as [H3 H4]. cbv zeta in *.
  split; [lia|]. intros Hn Ha. apply H4; [done|]. apply H2; [lia | done].
Qed.

(** Flushes that the database lets through. *)
Definition goes_through (op : stats_op) : Prop := match op with Flush fails => forall k, fails k = false | _ => True end.
Lemma flush_through fails stats t : (forall k, fails k = false) -> fst (flush fails stats t) = true.
Proof.
  intros H. unfold flush. rewrite !H. cbn [orb].
  assert (forall k t, is_Some (flush_rows fails k stats t)) as Hs.
  { induction stats as [|s stats IH]; intros k t0; cbn [flush_rows]; [done|]. by rewrite H. }
  by destruct (Hs 2%nat t) as [t' ->].
Qed.
Lemma run_through ops s : Forall goes_through ops -> snd (foldl stats_step s ops) = snd s.
Proof.
  intros H. revert s. induction H as [|op ops Ho _ IH]; intros s; cbn [foldl]; [done|]. rewrite IH.
  destruct s as [[[c t] n] failed], op; cbn [stats_step snd]; [done..|]. by rewrite flush_through.
Qed.

(** C35: No statement is counted twice and it is known which are lost: whatever reports, rounds
    of the aggregation and flushes there have been, the reports that the channel took are in
    the channel, in the collected statistics, in the database, or were in the sums of a flush
    that failed, of which nothing is written; only the death of the aggregation task loses
    others, and while the database fails no flush none are lost that way. *)
Theorem statistics_conserved ops :
  let '(c, t, n, failed) := run_stats ops in
  n < 2 ^ 63 ->
  let all := Z.of_nat (length (channel c)) + msum count (stats c) + load_total_query_count t + failed in
  Z.of_nat (length (channel c)) <= CHANNEL_CAP /\ 0 <= failed /\ all <= n /\ (receiving c = true -> all = n) /\
  (Forall goes_through ops -> failed = 0).
Proof.
  pose proof (run_accounted ops (collector_new, ∅, 0, 0)) as [_ H]. pose proof (run_through ops (collector_new, ∅, 0, 0)) as Hg.
  fold (run_stats ops) in H, Hg. destruct (run_stats ops) as [[[c t] n] failed] eqn:Er. cbn [snd fst] in H, Hg. intros Hn.
  destruct (H Hn) as (Hcap & Hf & _ & _ & Ht & Hle & Heq).
  - cbn [accounted collector_new channel stats receiving length]. rewrite !msum_empty.
    split_and!; [by vm_compute | done | done | by intros k r; rewrite lookup_empty | by intros k r; rewrite lookup_empty | done | done].
  - assert (load_total_query_count t = msum s_count t) as Hload; [|cbv zeta; rewrite Hload; split_and!; done].
    unfold load_total_query_count. rewrite map_fold_foldr.
    assert (forall l, foldr (uncurry (fun (_ : Z) r acc => s_count r + acc)) 0 l = zsum (map (fun kv => s_count kv.2) l)) as Hfold
      by (induction l as [|[k r] l IH]; cbn; [done | unfold zsum in *; cbn; lia]).
    rewrite Hfold. apply Z.max_r, msum_nonneg, Ht.
Qed.

(** A flush that the database refuses loses what it had taken out of memory. *)
Theorem failed_flush_loses_statistics fails c t n failed : fails 0%nat = true ->
  let '(c', t', n', failed') := stats_step (c, t, n, failed) (Flush fails) in
  stats c' = ∅ /\ t' = t /\ n' = n /\ failed' = failed + msum count (stats c).
Proof.
  intros Hf. cbn [stats_step]. unfold flush_tick, drain, flush. rewrite Hf. cbn [orb fst snd].
  destruct (map _ _); by split_and!.
Qed.

(** A slow statement whose fingerprint has a character across byte 200 ends the statistics:
    the task dies in its log line, and no report is ever counted again. *)
Theorem long_slow_statement_ends_statistics now e rest c t n failed ops :
  channel c = e :: rest -> logs_and_panics log_on slow_threshold e = true ->
  let '(c', _, n', _) := foldl stats_step (c, t, n, failed) (Aggregate now :: ops) in receiving c' = false /\ n' = n.
Proof.
  intros Hc Hp. cbn [foldl stats_step]. unfold aggregation_step at 1. rewrite Hc, Hp.
  assert (forall c t n failed, receiving c = false -> channel c = [] ->
    let '(c', _, n', _) := foldl stats_step (c, t, n, failed) ops in receiving c' = false /\ n' = n) as H; [|by apply H].
  clear. induction ops as [|op ops IH]; intros c t n failed Hr Hc; cbn [foldl]; [done|].
  destruct op as [sql d|now|fails]; cbn [stats_step].
  - unfold try_record, accepts. rewrite Hr. by apply IH.
  - unfold aggregation_step. rewrite Hc. by apply IH.
  - unfold flush_tick, drain. destruct (map _ _); by apply IH.
Qed.
End Pipeline.

Section PipelineWitness.
#[local] Instance stats_order : MapOrder Z Collector.QueryStats := list_order.
Definition demo_ops : list stats_op :=
  [Report (bs "SELECT 1") 5; Report (bs "SELECT 2") 200; Aggregate 0; Flush (fun k => (k =? 2)%nat); Aggregate 0; Flush (fun _ => false)].
Lemma statistics_conserved_witness :
  let s := run_stats (fun _ => 7) true 100 demo_ops in
  Z.of_nat (length (Collector.channel s.1.1.1)) + msum Collector.count (Collector.stats s.1.1.1)
    + Storage.load_total_query_count s.1.1.2 + s.2 = 2 /\ s.2 = 1.
Proof.
  pose proof (statistics_conserved (fun _ => 7) true 100 demo_ops) as H.
  assert (snd (run_stats (fun _ => 7) true 100 demo_ops) = 1) as Ef by (by vm_compute).
  assert (snd (fst (run_stats (fun _ => 7) true 100 demo_ops)) = 2) as En by (by vm_compute).
  assert (Collector.receiving (run_stats (fun _ => 7) true 100 demo_ops).1.1.1 = true) as Er by (by vm_compute).
  cbv zeta. destruct (run_stats _ _ _ _) as [[[c t] n] failed]. cbn [fst snd] in En, Er, Ef. subst n failed.
  destruct (H ltac:(done)) as (_ & _ & _ & Ha & _). split; [by apply Ha | done].
Defined.

(** Two hundred bytes of which the last is inside a character. *)
Definition killer : bytes := repeat 97 199 ++ [195; 169].
Lemma long_slow_statement_ends_statistics_witness :
  let s := foldl (stats_step (fun _ => 7) true 100)
    ({| Collector.channel := [{| Collector.ev_sql := killer; Collector.ev_duration := 100 |}]; Collector.stats := ∅;
        Collector.receiving := true |}, ∅, 1, 0) [Aggregate 0; Report (bs "SELECT 1") 5; Aggregate 1] in
  Collector.receiving s.1.1.1 = false.
Proof.
  pose proof (long_slow_statement_ends_statistics (fun _ => 7) true 100 0 {| Collector.ev_sql := killer; Collector.ev_duration := 100 |} []
    {| Collector.channel := [{| Collector.ev_sql := killer; Collector.ev_duration := 100 |}]; Collector.stats := ∅;
        Collector.receiving := true |} ∅ 1 0 [Report (bs "SELECT 1") 5; Aggregate 1] eq_refl ltac:(by vm_compute)) as H.
  cbv zeta. destruct (foldl _ _ _) as [[[c t] n] failed]. apply H.
Defined.
End PipelineWitness.

(** ** The histogram *)

Module HistogramProps.
Import Histogram.

Lemma leb_later x m1 e1 m2 e2 : SFleb x (S754_finite false m1 e1) = true ->
  (e1 < e2 \/ e1 = e2 /\ (m1 <= m2)%positive) -> SFleb x (S754_finite false m2 e2) = true.
Proof.
  unfold SFleb. intros H Hb. destruct x as [s|s| |s m e]; cbn [SFcompare] in *; [done | by destruct s | done|].
  destruct s; [done|]. destruct (e ?= e1) eqn:He; try done.
  - apply Z.compare_eq in He as ->. destruct Hb as [Hb|[<- Hb]].
    + by rewrite (proj2 (Z.compare_lt_iff _ _) Hb).
    + rewrite Z.compare_refl in *. change (Pos.compare_cont Eq m m1) with (m ?= m1)%positive in H.
      change (Pos.compare_cont Eq m m2) with (m ?= m2)%positive.
      destruct (m ?= m2)%positive eqn:E; try done. exfalso. apply Pos.compare_gt_iff in E.
      assert ((m ?= m1)%positive = Gt) as E1 by (apply Pos.compare_gt_iff; lia). by rewrite E1 in H.
  - change (e < e1) in He. assert (e < e2) as Hlt by (destruct Hb as [Hb|[<- _]]; lia).
    by rewrite (proj2 (Z.compare_lt_iff e e2) Hlt).
Qed.

(** The bounds grow. *)
Lemma bounds_grow x i b b' : BUCKET_BOUNDS !! i = Some b -> BUCKET_BOUNDS !! S i = Some b' ->
  SFleb x b = true -> SFleb x b' = true.
Proof.
  assert (exists l, BUCKET_BOUNDS = l /\ l = ltac:(let l := eval vm_compute in BUCKET_BOUNDS in exact l)) as (l & -> & ->)
    by (eexists; split; [|reflexivity]; by vm_compute).
  intros Hb Hb'. do 11 (destruct i as [|i]; [cbn in Hb, Hb'; first [done | injection Hb as <-; injection Hb' as <-;
    intros H; eapply leb_later; [exact H | lia]]|]). done.
Qed.

Fixpoint observed (p : f64 -> bool) (l : list f64) : Z :=
  match l with [] => 0 | x :: l' => (if p x then 1 else 0) + observed p l' end.
Lemma observed_app p l1 l2 : observed p (l1 ++ l2) = observed p l1 + observed p l2.
Proof. induction l1 as [|x l1 IH]; cbn [observed app]; lia. Qed.
Lemma observed_range p l : 0 <= observed p l <= Z.of_nat (length l).
Proof. induction l as [|x l IH]; cbn [observed length]; [lia|]. destruct (p x); lia. Qed.

(** The bucket with index [i], as a predicate of a duration. *)
Definition in_bucket (i : nat) (x : f64) : bool :=
  match BUCKET_BOUNDS !! i with Some b => SFleb x b | None => true end.

Lemma count_bucket_lookup secs counts i b j :
  count_bucket secs counts (i, b) !! j =
  if bool_decide (i = j) && SFleb secs b then (fun n => u64 (n + 1)) <$> counts !! j else counts !! j.
Proof.
  unfold count_bucket. cbn [fst snd]. destruct (SFleb secs b); [|by rewrite andb_false_r].
  rewrite andb_true_r. case_bool_decide as Hij.
  - subst j. by rewrite list_lookup_alter_eq.
  - by rewrite list_lookup_alter_ne.
Qed.

Lemma count_buckets_lookup secs bounds start counts j :
  foldl (count_bucket secs) counts (imap (fun i b => (start + i, b)%nat) bounds) !! j =
  if bool_decide (start <= j)%nat && match bounds !! (j - start)%nat with Some b => SFleb secs b | None => false end
  then (fun n => u64 (n + 1)) <$> counts !! j else counts !! j.
Proof.
  revert start counts. induction bounds as [|b bounds IH]; intros start counts; cbn [imap foldl].
  - by rewrite andb_false_r.
  - rewrite Nat.add_0_r.
    assert (imap ((fun i b => (start + i, b)%nat) ∘ S) bounds = imap (fun i b => (S start + i, b)%nat) bounds) as ->
      by (apply imap_ext; intros i x _; cbn; f_equal; lia).
    rewrite IH, count_bucket_lookup. destruct (decide (start = j)) as [<-|Hne].
    + rewrite Nat.sub_diag, !(bool_decide_eq_true_2 (_ = _)), (bool_decide_eq_false_2 (S _ <= _)%nat), (bool_decide_eq_true_2 (_ <= _)%nat) by lia.
      by cbn [andb lookup list_lookup].
    + rewrite (bool_decide_eq_false_2 (_ = _)) by done. cbn [andb]. destruct (decide (start <= j)%nat) as [Hle|Hle].
      * rewrite !bool_decide_eq_true_2 by lia. replace (j - start)%nat with (S (j - S start)) by lia. done.
      * by rewrite !bool_decide_eq_false_2 by lia.
Qed.

Lemma record_counts secs h i c : (i < N_BUCKETS)%nat -> length (counts h) = N_BUCKETS -> counts h !! i = Some c ->
  counts (record secs h) !! i = Some (if in_bucket i secs then u64 (c + 1) else c).
Proof.
  intros Hi Hl Hc. unfold record. cbn [counts].
  change (imap pair BUCKET_BOUNDS) with (imap (fun i b => (0 + i, b)%nat) BUCKET_BOUNDS). unfold in_bucket.
  destruct (decide (i = N_BUCKETS - 1)%nat) as [->|Hne].
  - rewrite list_lookup_alter_eq, count_buckets_lookup. cbn [bool_decide andb].
    change (BUCKET_BOUNDS !! (N_BUCKETS - 1 - 0)%nat) with (@None f64). rewrite andb_false_r, Hc. done.
  - rewrite list_lookup_alter_ne by done. rewrite count_buckets_lookup, Nat.sub_0_r, bool_decide_eq_true_2 by lia. cbn [andb].
    unfold N_BUCKETS in *. assert (is_Some (BUCKET_BOUNDS !! i)) as [b Hb] by (apply lookup_lt_is_Some; cbn; lia).
    rewrite Hb, Hc. by destruct (SFleb secs b).
Qed.

Definition record_all (xs : list f64) : QueryHistogram := foldl (fun h x => record x h) new xs.

Lemma record_all_counts xs : Z.of_nat (length xs) < 2 ^ 64 ->
  length (counts (record_all xs)) = N_BUCKETS /\ total (record_all xs) = Z.of_nat (length xs) /\
  forall i, (i < N_BUCKETS)%nat -> counts (record_all xs) !! i = Some (observed (in_bucket i) xs).
Proof.
  induction xs as [|x xs IH] using rev_ind; intros Hl.
  - split_and!; [done | done|]. intros i Hi. cbn [observed]. unfold N_BUCKETS in Hi.
    do 12 (destruct i as [|i]; [done|]). lia.
  - unfold record_all. rewrite length_app in *. cbn [length] in *. destruct IH as (IH1 & IH2 & IH3); [lia|].
    rewrite foldl_app. cbn [foldl]. fold (record_all xs). split_and!.
    + unfold record. cbn [counts]. rewrite length_alter. rewrite <- IH1. generalize (counts (record_all xs)).
      induction (imap pair BUCKET_BOUNDS) as [|b bs IHb]; intros l; cbn [foldl]; [done|].
      rewrite IHb. unfold count_bucket. destruct (SFleb _ _); [apply length_alter | done].
    + cbn [total record]. rewrite IH2. unfold u64. rewrite wrap_small; unfold in_width; lia.
    + intros i Hi. rewrite (record_counts x _ i _ Hi IH1 (IH3 i Hi)), observed_app. f_equal. cbn [observed].
      pose proof (observed_range (in_bucket i) xs). destruct (in_bucket i x); [|lia].
      unfold u64. rewrite wrap_small; unfold in_width; lia.
Qed.

Lemma in_bucket_grows i x : in_bucket i x = true -> in_bucket (S i) x = true.
Proof.
  unfold in_bucket. destruct (BUCKET_BOUNDS !! S i) as [b'|] eqn:E'; [|done].
  assert (is_Some (BUCKET_BOUNDS !! i)) as [b Hb] by (apply lookup_lt_is_Some; apply lookup_lt_Some in E'; lia).
  rewrite Hb. by eapply bounds_grow.
Qed.

(** The buckets are what Prometheus expects: bucket by bucket the number of durations that
    are at most its bound, growing from bucket to bucket up to the number of all. *)
Theorem histogram_cumulative xs : Z.of_nat (length xs) < 2 ^ 64 ->
  let '(counts, _, count) := snapshot (record_all xs) in
  count = Z.of_nat (length xs) /\ counts !! 11%nat = Some count /\
  (forall i b, BUCKET_BOUNDS !! i = Some b -> counts !! i = Some (observed (fun x => SFleb x b) xs)) /\
  (forall i c c', counts !! i = Some c -> counts !! S i = Some c' -> c <= c').
Proof.
  intros Hl. destruct (record_all_counts xs Hl) as (H1 & H2 & H3). unfold snapshot.
  split_and!; [done | | |].
  - rewrite H3, H2 by (unfold N_BUCKETS; lia). f_equal. clear. induction xs as [|x xs IH]; cbn [observed length]; [done|].
    rewrite IH. change (in_bucket 11 x) with true. lia.
  - intros i b Hb. pose proof (lookup_lt_Some _ _ _ Hb) as Hi. rewrite H3 by (unfold N_BUCKETS; cbn in Hi; lia).
    f_equal. clear -Hb. induction xs as [|x xs IH]; cbn [observed]; [done|]. rewrite IH. unfold in_bucket at 1. by rewrite Hb.
  - intros i c c' Hc Hc'. pose proof (lookup_lt_Some _ _ _ Hc') as Hi. rewrite H1 in Hi. rewrite H3 in Hc, Hc' by lia.
    injection Hc as <-. injection Hc' as <-. clear. induction xs as [|x xs IH]; cbn [observed]; [lia|].
    pose proof (in_bucket_grows i x) as Hx. destruct (in_bucket i x); [rewrite Hx by done; lia|]. destruct (in_bucket (S i) x); lia.
Qed.

(** Half a millisecond, exactly a millisecond, seven seconds. *)
Lemma histogram_cumulative_witness :
  snapshot (record_all (map as_secs_f64 [500000; 1000000; 7 * 10 ^ 9])) =
    ([2; 2; 2; 2; 2; 2; 2; 2; 2; 2; 2; 3], f_div (f_of_int 7001500) (f_of_int 1000000), 3) /\
  snd (snapshot (record_all (map as_secs_f64 [500000; 1000000; 7 * 10 ^ 9]))) = 3.
Proof.
  pose proof (histogram_cumulative (map as_secs_f64 [500000; 1000000; 7 * 10 ^ 9]) ltac:(by vm_compute)) as H.
  split; [by vm_compute|]. destruct (snapshot _) as [[c s] n]. apply H.
Defined.

(** The sum of the durations loses a microsecond here and there: the product is rounded,
    and then cut off. *)
Example a_microsecond_is_lost : sum_micros (record (as_secs_f64 249000) new) = 248.
Proof. by vm_compute. Qed.
End HistogramProps.

(** ** The heatmap *)

Module HeatmapProps.
Import Heatmap.

Lemma day_hour_range secs : 0 <= secs < 2 ^ 64 ->
  let (day, hour) := current_day_hour secs in 0 <= day < 7 /\ 0 <= hour < 24.
Proof.
  intros Hs. unfold current_day_hour, u8, u64.
  pose proof (Z.mod_pos_bound (wrap 64 (secs / 86400 + 4)) 7 ltac:(lia)) as H1.
  assert (0 <= secs mod 86400 / 3600 < 24) as H2.
  { pose proof (Z.mod_pos_bound secs 86400 ltac:(lia)). split; [apply Z.div_pos; lia | apply Z.div_lt_upper_bound; lia]. }
  rewrite !(wrap_small 8) by (unfold in_width; lia). lia.
Qed.

(** Days follow one another, hours too, and the first day of Unix time was a Thursday. *)
Theorem day_hour_advances secs : 0 <= secs -> secs + 86400 < 2 ^ 64 ->
  let (day, hour) := current_day_hour secs in
  current_day_hour (secs + 86400) = ((day + 1) mod 7, hour) /\
  (secs mod 86400 < 82800 -> current_day_hour (secs + 3600) = (day, hour + 1)) /\
  current_day_hour 0 = (4, 0).
Proof.
  intros H0 H1. unfold current_day_hour, u8, u64.
  assert (0 <= secs / 86400 < 2 ^ 64 - 5) as Hd by (split; [apply Z.div_pos; lia | apply Z.div_lt_upper_bound; lia]).
  assert (0 <= secs mod 86400 / 3600 < 24) as H2.
  { pose proof (Z.mod_pos_bound secs 86400 ltac:(lia)). split; [apply Z.div_pos; lia | apply Z.div_lt_upper_bound; lia]. }
  assert ((secs + 86400) / 86400 = secs / 86400 + 1 /\ (secs + 86400) mod 86400 = secs mod 86400) as [-> ->].
  { split; [exact (Z.div_add secs 1 86400 ltac:(lia)) | exact (Z_mod_plus_full secs 1 86400)]. }
  pose proof (Z.mod_pos_bound (secs / 86400 + 4) 7 ltac:(lia)).
  pose proof (Z.mod_pos_bound (secs / 86400 + 1 + 4) 7 ltac:(lia)).
  rewrite !(wrap_small 64) by (unfold in_width; lia). rewrite !(wrap_small 8) by (unfold in_width; lia).
  split_and!; [f_equal | | done].
  - rewrite Zplus_mod_idemp_l. f_equal. lia.
  - intros Hh. assert ((secs + 3600) / 86400 = secs / 86400 /\ (secs + 3600) mod 86400 = secs mod 86400 + 3600) as [-> ->].
    { pose proof (Z.div_mod secs 86400 ltac:(lia)). pose proof (Z.mod_pos_bound secs 86400 ltac:(lia)).
      split; [symmetry; apply Z.div_unique with (r := secs mod 86400 + 3600); lia
        | symmetry; apply Z.mod_unique with (q := secs / 86400); lia]. }
    assert ((secs mod 86400 + 3600) / 3600 = secs mod 86400 / 3600 + 1) as -> by exact (Z.div_add (secs mod 86400) 1 3600 ltac:(lia)).
    assert (secs mod 86400 / 3600 < 23) by (apply Z.div_lt_upper_bound; lia).
    rewrite !(wrap_small 64) by (unfold in_width; lia). rewrite !(wrap_small 8) by (unfold in_width; lia). done.
Qed.

(** A sample: when, and how many milliseconds. *)
Definition slot (x : Z * Z) : nat := let (day, hour) := current_day_hour x.1 in Z.to_nat (day * 24 + hour).
Definition record_all (t : Z) (xs : list (Z * Z)) : option HeatmapStore :=
  foldl (fun h x => match h with Some h => record x.1 x.2 h | None => None end) (Some (new t)) xs.
Fixpoint samples (p : Z * Z -> bool) (l : list (Z * Z)) : Z :=
  match l with [] => 0 | x :: l' => (if p x then 1 else 0) + samples p l' end.
Lemma samples_app p l1 l2 : samples p (l1 ++ l2) = samples p l1 + samples p l2.
Proof. induction l1 as [|x l1 IH]; cbn [samples app]; lia. Qed.
Lemma samples_range p l : 0 <= samples p l <= Z.of_nat (length l).
Proof. induction l as [|x l IH]; cbn [samples length]; [lia|]. destruct (p x); lia. Qed.

Lemma slot_lt x : 0 <= x.1 < 2 ^ 64 -> (slot x < CELLS)%nat.
Proof.
  intros Hx. unfold slot. pose proof (day_hour_range _ Hx) as H. destruct (current_day_hour _) as [day hour]. unfold CELLS. lia.
Qed.

Lemma record_slot x h : record x.1 x.2 h =
  match cells h !! slot x with
  | Some c => Some {| cells := <[slot x := count_in_cell (slow_threshold_ms h) x.2 c]> (cells h); slow_threshold_ms := slow_threshold_ms h |}
  | None => None
  end.
Proof. unfold record, slot. by destruct (current_day_hour _). Qed.

Definition at_slot (i : nat) (x : Z * Z) : bool := bool_decide (slot x = i).

(** Every sample is counted in the cell of its day and hour, and in no other; recording
    never runs out of the cells; and the totals of the snapshot are those of the samples. *)
Theorem heatmap_counts t xs :
  Forall (fun x => 0 <= x.1 < 2 ^ 64) xs -> Z.of_nat (length xs) < 2 ^ 64 ->
  exists h, record_all t xs = Some h /\ length (cells h) = CELLS /\
    (forall i c, cells h !! i = Some c ->
       queries c = samples (at_slot i) xs /\ slow c = samples (fun x => at_slot i x && (t <=? x.2)) xs) /\
    zsum (map queries (cells h)) = Z.of_nat (length xs).
Proof.
  intros Hxs Hl. cut (exists h, record_all t xs = Some h /\ slow_threshold_ms h = t /\ length (cells h) = CELLS /\
    (forall i c, cells h !! i = Some c ->
       queries c = samples (at_slot i) xs /\ slow c = samples (fun x => at_slot i x && (t <=? x.2)) xs) /\
    zsum (map queries (cells h)) = Z.of_nat (length xs)); [intros (h & ? & _ & H); by exists h|].
  induction xs as [|x xs IH] using rev_ind.
  - exists (new t). split_and!; [done | done | done | | done]. intros i c Hc. cbn [samples].
    apply list_elem_of_lookup_2, list_elem_of_In in Hc. by apply repeat_spec in Hc as ->.
  - apply Forall_app in Hxs as [Hxs Hx]. apply Forall_cons_iff in Hx as [Hx _]. rewrite length_app in *. cbn [length] in *.
    destruct IH as (h & Hr & Ht & Hlen & Hc & Hs); [done | lia|]. unfold record_all. rewrite foldl_app. cbn [foldl].
    fold (record_all t xs). rewrite Hr, record_slot.
    assert (is_Some (cells h !! slot x)) as [c Hcx] by (apply lookup_lt_is_Some; rewrite Hlen; by apply slot_lt).
    rewrite Hcx. eexists. split; [reflexivity|]. cbn [cells slow_threshold_ms].
    destruct (Hc _ _ Hcx) as [Hq Hsl]. pose proof (samples_range (at_slot (slot x)) xs) as Hr1.
    pose proof (samples_range (fun y => at_slot (slot x) y && (t <=? y.2)) xs) as Hr2.
    split_and!; [done | by rewrite length_insert | |].
    + intros i c'. rewrite list_lookup_insert, !samples_app. cbn [samples]. unfold at_slot at 2 4. case_decide as Hi.
      * destruct Hi as [<- _]. intros [= <-]. cbn [queries slow count_in_cell]. rewrite Ht, Hq, Hsl, bool_decide_eq_true_2 by done.
        cbn [andb]. unfold u64. rewrite !wrap_small by (unfold in_width; lia). split; [lia | destruct (t <=? x.2); lia].
      * intros Hc'. destruct (Hc _ _ Hc') as [-> ->]. rewrite bool_decide_eq_false_2; [cbn [andb]; lia|].
        intros <-. apply Hi. split; [done|]. by eapply lookup_lt_Some.
    + rewrite <- (take_drop_middle _ _ _ Hcx) in Hs |- *.
      assert (slot x < length (cells h))%nat by (by eapply lookup_lt_Some).
      rewrite insert_app_r_alt by (rewrite length_take; lia). rewrite length_take, Nat.min_l, Nat.sub_diag by lia. cbn [insert list_insert].
      rewrite !map_app, !zsum_app in *. cbn [map] in *. rewrite !zsum_cons in *. cbn [queries count_in_cell].
      unfold u64. rewrite wrap_small by (unfold in_width; lia). lia.
Qed.

Lemma heatmap_counts_witness :
  exists h, record_all 100 [(0, 50); (1, 200); (90000, 3)] = Some h /\ zsum (map queries (cells h)) = 3.
Proof.
  destruct (heatmap_counts 100 [(0, 50); (1, 200); (90000, 3)]) as (h & H1 & _ & _ & H2);
    [repeat constructor; simpl; lia | simpl; lia | by exists h].
Defined.

Lemma snapshot_peaks h : hs_peaks (snapshot h) =
  take 3 (List.filter (fun c => 0 <? hc_queries c) (sort_desc hc_queries (hs_cells (snapshot h)))).
Proof. unfold snapshot. by destruct (sigma_and_threshold _). Qed.

Lemma elem_of_filter_bool {A} (p : A -> bool) l x : x ∈ List.filter p l -> p x = true.
Proof. intros H. by apply list_elem_of_In, filter_In in H as [_ H]. Qed.

(** The peaks are the busiest cells: what is not among them has no more queries than any of
    them, and no queries at all if there are fewer than three peaks. *)
Theorem heatmap_peaks h :
  let s := snapshot h in
  exists rest, hs_cells s ≡ₚ hs_peaks s ++ rest /\
    (forall p r, p ∈ hs_peaks s -> r ∈ rest -> hc_queries r <= hc_queries p) /\
    ((length (hs_peaks s) < 3)%nat -> forall r, r ∈ rest -> hc_queries r <= 0).
Proof.
  intros s. set (sorted := sort_desc hc_queries (hs_cells s)). set (p := fun c => 0 <? hc_queries c).
  assert (hs_peaks s = take 3 (List.filter p sorted)) as Hpeaks by apply snapshot_peaks.
  pose proof (sorted_filter _ p _ (sort_desc_sorted hc_queries (hs_cells s))) as Hf. fold sorted in Hf.
  exists (drop 3 (List.filter p sorted) ++ List.filter (fun c => negb (p c)) sorted). rewrite Hpeaks. split_and!.
  - rewrite app_assoc, take_drop, filter_partition. symmetry. apply sort_desc_perm.
  - intros x r Hx Hr. apply elem_of_app in Hr as [Hr|Hr].
    + rewrite <- (take_drop 3 (List.filter p sorted)) in Hf. by eapply sorted_apart.
    + apply elem_of_filter_bool, negb_true_iff, Z.ltb_ge in Hr.
      assert (p x = true) as Hx' by (eapply elem_of_filter_bool; rewrite <- (take_drop 3 (List.filter p sorted)); apply elem_of_app; by left).
      apply Z.ltb_lt in Hx'. lia.
  - intros Hlen r Hr. apply elem_of_app in Hr as [Hr|Hr].
    + rewrite length_take in Hlen. rewrite drop_ge in Hr by lia. by apply not_elem_of_nil in Hr.
    + by apply elem_of_filter_bool, negb_true_iff, Z.ltb_ge in Hr.
Qed.

(** A cell is flagged only when a dozen cells have queries. *)
Lemma anomaly_needs_traffic h c : c ∈ hs_cells (snapshot h) -> hc_is_anomaly c = true ->
  (12 <= length (List.filter (fun c => 0%Z <? queries c)%Z (cells h)))%nat.
Proof.
  intros Hc Ha.
  assert (length (List.filter (fun c => 0 <? queries c) (cells h)) = length (List.filter (fun c => 0 <? hc_queries c) (imap heat_cell (cells h)))) as ->.
  { assert (forall f, (forall i c, hc_queries (f i c) = queries c) -> length (List.filter (fun c => 0 <? queries c) (cells h)) =
      length (List.filter (fun c => 0 <? hc_queries c) (imap f (cells h)))) as H; [|by apply H].
    induction (cells h) as [|x l IH]; intros f Hf; [done|]. cbn [imap List.filter]. rewrite Hf.
    destruct (0 <? queries x); cbn [length]; [f_equal|]; (apply IH; intros i y; cbn; apply Hf). }
  unfold snapshot in Hc. destruct (sigma_and_threshold _) as [sigma threshold]. cbn [hs_cells] in Hc.
  destruct (12 <=? _)%nat eqn:E; [by apply Nat.leb_le|]. by apply elem_of_lookup_imap in Hc as (? & ? & -> & _).
Qed.

(** Three hundred queries in one hour among eleven quiet ones stand out. *)
Example a_spike_is_flagged :
  let h := {| cells := repeat {| queries := 10; slow := 0; duration_ms := 50 |} 11 ++ [{| queries := 300; slow := 1; duration_ms := 900 |}]
                       ++ repeat cell_new 156; slow_threshold_ms := 100 |} in
  map (fun c => (hc_day c, hc_hour c)) (List.filter hc_is_anomaly (hs_cells (snapshot h))) = [(0, 11)].
Proof. by vm_compute. Qed.
End HeatmapProps.

(** ** Throughput and its time series *)

Module TimeseriesProps.
Import Timeseries.

(** The sum of a column over the rows of one resolution whose time satisfies [P]. *)
Definition rows_where (res : Resolution) (P : Z -> bool) (t : Table) : Table :=
  filter (fun kr => kr.1.2 = res /\ P kr.1.1 = true) t.
Definition column_sum (f : Row -> Z) (res : Resolution) (P : Z -> bool) (t : Table) : Z := msum f (rows_where res P t).

Lemma column_sum_insert f res P b res' r t : t !! (b, res') = None ->
  column_sum f res P (<[(b, res') := r]> t) = (if bool_decide (res' = res) && P b then f r else 0) + column_sum f res P t.
Proof.
  intros Hn. unfold column_sum, rows_where. destruct (bool_decide (res' = res) && P b) eqn:E.
  - rewrite map_filter_insert_True.
    + apply msum_new. apply map_lookup_filter_None. by left.
    + cbn [fst snd]. apply andb_prop in E as [E1 E2]. by apply bool_decide_eq_true in E1.
  - rewrite map_filter_insert_False; [by rewrite delete_id|].
    cbn [fst snd]. intros [-> HP]. by rewrite bool_decide_eq_true_2, HP in E.
Qed.

(** What one group of a roll-up sums up: any additive column, over any set of groups. *)
Lemma grouped_sum f source span P t : (forall r s, f (add_row r s) = f r + f s) ->
  msum f (filter (fun br => P br.1 = true) (grouped source span t)) = column_sum f source (fun b => P (group_key span b)) t.
Proof.
  intros Hf. unfold grouped. apply (map_fold_weak_ind (fun groups m =>
    msum f (filter (fun br => P br.1 = true) groups) = column_sum f source (fun b => P (group_key span b)) m)).
  - unfold column_sum, rows_where. by rewrite !map_filter_empty, !msum_empty.
  - intros [b res] r m groups Hn IH. rewrite column_sum_insert by done. rewrite <- IH. clear IH.
    unfold add_to_group. cbn [fst snd]. case_bool_decide as Hres; [|done]. cbv zeta. cbn [andb].
    set (k := group_key span b). destruct (P k) eqn:HP.
    + rewrite map_filter_insert_True by done. rewrite msum_insert.
      destruct (groups !! k) as [g|] eqn:Hg.
      * assert (filter (fun br => P br.1 = true) groups !! k = Some g) as -> by (by apply map_lookup_filter_Some).
        cbn. rewrite Hf. lia.
      * assert (filter (fun br => P br.1 = true) groups !! k = None) as -> by (apply map_lookup_filter_None; by left).
        cbn. lia.
    + rewrite map_filter_insert_False by (cbn [fst]; by rewrite HP). rewrite map_filter_delete, delete_id; [lia|].
      apply map_lookup_filter_None. right. intros x _. cbn [fst]. by rewrite HP.
Qed.

Lemma grouped_keys source span t b : is_Some (grouped source span t !! b) <->
  exists b' r, t !! (b', source) = Some r /\ group_key span b' = b.
Proof.
  unfold grouped. revert b. apply (map_fold_weak_ind (fun groups m => forall b,
    is_Some (groups !! b) <-> exists b' r, m !! (b', source) = Some r /\ group_key span b' = b)).
  - intros b. rewrite lookup_empty. split; [by intros [? ?] | by intros (? & ? & ? & _)].
  - intros [b1 res] r m groups Hn IH b. unfold add_to_group. cbn [fst snd]. case_bool_decide as Hres.
    + subst res. rewrite lookup_insert. case_decide as Hk.
      * split; [|done]. intros _. exists b1, r. by rewrite lookup_insert_eq.
      * rewrite IH. split; intros (b' & r' & H1 & H2); exists b', r'; (split; [|done]).
        -- rewrite lookup_insert_ne; [done|]. intros [= ->]. by rewrite Hn in H1.
        -- rewrite lookup_insert_ne in H1; [done|]. intros [= ->]. done.
    + rewrite IH. split; intros (b' & r' & H1 & H2); exists b', r'; (split; [|done]);
        rewrite lookup_insert_ne in *; (done || by intros [= -> ->]).
Qed.

Lemma replace_rows_lookup dest groups t b res : replace_rows dest groups t !! (b, res) =
  if bool_decide (res = dest) then match groups !! b with Some g => Some g | None => t !! (b, res) end else t !! (b, res).
Proof.
  unfold replace_rows. apply (map_fold_weak_ind (fun t' m => t' !! (b, res) =
    if bool_decide (res = dest) then match m !! b with Some g => Some g | None => t !! (b, res) end else t !! (b, res))).
  - rewrite lookup_empty. by case_bool_decide.
  - intros k g m t' Hn IH. rewrite !lookup_insert. destruct (decide ((k, dest) = (b, res))) as [[= -> ->]|Hne].
    + by rewrite bool_decide_eq_true_2, decide_True.
    + rewrite IH. case_bool_decide as Hr; [|done]. subst res. rewrite decide_False; [done|]. by intros ->.
Qed.

(** The row of one group: its additive columns are the sums over the rows of the group. *)
Lemma grouped_row f source span t b g : (forall r s, f (add_row r s) = f r + f s) ->
  grouped source span t !! b = Some g -> f g = column_sum f source (fun b' => group_key span b' =? b) t.
Proof.
  intros Hf Hg. rewrite <- (grouped_sum f source span (fun k => k =? b) t Hf).
  assert (filter (fun br => (br.1 =? b) = true) (grouped source span t) = {[b := g]}) as ->.
  { apply map_eq. intros k. destruct (decide (k = b)) as [->|Hne].
    - rewrite lookup_singleton_eq. apply map_lookup_filter_Some. split; [done|]. apply Z.eqb_refl.
    - rewrite lookup_singleton_ne by done. apply map_lookup_filter_None. right. intros x _. cbn [fst]. by rewrite Z.eqb_eq. }
  unfold msum. rewrite map_to_list_singleton. cbn. unfold zsum. cbn. lia.
Qed.

Definition group_max (source : Resolution) (span b : Z) (t : Table) (group : option Row) : Prop :=
  match group with
  | Some g =>
      (forall b' r, t !! (b', source) = Some r -> group_key span b' = b -> max_us r <= max_us g) /\
      (exists b' r, t !! (b', source) = Some r /\ group_key span b' = b /\ max_us r = max_us g)
  | None => forall b' r, t !! (b', source) = Some r -> group_key span b' <> b
  end.

Lemma insert_row_cases (m : Table) k r1 b' source r : <[k := r1]> m !! (b', source) = Some r ->
  k = (b', source) /\ r = r1 \/ m !! (b', source) = Some r.
Proof. rewrite lookup_insert. case_decide; [|by right]. intros [= <-]. by left. Qed.

(** A row that is not of the group leaves its maximum. *)
Lemma group_max_other source span b m k r1 group : m !! k = None -> (k.2 = source -> group_key span k.1 <> b) ->
  group_max source span b m group -> group_max source span b (<[k := r1]> m) group.
Proof.
  intros Hn Hk. destruct group as [g|]; cbn [group_max].
  - intros [H1 (b0 & r0 & H2 & H3 & H4)]. split.
    + intros b' r Hr Hb. apply insert_row_cases in Hr as [[-> ->]|Hr]; [|eauto]. by apply Hk in Hb.
    + exists b0, r0. split; [|done]. rewrite lookup_insert_ne; [done|]. intros ->. by rewrite Hn in H2.
  - intros H b' r Hr Hb. apply insert_row_cases in Hr as [[-> ->]|Hr]; [by apply Hk in Hb | by eapply H].
Qed.

Lemma grouped_max source span t b : group_max source span b t (grouped source span t !! b).
Proof.
  unfold grouped. revert b. apply (map_fold_weak_ind (fun groups m => forall b, group_max source span b m (groups !! b))).
  - intros b. rewrite lookup_empty. intros b' r. by rewrite lookup_empty.
  - intros [b1 res] r1 m groups Hn IH b. unfold add_to_group. cbn [fst snd].
    case_bool_decide as Hres; [|by apply group_max_other]. subst res. cbv zeta. rewrite lookup_insert.
    case_decide as Hk; [|by apply group_max_other]. specialize (IH b). rewrite Hk.
    destruct (groups !! b) as [g|]; cbn [group_max] in *.
    + destruct IH as [H1 (b0 & r0 & H2 & H3 & H4)]. cbn [max_us add_row]. split.
      * intros b' r Hr Hb. apply insert_row_cases in Hr as [[_ ->]|Hr]; [lia|]. specialize (H1 _ _ Hr Hb). lia.
      * destruct (Z.max_spec (max_us g) (max_us r1)) as [[_ ->]|[_ ->]]; [exists b1, r1; by rewrite lookup_insert_eq|].
        exists b0, r0. split; [|done]. rewrite lookup_insert_ne; [done|]. intros [= ->]. by rewrite Hn in H2.
    + split; [|exists b1, r1; by rewrite lookup_insert_eq].
      intros b' r Hr Hb. apply insert_row_cases in Hr as [[_ ->]|Hr]; [done | by apply IH in Hr].
Qed.

Lemma rows_where_ext res P t t' : (forall b, t !! (b, res) = t' !! (b, res)) -> rows_where res P t = rows_where res P t'.
Proof.
  intros H. apply map_eq. intros [b r]. apply option_eq. intros x. unfold rows_where. rewrite !map_lookup_filter_Some. cbn [fst snd].
  split; intros (H1 & -> & H2); (split; [|done]); [by rewrite <- H | by rewrite H].
Qed.

(** A roll-up looks at the rows of its source only. *)
Lemma grouped_ext source span t t' : (forall b, t !! (b, source) = t' !! (b, source)) -> grouped source span t = grouped source span t'.
Proof.
  intros H. apply map_eq. intros b.
  pose proof (grouped_max source span t b) as M. pose proof (grouped_max source span t' b) as M'.
  assert (is_Some (grouped source span t !! b) <-> is_Some (grouped source span t' !! b)) as Hs
    by (rewrite !grouped_keys; split; intros (b' & r & H1 & H2); exists b', r; by rewrite H in * || by rewrite <- H in *).
  destruct (grouped source span t !! b) as [g|] eqn:Hg, (grouped source span t' !! b) as [g'|] eqn:Hg'; try done.
  2: { by destruct (proj1 Hs) as [? ?]; [eexists|]. }
  2: { by destruct (proj2 Hs) as [? ?]; [eexists|]. }
  f_equal. assert (forall f, (forall r s, f (add_row r s) = f r + f s) -> f g = f g') as Hf.
  { intros f Hadd. rewrite (grouped_row f _ _ _ _ _ Hadd Hg), (grouped_row f _ _ _ _ _ Hadd Hg').
    unfold column_sum. by rewrite (rows_where_ext _ _ _ _ H). }
  assert (max_us g = max_us g') as Hm.
  { destruct M as [H1 (b0 & r0 & H2 & H3 & H4)], M' as [H1' (b0' & r0' & H2' & H3' & H4')].
    rewrite <- H in H2'. rewrite H in H2. specialize (H1 _ _ H2' H3'). specialize (H1' _ _ H2 H3). lia. }
  pose proof (Hf queries (fun _ _ => eq_refl)). pose proof (Hf slow_queries (fun _ _ => eq_refl)).
  pose proof (Hf total_us (fun _ _ => eq_refl)). destruct g, g'. cbn in *. by subst.
Qed.

Lemma rollup_keeps source dest span t b res : res <> dest -> replace_rows dest (grouped source span t) t !! (b, res) = t !! (b, res).
Proof. intros H. by rewrite replace_rows_lookup, bool_decide_eq_false_2. Qed.

(** Rolling up is idempotent, as its callers rely on: it can be run at every tick. *)
Theorem rollups_idempotent t :
  rollup_hourly (rollup_hourly t) = rollup_hourly t /\ rollup_daily (rollup_daily t) = rollup_daily t.
Proof.
  assert (forall source dest span, source <> dest -> let up t := replace_rows dest (grouped source span t) t in up (up t) = up t) as H;
    [|split; by apply H].
  intros source dest span Hne up. assert (grouped source span (up t) = grouped source span t) as E
    by (apply grouped_ext; intros b; by apply rollup_keeps).
  unfold up at 1. rewrite E. apply map_eq. intros [b res]. unfold up. rewrite !replace_rows_lookup.
  case_bool_decide; [|done]. by destruct (grouped source span t !! b).
Qed.

(** After the roll-ups of a tick the row of an hour is the sum of its minutes, and the row
    of a day, if every hour on record has minutes on record, the sum of its minutes too; the
    minutes stay. *)
Theorem rollups_sum_minutes t hour day f :
  f ∈ [queries; slow_queries; total_us] ->
  (forall b r, t !! (b, Hour) = Some r -> exists m r', t !! (m, Minute) = Some r' /\ group_key 3600 m = b) ->
  let t' := rollup_daily (rollup_hourly t) in
  (forall m, t' !! (m, Minute) = t !! (m, Minute)) /\
  (forall r, t' !! (hour, Hour) = Some r -> f r = column_sum f Minute (fun m => group_key 3600 m =? hour) t) /\
  ((exists m r, t !! (m, Minute) = Some r /\ group_key 86400 (group_key 3600 m) = day) -> exists r, t' !! (day, Day) = Some r /\
     f r = column_sum f Minute (fun m => group_key 86400 (group_key 3600 m) =? day) t).
Proof.
  intros Hin Hh t'. assert (forall r s, f (add_row r s) = f r + f s) as Hf
    by (rewrite !elem_of_cons in Hin; destruct Hin as [->|[->|[->|Hin]]]; [done..|by apply not_elem_of_nil in Hin]).
  assert (forall b, rollup_hourly t !! (b, Hour) = grouped Minute 3600 t !! b) as Hhour.
  { intros b. unfold rollup_hourly. rewrite replace_rows_lookup, bool_decide_eq_true_2 by done.
    destruct (grouped Minute 3600 t !! b) as [g|] eqn:Hg; [done|]. destruct (t !! (b, Hour)) as [r|] eqn:Hr; [|done].
    apply Hh in Hr as (m & r' & H1 & H2). assert (is_Some (grouped Minute 3600 t !! b)) as [? ?] by (apply grouped_keys; eauto). congruence. }
  split_and!.
  - intros m. unfold t', rollup_daily, rollup_hourly. by rewrite !rollup_keeps.
  - intros r. unfold t', rollup_daily. rewrite rollup_keeps, Hhour by done. by apply grouped_row.
  - intros (m & r0 & Hm & Hkey). unfold t', rollup_daily. rewrite replace_rows_lookup, bool_decide_eq_true_2 by done.
    assert (is_Some (grouped Hour 86400 (rollup_hourly t) !! day)) as [g Hg].
    { assert (is_Some (grouped Minute 3600 t !! group_key 3600 m)) as [h Hm'] by (apply grouped_keys; eauto).
      apply grouped_keys. exists (group_key 3600 m), h. by rewrite Hhour. }
    rewrite Hg. exists g. split; [done|]. rewrite (grouped_row f _ _ _ _ _ Hf Hg).
    rewrite <- (grouped_sum f Minute 3600 (fun h => group_key 86400 h =? day) t Hf). unfold column_sum.
    assert (Inj (=) (=) (fun b : Z => (b, Hour))) as Hinj by (by intros ? ? [= ->]).
    assert (rows_where Hour (fun b => group_key 86400 b =? day) (rollup_hourly t)
      = kmap (fun b => (b, Hour)) (filter (fun br => (group_key 86400 br.1 =? day) = true) (grouped Minute 3600 t))) as ->.
    { apply map_eq. intros [b res]. apply option_eq. intros x. unfold rows_where.
      rewrite map_lookup_filter_Some, lookup_kmap_Some by exact Hinj. cbn [fst snd]. setoid_rewrite map_lookup_filter_Some. cbn [fst snd].
      split; [intros (H1 & -> & H2); exists b; by rewrite <- Hhour|]. intros (b' & [= -> ->] & H1 & H2). by rewrite Hhour. }
    unfold msum. rewrite (zsum_proper _ _ (Permutation_map _ (map_to_list_kmap (fun b : Z => (b, Hour)) _))).
    change (prod_map ?f ?g <$> ?l) with (map (prod_map f g) l). by rewrite map_map.
Qed.

Definition row (n : Z) : Row := {| queries := n; slow_queries := 0; total_us := n; max_us := n |}.
(** Minutes of two hours of one day. *)
Definition demo_table : Table := <[(0, Minute) := row 1]> (<[(60, Minute) := row 2]> (<[(3600, Minute) := row 4]> ∅)).

Lemma rollups_sum_minutes_witness :
  exists r, rollup_daily (rollup_hourly demo_table) !! (0, Day) = Some r /\ queries r = 7.
Proof.
  destruct (rollups_sum_minutes demo_table 0 0 queries) as (_ & _ & H).
  - apply elem_of_cons. by left.
  - intros b r H. exfalso. apply (eq_true_false_abs (bool_decide (demo_table !! (b, Hour) = None))).
    + unfold demo_table. by rewrite !lookup_insert_ne.
    + by rewrite H.
  - destruct H as (r & H1 & H2); [exists 0, (row 1); split; by vm_compute|]. exists r. split; [exact H1|].
    rewrite H2. by vm_compute.
Defined.

(** ** Counting and draining *)

Definition count_all (us : list Z) (c : Throughput.ThroughputCounters) : Throughput.ThroughputCounters :=
  foldl (fun c u => Throughput.record u c) c us.

(** What a tick adds to the minutes are the statements since the tick before: the number
    of them, the slow ones, their time, and the longest; and the counters begin anew. *)
Theorem tick_drains_counters t us : Z.of_nat (length us) < 2 ^ 64 -> Forall (fun u => 0 <= u) us -> zsum us < 2 ^ 64 ->
  let c := Throughput.new t in
  let '(snap, c') := Throughput.take_snapshot (count_all us c) in
  c' = c /\ Throughput.m_queries snap = Z.of_nat (length us) /\
  Throughput.m_slow snap = Z.of_nat (length (List.filter (fun u => Throughput.slow_threshold_us c <=? u) us)) /\
  Throughput.m_total_us snap = zsum us /\ Throughput.m_max_us snap = foldr Z.max 0 us.
Proof.
  intros Hl Hus Hs c. unfold Throughput.take_snapshot.
  assert (Throughput.slow_threshold_us (count_all us c) = Throughput.slow_threshold_us c /\
    Throughput.queries (count_all us c) = Z.of_nat (length us) /\
    Throughput.slow (count_all us c) = Z.of_nat (length (List.filter (fun u => Throughput.slow_threshold_us c <=? u) us)) /\
    Throughput.total_us (count_all us c) = zsum us /\ Throughput.max_us (count_all us c) = foldr Z.max 0 us) as (H1 & H2 & H3 & H4 & H5).
  2: { cbn [Throughput.m_queries Throughput.m_slow Throughput.m_total_us Throughput.m_max_us]. rewrite H1. by split_and!. }
  induction us as [|u us IH] using rev_ind; [done|]. rewrite length_app in Hl. cbn [length] in Hl.
  apply Forall_app in Hus as [Hus Hu]. apply Forall_cons_iff in Hu as [Hu _]. rewrite zsum_app, zsum_cons in *. change (zsum []) with 0 in *.
  assert (0 <= zsum us) as H0 by (clear -Hus; induction Hus; rewrite ?zsum_cons; [done | lia]).
  destruct IH as (H1 & H2 & H3 & H4 & H5); [lia | done | lia|]. unfold count_all in *. rewrite foldl_app. cbn [foldl].
  cbn [Throughput.record Throughput.queries Throughput.slow Throughput.total_us Throughput.max_us Throughput.slow_threshold_us].
  rewrite H1, H2, H3, H4, H5, length_app, List.filter_app, length_app. cbn [length List.filter].
  assert (length (List.filter (fun u => Throughput.slow_threshold_us c <=? u)%Z us) <= length us)%nat by apply List.filter_length_le.
  unfold u64. split_and!; [done | | | |].
  - rewrite wrap_small; unfold in_width; lia.
  - destruct (Throughput.slow_threshold_us c <=? u); cbn [length]; [rewrite wrap_small; unfold in_width; lia | lia].
  - rewrite wrap_small; unfold in_width; lia.
  - rewrite foldr_app. cbn [foldr]. clear. induction us as [|v us IH]; cbn [foldr]; lia.
Qed.

Lemma tick_drains_counters_witness :
  let '(snap, _) := Throughput.take_snapshot (count_all [5; 2000; 7] (Throughput.new 1)) in Throughput.m_slow snap = 1.
Proof.
  pose proof (tick_drains_counters 1 [5; 2000; 7]) as H.
  destruct H as (_ & _ & H & _); [simpl; lia | repeat constructor; lia | unfold zsum; simpl; lia | exact H].
Defined.

(** ** What retention does to the oldest hour

    The rows of two minutes of one hour; the retention cuts the hour in the middle. *)
Definition old_hour : Table := <[(3000, Minute) := row 5]> (<[(3540, Minute) := row 1]> ∅).
Definition tick_at (now mono : Z) (t : Table) : Table :=
  table (tick 1 now mono {| throughput := Throughput.new 100; table := t; last_day := 0 |}).

(** Before it is cut the hour has all its statements; afterwards the next tick makes a row
    for it again, from the minute that was left. *)
Example retention_halves_an_hour :
  let before := tick_at (86400 + 3060) 0 old_hour in
  let cut := tick_at (86400 + 3060) (86400 * 10 ^ 9) old_hour in
  let after := tick_at (86400 + 3120) 0 cut in
  queries <$> before !! (0, Hour) = Some 6 /\ cut !! (0, Hour) = None /\ queries <$> after !! (0, Hour) = Some 1.
Proof. by vm_compute. Qed.
End TimeseriesProps.
