(* ===== verification/Alerts.v ===== *)
(** * Alerts and events (src/src/proxy/app_analytics.rs, src/src/proxy/error_events.rs,
    src/src/proxy/regression.rs)

    What the dashboard shows: the counters by user, client and application, the ring of the
    last errors, and the alerts about statements that got slow, are repeated or read whole
    tables. *)

From Stdlib Require Import SpecFloat.
From S2P Require Import Prelude Bytes Tracer QueryStats Analytics.

(** ** Counters by user, address and application *)

Module AppAnalytics.

Record DimStats := {
  queries_total : Z; queries_read : Z; queries_write : Z; connections_active : Z; connections_total : Z;
  first_seen_ms : Z; last_seen_ms : Z
}.
Definition dim_new (now_ms : Z) : DimStats :=
  {| queries_total := 0; queries_read := 0; queries_write := 0; connections_active := 0; connections_total := 0;
     first_seen_ms := now_ms; last_seen_ms := now_ms |}.
Abbreviation Dim := (gmap bytes DimStats).
Record AppAnalyticsStore := { by_user : Dim; by_ip : Dim; by_app : Dim }.
Definition store_new : AppAnalyticsStore := {| by_user := ∅; by_ip := ∅; by_app := ∅ |}.

Definition conn_open (key : bytes) (now : Z) (m : Dim) : Dim :=
  let e := default (dim_new now) (m !! key) in
  <[key := {| queries_total := queries_total e; queries_read := queries_read e; queries_write := queries_write e;
              connections_active := usize (connections_active e + 1); connections_total := usize (connections_total e + 1);
              first_seen_ms := first_seen_ms e; last_seen_ms := now |}]> m.
Definition close_one (e : DimStats) : DimStats :=
  {| queries_total := queries_total e; queries_read := queries_read e; queries_write := queries_write e;
     connections_active := sat_sub (connections_active e) 1; connections_total := connections_total e;
     first_seen_ms := first_seen_ms e; last_seen_ms := last_seen_ms e |}.
Definition conn_close (key : bytes) (m : Dim) : Dim := alter close_one key m.
Definition count_query (is_read is_write : bool) (now : Z) (e : DimStats) : DimStats :=
  {| queries_total := usize (queries_total e + 1);
     queries_read := if is_read then usize (queries_read e + 1) else queries_read e;
     queries_write := if is_write then usize (queries_write e + 1) else queries_write e;
     connections_active := connections_active e; connections_total := connections_total e;
     first_seen_ms := first_seen_ms e; last_seen_ms := now |}.
Definition query (key : bytes) (is_read is_write : bool) (now : Z) (m : Dim) : Dim :=
  alter (count_query is_read is_write now) key m.

(** The application is skipped when it is not known. *)
Definition on_dims (f : bytes -> Dim -> Dim) (user ip app : bytes) (s : AppAnalyticsStore) : AppAnalyticsStore :=
  {| by_user := f user (by_user s); by_ip := f ip (by_ip s);
     by_app := if beq app [] then by_app s else f app (by_app s) |}.
Definition on_connect (now : Z) : bytes -> bytes -> bytes -> AppAnalyticsStore -> AppAnalyticsStore :=
  on_dims (fun key => conn_open key now).
Definition on_disconnect : bytes -> bytes -> bytes -> AppAnalyticsStore -> AppAnalyticsStore := on_dims conn_close.
Definition on_query (now : Z) (is_read is_write : bool) : bytes -> bytes -> bytes -> AppAnalyticsStore -> AppAnalyticsStore :=
  on_dims (fun key => query key is_read is_write now).

(** Entries that tie keep the order in which the map is walked. *)
Definition snapshot `{!MapOrder bytes DimStats} (m : Dim) : list (bytes * DimStats) :=
  sort_desc (fun e => queries_total e.2) (iter m).
End AppAnalytics.

(** ** The last errors *)

Module ErrorEvents.

Inductive ErrorCategory := Auth | Syntax | Connection | Resource | Constraint | Proxy | Other.
Definition from_code (code : Z) : ErrorCategory :=
  let among l := existsb (Z.eqb code) l in
  if among [1044; 1045; 1142; 1143] then Auth
  else if among [1064; 1065; 1149] then Syntax
  else if among [2006; 2013; 1927; 1152] then Connection
  else if among [1040; 1226; 1227] then Resource
  else if among [1062; 1048; 1452; 1264] then Constraint
  else if among [0] then Proxy else Other.
Definition as_str (c : ErrorCategory) : bytes :=
  match c with
  | Auth => bs "AUTH" | Syntax => bs "SYNTAX" | Connection => bs "CONNECTION" | Resource => bs "RESOURCE"
  | Constraint => bs "CONSTRAINT" | Proxy => bs "PROXY" | Other => bs "OTHER"
  end.

Record ErrorEvent := {
  ts : Z; code : Z; category : bytes; message : bytes; fingerprint : bytes; backend_addr : bytes; client_ip : bytes;
  user : bytes; duration_ms : f64; protocol : bytes
}.
Definition event_new (now code : Z) (message fingerprint backend_addr client_ip user : bytes) (duration_ms : f64) : ErrorEvent :=
  {| ts := now; code := code; category := as_str (from_code code); message := message; fingerprint := fingerprint;
     backend_addr := backend_addr; client_ip := client_ip; user := user; duration_ms := duration_ms; protocol := bs "mysql" |}.
Definition event_new_pg (now : Z) (message fingerprint client_ip user : bytes) (duration_ms : f64) : ErrorEvent :=
  {| ts := now; code := 0; category := as_str Connection; message := message; fingerprint := fingerprint;
     backend_addr := []; client_ip := client_ip; user := user; duration_ms := duration_ms; protocol := bs "postgres" |}.

Record ErrorEventStore := { events : list ErrorEvent; capacity : nat; total : Z }.
Definition store_new (capacity : nat) : ErrorEventStore := {| events := []; capacity := capacity; total := 0 |}.
Definition push (ev : ErrorEvent) (s : ErrorEventStore) : ErrorEventStore :=
  {| events := (if (capacity s <=? length (events s))%nat then drop 1 (events s) else events s) ++ [ev];
     capacity := capacity s; total := usize (total s + 1) |}.

Definition of_protocol (protocol' : option bytes) (ev : ErrorEvent) : bool :=
  match protocol' with Some p => beq (protocol ev) p | None => true end.
Definition list_filtered (limit : nat) (protocol : option bytes) (s : ErrorEventStore) : list ErrorEvent :=
  take limit (List.filter (of_protocol protocol) (rev (events s))).
Definition list_events (limit : nat) : ErrorEventStore -> list ErrorEvent := list_filtered limit None.

(** The counters of [stats_filtered], and the two lists made from them. *)
Record Stats := {
  cat_1h : gmap bytes Z; cat_24h : gmap bytes Z; cat_7d : gmap bytes Z; filtered_total : Z;
  fp_counts : gmap bytes (Z * Z); code_counts : gmap Z (Z * bytes)
}.
Definition stats_empty : Stats :=
  {| cat_1h := ∅; cat_24h := ∅; cat_7d := ∅; filtered_total := 0; fp_counts := ∅; code_counts := ∅ |}.
Definition count_in (cond : bool) (cat : bytes) (m : gmap bytes Z) : gmap bytes Z :=
  if cond then <[cat := usize (default 0 (m !! cat) + 1)]> m else m.
Definition count_event (now : Z) (st : Stats) (ev : ErrorEvent) : Stats :=
  let age := now - ts ev in
  {| cat_1h := count_in (age <=? 3600) (category ev) (cat_1h st);
     cat_24h := count_in (age <=? 86400) (category ev) (cat_24h st);
     cat_7d := count_in (age <=? 604800) (category ev) (cat_7d st);
     filtered_total := usize (filtered_total st + 1);
     fp_counts :=
       if (age <=? 3600) && negb (beq (fingerprint ev) []) then
         let e := default (0, ts ev) (fp_counts st !! fingerprint ev) in
         <[fingerprint ev := (usize (e.1 + 1), Z.max e.2 (ts ev))]> (fp_counts st)
       else fp_counts st;
     code_counts :=
       if (age <=? 86400) && (0 <? code ev) then
         let e := default (0, category ev) (code_counts st !! code ev) in
         <[code ev := (usize (e.1 + 1), e.2)]> (code_counts st)
       else code_counts st |}.
Definition collect_stats (now : Z) (protocol : option bytes) (s : ErrorEventStore) : Stats :=
  foldl (count_event now) stats_empty (List.filter (of_protocol protocol) (events s)).
(** By category for the three periods, the number of events, the ten most frequent
    fingerprints and error codes. *)
Definition stats_filtered `{!MapOrder bytes (Z * Z)} `{!MapOrder Z (Z * bytes)} (now : Z) (protocol : option bytes) (s : ErrorEventStore)
  : gmap bytes Z * gmap bytes Z * gmap bytes Z * Z * list (bytes * (Z * Z)) * list (Z * (Z * bytes)) :=
  let st := collect_stats now protocol s in
  (cat_1h st, cat_24h st, cat_7d st, filtered_total st,
   take 10 (sort_desc (fun e => e.2.1) (iter (fp_counts st))), take 10 (sort_desc (fun e => e.2.1) (iter (code_counts st)))).
End ErrorEvents.

(** ** Regressions *)

Module Regression.
Import Collector.

Definition LATENCY_RATIO_THRESHOLD : f64 := f_lit 14 10.
Definition MIN_SAMPLES : Z := 10.
Definition MAX_ALERTS : nat := 200.

Inductive AlertKind :=
| LatencyRegression (baseline_p95_us current_p95_us : Z) (ratio : f64)
| HotKey (example_sql : bytes) (hit_count : Z)
| FullScanRisk (reason : bytes) (call_count : Z).
Record RegressionAlert := {
  id : Z; a_fingerprint : bytes; details : AlertKind; detected_at_ms : Z; resolved : bool
}.
(** The baseline is a 95th percentile in microseconds. *)
Record RegressionStore := { alerts : list RegressionAlert; baseline : gmap Z Z; next_id : Z }.
Definition store_new : RegressionStore := {| alerts := []; baseline := ∅; next_id := 1 |}.

Definition is_hot_key (k : AlertKind) : bool := match k with HotKey _ _ => true | _ => false end.
Definition is_latency (k : AlertKind) : bool := match k with LatencyRegression _ _ _ => true | _ => false end.
Definition is_full_scan (k : AlertKind) : bool := match k with FullScanRisk _ _ => true | _ => false end.
(** An alert of a kind about a statement that is not resolved. *)
Definition active (kind : AlertKind -> bool) (fp : bytes) (a : RegressionAlert) : bool :=
  beq (a_fingerprint a) fp && kind (details a) && negb (resolved a).
Definition resolve (a : RegressionAlert) : RegressionAlert :=
  {| id := id a; a_fingerprint := a_fingerprint a; details := details a; detected_at_ms := detected_at_ms a; resolved := true |}.
Definition with_details (k : AlertKind) (a : RegressionAlert) : RegressionAlert :=
  {| id := id a; a_fingerprint := a_fingerprint a; details := k; detected_at_ms := detected_at_ms a; resolved := resolved a |}.
Definition detected (k : AlertKind) (now_ms : Z) (a : RegressionAlert) : RegressionAlert :=
  {| id := id a; a_fingerprint := a_fingerprint a; details := k; detected_at_ms := now_ms; resolved := resolved a |}.
(** Change the first alert that satisfies a condition. *)
Fixpoint update_first (p : RegressionAlert -> bool) (f : RegressionAlert -> RegressionAlert) (l : list RegressionAlert)
  : option (list RegressionAlert) :=
  match l with
  | [] => None
  | a :: l' => if p a then Some (f a :: l') else cons a <$> update_first p f l'
  end.
Fixpoint remove_first (p : RegressionAlert -> bool) (l : list RegressionAlert) : option (list RegressionAlert) :=
  match l with
  | [] => None
  | a :: l' => if p a then Some l' else cons a <$> remove_first p l'
  end.

Definition append_alert (fp : bytes) (k : AlertKind) (now_ms : Z) (l : list RegressionAlert) (s : RegressionStore) : RegressionStore :=
  {| alerts := l ++ [{| id := next_id s; a_fingerprint := fp; details := k; detected_at_ms := now_ms; resolved := false |}];
     baseline := baseline s; next_id := u64 (next_id s + 1) |}.
Definition push_alert_inner (fp : bytes) (k : AlertKind) (now_ms : Z) (s : RegressionStore) : RegressionStore :=
  if (MAX_ALERTS <=? length (alerts s))%nat then
    match remove_first resolved (alerts s) with
    | Some l => append_alert fp k now_ms l s
    | None => s
    end
  else append_alert fp k now_ms (alerts s) s.
Definition set_alerts (l : list RegressionAlert) (s : RegressionStore) : RegressionStore :=
  {| alerts := l; baseline := baseline s; next_id := next_id s |}.
Definition set_baseline (hash p95 : Z) (s : RegressionStore) : RegressionStore :=
  {| alerts := alerts s; baseline := <[hash := p95]> (baseline s); next_id := next_id s |}.

Definition report_hot_key (now_ms : Z) (fp example_sql : bytes) (hit_count : Z) (s : RegressionStore) : RegressionStore :=
  let k := HotKey (take_chars 300 example_sql) hit_count in
  match update_first (active is_hot_key fp) (with_details k) (alerts s) with
  | Some l => set_alerts l s
  | None => push_alert_inner fp k now_ms s
  end.

Definition full_scan_reason (fingerprint : bytes) : option bytes :=
  let fp := to_ascii_lowercase (trim_start fingerprint) in
  if starts_with fp (bs "select") && str_contains fp (bs " from ") && negb (str_contains fp (bs "where"))
     && negb (str_contains fp (bs "limit")) && negb (str_contains fp (bs "dual"))
  then Some (bs "SELECT without WHERE or LIMIT " ++ [226; 128; 148] ++ bs " potential full table scan")
  else if str_contains fp (bs "order by rand()") || str_contains fp (bs "order by random()")
  then Some (bs "ORDER BY RAND() " ++ [226; 128; 148] ++ bs " forces full scan for random ordering")
  else if str_contains fp (bs " like ")
  then Some (bs "LIKE pattern " ++ [226; 128; 148] ++ bs " verify no leading wildcard (e.g. LIKE '%value')")
  else None.

(** The static half of a check of one statement. *)
Definition refresh_calls (fp : bytes) (n : Z) (a : RegressionAlert) : RegressionAlert :=
  match details a with
  | FullScanRisk reason _ => if beq (a_fingerprint a) fp then with_details (FullScanRisk reason n) a else a
  | _ => a
  end.
Definition check_scan (now_ms : Z) (stat : QueryStats) (s : RegressionStore) : RegressionStore :=
  match full_scan_reason (fingerprint stat) with
  | Some reason =>
      if existsb (active is_full_scan (fingerprint stat)) (alerts s)
      then set_alerts (map (refresh_calls (fingerprint stat) (count stat)) (alerts s)) s
      else push_alert_inner (fingerprint stat) (FullScanRisk reason (count stat)) now_ms s
  | None => s
  end.

Definition p95_us (stat : QueryStats) : Z := u64 (as_micros (p95 stat)).
Definition latency_ratio (current base : Z) : f64 := f_div (f_of_int current) (f_of_int base).
Definition raise_latency (now_ms : Z) (fp : bytes) (k : AlertKind) (s : RegressionStore) : RegressionStore :=
  match update_first (active is_latency fp) (detected k now_ms) (alerts s) with
  | Some l => set_alerts l s
  | None => push_alert_inner fp k now_ms s
  end.
Definition resolve_latency (fp : bytes) (s : RegressionStore) : RegressionStore :=
  set_alerts (map (fun a => if active is_latency fp a then resolve a else a) (alerts s)) s.

Definition compare_latency (now_ms : Z) (stat : QueryStats) (current : Z) (s : RegressionStore) : RegressionStore :=
  match baseline s !! hash stat with
  | Some base =>
      if 0 <? base then
        let ratio := latency_ratio current base in
        if SFleb LATENCY_RATIO_THRESHOLD ratio
        then raise_latency now_ms (fingerprint stat) (LatencyRegression (i64 base) (i64 current) ratio) s
        else resolve_latency (fingerprint stat) s
      else s
  | None => s
  end.
Definition check_stat (now_ms : Z) (s : RegressionStore) (stat : QueryStats) : RegressionStore :=
  let s := check_scan now_ms stat s in
  let current := p95_us stat in
  if count stat <? MIN_SAMPLES then set_baseline (hash stat) current s
  else if current =? 0 then s
  else set_baseline (hash stat) current (compare_latency now_ms stat current s).

(** Alerts about the latency of statements that are not run any more are resolved first. *)
Definition resolve_gone (current : list QueryStats) (a : RegressionAlert) : RegressionAlert :=
  if is_latency (details a) && negb (resolved a) && negb (existsb (fun st => beq (fingerprint st) (a_fingerprint a)) current)
  then resolve a else a.
Definition check (now_ms : Z) (current : list QueryStats) (s : RegressionStore) : RegressionStore :=
  foldl (check_stat now_ms) (set_alerts (map (resolve_gone current) (alerts s)) s) current.

(** Active alerts first, the newest first among each. *)
Definition snapshot (s : RegressionStore) : list RegressionAlert :=
  take 100 (sort_desc (fun a => if resolved a then 0 else 1) (sort_desc detected_at_ms (alerts s))).
End Regression.

(** * What the alerts promise *)

Module RegressionProps.
Import Collector Regression.

Definition kinds : list (AlertKind -> bool) := [is_hot_key; is_latency; is_full_scan].
Definition active_count (kind : AlertKind -> bool) (fp : bytes) (l : list RegressionAlert) : nat :=
  length (List.filter (active kind fp) l).

(** What the sessions and the background task do with the store. *)
Inductive alert_op := Hot (now_ms : Z) (fp example_sql : bytes) (hit_count : Z) | CheckAll (now_ms : Z) (current : list QueryStats).
Definition alert_step (s : RegressionStore) (op : alert_op) : RegressionStore :=
  match op with
  | Hot now fp sql n => report_hot_key now fp sql n s
  | CheckAll now current => check now current s
  end.

(** One active alert of a kind for each statement, and no more alerts than there may be. *)
Definition tidy (s : RegressionStore) : Prop :=
  (length (alerts s) <= MAX_ALERTS)%nat /\ forall kind fp, kind ∈ kinds -> (active_count kind fp (alerts s) <= 1)%nat.

Lemma active_count_app kind fp l1 l2 : active_count kind fp (l1 ++ l2) = (active_count kind fp l1 + active_count kind fp l2)%nat.
Proof. unfold active_count. by rewrite List.filter_app, length_app. Qed.
Lemma active_count_cons kind fp a l : active_count kind fp (a :: l) = ((if active kind fp a then 1 else 0) + active_count kind fp l)%nat.
Proof. unfold active_count. cbn [List.filter]. by destruct (active kind fp a). Qed.
Lemma active_count_map kind fp f l : (forall a, active kind fp (f a) = true -> active kind fp a = true) ->
  (active_count kind fp (map f l) <= active_count kind fp l)%nat.
Proof.
  intros Hf. induction l as [|a l IH]; cbn [map]; [done|]. rewrite !active_count_cons. specialize (Hf a).
  destruct (active kind fp (f a)); [rewrite Hf by done; lia | lia].
Qed.

Lemma update_first_some p f l l' kind fp : (forall a, p a = true -> active kind fp (f a) = active kind fp a) ->
  update_first p f l = Some l' -> length l' = length l /\ active_count kind fp l' = active_count kind fp l.
Proof.
  intros Hf. revert l'. induction l as [|a l IH]; intros l'; cbn [update_first]; [done|]. destruct (p a) eqn:Hp.
  - intros [= <-]. cbn [length]. by rewrite !active_count_cons, Hf.
  - destruct (update_first p f l) as [l1|]; [|done]. intros [= <-]. destruct (IH l1 eq_refl) as [H1 H2].
    cbn [length]. by rewrite H1, !active_count_cons, H2.
Qed.
Lemma update_first_none kind fp f l : update_first (active kind fp) f l = None -> active_count kind fp l = 0%nat.
Proof.
  induction l as [|a l IH]; cbn [update_first]; [done|]. destruct (active kind fp a) eqn:Hp; [done|].
  destruct (update_first _ _ l); [done|]. intros _. by rewrite active_count_cons, Hp, IH.
Qed.
Lemma remove_first_some l l' kind fp : remove_first resolved l = Some l' ->
  length l = S (length l') /\ active_count kind fp l' = active_count kind fp l.
Proof.
  revert l'. induction l as [|a l IH]; intros l'; cbn [remove_first]; [done|]. destruct (resolved a) eqn:Hr.
  - intros [= <-]. split; [done|]. rewrite active_count_cons. unfold active. by rewrite Hr, andb_false_r.
  - destruct (remove_first resolved l) as [l1|]; [|done]. intros [= <-]. destruct (IH l1 eq_refl) as [H1 H2].
    cbn [length]. by rewrite H1, !active_count_cons, H2.
Qed.

(** Two kinds of [kinds] do not overlap. *)
Lemma kinds_apart kind kind' k : kind ∈ kinds -> kind' ∈ kinds -> kind k = true -> kind' k = true -> kind = kind'.
Proof.
  unfold kinds. rewrite !elem_of_cons, !elem_of_nil.
  intros [->|[->|[->|[]]]] [->|[->|[->|[]]]]; destruct k; done.
Qed.

Lemma tidy_append kind fp k now l s : kind ∈ kinds -> kind k = true -> active_count kind fp l = 0%nat -> (length l < MAX_ALERTS)%nat ->
  (forall kind fp, kind ∈ kinds -> (active_count kind fp l <= 1)%nat) -> tidy (append_alert fp k now l s).
Proof.
  intros Hin Hk Hc Hl Hu. split; cbn [alerts append_alert]; [rewrite length_app; cbn [length]; lia|].
  intros kind' fp' Hin'. rewrite active_count_app, active_count_cons. unfold active at 1. cbn [a_fingerprint details resolved negb].
  change (active_count kind' fp' []) with 0%nat. specialize (Hu kind' fp' Hin').
  destruct (beq fp fp') eqn:Hfp; cbn [andb]; [|lia]. destruct (kind' k) eqn:Hk'; cbn [andb]; [|lia].
  rewrite (kinds_apart kind kind' k) in Hc by done. apply beq_true in Hfp as ->. lia.
Qed.

Lemma tidy_push kind fp k now s : kind ∈ kinds -> kind k = true -> active_count kind fp (alerts s) = 0%nat -> tidy s ->
  tidy (push_alert_inner fp k now s).
Proof.
  intros Hin Hk Hc [Hl Hu]. unfold push_alert_inner. destruct (MAX_ALERTS <=? length (alerts s))%nat eqn:E.
  - destruct (remove_first resolved (alerts s)) as [l|] eqn:Hr; [|done].
    pose proof (fun kind fp => remove_first_some _ _ kind fp Hr) as Hrm. destruct (Hrm kind fp) as [Hlen Hcnt].
    eapply tidy_append; [exact Hin | exact Hk | by rewrite Hcnt | lia|]. intros kind' fp' Hin'. rewrite (proj2 (Hrm _ _)). by apply Hu.
  - apply Nat.leb_gt in E. by eapply tidy_append.
Qed.

(** Changing the first active alert of a kind, or adding one. *)
Lemma tidy_upsert kind fp f k now s : kind ∈ kinds -> kind k = true ->
  (forall a, a_fingerprint (f a) = a_fingerprint a /\ resolved (f a) = resolved a /\ details (f a) = k) -> tidy s ->
  tidy (match update_first (active kind fp) f (alerts s) with Some l => set_alerts l s | None => push_alert_inner fp k now s end).
Proof.
  intros Hin Hk Hf Ht. destruct (update_first _ _ _) as [l|] eqn:Hu.
  - assert (forall kind' fp', kind' ∈ kinds -> length l = length (alerts s) /\ active_count kind' fp' l = active_count kind' fp' (alerts s)) as H.
    { intros kind' fp' Hin'. eapply update_first_some; [|exact Hu]. intros a Ha. destruct (Hf a) as (H1 & H2 & H3).
      unfold active in *. rewrite H1, H2, H3. f_equal. f_equal. apply andb_prop in Ha as [Ha _]. apply andb_prop in Ha as [_ Ha].
      destruct (kind' k) eqn:E1, (kind' (details a)) eqn:E2; try done.
      - assert (kind = kind') as <- by (by apply (kinds_apart kind kind' k)). congruence.
      - assert (kind = kind') as <- by (by apply (kinds_apart kind kind' (details a))). congruence. }
    destruct Ht as [Ht1 Ht2]. split; cbn [alerts set_alerts].
    + by rewrite (proj1 (H _ fp Hin)).
    + intros kind' fp' Hin'. rewrite (proj2 (H _ _ Hin')). by apply Ht2.
  - eapply tidy_push; [exact Hin | done | by eapply update_first_none | done].
Qed.

Lemma tidy_map f s : (forall kind fp a, kind ∈ kinds -> active kind fp (f a) = true -> active kind fp a = true) -> tidy s ->
  tidy (set_alerts (map f (alerts s)) s).
Proof.
  intros Hf [H1 H2]. split; cbn [alerts set_alerts]; [by rewrite length_map|]. intros kind fp Hin.
  eapply Nat.le_trans; [apply active_count_map; intros a; by apply Hf | by apply H2].
Qed.
Lemma resolve_active kind fp a : active kind fp (resolve a) = false.
Proof. unfold active. cbn [resolved resolve]. by rewrite andb_false_r. Qed.

Lemma in_kinds_hot : is_hot_key ∈ kinds. Proof. by left. Qed.
Lemma in_kinds_latency : is_latency ∈ kinds. Proof. by right; left. Qed.
Lemma in_kinds_scan : is_full_scan ∈ kinds. Proof. by right; right; left. Qed.
#[local] Hint Resolve in_kinds_hot in_kinds_latency in_kinds_scan : core.

Lemma kinds_scan kind reason reason' n n' : kind ∈ kinds -> kind (FullScanRisk reason n) = kind (FullScanRisk reason' n').
Proof. unfold kinds. rewrite !elem_of_cons, elem_of_nil. by intros [->|[->|[->|[]]]]. Qed.

Lemma tidy_check_scan now stat s : tidy s -> tidy (check_scan now stat s).
Proof.
  intros Ht. unfold check_scan. destruct (full_scan_reason _) as [reason|]; [|done].
  destruct (existsb _ _) eqn:E.
  - apply tidy_map; [|done]. intros kind fp a Hin. unfold refresh_calls. destruct (details a) eqn:Hd; [done..|].
    case_match; [|done]. unfold active. cbn [a_fingerprint details resolved with_details]. rewrite Hd.
    by rewrite (kinds_scan _ reason0 reason0 (count stat) call_count Hin).
  - eapply tidy_push; [eauto | done | | done].
    unfold active_count. induction (alerts s) as [|a l IH]; [done|]. cbn [existsb List.filter] in *.
    apply orb_false_iff in E as [-> E]. by apply IH.
Qed.

Lemma tidy_check_stat now s stat : tidy s -> tidy (check_stat now s stat).
Proof.
  intros Ht. unfold check_stat. cbv zeta. pose proof (tidy_check_scan now stat s Ht) as H1.
  destruct (count stat <? MIN_SAMPLES); [exact H1|]. destruct (p95_us stat =? 0); [exact H1|].
  change (tidy (compare_latency now stat (p95_us stat) (check_scan now stat s))). unfold compare_latency.
  destruct (_ !! _) as [base|]; [|exact H1]. destruct (0 <? base); [|exact H1]. destruct (SFleb _ _).
  - by apply tidy_upsert with (kind := is_latency).
  - unfold resolve_latency. apply tidy_map; [|exact H1]. intros kind fp a _. destruct (active is_latency _ a); [|done].
    by rewrite resolve_active.
Qed.

(** However many statements repeat themselves, slow down or read whole tables: the store
    holds at most two hundred alerts, and of one kind at most one active alert for a
    statement. *)
Theorem alerts_bounded_and_unique ops :
  let s := foldl alert_step store_new ops in
  (length (alerts s) <= MAX_ALERTS)%nat /\
  (forall fp, active_count is_hot_key fp (alerts s) <= 1 /\ active_count is_latency fp (alerts s) <= 1 /\
              active_count is_full_scan fp (alerts s) <= 1)%nat.
Proof.
  assert (forall s, tidy s -> tidy (foldl alert_step s ops)) as H.
  { induction ops as [|op ops IH]; intros s Hs; cbn [foldl]; [done|]. apply IH. destruct op as [now fp sql n|now current]; cbn [alert_step].
    - by apply tidy_upsert with (kind := is_hot_key).
    - unfold check. assert (tidy (set_alerts (map (resolve_gone current) (alerts s)) s)) as H1.
      { apply tidy_map; [|done]. intros kind fp a _. unfold resolve_gone. case_match; [by rewrite resolve_active | done]. }
      revert H1. generalize (set_alerts (map (resolve_gone current) (alerts s)) s). induction current as [|st current IH']; intros s1 H1; [done|].
      cbn [foldl]. by apply IH', tidy_check_stat. }
  destruct (H store_new) as [H1 H2]; [|split; [exact H1 | intros fp; split_and!; by apply H2]].
  split; [cbn; unfold MAX_ALERTS; lia|]. intros kind fp _. cbn. lia.
Qed.

(** ** An alert store that is full stays as it is *)

(** Full of alerts about repeated statements and table scans, which nothing resolves. *)
Definition stuck (l : list RegressionAlert) : Prop :=
  length l = MAX_ALERTS /\ Forall (fun a => resolved a = false /\ is_latency (details a) = false) l.
Definition idents (l : list RegressionAlert) : list (Z * bytes) := map (fun a => (id a, a_fingerprint a)) l.
Definition same_alerts (s s' : RegressionStore) : Prop := stuck (alerts s') /\ idents (alerts s') = idents (alerts s).

Lemma same_alerts_trans s1 s2 s3 : same_alerts s1 s2 -> same_alerts s2 s3 -> same_alerts s1 s3.
Proof. intros [_ H1] [H2 H3]. split; [done|]. by rewrite H3. Qed.

Lemma stuck_push fp k now s : stuck (alerts s) -> push_alert_inner fp k now s = s.
Proof.
  intros [Hl Hf]. unfold push_alert_inner. rewrite Hl, Nat.leb_refl.
  assert (remove_first resolved (alerts s) = None) as ->; [|done].
  clear Hl. induction Hf as [|a l [Ha _] _ IH]; cbn [remove_first]; [done|]. by rewrite Ha, IH.
Qed.
Lemma stuck_update p f s l : stuck (alerts s) ->
  (forall a, p a = true -> id (f a) = id a /\ a_fingerprint (f a) = a_fingerprint a /\ resolved (f a) = resolved a
     /\ is_latency (details (f a)) = false) ->
  update_first p f (alerts s) = Some l -> same_alerts s (set_alerts l s).
Proof.
  intros [Hl Hs] Hf. unfold same_alerts, stuck. rewrite <- Hl. cbn [alerts set_alerts]. clear Hl. revert l.
  induction Hs as [|a l' [Ha1 Ha2] Hs IH]; intros l; cbn [update_first]; [done|]. destruct (p a) eqn:Hp.
  - intros [= <-]. destruct (Hf a Hp) as (H1 & H2 & H3 & H4). cbn [length idents map]. rewrite H1, H2. split; [split|]; try done.
    constructor; [by rewrite H3|done].
  - destruct (update_first p f l') as [l1|]; [|done]. intros [= <-]. destruct (IH l1 eq_refl) as [[IH1 IH2] IH3].
    unfold idents in *. cbn [length map]. rewrite IH1, IH3. split; [split|]; try done. by constructor.
Qed.
Lemma stuck_map f s : stuck (alerts s) ->
  (forall a, resolved a = false -> is_latency (details a) = false -> id (f a) = id a /\ a_fingerprint (f a) = a_fingerprint a
     /\ resolved (f a) = false /\ is_latency (details (f a)) = false) ->
  same_alerts s (set_alerts (map f (alerts s)) s).
Proof.
  intros [Hl Hs] Hf. unfold same_alerts, stuck, idents. cbn [alerts set_alerts]. rewrite length_map, map_map. split; [split; [done|]|].
  - clear Hl. induction Hs as [|a l [H1 H2] _ IH]; constructor; [by apply Hf | done].
  - apply map_ext_in. intros a Ha. rewrite Forall_forall in Hs. destruct (Hs a Ha) as [H1 H2].
    destruct (Hf a H1 H2) as (-> & -> & _). done.
Qed.
Lemma same_alerts_refl s : stuck (alerts s) -> same_alerts s s.
Proof. by split. Qed.

Lemma stuck_check_stat now s stat : stuck (alerts s) -> same_alerts s (check_stat now s stat).
Proof.
  intros Hs. unfold check_stat. cbv zeta.
  assert (same_alerts s (check_scan now stat s)) as H1.
  { unfold check_scan. destruct (full_scan_reason _); [|by apply same_alerts_refl]. destruct (existsb _ _).
    - apply stuck_map; [done|]. intros a Hr Hl. unfold refresh_calls. destruct (details a) eqn:Hd; [by rewrite Hd..|].
      case_match; cbn [id a_fingerprint resolved details with_details]; [done | by rewrite Hd].
    - rewrite stuck_push by done. by apply same_alerts_refl. }
  destruct (count stat <? MIN_SAMPLES); [exact H1|]. destruct (p95_us stat =? 0); [exact H1|].
  change (same_alerts s (compare_latency now stat (p95_us stat) (check_scan now stat s))).
  eapply same_alerts_trans; [exact H1|]. destruct H1 as [H1 _]. revert H1. generalize (check_scan now stat s). intros s1 H1.
  assert (forall fp a, a ∈ alerts s1 -> active is_latency fp a = false) as Hno.
  { intros fp a Ha. destruct H1 as [_ H1]. rewrite Forall_forall in H1. destruct (H1 a (proj1 (list_elem_of_In _ _) Ha)) as [_ H2].
    unfold active. by rewrite H2, andb_false_r. }
  unfold compare_latency. destruct (_ !! _) as [base|]; [|by apply same_alerts_refl].
  destruct (0 <? base); [|by apply same_alerts_refl]. destruct (SFleb _ _).
  - unfold raise_latency. assert (forall f, update_first (active is_latency (fingerprint stat)) f (alerts s1) = None) as ->.
    { intros f. clear H1. induction (alerts s1) as [|a l IH]; cbn [update_first]; [done|]. rewrite Hno by left.
      rewrite IH; [done|]. intros fp b Hb. apply Hno. by right. }
    rewrite stuck_push by done. by apply same_alerts_refl.
  - unfold resolve_latency. apply stuck_map; [done|]. intros a Hr Hl. unfold active. rewrite Hl, andb_false_r. done.
Qed.

(** Two hundred alerts about repeated statements or table scans are the last ones: whatever
    is reported and checked from then on, no other alert is raised and none is resolved. *)
Theorem full_alert_store_is_final s ops : stuck (alerts s) ->
  let s' := foldl alert_step s ops in stuck (alerts s') /\ idents (alerts s') = idents (alerts s).
Proof.
  change (stuck (alerts s) -> same_alerts s (foldl alert_step s ops)).
  revert s. induction ops as [|op ops IH]; intros s Hs; cbn [foldl]; [by apply same_alerts_refl|].
  assert (same_alerts s (alert_step s op)) as H1; [|eapply same_alerts_trans; [exact H1 | by apply IH, H1]].
  destruct op as [now fp sql n|now current]; cbn [alert_step].
  - unfold report_hot_key. cbv zeta. destruct (update_first _ _ _) as [l|] eqn:Hu.
    + eapply stuck_update; [done | | exact Hu]. done.
    + rewrite stuck_push by done. by apply same_alerts_refl.
  - unfold check. assert (same_alerts s (set_alerts (map (resolve_gone current) (alerts s)) s)) as H1.
    { apply stuck_map; [done|]. intros a Hr Hl. unfold resolve_gone. by rewrite Hl. }
    eapply same_alerts_trans; [exact H1|]. destruct H1 as [H1 _]. revert H1.
    generalize (set_alerts (map (resolve_gone current) (alerts s)) s). induction current as [|st current IH']; intros s1 H1; [by apply same_alerts_refl|].
    cbn [foldl]. pose proof (stuck_check_stat now s1 st H1) as H2. eapply same_alerts_trans; [exact H2 | by apply IH', H2].
Qed.

Lemma stuck_decided l :
  (length l =? MAX_ALERTS)%nat && forallb (fun a => negb (resolved a) && negb (is_latency (details a))) l = true -> stuck l.
Proof.
  intros H. apply andb_prop in H as [H1 H2]. split; [by apply Nat.eqb_eq|]. apply Forall_forall. intros a Ha.
  rewrite forallb_forall in H2. specialize (H2 a Ha). apply andb_prop in H2 as [H2 H3]. by apply negb_true_iff in H2, H3.
Qed.

(** Two hundred repeated statements fill the store. *)
Definition full_store : RegressionStore :=
  foldl (fun s n => report_hot_key 0 [Z.of_nat n] [Z.of_nat n] 30 s) store_new (seq 0 200).
Lemma full_alert_store_is_final_witness :
  idents (alerts (foldl alert_step full_store [Hot 5 (bs "SELECT ?") (bs "SELECT 1") 30])) = idents (alerts full_store).
Proof.
  apply full_alert_store_is_final, stuck_decided. by vm_compute.
Defined.

(** ** A regression is an alert for one check *)

Lemma ratio_of_same x : SFleb LATENCY_RATIO_THRESHOLD (f_div x x) = false.
Proof.
  destruct x as [s|s| |s m e]; [by destruct s | by destruct s | done|].
  assert (SFdiv_core_binary 53 1024 (Z.pos m) e (Z.pos m) e = (2 ^ 53, -53, loc_Exact)) as E.
  { unfold SFdiv_core_binary. cbv zeta. rewrite !Z.sub_diag.
    change (Z.min (fexp 53 1024 0) 0) with (-53). change (0 - -53) with 53. cbv iota.
    rewrite Z.shiftl_mul_pow2 by lia. pose proof (Z_div_mod (Z.pos m * 2 ^ 53) (Z.pos m) ltac:(lia)) as Hd.
    destruct (Z.div_eucl _ _) as [q r]. destruct Hd as [Hd Hr]. destruct (Z.div_mod_unique (Z.pos m) q (2 ^ 53) r 0) as [-> ->]; [lia..|].
    unfold new_location. by destruct (Z.even _). }
  unfold f_div, SFdiv. rewrite E. rewrite xorb_nilpotent. by vm_compute.
Qed.

Lemma update_first_found kind fp f l l' : (forall a, active kind fp a = true -> active kind fp (f a) = true) ->
  update_first (active kind fp) f l = Some l' -> (1 <= active_count kind fp l')%nat.
Proof.
  intros Hf. revert l'. induction l as [|a l IH]; intros l'; cbn [update_first]; [done|]. destruct (active kind fp a) eqn:Hp.
  - intros [= <-]. rewrite active_count_cons, Hf by done. lia.
  - destruct (update_first _ _ l) as [l1|]; [|done]. intros [= <-]. specialize (IH l1 eq_refl). rewrite active_count_cons. lia.
Qed.

Lemma check_scan_shape now stat s :
  baseline (check_scan now stat s) = baseline s /\ (length (alerts (check_scan now stat s)) <= S (length (alerts s)))%nat.
Proof.
  unfold check_scan. destruct (full_scan_reason _); [|by auto]. destruct (existsb _ _); [cbn; rewrite length_map; auto|].
  unfold push_alert_inner. case_match; [destruct (remove_first _ _) eqn:E; [|by auto]|]; cbn; rewrite length_app; cbn [length].
  - apply (remove_first_some _ _ is_latency []) in E as [E _]. split; [done|lia].
  - split; [done|lia].
Qed.

Lemma resolve_latency_none fp s : active_count is_latency fp (alerts (resolve_latency fp s)) = 0%nat.
Proof.
  cbn [alerts resolve_latency set_alerts]. induction (alerts s) as [|a l IH]; cbn [map]; [done|]. rewrite active_count_cons, IH.
  destruct (active is_latency fp a) eqn:E; [by rewrite resolve_active | by rewrite E].
Qed.

(** A statement that is at least 1.4 times as slow as at the check before raises an alert.
    If it stays exactly as slow, the next check takes the alert for resolved: the baseline
    has followed. *)
Theorem regression_forgotten_at_next_check now1 now2 stat base s :
  MIN_SAMPLES <= count stat -> 0 < p95_us stat -> 0 < base -> baseline s !! hash stat = Some base ->
  SFleb LATENCY_RATIO_THRESHOLD (latency_ratio (p95_us stat) base) = true ->
  (S (length (alerts s)) < MAX_ALERTS)%nat ->
  let s1 := check now1 [stat] s in
  (1 <= active_count is_latency (fingerprint stat) (alerts s1))%nat /\
  active_count is_latency (fingerprint stat) (alerts (check now2 [stat] s1)) = 0%nat.
Proof.
  intros Hc Hp Hb Hbase Hr Hl s1. unfold check in s1 |- *. cbn [foldl] in *.
  assert (forall now s, check_stat now s stat =
    set_baseline (hash stat) (p95_us stat) (compare_latency now stat (p95_us stat) (check_scan now stat s))) as Hcs.
  { intros now s'. unfold check_stat. cbv zeta. rewrite (proj2 (Z.ltb_ge _ _)) by done. by rewrite (proj2 (Z.eqb_neq _ _)) by lia. }
  unfold s1. rewrite !Hcs. cbn [alerts set_baseline]. unfold compare_latency.
  destruct (check_scan_shape now1 stat (set_alerts (map (resolve_gone [stat]) (alerts s)) s)) as [H1 H2].
  cbn [baseline alerts set_alerts] in H1, H2. rewrite length_map in H2. rewrite H1, Hbase, (proj2 (Z.ltb_lt _ _)) by done. cbv zeta. rewrite Hr. split.
  - revert H2. generalize (check_scan now1 stat (set_alerts (map (resolve_gone [stat]) (alerts s)) s)). intros s2 H2.
    unfold raise_latency. destruct (update_first _ _ _) as [l|] eqn:Hu.
    + eapply update_first_found; [|exact Hu]. intros a Ha. unfold active in *. cbn [a_fingerprint detected details resolved].
      apply andb_prop in Ha as [Ha ->]. apply andb_prop in Ha as [-> _]. done.
    + unfold push_alert_inner. destruct (MAX_ALERTS <=? length (alerts s2))%nat eqn:E; [apply Nat.leb_le in E; lia|].
      cbn [alerts append_alert]. rewrite active_count_app, active_count_cons. change (active_count is_latency (fingerprint stat) []) with 0%nat. unfold active at 1. cbn [a_fingerprint details resolved]. rewrite beq_refl. cbn. lia.
  - match goal with |- context [check_scan now2 stat ?x] => destruct (check_scan_shape now2 stat x) as [H3 _] end.
    cbn [baseline set_alerts set_baseline] in H3. rewrite H3, lookup_insert_eq, (proj2 (Z.ltb_lt _ _)) by done. cbv zeta.
    unfold latency_ratio. rewrite ratio_of_same. apply resolve_latency_none.
Qed.

(** Ten runs of 20 ms each, after a check at 10 ms. *)
Definition slow_stat : QueryStats :=
  {| hash := 1; fingerprint := bs "SELECT ?"; count := 10; total_duration := 200 * 10 ^ 6; min_duration := 20 * 10 ^ 6;
     max_duration := 20 * 10 ^ 6; last_seen := 0; latencies := repeat (20 * 10 ^ 6) 10; total_us := 200000; min_us := 20000;
     max_us := 20000 |}.
Definition slow_store : RegressionStore := set_baseline 1 10000 store_new.
Lemma regression_forgotten_at_next_check_witness :
  active_count is_latency (bs "SELECT ?") (alerts (check 2 [slow_stat] (check 1 [slow_stat] slow_store))) = 0%nat.
Proof.
  apply (regression_forgotten_at_next_check 1 2 slow_stat 10000 slow_store); [by vm_compute.. | by apply Nat.ltb_lt].
Defined.
End RegressionProps.

(** * What the counters promise *)

Module AppAnalyticsProps.
Import AppAnalytics.

Inductive Dimension := ByUser | ByIp | ByApp.
Abbreviation Who := (bytes * bytes * bytes)%type.
Definition dim (d : Dimension) (s : AppAnalyticsStore) : Dim :=
  match d with ByUser => by_user s | ByIp => by_ip s | ByApp => by_app s end.
Definition key_of (d : Dimension) (w : Who) : option bytes :=
  match d with ByUser => Some w.1.1 | ByIp => Some w.1.2 | ByApp => if beq w.2 [] then None else Some w.2 end.
Definition open_with (d : Dimension) (k : bytes) (open : list Who) : Z :=
  Z.of_nat (length (List.filter (fun w => bool_decide (key_of d w = Some k)) open)).
Definition active (d : Dimension) (k : bytes) (s : AppAnalyticsStore) : Z :=
  match dim d s !! k with Some e => connections_active e | None => 0 end.

(** What sessions report: that they begin, a statement while they are open, that they end. *)
Inductive session_step : AppAnalyticsStore * list Who -> AppAnalyticsStore * list Who -> Prop :=
| step_connect now u ip app s open : Z.of_nat (length open) + 1 < 2 ^ 64 ->
    session_step (s, open) (on_connect now u ip app s, (u, ip, app) :: open)
| step_query now r w u ip app s open : (u, ip, app) ∈ open ->
    session_step (s, open) (on_query now r w u ip app s, open)
| step_disconnect u ip app s open open' : open ≡ₚ (u, ip, app) :: open' ->
    session_step (s, open) (on_disconnect u ip app s, open').

Lemma dim_on_dims d f u ip app s :
  dim d (on_dims f u ip app s) = match key_of d (u, ip, app) with Some k => f k (dim d s) | None => dim d s end.
Proof. destruct d; cbn; [done..|]. by destruct (beq app []). Qed.

Lemma open_with_cons d k w open : open_with d k (w :: open) = (if bool_decide (key_of d w = Some k) then 1 else 0) + open_with d k open.
Proof. unfold open_with. cbn [List.filter]. case_bool_decide; cbn [length]; lia. Qed.
Lemma open_with_perm d k o1 o2 : o1 ≡ₚ o2 -> open_with d k o1 = open_with d k o2.
Proof. induction 1 as [|w l1 l2 _ IH|x y l|l1 l2 l3 _ IH1 _ IH2]; rewrite ?open_with_cons; lia. Qed.
Lemma open_with_range d k open : 0 <= open_with d k open <= Z.of_nat (length open).
Proof. unfold open_with. pose proof (List.filter_length_le (fun w => bool_decide (key_of d w = Some k)) open). lia. Qed.

Definition in_step (s : AppAnalyticsStore * list Who) : Prop :=
  Z.of_nat (length s.2) < 2 ^ 64 /\ forall d k, active d k s.1 = open_with d k s.2.

Lemma in_step_step s s' : in_step s -> session_step s s' -> in_step s'.
Proof.
  intros [Hl Hs] H. destruct H as [now u ip app s open Hb|now r w u ip app s open Hin|u ip app s open open' Hp]; cbn [fst snd] in *.
  - split; cbn [fst snd length]; [lia|]. intros d k. rewrite open_with_cons, <- Hs. unfold active, on_connect. rewrite dim_on_dims.
    destruct (key_of d (u, ip, app)) as [k'|]; [|done]. unfold conn_open. rewrite lookup_insert.
    pose proof (open_with_range d k open) as Hr. rewrite <- Hs in Hr. unfold active in Hr. case_decide as Hk.
    + subst k'. rewrite bool_decide_eq_true_2 by done. cbn [connections_active].
      destruct (dim d s !! k) as [e|]; cbn [default dim_new connections_active from_option id] in *; unfold usize; rewrite wrap_small;
        unfold in_width, id in *; lia.
    + rewrite bool_decide_eq_false_2 by congruence. lia.
  - split; [done|]. intros d k. cbn [fst snd]. rewrite <- Hs. unfold active, on_query. rewrite dim_on_dims.
    destruct (key_of d (u, ip, app)) as [k'|]; [|done]. unfold query. rewrite lookup_alter.
    case_decide as Hk; [subst k'|done]. by destruct (dim d s !! k).
  - split; cbn [fst snd]; [apply Permutation_length in Hp; cbn [length] in Hp; lia|]. intros d k.
    assert (active d k s = open_with d k open) as Hdk by apply Hs. rewrite (open_with_perm _ _ _ _ Hp), open_with_cons in Hdk. pose proof (open_with_range d k open') as Hr.
    unfold active, on_disconnect in *. rewrite dim_on_dims. destruct (key_of d (u, ip, app)) as [k'|]; [|rewrite bool_decide_eq_false_2 in Hdk by done; lia].
    unfold conn_close. destruct (decide (k' = k)) as [->|Hk].
    + rewrite lookup_alter_eq. rewrite bool_decide_eq_true_2 in Hdk by done.
      destruct (dim d s !! k) as [e|]; cbn; [unfold sat_sub; lia | lia].
    + rewrite lookup_alter_ne by done. rewrite bool_decide_eq_false_2 in Hdk by congruence. lia.
Qed.

(** The number of active connections of a user, a client or an application never drifts: it
    is the number of its open sessions, however sessions begin, work and end. *)
Theorem active_connections_exact s open d k :
  steps session_step (store_new, []) (s, open) -> active d k s = open_with d k open.
Proof.
  intros H. assert (in_step (s, open)) as [_ Hs]; [|by apply Hs].
  eapply (steps_invariant session_step in_step); [exact in_step_step | exact H|].
  split; [done|]. intros d' k'. by destruct d'.
Qed.

Lemma active_connections_exact_witness :
  active ByIp (bs "10.0.0.1")
    (on_disconnect (bs "app") (bs "10.0.0.1") [] (on_connect 2 (bs "ro") (bs "10.0.0.1") [] (on_connect 1 (bs "app") (bs "10.0.0.1") [] store_new))) = 1.
Proof.
  apply (active_connections_exact _ [(bs "ro", bs "10.0.0.1", [])] ByIp).
  eapply steps_next; [apply step_connect; simpl; lia|]. eapply steps_next; [apply step_connect; simpl; lia|].
  eapply steps_next; [|apply steps_refl]. apply step_disconnect. apply Permutation_swap.
Defined.
End AppAnalyticsProps.

Module ErrorEventsProps.
Import ErrorEvents.

Definition push_all (evs : list ErrorEvent) (s : ErrorEventStore) : ErrorEventStore := foldl (fun s ev => push ev s) s evs.

(** The ring holds the last events and [list_filtered] shows the newest of a protocol first;
    a capacity of zero is one of one. *)
Theorem event_ring_keeps_last cap evs limit p : Z.of_nat (length evs) < 2 ^ 64 ->
  let s := push_all evs (store_new cap) in
  events s = suffix (Nat.max 1 cap) evs /\ total s = Z.of_nat (length evs) /\
  list_filtered limit p s = take limit (List.filter (of_protocol p) (rev (suffix (Nat.max 1 cap) evs))).
Proof.
  intros Hl s. enough (events s = suffix (Nat.max 1 cap) evs /\ total s = Z.of_nat (length evs) /\ capacity s = cap) as (H1 & H2 & _)
    by (split_and!; [done..|]; unfold list_filtered; by rewrite H1).
  unfold s. clear s. induction evs as [|ev evs IH] using rev_ind; [done|]. rewrite length_app in *. cbn [length] in *.
  destruct IH as (H1 & H2 & H3); [lia|]. unfold push_all in *. rewrite foldl_app. cbn [foldl].
  set (s := foldl _ (store_new cap) evs) in *. unfold push. cbn [events total capacity]. rewrite H1, H2, H3. unfold usize. rewrite wrap_small by (unfold in_width; lia).
  split_and!; [| lia | done]. unfold suffix. rewrite length_app, length_drop. cbn [length].
  destruct (cap <=? _)%nat eqn:E; [apply Nat.leb_le in E | apply Nat.leb_gt in E].
  - destruct (decide (length evs < Nat.max 1 cap)%nat).
    + rewrite drop_drop. destruct evs as [|x evs]; [cbn; by destruct cap as [|[|cap]]|]. cbn [length] in *.
      assert (cap = 0 \/ cap = length (x :: evs))%nat as [->| ->] by (cbn [length]; lia); [lia|]. cbn [length].
      rewrite Nat.max_r by lia. replace (S (length evs) - S (length evs) + 1)%nat with 1%nat by lia.
      replace (S (length evs) + 1 - S (length evs))%nat with 1%nat by lia. done.
    + rewrite drop_drop, drop_app_le by lia. f_equal. f_equal. lia.
  - rewrite drop_app_le by lia. f_equal. f_equal. lia.
Qed.

Definition duplicate_at (now : Z) : ErrorEvent := event_new now 1062 (bs "duplicate") [] [] [] [] (f_of_int 0).
Lemma event_ring_keeps_last_witness :
  map ts (list_filtered 5 None (push_all [duplicate_at 1; duplicate_at 2; duplicate_at 3] (store_new 2))) = [3; 2].
Proof.
  rewrite (proj2 (proj2 (event_ring_keeps_last 2 [duplicate_at 1; duplicate_at 2; duplicate_at 3] 5 None ltac:(simpl; lia)))).
  by vm_compute.
Defined.

(** ** The statistics *)

Fixpoint how_many (p : ErrorEvent -> bool) (l : list ErrorEvent) : Z :=
  match l with [] => 0 | x :: l' => (if p x then 1 else 0) + how_many p l' end.
Lemma how_many_app p l1 l2 : how_many p (l1 ++ l2) = how_many p l1 + how_many p l2.
Proof. induction l1 as [|x l1 IH]; cbn [how_many app]; lia. Qed.
Lemma how_many_range p l : 0 <= how_many p l <= Z.of_nat (length l).
Proof. induction l as [|x l IH]; cbn [how_many length]; [lia|]. destruct (p x); lia. Qed.

Definition counts_exactly (m : gmap bytes Z) (p : ErrorEvent -> bool) (l : list ErrorEvent) : Prop :=
  forall cat, default 0 (m !! cat) = how_many (fun ev => p ev && beq (category ev) cat) l.

Lemma counts_exactly_step m p l ev : Z.of_nat (length l) + 1 < 2 ^ 64 -> counts_exactly m p l ->
  counts_exactly (count_in (p ev) (category ev) m) p (l ++ [ev]).
Proof.
  intros Hl Hm cat. rewrite how_many_app. cbn [how_many]. unfold count_in.
  pose proof (how_many_range (fun ev => p ev && beq (category ev) cat) l) as Hr. destruct (p ev); cbn [andb]; [|rewrite <- Hm; lia].
  rewrite lookup_insert. case_decide as Hc.
  - subst cat. rewrite beq_refl. cbn [default from_option id]. rewrite (Hm (category ev)). unfold usize, id. rewrite wrap_small; unfold in_width; lia.
  - rewrite <- Hm. unfold beq. rewrite bool_decide_eq_false_2 by done. lia.
Qed.

Lemma counts_exactly_nil p : counts_exactly ∅ p [].
Proof. intros cat. by rewrite lookup_empty. Qed.

(** The statistics of the error page: by category the events of the last hour, day and week
    of the protocol, and the number of all of them. *)
Theorem stats_count_exactly now p s : Z.of_nat (length (events s)) < 2 ^ 64 ->
  let st := collect_stats now p s in
  let l := List.filter (of_protocol p) (events s) in
  counts_exactly (cat_1h st) (fun ev => now - ts ev <=? 3600) l /\
  counts_exactly (cat_24h st) (fun ev => now - ts ev <=? 86400) l /\
  counts_exactly (cat_7d st) (fun ev => now - ts ev <=? 604800) l /\
  filtered_total st = Z.of_nat (length l).
Proof.
  intros Hl st l. assert (Z.of_nat (length l) < 2 ^ 64) as Hl'
    by (pose proof (List.filter_length_le (of_protocol p) (events s)); unfold l; lia).
  unfold st, collect_stats. fold l. clearbody l. clear Hl st. induction l as [|ev l IH] using rev_ind.
  { split_and!; [apply counts_exactly_nil.. | done]. }
  rewrite length_app in *. cbn [length] in *. destruct IH as (H1 & H2 & H3 & H4); [lia|]. rewrite foldl_app. cbn [foldl].
  unfold count_event at 1 3 5 7. cbv zeta. cbn [cat_1h cat_24h cat_7d filtered_total]. rewrite H4. split_and!.
  - by apply (counts_exactly_step _ (fun ev => now - ts ev <=? 3600)); [lia|].
  - by apply (counts_exactly_step _ (fun ev => now - ts ev <=? 86400)); [lia|].
  - by apply (counts_exactly_step _ (fun ev => now - ts ev <=? 604800)); [lia|].
  - unfold usize. rewrite wrap_small; unfold in_width; lia.
Qed.

Lemma stats_count_exactly_witness :
  let s := push_all [event_new 0 1045 [] [] [] [] [] (f_of_int 0); event_new 9000 1045 [] [] [] [] [] (f_of_int 0)] (store_new 10) in
  default 0 (cat_1h (collect_stats 10000 None s) !! bs "AUTH") = 1.
Proof.
  cbv zeta. rewrite (proj1 (stats_count_exactly 10000 None (push_all [event_new 0 1045 [] [] [] [] [] (f_of_int 0);
    event_new 9000 1045 [] [] [] [] [] (f_of_int 0)] (store_new 10)) ltac:(by vm_compute)) (bs "AUTH")). by vm_compute.
Defined.
End ErrorEventsProps.
