(* ===== verification/PgHealth.v ===== *)
(** * The health checker of PostgreSQL (src/src/proxy/pg_health.rs)

    The same failover machine as in Health.v, with the circuit breakers driven from the
    checks, other questions to the servers, and the optional answer of a Patroni agent,
    which is a parameter.  The number of discovered replicas, of which the routing takes no
    notice, is threaded through the ticks. *)

From S2P Require Import Prelude Bytes Config CircuitBreaker MysqlCodec MysqlResponse Handshake Pool Health PgWire.

(** ** Reading responses *)

(** The messages of a response, up to the first one that is not complete. *)
Fixpoint walk (fuel : nat) (s : bytes) : list Msg :=
  match fuel with
  | O => []
  | S fuel' =>
      if (length s <? 5)%nat then []
      else
        let len := of_be (take 4 (drop 1 s)) in
        if (len <? 4) || (Z.of_nat (length s) <? 1 + len) then []
        else (at_ s 0, take (Z.to_nat (len - 4)) (drop 5 s)) :: walk fuel' (drop (Z.to_nat (1 + len)) s)
  end.
Definition messages (s : bytes) : list Msg := walk (length s) s.

Definition i32 (z : Z) : Z := (z + 2 ^ 31) mod 2 ^ 32 - 2 ^ 31.
Definition as_text (s : bytes) : option bytes := if utf8_valid s then Some s else None.

(** The first field of a row; the row may be too short or the field NULL. *)
Definition first_field (payload : bytes) : option bytes :=
  let field_len := i32 (of_be (take 4 (drop 2 payload))) in
  if field_len <? 0 then None
  else if Z.of_nat (length payload) <? 6 + field_len then None
  else as_text (take (Z.to_nat field_len) (drop 6 payload)).
Definition row_value (m : Msg) : option bytes :=
  if (fst m =? ch "D") && (6 <=? length (snd m))%nat then first_field (snd m) else None.
Definition extract_text_values (s : bytes) : list bytes := omap row_value (messages s).

(** The first row decides. *)
Definition only_value (payload : bytes) : option bytes :=
  if (length payload <? 2)%nat then None
  else if of_be (take 2 payload) =? 0 then None
  else if (length payload <? 6)%nat then None
  else first_field payload.
Definition extract_text_value (s : bytes) : option bytes :=
  match List.find (fun m => fst m =? ch "D") (messages s) with
  | Some m => only_value (snd m)
  | None => None
  end.

Definition response_contains (s needle : bytes) : bool := str_contains s needle.

(** [parse::<i64>()]. *)
Definition parse_i64 (s : bytes) : option Z :=
  match s with
  | 45 :: (_ :: _) as ds =>
      match parse_digits 0 (drop 1 s) with Some v => if v <=? 2 ^ 63 then Some (- v) else None | None => None end
  | _ => match parse_uint 64 s with Some v => if v <? 2 ^ 63 then Some v else None | None => None end
  end.

(** ** The checker *)

Record PgHealthChecker := {
  base : HealthChecker;
  patroni_check : bool;
  patroni_api_port : Z;
  health_check_database : bytes
}.
(** What came of asking a Patroni agent; a role that is missing is the empty text. *)
Inductive PatroniAnswer := Role (role : bytes) | NotJson | NoSuccess | Failed.

Section Checks.
Context {W C : Type} `{IO : !BackendIO W C}.
Variable patroni : bytes -> W -> PatroniAnswer * W.
Variable hc : PgHealthChecker.
Local Abbreviation HB := (B (W := W) (C := C)).
Implicit Types p : BackendPool C.

Definition control_db_config (cfg : BackendConfig) : BackendConfig :=
  if beq (health_check_database hc) [] then cfg else with_database (Some (health_check_database hc)) cfg.
Definition host_of (cfg : BackendConfig) : bytes := default (bs "127.0.0.1") (head (split_on 58 (addr cfg))).
Definition patroni_url (cfg : BackendConfig) : bytes :=
  bs "http://" ++ host_of cfg ++ bs ":" ++ show_u64 (patroni_api_port hc) ++ bs "/patroni".
Definition ask_patroni (cfg : BackendConfig) : HB PatroniAnswer := fun s =>
  let (a, w) := patroni (patroni_url cfg) (snd s) in (Ok a, (fst s, w)).
Definition is_leader (role : bytes) : bool := beq role (bs "master") || beq role (bs "primary") || beq role (bs "leader").
Definition is_standby (role : bytes) : bool :=
  beq role (bs "replica") || beq role (bs "standby") || beq role (bs "standby_leader").

Definition ping_conn (c : C) : HB (result bytes unit * C) := fun s =>
  let '(r, c', w) := Pool.ping c (snd s) in (Ok (r, c'), (fst s, w)).

(** *** The primary *)

Definition wire_check (cfg : BackendConfig) : HB bool :=
  r ← connect_to cfg;
  match r with
  | Err _ => mret false
  | Ok c =>
      r ← ping_conn c;
      if is_err (fst r) then mret false
      else
        r ← query_conn (snd r) (bs "SELECT pg_is_in_recovery()");
        mret (match fst r with
              | Ok resp => negb (is_error resp) && negb (response_contains (br_bytes resp) (bs "true"))
                           && negb (response_contains (br_bytes resp) (bs "t"))
              | Err _ => false
              end)
  end.
Definition ping_and_check_primary (cfg : BackendConfig) : HB bool :=
  a ← (if patroni_check hc then ask_patroni cfg else mret NoSuccess);
  match a with
  | Role role => if is_leader role then wire_check cfg else mret false
  | _ => wire_check cfg
  end.

Definition drive_primary_breaker (ok : bool) : HB unit :=
  se_modify (fun s => (set_breakers (if ok then record_success (primary_breaker (fst s))
                                     else record_failure (now_ms_of (now_ns (snd s))) (primary_breaker (fst s)))
                         (replica_breakers (fst s)) (fst s), snd s)).
Definition trigger_failover : HB unit :=
  s ← se_get;
  upd_pool (note_trigger (base hc) (unix_secs (snd s))) ;;
  upd_pool (promote (base hc)).

Definition check_primary : HB unit :=
  ok ← ping_and_check_primary (control_db_config (primary_config (base hc)));
  drive_primary_breaker ok ;;
  if ok : bool then
    s ← se_get;
    upd_pool (primary_up (base hc) (unix_secs (snd s)))
  else
    upd_pool primary_failed ;;
    s ← se_get;
    if (failover_threshold (base hc) <=? consecutive_failures (primary_health (fst s))) && (failover_idx (fst s) <? 0)
    then trigger_failover
    else mret tt.

(** *** Replicas *)

Definition drive_replica_breaker (idx : nat) (ok : bool) : HB unit :=
  se_modify (fun s =>
    (set_breakers (primary_breaker (fst s))
       (alter (fun cb => if ok then record_success cb else record_failure (now_ms_of (now_ns (snd s))) cb) idx (replica_breakers (fst s)))
       (fst s), snd s)).
Definition set_replica (idx : nat) (f : BackendHealth -> BackendHealth) : HB unit :=
  upd_pool (fun p => set_health (primary_health p) (alter f idx (replica_health p)) p).
Definition fail_health (h : BackendHealth) : BackendHealth :=
  {| healthy := false; lag_ms := lag_ms h; consecutive_failures := u32 (consecutive_failures h + 1) |}.

Definition lag_question : bytes := bs "SELECT EXTRACT(EPOCH FROM (now() - pg_last_xact_replay_timestamp()))::bigint".
(** The lag a replica reports, in milliseconds. *)
Definition answered_lag (r : result bytes BackendResponse) : option Z :=
  match r with
  | Err _ => None
  | Ok resp =>
      if is_error resp then Some 0
      else text ← extract_text_value (br_bytes resp); secs ← parse_i64 text; Some (u64 (Z.max 0 secs * 1000))
  end.
Definition pg_replica_lag_ms (c : C) : HB (option Z) :=
  r ← query_conn c lag_question;
  mret (answered_lag (fst r)).

Definition in_recovery (r : result bytes BackendResponse) : bool :=
  match r with
  | Ok resp => negb (is_error resp)
               && (response_contains (br_bytes resp) (bs "t") || response_contains (br_bytes resp) (bs "true"))
  | Err _ => true
  end.
Definition measure_replica (idx : nat) (c : C) : HB unit :=
  r ← query_conn c (bs "SELECT pg_is_in_recovery()");
  lag ← (if in_recovery (fst r) then pg_replica_lag_ms (snd r) else mret (Some 0));
  let lag := default 0 lag in
  let ok := lag <=? max_lag_ms (base hc) in
  set_replica idx (fun _ => {| healthy := ok; lag_ms := lag; consecutive_failures := 0 |}) ;;
  drive_replica_breaker idx ok.

Definition check_wire_replica (idx : nat) (cfg : BackendConfig) : HB unit :=
  r ← connect_to (control_db_config cfg);
  match r with
  | Err _ => set_replica idx fail_health ;; drive_replica_breaker idx false
  | Ok c => measure_replica idx c
  end.
Definition check_replica (idx : nat) (cfg : BackendConfig) : HB unit :=
  s ← se_get;
  if (length (replica_health (fst s)) <=? idx)%nat then mret tt
  else
    a ← (if patroni_check hc then ask_patroni cfg else mret NoSuccess);
    match a with
    | Role role => if is_standby role then check_wire_replica idx cfg else set_replica idx fail_health
    | _ => check_wire_replica idx cfg
    end.

(** *** Discovery

    The new number of discovered replicas, when there is one. *)
Definition discover_replicas : HB (option Z) :=
  s ← se_get;
  if negb (healthy (primary_health (fst s))) then mret None
  else
    r ← connect_to (control_db_config (primary_config (base hc)));
    match r with
    | Err _ => mret None
    | Ok c =>
        r ← query_conn c (bs "SELECT client_addr::text FROM pg_stat_replication WHERE state = 'streaming'");
        mret (match fst r with
              | Ok resp => if is_error resp then None else Some (Z.of_nat (length (extract_text_values (br_bytes resp))))
              | Err _ => None
              end)
    end.

Fixpoint check_replicas (idx : nat) (cfgs : list BackendConfig) : HB unit :=
  match cfgs with
  | [] => mret tt
  | cfg :: cfgs' => check_replica idx cfg ;; check_replicas (S idx) cfgs'
  end.

(** One round of the loop of [run], from the number of discovered replicas to the next. *)
Definition tick (pg_discovered_replicas : Z) : HB Z :=
  check_primary ;;
  found ← discover_replicas;
  check_replicas 0 (replica_configs (base hc)) ;;
  mret (default pg_discovered_replicas found).
End Checks.

(** * What the checks find *)

Section Framing.

Lemma walk_frame n m rest : fits m -> walk (S n) (frame m ++ rest) = m :: walk n rest.
Proof.
  intros Hm. unfold fits in Hm. cbn [walk]. rewrite length_app, frame_length.
  rewrite (proj2 (Nat.ltb_ge _ _)) by lia. rewrite frame_eq by done. cbn [app drop].
  rewrite <- !app_assoc. rewrite drop_0, take_app_length' by (by rewrite to_be_length). rewrite of_to_be_len by lia.
  rewrite (proj2 (Z.ltb_ge _ 4)), (proj2 (Z.ltb_ge _ _)) by lia. cbn [orb]. f_equal.
  - rewrite drop_app_length' by (by rewrite to_be_length). rewrite take_app_length' by lia. by destruct m.
  - f_equal. rewrite app_comm_cons, app_assoc. rewrite drop_app_length'; [done|]. rewrite length_app. cbn [length]. rewrite to_be_length. lia.
Qed.

(** The messages of a response are the ones the server framed. *)
Lemma messages_frames ms : Forall fits ms -> messages (frames ms) = ms.
Proof.
  intros H. unfold messages. assert (forall n, (length (frames ms) <= n)%nat -> walk n (frames ms) = ms) as Hw; [|by apply Hw].
  induction H as [|m ms Hm _ IH]; intros n Hn; [by destruct n|]. rewrite frames_cons in *. rewrite length_app, frame_length in Hn.
  destruct n as [|n]; [lia|]. rewrite walk_frame by done. f_equal. apply IH. lia.
Qed.
End Framing.

(** A row of a text result; a NULL has the length -1. *)
Definition field (v : option bytes) : bytes :=
  match v with Some s => to_be 4 (Z.of_nat (length s)) ++ s | None => [255; 255; 255; 255] end.
Definition data_row (vals : list (option bytes)) : Msg := (ch "D", to_be 2 (Z.of_nat (length vals)) ++ concat (map field vals)).

Lemma first_field_row v vals : (forall s, v = Some s -> Z.of_nat (length s) < 2 ^ 31) ->
  first_field (snd (data_row (v :: vals))) = s ← v; as_text s.
Proof.
  intros Hv. unfold data_row, first_field. cbn [snd map concat]. rewrite (drop_app_length' (to_be 2 _)) by (by rewrite to_be_length).
  destruct v as [s|]; cbn [field mbind option_bind]; [|done]. specialize (Hv s eq_refl). rewrite <- app_assoc.
  rewrite take_app_length' by (by rewrite to_be_length). rewrite of_to_be_len by lia.
  assert (i32 (Z.of_nat (length s)) = Z.of_nat (length s)) as -> by (unfold i32; rewrite Z.mod_small; lia).
  rewrite (proj2 (Z.ltb_ge _ _)) by lia. rewrite !length_app, !to_be_length, (proj2 (Z.ltb_ge _ _)) by lia.
  f_equal. change 6%nat with (2 + 4)%nat. rewrite <- drop_drop, (drop_app_length' (to_be 2 _)) by (by rewrite to_be_length).
  rewrite drop_app_length' by (by rewrite to_be_length). rewrite take_app_length' by lia. done.
Qed.

(** A result as the server sends it: any messages without a row before the row. *)
Definition no_row (m : Msg) : Prop := (fst m =? ch "D") = false.

(** The lag that is read is the number of seconds the server reports, in milliseconds; a
    negative one is none, and a NULL, or a text that is no number, gives no lag. *)
Theorem pg_lag_exact pre v vals post :
  Forall no_row pre -> Forall fits (pre ++ data_row (v :: vals) :: post) ->
  Z.of_nat (length vals) + 1 < 2 ^ 16 -> (forall s, v = Some s -> Z.of_nat (length s) < 2 ^ 31) ->
  extract_text_value (frames (pre ++ data_row (v :: vals) :: post)) = s ← v; as_text s.
Proof.
  intros Hpre Hf Hn Hv. unfold extract_text_value. rewrite messages_frames by done.
  assert (List.find (fun m => fst m =? ch "D") (pre ++ data_row (v :: vals) :: post) = Some (data_row (v :: vals))) as ->.
  { clear Hf. induction Hpre as [|m pre Hm _ IH]; cbn [app List.find]; [done|]. by rewrite Hm. }
  unfold only_value. rewrite <- (first_field_row v vals Hv).
  assert (6 <= length (snd (data_row (v :: vals))))%nat as Hl.
  { unfold data_row. cbn [snd map concat]. rewrite !length_app, to_be_length.
    destruct v; cbn [field]; rewrite ?length_app, ?to_be_length; cbn [length]; lia. }
  rewrite !(proj2 (Nat.ltb_ge _ _)) by lia. unfold data_row at 1. cbn [snd].
  rewrite take_app_length' by (by rewrite to_be_length). rewrite of_to_be by (cbn [length]; change (256 ^ Z.of_nat 2) with (2 ^ 16); lia).
  rewrite (proj2 (Z.eqb_neq _ _)) by (cbn [length]; lia). done.
Qed.

(** Every row that has a value counts once in the discovery. *)
Theorem discovered_values_exact ms rows :
  Forall fits ms -> (forall m, m ∈ ms -> no_row m \/ exists v vals, m = data_row (Some v :: vals) /\ utf8_valid v = true /\
    Z.of_nat (length v) < 2 ^ 31) ->
  rows = length (List.filter (fun m => fst m =? ch "D") ms) ->
  length (extract_text_values (frames ms)) = rows.
Proof.
  intros Hf Hm ->. unfold extract_text_values. rewrite messages_frames by done. clear Hf.
  induction ms as [|m ms IH]; [done|]. cbn [omap list_omap List.filter].
  assert (length (omap row_value ms) = length (List.filter (fun m => fst m =? ch "D") ms)) as IH'
    by (apply IH; intros x Hx; apply Hm; by right).
  destruct (Hm m ltac:(by left)) as [Hno|(v & vals & -> & Hu & Hl)].
  - unfold row_value. rewrite Hno. exact IH'.
  - assert (row_value (data_row (Some v :: vals)) = Some v) as ->.
    { unfold row_value. rewrite first_field_row by (by intros ? [= <-]). unfold data_row. cbn [fst snd].
      change (ch "D" =? ch "D") with true. cbn [andb mbind option_bind]. rewrite (proj2 (Nat.leb_le _ _)); [unfold as_text; by rewrite Hu|].
      cbn [map concat field]. rewrite !length_app, !to_be_length. lia. }
    cbn [fst data_row]. change (ch "D" =? ch "D") with true. cbn [length]. by rewrite IH'.
Qed.

Section Verdicts.
Context {W C : Type} `{IO : !BackendIO W C}.
Variable patroni : bytes -> W -> PatroniAnswer * W.
Variable hc : PgHealthChecker.
Implicit Types p : BackendPool C.

(** What a server says about being in recovery is looked at byte by byte. *)
Definition says_t (resp : BackendResponse) : bool :=
  response_contains (br_bytes resp) (bs "true") || response_contains (br_bytes resp) (bs "t").

(** The verdict on the primary, without the pool. *)
Definition wire_verdict (cfg : BackendConfig) (w : W) : bool * W :=
  match connect_backend cfg w with
  | (Err _, w) => (false, w)
  | (Ok c, w) =>
      let '(r, c, w) := Pool.ping c w in
      if is_err r then (false, w)
      else let '(r, _, w) := Pool.execute_query c (bs "SELECT pg_is_in_recovery()") w in
           (match r with Ok resp => negb (is_error resp) && negb (says_t resp) | Err _ => false end, w)
  end.
Definition verdict (cfg : BackendConfig) (w : W) : bool * W :=
  let '(a, w) := if patroni_check hc then patroni (patroni_url hc cfg) w else (NoSuccess, w) in
  match a with Role role => if is_leader role then wire_verdict cfg w else (false, w) | _ => wire_verdict cfg w end.

Lemma wire_check_verdict cfg p w : wire_check cfg (p, w) = (Ok (fst (wire_verdict cfg w)), (p, snd (wire_verdict cfg w))).
Proof.
  unfold wire_check, wire_verdict, connect_to, ping_conn, query_conn, mbind, se_bind, says_t. cbn [fst snd].
  destruct (connect_backend cfg w) as [[c|e] w2]; cbn [fst snd]; [|done]. destruct (Pool.ping c w2) as [[r c'] w3]. cbn [fst snd].
  destruct (is_err r); cbn [fst snd]; [done|]. destruct (Pool.execute_query c' _ w3) as [[r' c''] w4]. cbn [fst snd].
  destruct r' as [resp|e]; [|done]. by rewrite negb_orb, andb_assoc.
Qed.
Lemma ping_verdict cfg p w : ping_and_check_primary patroni hc cfg (p, w) = (Ok (fst (verdict cfg w)), (p, snd (verdict cfg w))).
Proof.
  unfold ping_and_check_primary, verdict, ask_patroni. unfold mbind at 1, se_bind at 1.
  destruct (patroni_check hc); cbn [fst snd]; [|apply wire_check_verdict]. destruct (patroni _ w) as [a w1].
  destruct a as [role| | |]; cbn [fst snd]; [destruct (is_leader role); [|done]|..]; apply wire_check_verdict.
Qed.

(** The pool after a check of the primary. *)
Definition after_check (ok : bool) (now_ms now_secs : Z) p : BackendPool C :=
  let p := set_breakers (if ok then record_success (primary_breaker p) else record_failure now_ms (primary_breaker p)) (replica_breakers p) p in
  if ok then primary_up (base hc) now_secs p
  else
    let p := primary_failed p in
    if (failover_threshold (base hc) <=? consecutive_failures (primary_health p)) && (failover_idx p <? 0)
    then promote (base hc) (note_trigger (base hc) now_secs p) else p.

Lemma check_primary_after p w :
  let '(ok, w') := verdict (control_db_config hc (primary_config (base hc))) w in
  check_primary patroni hc (p, w) = (Ok tt, (after_check ok (now_ms_of (now_ns w')) (unix_secs w') p, w')).
Proof.
  pose proof (ping_verdict (control_db_config hc (primary_config (base hc))) p w) as H.
  destruct (verdict _ w) as [ok w']. cbn [fst snd] in H. unfold check_primary. rewrite (se_bind_ok _ _ _ _ _ H).
  unfold drive_primary_breaker, after_check. destruct ok.
  - unfold se_modify, se_get, upd_pool, mbind, se_bind. done.
  - unfold trigger_failover, upd_pool, mbind, se_bind. cbn [se_modify se_get fst snd]. cbv beta iota zeta. cbn [fst snd].
    by destruct (_ && _).
Qed.

(** A sequence of ticks, as in Health: each finds a world and the health of the replicas. *)
Definition pg_tick_ok (t : Tick (W := W)) : Prop := length (snd t) = length (replica_configs (base hc)).
Definition pg_verdict (t : Tick (W := W)) : bool * W := verdict (control_db_config hc (primary_config (base hc))) (fst t).
Definition pg_check_at p (t : Tick (W := W)) : BackendPool C :=
  fst (snd (check_primary patroni hc (with_replica_health (snd t) p, fst t))).
Definition pg_run_checks (ts : list (Tick (W := W))) p : BackendPool C := foldl pg_check_at p ts.
(** The breaker of the primary hears of a failed check. *)
Definition hears_failure (b : CircuitBreaker) (t : Tick (W := W)) : CircuitBreaker := record_failure (now_ms_of (now_ns (snd (pg_verdict t)))) b.

Lemma pg_check_down p t : fst (pg_verdict t) = false ->
  pg_check_at p t = after_check false (now_ms_of (now_ns (snd (pg_verdict t)))) (unix_secs (snd (pg_verdict t))) (with_replica_health (snd t) p).
Proof.
  intros Hv. pose proof (check_primary_after (with_replica_health (snd t) p) (fst t)) as H. fold (pg_verdict t) in H.
  unfold pg_check_at. destruct (pg_verdict t) as [ok w']. cbn [fst snd] in *. by rewrite H, Hv.
Qed.
Lemma after_failure (w : W) ms secs p : let q := after_check false ms secs p in
  consecutive_failures (primary_health p) + 1 < 2 ^ 32 -> 0 <= consecutive_failures (primary_health p) -> failover_idx p < 0 ->
  consecutive_failures (primary_health q) = consecutive_failures (primary_health p) + 1 /\
  primary_breaker q = record_failure ms (primary_breaker p) /\
  (consecutive_failures (primary_health p) + 1 < failover_threshold (base hc) -> failover_idx q = failover_idx p) /\
  (failover_threshold (base hc) <= consecutive_failures (primary_health p) + 1 ->
    length (replica_health p) = length (replica_configs (base hc)) ->
    (exists n h, replica_health p !! n = Some h /\ healthy h = true) -> best_of (replica_health p) (failover_idx q)).
Proof.
  intros q H1 H0 H2. unfold q, after_check. cbv zeta. cbn [set_breakers].
  set (p1 := primary_failed _).
  assert (consecutive_failures (primary_health p1) = consecutive_failures (primary_health p) + 1) as Hc.
  { unfold p1, primary_failed. cbn. unfold u32. apply wrap_small. unfold in_width. lia. }
  assert (failover_idx p1 = failover_idx p) as Hi by done. rewrite Hc, Hi, (proj2 (Z.ltb_lt _ _) H2), andb_true_r.
  destruct (_ <=? _) eqn:E; bool_to_prop.
  2: { split_and!; [exact Hc | done | done | lia]. }
  set (p2 := note_trigger _ _ p1).
  split_and!.
  - rewrite <- Hc. unfold promote. by destruct (best_replica _ _) as [[i h]|].
  - unfold promote. by destruct (best_replica _ _) as [[i h]|].
  - lia.
  - intros _ Hl Hh. by apply (promote_spec (base hc) p2 (w, replica_health p)).
Qed.

(** C37: Failover of PostgreSQL happens at the threshold: while the checks find no primary (it
    cannot be reached, fails the ping or the question, says it is in recovery, or Patroni says
    it is not the leader), nothing is promoted before the threshold, at the check that reaches
    it the healthy replica with the least lag is, and each check counts against the circuit
    breaker of the primary. *)
Theorem pg_failover_at_threshold ts p :
  Forall (fun t => pg_tick_ok t /\ fst (pg_verdict t) = false /\ some_healthy t) ts ->
  failover_idx p < 0 -> consecutive_failures (primary_health p) = 0 ->
  Z.of_nat (length ts) < 2 ^ 32 -> Z.of_nat (length ts) <= failover_threshold (base hc) ->
  primary_breaker (pg_run_checks ts p) = foldl hears_failure (primary_breaker p) ts /\
  (Z.of_nat (length ts) < failover_threshold (base hc) -> failover_idx (pg_run_checks ts p) = failover_idx p) /\
  (forall pre t, ts = pre ++ [t] -> Z.of_nat (length ts) = failover_threshold (base hc) ->
     best_of (snd t) (failover_idx (pg_run_checks ts p))).
Proof.
  intros Hts Hidx Hf Hlen Hth.
  enough (consecutive_failures (primary_health (pg_run_checks ts p)) = Z.of_nat (length ts) /\
    primary_breaker (pg_run_checks ts p) = foldl hears_failure (primary_breaker p) ts /\
    (Z.of_nat (length ts) < failover_threshold (base hc) -> failover_idx (pg_run_checks ts p) = failover_idx p) /\
    (forall pre t, ts = pre ++ [t] -> Z.of_nat (length ts) = failover_threshold (base hc) ->
      best_of (snd t) (failover_idx (pg_run_checks ts p)))) by tauto.
  induction ts as [|t ts IH] using rev_ind; [split_and!; try done; by intros [|]|].
  rewrite length_app in *. cbn [length] in *. apply Forall_app in Hts as [Hts Ht].
  apply Forall_cons_iff in Ht as [(Ht1 & Ht2 & Ht3) _].
  destruct IH as (I1 & I2 & I3 & _); [done | lia | lia |].
  unfold pg_run_checks. rewrite !foldl_app. cbn [foldl]. fold (pg_run_checks ts p). rewrite (pg_check_down _ _ Ht2).
  specialize (I3 ltac:(lia)).
  destruct (after_failure (fst t) (now_ms_of (now_ns (snd (pg_verdict t)))) (unix_secs (snd (pg_verdict t)))
    (with_replica_health (snd t) (pg_run_checks ts p))) as (A1 & A2 & A3 & A4);
    cbn [with_replica_health set_health primary_health failover_idx primary_breaker replica_health] in *; try (rewrite ?I1, ?I3; lia).
  rewrite I1 in *. rewrite A1, A2, I2. split_and!; [lia | done | |].
  - intros Hlt. rewrite A3 by lia. exact I3.
  - intros pre t' E Heq. apply app_inj_tail in E as [<- <-]. apply A4; [lia | exact Ht1 | exact Ht3].
Qed.

(** ** Replicas *)

Definition measured (c : C) (w : W) : Z * W :=
  let '(r, c, w) := Pool.execute_query c (bs "SELECT pg_is_in_recovery()") w in
  if in_recovery r then let '(r, _, w) := Pool.execute_query c lag_question w in (default 0 (answered_lag r), w) else (0, w).

(** The pool with the outcome of the check of one replica. *)
Definition with_replica (idx : nat) (h : BackendHealth) (ok : bool) (now_ms : Z) p : BackendPool C :=
  set_breakers (primary_breaker p)
    (alter (fun cb => if ok then record_success cb else record_failure now_ms cb) idx (replica_breakers p))
    (set_health (primary_health p) (<[idx := h]> (replica_health p)) p).

Lemma alter_insert {A} (f : A -> A) (l : list A) i x : l !! i = Some x -> alter f i l = <[i := f x]> l.
Proof.
  intros Hx. apply list_eq. intros j. destruct (decide (j = i)) as [->|Hj].
  - rewrite list_lookup_alter_eq, Hx, list_lookup_insert_eq by (by eapply lookup_lt_Some). done.
  - by rewrite list_lookup_alter_ne, list_lookup_insert_ne.
Qed.

Lemma measure_replica_result idx c p w h : replica_health p !! idx = Some h ->
  let '(lag, w') := measured c w in
  let ok := lag <=? max_lag_ms (base hc) in
  measure_replica hc idx c (p, w) =
  (Ok tt, (with_replica idx {| healthy := ok; lag_ms := lag; consecutive_failures := 0 |} ok (now_ms_of (now_ns w')) p, w')).
Proof.
  intros Hh. unfold measured, measure_replica, pg_replica_lag_ms, query_conn, set_replica, drive_replica_breaker, with_replica, upd_pool, mbind, se_bind.
  cbn [fst snd se_modify]. destruct (Pool.execute_query c _ w) as [[r c'] w1]. cbn [fst snd]. destruct (in_recovery r).
  - cbn [fst snd]. destruct (Pool.execute_query c' _ w1) as [[r2 c''] w2]. unfold mret, se_ret. cbn [fst snd].
    by rewrite (alter_insert _ _ _ _ Hh).
  - unfold mret, se_ret. cbn [fst snd default]. by rewrite (alter_insert _ _ _ _ Hh).
Qed.

Lemma check_replica_wire idx cfg p w h : patroni_check hc = false -> replica_health p !! idx = Some h ->
  check_replica patroni hc idx cfg (p, w) = check_wire_replica hc idx cfg (p, w).
Proof.
  intros Hpat Hh. unfold check_replica. rewrite Hpat. pose proof (lookup_lt_Some _ _ _ Hh) as Hlt.
  cbv [mbind se_bind se_get mret se_ret]. cbn [fst]. by rewrite (proj2 (Nat.leb_gt _ _) Hlt).
Qed.

(** The check of a replica, when no Patroni agent is asked: a replica that cannot be
    reached leaves the read pool; one that can be is in it exactly when the lag that is
    measured is within the limit.  The breaker of the replica follows, and nothing else
    changes. *)
Theorem pg_replica_verdict idx cfg p w h :
  patroni_check hc = false -> replica_health p !! idx = Some h ->
  match connect_backend (control_db_config hc cfg) w with
  | (Err _, w') =>
      check_replica patroni hc idx cfg (p, w) = (Ok tt, (with_replica idx (fail_health h) false (now_ms_of (now_ns w')) p, w'))
  | (Ok c, w1) =>
      let '(lag, w') := measured c w1 in
      let ok := lag <=? max_lag_ms (base hc) in
      check_replica patroni hc idx cfg (p, w) =
      (Ok tt, (with_replica idx {| healthy := ok; lag_ms := lag; consecutive_failures := 0 |} ok (now_ms_of (now_ns w')) p, w'))
  end.
Proof.
  intros Hpat Hh. rewrite (check_replica_wire idx cfg p w h Hpat Hh). unfold check_wire_replica, connect_to. cbv [mbind se_bind]. cbn [fst snd].
  destruct (connect_backend _ w) as [[c|e] w1].
  - exact (measure_replica_result idx c p w1 h Hh).
  - unfold with_replica. by rewrite <- (alter_insert fail_health _ _ _ Hh).
Qed.

(** A replica that takes connections and fails every statement counts as a standby without
    lag: it stays in the read pool, and its breaker is told of a success. *)
Theorem silent_replica_stays_in_pool idx cfg p w w1 c h :
  patroni_check hc = false -> replica_health p !! idx = Some h -> 0 <= max_lag_ms (base hc) ->
  connect_backend (control_db_config hc cfg) w = (Ok c, w1) ->
  (forall c sql w, is_err (fst (fst (Pool.execute_query (W := W) (C := C) c sql w))) = true) ->
  exists q w', check_replica patroni hc idx cfg (p, w) = (Ok tt, (q, w')) /\
    replica_health q !! idx = Some {| healthy := true; lag_ms := 0; consecutive_failures := 0 |} /\
    replica_breakers q = alter record_success idx (replica_breakers p).
Proof.
  intros Hpat Hh Hmax Hc Hq. pose proof (measure_replica_result idx c p w1 h Hh) as H.
  assert (exists w', measured c w1 = (0, w')) as [w' Hm].
  { unfold measured. pose proof (Hq c (bs "SELECT pg_is_in_recovery()") w1) as H1. destruct (Pool.execute_query c _ w1) as [[[r|e] c'] w2]; [done|].
    cbn [in_recovery]. pose proof (Hq c' lag_question w2) as H2. destruct (Pool.execute_query c' _ w2) as [[[r|e2] c''] w3]; [done|]. by exists w3. }
  rewrite Hm in H. cbv zeta in H. rewrite (proj2 (Z.leb_le _ _) Hmax) in H.
  rewrite (check_replica_wire idx cfg p w h Hpat Hh). pose proof (lookup_lt_Some _ _ _ Hh) as Hlt.
  unfold check_wire_replica, connect_to. cbv [mbind se_bind]. cbn [fst snd]. rewrite Hc, H.
  eexists _, _. split; [reflexivity|]. unfold with_replica. cbn [replica_health set_breakers set_health replica_breakers]. split; [|done].
  by apply list_lookup_insert_eq.
Qed.
End Verdicts.

(** ** The answer to the question whether the server is in recovery

    As a server sends it: the description of the one column, the row, the end of the command
    and ReadyForQuery. *)
Definition recovery_column : Msg :=
  (ch "T", to_be 2 1 ++ bs "pg_is_in_recovery" ++ [0] ++ to_be 4 0 ++ to_be 2 0 ++ to_be 4 16 ++ to_be 2 1 ++ [255; 255; 255; 255] ++ to_be 2 0).
Definition recovery_answer (extra : list Msg) (v : bytes) : BackendResponse :=
  {| br_bytes := frames (extra ++ [recovery_column; data_row [Some v]; (ch "C", bs "SELECT 1" ++ [0]); (ch "Z", bs "I")]);
     affected_rows := Some 1; is_error := false; session_changes := []; write_gtid := None |}.
Example recovery_is_read :
  says_t (recovery_answer [] (bs "t")) = true /\ says_t (recovery_answer [] (bs "f")) = false.
Proof. by vm_compute. Qed.

(** A primary that says more, such as the new value of a parameter, is taken for a standby
    when there is a letter t in it. *)
Definition parameter_status : Msg := (ch "S", bs "TimeZone" ++ [0] ++ bs "Etc/UTC" ++ [0]).
Example any_t_is_recovery : says_t (recovery_answer [parameter_status] (bs "f")) = true.
Proof. by vm_compute. Qed.

(** Thirty-two seconds, less than none, and never. *)
Example lag_is_read :
  let answer v := Ok {| br_bytes := frames [recovery_column; data_row [v]]; affected_rows := None; is_error := false;
                        session_changes := []; write_gtid := None |} in
  map (fun v => answered_lag (answer v)) [Some (bs "32"); Some (bs "-1"); None] = [Some 32000; Some 0; None].
Proof. by vm_compute. Qed.

Lemma pg_lag_exact_witness :
  extract_text_value (frames ([recovery_column] ++ data_row [Some (bs "32")] :: [(ch "Z", bs "I")])) = Some (bs "32").
Proof.
  apply (pg_lag_exact [recovery_column] (Some (bs "32")) [] [(ch "Z", bs "I")]).
  - by repeat constructor.
  - apply fitsb_ok. by vm_compute.
  - simpl. lia.
  - intros s [= <-]. simpl. lia.
Defined.

Lemma discovered_values_exact_witness :
  length (extract_text_values (frames [recovery_column; data_row [Some (bs "10.0.0.1/32")]; data_row [Some (bs "10.0.0.2/32")]])) = 2%nat.
Proof.
  apply discovered_values_exact; [apply fitsb_ok; by vm_compute | | by vm_compute].
  intros m Hm. rewrite !elem_of_cons, elem_of_nil in Hm. destruct Hm as [->|[->|[->|[]]]]; [by left|right..].
  - exists (bs "10.0.0.1/32"), []. split_and!; [done | by vm_compute | simpl; lia].
  - exists (bs "10.0.0.2/32"), []. split_and!; [done | by vm_compute | simpl; lia].
Defined.

Section Witnesses.
Definition no_patroni : bytes -> TestWorld -> PatroniAnswer * TestWorld := fun _ w => (Failed, w).
Definition demo_pg : PgHealthChecker :=
  {| base := demo_checker; patroni_check := false; patroni_api_port := 8008; health_check_database := bs "postgres" |}.

(** Three checks of a primary that takes no connections. *)
Lemma pg_failover_at_threshold_witness :
  let q := pg_run_checks no_patroni demo_pg [bad_tick; bad_tick; bad_tick] (demo_backends (-1)) in
  best_of demo_health (failover_idx q) /\ primary_breaker q <> primary_breaker (demo_backends (-1)).
Proof.
  destruct (pg_failover_at_threshold no_patroni demo_pg [bad_tick; bad_tick; bad_tick] (demo_backends (-1))) as (H1 & _ & H2).
  - repeat constructor; try (by vm_compute); by exists 0%nat, (Build_BackendHealth true 900 0).
  - by vm_compute.
  - by vm_compute.
  - by vm_compute.
  - by vm_compute.
  - split; [exact (H2 [bad_tick; bad_tick] bad_tick eq_refl eq_refl) | rewrite H1; by vm_compute].
Defined.

Lemma pg_replica_verdict_witness :
  exists q w', check_replica no_patroni demo_pg 0 (test_config "r1:3306" 2 false None)
    (with_replica_health demo_health (demo_backends (-1)), scenario [bs "r1:3306"] [] []) = (Ok tt, (q, w')) /\
  healthy <$> replica_health q !! 0%nat = Some false.
Proof.
  pose proof (pg_replica_verdict no_patroni demo_pg 0 (test_config "r1:3306" 2 false None)
    (with_replica_health demo_health (demo_backends (-1))) (scenario [bs "r1:3306"] [] []) (Build_BackendHealth true 900 0) eq_refl eq_refl) as H.
  assert (connect_backend (control_db_config demo_pg (test_config "r1:3306" 2 false None)) (scenario [bs "r1:3306"] [] [])
    = (Err (bs "connection refused"), scenario [bs "r1:3306"] [] [])) as E by (by vm_compute).
  rewrite E in H. eexists _, _. split; [exact H|]. by vm_compute.
Defined.

(** A server that takes connections and loses each of them at its first statement. *)
Definition mute_query (c : TestConn) (sql : bytes) (w : TestWorld) : result bytes BackendResponse * TestConn * TestWorld :=
  (Err (bs "early eof"), c, w).
Definition mute_io : BackendIO TestWorld TestConn := {|
  Pool.connect_backend := test_connect;
  Pool.execute_query := mute_query;
  Pool.send_raw := mute_query;
  Pool.send_raw_no_response c sql w := (Ok tt, c, w);
  Pool.ping c w := (Err (bs "early eof"), c, w);
  Pool.in_transaction := tc_tx;
  Pool.is_healthy _ := true;
  Pool.backend_conn_id c := Some (tc_id c);
  Pool.interrupted c sql ms w := None;
  Pool.now_ns := tw_ns;
  Pool.unix_ms := tw_ms;
  Pool.draw _ _ := 0;
  Pool.info_log _ := true |}.

Lemma silent_replica_stays_in_pool_witness :
  exists q w', check_replica (IO := mute_io) no_patroni demo_pg 0 (test_config "r1:3306" 2 false None)
    (with_replica_health demo_health (demo_backends (-1)), test_world) = (Ok tt, (q, w')) /\
  replica_health q !! 0%nat = Some {| healthy := true; lag_ms := 0; consecutive_failures := 0 |}.
Proof.
  destruct (silent_replica_stays_in_pool (IO := mute_io) no_patroni demo_pg 0 (test_config "r1:3306" 2 false None)
    (with_replica_health demo_health (demo_backends (-1))) test_world
    (snd (@connect_backend _ _ mute_io (control_db_config demo_pg (test_config "r1:3306" 2 false None)) test_world))
    {| tc_id := 1; tc_addr := bs "r1:3306"; tc_database := Some (bs "postgres"); tc_tx := false |}
    (Build_BackendHealth true 900 0)) as (q & w' & H1 & H2 & _).
  - reflexivity.
  - reflexivity.
  - vm_compute. discriminate.
  - by vm_compute.
  - intros c sql w. reflexivity.
  - by exists q, w'.
Defined.
End Witnesses.
