(* ===== verification/ConfigStore.v ===== *)
(** * The configuration store (src/src/config/store.rs)

    The SQLite tables of rules, rewrite rules, backends, users and of the log of changes,
    and every operation on them.  A table is the list of its rows in the order of their ids,
    with the largest id it ever had; a statement of SQL is one step, which may fail and
    then changes nothing.  Which statements fail, the time stamps, the gaps that SQLite may
    leave between ids, the random nonces and the printer of JSON are the class [Sqlite]. *)

From S2P Require Import Prelude Bytes Config Classifier.

Inductive Json :=
| JNull | JBool (b : bool) | JNum (z : Z) | JStr (s : bytes)
| JObject (fields : list (bytes * Json))    (* a struct, in the order of its fields *)
| JMap (fields : list (bytes * Json))       (* what [json!] builds *)
| JArray (items : list Json).
Definition JOpt {A} (f : A -> Json) (o : option A) : Json := match o with Some a => f a | None => JNull end.

Class Sqlite := {
  sql_error : nat -> option bytes;      (* whether the k-th statement fails *)
  id_gap : nat -> nat;
  current_timestamp : nat -> bytes;
  fresh_nonce : nat -> bytes;
  json_text : Json -> bytes
}.
Inductive DbError := SqlFailed (text : bytes) | UniqueViolation | DatabaseFull.

(** ** Tables *)

Class HasId (R : Type) := { row_id : R -> Z; with_id : Z -> R -> R }.
Class HasIdLaws (R : Type) (H : HasId R) : Prop := { row_id_with_id i r : row_id (with_id i r) = i }.

Record Table (R : Type) := { rows : list R; seq : Z }.
Arguments rows {R}.
Arguments seq {R}.
Arguments Build_Table {R}.

Section Tables.
Context {R : Type} `{!HasId R}.
Definition empty_table : Table R := {| rows := []; seq := 0 |}.
(** [INSERT] into a table with [AUTOINCREMENT]: the id of the new row. *)
Definition insert_row (gap : nat) (r : R) (t : Table R) : option (Z * Table R) :=
  let id := seq t + 1 + Z.of_nat gap in
  if 2 ^ 63 <=? id then None
  else Some (id, {| rows := rows t ++ [with_id id r]; seq := id |}).
Definition update_rows (p : R -> bool) (f : R -> R) (t : Table R) : Table R :=
  {| rows := map (fun r => if p r then f r else r) (rows t); seq := seq t |}.
Definition delete_rows (p : R -> bool) (t : Table R) : Table R :=
  {| rows := List.filter (fun r => negb (p r)) (rows t); seq := seq t |}.
Definition has_id (id : Z) (r : R) : bool := row_id r =? id.
End Tables.

(** [ORDER BY]. *)
Section Ordering.
Context {A : Type} (le : A -> A -> bool).
Fixpoint insert_by (x : A) (l : list A) : list A :=
  match l with
  | [] => [x]
  | y :: l' => if le x y then x :: l else y :: insert_by x l'
  end.
Definition sort_by (l : list A) : list A := foldr insert_by [] l.
End Ordering.
(** By a number, then by the id. *)
Definition by_number {R} `{!HasId R} (key : R -> Z) (a b : R) : bool :=
  (key a <? key b) || ((key a =? key b) && (row_id a <=? row_id b)).

(** ** The rows *)

Record RuleRow := {
  ru_id : Z; ru_priority : Z; ru_match_pattern : option bytes; ru_match_digest : option bytes; ru_user : bytes;
  ru_schema_name : bytes; ru_destination : bytes; ru_destination_hostgroup : option Z; ru_cache_ttl_secs : Z;
  ru_comment : bytes; ru_mirror_to : option bytes; ru_rollout_pct : option Z; ru_enabled : bool
}.
Record RewriteRuleRow := {
  rr_id : Z; rr_priority : Z; rr_match_pattern : bytes; rr_replace_with : option bytes; rr_add_limit : option Z;
  rr_add_timeout_ms : option Z; rr_block : bool; rr_comment : bytes; rr_enabled : bool
}.
Record BackendRow := {
  be_id : Z; be_addr : bytes; be_user : bytes; be_password : bytes; be_database : option bytes; be_role : bytes;
  be_weight : Z; be_backup : bool; be_tls_mode : bytes; be_enabled : bool
}.
(** A row of the table, which has the protocol too. *)
Record BackendRecord := { be_protocol : bytes; be_row : BackendRow }.
Record UserRow := {
  us_id : Z; us_name : bytes; us_password : bytes; us_allow_writes : bool; us_max_connections : Z; us_enabled : bool
}.
Record ChangeRow := {
  ch_id : Z; ch_ts : bytes; ch_entity : bytes; ch_entity_id : option Z; ch_action : bytes; ch_before_json : option bytes;
  ch_after_json : option bytes; ch_author_ip : bytes
}.

#[export] Instance rule_id : HasId RuleRow := {|
  row_id := ru_id;
  with_id i r := {| ru_id := i; ru_priority := ru_priority r; ru_match_pattern := ru_match_pattern r;
    ru_match_digest := ru_match_digest r; ru_user := ru_user r; ru_schema_name := ru_schema_name r;
    ru_destination := ru_destination r; ru_destination_hostgroup := ru_destination_hostgroup r;
    ru_cache_ttl_secs := ru_cache_ttl_secs r; ru_comment := ru_comment r; ru_mirror_to := ru_mirror_to r;
    ru_rollout_pct := ru_rollout_pct r; ru_enabled := ru_enabled r |} |}.
#[export] Instance rewrite_id : HasId RewriteRuleRow := {|
  row_id := rr_id;
  with_id i r := {| rr_id := i; rr_priority := rr_priority r; rr_match_pattern := rr_match_pattern r;
    rr_replace_with := rr_replace_with r; rr_add_limit := rr_add_limit r; rr_add_timeout_ms := rr_add_timeout_ms r;
    rr_block := rr_block r; rr_comment := rr_comment r; rr_enabled := rr_enabled r |} |}.
Definition backend_with_id (i : Z) (r : BackendRow) : BackendRow :=
  {| be_id := i; be_addr := be_addr r; be_user := be_user r; be_password := be_password r; be_database := be_database r;
     be_role := be_role r; be_weight := be_weight r; be_backup := be_backup r; be_tls_mode := be_tls_mode r;
     be_enabled := be_enabled r |}.
#[export] Instance backend_id : HasId BackendRecord := {|
  row_id r := be_id (be_row r);
  with_id i r := {| be_protocol := be_protocol r; be_row := backend_with_id i (be_row r) |} |}.
#[export] Instance user_id : HasId UserRow := {|
  row_id := us_id;
  with_id i r := {| us_id := i; us_name := us_name r; us_password := us_password r; us_allow_writes := us_allow_writes r;
    us_max_connections := us_max_connections r; us_enabled := us_enabled r |} |}.
#[export] Instance change_id : HasId ChangeRow := {|
  row_id := ch_id;
  with_id i r := {| ch_id := i; ch_ts := ch_ts r; ch_entity := ch_entity r; ch_entity_id := ch_entity_id r;
    ch_action := ch_action r; ch_before_json := ch_before_json r; ch_after_json := ch_after_json r;
    ch_author_ip := ch_author_ip r |} |}.

(** The derived [Serialize]. *)
Definition rule_json (r : RuleRow) : Json := JObject [
  (bs "id", JNum (ru_id r)); (bs "priority", JNum (ru_priority r)); (bs "match_pattern", JOpt JStr (ru_match_pattern r));
  (bs "match_digest", JOpt JStr (ru_match_digest r)); (bs "user", JStr (ru_user r)); (bs "schema_name", JStr (ru_schema_name r));
  (bs "destination", JStr (ru_destination r)); (bs "destination_hostgroup", JOpt JNum (ru_destination_hostgroup r));
  (bs "cache_ttl_secs", JNum (ru_cache_ttl_secs r)); (bs "comment", JStr (ru_comment r));
  (bs "mirror_to", JOpt JStr (ru_mirror_to r)); (bs "rollout_pct", JOpt JNum (ru_rollout_pct r));
  (bs "enabled", JBool (ru_enabled r))].
Definition rewrite_json (r : RewriteRuleRow) : Json := JObject [
  (bs "id", JNum (rr_id r)); (bs "priority", JNum (rr_priority r)); (bs "match_pattern", JStr (rr_match_pattern r));
  (bs "replace_with", JOpt JStr (rr_replace_with r)); (bs "add_limit", JOpt JNum (rr_add_limit r));
  (bs "add_timeout_ms", JOpt JNum (rr_add_timeout_ms r)); (bs "block", JBool (rr_block r)); (bs "comment", JStr (rr_comment r));
  (bs "enabled", JBool (rr_enabled r))].

(** ** The store *)

Record Store := {
  rules : Table RuleRow; rewrite_rules : Table RewriteRuleRow; backends : Table BackendRecord; users : Table UserRow;
  changes : Table ChangeRow
}.
(** What [ConfigStore::new] finds in a new file. *)
Definition store_new : Store :=
  {| rules := empty_table; rewrite_rules := empty_table; backends := empty_table; users := empty_table; changes := empty_table |}.
Definition set_rules (t : Table RuleRow) (s : Store) : Store :=
  {| rules := t; rewrite_rules := rewrite_rules s; backends := backends s; users := users s; changes := changes s |}.
Definition set_rewrite_rules (t : Table RewriteRuleRow) (s : Store) : Store :=
  {| rules := rules s; rewrite_rules := t; backends := backends s; users := users s; changes := changes s |}.
Definition set_backends (t : Table BackendRecord) (s : Store) : Store :=
  {| rules := rules s; rewrite_rules := rewrite_rules s; backends := t; users := users s; changes := changes s |}.
Definition set_users (t : Table UserRow) (s : Store) : Store :=
  {| rules := rules s; rewrite_rules := rewrite_rules s; backends := backends s; users := t; changes := changes s |}.
Definition set_changes (t : Table ChangeRow) (s : Store) : Store :=
  {| rules := rules s; rewrite_rules := rewrite_rules s; backends := backends s; users := users s; changes := t |}.

(** The database, and how many statements it has been given. *)
Record Db := { store : Store; statements : nat }.
Abbreviation DB := (SE Db DbError).

Section Operations.
Context `{ENV : Environment} `{SC : SecretCodec} `{SQ : Sqlite}.

(** One statement. *)
Definition sql {A} (f : nat -> Store -> result DbError (A * Store)) : DB A := fun d =>
  let k := statements d in
  match sql_error k with
  | Some e => (Err (SqlFailed e), {| store := store d; statements := S k |})
  | None =>
      match f k (store d) with
      | Ok (a, s) => (Ok a, {| store := s; statements := S k |})
      | Err e => (Err e, {| store := store d; statements := S k |})
      end
  end.
Definition query {A} (f : Store -> A) : DB A := sql (fun _ s => Ok (f s, s)).
Definition execute (f : Store -> Store) : DB unit := sql (fun _ s => Ok (tt, f s)).
Definition insert_into {R} `{!HasId R} (get : Store -> Table R) (set : Table R -> Store -> Store) (r : nat -> R) : DB Z :=
  sql (fun k s => match insert_row (id_gap k) (r k) (get s) with
                  | Some (id, t) => Ok (id, set t s)
                  | None => Err DatabaseFull
                  end).

Definition log_change_inner (entity : bytes) (entity_id : option Z) (action : bytes) (before after : option bytes)
  (author_ip : bytes) : DB unit :=
  insert_into changes set_changes (fun k =>
    {| ch_id := 0; ch_ts := current_timestamp k; ch_entity := entity; ch_entity_id := entity_id; ch_action := action;
       ch_before_json := before; ch_after_json := after; ch_author_ip := author_ip |}) ;;
  mret tt.

(** *** Query rules *)

Definition list_rules : DB (list RuleRow) := query (fun s => sort_by (by_number ru_priority) (rows (rules s))).
Definition get_rule (id : Z) : DB (option RuleRow) := query (fun s => List.find (has_id id) (rows (rules s))).
Definition create_rule (row : RuleRow) (author_ip : bytes) : DB Z :=
  id ← insert_into rules set_rules (fun _ => row);
  log_change_inner (bs "rule") (Some id) (bs "create") None (Some (json_text (rule_json row))) author_ip ;;
  mret id.
Definition update_rule (id : Z) (row : RuleRow) (author_ip : bytes) : DB unit :=
  before ← get_rule id;
  execute (fun s => set_rules (update_rows (has_id id) (fun _ => with_id id row) (rules s)) s) ;;
  log_change_inner (bs "rule") (Some id) (bs "update") ((fun r => json_text (rule_json r)) <$> before)
    (Some (json_text (rule_json row))) author_ip.
Definition delete_rule (id : Z) (author_ip : bytes) : DB unit :=
  before ← get_rule id;
  execute (fun s => set_rules (delete_rows (has_id id) (rules s)) s) ;;
  log_change_inner (bs "rule") (Some id) (bs "delete") ((fun r => json_text (rule_json r)) <$> before) None author_ip.

(** *** Rewrite rules *)

Definition list_rewrite_rules : DB (list RewriteRuleRow) :=
  query (fun s => sort_by (by_number rr_priority) (rows (rewrite_rules s))).
Definition get_rewrite_rule (id : Z) : DB (option RewriteRuleRow) :=
  query (fun s => List.find (has_id id) (rows (rewrite_rules s))).
Definition create_rewrite_rule (row : RewriteRuleRow) (author_ip : bytes) : DB Z :=
  id ← insert_into rewrite_rules set_rewrite_rules (fun _ => row);
  log_change_inner (bs "rewrite_rule") (Some id) (bs "create") None (Some (json_text (rewrite_json row))) author_ip ;;
  mret id.
Definition update_rewrite_rule (id : Z) (row : RewriteRuleRow) (author_ip : bytes) : DB unit :=
  before ← get_rewrite_rule id;
  execute (fun s => set_rewrite_rules (update_rows (has_id id) (fun _ => with_id id row) (rewrite_rules s)) s) ;;
  log_change_inner (bs "rewrite_rule") (Some id) (bs "update") ((fun r => json_text (rewrite_json r)) <$> before)
    (Some (json_text (rewrite_json row))) author_ip.
Definition delete_rewrite_rule (id : Z) (author_ip : bytes) : DB unit :=
  before ← get_rewrite_rule id;
  execute (fun s => set_rewrite_rules (delete_rows (has_id id) (rewrite_rules s)) s) ;;
  log_change_inner (bs "rewrite_rule") (Some id) (bs "delete") ((fun r => json_text (rewrite_json r)) <$> before) None author_ip.

(** *** Backends *)

Definition stored_password (password : bytes) : DB bytes :=
  d ← se_get;
  mret (Secret.prepare_for_storage (fresh_nonce (statements d)) password Secret.load_encryption_key).
Definition backend_with_password (pw : bytes) (r : BackendRow) : BackendRow :=
  {| be_id := be_id r; be_addr := be_addr r; be_user := be_user r; be_password := pw; be_database := be_database r;
     be_role := be_role r; be_weight := be_weight r; be_backup := be_backup r; be_tls_mode := be_tls_mode r;
     be_enabled := be_enabled r |}.
Definition of_protocol (protocol : bytes) (r : BackendRecord) : bool := beq (be_protocol r) protocol.
(** [ORDER BY role DESC, id]. *)
Definition by_role (a b : BackendRow) : bool :=
  if beq (be_role a) (be_role b) then be_id a <=? be_id b else bytes_leb (be_role b) (be_role a).

Definition list_backends_by_protocol (protocol : bytes) : DB (list BackendRow) :=
  query (fun s => sort_by by_role (map be_row (List.filter (of_protocol protocol) (rows (backends s))))).
Definition list_backends : DB (list BackendRow) := list_backends_by_protocol (bs "mysql").

Definition create_backend_with_protocol (row : BackendRow) (author_ip protocol : bytes) : DB Z :=
  pw ← stored_password (be_password row);
  id ← insert_into backends set_backends (fun _ => {| be_protocol := protocol; be_row := backend_with_password pw row |});
  let safe := JMap [(bs "protocol", JStr protocol); (bs "addr", JStr (be_addr row)); (bs "role", JStr (be_role row));
                    (bs "weight", JNum (be_weight row))] in
  log_change_inner (bs "backend") (Some id) (bs "create") None (Some (json_text safe)) author_ip ;;
  mret id.
Definition create_backend (row : BackendRow) (author_ip : bytes) : DB Z :=
  create_backend_with_protocol row author_ip (bs "mysql").
Definition update_backend_with_protocol (id : Z) (row : BackendRow) (author_ip protocol : bytes) : DB unit :=
  pw ← stored_password (be_password row);
  execute (fun s => set_backends
    (update_rows (fun r => has_id id r && of_protocol protocol r)
       (fun r => {| be_protocol := be_protocol r; be_row := backend_with_id id (backend_with_password pw row) |}) (backends s)) s) ;;
  let safe := JMap [(bs "protocol", JStr protocol); (bs "addr", JStr (be_addr row)); (bs "role", JStr (be_role row));
                    (bs "weight", JNum (be_weight row)); (bs "enabled", JBool (be_enabled row))] in
  log_change_inner (bs "backend") (Some id) (bs "update") None (Some (json_text safe)) author_ip.
Definition update_backend (id : Z) (row : BackendRow) (author_ip : bytes) : DB unit :=
  update_backend_with_protocol id row author_ip (bs "mysql").
Definition delete_backend_with_protocol (id : Z) (author_ip protocol : bytes) : DB unit :=
  execute (fun s => set_backends (delete_rows (fun r => has_id id r && of_protocol protocol r) (backends s)) s) ;;
  log_change_inner (bs "backend") (Some id) (bs "delete") None None author_ip.
Definition delete_backend (id : Z) (author_ip : bytes) : DB unit := delete_backend_with_protocol id author_ip (bs "mysql").

(** *** Users *)

Definition user_with_password (pw : bytes) (r : UserRow) : UserRow :=
  {| us_id := us_id r; us_name := us_name r; us_password := pw; us_allow_writes := us_allow_writes r;
     us_max_connections := us_max_connections r; us_enabled := us_enabled r |}.
Definition named (n : bytes) (r : UserRow) : bool := beq (us_name r) n.
Definition by_name (a b : UserRow) : bool := bytes_leb (us_name a) (us_name b).
(** An [INSERT] that the [UNIQUE] constraint on the name may refuse. *)
Definition insert_user (r : UserRow) : DB Z :=
  sql (fun k s => if existsb (named (us_name r)) (rows (users s)) then Err UniqueViolation
                  else match insert_row (id_gap k) r (users s) with
                       | Some (id, t) => Ok (id, set_users t s)
                       | None => Err DatabaseFull
                       end).
(** The same [OR IGNORE]. *)
Definition insert_user_or_ignore (r : UserRow) : DB unit :=
  sql (fun k s => if existsb (named (us_name r)) (rows (users s)) then Ok (tt, s)
                  else match insert_row (id_gap k) r (users s) with
                       | Some (_, t) => Ok (tt, set_users t s)
                       | None => Err DatabaseFull
                       end).

Definition list_users : DB (list UserRow) := query (fun s => sort_by by_name (rows (users s))).
Definition create_user (row : UserRow) (author_ip : bytes) : DB Z :=
  pw ← stored_password (us_password row);
  id ← insert_user (user_with_password pw row);
  let safe := JMap [(bs "name", JStr (us_name row)); (bs "allow_writes", JBool (us_allow_writes row))] in
  log_change_inner (bs "user") (Some id) (bs "create") None (Some (json_text safe)) author_ip ;;
  mret id.
Definition update_user (id : Z) (row : UserRow) (author_ip : bytes) : DB unit :=
  pw ← stored_password (us_password row);
  sql (fun _ s =>
    if existsb (has_id id) (rows (users s)) && existsb (fun r => named (us_name row) r && negb (has_id id r)) (rows (users s))
    then Err UniqueViolation
    else Ok (tt, set_users (update_rows (has_id id) (fun _ => with_id id (user_with_password pw row)) (users s)) s)) ;;
  let safe := JMap [(bs "name", JStr (us_name row)); (bs "allow_writes", JBool (us_allow_writes row));
                    (bs "enabled", JBool (us_enabled row))] in
  log_change_inner (bs "user") (Some id) (bs "update") None (Some (json_text safe)) author_ip.
Definition delete_user (id : Z) (author_ip : bytes) : DB unit :=
  execute (fun s => set_users (delete_rows (has_id id) (users s)) s) ;;
  log_change_inner (bs "user") (Some id) (bs "delete") None None author_ip.

(** *** The log of changes; a negative limit is none *)
Definition list_changes (limit : Z) : DB (list ChangeRow) :=
  query (fun s => let l := rev (rows (changes s)) in if limit <? 0 then l else take (Z.to_nat limit) l).

(** *** What the running proxy is given *)

Definition rule_destination (text : bytes) : RuleDestination :=
  if beq text (bs "primary") then RPrimary else if beq text (bs "replica") then RReplica else RAny.
Definition rule_config (r : RuleRow) : QueryRuleConfig :=
  {| match_pattern := ru_match_pattern r; match_digest := ru_match_digest r; qr_user := ru_user r; qr_schema := ru_schema_name r;
     qr_destination := rule_destination (ru_destination r); qr_cache_ttl_secs := u64 (ru_cache_ttl_secs r);
     qr_comment := ru_comment r; qr_mirror_to := ru_mirror_to r;
     destination_hostgroup := u32 <$> ru_destination_hostgroup r; qr_rollout_pct := u8 <$> ru_rollout_pct r;
     qr_qps_limit := None; qr_dry_run := false; qr_fast_forward := false |}.
Definition active_query_rules : DB (list QueryRuleConfig) :=
  l ← list_rules; mret (map rule_config (List.filter ru_enabled l)).

Definition rewrite_config (r : RewriteRuleRow) : QueryRewriteConfig :=
  {| rw_match_pattern := rr_match_pattern r; rw_replace_with := rr_replace_with r; rw_add_limit := u32 <$> rr_add_limit r;
     rw_add_timeout_ms := u64 <$> rr_add_timeout_ms r; rw_block := rr_block r; rw_comment := rr_comment r |}.
Definition active_rewrite_rules : DB (list QueryRewriteConfig) :=
  l ← list_rewrite_rules; mret (map rewrite_config (List.filter rr_enabled l)).

Definition tls_of_text (text : bytes) : TlsMode :=
  if beq text (bs "required") then TlsRequired else if beq text (bs "verify-ca") then TlsVerifyCa
  else if beq text (bs "verify-identity") then TlsVerifyIdentity else TlsOff.
Definition backend_config (r : BackendRow) : BackendConfig :=
  {| addr := be_addr r; cfg_user := be_user r; cfg_password := be_password r; cfg_database := be_database r;
     cfg_tls_mode := tls_of_text (be_tls_mode r); cfg_tls_ca := None; cfg_tls_cert := None; cfg_tls_key := None;
     cfg_weight := u32 (be_weight r); cfg_backup := be_backup r; init_connect := []; cfg_compression := NoCompression;
     cfg_resolution_family := bs "system"; cfg_ssl_keylog_file := []; max_connections := None |}.
Definition add_backend (acc : option BackendConfig * list BackendConfig) (r : BackendRow)
  : option BackendConfig * list BackendConfig :=
  if beq (be_role r) (bs "primary") then (Some (backend_config r), snd acc) else (fst acc, snd acc ++ [backend_config r]).
Definition active_backends_for_protocol (protocol : bytes) : DB (option BackendConfig * list BackendConfig) :=
  l ← list_backends_by_protocol protocol; mret (foldl add_backend (None, []) (List.filter be_enabled l)).
Definition active_backends : DB (option BackendConfig * list BackendConfig) := active_backends_for_protocol (bs "mysql").

Definition user_config (r : UserRow) : UserConfig :=
  {| name := us_name r; uc_password := us_password r; uc_allow_writes := us_allow_writes r;
     uc_max_connections := usize (us_max_connections r); default_schema := []; transaction_isolation := [] |}.
Definition active_users : DB (list UserConfig) := l ← list_users; mret (map user_config (List.filter us_enabled l)).

(** *** Seeding and import *)

Definition destination_text (d : RuleDestination) : bytes :=
  match d with RAny => bs "any" | RPrimary => bs "primary" | RReplica => bs "replica" end.
Definition rule_row (i : nat) (r : QueryRuleConfig) : RuleRow :=
  {| ru_id := 0; ru_priority := Z.of_nat i; ru_match_pattern := match_pattern r; ru_match_digest := match_digest r;
     ru_user := qr_user r; ru_schema_name := qr_schema r; ru_destination := destination_text (qr_destination r);
     ru_destination_hostgroup := destination_hostgroup r; ru_cache_ttl_secs := i64 (qr_cache_ttl_secs r);
     ru_comment := qr_comment r; ru_mirror_to := qr_mirror_to r; ru_rollout_pct := qr_rollout_pct r; ru_enabled := true |}.
Definition rewrite_row (i : nat) (r : QueryRewriteConfig) : RewriteRuleRow :=
  {| rr_id := 0; rr_priority := Z.of_nat i; rr_match_pattern := rw_match_pattern r; rr_replace_with := rw_replace_with r;
     rr_add_limit := rw_add_limit r; rr_add_timeout_ms := i64 <$> rw_add_timeout_ms r; rr_block := rw_block r;
     rr_comment := rw_comment r; rr_enabled := true |}.
Fixpoint insert_rules (i : nat) (l : list QueryRuleConfig) : DB unit :=
  match l with
  | [] => mret tt
  | r :: l' => insert_into rules set_rules (fun _ => rule_row i r) ;; insert_rules (S i) l'
  end.
Fixpoint insert_rewrite_rules (i : nat) (l : list QueryRewriteConfig) : DB unit :=
  match l with
  | [] => mret tt
  | r :: l' => insert_into rewrite_rules set_rewrite_rules (fun _ => rewrite_row i r) ;; insert_rewrite_rules (S i) l'
  end.

Definition tls_text (m : TlsMode) : bytes :=
  match m with TlsOff => bs "off" | TlsRequired => bs "required" | TlsVerifyCa => bs "verify-ca"
             | TlsVerifyIdentity => bs "verify-identity" end.
Definition insert_backend_inner (cfg : BackendConfig) (role protocol : bytes) : DB unit :=
  pw ← stored_password (cfg_password cfg);
  insert_into backends set_backends (fun _ =>
    {| be_protocol := protocol;
       be_row := {| be_id := 0; be_addr := addr cfg; be_user := cfg_user cfg; be_password := pw; be_database := cfg_database cfg;
                    be_role := role; be_weight := cfg_weight cfg; be_backup := cfg_backup cfg;
                    be_tls_mode := tls_text (cfg_tls_mode cfg); be_enabled := true |} |}) ;;
  mret tt.
Definition insert_backends (primary : BackendConfig) (replicas : list BackendConfig) : DB unit :=
  insert_backend_inner primary (bs "primary") (bs "mysql") ;;
  se_iter (fun r => insert_backend_inner r (bs "replica") (bs "mysql")) replicas.
Definition user_row (u : UserConfig) (password : bytes) : UserRow :=
  {| us_id := 0; us_name := name u; us_password := password; us_allow_writes := uc_allow_writes u;
     us_max_connections := i64 (uc_max_connections u); us_enabled := true |}.

Definition count_rows {R} (l : list R) : Z := Z.of_nat (length l).
Definition seed_if_empty (query_rules : list QueryRuleConfig) (rewrites : list QueryRewriteConfig) (primary : BackendConfig)
  (replicas : list BackendConfig) (us : list UserConfig) : DB unit :=
  n ← query (fun s => count_rows (rows (rules s)));
  (if n =? 0 then insert_rules 0 query_rules else mret tt) ;;
  n ← query (fun s => count_rows (rows (rewrite_rules s)));
  (if n =? 0 then insert_rewrite_rules 0 rewrites else mret tt) ;;
  n ← query (fun s => count_rows (List.filter (of_protocol (bs "mysql")) (rows (backends s))));
  (if n =? 0 then insert_backends primary replicas else mret tt) ;;
  n ← query (fun s => count_rows (rows (users s)));
  if n =? 0 then
    se_iter (fun u => pw ← stored_password (uc_password u); insert_user_or_ignore (user_row u pw)) us
  else mret tt.

(** The text of the log entry of an import. *)
Definition import_summary (r w b u : nat) : bytes :=
  let field n v := [dquote] ++ bs n ++ [dquote; 58] ++ show_u64 (Z.of_nat v) in
  [123] ++ field "rules"%string r ++ [44] ++ field "rewrite_rules"%string w ++ [44] ++ field "backends"%string b ++ [44]
        ++ field "users"%string u ++ [125].
Definition replace_all (query_rules : list QueryRuleConfig) (rewrites : list QueryRewriteConfig) (primary : BackendConfig)
  (replicas : list BackendConfig) (us : list UserConfig) (author_ip : bytes) : DB unit :=
  execute (fun s => set_rules (delete_rows (fun _ => true) (rules s)) s) ;;
  execute (fun s => set_rewrite_rules (delete_rows (fun _ => true) (rewrite_rules s)) s) ;;
  execute (fun s => set_backends (delete_rows (of_protocol (bs "mysql")) (backends s)) s) ;;
  execute (fun s => set_users (delete_rows (fun _ => true) (users s)) s) ;;
  insert_rules 0 query_rules ;;
  insert_rewrite_rules 0 rewrites ;;
  insert_backends primary replicas ;;
  se_iter (fun u => insert_user (user_row u (uc_password u)) ;; mret tt) us ;;
  log_change_inner (bs "all") None (bs "import") None
    (Some (import_summary (length query_rules) (length rewrites) (1 + length replicas) (length us))) author_ip.
End Operations.
