(* ===== verification/ConfigStoreProps.v ===== *)
(** * What the configuration store guarantees (src/src/config/store.rs)

    Theorems about ConfigStore, for every sequence of operations and whichever statements
    fail: ids, the log of changes, what becomes of passwords, seeding and import. *)

From stdpp Require Import sorting.
From S2P Require Import Prelude Bytes Config Classifier ConfigStore.

(** ** Operations *)

Inductive StoreOp :=
| CreateRule (row : RuleRow) | UpdateRule (id : Z) (row : RuleRow) | DeleteRule (id : Z)
| CreateRewrite (row : RewriteRuleRow) | UpdateRewrite (id : Z) (row : RewriteRuleRow) | DeleteRewrite (id : Z)
| CreateBackend (row : BackendRow) (protocol : bytes) | UpdateBackend (id : Z) (row : BackendRow) (protocol : bytes)
| DeleteBackend (id : Z) (protocol : bytes)
| CreateUser (row : UserRow) | UpdateUser (id : Z) (row : UserRow) | DeleteUser (id : Z)
| Import (rs : list QueryRuleConfig) (ws : list QueryRewriteConfig) (p : BackendConfig) (reps : list BackendConfig) (us : list UserConfig).

Section Props.
Context `{ENV : Environment} `{SC : SecretCodec} `{SQ : Sqlite}.

Definition new_id (m : DB Z) : DB (option Z) := id ← m; mret (Some id).
Definition no_id (m : DB unit) : DB (option Z) := m ;; mret None.
Definition run_op (op : StoreOp) (ip : bytes) : DB (option Z) :=
  match op with
  | CreateRule row => new_id (create_rule row ip)
  | UpdateRule id row => no_id (update_rule id row ip)
  | DeleteRule id => no_id (delete_rule id ip)
  | CreateRewrite row => new_id (create_rewrite_rule row ip)
  | UpdateRewrite id row => no_id (update_rewrite_rule id row ip)
  | DeleteRewrite id => no_id (delete_rewrite_rule id ip)
  | CreateBackend row p => new_id (create_backend_with_protocol row ip p)
  | UpdateBackend id row p => no_id (update_backend_with_protocol id row ip p)
  | DeleteBackend id p => no_id (delete_backend_with_protocol id ip p)
  | CreateUser row => new_id (create_user row ip)
  | UpdateUser id row => no_id (update_user id row ip)
  | DeleteUser id => no_id (delete_user id ip)
  | Import rs ws p reps us => no_id (replace_all rs ws p reps us ip)
  end.

(** ** Steps and what they keep *)

(** A relation between the store before and after that every statement of a computation
    respects. *)
Definition respects {A} (R : Store -> Store -> Prop) (m : DB A) : Prop := forall d, R (store d) (store (snd (m d))).

Section Respects.
Context (R : Store -> Store -> Prop) `{!Reflexive R} `{!Transitive R}.
Lemma respects_bind {A B} (m : DB A) (f : A -> DB B) : respects R m -> (forall a, respects R (f a)) -> respects R (m ≫= f).
Proof.
  intros Hm Hf d. unfold mbind, se_bind. specialize (Hm d). destruct (m d) as [[a|e] d1]; cbn [snd] in *; [|done].
  etransitivity; [exact Hm | apply Hf].
Qed.
Lemma respects_ret {A} (a : A) : respects R (mret a : DB A).
Proof. intros d. done. Qed.
Lemma respects_sql {A} (f : nat -> Store -> result DbError (A * Store)) :
  (forall k s a s', f k s = Ok (a, s') -> R s s') -> respects R (sql f).
Proof.
  intros H d. unfold sql. destruct (sql_error (statements d)); [done|]. specialize (H (statements d) (store d)).
  destruct (f _ _) as [[a s']|]; [by eapply H | done].
Qed.
Lemma respects_query {A} (f : Store -> A) : respects R (query f).
Proof. apply respects_sql. by intros k s a s' [= _ <-]. Qed.
Lemma respects_execute (f : Store -> Store) : (forall s, R s (f s)) -> respects R (execute f).
Proof. intros H. apply respects_sql. intros k s a s' [= _ <-]. apply H. Qed.
Lemma respects_insert {X} `{!HasId X} get set (r : nat -> X) :
  (forall k s id t, insert_row (id_gap k) (r k) (get s) = Some (id, t) -> R s (set t s)) ->
  respects R (insert_into get set r).
Proof.
  intros H. apply respects_sql. intros k s a s'. specialize (H k s). destruct (insert_row _ _ _) as [[id t]|]; [|done].
  intros [= _ <-]. by eapply H.
Qed.
Lemma respects_stored_password pw : respects R (stored_password pw).
Proof. intros d. done. Qed.
Lemma respects_iter {A} (f : A -> DB unit) l : (forall a, respects R (f a)) -> respects R (se_iter f l).
Proof. intros H. induction l as [|a l IH]; [apply respects_ret | by apply respects_bind]. Qed.
End Respects.

End Props.

Create HintDb respects discriminated.
(** Everything a computation of the store does is of this kind. *)
Ltac le_tac :=
  repeat first
    [ solve [auto with respects nocore] | apply respects_ret | apply respects_stored_password | apply respects_query
    | apply respects_iter; [| |intros ?]
    | apply respects_execute; [|intros ?]
    | apply respects_insert; [|intros ? ? ? ? ?]
    | apply respects_bind; [| |intros ?]
    | apply _
    | progress intros ].

Section OpProps.
Context `{ENV : Environment} `{SC : SecretCodec} `{SQ : Sqlite}.

(** What a table may become: rows appended, changed in place or removed. *)
Section TableSteps.
Context {X : Type} `{HI : !HasId X} `{!HasIdLaws X HI}.
Definition ids (t : Table X) : list Z := map row_id (rows t).
Definition table_wf (t : Table X) : Prop := StronglySorted Z.lt (ids t) /\ Forall (fun i => i <= seq t) (ids t).
(** Ids that are gone do not come back. *)
Definition table_le (t t' : Table X) : Prop :=
  seq t <= seq t' /\ (forall i, i ∈ ids t' -> i <= seq t -> i ∈ ids t) /\ (table_wf t -> table_wf t').

#[export] Instance table_le_refl : Reflexive table_le.
Proof. intros t. split_and!; done || lia. Qed.
#[export] Instance table_le_trans : Transitive table_le.
Proof.
  intros a b c (H1 & H2 & H3) (H4 & H5 & H6). split_and!; [lia | | auto]. intros i Hi Hs. apply H2; [apply H5; [done | lia] | done].
Qed.

Lemma insert_row_ids gap r t id t' : insert_row gap r t = Some (id, t') ->
  ids t' = ids t ++ [id] /\ seq t' = id /\ seq t < id < 2 ^ 63.
Proof.
  unfold insert_row, ids. destruct (2 ^ 63 <=? _) eqn:E; [done|]. apply Z.leb_gt in E. intros [= <- <-]. cbn [rows seq].
  rewrite map_app. cbn [map]. rewrite row_id_with_id. split_and!; [done..|lia|lia].
Qed.
Lemma insert_row_le gap r t id t' : insert_row gap r t = Some (id, t') -> table_le t t'.
Proof.
  intros H. apply insert_row_ids in H as (E & Hs & Hlt). unfold table_le, table_wf. rewrite E, Hs. split_and!; [lia | |].
  - intros i Hi Hle. apply elem_of_app in Hi as [Hi|Hi%list_elem_of_singleton]; [done | lia].
  - intros [H1 H2]. split.
    + apply StronglySorted_app_2; [|done | by repeat constructor]. intros a b Ha ->%list_elem_of_singleton.
      rewrite list.Forall_forall in H2. specialize (H2 a Ha). cbn in H2. lia.
    + apply Forall_app. split; [|by repeat constructor]. eapply list.Forall_impl; [exact H2|]. cbn. lia.
Qed.
Lemma update_rows_le p f t : (forall r, p r = true -> row_id (f r) = row_id r) -> table_le t (update_rows p f t).
Proof.
  intros H. assert (ids (update_rows p f t) = ids t) as E.
  { unfold ids, update_rows. cbn [rows]. rewrite map_map. apply map_ext. intros r. destruct (p r) eqn:Hp; [by apply H | done]. }
  unfold table_le, table_wf. rewrite E. split_and!; [cbn; lia | done | done].
Qed.
Lemma delete_rows_le p t : table_le t (delete_rows p t).
Proof.
  assert (sublist (ids (delete_rows p t)) (ids t)) as Hs.
  { unfold ids, delete_rows. cbn [rows]. induction (rows t) as [|r l IH]; [constructor|]. cbn [List.filter].
    destruct (negb (p r)); by constructor. }
  unfold table_le. split_and!; [cbn; lia | intros i Hi _; eapply elem_of_submseteq; [exact Hi | by apply sublist_submseteq] |].
  intros [H1 H2]. split.
  - clear H2. revert H1. induction Hs as [|x l1 l2 Hs IH|x l1 l2 Hs IH]; intros H; [constructor| |]; inversion_clear H as [|? ? Ha Hb]; [|auto].
    constructor; [auto|]. rewrite list.Forall_forall in Hb |- *. intros y Hy. apply Hb. eapply elem_of_submseteq; [exact Hy | by apply sublist_submseteq].
  - rewrite list.Forall_forall in H2 |- *. intros i Hi. apply H2. eapply elem_of_submseteq; [exact Hi | by apply sublist_submseteq].
Qed.
Lemma update_with_id_le id r t : table_le t (update_rows (has_id id) (fun _ => with_id id r) t).
Proof. apply update_rows_le. intros r' H. apply Z.eqb_eq in H. by rewrite row_id_with_id. Qed.
End TableSteps.

#[export] Instance rule_id_laws : HasIdLaws RuleRow rule_id. Proof. done. Qed.
#[export] Instance rewrite_id_laws : HasIdLaws RewriteRuleRow rewrite_id. Proof. done. Qed.
#[export] Instance backend_id_laws : HasIdLaws BackendRecord backend_id. Proof. done. Qed.
#[export] Instance user_id_laws : HasIdLaws UserRow user_id. Proof. done. Qed.
#[export] Instance change_id_laws : HasIdLaws ChangeRow change_id. Proof. done. Qed.

(** ** Ids and names *)

Definition names_unique (s : Store) : Prop := NoDup (map us_name (rows (users s))).
Definition store_le (s s' : Store) : Prop :=
  (table_le (rules s) (rules s') /\ table_le (rewrite_rules s) (rewrite_rules s') /\ table_le (backends s) (backends s') /\
   table_le (users s) (users s') /\ table_le (changes s) (changes s')) /\
  rows (changes s) `prefix_of` rows (changes s') /\ (table_wf (users s) -> names_unique s -> names_unique s').

#[export] Instance store_le_refl : Reflexive store_le.
Proof. intros s. unfold store_le. split_and!; done. Qed.
#[export] Instance store_le_trans : Transitive store_le.
Proof.
  intros a b c ((? & ? & ? & (Hu1 & Hu2 & Hu3) & ?) & ? & ?) ((? & ? & ? & ? & ?) & ? & ?). unfold store_le.
  split_and!; try (by etransitivity); [|auto]. etransitivity; [|eassumption]. done.
Qed.

Ltac store_le_tac := unfold store_le; cbn [rules rewrite_rules backends users changes set_rules set_rewrite_rules set_backends set_users set_changes];
  split_and!; try done.

Lemma rules_le s t : table_le (rules s) t -> store_le s (set_rules t s).
Proof. intros H. store_le_tac. Qed.
Lemma rewrite_rules_le s t : table_le (rewrite_rules s) t -> store_le s (set_rewrite_rules t s).
Proof. intros H. store_le_tac. Qed.
Lemma backends_le s t : table_le (backends s) t -> store_le s (set_backends t s).
Proof. intros H. store_le_tac. Qed.
Lemma users_le s t : table_le (users s) t -> (table_wf (users s) -> names_unique s -> NoDup (map us_name (rows t))) -> store_le s (set_users t s).
Proof. intros H Hn. store_le_tac. Qed.

Lemma deleted_names_unique p s : names_unique s -> NoDup (map us_name (rows (delete_rows p (users s)))).
Proof.
  intros H. eapply sublist_NoDup; [exact H|]. unfold delete_rows. cbn [rows]. clear H.
  induction (rows (users s)) as [|r l IH]; [constructor|]. cbn [List.filter]. destruct (negb (p r)); by constructor.
Qed.
Lemma unnamed n (l : list UserRow) : existsb (named n) l = false -> n ∉ map us_name l.
Proof.
  intros H Hn. apply list_elem_of_In, in_map_iff in Hn as (r & Hr & Hin). assert (existsb (named n) l = true); [|congruence].
  apply existsb_exists. exists r. split; [done|]. unfold named. by rewrite Hr, beq_refl.
Qed.
Lemma inserted_names_unique gap r t id t' : insert_row gap r t = Some (id, t') ->
  existsb (named (us_name r)) (rows t) = false -> NoDup (map us_name (rows t)) -> NoDup (map us_name (rows t')).
Proof.
  unfold insert_row. destruct (_ <=? _); [done|]. intros [= <- <-] Hn%unnamed Hd. cbn [rows]. rewrite map_app. cbn.
  apply list.NoDup_app. split_and!; [done | | by apply NoDup_singleton]. by intros x Hx ->%list_elem_of_singleton.
Qed.

Lemma updated_names id n (f : UserRow -> UserRow) l : StronglySorted Z.lt (map row_id l) -> NoDup (map us_name l) ->
  (forall r, r ∈ l -> us_name r = n -> row_id r = id) -> (forall r, us_name (f r) = n) ->
  NoDup (map us_name (map (fun r => if has_id id r then f r else r) l)).
Proof.
  intros Hs Hd Hn Hf. induction l as [|r l IH]; [constructor|]. cbn [map] in *.
  apply StronglySorted_cons in Hs as [Hr Hs]. rewrite list.Forall_forall in Hr. apply list.NoDup_cons in Hd as [Hnr Hd].
  assert (forall r2, r2 ∈ l -> row_id r < row_id r2) as Hlt by (intros r2 H2; apply Hr, list_elem_of_In, in_map, list_elem_of_In, H2).
  apply list.NoDup_cons. split; [|apply IH; [done | done |]; intros r2 H2; apply Hn; by right].
  intros Hin. apply list_elem_of_In, in_map_iff in Hin as (r2' & E & Hin). apply in_map_iff in Hin as (r2 & <- & Hin).
  apply list_elem_of_In in Hin. specialize (Hlt r2 Hin). pose proof (Hn r2 ltac:(by right)) as H2. pose proof (Hn r ltac:(by left)) as H1.
  unfold has_id in E. destruct (row_id r2 =? id) eqn:E2, (row_id r =? id) eqn:E1; rewrite ?Z.eqb_eq, ?Z.eqb_neq in *; rewrite ?Hf in E; try lia.
  - by apply E1, H1.
  - by apply E2, H2.
  - apply Hnr. apply list_elem_of_In, in_map_iff. exists r2. split; [done | by apply list_elem_of_In].
Qed.

Lemma log_le entity id action before after ip : respects store_le (log_change_inner entity id action before after ip).
Proof.
  unfold log_change_inner. le_tac. store_le_tac; [by eapply insert_row_le|].
  unfold insert_row in *. case_match; [done|]. simplify_eq. cbn. by apply prefix_app_r.
Qed.
#[local] Hint Resolve log_le : respects.
Lemma insert_user_le r : respects store_le (insert_user r).
Proof.
  apply respects_sql; [done|]. intros k s a s'. destruct (existsb _ _) eqn:En; [done|]. destruct (insert_row _ _ _) as [[id t]|] eqn:Ei; [|done].
  intros [= _ <-]. apply users_le; [by eapply insert_row_le | intros _; by eapply inserted_names_unique].
Qed.
Lemma insert_user_or_ignore_le r : respects store_le (insert_user_or_ignore r).
Proof.
  apply respects_sql; [done|]. intros k s a s'. destruct (existsb _ _) eqn:En; [by intros [= _ <-]|].
  destruct (insert_row _ _ _) as [[id t]|] eqn:Ei; [|done].
  intros [= _ <-]. apply users_le; [by eapply insert_row_le | intros _; by eapply inserted_names_unique].
Qed.
Lemma insert_rules_le i l : respects store_le (insert_rules i l).
Proof. revert i. induction l as [|r l IH]; intros i; cbn [insert_rules]; le_tac. apply rules_le. by eapply insert_row_le. Qed.
Lemma insert_rewrite_rules_le i l : respects store_le (insert_rewrite_rules i l).
Proof. revert i. induction l as [|r l IH]; intros i; cbn [insert_rewrite_rules]; le_tac. apply rewrite_rules_le. by eapply insert_row_le. Qed.
Lemma insert_backend_inner_le cfg role protocol : respects store_le (insert_backend_inner cfg role protocol).
Proof. unfold insert_backend_inner. le_tac. apply backends_le. by eapply insert_row_le. Qed.
#[local] Hint Resolve insert_user_le insert_user_or_ignore_le insert_rules_le insert_rewrite_rules_le insert_backend_inner_le : respects.
Lemma update_user_le id row ip : respects store_le (update_user id row ip).
Proof.
  unfold update_user. le_tac. apply respects_sql; [done|]. intros k s x s'.
  destruct (existsb (has_id id) _ && _) eqn:E; [done|]. intros [= _ <-]. apply users_le; [by apply update_rows_le; intros r Hr; apply Z.eqb_eq in Hr|].
  intros [Hi _] Hn. unfold update_rows. cbn [rows]. destruct (existsb (has_id id) _) eqn:E1; cbn [andb] in E.
  - apply updated_names with (n := us_name row); [done | done | | done]. intros r Hr Hname. destruct (has_id id r) eqn:Ei; [by apply Z.eqb_eq|].
    assert (existsb (fun r => named (us_name row) r && negb (has_id id r)) (rows (users s)) = true); [|congruence].
    apply existsb_exists. exists r. split; [by apply list_elem_of_In|]. unfold named. by rewrite Hname, beq_refl, Ei.
  - rewrite (map_ext_in _ (fun r => r)), map_id; [exact Hn|]. intros r Hr. destruct (has_id id r) eqn:Ei; [|done].
    assert (existsb (has_id id) (rows (users s)) = true); [|congruence]. apply existsb_exists. by exists r.
Qed.

#[local] Hint Resolve update_user_le : respects.
Lemma run_op_le op ip : respects store_le (run_op op ip).
Proof.
  destruct op; cbn [run_op]; unfold new_id, no_id; try unfold create_rule, update_rule, delete_rule, create_rewrite_rule, update_rewrite_rule,
    delete_rewrite_rule, create_backend_with_protocol, update_backend_with_protocol, delete_backend_with_protocol, create_user, delete_user,
    replace_all, insert_backends, get_rule, get_rewrite_rule;
  le_tac;
  try first [apply rules_le | apply rewrite_rules_le | apply backends_le | apply users_le];
  try first [by eapply insert_row_le | by apply update_rows_le; intros r Hr; apply Z.eqb_eq in Hr | apply delete_rows_le | intros _; apply deleted_names_unique
            | apply update_rows_le; intros r Hr; apply andb_prop in Hr as [Hr _]; apply Z.eqb_eq in Hr; done].
Qed.
#[local] Hint Resolve run_op_le : respects.
Lemma seed_le rs ws p reps us : respects store_le (seed_if_empty rs ws p reps us).
Proof.
  unfold seed_if_empty, insert_backends. le_tac; match goal with |- respects _ (if ?b then _ else _) => destruct b end; le_tac.
Qed.

(** What happens to a store: the operations of the dashboard, and the seeding at a start. *)
Inductive db_step : Db -> Db -> Prop :=
| step_op op ip d : db_step d (snd (run_op op ip d))
| step_seed rs ws p reps us d : db_step d (snd (seed_if_empty rs ws p reps us d)).
Definition db_new : Db := {| store := store_new; statements := 0 |}.

Lemma steps_le d d' : steps db_step d d' -> store_le (store d) (store d').
Proof. induction 1 as [|d1 d2 d3 H _ IH]; [done|]. etransitivity; [|exact IH]. destruct H; [apply run_op_le | apply seed_le]. Qed.

Definition store_wf (s : Store) : Prop :=
  table_wf (rules s) /\ table_wf (rewrite_rules s) /\ table_wf (backends s) /\ table_wf (users s) /\ table_wf (changes s) /\ names_unique s.
Lemma store_new_wf : store_wf store_new.
Proof. unfold store_wf, names_unique, table_wf, ids. cbn. split_and!; constructor. Qed.
Lemma store_le_wf s s' : store_le s s' -> store_wf s -> store_wf s'.
Proof. intros ((H1 & H2 & H3 & H4 & H5) & _ & H6) (? & ? & ? & ? & ? & ?). unfold store_wf. split_and!; [apply H1 | apply H2 | apply H3 | apply H4 | apply H5 | apply H6]; done. Qed.

(** From one state of a table to a later one, after an earlier one: an id that is new is beyond
    all that were ever given out, and an id that is gone is never given to another row. *)
Definition ids_not_reused {X} `{!HasId X} (t0 t t' : Table X) : Prop :=
  (forall i, i ∈ ids t' -> i ∈ ids t \/ seq t < i) /\ (forall i, i ∈ ids t0 -> i ∉ ids t -> i ∉ ids t').
Lemma table_le_not_reused {X} `{!HasId X} (t0 t t' : Table X) :
  table_wf t0 -> table_le t0 t -> table_le t t' -> ids_not_reused t0 t t'.
Proof.
  intros [_ H0] [Hs _] (_ & Hi & _). rewrite list.Forall_forall in H0. split.
  - intros i H. destruct (decide (seq t < i)) as [|Hle%Z.nlt_ge]; [by right | left; by apply Hi].
  - intros i Hi0 Hgone Hback. apply Hgone, Hi; [done|]. specialize (H0 i Hi0). lia.
Qed.

(** C40: However the store is changed, seeded again, and whichever statements fail half-way: the
    ids of each table are distinct and in order, no two users have one name, the log of
    changes only grows, and in none of the tables an id that is gone is given to another
    row, so that the log stays true of it. *)
Theorem store_consistent d0 d d' : steps db_step db_new d0 -> steps db_step d0 d -> steps db_step d d' ->
  store_wf (store d) /\
  rows (changes (store d)) `prefix_of` rows (changes (store d')) /\
  ids_not_reused (rules (store d0)) (rules (store d)) (rules (store d')) /\
  ids_not_reused (rewrite_rules (store d0)) (rewrite_rules (store d)) (rewrite_rules (store d')) /\
  ids_not_reused (backends (store d0)) (backends (store d)) (backends (store d')) /\
  ids_not_reused (users (store d0)) (users (store d)) (users (store d')) /\
  ids_not_reused (changes (store d0)) (changes (store d)) (changes (store d')).
Proof.
  intros H0%steps_le H1%steps_le H2%steps_le.
  assert (store_wf (store d0)) as Hwf by (by eapply store_le_wf, store_new_wf). split; [by eapply store_le_wf|].
  destruct Hwf as (Hr & Hw & Hb & Hu & Hc & _), H1 as ((? & ? & ? & ? & ?) & _), H2 as ((? & ? & ? & ? & ?) & Hlog & _).
  split_and!; [exact Hlog | by apply table_le_not_reused..].
Qed.

(** ** The log of changes *)

Definition op_entity (op : StoreOp) : bytes :=
  match op with
  | CreateRule _ | UpdateRule _ _ | DeleteRule _ => bs "rule"
  | CreateRewrite _ | UpdateRewrite _ _ | DeleteRewrite _ => bs "rewrite_rule"
  | CreateBackend _ _ | UpdateBackend _ _ _ | DeleteBackend _ _ => bs "backend"
  | CreateUser _ | UpdateUser _ _ | DeleteUser _ => bs "user"
  | Import _ _ _ _ _ => bs "all"
  end.
Definition op_action (op : StoreOp) : bytes :=
  match op with
  | CreateRule _ | CreateRewrite _ | CreateBackend _ _ | CreateUser _ => bs "create"
  | UpdateRule _ _ | UpdateRewrite _ _ | UpdateBackend _ _ _ | UpdateUser _ _ => bs "update"
  | DeleteRule _ | DeleteRewrite _ | DeleteBackend _ _ | DeleteUser _ => bs "delete"
  | Import _ _ _ _ _ => bs "import"
  end.
(** The id an operation is told. *)
Definition op_target (op : StoreOp) : option Z :=
  match op with
  | UpdateRule id _ | DeleteRule id | UpdateRewrite id _ | DeleteRewrite id | UpdateBackend id _ _ | DeleteBackend id _
  | UpdateUser id _ | DeleteUser id => Some id
  | _ => None
  end.
Definition entry_of (op : StoreOp) (id : option Z) (ip : bytes) (e : ChangeRow) : Prop :=
  ch_entity e = op_entity op /\ ch_entity_id e = id /\ ch_action e = op_action op /\ ch_author_ip e = ip.

Definition same_changes (s s' : Store) : Prop := changes s' = changes s.
#[local] Instance same_changes_refl : Reflexive same_changes. Proof. done. Qed.
#[local] Instance same_changes_trans : Transitive same_changes. Proof. unfold same_changes. congruence. Qed.
Definition log_is (t : Table ChangeRow) (d : Db) : Prop := changes (store d) = t.
Definition log_grown (t : Table ChangeRow) (op : StoreOp) (id : option Z) (ip : bytes) (d : Db) : Prop :=
  exists e, rows (changes (store d)) = rows t ++ [e] /\ entry_of op id ip e.

Lemma silent {A} t (m : DB A) : respects same_changes m -> triple (log_is t) m (fun _ => log_is t) (fun _ => log_is t).
Proof. intros H d Hd. specialize (H d). unfold log_is, same_changes in *. destruct (m d) as [[a|e] d']; cbn [snd] in H; congruence. Qed.
Lemma log_entry t op id before after ip :
  triple (log_is t) (log_change_inner (op_entity op) id (op_action op) before after ip)
    (fun _ => log_grown t op id ip) (fun _ => log_is t).
Proof.
  intros d Hd. unfold log_change_inner, insert_into, sql, mbind, se_bind. destruct (sql_error _); [done|].
  rewrite Hd. unfold insert_row. destruct (_ <=? _); [done|]. cbn. eexists. split; [reflexivity | done].
Qed.
Lemma created_entry t op id before after ip :
  triple (log_is t) (log_change_inner (op_entity op) (Some id) (op_action op) before after ip ;; mret id)
    (fun i => log_grown t op (Some i) ip) (fun _ => log_is t).
Proof. eapply triple_bind; [apply log_entry | intros ? s Hs; exact Hs]. Qed.

Lemma insert_user_silent r : respects same_changes (insert_user r).
Proof. apply respects_sql; [done|]. intros k s a s'. destruct (existsb _ _); [done|]. destruct (insert_row _ _ _) as [[id t]|]; [by intros [= _ <-] | done]. Qed.
Lemma insert_rules_silent i l : respects same_changes (insert_rules i l).
Proof. revert i. induction l as [|r l IH]; intros i; cbn [insert_rules]; le_tac; done. Qed.
Lemma insert_rewrite_rules_silent i l : respects same_changes (insert_rewrite_rules i l).
Proof. revert i. induction l as [|r l IH]; intros i; cbn [insert_rewrite_rules]; le_tac; done. Qed.
Lemma insert_backend_inner_silent cfg role protocol : respects same_changes (insert_backend_inner cfg role protocol).
Proof. unfold insert_backend_inner. le_tac; done. Qed.
Lemma update_user_silent (p : Store -> bool) (t : Store -> Table UserRow) :
  respects same_changes (sql (fun _ s => if p s then Err UniqueViolation else Ok (tt, set_users (t s) s))).
Proof. apply respects_sql; [done|]. intros k s a s'. destruct (p s); [done | by intros [= _ <-]]. Qed.
#[local] Hint Resolve insert_user_silent insert_rules_silent insert_rewrite_rules_silent insert_backend_inner_silent update_user_silent : respects.

(** Each operation that returns has added one entry to the log: what was done, to which row
    and from where; one that fails has added none. *)
Theorem changes_logged op ip d :
  let '(r, d') := run_op op ip d in
  match r with
  | Ok id => exists e, rows (changes (store d')) = rows (changes (store d)) ++ [e] /\
               entry_of op (match id with Some i => Some i | None => op_target op end) ip e
  | Err _ => changes (store d') = changes (store d)
  end.
Proof.
  enough (triple (log_is (changes (store d))) (run_op op ip)
            (fun id => log_grown (changes (store d)) op (match id with Some i => Some i | None => op_target op end) ip)
            (fun _ => log_is (changes (store d)))) as H by exact (H d eq_refl).
  assert (forall (m : DB Z), triple (log_is (changes (store d))) m (fun i => log_grown (changes (store d)) op (Some i) ip) (fun _ => log_is (changes (store d))) ->
    triple (log_is (changes (store d))) (new_id m) (fun id => log_grown (changes (store d)) op (match id with Some i => Some i | None => op_target op end) ip)
      (fun _ => log_is (changes (store d)))) as Hnew.
  { intros m Hm. eapply triple_bind; [exact Hm|]. intros i s Hs. exact Hs. }
  assert (forall (m : DB unit), triple (log_is (changes (store d))) m (fun _ => log_grown (changes (store d)) op (op_target op) ip) (fun _ => log_is (changes (store d))) ->
    triple (log_is (changes (store d))) (no_id m) (fun id => log_grown (changes (store d)) op (match id with Some i => Some i | None => op_target op end) ip)
      (fun _ => log_is (changes (store d)))) as Hno.
  { intros m Hm. eapply triple_bind; [exact Hm|]. intros ? s Hs. exact Hs. }
  destruct op as [row|id row|id|row|id row|id|row pr|id row pr|id pr|row|id row|id|rs ws p reps us]; cbn [run_op];
    first [apply Hnew | apply Hno]; clear Hnew Hno;
    unfold create_rule, update_rule, delete_rule, create_rewrite_rule, update_rewrite_rule, delete_rewrite_rule, create_backend_with_protocol,
      update_backend_with_protocol, delete_backend_with_protocol, create_user, update_user, delete_user, replace_all, get_rule, get_rewrite_rule;
    repeat (eapply triple_bind; [apply silent; solve [try apply update_user_silent; le_tac; done]|intros ?]).
  all: match goal with
       | |- triple _ _ (fun i => log_grown _ ?op (Some i) _) _ => apply (created_entry _ op)
       | |- triple _ _ (fun _ => log_grown _ ?op _ _) _ => apply (log_entry _ op)
       end.
Qed.

(** ** Passwords stay where they are

    What is left of a row, an operation or a store without its passwords. *)
Definition public_backend (r : BackendRecord) : BackendRecord :=
  {| be_protocol := be_protocol r; be_row := backend_with_password [] (be_row r) |}.
Definition public_user (r : UserRow) : UserRow := user_with_password [] r.
Definition public_cfg (c : BackendConfig) : BackendConfig :=
  {| addr := addr c; cfg_user := cfg_user c; cfg_password := []; cfg_database := cfg_database c;
     cfg_tls_mode := cfg_tls_mode c; cfg_tls_ca := cfg_tls_ca c; cfg_tls_cert := cfg_tls_cert c; cfg_tls_key := cfg_tls_key c;
     cfg_weight := cfg_weight c; cfg_backup := cfg_backup c; init_connect := init_connect c; cfg_compression := cfg_compression c;
     cfg_resolution_family := cfg_resolution_family c; cfg_ssl_keylog_file := cfg_ssl_keylog_file c; max_connections := max_connections c |}.
Definition public_user_cfg (u : UserConfig) : UserConfig :=
  {| name := name u; uc_password := []; uc_allow_writes := uc_allow_writes u; uc_max_connections := uc_max_connections u;
     default_schema := default_schema u; transaction_isolation := transaction_isolation u |}.
Definition public_op (op : StoreOp) : StoreOp :=
  match op with
  | CreateBackend row p => CreateBackend (backend_with_password [] row) p
  | UpdateBackend id row p => UpdateBackend id (backend_with_password [] row) p
  | CreateUser row => CreateUser (public_user row)
  | UpdateUser id row => UpdateUser id (public_user row)
  | Import rs ws p reps us => Import rs ws (public_cfg p) (map public_cfg reps) (map public_user_cfg us)
  | _ => op
  end.
Definition low_eq (s s' : Store) : Prop :=
  rules s = rules s' /\ rewrite_rules s = rewrite_rules s' /\ changes s = changes s' /\
  seq (backends s) = seq (backends s') /\ map public_backend (rows (backends s)) = map public_backend (rows (backends s')) /\
  seq (users s) = seq (users s') /\ map public_user (rows (users s)) = map public_user (rows (users s')).

(** Two computations that nobody can tell apart who sees neither stored passwords nor what
    [RA] relates. *)
Definition low {A} (RA : A -> A -> Prop) (m m' : DB A) : Prop := forall d d',
  statements d = statements d' -> low_eq (store d) (store d') ->
  statements (snd (m d)) = statements (snd (m' d')) /\ low_eq (store (snd (m d))) (store (snd (m' d'))) /\
  match fst (m d), fst (m' d') with Ok a, Ok a' => RA a a' | Err e, Err e' => e = e' | _, _ => False end.

Lemma low_bind {A B} RA RB (m m' : DB A) (f f' : A -> DB B) :
  low RA m m' -> (forall a a', RA a a' -> low RB (f a) (f' a')) -> low RB (m ≫= f) (m' ≫= f').
Proof.
  intros Hm Hf d d' Hk Hs. destruct (Hm d d' Hk Hs) as (Hk1 & Hs1 & Hr). unfold mbind, se_bind.
  destruct (m d) as [[a|e] d1], (m' d') as [[a'|e'] d1']; cbn [fst snd] in *; try done. by apply Hf.
Qed.
Lemma low_ret {A} (RA : A -> A -> Prop) a a' : RA a a' -> low RA (mret a) (mret a').
Proof. intros H d d' Hk Hs. done. Qed.
Lemma low_sql {A} RA (f f' : nat -> Store -> result DbError (A * Store)) :
  (forall k s s', low_eq s s' -> match f k s, f' k s' with
     | Ok (a, t), Ok (a', t') => RA a a' /\ low_eq t t' | Err e, Err e' => e = e' | _, _ => False end) ->
  low RA (sql f) (sql f').
Proof.
  intros H d d' Hk Hs. unfold sql. rewrite <- Hk. destruct (sql_error _); [done|]. specialize (H (statements d) _ _ Hs).
  destruct (f _ _) as [[a t]|e], (f' _ _) as [[a' t']|e']; cbn [fst snd statements store]; naive_solver.
Qed.
Lemma low_stored pw pw' : low (fun _ _ => True) (stored_password pw) (stored_password pw').
Proof. intros d d' Hk Hs. done. Qed.
Lemma low_iter {A} (f f' : A -> DB unit) (P : A -> A -> Prop) l l' :
  (forall a a', P a a' -> low eq (f a) (f' a')) -> Forall2 P l l' -> low eq (se_iter f l) (se_iter f' l').
Proof. intros Hf H. induction H; [by apply low_ret|]. eapply low_bind; [by apply Hf | done]. Qed.


Lemma low_query {A} (f : Store -> A) : (forall s s', low_eq s s' -> f s = f s') -> low eq (query f) (query f).
Proof. intros H. apply low_sql. intros k s s' Hs. auto. Qed.
Lemma low_execute (f f' : Store -> Store) : (forall s s', low_eq s s' -> low_eq (f s) (f' s')) -> low eq (execute f) (execute f').
Proof. intros H. apply low_sql. intros k s s' Hs. auto. Qed.
Lemma low_insert {X} `{HI : !HasId X} get set (pub : X -> X) (r r' : nat -> X) :
  (forall k, pub (r k) = pub (r' k)) -> (forall i x x', pub x = pub x' -> pub (with_id i x) = pub (with_id i x')) ->
  (forall s s', low_eq s s' -> seq (get s) = seq (get s') /\ map pub (rows (get s)) = map pub (rows (get s'))) ->
  (forall s s' t t', low_eq s s' -> seq t = seq t' -> map pub (rows t) = map pub (rows t') -> low_eq (set t s) (set t' s')) ->
  low eq (insert_into get set r) (insert_into get set r').
Proof.
  intros Hr Hid Hget Hset. apply low_sql. intros k s s' Hs. destruct (Hget s s' Hs) as [Hq Hm]. unfold insert_row. rewrite <- Hq.
  destruct (_ <=? _); [done|]. split; [done|]. apply Hset; [done | done |]. cbn [rows]. rewrite !map_app, Hm. cbn [map]. do 2 f_equal. by apply Hid.
Qed.
Lemma low_log entity id action before after ip :
  low eq (log_change_inner entity id action before after ip) (log_change_inner entity id action before after ip).
Proof.
  unfold log_change_inner. eapply low_bind; [|intros ? ? _; by apply low_ret]. apply (low_insert _ _ (fun r => r)); [done | by intros ? ? ? -> | |].
  - intros s s' (_ & _ & -> & _). done.
  - intros s s' t t' (? & ? & ? & ?) Hq Hm. unfold low_eq. cbn. rewrite !map_id in Hm. destruct t, t'. cbn in *. by subst.
Qed.
Lemma low_into_rules r : low eq (insert_into rules set_rules r) (insert_into rules set_rules r).
Proof.
  apply (low_insert _ _ (fun r => r)); [done | by intros ? ? ? -> | by intros s s' (-> & _) |].
  intros s s' t t' (? & ? & ? & ?) Hq Hm. unfold low_eq. cbn. rewrite !map_id in Hm. destruct t, t'. cbn in *. by subst.
Qed.
Lemma low_into_rewrite_rules r : low eq (insert_into rewrite_rules set_rewrite_rules r) (insert_into rewrite_rules set_rewrite_rules r).
Proof.
  apply (low_insert _ _ (fun r => r)); [done | by intros ? ? ? -> | by intros s s' (_ & -> & _) |].
  intros s s' t t' (? & ? & ? & ?) Hq Hm. unfold low_eq. cbn. rewrite !map_id in Hm. destruct t, t'. cbn in *. by subst.
Qed.
Lemma low_insert_rules i l : low eq (insert_rules i l) (insert_rules i l).
Proof.
  revert i. induction l as [|r l IH]; intros i; cbn [insert_rules]; [by apply low_ret|].
  eapply low_bind; [apply low_into_rules | intros ? ? _; apply IH].
Qed.
Lemma low_insert_rewrite_rules i l : low eq (insert_rewrite_rules i l) (insert_rewrite_rules i l).
Proof.
  revert i. induction l as [|r l IH]; intros i; cbn [insert_rewrite_rules]; [by apply low_ret|].
  eapply low_bind; [apply low_into_rewrite_rules | intros ? ? _; apply IH].
Qed.

Lemma public_backend_id i r r' : public_backend r = public_backend r' -> public_backend (with_id i r) = public_backend (with_id i r').
Proof. intros H. change (with_id i (public_backend r) = with_id i (public_backend r')). by rewrite H. Qed.
Lemma public_user_id i r r' : public_user r = public_user r' -> public_user (with_id i r) = public_user (with_id i r').
Proof. intros H. change (with_id i (public_user r) = with_id i (public_user r')). by rewrite H. Qed.
Lemma low_into_backends r r' : public_backend r = public_backend r' ->
  low eq (insert_into backends set_backends (fun _ => r)) (insert_into backends set_backends (fun _ => r')).
Proof.
  intros Hr. apply (low_insert _ _ public_backend); [done | apply public_backend_id | by intros s s' (? & ? & ? & ? & ? & _) |].
  intros s s' t t' (? & ? & ? & ? & ? & ? & ?) Hq Hm. done.
Qed.

Section Public.
Context {X : Type} (pub : X -> X).
Lemma public_update (p : X -> bool) (f f' : X -> X) l l' : map pub l = map pub l' ->
  (forall r r', pub r = pub r' -> p r = p r') -> (forall r r', pub r = pub r' -> pub (f r) = pub (f' r')) ->
  map pub (map (fun r => if p r then f r else r) l) = map pub (map (fun r => if p r then f' r else r) l').
Proof.
  intros H Hp Hf. revert l' H. induction l as [|r l IH]; intros [|r' l'] H; try done. injection H as Hr H. cbn [map].
  rewrite (Hp r r' Hr). f_equal; [|by apply IH]. destruct (p r'); [by apply Hf | done].
Qed.
Lemma public_filter (p : X -> bool) l l' : map pub l = map pub l' -> (forall r r', pub r = pub r' -> p r = p r') ->
  map pub (List.filter p l) = map pub (List.filter p l').
Proof.
  intros H Hp. revert l' H. induction l as [|r l IH]; intros [|r' l'] H; try done. injection H as Hr H. cbn [List.filter].
  rewrite (Hp r r' Hr). destruct (p r'); cbn [map]; [f_equal; auto | auto].
Qed.
Lemma public_exists (p : X -> bool) l l' : map pub l = map pub l' -> (forall r r', pub r = pub r' -> p r = p r') ->
  existsb p l = existsb p l'.
Proof.
  intros H Hp. revert l' H. induction l as [|r l IH]; intros [|r' l'] H; try done. injection H as Hr H. cbn [existsb].
  rewrite (Hp r r' Hr). by rewrite (IH l').
Qed.
End Public.

Lemma same_backend r r' : public_backend r = public_backend r' -> be_id (be_row r) = be_id (be_row r') /\ be_protocol r = be_protocol r'.
Proof. unfold public_backend, backend_with_password. by intros [=]. Qed.
Lemma same_user r r' : public_user r = public_user r' -> us_id r = us_id r' /\ us_name r = us_name r'.
Proof. unfold public_user, user_with_password. by intros [=]. Qed.

Lemma low_users s s' t t' : low_eq s s' -> seq t = seq t' -> map public_user (rows t) = map public_user (rows t') ->
  low_eq (set_users t s) (set_users t' s').
Proof. by intros (? & ? & ? & ? & ? & ? & ?). Qed.
Lemma low_backends s s' t t' : low_eq s s' -> seq t = seq t' -> map public_backend (rows t) = map public_backend (rows t') ->
  low_eq (set_backends t s) (set_backends t' s').
Proof. by intros (? & ? & ? & ? & ? & ? & ?). Qed.
Lemma low_insert_user r r' : public_user r = public_user r' -> low eq (insert_user r) (insert_user r').
Proof.
  intros Hr. apply low_sql. intros k s s' Hs. pose proof Hs as (_ & _ & _ & _ & _ & Hq & Hm). destruct (same_user r r' Hr) as [_ Hn].
  rewrite Hn, (public_exists public_user _ _ _ Hm) by (intros x x' Hx; unfold named; by rewrite (proj2 (same_user x x' Hx))).
  destruct (existsb _ _); [done|]. unfold insert_row. rewrite <- Hq. destruct (_ <=? _); [done|]. split; [done|].
  apply low_users; [done | done |]. cbn [rows]. rewrite !map_app, Hm. cbn [map]. do 2 f_equal. by apply public_user_id.
Qed.

Lemma backend_row_eq row row' : backend_with_password [] row = backend_with_password [] row' ->
  exists pw, row' = backend_with_password pw row.
Proof. destruct row, row'. unfold backend_with_password. cbn. intros [=]. subst. eexists. reflexivity. Qed.
Lemma user_row_eq row row' : public_user row = public_user row' -> exists pw, row' = user_with_password pw row.
Proof. destruct row, row'. unfold public_user, user_with_password. cbn. intros [=]. subst. eexists. reflexivity. Qed.

Lemma low_insert_backend_inner c c' role protocol : public_cfg c = public_cfg c' ->
  low eq (insert_backend_inner c role protocol) (insert_backend_inner c' role protocol).
Proof.
  intros H. unfold insert_backend_inner. eapply low_bind; [apply low_stored|]. intros pw pw' _.
  eapply low_bind; [|intros ? ? _; by apply low_ret]. apply low_into_backends. unfold public_backend, backend_with_password.
  cbn. destruct c, c'. cbn in *. by injection H as -> -> -> -> -> -> -> -> -> -> -> -> -> ->.
Qed.

Create HintDb low discriminated.
#[local] Hint Resolve low_log low_into_rules low_into_rewrite_rules low_insert_rules low_insert_rewrite_rules : low.
(** The steps of two runs side by side; what is read from a table that is public is equal. *)
Ltac low_tac :=
  repeat first
    [ solve [auto with low]
    | by apply low_ret
    | eapply low_bind; [solve [auto with low | apply low_stored]|intros ? ? ?; subst]
    | eapply low_bind; [by apply low_query; intros ? ? (? & ? & ? & ?); congruence|intros ? ? ?; subst]
    | eapply low_bind; [by apply low_execute; intros ? ? (? & ? & ? & ? & ? & ? & ?); unfold low_eq; cbn; split_and!; congruence|intros ? ? ?; subst] ].

Lemma low_has_id_backend id protocol r r' : public_backend r = public_backend r' ->
  has_id id r && of_protocol protocol r = has_id id r' && of_protocol protocol r'.
Proof. intros [H1 H2]%same_backend. unfold has_id, of_protocol. cbn. by rewrite H1, H2. Qed.
Lemma low_has_id_user id r r' : public_user r = public_user r' -> has_id id r = has_id id r'.
Proof. intros [H1 H2]%same_user. unfold has_id. cbn. by rewrite H1. Qed.

Lemma low_update_user id n pw pw' row : low eq
  (sql (fun _ s => if existsb (has_id id) (rows (users s)) && existsb (fun r => named n r && negb (has_id id r)) (rows (users s))
    then Err UniqueViolation else Ok (tt, set_users (update_rows (has_id id) (fun _ => with_id id (user_with_password pw row)) (users s)) s)))
  (sql (fun _ s => if existsb (has_id id) (rows (users s)) && existsb (fun r => named n r && negb (has_id id r)) (rows (users s))
    then Err UniqueViolation else Ok (tt, set_users (update_rows (has_id id) (fun _ => with_id id (user_with_password pw' row)) (users s)) s))).
Proof.
  apply low_sql. intros k s s' Hs. pose proof Hs as (_ & _ & _ & _ & _ & Hq & Hm).
  rewrite !(public_exists public_user _ _ _ Hm);
    [|intros r r' Hr; unfold named; by rewrite (proj2 (same_user _ _ Hr)), (low_has_id_user _ _ _ Hr) | apply low_has_id_user].
  destruct (_ && _); [done|]. split; [done|]. apply low_users; [done | done |]. unfold update_rows. cbn [rows].
  apply public_update; [done | apply low_has_id_user | done].
Qed.

Lemma low_delete_backends p : (forall r r', public_backend r = public_backend r' -> p r = p r') ->
  low eq (execute (fun s => set_backends (delete_rows p (backends s)) s)) (execute (fun s => set_backends (delete_rows p (backends s)) s)).
Proof.
  intros Hp. apply low_execute. intros s s' Hs. pose proof Hs as (_ & _ & _ & ? & ? & _). apply low_backends; [done | done |].
  unfold delete_rows. cbn [rows]. apply public_filter; [done|]. intros r r' Hr. by rewrite (Hp _ _ Hr).
Qed.
Lemma low_delete_users p : (forall r r', public_user r = public_user r' -> p r = p r') ->
  low eq (execute (fun s => set_users (delete_rows p (users s)) s)) (execute (fun s => set_users (delete_rows p (users s)) s)).
Proof.
  intros Hp. apply low_execute. intros s s' Hs. pose proof Hs as (_ & _ & _ & _ & _ & ? & ?). apply low_users; [done | done |].
  unfold delete_rows. cbn [rows]. apply public_filter; [done|]. intros r r' Hr. by rewrite (Hp _ _ Hr).
Qed.
Lemma map_eq_Forall2 {A B} (f : A -> B) l l' : map f l = map f l' -> Forall2 (fun a b => f a = f b) l l'.
Proof. revert l'. induction l as [|a l IH]; intros [|b l'] H; try done. injection H as H1 H2. constructor; auto. Qed.

Lemma low_import rs ws p p' reps reps' us us' ip :
  public_cfg p = public_cfg p' -> map public_cfg reps = map public_cfg reps' -> map public_user_cfg us = map public_user_cfg us' ->
  low eq (replace_all rs ws p reps us ip) (replace_all rs ws p' reps' us' ip).
Proof.
  intros Hp Hreps Hus. unfold replace_all. low_tac.
  eapply low_bind; [apply low_delete_backends; intros r r' Hr; unfold of_protocol; by rewrite (proj2 (same_backend _ _ Hr)) | intros ? ? _].
  eapply low_bind; [by apply low_delete_users | intros ? ? _]. low_tac.
  eapply low_bind; [unfold insert_backends; eapply low_bind; [by apply low_insert_backend_inner|]; intros ? ? _; eapply low_iter; [|by apply (map_eq_Forall2 public_cfg)];
    intros; by apply low_insert_backend_inner | intros ? ? _].
  eapply low_bind; [eapply low_iter; [|by apply (map_eq_Forall2 public_user_cfg)] | intros ? ? _].
  - intros u u' Hu. cbn beta in Hu. eapply low_bind; [|intros ? ? _; by apply low_ret]. apply low_insert_user.
    destruct u, u'. unfold public_user_cfg in Hu. cbn in Hu. injection Hu as -> -> -> -> ->. done.
  - rewrite <- (length_map public_cfg reps), Hreps, length_map, <- (length_map public_user_cfg us), Hus, length_map. low_tac.
Qed.

(** Nobody who sees results and the log can tell passwords apart. *)
Lemma low_op op op' ip : public_op op = public_op op' -> low eq (run_op op ip) (run_op op' ip).
Proof.
  intros H.
  assert (forall (m m' : DB Z), low eq m m' -> low eq (new_id m) (new_id m')) as Hnew.
  { intros m m' Hm. eapply low_bind; [exact Hm|]. intros ? ? ->. by apply low_ret. }
  assert (forall (m m' : DB unit), low eq m m' -> low eq (no_id m) (no_id m')) as Hno.
  { intros m m' Hm. eapply low_bind; [exact Hm|]. intros ? ? _. by apply low_ret. }
  destruct op as [row|id row|id|row|id row|id|row pr|id row pr|id pr|row|id row|id|rs ws p reps us],
    op' as [row'|id' row'|id'|row'|id' row'|id'|row' pr'|id' row' pr'|id' pr'|row'|id' row'|id'|rs' ws' p' reps' us'];
    try discriminate; cbn [public_op] in H; cbn [run_op]; first [apply Hnew | apply Hno]; clear Hnew Hno.
  1-6: injection H as H; subst; unfold create_rule, update_rule, delete_rule, create_rewrite_rule, update_rewrite_rule, delete_rewrite_rule,
    get_rule, get_rewrite_rule; low_tac.
  - assert (backend_with_password [] row = backend_with_password [] row' /\ pr = pr') as [[pw ->]%backend_row_eq <-] by (split; congruence).
    unfold create_backend_with_protocol. low_tac. eapply low_bind; [by apply low_into_backends | intros ? ? ->]. low_tac.
  - assert (backend_with_password [] row = backend_with_password [] row' /\ pr = pr' /\ id = id') as [[pw ->]%backend_row_eq [<- <-]] by (split_and!; congruence).
    unfold update_backend_with_protocol. low_tac. eapply low_bind; [|intros ? ? _; cbn; low_tac].
    apply low_execute. intros s s' Hs. pose proof Hs as (_ & _ & _ & ? & ? & _). apply low_backends; [done | done |]. unfold update_rows. cbn [rows].
    apply public_update; [done | apply low_has_id_backend |]. intros r r' Hr. unfold public_backend. cbn. by rewrite (proj2 (same_backend _ _ Hr)).
  - injection H as <- <-. unfold delete_backend_with_protocol. eapply low_bind; [apply low_delete_backends, low_has_id_backend | intros ? ? _; low_tac].
  - assert (public_user row = public_user row') as [pw ->]%user_row_eq by congruence.
    unfold create_user. low_tac. eapply low_bind; [by apply low_insert_user | intros ? ? ->]. low_tac.
  - assert (public_user row = public_user row' /\ id = id') as [[pw ->]%user_row_eq <-] by (split; congruence).
    unfold update_user. low_tac. eapply low_bind; [apply (low_update_user id (us_name row) _ _ row) | intros ? ? _]. low_tac.
  - injection H as <-. unfold delete_user. eapply low_bind; [apply low_delete_users, low_has_id_user | intros ? ? _; low_tac].
  - assert (rs = rs' /\ ws = ws' /\ public_cfg p = public_cfg p' /\ map public_cfg reps = map public_cfg reps' /\
      map public_user_cfg us = map public_user_cfg us') as (<- & <- & Hp & Hreps & Hus) by (split_and!; congruence).
    by apply low_import.
Qed.

Fixpoint run_ops (ops : list (StoreOp * bytes)) (d : Db) : list (result DbError (option Z)) * Db :=
  match ops with
  | [] => ([], d)
  | (op, ip) :: ops' => let (r, d1) := run_op op ip d in let (rs, d2) := run_ops ops' d1 in (r :: rs, d2)
  end.

(** C23: Passwords never show: two histories that differ in the passwords alone, of backends and
    users, give the same results, the same log of changes, and tables that differ in their
    password columns alone. *)
Theorem passwords_do_not_leak ops ops' d d' :
  Forall2 (fun a b => public_op (fst a) = public_op (fst b) /\ snd a = snd b) ops ops' ->
  statements d = statements d' -> low_eq (store d) (store d') ->
  fst (run_ops ops d) = fst (run_ops ops' d') /\ low_eq (store (snd (run_ops ops d))) (store (snd (run_ops ops' d'))).
Proof.
  intros H. revert d d'. induction H as [|[op ip] [op' ip'] ops ops' [Hop Hip] _ IH]; intros d d' Hk Hs; [done|].
  cbn [fst snd] in Hop, Hip. subst ip'. cbn [run_ops]. destruct (low_op op op' ip Hop d d' Hk Hs) as (Hk1 & Hs1 & Hr).
  destruct (run_op op ip d) as [r d1], (run_op op' ip d') as [r' d1']. cbn [fst snd] in *. destruct (IH d1 d1' Hk1 Hs1) as [H1 H2].
  destruct (run_ops ops d1) as [rs d2], (run_ops ops' d1') as [rs' d2']. cbn [fst snd] in *. split; [|done]. f_equal; [|done].
  destruct r, r'; try done; by f_equal.
Qed.

(** *** At rest *)

Definition sealed (p : bytes) : Prop := is_reference p = true \/ p = [].
Definition store_sealed (s : Store) : Prop :=
  Forall (fun r => sealed (be_password (be_row r))) (rows (backends s)) /\ Forall (fun r => sealed (us_password r)) (rows (users s)).
Definition keeps_sealed (s s' : Store) : Prop := store_sealed s -> store_sealed s'.
#[local] Instance keeps_sealed_refl : Reflexive keeps_sealed. Proof. intros s H. exact H. Qed.
#[local] Instance keeps_sealed_trans : Transitive keeps_sealed. Proof. intros a b c H1 H2 H. apply H2, H1, H. Qed.

Lemma prepared_sealed nonce v key : sealed (Secret.prepare_for_storage nonce v (Some key)).
Proof.
  unfold Secret.prepare_for_storage, sealed. fold (is_reference v). destruct (is_reference v) eqn:Hr; [by left|].
  destruct (beq v []) eqn:Hb; [by right; apply bool_decide_eq_true in Hb|]. left. unfold is_reference, Secret.encrypt.
  by rewrite starts_with_app, !orb_true_r.
Qed.
Lemma sealed_bind {B} key pw (f : bytes -> DB B) : Secret.load_encryption_key = Some key ->
  (forall p, sealed p -> respects keeps_sealed (f p)) -> respects keeps_sealed (p ← stored_password pw; f p).
Proof. intros Hk Hf d. unfold stored_password, mbind, se_bind. cbn [se_get mret se_ret]. rewrite Hk. apply Hf, prepared_sealed. Qed.

Lemma Forall_update {X} (P : X -> Prop) (p : X -> bool) f l : Forall P l -> (forall r, P (f r)) ->
  Forall P (map (fun r => if p r then f r else r) l).
Proof. intros H Hf. induction H; cbn [map]; constructor; [|done]. by destruct (p x). Qed.
Lemma Forall_delete {X} (P : X -> Prop) (p : X -> bool) l : Forall P l -> Forall P (List.filter p l).
Proof. intros H. induction H; cbn [List.filter]; [done|]. destruct (p x); [by constructor | done]. Qed.
Lemma Forall_inserted {X} `{HI : !HasId X} (P : X -> Prop) gap r t id t' : insert_row gap r t = Some (id, t') ->
  Forall P (rows t) -> P (with_id id r) -> Forall P (rows t').
Proof. unfold insert_row. destruct (_ <=? _); [done|]. intros [= <- <-] H1 H2. cbn [rows]. apply Forall_app. split; [done|]. by repeat constructor. Qed.

Lemma insert_user_sealed r : sealed (us_password r) -> respects keeps_sealed (insert_user r).
Proof.
  intros Hr. apply respects_sql; [apply _|]. intros k s a s'. destruct (existsb _ _); [done|]. destruct (insert_row _ _ _) as [[id t]|] eqn:Ei; [|done].
  intros [= _ <-] [H1 H2]. split; [done|]. by eapply Forall_inserted.
Qed.
Lemma insert_user_or_ignore_sealed r : sealed (us_password r) -> respects keeps_sealed (insert_user_or_ignore r).
Proof.
  intros Hr. apply respects_sql; [apply _|]. intros k s a s'. destruct (existsb _ _); [intros [= _ <-]; exact (fun H => H)|]. destruct (insert_row _ _ _) as [[id t]|] eqn:Ei; [|done].
  intros [= _ <-] [H1 H2]. split; [done|]. by eapply Forall_inserted.
Qed.
Lemma insert_rules_sealed i l : respects keeps_sealed (insert_rules i l).
Proof. revert i. induction l as [|r l IH]; intros i; cbn [insert_rules]; le_tac; exact (fun H => H). Qed.
Lemma insert_rewrite_rules_sealed i l : respects keeps_sealed (insert_rewrite_rules i l).
Proof. revert i. induction l as [|r l IH]; intros i; cbn [insert_rewrite_rules]; le_tac; exact (fun H => H). Qed.
Lemma log_sealed entity id action before after ip : respects keeps_sealed (log_change_inner entity id action before after ip).
Proof. unfold log_change_inner. le_tac; exact (fun H => H). Qed.
#[local] Hint Resolve insert_rules_sealed insert_rewrite_rules_sealed log_sealed : respects.
Lemma insert_backend_inner_sealed key cfg role protocol : Secret.load_encryption_key = Some key ->
  respects keeps_sealed (insert_backend_inner cfg role protocol).
Proof.
  intros Hk. unfold insert_backend_inner. apply (sealed_bind key); [done|]. intros p Hp. le_tac. intros [H1 H2]. split; [|done].
  by eapply Forall_inserted.
Qed.
Definition is_import (op : StoreOp) : bool := match op with Import _ _ _ _ _ => true | _ => false end.

Lemma run_op_sealed key op ip : Secret.load_encryption_key = Some key -> is_import op = false -> respects keeps_sealed (run_op op ip).
Proof.
  intros Hk Hi. destruct op as [row|id row|id|row|id row|id|row pr|id row pr|id pr|row|id row|id|]; [..|done]; cbn [run_op]; unfold new_id, no_id.
  1-6: unfold create_rule, update_rule, delete_rule, create_rewrite_rule, update_rewrite_rule, delete_rewrite_rule, get_rule, get_rewrite_rule;
    le_tac; exact (fun H => H).
  all: apply respects_bind; [apply _ | | intros ?; apply respects_ret, _].
  - apply (sealed_bind key); [done|]. intros p Hp. le_tac. intros [H1 H2]. split; [|done]. by eapply Forall_inserted.
  - apply (sealed_bind key); [done|]. intros p Hp. le_tac. intros [H1 H2]. split; [|done]. by apply Forall_update.
  - unfold delete_backend_with_protocol. le_tac. intros [H1 H2]. split; [|done]. by apply Forall_delete.
  - apply (sealed_bind key); [done|]. intros p Hp. le_tac. by apply insert_user_sealed.
  - apply (sealed_bind key); [done|]. intros p Hp. le_tac. apply respects_sql; [apply _|]. intros k s a s'.
    destruct (_ && _); [done|]. intros [= _ <-] [H1 H2]. split; [done|]. by apply Forall_update.
  - unfold delete_user. le_tac. intros [H1 H2]. split; [done|]. by apply Forall_delete.
Qed.
Lemma seed_sealed key rs ws p reps us : Secret.load_encryption_key = Some key ->
  respects keeps_sealed (seed_if_empty rs ws p reps us).
Proof.
  intros Hk. pose proof (insert_backend_inner_sealed key) as Hb.
  assert (forall u, respects keeps_sealed (pw ← stored_password (uc_password u); insert_user_or_ignore (user_row u pw))) as Hu.
  { intros u. apply (sealed_bind key); [done|]. intros pw Hpw. by apply insert_user_or_ignore_sealed. }
  unfold seed_if_empty, insert_backends. le_tac; match goal with |- respects _ (if ?b then _ else _) => destruct b end; le_tac.
Qed.

(** With an encryption key, nothing but an import puts a password into the database that is
    neither empty nor a reference nor encrypted. *)
Theorem stored_passwords_sealed key d : Secret.load_encryption_key = Some key ->
  steps (fun d d' => (exists op ip, is_import op = false /\ d' = snd (run_op op ip d)) \/
                     (exists rs ws p reps us, d' = snd (seed_if_empty rs ws p reps us d))) db_new d ->
  store_sealed (store d).
Proof.
  intros Hk H. refine (steps_invariant _ (fun d => store_sealed (store d)) _ _ _ H _); [|by split; constructor].
  intros d1 d2 H1 [(op & ip & Hi & ->)|(rs & ws & p & reps & us & ->)].
  - by apply (run_op_sealed key op ip Hk Hi d1).
  - by apply (seed_sealed key rs ws p reps us Hk d1).
Qed.

(** ** Seeding *)

(** What the store has no column for. *)
Definition stored_view (r : QueryRuleConfig) : QueryRuleConfig :=
  {| match_pattern := match_pattern r; match_digest := match_digest r; qr_user := qr_user r; qr_schema := qr_schema r;
     qr_destination := qr_destination r; qr_cache_ttl_secs := qr_cache_ttl_secs r; qr_comment := qr_comment r;
     qr_mirror_to := qr_mirror_to r; destination_hostgroup := destination_hostgroup r; qr_rollout_pct := qr_rollout_pct r;
     qr_qps_limit := None; qr_dry_run := false; qr_fast_forward := false |}.
Definition rule_fits (r : QueryRuleConfig) : Prop :=
  in_width 64 (qr_cache_ttl_secs r) /\ (forall v, destination_hostgroup r = Some v -> in_width 32 v) /\
  (forall v, qr_rollout_pct r = Some v -> in_width 8 v).

Lemma u64_i64 z : in_width 64 z -> u64 (i64 z) = z.
Proof. unfold in_width, u64, wrap, i64. intros H. Z.to_euclidean_division_equations. lia. Qed.
Lemma fits_fmap w o : (forall v, o = Some v -> in_width w v) -> wrap w <$> o = o.
Proof. intros H. destruct o as [v|]; [|done]. cbn. f_equal. apply wrap_small. by apply H. Qed.
Lemma rule_config_row i id r : rule_fits r -> rule_config (with_id id (rule_row i r)) = stored_view r.
Proof.
  intros (H1 & H2 & H3). unfold rule_config, stored_view, rule_row. cbn. rewrite u64_i64 by done.
  change u32 with (wrap 32). change u8 with (wrap 8). rewrite (fits_fmap 32 _ H2), (fits_fmap 8 _ H3). by destruct (qr_destination r).
Qed.

Section Sorted.
Context {A : Type} (le : A -> A -> bool).
Lemma insert_by_least x l : Forall (fun y => le x y = true) l -> insert_by le x l = x :: l.
Proof. intros H. destruct H as [|y l Hy _]; [done|]. cbn. by rewrite Hy. Qed.
Lemma sort_by_sorted l : StronglySorted (fun a b => le a b = true) l -> sort_by le l = l.
Proof. induction 1 as [|x l _ IH Hx]; [done|]. cbn. fold (sort_by le l). rewrite IH. by apply insert_by_least. Qed.
End Sorted.

(** The rows that seeding appends: with growing ids, the priorities counting from [i]. *)
Lemma insert_rules_rows i l d d' : insert_rules i l d = (Ok tt, d') ->
  exists new, rows (rules (store d')) = rows (rules (store d)) ++ new /\
    Forall2 (fun r c => exists k id, (i <= k)%nat /\ r = with_id id (rule_row k c)) new l /\
    StronglySorted (fun a b => ru_priority a < ru_priority b) new.
Proof.
  revert i d. induction l as [|c l IH]; intros i d; cbn [insert_rules].
  - intros [= <-]. exists []. rewrite app_nil_r. by repeat constructor.
  - intros H. apply se_bind_inv in H as [(id & d1 & H1 & H2)|(e & _ & He)]; [|done].
    apply IH in H2 as (new & E & Hf & Hs). unfold insert_into, sql, insert_row in H1.
    destruct (sql_error _); [done|]. destruct (_ <=? _); [done|]. injection H1 as <- <-. cbn [store rules set_rules rows] in E.
    rewrite <- app_assoc in E. eexists. split; [exact E|]. split.
    + cbn [app]. constructor; [by eexists i, _|]. eapply list.Forall2_impl; [exact Hf|]. intros r c' (k & id' & Hk & ->). exists k, id'. split; [lia | done].
    + cbn [app]. constructor; [done|]. apply list.Forall_forall. intros r Hr. apply list_elem_of_lookup in Hr as [j Hr].
      destruct (Forall2_lookup_l _ _ _ _ _ Hf Hr) as (c' & _ & k & id' & Hk & ->). cbn. lia.
Qed.

Definition same_rules (s s' : Store) : Prop := rules s' = rules s.
#[local] Instance same_rules_refl : Reflexive same_rules. Proof. done. Qed.
#[local] Instance same_rules_trans : Transitive same_rules. Proof. unfold same_rules. congruence. Qed.
Lemma insert_rewrite_rules_elsewhere i l : respects same_rules (insert_rewrite_rules i l).
Proof. revert i. induction l as [|r l IH]; intros i; cbn [insert_rewrite_rules]; le_tac; done. Qed.
Lemma insert_backend_inner_elsewhere cfg role protocol : respects same_rules (insert_backend_inner cfg role protocol).
Proof. unfold insert_backend_inner. le_tac; done. Qed.
Lemma insert_user_or_ignore_elsewhere r : respects same_rules (insert_user_or_ignore r).
Proof.
  apply respects_sql; [done|]. intros k s a s'. destruct (existsb _ _); [by intros [= _ <-]|].
  destruct (insert_row _ _ _) as [[id t]|]; [by intros [= _ <-] | done].
Qed.
#[local] Hint Resolve insert_rewrite_rules_elsewhere insert_backend_inner_elsewhere insert_user_or_ignore_elsewhere : respects.

Lemma seeded_rules rs ws p reps us d d' : seed_if_empty rs ws p reps us d = (Ok tt, d') ->
  exists d1, rules (store d') = rules (store d1) /\
    (rows (rules (store d)) = [] -> exists d0, store d0 = store d /\ insert_rules 0 rs d0 = (Ok tt, d1)) /\
    (rows (rules (store d)) <> [] -> rules (store d1) = rules (store d)).
Proof.
  unfold seed_if_empty. intros H. apply se_bind_inv in H as [(n & d0 & Hq & H)|(e & _ & He)]; [|done].
  unfold query, sql in Hq. destruct (sql_error _); [done|]. injection Hq as <- <-.
  apply se_bind_inv in H as [([] & d1 & Hi & H)|(e & _ & He)]; [|done]. exists d1. split.
  - match type of H with ?m d1 = _ => assert (respects same_rules m) as Hm end; [|specialize (Hm d1); by rewrite H in Hm].
    unfold insert_backends. le_tac; match goal with |- respects _ (if ?b then _ else _) => destruct b end; le_tac.
  - unfold count_rows in Hi. destruct (rows (rules (store d))) as [|r l] eqn:E; cbn [length] in Hi.
    + split; [|done]. intros _. eexists. split; [|exact Hi]. done.
    + split; [done|]. intros _. change (Z.of_nat (S (length l)) =? 0) with false in Hi. by injection Hi as <-.
Qed.

Lemma active_rules_of new rs : Forall2 (fun r c => exists k id, (0 <= k)%nat /\ r = with_id id (rule_row k c)) new rs ->
  StronglySorted (fun a b => ru_priority a < ru_priority b) new -> Forall rule_fits rs ->
  map rule_config (List.filter ru_enabled (sort_by (by_number ru_priority) new)) = map stored_view rs.
Proof.
  intros Hf Hs Hfit. rewrite sort_by_sorted.
  - induction Hf as [|r c new rs (k & id & _ & ->) _ IH]; [done|]. apply StronglySorted_cons in Hs as [_ Hs]. inversion_clear Hfit as [|? ? H1 H2].
    cbn [List.filter]. change (ru_enabled (with_id id (rule_row k c))) with true. cbn [map]. by rewrite rule_config_row, IH.
  - clear -Hs. induction Hs as [|a l _ IH Ha]; constructor; [done|]. rewrite list.Forall_forall in Ha |- *. intros b Hb.
    unfold by_number. by rewrite (proj2 (Z.ltb_lt _ _) (Ha b Hb)).
Qed.

Lemma seeded_rows rs d0 d1 : insert_rules 0 rs d0 = (Ok tt, d1) -> rows (rules (store d0)) = [] -> Forall rule_fits rs ->
  map rule_config (List.filter ru_enabled (sort_by (by_number ru_priority) (rows (rules (store d1))))) = map stored_view rs.
Proof.
  intros Hi He Hfit. apply insert_rules_rows in Hi as (new & En & Hf & Hs). rewrite He in En. cbn [app] in En.
  rewrite En. by apply (active_rules_of new rs).
Qed.

(** C38: The rules of the configuration file come back from the store in their order, but for the
    settings that it has no columns for; and a store that has rules keeps them when it is
    seeded again. *)
Theorem seeded_rules_come_back rs ws p reps us d d' :
  seed_if_empty rs ws p reps us d = (Ok tt, d') -> sql_error (statements d') = None -> Forall rule_fits rs ->
  (rows (rules (store d)) = [] -> fst (active_query_rules d') = Ok (map stored_view rs)) /\
  (rows (rules (store d)) <> [] -> rules (store d') = rules (store d)).
Proof.
  intros H Hsql Hfit. apply seeded_rules in H as (d1 & E & H1 & H2). split; [|intros Hne; by rewrite E; auto].
  intros He. destruct (H1 He) as (d0 & E0 & Hi). rewrite <- E0 in He. pose proof (seeded_rows _ _ _ Hi He Hfit) as Hr.
  unfold active_query_rules, list_rules, query, sql, mbind, se_bind. rewrite Hsql, E. cbn [fst mret se_ret]. by rewrite Hr.
Qed.

(** ** Rows are found again *)
Section Find.
Context {X : Type} `{HI : !HasId X} `{!HasIdLaws X HI}.
Definition row_at (t : Table X) (j : Z) : option X := List.find (has_id j) (rows t).

Lemma has_id_with_id i j r : has_id j (with_id i r) = (j =? i).
Proof. unfold has_id. rewrite row_id_with_id. apply Z.eqb_sym. Qed.
Lemma has_id_both i j r : has_id i r = true -> has_id j r = (j =? i).
Proof. unfold has_id. intros H%Z.eqb_eq. rewrite H. apply Z.eqb_sym. Qed.

Lemma row_at_insert gap r t id t' : table_wf t -> insert_row gap r t = Some (id, t') ->
  forall j, row_at t' j = if j =? id then Some (with_id id r) else row_at t j.
Proof.
  intros [_ Hle] H j. pose proof (insert_row_ids _ _ _ _ _ H) as (_ & _ & Hlt). unfold insert_row in H. destruct (_ <=? _); [done|].
  injection H as Eid <-. unfold row_at. cbn [rows]. rewrite Eid. clear Eid. unfold ids in Hle.
  induction (rows t) as [|x l IH]; cbn [app List.find].
  - by rewrite has_id_with_id.
  - inversion_clear Hle as [|? ? Hx Hl]. rewrite IH by done. destruct (has_id j x) eqn:Ej; [|done].
    apply Z.eqb_eq in Ej. by rewrite (proj2 (Z.eqb_neq _ _)) by lia.
Qed.
Lemma row_at_update id r t j :
  row_at (update_rows (has_id id) (fun _ => with_id id r) t) j =
  if j =? id then (fun _ => with_id id r) <$> row_at t j else row_at t j.
Proof.
  unfold row_at, update_rows. cbn [rows]. induction (rows t) as [|x l IH]; cbn [map List.find]; [by destruct (j =? id)|].
  destruct (has_id id x) eqn:Ei.
  - rewrite has_id_with_id, (has_id_both _ j _ Ei). destruct (j =? id) eqn:Ej; [done | exact IH].
  - destruct (has_id j x) eqn:Ej; [|exact IH]. destruct (j =? id) eqn:E; [|done]. apply Z.eqb_eq in E as ->. congruence.
Qed.
Lemma row_at_delete id t j : row_at (delete_rows (has_id id) t) j = if j =? id then None else row_at t j.
Proof.
  unfold row_at, delete_rows. cbn [rows]. induction (rows t) as [|x l IH]; cbn [List.filter List.find]; [by destruct (j =? id)|].
  destruct (has_id id x) eqn:Ei; cbn [negb List.find]; rewrite IH.
  - rewrite (has_id_both _ j _ Ei). by destruct (j =? id).
  - destruct (has_id j x) eqn:Ej; [|done]. destruct (j =? id) eqn:E; [|done]. apply Z.eqb_eq in E as ->. congruence.
Qed.
End Find.

Lemma log_keeps_rules entity id action before after ip : respects same_rules (log_change_inner entity id action before after ip).
Proof. unfold log_change_inner. le_tac; done. Qed.
Lemma logged_rules entity id action before after ip d u d' :
  log_change_inner entity id action before after ip d = (Ok u, d') -> rules (store d') = rules (store d).
Proof. intros H. pose proof (log_keeps_rules entity id action before after ip d) as Hk. by rewrite H in Hk. Qed.
Lemma get_rule_inv id d b d' : get_rule id d = (Ok b, d') -> store d' = store d.
Proof. unfold get_rule, query, sql. destruct (sql_error _); [done|]. by intros [= _ <-]. Qed.
Lemma execute_inv f d u d' : execute f d = (Ok u, d') -> store d' = f (store d).
Proof. unfold execute, sql. destruct (sql_error _); [done|]. by intros [= _ <-]. Qed.

(** Creating, changing and deleting a rule do just that to the rule of that id, and nothing
    to the others; changing a rule that is not there changes nothing, although it is logged
    as a change ([changes_logged]). *)
Theorem rules_by_id ip d : table_wf (rules (store d)) ->
  (forall row id d', create_rule row ip d = (Ok id, d') ->
     row_at (rules (store d)) id = None /\
     forall j, row_at (rules (store d')) j = if j =? id then Some (with_id id row) else row_at (rules (store d)) j) /\
  (forall id row d', update_rule id row ip d = (Ok tt, d') ->
     forall j, row_at (rules (store d')) j = if j =? id then (fun _ => with_id id row) <$> row_at (rules (store d)) j else row_at (rules (store d)) j) /\
  (forall id d', delete_rule id ip d = (Ok tt, d') ->
     forall j, row_at (rules (store d')) j = if j =? id then None else row_at (rules (store d)) j).
Proof.
  intros Hwf. split_and!.
  - intros row id d' H. unfold create_rule in H. apply se_bind_inv in H as [(i & d1 & H1 & H2)|(e & _ & He)]; [|done].
    unfold insert_into, sql in H1. destruct (sql_error _); [done|]. destruct (insert_row _ _ _) as [[i' t]|] eqn:Ei; [|done].
    injection H1 as -> <-. apply se_bind_inv in H2 as [([] & d2 & H2 & H3)|(e & _ & He)]; [|done]. injection H3 as -> <-.
    rewrite (logged_rules _ _ _ _ _ _ _ _ _ H2). cbn [store rules set_rules]. pose proof (row_at_insert _ _ _ _ _ Hwf Ei) as Hat.
    split; [|exact Hat]. apply insert_row_ids in Ei as (_ & _ & Hlt). destruct Hwf as [_ Hle]. unfold row_at, ids in *. clear -Hle Hlt.
    induction (rows (rules (store d))) as [|x l IH]; [done|]. inversion_clear Hle as [|? ? Hx Hl]. cbn [List.find].
    cbn beta in Hx. unfold has_id at 1. cbn [row_id rule_id] in *. rewrite (proj2 (Z.eqb_neq _ _)) by lia. by apply IH.
  - intros id row d' H. unfold update_rule in H. apply se_bind_inv in H as [(b & d1 & H1 & H)|(e & _ & He)]; [|done].
    apply se_bind_inv in H as [([] & d2 & H2 & H)|(e & _ & He)]; [|done].
    rewrite (logged_rules _ _ _ _ _ _ _ _ _ H), (execute_inv _ _ _ _ H2). cbn [rules set_rules]. rewrite (get_rule_inv _ _ _ _ H1).
    apply row_at_update.
  - intros id d' H. unfold delete_rule in H. apply se_bind_inv in H as [(b & d1 & H1 & H)|(e & _ & He)]; [|done].
    apply se_bind_inv in H as [([] & d2 & H2 & H)|(e & _ & He)]; [|done].
    rewrite (logged_rules _ _ _ _ _ _ _ _ _ H), (execute_inv _ _ _ _ H2). cbn [rules set_rules]. rewrite (get_rule_inv _ _ _ _ H1).
    apply row_at_delete.
Qed.
End OpProps.

(** ** Concrete runs *)

Definition quiet_db : Sqlite := {|
  sql_error _ := None; id_gap _ := 0%nat; current_timestamp _ := bs "2024-01-01 00:00:00"; fresh_nonce _ := repeat 7 12;
  json_text _ := bs "{}" |}.
(** The fourth statement fails. *)
Definition failing_db : Sqlite := {|
  sql_error k := if (k =? 3)%nat then Some (bs "disk I/O error") else None; id_gap k := k;
  current_timestamp _ := []; fresh_nonce _ := repeat 7 12; json_text _ := [] |}.

Definition demo_rule_config (pattern : string) (dest : RuleDestination) (dry : bool) : QueryRuleConfig :=
  {| match_pattern := Some (bs pattern); match_digest := None; qr_user := []; qr_schema := []; qr_destination := dest;
     qr_cache_ttl_secs := 60; qr_comment := []; qr_mirror_to := None; destination_hostgroup := Some 1; qr_rollout_pct := Some 10;
     qr_qps_limit := Some 5; qr_dry_run := dry; qr_fast_forward := false |}.
Definition demo_backend (a pw : string) : BackendConfig :=
  {| addr := bs a; cfg_user := bs "app"; cfg_password := bs pw; cfg_database := None; cfg_tls_mode := TlsRequired; cfg_tls_ca := None;
     cfg_tls_cert := None; cfg_tls_key := None; cfg_weight := 100; cfg_backup := false; init_connect := []; cfg_compression := NoCompression;
     cfg_resolution_family := bs "system"; cfg_ssl_keylog_file := []; max_connections := None |}.
Definition demo_login (n pw : string) : UserConfig :=
  {| name := bs n; uc_password := bs pw; uc_allow_writes := true; uc_max_connections := 0; default_schema := []; transaction_isolation := [] |}.
Definition demo_rule_row (pattern : string) (prio : Z) : RuleRow :=
  {| ru_id := 0; ru_priority := prio; ru_match_pattern := Some (bs pattern); ru_match_digest := None; ru_user := [];
     ru_schema_name := []; ru_destination := bs "replica"; ru_destination_hostgroup := None; ru_cache_ttl_secs := 0;
     ru_comment := []; ru_mirror_to := None; ru_rollout_pct := None; ru_enabled := true |}.
Definition demo_backend_row (pw : string) : BackendRow :=
  {| be_id := 0; be_addr := bs "r2:3306"; be_user := bs "app"; be_password := bs pw; be_database := None; be_role := bs "replica";
     be_weight := 50; be_backup := false; be_tls_mode := bs "off"; be_enabled := true |}.
Definition demo_user_row (n pw : string) : UserRow :=
  {| us_id := 0; us_name := bs n; us_password := bs pw; us_allow_writes := true; us_max_connections := 0; us_enabled := true |}.

Section StoreWitnesses.
#[local] Existing Instance plain_env.
#[local] Existing Instance toy_codec.
#[local] Existing Instance quiet_db.

Definition demo_rules : list QueryRuleConfig := [demo_rule_config "^SELECT" RReplica false; demo_rule_config "^INSERT" RPrimary true].
Definition seeded : Db :=
  snd (seed_if_empty demo_rules [] (demo_backend "p:3306" "pw") [demo_backend "r:3306" "pw2"] [demo_login "app" "secret"; demo_login "app" "twice"] db_new).

Lemma store_consistent_witness :
  rows (changes (store seeded)) `prefix_of` rows (changes (store (snd (run_op (DeleteRule 1) (bs "10.0.0.1") seeded)))).
Proof.
  apply (store_consistent seeded seeded); [apply steps_one, step_seed | apply steps_refl | apply steps_one].
  apply (step_op (DeleteRule 1) (bs "10.0.0.1")).
Defined.

Definition add_backend_op (pw : string) : StoreOp * bytes := (CreateBackend (demo_backend_row pw) (bs "mysql"), bs "10.0.0.1").
Definition add_user_op (pw : string) : StoreOp * bytes := (CreateUser (demo_user_row "bob" pw), bs "10.0.0.1").
Lemma passwords_do_not_leak_witness :
  fst (run_ops [add_backend_op "one"; add_user_op "two"] seeded) = fst (run_ops [add_backend_op "env:THREE"; add_user_op ""] seeded).
Proof.
  apply (passwords_do_not_leak [add_backend_op "one"; add_user_op "two"] [add_backend_op "env:THREE"; add_user_op ""] seeded seeded).
  - by repeat constructor.
  - reflexivity.
  - unfold low_eq. split_and!; reflexivity.
Defined.

Lemma stored_passwords_sealed_witness : store_sealed (store seeded).
Proof.
  destruct Secret.load_encryption_key as [key|] eqn:E; [|by vm_compute in E].
  apply (stored_passwords_sealed key seeded E). apply steps_one. right.
  exists demo_rules, [], (demo_backend "p:3306" "pw"), [demo_backend "r:3306" "pw2"], [demo_login "app" "secret"; demo_login "app" "twice"].
  reflexivity.
Defined.

Lemma seeded_rules_come_back_witness : fst (active_query_rules seeded) = Ok (map stored_view demo_rules).
Proof.
  apply (seeded_rules_come_back demo_rules [] (demo_backend "p:3306" "pw") [demo_backend "r:3306" "pw2"]
           [demo_login "app" "secret"; demo_login "app" "twice"] db_new seeded); [by vm_compute | done | | done].
  unfold rule_fits, in_width. repeat (apply List.Forall_cons || apply List.Forall_nil); cbn; split_and!; try lia; intros v [= <-]; lia.
Defined.

(** A rule that only logs what it would do, or limits the rate, is stored as one that is
    applied without a limit. *)
Example dry_run_is_forgotten :
  map (fun r => (qr_dry_run r, qr_qps_limit r)) demo_rules = [(false, Some 5); (true, Some 5)] /\
  match fst (active_query_rules seeded) with
  | Ok l => map (fun r => (qr_dry_run r, qr_qps_limit r)) l = [(false, None); (false, None)]
  | Err _ => False
  end.
Proof. by vm_compute. Qed.

Lemma rules_by_id_witness :
  match create_rule (demo_rule_row "^SHOW" 0) (bs "10.0.0.1") seeded with
  | (Ok id, d') => row_at (rules (store d')) id = Some (with_id id (demo_rule_row "^SHOW" 0))
  | (Err _, _) => False
  end.
Proof.
  assert (table_wf (rules (store seeded))) as Hwf 
    by (apply (store_le_wf store_new); [exact (seed_le _ _ _ _ _ db_new) | apply store_new_wf]).
  destruct (rules_by_id (bs "10.0.0.1") seeded Hwf) as [H _].
  destruct (create_rule (demo_rule_row "^SHOW" 0) (bs "10.0.0.1") seeded) as [[id|e] d'] eqn:E.
  - destruct (H _ _ _ E) as [_ H']. by rewrite H', Z.eqb_refl.
  - vm_compute in E. discriminate.
Defined.

(** ** What an import does

    The password of an imported user is stored as it is, the one of a backend encrypted. *)
Definition imported : result DbError unit * Db :=
  replace_all [] [] (demo_backend "new:3306" "pw") [] [demo_login "bob" "plain text"] (bs "10.0.0.1") seeded.
Example import_stores_plain_passwords :
  is_Some Secret.load_encryption_key /\
  map us_password (rows (users (store (snd imported)))) = [bs "plain text"] /\
  map (fun r => starts_with (be_password (be_row r)) Secret.ENC_PREFIX) (rows (backends (store (snd imported)))) = [true].
Proof. split_and!; [by eexists | by vm_compute | by vm_compute]. Qed.

(** An import with a name that appears twice is an error that leaves half of the old
    configuration deleted and half of the new one in place, without an entry in the log. *)
Definition half_imported : result DbError unit * Db :=
  replace_all [] [] (demo_backend "new:3306" "pw") [] [demo_login "bob" "1"; demo_login "bob" "2"; demo_login "eve" "3"] (bs "10.0.0.1") seeded.
Example import_is_not_atomic :
  fst half_imported = Err UniqueViolation /\
  let s := store (snd half_imported) in
  (length (rows (rules (store seeded))) = 2)%nat /\ rows (rules s) = [] /\ map us_name (rows (users s)) = [bs "bob"] /\
  changes s = changes (store seeded).
Proof. by vm_compute. Qed.

(** A change of a row that is not there succeeds and is logged. *)
Example missing_row_is_updated :
  let '(r, d') := update_rule 77 (demo_rule_row "^SHOW" 0) (bs "10.0.0.1") seeded in
  r = Ok tt /\ rules (store d') = rules (store seeded) /\ map ch_entity_id (rows (changes (store d'))) = [Some 77].
Proof. by vm_compute. Qed.
End StoreWitnesses.

(** A change whose entry in the log cannot be written is an error for the caller, but stays. *)
Example unlogged_change_stays :
  let d := snd (create_rule (SQ := failing_db) (demo_rule_row "^SHOW" 0) [] db_new) in
  let '(r, d') := create_rule (SQ := failing_db) (demo_rule_row "^SET" 0) [] d in
  r = Err (SqlFailed (bs "disk I/O error")) /\ (length (rows (rules (store d'))) = 2)%nat /\ (length (rows (changes (store d'))) = 1)%nat.
Proof. by vm_compute. Qed.
