(* ===== verification/DashboardAuth.v ===== *)
(** * Who may use the dashboard (src/src/dashboard/mod.rs, src/src/dashboard/routes.rs)

    The table of routes, the middleware that looks at the session token of a request, the
    handlers of log-in, log-out and renewal with their limit on failed attempts, and the task
    that sweeps what has expired.  What the other handlers do is in ConfigAdmin; here such a
    request is only let through or not.  The digest is the class [Auth.Hashes]; clocks and the
    random token of each request are arguments. *)

From S2P Require Import Prelude Bytes Config Auth.

(** ** The table of routes *)

Inductive Method := GET | HEAD | OPTIONS | POST | PUT | DELETE | OtherMethod.
#[export] Instance method_eq_dec : EqDecision Method. Proof. solve_decision. Defined.

Inductive Endpoint :=
| HealthPage | Login | ClusterSync | HandleMcp
| Logout | RefreshToken | Stats | Capabilities | Queries | SlowQueries | N1Patterns | PoolStats | UserStats | QueryRules
| ReloadRules | ReloadConfig | ReloadBackends | BackendStats | ClusterState | ClusterAction | RewriteRules | Transactions
| Analytics | Heatmap | Timeseries | Regressions | Metrics
| ListConfigRules | CreateConfigRule | UpdateConfigRule | DeleteConfigRule
| ListConfigRewriteRules | CreateConfigRewriteRule | UpdateConfigRewriteRule | DeleteConfigRewriteRule
| ListConfigBackends | CreateConfigBackend | UpdateConfigBackend | DeleteConfigBackend
| ListConfigUsers | CreateConfigUser | UpdateConfigUser | DeleteConfigUser
| ConfigHistory | ExportConfig | ImportConfig | ListErrors | ErrorStats | FlushStats | TlsCertInfo | ConfigStatus
| GrafanaHealth | GrafanaSearch | GrafanaQuery | GrafanaAnnotations | GrafanaTagKeys | GrafanaTagValues.

Definition Route : Type := string * list (Method * Endpoint).

Definition public : list Route :=
  [("/health", [(GET, HealthPage)]); ("/api/login", [(POST, Login)]); ("/api/sync", [(POST, ClusterSync)]);
   ("/mcp", [(POST, HandleMcp)])]%string.

Definition protected : list Route :=
  [("/api/logout", [(POST, Logout)]); ("/api/auth/refresh", [(POST, RefreshToken)]); ("/api/stats", [(GET, Stats)]);
   ("/api/capabilities", [(GET, Capabilities)]); ("/api/queries", [(GET, Queries)]);
   ("/api/slow-queries", [(GET, SlowQueries)]); ("/api/n1", [(GET, N1Patterns)]); ("/api/pool", [(GET, PoolStats)]);
   ("/api/users", [(GET, UserStats)]); ("/api/query-rules", [(GET, QueryRules)]);
   ("/api/query-rules/reload", [(POST, ReloadRules)]); ("/api/reload", [(POST, ReloadConfig)]);
   ("/api/reload/backends", [(POST, ReloadBackends)]); ("/api/backends", [(GET, BackendStats)]);
   ("/api/cluster", [(GET, ClusterState)]); ("/api/cluster/actions", [(POST, ClusterAction)]);
   ("/api/rewrite-rules", [(GET, RewriteRules)]); ("/api/transactions", [(GET, Transactions)]);
   ("/api/analytics", [(GET, Analytics)]); ("/api/heatmap", [(GET, Heatmap)]); ("/api/timeseries", [(GET, Timeseries)]);
   ("/api/regressions", [(GET, Regressions)]); ("/metrics", [(GET, Metrics)]);
   ("/api/config/rules", [(GET, ListConfigRules); (POST, CreateConfigRule)]);
   ("/api/config/rules/:id", [(PUT, UpdateConfigRule); (DELETE, DeleteConfigRule)]);
   ("/api/config/rewrite-rules", [(GET, ListConfigRewriteRules); (POST, CreateConfigRewriteRule)]);
   ("/api/config/rewrite-rules/:id", [(PUT, UpdateConfigRewriteRule); (DELETE, DeleteConfigRewriteRule)]);
   ("/api/config/backends", [(GET, ListConfigBackends); (POST, CreateConfigBackend)]);
   ("/api/config/backends/:id", [(PUT, UpdateConfigBackend); (DELETE, DeleteConfigBackend)]);
   ("/api/config/users", [(GET, ListConfigUsers); (POST, CreateConfigUser)]);
   ("/api/config/users/:id", [(PUT, UpdateConfigUser); (DELETE, DeleteConfigUser)]);
   ("/api/config/history", [(GET, ConfigHistory)]); ("/api/config/export", [(GET, ExportConfig)]);
   ("/api/config/import", [(POST, ImportConfig)]); ("/api/errors", [(GET, ListErrors)]);
   ("/api/errors/stats", [(GET, ErrorStats)]); ("/api/stats/flush", [(POST, FlushStats)]);
   ("/api/config/tls", [(GET, TlsCertInfo)]); ("/api/config/status", [(GET, ConfigStatus)]);
   ("/grafana/", [(GET, GrafanaHealth)]); ("/grafana/search", [(POST, GrafanaSearch)]);
   ("/grafana/query", [(POST, GrafanaQuery)]); ("/grafana/annotations", [(POST, GrafanaAnnotations)]);
   ("/grafana/tag-keys", [(POST, GrafanaTagKeys)]); ("/grafana/tag-values", [(POST, GrafanaTagValues)])]%string.

(** A segment with a colon stands for one segment that is not empty. *)
Fixpoint segments_match (pattern path : list bytes) : bool :=
  match pattern, path with
  | [], [] => true
  | p :: pattern', s :: path' =>
      (if starts_with p (bs ":") then negb (beq s []) else beq p s) && segments_match pattern' path'
  | _, _ => false
  end.
Definition find_route (table : list Route) (path : bytes) : option (list (Method * Endpoint)) :=
  snd <$> List.find (fun r => segments_match (split_on (ch "/") (bs (fst r))) (split_on (ch "/") path)) table.
(** A handler for GET is one for HEAD too. *)
Definition serves (m : Method) (me : Method * Endpoint) : bool :=
  bool_decide (fst me = m) || (bool_decide (m = HEAD) && bool_decide (fst me = GET)).
Definition method_endpoint (ms : list (Method * Endpoint)) (m : Method) : option Endpoint :=
  snd <$> List.find (serves m) ms.

(** ** Sessions *)

Inductive TokenRole := Admin | ReadOnly.
#[export] Instance role_eq_dec : EqDecision TokenRole. Proof. solve_decision. Defined.
Record TokenEntry := { expires_at : option Z; role : TokenRole }.
(** [rate_limits]: the failed attempts of an address, and the start of its window. *)
Record AuthState := { tokens : gmap bytes TokenEntry; rate_limits : gmap bytes (Z * Z); dashboard_auth_failures : Z }.
Definition auth_new : AuthState := {| tokens := ∅; rate_limits := ∅; dashboard_auth_failures := 0 |}.

Definition set_tokens (t : gmap bytes TokenEntry) (s : AuthState) : AuthState :=
  {| tokens := t; rate_limits := rate_limits s; dashboard_auth_failures := dashboard_auth_failures s |}.
Definition set_rate_limits (r : gmap bytes (Z * Z)) (s : AuthState) : AuthState :=
  {| tokens := tokens s; rate_limits := r; dashboard_auth_failures := dashboard_auth_failures s |}.
Definition count_auth_failure (s : AuthState) : AuthState :=
  {| tokens := tokens s; rate_limits := rate_limits s; dashboard_auth_failures := usize (dashboard_auth_failures s + 1) |}.

Inductive Status := OK | UNAUTHORIZED | FORBIDDEN | TOO_MANY_REQUESTS.
#[export] Instance status_eq_dec : EqDecision Status. Proof. solve_decision. Defined.
(** What a handler answers: a status and perhaps a token; [None] is a panic. *)
Definition Reply : Type := option (Status * option bytes).

Definition second : Z := 10 ^ 9.
(** [Instant + Duration]: the seconds of an instant are a signed 64-bit number. *)
Definition instant_add (now secs : Z) : option Z :=
  if now / second + secs <? 2 ^ 63 then Some (now + secs * second) else None.

Section Dashboard.
Context `{H : Hashes} (cfg : Proxy.DashboardConfig).

Definition token_hash (raw : bytes) : bytes := hex_text (sha256 raw).
Definition ct_eq_str (a b : bytes) : bool := beq (sha256 a) (sha256 b).
Definition auth_disabled : bool := beq (Proxy.username cfg) [] || beq (Proxy.password cfg) [].

Definition make_entry (now : Z) (r : TokenRole) : option TokenEntry :=
  if 0 <? Proxy.token_ttl_secs cfg then e ← instant_add now (Proxy.token_ttl_secs cfg); Some {| expires_at := Some e; role := r |}
  else Some {| expires_at := None; role := r |}.

(** The entry of an address when an attempt comes in, and whether it has to wait. *)
Definition rate_entry (ip : bytes) (now : Z) (s : AuthState) : Z * Z :=
  let '(n, start) := default (0, now) (rate_limits s !! ip) in
  if 60 * second <? sat_sub now start then (0, now) else (n, start).
Definition rate_limit (ip : bytes) (now : Z) (s : AuthState) : bool * AuthState :=
  if 0 <? Proxy.login_max_attempts cfg then
    let e := rate_entry ip now s in
    (Proxy.login_max_attempts cfg <=? fst e, set_rate_limits (<[ip := e]> (rate_limits s)) s)
  else (false, s).
Definition count_attempt (ip : bytes) (now : Z) (s : AuthState) : AuthState :=
  if 0 <? Proxy.login_max_attempts cfg then
    let '(n, start) := default (0, now) (rate_limits s !! ip) in
    set_rate_limits (<[ip := (u32 (n + 1), start)]> (rate_limits s)) s
  else s.

(** [state.tokens.lock().insert(token_hash(&token), make_entry(role))] *)
Definition open_session (now : Z) (token : bytes) (r : TokenRole) (s : AuthState) : Reply * AuthState :=
  match make_entry now r with
  | Some e => (Some (OK, Some token), set_tokens (<[token_hash token := e]> (tokens s)) s)
  | None => (None, s)
  end.

Definition is_admin (username password : bytes) : bool :=
  ct_eq_str username (Proxy.username cfg) && ct_eq_str password (Proxy.password cfg).
Definition is_readonly (username password : bytes) : bool :=
  negb (beq (Proxy.readonly_username cfg) []) && ct_eq_str username (Proxy.readonly_username cfg)
  && ct_eq_str password (Proxy.readonly_password cfg).

(** What a log-in does after its check of the limit: the lock is free in between. *)
Definition login_decide (ip username password : bytes) (later : Z) (token : bytes) (s : AuthState) : Reply * AuthState :=
  if auth_disabled then open_session later token Admin s
  else if is_admin username password then open_session later token Admin s
  else if is_readonly username password then open_session later token ReadOnly s
  else (Some (UNAUTHORIZED, None), count_auth_failure (count_attempt ip later s)).
(** [now] is the clock at the check of the limit, [later] the one after the credentials. *)
Definition login (ip username password : bytes) (now later : Z) (token : bytes) (s : AuthState) : Reply * AuthState :=
  let (wait, s) := rate_limit ip now s in
  if wait then (Some (TOO_MANY_REQUESTS, None), s) else login_decide ip username password later token s.

Definition logout (token : bytes) (s : AuthState) : Reply * AuthState :=
  (Some (OK, None), set_tokens (delete (token_hash token) (tokens s)) s).

Definition refresh_token (token : bytes) (now later : Z) (fresh : bytes) (s : AuthState) : Reply * AuthState :=
  let old_hash := token_hash token in
  match tokens s !! old_hash with
  | None => (Some (UNAUTHORIZED, None), count_auth_failure s)
  | Some e =>
      let s := set_tokens (delete old_hash (tokens s)) s in
      if match expires_at e with Some exp => exp <? now | None => false end
      then (Some (UNAUTHORIZED, None), count_auth_failure s)
      else open_session later fresh (role e) s
  end.

(** ** Requests *)

Inductive Body := LoginBody (username password : bytes) | TokenBody (token : bytes) | OtherBody.
Record Request := {
  method : Method; path : bytes; x_auth_token : option bytes; body : Body; peer_ip : bytes;
  clock : Z; clock_later : Z; new_token : bytes
}.

(** [HeaderValue::to_str]. *)
Definition header_text (v : bytes) : option bytes :=
  if forallb (fun b => (32 <=? b) && (b <? 127) || (b =? 9)) v then Some v else None.
Definition presented (r : Request) : bytes := default [] (x_auth_token r ≫= header_text).

Definition token_role (token : bytes) (now : Z) (s : AuthState) : option TokenRole :=
  e ← tokens s !! token_hash token;
  if match expires_at e with Some exp => exp <=? now | None => false end then None else Some (role e).
Definition is_mutating (m : Method) : bool := negb (bool_decide (m = GET \/ m = HEAD \/ m = OPTIONS)).

(** [None]: the request goes on to its handler. *)
Definition auth_middleware (r : Request) (s : AuthState) : option Status * AuthState :=
  if auth_disabled then (None, s)
  else match token_role (presented r) (clock r) s with
       | None => (Some UNAUTHORIZED, count_auth_failure s)
       | Some ReadOnly =>
           if is_mutating (method r) && negb (beq (path r) (bs "/api/logout")) then (Some FORBIDDEN, s) else (None, s)
       | Some Admin => (None, s)
       end.

(** [Handled]: the handler has run.  [Replied]: it is one of the handlers above, or the
    middleware has answered.  [BadBody]: the body is not what the handler takes. *)
Inductive Outcome := Replied (reply : Reply) | Handled (e : Endpoint) | BadBody | NoHandler | StaticFile.

Definition run_endpoint (e : Endpoint) (r : Request) (s : AuthState) : Outcome * AuthState :=
  match e, body r with
  | Login, LoginBody u p => let (a, s) := login (peer_ip r) u p (clock r) (clock_later r) (new_token r) s in (Replied a, s)
  | Logout, TokenBody t => let (a, s) := logout t s in (Replied a, s)
  | RefreshToken, TokenBody t => let (a, s) := refresh_token t (clock r) (clock_later r) (new_token r) s in (Replied a, s)
  | (Login | Logout | RefreshToken), _ => (BadBody, s)
  | _, _ => (Handled e, s)
  end.

(** [guards_methods]: whether the library runs the middleware of a route for a method that
    the route has no handler for. *)
Definition serve (guards_methods : bool) (r : Request) (s : AuthState) : Outcome * AuthState :=
  match find_route public (path r), find_route protected (path r) with
  | Some ms, _ => match method_endpoint ms (method r) with Some e => run_endpoint e r s | None => (NoHandler, s) end
  | None, Some ms =>
      match method_endpoint ms (method r) with
      | Some e => match auth_middleware r s with
                  | (None, s) => run_endpoint e r s
                  | (Some st, s) => (Replied (Some (st, None)), s)
                  end
      | None => if guards_methods then match auth_middleware r s with
                                       | (None, s) => (NoHandler, s)
                                       | (Some st, s) => (Replied (Some (st, None)), s)
                                       end
                else (NoHandler, s)
      end
  | None, None => (StaticFile, s)
  end.

(** The task that runs every minute. *)
Definition live (now : Z) (e : TokenEntry) : bool := match expires_at e with Some exp => now <? exp | None => true end.
Definition sweep (now : Z) (s : AuthState) : AuthState :=
  {| tokens := filter (fun kv => live now kv.2 = true) (tokens s);
     rate_limits := filter (fun kv => now - 300 * second < kv.2.2) (rate_limits s);
     dashboard_auth_failures := dashboard_auth_failures s |}.

(** ** Histories *)

Inductive AuthEvent := Serve (r : Request) | Sweep (now : Z).
Definition event_step (g : bool) (s : AuthState) (e : AuthEvent) : AuthState :=
  match e with Serve r => snd (serve g r s) | Sweep now => sweep now s end.
Definition after (g : bool) (events : list AuthEvent) (s : AuthState) : AuthState := foldl (event_step g) s events.
End Dashboard.

(** ** What the theorems are about

    The handlers that change the configuration, the rules, the backends or the counters. *)
Definition changes_config (e : Endpoint) : bool :=
  match e with
  | ReloadRules | ReloadConfig | ReloadBackends | ClusterAction | ClusterSync
  | CreateConfigRule | UpdateConfigRule | DeleteConfigRule
  | CreateConfigRewriteRule | UpdateConfigRewriteRule | DeleteConfigRewriteRule
  | CreateConfigBackend | UpdateConfigBackend | DeleteConfigBackend
  | CreateConfigUser | UpdateConfigUser | DeleteConfigUser | ImportConfig | FlushStats => true
  | _ => false
  end.
(** The handlers that no session is asked for. *)
Definition is_public (e : Endpoint) : bool := match e with HealthPage | Login | ClusterSync | HandleMcp => true | _ => false end.

Lemma find_route_in table path ms : find_route table path = Some ms -> exists pattern, (pattern, ms) ∈ table.
Proof.
  unfold find_route. destruct (List.find _ _) as [[pattern ms']|] eqn:E; [|done]. intros [= <-].
  exists pattern. apply list_elem_of_In. by apply List.find_some in E as [? _].
Qed.
Lemma method_endpoint_in ms m e : method_endpoint ms m = Some e ->
  exists m', (m', e) ∈ ms /\ (m' = m \/ m = HEAD /\ m' = GET).
Proof.
  unfold method_endpoint. destruct (List.find _ _) as [[m' e']|] eqn:E; [|done]. intros [= <-].
  apply List.find_some in E as [Hin Hm]. exists m'. split; [by apply list_elem_of_In|]. unfold serves in Hm. cbn [fst] in Hm.
  apply orb_true_iff in Hm as [Hm | [? ?]%andb_true_iff]; [left | right]; by repeat case_bool_decide.
Qed.
(** A property of each line of a table of routes. *)
Lemma route_property (P : Method -> Endpoint -> bool) table path m ms e :
  forallb (fun r => forallb (fun me => P (fst me) (snd me)) (snd r)) table = true ->
  find_route table path = Some ms -> method_endpoint ms m = Some e ->
  exists m', P m' e = true /\ (m' = m \/ m = HEAD /\ m' = GET).
Proof.
  intros Ht [pattern Hin]%find_route_in (m' & Hm & Hor)%method_endpoint_in. exists m'. split; [|done].
  rewrite forallb_forall in Ht. apply list_elem_of_In, Ht in Hin. cbn [snd] in Hin.
  rewrite forallb_forall in Hin. by apply list_elem_of_In, Hin in Hm.
Qed.
Lemma public_route path m ms e : find_route public path = Some ms -> method_endpoint ms m = Some e -> is_public e = true.
Proof.
  intros H1 H2. by destruct (route_property (fun _ => is_public) public path m ms e) as (? & ? & _).
Qed.
(** No handler that changes something serves GET, HEAD or OPTIONS. *)
Lemma changes_mutating path m ms e : find_route protected path = Some ms -> method_endpoint ms m = Some e ->
  changes_config e = true -> is_mutating m = true.
Proof.
  intros H1 H2 Hc.
  destruct (route_property (fun m e => implb (changes_config e) (is_mutating m)) protected path m ms e) as (m' & Hm & Hor); [done..|].
  rewrite Hc in Hm. cbn in Hm. destruct Hor as [-> | [-> ->]]; done.
Qed.
Lemma logout_route m ms e : find_route protected (bs "/api/logout") = Some ms -> method_endpoint ms m = Some e -> e = Logout.
Proof.
  intros [= <-] H. apply method_endpoint_in in H as (m' & Hin & _). by apply list_elem_of_singleton in Hin as [= _ ->].
Qed.

Definition routed_to_login (r : Request) : bool :=
  match find_route public (path r) with
  | Some ms => match method_endpoint ms (method r) with Some Login => true | _ => false end
  | None => false
  end.
Lemma protected_not_login path m ms e : find_route protected path = Some ms -> method_endpoint ms m = Some e -> e <> Login.
Proof.
  intros H1 H2 ->. by destruct (route_property (fun _ e => match e with Login => false | _ => true end) protected path m ms Login) as (? & ? & _).
Qed.

Section Theorems.
Context `{H : Hashes} (cfg : Proxy.DashboardConfig) (g : bool).

Definition ttl_nanos : Z := Proxy.token_ttl_secs cfg * second.
(** The role that a name and a password give. *)
Definition granted (username password : bytes) : option TokenRole :=
  if is_admin cfg username password then Some Admin else if is_readonly cfg username password then Some ReadOnly else None.

(** A token was issued in a history, in a role and at a time: by a log-in with the right
    credentials, or in exchange for such a token. *)
Inductive issued (events : list AuthEvent) : bytes -> TokenRole -> Z -> Prop :=
| issued_login r username password rl :
    Serve r ∈ events -> routed_to_login r = true -> body r = LoginBody username password -> granted username password = Some rl ->
    issued events (new_token r) rl (clock_later r)
| issued_refresh r t old rl t0 :
    Serve r ∈ events -> body r = TokenBody t -> token_hash t = token_hash old -> issued events old rl t0 ->
    issued events (new_token r) rl (clock_later r).

Lemma issued_more events more token rl t : issued events token rl t -> issued (events ++ more) token rl t.
Proof.
  induction 1 as [r u p rl Hin Hl Hb Hg | r t old rl t0 Hin Hb Ht _ IH];
    [eapply issued_login | eapply issued_refresh]; try done; apply elem_of_app; by left.
Qed.

Definition sessions_issued (events : list AuthEvent) (s : AuthState) : Prop :=
  forall h e, tokens s !! h = Some e -> exists token t0,
    token_hash token = h /\ issued events token (role e) t0 /\
    (0 < Proxy.token_ttl_secs cfg -> expires_at e = Some (t0 + ttl_nanos)).

Lemma make_entry_spec now rl e : make_entry cfg now rl = Some e ->
  role e = rl /\ (0 < Proxy.token_ttl_secs cfg -> expires_at e = Some (now + ttl_nanos)).
Proof.
  unfold make_entry, instant_add. destruct (Z.ltb_spec 0 (Proxy.token_ttl_secs cfg)) as [Ht|Ht].
  - destruct (_ <? 2 ^ 63); [|done]. by intros [= <-].
  - intros [= <-]. split; [done|]. cbn. lia.
Qed.

(** The tokens after each operation are among those before it, but for a new one. *)
Lemma open_session_tokens now token rl s a s' : open_session cfg now token rl s = (a, s') ->
  tokens s' = tokens s \/ exists e, make_entry cfg now rl = Some e /\ tokens s' = <[token_hash token := e]> (tokens s).
Proof. unfold open_session. destruct (make_entry cfg now rl) as [e|]; intros [= _ <-]; [right; by exists e | by left]. Qed.
Lemma rate_limit_tokens ip now s : tokens (snd (rate_limit cfg ip now s)) = tokens s.
Proof. unfold rate_limit. by destruct (0 <? _). Qed.
Lemma count_attempt_tokens ip now s : tokens (count_attempt cfg ip now s) = tokens s.
Proof. unfold count_attempt. destruct (0 <? _); [|done]. by destruct (default _ _). Qed.
Lemma login_tokens ip u p now later token s a s' : auth_disabled cfg = false -> login cfg ip u p now later token s = (a, s') ->
  tokens s' = tokens s \/
  exists rl e, granted u p = Some rl /\ make_entry cfg later rl = Some e /\ tokens s' = <[token_hash token := e]> (tokens s).
Proof.
  intros Hd. unfold login, login_decide, granted. pose proof (rate_limit_tokens ip now s) as Ht.
  destruct (rate_limit cfg ip now s) as [wait s1]. cbn [snd] in Ht. rewrite Hd, <- Ht.
  destruct wait; [intros [= _ <-]; by left|]. destruct (is_admin cfg u p); [|destruct (is_readonly cfg u p)].
  - intros [? | (e & He & Hs)]%open_session_tokens; [by left | right; by exists Admin, e].
  - intros [? | (e & He & Hs)]%open_session_tokens; [by left | right; by exists ReadOnly, e].
  - intros [= _ <-]. left. apply count_attempt_tokens.
Qed.
Lemma refresh_tokens t now later fresh s a s' : refresh_token cfg t now later fresh s = (a, s') ->
  tokens s' ⊆ tokens s \/
  exists old e, tokens s !! token_hash t = Some old /\ make_entry cfg later (role old) = Some e /\
                tokens s' = <[token_hash fresh := e]> (delete (token_hash t) (tokens s)).
Proof.
  unfold refresh_token. destruct (tokens s !! token_hash t) as [old|] eqn:E; [|intros [= _ <-]; by left].
  destruct (match expires_at old with Some exp => exp <? now | None => false end).
  - intros [= _ <-]. left. apply delete_subseteq.
  - intros [-> | (e & He & Hs)]%open_session_tokens; [left; apply delete_subseteq | right; by exists old, e].
Qed.
Lemma sessions_issued_sub events s s' : sessions_issued events s -> tokens s' ⊆ tokens s -> sessions_issued events s'.
Proof. intros Hi Hsub h e Hh. apply Hi. by eapply lookup_weaken. Qed.
Lemma sessions_issued_insert events s s' token rl t e : sessions_issued events s -> issued events token rl t ->
  make_entry cfg t rl = Some e -> (forall h, tokens s' !! h = <[token_hash token := e]> (tokens s) !! h \/ tokens s' !! h = None) ->
  sessions_issued events s'.
Proof.
  intros Hi Hnew He Hs h e' Hh. destruct (Hs h) as [Hq | Hq]; rewrite Hq in Hh; [|done].
  apply lookup_insert_Some in Hh as [[<- <-] | [_ Hh]]; [|by apply Hi].
  apply make_entry_spec in He as [Hr Hx]. exists token, t. by rewrite Hr.
Qed.

Lemma middleware_tokens r s v s' : auth_middleware cfg r s = (v, s') -> tokens s' = tokens s.
Proof.
  unfold auth_middleware. destruct (auth_disabled cfg); [by intros [= _ <-]|].
  destruct (token_role _ _ _) as [[]|]; [|destruct (_ && _)|]; by intros [= _ <-].
Qed.
Lemma run_endpoint_issued events e r s : auth_disabled cfg = false -> (e = Login -> routed_to_login r = true) ->
  sessions_issued events s ->
  sessions_issued (events ++ [Serve r]) (snd (run_endpoint cfg e r s)).
Proof.
  intros Hd Hl Hi.
  assert (sessions_issued (events ++ [Serve r]) s) as Hi'.
  { intros h x (token & t0 & Ht & Hiss & Hx)%Hi. exists token, t0. split_and!; [done | by apply issued_more | done]. }
  assert (Serve r ∈ events ++ [Serve r]) as Hr by (apply elem_of_app; right; by left).
  destruct e; try done; cbn [run_endpoint]; destruct (body r) as [u p | t |] eqn:Hb; try done.
  - destruct (login _ _ _ _ _ _ _ _) as [a s'] eqn:E. cbn [snd]. apply login_tokens in E as [E | (rl & x & Hg & Hx & E)]; [| |done].
    + eapply sessions_issued_sub; [done|]. by rewrite E.
    + eapply sessions_issued_insert; [done | by eapply issued_login; [| apply Hl | |] | done |]. intros h. left. by rewrite E.
  - cbn. eapply sessions_issued_sub; [done|]. apply delete_subseteq.
  - destruct (refresh_token _ _ _ _ _ _) as [a s'] eqn:E. cbn [snd]. apply refresh_tokens in E as [E | (old & x & Ho & Hx & E)].
    + by eapply sessions_issued_sub.
    + destruct (Hi' _ _ Ho) as (token & t0 & Ht & Hiss & _).
      eapply sessions_issued_insert; [done | by eapply issued_refresh | done |]. intros h. rewrite E.
      destruct (decide (h = token_hash (new_token r))) as [-> | Hn]; [left; by rewrite !lookup_insert_eq|].
      rewrite !lookup_insert_ne by done. destruct (decide (h = token_hash t)) as [-> | Hn'].
      * right. apply lookup_delete_eq.
      * left. by rewrite lookup_delete_ne.
Qed.
Lemma step_issued events s e : auth_disabled cfg = false -> sessions_issued events s ->
  sessions_issued (events ++ [e]) (event_step cfg g s e).
Proof.
  intros Hd Hi. assert (forall x, sessions_issued (events ++ [x]) s) as Hi'.
  { intros x h y (token & t0 & Ht & Hiss & Hx)%Hi. exists token, t0. split_and!; [done | by apply issued_more | done]. }
  assert (forall e' r s', (e' = Login -> routed_to_login r = true) -> tokens s' = tokens s ->
    sessions_issued (events ++ [Serve r]) (snd (run_endpoint cfg e' r s'))) as Hrun.
  { intros e' r s' Hl Ht. apply run_endpoint_issued; [done..|]. eapply sessions_issued_sub; [done | by rewrite Ht]. }
  destruct e as [r|now]; cbn [event_step].
  - unfold serve. destruct (find_route public (path r)) as [ms|] eqn:Ep.
    { destruct (method_endpoint ms (method r)) as [e|] eqn:Em; [|apply Hi']. apply Hrun; [|done]. intros ->.
      unfold routed_to_login. by rewrite Ep, Em. }
    destruct (find_route protected (path r)) as [ms|] eqn:Er; [|apply Hi'].
    destruct (auth_middleware cfg r s) as [v s'] eqn:Ea. apply middleware_tokens in Ea.
    assert (sessions_issued (events ++ [Serve r]) s') as Hs by (eapply sessions_issued_sub; [apply Hi' | by rewrite Ea]).
    destruct (method_endpoint ms (method r)) as [e|] eqn:Em; [|by destruct g, v].
    destruct v; [done|]. apply Hrun; [|done]. intros ->. by apply (protected_not_login _ _ _ _ Er) in Em.
  - eapply sessions_issued_sub; [apply Hi'|]. apply map_filter_subseteq.
Qed.
Lemma reachable_issued events : auth_disabled cfg = false -> sessions_issued events (after cfg g events auth_new).
Proof.
  intros Hd. induction events as [|e events IH] using rev_ind; [intros h x Hx; cbn in Hx; by rewrite lookup_empty in Hx|].
  unfold after. rewrite foldl_app. by apply step_issued.
Qed.

Lemma run_handled e r s e' s' : run_endpoint cfg e r s = (Handled e', s') -> e' = e.
Proof.
  destruct e; cbn [run_endpoint]; try (by intros [= -> _]); destruct (body r); try done.
  - by destruct (login _ _ _ _ _ _ _ _).
  - by destruct (refresh_token _ _ _ _ _ _).
Qed.
(** What is handled behind the middleware had a session, of an administrator if anything is
    to be changed. *)
Lemma handled_role r s e s' : auth_disabled cfg = false -> serve cfg g r s = (Handled e, s') -> is_public e = false ->
  exists rl, token_role (presented r) (clock r) s = Some rl /\ (changes_config e = true -> rl = Admin).
Proof.
  intros Hd Hs Hp. unfold serve in Hs. destruct (find_route public _) as [ms|] eqn:Ep.
  - destruct (method_endpoint ms (method r)) as [e0|] eqn:Em; [|done]. apply run_handled in Hs as ->.
    by rewrite (public_route _ _ _ _ Ep Em) in Hp.
  - destruct (find_route protected _) as [ms|] eqn:Er; [|done].
    destruct (method_endpoint ms (method r)) as [e0|] eqn:Em.
    + destruct (auth_middleware cfg r s) as [[st|] s1] eqn:Ea; [done|]. apply run_handled in Hs as ->.
      unfold auth_middleware in Ea. rewrite Hd in Ea. destruct (token_role _ _ _) as [[]|]; [by exists Admin | | done].
      destruct (is_mutating (method r) && _) eqn:Eb; [done|]. exists ReadOnly. split; [done|]. intros Hc.
      rewrite (changes_mutating _ _ _ _ Er Em Hc) in Eb. apply negb_false_iff, beq_true in Eb. rewrite Eb in Er.
      apply (logout_route _ _ _ Er) in Em as ->. done.
    + destruct g; [|done]. by destruct (auth_middleware cfg r s) as [[st|] s1].
Qed.

End Theorems.

(** ** What log-out and renewal revoke *)
Section Revocation.
Context `{H : Hashes} (cfg : Proxy.DashboardConfig) (g : bool).

Definition absent (h : bytes) (s : AuthState) : Prop := tokens s !! h = None.
Definition fresh_for (h : bytes) (e : AuthEvent) : Prop :=
  match e with Serve r => token_hash (new_token r) <> h | Sweep _ => True end.

Lemma open_session_absent h now token rl s : absent h s -> token_hash token <> h ->
  absent h (snd (open_session cfg now token rl s)).
Proof.
  intros Ha Hn. destruct (open_session _ _ _ _ _) as [a s'] eqn:E. apply open_session_tokens in E as [E | (e & _ & E)];
    unfold absent; cbn [snd]; rewrite E; [done|]. by rewrite lookup_insert_ne.
Qed.
Lemma run_endpoint_absent h e r s : absent h s -> token_hash (new_token r) <> h -> absent h (snd (run_endpoint cfg e r s)).
Proof.
  intros Ha Hn. destruct e; try done; cbn [run_endpoint]; destruct (body r) as [u p | t |]; try done.
  - unfold login, login_decide. pose proof (rate_limit_tokens cfg (peer_ip r) (clock r) s) as Ht.
    destruct (rate_limit _ _ _ _) as [wait s1]. cbn [snd] in Ht. assert (absent h s1) as Ha1 by (unfold absent; by rewrite Ht).
    pose proof (fun rl => open_session_absent h (clock_later r) (new_token r) rl s1 Ha1 Hn) as Ho.
    assert (forall m : Reply * AuthState, absent h (snd m) -> absent h (snd (let (a, s') := m in (Replied a, s')))) as Hlet by (by intros []).
    apply Hlet. destruct wait; [done|]. destruct (auth_disabled cfg), (is_admin cfg u p), (is_readonly cfg u p); try apply Ho.
    unfold absent. cbn. by rewrite count_attempt_tokens.
  - unfold absent. cbn. by apply lookup_delete_None; right.
  - unfold refresh_token. destruct (tokens s !! token_hash t) as [old|]; [|done].
    assert (absent h (set_tokens (delete (token_hash t) (tokens s)) s)) as Ha' by (apply lookup_delete_None; by right).
    destruct (match expires_at old with Some exp => exp <? clock r | None => false end); [done|].
    pose proof (open_session_absent h (clock_later r) (new_token r) (role old) _ Ha' Hn) as Ho.
    by destruct (open_session _ _ _ _ _).
Qed.
Lemma step_absent h e s : absent h s -> fresh_for h e -> absent h (event_step cfg g s e).
Proof.
  intros Ha Hn. destruct e as [r|now]; cbn [event_step fresh_for] in *.
  - assert (forall e' s', tokens s' = tokens s -> absent h (snd (run_endpoint cfg e' r s'))) as Hrun.
    { intros e' s' Ht. apply run_endpoint_absent; [by unfold absent; rewrite Ht | done]. }
    unfold serve. destruct (find_route public _) as [ms|]; [|destruct (find_route protected _) as [ms|]; [|done]];
      (destruct (method_endpoint ms (method r)) as [e|]); try destruct g; try done; try by apply Hrun.
    all: destruct (auth_middleware cfg r s) as [[st|] s'] eqn:Em; apply middleware_tokens in Em; try by apply Hrun.
    all: unfold absent; cbn [snd]; by rewrite Em.
  - unfold absent, sweep. cbn. rewrite map_lookup_filter_None. by left.
Qed.
Lemma after_absent h events s : absent h s -> Forall (fresh_for h) events -> absent h (after cfg g events s).
Proof.
  intros Ha Hf. revert s Ha. induction Hf as [|e events Hn _ IH]; intros s Ha; [done|]. by apply IH, step_absent.
Qed.

(** A token is given up by a log-out, or for a new one. *)
Definition gives_up (t : bytes) (s s1 : AuthState) : Prop :=
  s1 = snd (logout t s) \/
  exists now later fresh, token_hash fresh <> token_hash t /\ s1 = snd (refresh_token cfg t now later fresh s).
Lemma given_up_absent t s s1 : gives_up t s s1 -> absent (token_hash t) s1.
Proof.
  assert (absent (token_hash t) (set_tokens (delete (token_hash t) (tokens s)) s)) as Ha by apply lookup_delete_eq.
  intros [-> | (now & later & fresh & Hn & ->)]; [exact Ha|].
  unfold refresh_token. destruct (tokens s !! token_hash t) as [old|] eqn:E; [|exact E].
  destruct (match expires_at old with Some exp => exp <? now | None => false end); [exact Ha|]. by apply open_session_absent.
Qed.

(** A token that was given up is refused on every protected page from then on. *)
Theorem revoked_is_refused t s s1 events r ms e :
  auth_disabled cfg = false -> gives_up t s s1 -> Forall (fresh_for (token_hash t)) events ->
  token_hash (presented r) = token_hash t ->
  find_route public (path r) = None -> find_route protected (path r) = Some ms -> method_endpoint ms (method r) = Some e ->
  fst (serve cfg g r (after cfg g events s1)) = Replied (Some (UNAUTHORIZED, None)).
Proof.
  intros Hd Hg Hf Ht Hp Hr Hm. pose proof (after_absent _ _ _ (given_up_absent _ _ _ Hg) Hf) as Hb.
  unfold serve. rewrite Hp, Hr, Hm. unfold auth_middleware, token_role. rewrite Hd, Ht. unfold absent in Hb. by rewrite Hb.
Qed.
End Revocation.

(** ** The sweeper

    It saves memory and nothing else: what it removes makes no difference. *)
Section Sweeper.
Context `{H : Hashes} (cfg : Proxy.DashboardConfig) (g : bool).

Fixpoint outcomes (events : list AuthEvent) (s : AuthState) : list Outcome :=
  match events with
  | [] => []
  | Serve r :: events' => let (o, s') := serve cfg g r s in o :: outcomes events' s'
  | Sweep now :: events' => outcomes events' (sweep now s)
  end.
Definition is_request (e : AuthEvent) : bool := match e with Serve _ => true | Sweep _ => false end.
(** The clock moves on from one event to the next. *)
Fixpoint clocks_increase (t : Z) (events : list AuthEvent) : Prop :=
  match events with
  | [] => True
  | Serve r :: events' => t < clock r <= clock_later r /\ clocks_increase (clock_later r) events'
  | Sweep now :: events' => t < now /\ clocks_increase now events'
  end.

(** At time [t], [s] is [s'] without some entries that have expired. *)
Definition swept_token (t : Z) (o o' : option TokenEntry) : Prop :=
  o = o' \/ o = None /\ exists e exp, o' = Some e /\ expires_at e = Some exp /\ exp <= t.
Definition swept_limit (t : Z) (o o' : option (Z * Z)) : Prop :=
  o = o' \/ o = None /\ exists n start, o' = Some (n, start) /\ start <= t - 300 * second.
Record swept (t : Z) (s s' : AuthState) : Prop := {
  swept_tokens h : swept_token t (tokens s !! h) (tokens s' !! h);
  swept_limits ip : swept_limit t (rate_limits s !! ip) (rate_limits s' !! ip);
  swept_failures : dashboard_auth_failures s = dashboard_auth_failures s'
}.
Lemma swept_later t u s s' : swept t s s' -> t <= u -> swept u s s'.
Proof.
  intros [Ht Hl Hf] Hu. split; [| |done].
  - intros h. destruct (Ht h) as [-> | (-> & e & exp & ? & ? & ?)]; [by left|]. right. split; [done|]. exists e, exp. split_and!; [done..|lia].
  - intros ip. destruct (Hl ip) as [-> | (-> & n & start & ? & ?)]; [by left|]. right. split; [done|]. exists n, start. split; [done|lia].
Qed.
Lemma swept_set_tokens t s s' m m' : swept t s s' -> (forall h, swept_token t (m !! h) (m' !! h)) ->
  swept t (set_tokens m s) (set_tokens m' s').
Proof. intros [? ? ?] ?. by split. Qed.
Lemma swept_count t s s' : swept t s s' -> swept t (count_auth_failure s) (count_auth_failure s').
Proof. intros [? ? Hf]. split; [done..|]. cbn. by rewrite Hf. Qed.
Lemma swept_insert t s s' h e : swept t s s' -> swept t (set_tokens (<[h := e]> (tokens s)) s) (set_tokens (<[h := e]> (tokens s')) s').
Proof.
  intros Hs. apply swept_set_tokens; [done|]. intros k. destruct (decide (h = k)) as [-> | ?]; [rewrite !lookup_insert_eq; by left|].
  rewrite !lookup_insert_ne by done. apply Hs.
Qed.
Lemma swept_delete t s s' h : swept t s s' -> swept t (set_tokens (delete h (tokens s)) s) (set_tokens (delete h (tokens s')) s').
Proof.
  intros Hs. apply swept_set_tokens; [done|]. intros k. destruct (decide (h = k)) as [-> | ?]; [rewrite !lookup_delete_eq; by left|].
  rewrite !lookup_delete_ne by done. apply Hs.
Qed.
(** The answer is the same, and the states go on to match. *)
Definition same_answer {A} (t : Z) (m m' : A * AuthState) : Prop := fst m = fst m' /\ swept t (snd m) (snd m').
Lemma same_let {A B} t (f : A -> B) (m m' : A * AuthState) : same_answer t m m' ->
  same_answer t (let (a, s) := m in (f a, s)) (let (a, s) := m' in (f a, s)).
Proof. destruct m, m'. intros [Ha Hs]. cbn [fst snd] in *. subst. by split. Qed.

Lemma swept_open t s s' now token rl : swept t s s' -> same_answer t (open_session cfg now token rl s) (open_session cfg now token rl s').
Proof. intros Hs. unfold open_session. destruct (make_entry cfg now rl); split; [done | by apply swept_insert | done | done]. Qed.
Lemma swept_rate_entry t s s' ip now : swept t s s' -> t < now -> rate_entry ip now s = rate_entry ip now s'.
Proof.
  intros Hs Ht. unfold rate_entry. destruct (swept_limits _ _ _ Hs ip) as [-> | (-> & n & start & -> & Hle)]; [done|]. cbn.
  unfold sat_sub, second in *. destruct (Z.ltb_spec (60 * 10 ^ 9) (Z.max 0 (now - now))); destruct (Z.ltb_spec (60 * 10 ^ 9) (Z.max 0 (now - start))); by (done || lia).
Qed.
Lemma swept_set_limit t s s' ip e : swept t s s' ->
  swept t (set_rate_limits (<[ip := e]> (rate_limits s)) s) (set_rate_limits (<[ip := e]> (rate_limits s')) s').
Proof.
  intros [Ht Hl Hf]. split; [done| |done]. intros k. cbn. destruct (decide (ip = k)) as [-> | ?]; [rewrite !lookup_insert_eq; by left|].
  rewrite !lookup_insert_ne by done. apply Hl.
Qed.
Lemma swept_rate_limit t s s' ip now : swept t s s' -> t < now -> same_answer t (rate_limit cfg ip now s) (rate_limit cfg ip now s').
Proof.
  intros Hs Ht. unfold rate_limit. destruct (0 <? _); [|done]. rewrite (swept_rate_entry _ _ _ _ _ Hs Ht).
  split; [done|]. by apply swept_set_limit.
Qed.
Lemma rate_limit_entry ip now s : (0 <? Proxy.login_max_attempts cfg) = true ->
  rate_limits (snd (rate_limit cfg ip now s)) !! ip = Some (rate_entry ip now s).
Proof. intros Hm. unfold rate_limit. rewrite Hm. apply lookup_insert_eq. Qed.
Lemma swept_count_attempt t s s' ip now e : swept t s s' ->
  ((0 <? Proxy.login_max_attempts cfg) = true -> rate_limits s !! ip = Some e /\ rate_limits s' !! ip = Some e) ->
  swept t (count_attempt cfg ip now s) (count_attempt cfg ip now s').
Proof.
  intros Hs He. unfold count_attempt. destruct (0 <? _) eqn:Hm; [|done]. destruct (He eq_refl) as [-> ->]. cbn [default].
  destruct e as [n start]. by apply swept_set_limit.
Qed.
Lemma swept_login t s s' ip u p now later token : swept t s s' -> t < now ->
  same_answer t (login cfg ip u p now later token s) (login cfg ip u p now later token s').
Proof.
  intros Hs Ht. unfold login, login_decide. pose proof (swept_rate_limit _ _ _ ip _ Hs Ht) as [Hw Hs1].
  pose proof (rate_limit_entry ip now s) as He. pose proof (rate_limit_entry ip now s') as He'.
  destruct (rate_limit cfg ip now s) as [w s1], (rate_limit cfg ip now s') as [w' s1']. cbn [fst snd] in *. subst w'.
  destruct w; [done|]. destruct (auth_disabled cfg); [by apply swept_open|]. destruct (is_admin cfg u p); [by apply swept_open|].
  destruct (is_readonly cfg u p); [by apply swept_open|]. split; [done|]. cbn [snd]. apply swept_count.
  apply (swept_count_attempt _ _ _ _ _ (rate_entry ip now s)); [done|]. intros Hm. split; [by apply He|].
  rewrite (swept_rate_entry _ _ _ _ _ Hs Ht). by apply He'.
Qed.
Lemma swept_refresh t s s' token now later fresh : swept t s s' -> t < now ->
  same_answer t (refresh_token cfg token now later fresh s) (refresh_token cfg token now later fresh s').
Proof.
  intros Hs Ht. unfold refresh_token. pose proof (swept_delete _ _ _ (token_hash token) Hs) as Hd.
  destruct (swept_tokens _ _ _ Hs (token_hash token)) as [-> | (E & e & exp & E' & Hx & Hle)].
  - destruct (tokens s' !! _) as [old|]; [|split; [done | by apply swept_count]].
    destruct (match expires_at old with Some exp => exp <? now | None => false end); [split; [done | by apply swept_count]|].
    by apply swept_open.
  - rewrite E, E', Hx. destruct (Z.ltb_spec exp now); [|lia]. split; [done|]. apply swept_count.
    rewrite (delete_id (tokens s)) in Hd by done. by destruct s.
Qed.
Lemma swept_role t s s' token now : swept t s s' -> t < now -> token_role token now s = token_role token now s'.
Proof.
  intros Hs Ht. unfold token_role. destruct (swept_tokens _ _ _ Hs (token_hash token)) as [-> | (-> & e & exp & -> & Hx & Hle)]; [done|].
  cbn. rewrite Hx. destruct (Z.leb_spec exp now); [done | lia].
Qed.
Lemma swept_middleware t s s' r : swept t s s' -> t < clock r -> same_answer t (auth_middleware cfg r s) (auth_middleware cfg r s').
Proof.
  intros Hs Ht. unfold auth_middleware. destruct (auth_disabled cfg); [done|]. rewrite (swept_role _ _ _ _ _ Hs Ht).
  destruct (token_role _ _ _) as [[]|]; [done | by destruct (_ && _) | split; [done | by apply swept_count]].
Qed.
Lemma swept_endpoint t s s' e r : swept t s s' -> t < clock r -> same_answer t (run_endpoint cfg e r s) (run_endpoint cfg e r s').
Proof.
  intros Hs Ht. destruct e; try done; cbn [run_endpoint]; destruct (body r); try done; apply same_let;
    [by apply swept_login | split; [done | by apply swept_delete] | by apply swept_refresh].
Qed.
Lemma swept_serve t s s' r : swept t s s' -> t < clock r -> same_answer t (serve cfg g r s) (serve cfg g r s').
Proof.
  intros Hs Ht. unfold serve. pose proof (swept_middleware _ _ _ _ Hs Ht) as [Hv Hs1].
  pose proof (fun e s s' Hs => swept_endpoint t s s' e r Hs Ht) as He.
  destruct (auth_middleware cfg r s) as [v s1], (auth_middleware cfg r s') as [v' s1']. cbn [fst snd] in *. subst v'.
  destruct (find_route public (path r)) as [ms|].
  - destruct (method_endpoint ms (method r)); [by apply He | done].
  - destruct (find_route protected (path r)) as [ms|]; [|done]. destruct (method_endpoint ms (method r)); [|destruct g; [|done]];
      (destruct v; [done|]); [by apply He | done].
Qed.
Lemma swept_sweep t s s' : swept t s s' -> swept t (sweep t s) s'.
Proof.
  intros [Ht Hl Hf]. split; [| |done].
  - intros h. cbn. rewrite map_lookup_filter. destruct (Ht h) as [<- | (-> & e)]; [|by right].
    destruct (tokens s !! h) as [e|]; [|by left]. cbn. destruct (decide (live t e = true)) as [Hl' | Hl'].
    + rewrite option_guard_True by done. by left.
    + rewrite option_guard_False by done. right. split; [done|]. unfold live in Hl'. destruct (expires_at e) as [exp|] eqn:Ex; [|done].
      exists e, exp. split_and!; [done..|]. destruct (Z.ltb_spec t exp); [done | lia].
  - intros ip. cbn. rewrite map_lookup_filter. destruct (Hl ip) as [<- | (-> & e)]; [|by right].
    destruct (rate_limits s !! ip) as [[n start]|]; [|by left]. cbn. destruct (decide (t - 300 * second < start)) as [Hlt | Hlt].
    + rewrite option_guard_True by done. by left.
    + rewrite option_guard_False by done. right. split; [done|]. exists n, start. split; [done | lia].
Qed.
Lemma swept_outcomes events t s s' : clocks_increase t events -> swept t s s' ->
  outcomes events s = outcomes (List.filter is_request events) s'.
Proof.
  revert t s s'. induction events as [|[r|now] events IH]; intros t s s' Hc Hs; [done| |]; cbn in Hc |- *.
  - destruct Hc as [Hr Hc]. destruct (swept_serve _ _ _ r Hs) as [Ho Hs1]; [lia|].
    destruct (serve cfg g r s) as [o s1], (serve cfg g r s') as [o' s1']. cbn [fst snd] in *. subst o'. f_equal.
    apply (IH (clock_later r)); [done|]. apply (swept_later t); [done | lia].
  - destruct Hc as [Hn Hc]. apply (IH now); [done|]. apply swept_sweep. apply (swept_later t); [done | lia].
Qed.

(** However often expired sessions and old counters are swept away, every request gets the
    answer that it would get if they were kept for good. *)
Theorem sweeps_are_invisible t events : clocks_increase t events ->
  outcomes events auth_new = outcomes (List.filter is_request events) auth_new.
Proof. intros Hc. apply (swept_outcomes _ t); [done|]. split; [by left..|done]. Qed.
End Sweeper.

(** ** Guessing passwords *)
Section Limits.
Context `{H : Hashes} (cfg : Proxy.DashboardConfig) (g : bool).
Lemma middleware_limits r s : rate_limits (snd (auth_middleware cfg r s)) = rate_limits s.
Proof.
  unfold auth_middleware. destruct (auth_disabled cfg); [done|]. destruct (token_role _ _ _) as [[]|]; try done. by destruct (_ && _).
Qed.
Lemma endpoint_limits e r s : e <> Login -> rate_limits (snd (run_endpoint cfg e r s)) = rate_limits s.
Proof.
  intros He. destruct e; try done; cbn [run_endpoint]; destruct (body r); try done. unfold refresh_token, open_session.
  destruct (tokens s !! _) as [old|]; [|done]. destruct (match expires_at old with Some exp => exp <? clock r | None => false end); [done|].
  by destruct (make_entry _ _ _).
Qed.
(** A request that is no log-in leaves the counters alone. *)
Lemma serve_limits r s : routed_to_login r = false -> rate_limits (snd (serve cfg g r s)) = rate_limits s.
Proof.
  unfold routed_to_login, serve. pose proof (middleware_limits r s) as Hm. destruct (auth_middleware cfg r s) as [v s1]. cbn [snd] in Hm.
  destruct (find_route public (path r)) as [ms|].
  - destruct (method_endpoint ms (method r)) as [e|]; [|done]. intros He. apply endpoint_limits. by intros ->.
  - intros _. destruct (find_route protected (path r)) as [ms|] eqn:Er; [|done].
    destruct (method_endpoint ms (method r)) as [e|] eqn:Em; [destruct v; [done|] | by destruct g, v].
    rewrite endpoint_limits; [done|]. by eapply protected_not_login.
Qed.
End Limits.

(** ** What is open to everybody

    The documentation of the MCP server promises that it asks for the credentials of the
    dashboard; no token is looked at. *)
Theorem mcp_needs_no_session `{Hashes} cfg g r s : path r = bs "/mcp" -> method r = POST ->
  serve cfg g r s = (Handled HandleMcp, s).
Proof. unfold serve. intros -> ->. reflexivity. Qed.

(** A read-only user without a password can log in with the empty one. *)
Theorem readonly_without_password `{Hashes} cfg ip now later token s e :
  Proxy.readonly_username cfg <> [] -> Proxy.readonly_password cfg = [] -> auth_disabled cfg = false ->
  is_admin cfg (Proxy.readonly_username cfg) [] = false ->
  fst (rate_limit cfg ip now s) = false -> make_entry cfg later ReadOnly = Some e ->
  fst (login cfg ip (Proxy.readonly_username cfg) [] now later token s) = Some (OK, Some token).
Proof.
  intros Hu Hp Hd Ha Hw He. unfold login, login_decide, is_readonly. destruct (rate_limit cfg ip now s) as [w s1]. cbn [fst] in Hw. subst w.
  rewrite Hd, Ha, Hp. unfold ct_eq_str. rewrite !beq_refl. destruct (beq (Proxy.readonly_username cfg) []) eqn:E; [by apply beq_true in E|].
  cbn [negb andb]. unfold open_session. by rewrite He.
Qed.

(** ** The theorems at work *)
Section AuthWitnesses.
#[local] Existing Instance sum_hashes.

Definition demo_cfg : Proxy.DashboardConfig :=
  {| Proxy.db_enabled := true; Proxy.db_listen_addr := bs "127.0.0.1:8080"; Proxy.username := bs "admin"; Proxy.password := bs "secret";
     Proxy.readonly_username := bs "viewer"; Proxy.readonly_password := []; Proxy.token_ttl_secs := 3600; Proxy.login_max_attempts := 2 |}.
Definition request (m : Method) (p tok : string) (b : Body) (t : Z) (new : string) : Request :=
  {| method := m; path := bs p; x_auth_token := Some (bs tok); body := b; peer_ip := bs "10.0.0.9"; clock := t; clock_later := t + 1;
     new_token := bs new |}.
Definition log_in (t : Z) (u p new : string) : AuthEvent := Serve (request POST "/api/login" "" (LoginBody (bs u) (bs p)) t new).


Lemma revoked_is_refused_witness :
  let s := after demo_cfg true [log_in 5 "admin" "secret" "tok1"] auth_new in
  fst (serve demo_cfg true (request GET "/api/stats" "tok1" OtherBody 99 "") (after demo_cfg true [Sweep 50; log_in 60 "viewer" "" "tok2"] (snd (logout (bs "tok1") s))))
  = Replied (Some (UNAUTHORIZED, None)).
Proof.
  intros s. apply (revoked_is_refused demo_cfg true (bs "tok1") s (snd (logout (bs "tok1") s)) _ _ [(GET, Stats)] Stats).
  - by vm_compute.
  - by left.
  - repeat (apply List.Forall_cons || apply List.Forall_nil); [done|]. intros E. vm_compute in E. done.
  - done.
  - by vm_compute.
  - by vm_compute.
  - done.
Defined.

Definition busy_minutes : list AuthEvent :=
  [log_in 5 "admin" "wrong" ""; log_in 10 "admin" "wrong" ""; log_in 20 "admin" "secret" "t"; Sweep 30;
   log_in (70 * second) "viewer" "" "t2"; Sweep (4000 * second);
   Serve (request GET "/api/stats" "t2" OtherBody (4001 * second) "")].
Lemma sweeps_are_invisible_witness :
  outcomes demo_cfg true busy_minutes auth_new = outcomes demo_cfg true (List.filter is_request busy_minutes) auth_new /\
  outcomes demo_cfg true busy_minutes auth_new =
    [Replied (Some (UNAUTHORIZED, None)); Replied (Some (UNAUTHORIZED, None)); Replied (Some (TOO_MANY_REQUESTS, None));
     Replied (Some (OK, Some (bs "t2"))); Replied (Some (UNAUTHORIZED, None))].
Proof.
  split; [|by vm_compute]. apply (sweeps_are_invisible demo_cfg true 0). unfold busy_minutes, log_in, request, second. cbn.
  repeat split; lia.
Defined.

Lemma mcp_needs_no_session_witness :
  serve demo_cfg true (request POST "/mcp" "" OtherBody 1 "") auth_new = (Handled HandleMcp, auth_new).
Proof. by apply (mcp_needs_no_session demo_cfg true). Defined.

Lemma readonly_without_password_witness :
  fst (login demo_cfg (bs "10.0.0.9") (bs "viewer") [] 5 6 (bs "t") auth_new) = Some (OK, Some (bs "t")).
Proof.
  eapply (readonly_without_password demo_cfg (bs "10.0.0.9") 5 6 (bs "t") auth_new); try done; by vm_compute.
Defined.

(** The credentials are taken from the file as they are: a reference to a secret is the
    password itself. *)
Example reference_is_the_password :
  let cfg := {| Proxy.db_enabled := true; Proxy.db_listen_addr := []; Proxy.username := bs "admin"; Proxy.password := bs "file:/run/secrets/pw";
                Proxy.readonly_username := []; Proxy.readonly_password := []; Proxy.token_ttl_secs := 0; Proxy.login_max_attempts := 0 |} in
  fst (login cfg [] (bs "admin") (bs "file:/run/secrets/pw") 5 6 (bs "t") auth_new) = Some (OK, Some (bs "t")).
Proof. by vm_compute. Qed.
(** A lifetime beyond the range of the clock makes every log-in panic. *)
Example endless_session_panics :
  let cfg := {| Proxy.db_enabled := true; Proxy.db_listen_addr := []; Proxy.username := bs "admin"; Proxy.password := bs "secret";
                Proxy.readonly_username := []; Proxy.readonly_password := []; Proxy.token_ttl_secs := 2 ^ 64 - 1; Proxy.login_max_attempts := 0 |} in
  fst (login cfg [] (bs "admin") (bs "secret") 5 6 (bs "t") auth_new) = None.
Proof. by vm_compute. Qed.
(** A read-only user may not renew the session. *)
Example read_only_session_ends :
  let s := after demo_cfg true [log_in 5 "viewer" "" "t"] auth_new in
  fst (serve demo_cfg true (request POST "/api/auth/refresh" "t" (TokenBody (bs "t")) 50 "t2") s) = Replied (Some (FORBIDDEN, None)).
Proof. by vm_compute. Qed.
End AuthWitnesses.
