(* ===== verification/Guesses.v ===== *)
(** * Many log-ins at once (src/src/dashboard/routes.rs)

    A log-in takes the lock of the rate limits twice: to look at the counter of its address,
    and to count a wrong password.  Between the two it holds no lock, and other log-ins of
    the same address look at the counter.  DashboardAuth has the two parts and the log-in that
    runs alone ([DashboardAuth.login]); here any number of log-ins take them in any order,
    among the other requests and the sweeps. *)

From S2P Require Import Prelude Bytes Config Auth DashboardAuth.

(** Where a log-in is: before the check of the limit, past it, answered. *)
Inductive Stage := Arrived | Deciding | Answered (reply : Reply).
Record LoginTask := { peer : bytes; user_said : bytes; password_said : bytes; token_made : bytes; stage : Stage }.
Definition at_stage (st : Stage) (t : LoginTask) : LoginTask :=
  {| peer := peer t; user_said := user_said t; password_said := password_said t; token_made := token_made t; stage := st |}.
Record Dash := { auth : AuthState; logins : list LoginTask }.

(** A log-in takes its next part, another request is served, the sweeper runs; each with the
    clock it has read. *)
Inductive DashEvent := Look (i : nat) (now : Z) | Decide (i : nat) (later : Z) | Elsewhere (r : Request) | Sweeping (now : Z).

Section Guesses.
Context `{H : Hashes} (cfg : Proxy.DashboardConfig) (g : bool).

Definition dash_step (d : Dash) (e : DashEvent) : Dash :=
  match e with
  | Look i now =>
      match logins d !! i with
      | Some t => match stage t with
                  | Arrived =>
                      let (wait, s) := rate_limit cfg (peer t) now (auth d) in
                      {| auth := s;
                         logins := <[i := at_stage (if wait then Answered (Some (TOO_MANY_REQUESTS, None)) else Deciding) t]> (logins d) |}
                  | _ => d
                  end
      | None => d
      end
  | Decide i later =>
      match logins d !! i with
      | Some t => match stage t with
                  | Deciding =>
                      let (a, s) := login_decide cfg (peer t) (user_said t) (password_said t) later (token_made t) (auth d) in
                      {| auth := s; logins := <[i := at_stage (Answered a) t]> (logins d) |}
                  | _ => d
                  end
      | None => d
      end
  | Elsewhere r => if routed_to_login r then d else {| auth := snd (serve cfg g r (auth d)); logins := logins d |}
  | Sweeping now => {| auth := sweep now (auth d); logins := logins d |}
  end.
Definition dash_run (events : list DashEvent) (d : Dash) : Dash := foldl dash_step d events.

(** The two parts of a log-in that nothing comes between are the whole log-in. *)
Lemma alone_is_login d i t now later : logins d !! i = Some t -> stage t = Arrived ->
  let d' := dash_run [Look i now; Decide i later] d in
  (stage <$> logins d' !! i, auth d') =
  (Some (Answered (fst (login cfg (peer t) (user_said t) (password_said t) now later (token_made t) (auth d)))),
   snd (login cfg (peer t) (user_said t) (password_said t) now later (token_made t) (auth d))).
Proof.
  intros Ht Hs. pose proof (lookup_lt_Some _ _ _ Ht) as Hi. cbn [dash_run foldl dash_step]. rewrite Ht, Hs. unfold login.
  destruct (rate_limit _ _ _ _) as [wait s]. cbn [logins auth]. rewrite list_lookup_insert_eq by done. destruct wait; cbn [at_stage stage].
  - cbn [logins auth]. by rewrite list_lookup_insert_eq.
  - cbn [peer user_said password_said token_made]. destruct (login_decide _ _ _ _ _ _ _) as [a s']. cbn [logins auth].
    by rewrite list_lookup_insert_eq by (by rewrite length_insert).
Qed.

Section OneAddress.
Variable ip : bytes.
Let attempts : Z := Proxy.login_max_attempts cfg.
Let window : Z := 60 * second.
(** How long ago a clock may have been read: a task reads it before it waits for the lock. *)
Definition stale : Z := 240 * second.

(** A log-in from this address whose credentials were looked at, and were wrong; and one that
    is past the check of the limit and not yet answered. *)
Definition wrong_guess (t : LoginTask) : Z :=
  Z.b2z (beq (peer t) ip && match stage t with Answered (Some (UNAUTHORIZED, _)) => true | _ => false end).
Definition deciding (t : LoginTask) : Z := Z.b2z (beq (peer t) ip && match stage t with Deciding => true | _ => false end).
Definition wrong_guesses (d : Dash) : Z := tally wrong_guess (logins d).
Definition in_flight (d : Dash) : Z := tally deciding (logins d).
(** The most log-ins of this address that were past the check at once. *)
Fixpoint crowd (events : list DashEvent) (d : Dash) : Z :=
  Z.max (in_flight d) match events with [] => 0 | e :: events' => crowd events' (dash_step d e) end.

Definition reading (e : DashEvent) : option Z :=
  match e with Look _ now | Decide _ now | Sweeping now => Some now | Elsewhere _ => None end.
(** Each clock was read not long before its step, and between [t0] and [u]. *)
Fixpoint clocks_fresh (t0 t : Z) (events : list DashEvent) (u : Z) : Prop :=
  match events with
  | [] => True
  | e :: events' =>
      match reading e with
      | Some now => Z.max t0 (t - stale) <= now <= u /\ clocks_fresh t0 (Z.max t now) events' u
      | None => clocks_fresh t0 t events' u
      end
  end.

(** [n] guesses so far since [t0], [p] under way, and never more than [most] at once. *)
Definition windows (t0 t : Z) : Z := (t - t0) / window.
Definition within_limit (most t0 t n p : Z) (s : AuthState) : Prop :=
  t0 <= t /\ 0 <= p <= most /\
  match rate_limits s !! ip with
  | Some (k, start) => t0 <= start <= t /\ 0 <= k /\ k + p <= attempts - 1 + most /\ n <= (attempts - 1 + most) * windows t0 start + k
  | None => n <= (attempts - 1 + most) * windows t0 (Z.max t0 (t - stale))
  end.

Lemma windows_mono t0 t u : t <= u -> windows t0 t <= windows t0 u.
Proof. intros ?. apply Z.div_le_mono; unfold window, second; lia. Qed.
Lemma windows_next t0 t u : t + window <= u -> windows t0 t + 1 <= windows t0 u.
Proof.
  intros ?. unfold windows. transitivity ((t - t0 + 1 * window) / window).
  - by rewrite Z.div_add by (unfold window, second; lia).
  - apply Z.div_le_mono; unfold window, second in *; lia.
Qed.

Section Limit.
Variables (most t0 : Z).
Hypothesis (Ha : 0 < attempts) (Hw : in_width 32 attempts) (Hm : 0 <= most) (Hmw : attempts - 1 + most < 2 ^ 32).

Lemma within_later t u n p s : within_limit most t0 t n p s -> t <= u -> within_limit most t0 u n p s.
Proof.
  unfold within_limit. intros (? & ? & Hl) Hu. split; [lia|]. split; [lia|].
  pose proof (windows_mono t0 (Z.max t0 (t - stale)) (Z.max t0 (u - stale)) ltac:(lia)).
  destruct (rate_limits s !! ip) as [[k start]|]; [destruct Hl as (? & ? & ? & ?); split_and!; lia | nia].
Qed.
(** The entry that a check of the limit looks at and leaves behind. *)
Lemma entry_within t now n p s : within_limit most t0 t n p s -> Z.max t0 (t - stale) <= now ->
  let e := rate_entry ip now s in
  t0 <= snd e <= Z.max t now /\ 0 <= fst e /\ fst e + p <= attempts - 1 + most /\ n <= (attempts - 1 + most) * windows t0 (snd e) + fst e.
Proof.
  unfold within_limit, rate_entry. intros (? & ? & Hl) Ht. destruct (rate_limits s !! ip) as [[k start]|]; cbn [default from_option id].
  - destruct Hl as ([? ?] & ? & ? & ?). destruct (Z.ltb_spec (60 * second) (sat_sub now start)) as [Hlt|]; cbn [fst snd]; [|split_and!; lia].
    pose proof (windows_next t0 start now). unfold sat_sub, window, second in *. split_and!; [lia..|nia].
  - assert (n <= (attempts - 1 + most) * windows t0 now) by (pose proof (windows_mono t0 _ now Ht); nia).
    destruct (60 * second <? sat_sub now now); cbn [fst snd]; split_and!; lia.
Qed.
Lemma set_entry_within t n p s k start : within_limit most t0 t n p s -> forall u n' p', t <= u -> 0 <= p' <= most -> t0 <= start <= u ->
  0 <= k -> k + p' <= attempts - 1 + most -> n' <= (attempts - 1 + most) * windows t0 start + k ->
  within_limit most t0 u n' p' (set_rate_limits (<[ip := (k, start)]> (rate_limits s)) s).
Proof.
  intros (? & _) u n' p' ? ? ? ? ? ?. unfold within_limit. cbn [rate_limits set_rate_limits]. rewrite lookup_insert_eq. split_and!; lia.
Qed.
Lemma fewer_within t n p p' s : within_limit most t0 t n p s -> 0 <= p' <= p -> within_limit most t0 t n p' s.
Proof.
  intros (? & ? & Hl) ?. split; [done|]. split; [lia|].
  destruct (rate_limits s !! ip) as [[k start]|]; [destruct Hl as (? & ? & ? & ?); split_and!; lia | lia].
Qed.
Lemma same_limits_within t n p s s' : rate_limits s' !! ip = rate_limits s !! ip ->
  within_limit most t0 t n p s -> within_limit most t0 t n p s'.
Proof. unfold within_limit. by intros ->. Qed.

Lemma check_within t now n p s : within_limit most t0 t n p s -> Z.max t0 (t - stale) <= now ->
  let (wait, s') := rate_limit cfg ip now s in
  within_limit most t0 (Z.max t now) n p s' /\ (wait = false -> p + 1 <= most -> within_limit most t0 (Z.max t now) n (p + 1) s').
Proof.
  intros Hs Hnow. unfold rate_limit. fold attempts. rewrite (proj2 (Z.ltb_lt 0 attempts) Ha).
  destruct (entry_within t now n p s Hs Hnow) as (H1 & H2 & H3 & H4). destruct (rate_entry ip now s) as [k start]. cbn [fst snd] in *.
  pose proof Hs as (_ & ? & _). split; [eapply (set_entry_within t n p); [exact Hs | lia..]|]. intros Hk%Z.leb_gt Hp.
  eapply (set_entry_within t n p); [exact Hs | lia..].
Qed.
Lemma decide_within t later u pw tok n p s : within_limit most t0 t n p s -> Z.max t0 (t - stale) <= later -> 0 < p ->
  let r := login_decide cfg ip u pw later tok s in
  within_limit most t0 (Z.max t later) (n + Z.b2z match fst r with Some (UNAUTHORIZED, _) => true | _ => false end) (p - 1) (snd r).
Proof.
  intros Hs Hl Hp. unfold login_decide.
  assert (forall rl, let r := open_session cfg later tok rl s in
    within_limit most t0 (Z.max t later) (n + Z.b2z match fst r with Some (UNAUTHORIZED, _) => true | _ => false end) (p - 1) (snd r)) as Ho.
  { intros rl. unfold open_session. assert (within_limit most t0 (Z.max t later) n (p - 1) s) as Hs'
      by (eapply fewer_within; [apply (within_later t); [done | lia] | lia]).
    destruct (make_entry _ _ _); cbn [fst snd Z.b2z]; by rewrite Z.add_0_r. }
  destruct (auth_disabled cfg); [apply Ho|]. destruct (is_admin cfg u pw); [apply Ho|]. destruct (is_readonly cfg u pw); [apply Ho|].
  cbn [fst snd Z.b2z]. apply (same_limits_within _ _ _ (count_attempt cfg ip later s)); [done|].
  unfold count_attempt. fold attempts. rewrite (proj2 (Z.ltb_lt 0 attempts) Ha).
  pose proof Hs as (? & ? & He). destruct (rate_limits s !! ip) as [[k start]|]; cbn [default from_option id].
  - destruct He as (? & ? & ? & ?). assert (u32 (k + 1) = k + 1) as -> by (apply wrap_small; unfold in_width; lia).
    eapply (set_entry_within t n p); [exact Hs | lia..].
  - pose proof (windows_mono t0 _ later Hl). eapply (set_entry_within t n p); [exact Hs|..]; try (change (u32 (0 + 1)) with 1); nia.
Qed.
Lemma sweep_within t now n p s : within_limit most t0 t n p s -> Z.max t0 (t - stale) <= now ->
  within_limit most t0 (Z.max t now) n p (sweep now s).
Proof.
  intros Hs Ht. apply (within_later t (Z.max t now)) in Hs; [|lia]. destruct Hs as (H0 & Hp & Hs). split; [done|]. split; [done|].
  cbn [rate_limits sweep]. rewrite map_lookup_filter. destruct (rate_limits s !! ip) as [[k start]|]; [|done]. cbn.
  destruct (decide (now - 300 * second < start)) as [Hlt | Hlt].
  - by rewrite option_guard_True.
  - rewrite option_guard_False by done. cbn. destruct Hs as (? & ? & ? & Hn).
    pose proof (windows_next t0 start (Z.max t0 (Z.max t now - stale))) as Hx. unfold stale, window, second in *. nia.
Qed.

(** Log-ins of other addresses. *)
Lemma other_check i now s : i <> ip -> rate_limits (snd (rate_limit cfg i now s)) !! ip = rate_limits s !! ip.
Proof. intros Hi. unfold rate_limit. destruct (0 <? _); [|done]. cbn. by rewrite lookup_insert_ne. Qed.
Lemma other_decide i u pw later tok s : i <> ip -> rate_limits (snd (login_decide cfg i u pw later tok s)) !! ip = rate_limits s !! ip.
Proof.
  intros Hi. unfold login_decide. assert (forall rl, rate_limits (snd (open_session cfg later tok rl s)) = rate_limits s) as Ho.
  { intros rl. unfold open_session. by destruct (make_entry _ _ _). }
  destruct (auth_disabled cfg), (is_admin cfg u pw), (is_readonly cfg u pw); try (by rewrite Ho).
  cbn. unfold count_attempt. destruct (0 <? _); [|done]. destruct (default _ _). cbn. by rewrite lookup_insert_ne.
Qed.

Definition dash_within (t : Z) (d : Dash) : Prop := within_limit most t0 t (wrong_guesses d) (in_flight d) (auth d).

Lemma task_counts d i t st : logins d !! i = Some t ->
  let d' l := {| auth := l; logins := <[i := at_stage st t]> (logins d) |} in
  (forall s, wrong_guesses (d' s) = wrong_guesses d - wrong_guess t + wrong_guess (at_stage st t)) /\
  (forall s, in_flight (d' s) = in_flight d - deciding t + deciding (at_stage st t)).
Proof. intros Ht. split; intros s; unfold wrong_guesses, in_flight; cbn [logins]; by rewrite (tally_insert _ _ _ _ _ Ht). Qed.
Lemma in_flight_pos d i t : logins d !! i = Some t -> deciding t <= in_flight d.
Proof.
  intros Ht. unfold in_flight. pose proof (tally_insert deciding (logins d) i t (at_stage Arrived t) Ht) as E.
  assert (deciding (at_stage Arrived t) = 0) as E0 by (unfold deciding; cbn; by rewrite andb_false_r).
  pose proof (tally_nonneg deciding (<[i:=at_stage Arrived t]> (logins d))) as Hn. unfold deciding at 1 in Hn.
  specialize (Hn ltac:(intros x; destruct (_ && _); cbn; lia)). lia.
Qed.

Lemma check_step t d i now : dash_within t d -> Z.max t0 (t - stale) <= now -> in_flight (dash_step d (Look i now)) <= most ->
  dash_within (Z.max t now) (dash_step d (Look i now)).
Proof.
  intros Hd Hnow Hmost. unfold dash_within. cbn [dash_step] in *.
  destruct (logins d !! i) as [lt|] eqn:El; [|apply (within_later t); [done | lia]].
  destruct (stage lt) eqn:Es; try (apply (within_later t); [done | lia]).
  assert (wrong_guess lt = 0 /\ deciding lt = 0) as [Ew Ed] by (unfold wrong_guess, deciding; rewrite Es; by rewrite andb_false_r).
  pose proof (other_check (peer lt) now (auth d)) as Hother. pose proof (check_within t now _ _ _ Hd Hnow) as Hc.
  destruct (rate_limit cfg (peer lt) now (auth d)) as [wait s] eqn:Er. cbn [snd] in Hother.
  destruct (task_counts d i lt (if wait then Answered (Some (TOO_MANY_REQUESTS, None)) else Deciding) El) as [E1 E2].
  cbn [auth]. rewrite E1, E2 in *. rewrite Ew, Ed in *.
  unfold wrong_guess, deciding in *. cbn [peer stage at_stage] in *. destruct (beq (peer lt) ip) eqn:Ei; cbn [andb] in *.
  - apply beq_true in Ei. rewrite <- Ei, Er in Hc. destruct Hc as [Hc1 Hc2]. rewrite Ei in *.
    destruct wait; cbn [Z.b2z] in *; rewrite ?Z.sub_0_r, ?Z.add_0_r in *; [exact Hc1 | by apply Hc2].
  - assert (peer lt <> ip) as Hne by (intros E; by rewrite (proj2 (beq_true _ _) E) in Ei).
    cbn [Z.b2z]. rewrite !Z.sub_0_r, !Z.add_0_r. eapply same_limits_within; [by apply Hother | apply (within_later t); [done | lia]].
Qed.
Lemma decide_step t d i later : dash_within t d -> Z.max t0 (t - stale) <= later ->
  dash_within (Z.max t later) (dash_step d (Decide i later)).
Proof.
  intros Hd Hnow. unfold dash_within. cbn [dash_step].
  destruct (logins d !! i) as [lt|] eqn:El; [|apply (within_later t); [done | lia]].
  destruct (stage lt) eqn:Es; try (apply (within_later t); [done | lia]).
  pose proof (in_flight_pos d i lt El) as Hpos.
  assert (wrong_guess lt = 0) as Ew by (unfold wrong_guess; rewrite Es; by rewrite andb_false_r).
  pose proof (other_decide (peer lt) (user_said lt) (password_said lt) later (token_made lt) (auth d)) as Hother.
  pose proof (decide_within t later (user_said lt) (password_said lt) (token_made lt) _ _ _ Hd Hnow) as Hc.
  destruct (login_decide cfg (peer lt) _ _ _ _ _) as [a s] eqn:Er. cbn [snd] in Hother.
  destruct (task_counts d i lt (Answered a) El) as [E1 E2]. cbn [auth]. rewrite E1, E2, Ew. clear E1 E2.
  unfold wrong_guess, deciding in *. rewrite Es in Hpos |- *. cbn [peer stage at_stage]. destruct (beq (peer lt) ip) eqn:Ei; cbn [andb Z.b2z] in *.
  - apply beq_true in Ei. rewrite <- Ei, Er in Hc. specialize (Hc ltac:(lia)). cbn [fst snd] in Hc.
    rewrite Z.sub_0_r, Z.add_0_r. exact Hc.
  - assert (peer lt <> ip) as Hne by (intros E; by rewrite (proj2 (beq_true _ _) E) in Ei).
    rewrite !Z.sub_0_r, !Z.add_0_r. eapply same_limits_within; [by apply Hother | apply (within_later t); [done | lia]].
Qed.
Lemma dash_run_within events : forall t d u, dash_within t d -> t <= u -> clocks_fresh t0 t events u -> crowd events d <= most ->
  exists t', t' <= u /\ dash_within t' (dash_run events d).
Proof.
  induction events as [|e events IH]; intros t d u Hd Htu Hc Hcr; [by exists t|]. cbn [dash_run foldl]. cbn [crowd clocks_fresh] in *.
  assert (in_flight (dash_step d e) <= most) as Hmost by (destruct events; cbn [crowd] in *; lia).
  assert (crowd events (dash_step d e) <= most) as Hcr' by lia.
  destruct e as [i now|i now|r|now]; cbn [reading] in Hc.
  - destruct Hc as [Hn Hc]. eapply IH; [apply (check_step t); [done | by apply Hn | done] | lia | done | done].
  - destruct Hc as [Hn Hc]. eapply IH; [apply (decide_step t); [done | by apply Hn] | lia | done | done].
  - eapply IH; [|done..]. cbn [dash_step]. destruct (routed_to_login r) eqn:Er; [done|].
    unfold dash_within in *. cbn [auth]. eapply same_limits_within; [by rewrite serve_limits | exact Hd].
  - destruct Hc as [Hn Hc]. apply (IH (Z.max t now) _ u); [|lia|done..]. apply (sweep_within t); [exact Hd | by apply Hn].
Qed.
End Limit.

Lemma crowd_ge events d : in_flight d <= crowd events d.
Proof. destruct events; cbn [crowd]; lia. Qed.

(** C34: The passwords that can be tried from one address, however the log-ins from it and
    everything else interleave: in a stretch of time, for each minute that has begun, there
    are at most [login_max_attempts] wrong ones and one more for each further log-in that was
    past the check of the limit at the same time; so with one log-in at a time there are at
    most [login_max_attempts].  The stretch begins with no attempt counted, the limit is on,
    and no task acts on a clock it read more than four minutes before (the sweeper forgets an
    address after five). *)
Theorem guesses_are_limited t0 u tasks events :
  0 < attempts -> t0 <= u -> Forall (fun t => stage t = Arrived) tasks ->
  clocks_fresh t0 t0 events u ->
  let d := {| auth := auth_new; logins := tasks |} in
  attempts - 1 + crowd events d < 2 ^ 32 ->
  wrong_guesses (dash_run events d) <= (attempts - 1 + crowd events d) * ((u - t0) / (60 * second) + 1).
Proof.
  intros Ha Hu Ht Hc d Hw.
  assert (wrong_guesses d = 0 /\ in_flight d = 0) as [E1 E2].
  { split; apply tally_zero; (eapply Forall_impl; [|exact Ht]); cbn; intros t Es; unfold wrong_guess, deciding; rewrite Es; by rewrite andb_false_r. }
  pose proof (crowd_ge events d) as Hg. rewrite E2 in Hg.
  destruct (dash_run_within (crowd events d) t0 Ha Hg Hw events t0 d u) as (t' & Ht' & H0 & Hp & Hl); [|done..|].
  - unfold dash_within, within_limit. rewrite E1, E2. cbn [auth d auth_new rate_limits]. rewrite lookup_empty. split_and!; [lia..|].
    replace (Z.max t0 (t0 - stale)) with t0 by (unfold stale, second; lia). unfold windows. rewrite Z.sub_diag, Zdiv.Zdiv_0_l. lia.
  - change ((u - t0) / (60 * second)) with (windows t0 u). destruct (rate_limits _ !! ip) as [[k start]|].
    + pose proof (windows_mono t0 start u). nia.
    + pose proof (windows_mono t0 (Z.max t0 (t' - stale)) u). unfold stale, second in *. nia.
Qed.
End OneAddress.
End Guesses.

(** ** The theorem at work *)

Section Parallel.
#[local] Existing Instance sum_hashes.

Definition guess (pw : string) : LoginTask :=
  {| peer := bs "10.0.0.9"; user_said := bs "admin"; password_said := bs pw; token_made := bs "t"; stage := Arrived |}.
Definition five : list LoginTask := [guess "a"; guess "b"; guess "c"; guess "d"; guess "e"].
Definition in_turn : list DashEvent :=
  [Look 0 5; Decide 0 6; Look 1 7; Decide 1 8; Look 2 9; Decide 2 9; Sweeping 10; Look 3 11; Look 4 12].
Definition at_once : list DashEvent :=
  [Look 0 5; Look 1 5; Look 2 5; Look 3 5; Look 4 5; Decide 4 6; Decide 3 6; Decide 2 6; Decide 1 6; Decide 0 6].
Definition start : Dash := {| auth := auth_new; logins := five |}.

Lemma guesses_are_limited_witness :
  wrong_guesses (bs "10.0.0.9") (dash_run demo_cfg true in_turn start) <= (2 - 1 + 1) * ((12 - 0) / (60 * second) + 1).
Proof.
  assert (crowd demo_cfg true (bs "10.0.0.9") in_turn start = 1) as <- by (vm_compute; reflexivity).
  apply (guesses_are_limited demo_cfg true (bs "10.0.0.9") 0 12 five in_turn).
  - done.
  - done.
  - repeat constructor.
  - cbn. unfold stale, second. repeat split; lia.
  - vm_compute. reflexivity.
Defined.

(** With a limit of two a minute five passwords that come at once are all looked at. *)
Example parallel_guesses :
  wrong_guesses (bs "10.0.0.9") (dash_run demo_cfg true at_once start) = 5 /\
  wrong_guesses (bs "10.0.0.9") (dash_run demo_cfg true in_turn start) = 2.
Proof. by vm_compute. Qed.
End Parallel.
