(* ===== verification/ConfigAdmin.v ===== *)
(** * Changing the running proxy (src/src/dashboard/routes_config.rs, src/src/dashboard/routes.rs)

    The handlers of the dashboard that change something: the rules, rewrite rules, backends
    and users of the configuration store, import and export, the reloads from the
    configuration file, the synchronisation of the nodes of a cluster, manual failover, and
    the reset of the counters.  Their theorems are in ConfigAdminProps.

    Pools of backends are shared: the dashboard keeps the pool that the server started with,
    each router the one it uses, and a reload gives the router a new one.  So [pools] lists
    every pool there ever was, and the fields name one by its index.  The engines of rules and
    rewrite rules are one object each, which the routers share.  What is sent to the peers of
    a cluster is collected in [outbox]. *)

From S2P Require Import Prelude Bytes Config CircuitBreaker Rules Rewriter Pool Health DashboardAuth ConfigStore.

(** What the derived [Deserialize] of [ProxyConfig] makes of a file: it has no [shared]
    section, and [mysql_enabled] is skipped. *)
Definition derive_proxy (raw : Proxy.RawProxyConfig) : option Proxy.ProxyConfig :=
  p ← Proxy.raw_primary raw;
  Some {| Proxy.mysql_enabled := false;
          Proxy.listen_addr := default Proxy.default_listen_addr (Proxy.raw_listen_addr raw);
          Proxy.max_connections := default Proxy.default_max_connections (Proxy.raw_max_connections raw);
          Proxy.pool_size := default Proxy.default_pool_size (Proxy.raw_pool_size raw);
          Proxy.primary := p; Proxy.replicas := Proxy.raw_replicas raw; Proxy.users := Proxy.raw_users raw;
          Proxy.auth_cache_ttl_secs := default Proxy.default_auth_cache_ttl (Proxy.raw_auth_cache_ttl_secs raw);
          Proxy.connection_max_idle_secs :=
            default Proxy.default_connection_max_idle_secs (Proxy.raw_connection_max_idle_secs raw);
          Proxy.read_your_own_writes_ms := default 0 (Proxy.raw_read_your_own_writes_ms raw);
          Proxy.query_whitelist := Proxy.raw_query_whitelist raw;
          Proxy.sql_injection_protection := default false (Proxy.raw_sql_injection_protection raw);
          Proxy.audit_log := default [] (Proxy.raw_audit_log raw);
          Proxy.settings := Proxy.raw_settings raw; Proxy.pgsql := Proxy.raw_pgsql raw |}.

(** The parser of TOML, for the raw structure and for [ProxyConfig] itself; the error of the
    second is its text. *)
Class TomlParser := {
  toml_raw : bytes -> option Proxy.RawProxyConfig;
  toml_proxy : bytes -> result bytes Proxy.ProxyConfig
}.
(** A text that has the raw structure has the derived one, unless it lacks the primary. *)
Class TomlLaws (T : TomlParser) : Prop := {
  toml_proxy_ok s raw c : toml_raw s = Some raw -> toml_proxy s = Ok c <-> derive_proxy raw = Some c
}.

(** ** Export

    [format!("{:?}")] of a string: what becomes of a character outside ASCII depends on
    tables of Unicode. *)
Class DebugTable := { debug_wide : bytes -> bytes }.
Definition hex_lower (b : Z) : bytes := if b <? 16 then [hex_digit b] else [hex_digit (b / 16); hex_digit (b mod 16)].
Definition debug_ascii (b : Z) : bytes :=
  if b =? 0 then bs "\0" else if b =? 9 then bs "\t" else if b =? 10 then bs "\n" else if b =? 13 then bs "\r"
  else if (b =? dquote) || (b =? ch "\") then [ch "\"; b]
  else if (b <? 32) || (b =? 127) then bs "\u{" ++ hex_lower b ++ bs "}"
  else [b].
Fixpoint debug_chars `{DebugTable} (fuel : nat) (s : bytes) : bytes :=
  match fuel, s with
  | O, _ | _, [] => []
  | S fuel', b :: s' =>
      if b <? 128 then debug_ascii b ++ debug_chars fuel' s'
      else debug_wide (take (lead_len b) s) ++ debug_chars fuel' (drop (lead_len b) s)
  end.
Definition debug_str `{DebugTable} (s : bytes) : bytes := [dquote] ++ debug_chars (length s) s ++ [dquote].

Section ExportText.
Context `{DT : DebugTable}.
Definition nl : bytes := [10].
Definition show_i64 (z : Z) : bytes := if z <? 0 then bs "-" ++ show_u64 (- z) else show_u64 z.
(** [key = value] *)
Definition line (key : string) (value : bytes) : bytes := bs key ++ bs " = " ++ value ++ nl.
Definition opt_line {A} (key : string) (f : A -> bytes) (o : option A) : bytes :=
  match o with Some a => line key (f a) | None => [] end.
Definition line_if (b : bool) (key : string) (value : bytes) : bytes := if b then line key value else [].
Definition password_line : bytes :=
  bs "password = " ++ [dquote] ++ bs "***" ++ [dquote] ++ bs "  # passwords are not exported for security" ++ nl.

Definition export_rule (r : RuleRow) : bytes :=
  bs "[[query_rules]]" ++ nl ++ opt_line "match_pattern" debug_str (ru_match_pattern r)
  ++ opt_line "match_digest" debug_str (ru_match_digest r) ++ line_if (negb (beq (ru_user r) [])) "user" (debug_str (ru_user r))
  ++ line "destination" (debug_str (ru_destination r)) ++ line_if (negb (beq (ru_comment r) [])) "comment" (debug_str (ru_comment r)) ++ nl.
Definition export_rewrite_rule (r : RewriteRuleRow) : bytes :=
  bs "[[rewrite_rules]]" ++ nl ++ line "match_pattern" (debug_str (rr_match_pattern r))
  ++ opt_line "replace_with" debug_str (rr_replace_with r) ++ opt_line "add_limit" show_i64 (rr_add_limit r)
  ++ opt_line "add_timeout_ms" show_i64 (rr_add_timeout_ms r) ++ line_if (rr_block r) "block" (bs "true")
  ++ line_if (negb (beq (rr_comment r) [])) "comment" (debug_str (rr_comment r)) ++ nl.
Definition export_backend (b : BackendRow) : bytes :=
  (if beq (be_role b) (bs "primary") then bs "[primary]" else bs "[[replicas]]") ++ nl
  ++ line "addr" (debug_str (be_addr b)) ++ line "user" (debug_str (be_user b)) ++ password_line
  ++ line_if (be_backup b) "backup" (bs "true") ++ line_if (negb (be_weight b =? 100)) "weight" (show_i64 (be_weight b)) ++ nl.
Definition export_user (u : UserRow) : bytes :=
  bs "[[users]]" ++ nl ++ line "name" (debug_str (us_name u)) ++ password_line
  ++ line_if (negb (us_allow_writes u)) "allow_writes" (bs "false")
  ++ line_if (0 <? us_max_connections u) "max_connections" (show_i64 (us_max_connections u)) ++ nl.
Definition export_text (rs : list RuleRow) (ws : list RewriteRuleRow) (bks : list BackendRow) (us : list UserRow) : bytes :=
  bs "# TurbineProxy runtime config export" ++ nl ++ nl ++ concat (map export_rule rs) ++ concat (map export_rewrite_rule ws)
  ++ concat (map export_backend bks) ++ concat (map export_user us).
End ExportText.

(** ** The state of the dashboard *)

(** The counters that the dashboard resets, and those that it does not. *)
Record ProxyMetrics := {
  connections_total : Z; connections_active : Z; queries_total : Z; queries_read : Z; queries_write : Z;
  sqli_blocked : Z; whitelist_blocked : Z; transactions_killed : Z
}.

(** Why a handler does not answer as asked: 400 with a text, or a panic. *)
Inductive ApiError :=
| StoreError (e : DbError) | BadRule (index : nat) | InvalidRegex (pattern : bytes) | InvalidProtocol (given : bytes)
| NoPrimary | PgsqlNotEnabled | PgsqlDisabledInConfig | TomlError (text : bytes).
Inductive Failure := Refused (e : ApiError) | Panicked.

Section Admin.
Context {W C : Type} `{RE : RegexEngine} `{ENV : Environment} `{SC : SecretCodec} `{SQ : Sqlite} `{TP : TomlParser}.
(** Connections of the two protocols, the cluster settings at the start and the path of the
    configuration file. *)
Context (my_io pg_io : BackendIO W C) (cluster : Proxy.ClusterConfig) (config_path : bytes).

Record AppState := {
  pools : list (BackendPool C);
  pool : nat;                          (* [state.pool] *)
  serving : nat;                       (* the pool of [proxy_router] *)
  pg_serving : option nat;             (* the pool of [pg_proxy_router] *)
  rule_engine : list Rules.CompiledRule;
  rewriter : list Rewriter.CompiledRule;
  config_store : option Db;
  proxy_config : Proxy.ProxyConfig;
  last_reload_secs : Z;
  config_export_ts : Z;
  config_mutation_ts : Z;
  metrics : ProxyMetrics;
  outbox : list (bytes * bytes * bytes);  (* URL, secret and configuration *)
  world : W
}.

Definition set_rule_engine (x : list Rules.CompiledRule) (s : AppState) : AppState :=
  {| pools := pools s; pool := pool s; serving := serving s; pg_serving := pg_serving s; rule_engine := x; rewriter := rewriter s;
     config_store := config_store s; proxy_config := proxy_config s; last_reload_secs := last_reload_secs s;
     config_export_ts := config_export_ts s; config_mutation_ts := config_mutation_ts s; metrics := metrics s; outbox := outbox s;
     world := world s |}.
Definition set_rewriter (x : list Rewriter.CompiledRule) (s : AppState) : AppState :=
  {| pools := pools s; pool := pool s; serving := serving s; pg_serving := pg_serving s; rule_engine := rule_engine s; rewriter := x;
     config_store := config_store s; proxy_config := proxy_config s; last_reload_secs := last_reload_secs s;
     config_export_ts := config_export_ts s; config_mutation_ts := config_mutation_ts s; metrics := metrics s; outbox := outbox s;
     world := world s |}.
Definition set_config_store (x : option Db) (s : AppState) : AppState :=
  {| pools := pools s; pool := pool s; serving := serving s; pg_serving := pg_serving s; rule_engine := rule_engine s;
     rewriter := rewriter s; config_store := x; proxy_config := proxy_config s; last_reload_secs := last_reload_secs s;
     config_export_ts := config_export_ts s; config_mutation_ts := config_mutation_ts s; metrics := metrics s; outbox := outbox s;
     world := world s |}.
Definition set_proxy_config (x : Proxy.ProxyConfig) (s : AppState) : AppState :=
  {| pools := pools s; pool := pool s; serving := serving s; pg_serving := pg_serving s; rule_engine := rule_engine s;
     rewriter := rewriter s; config_store := config_store s; proxy_config := x; last_reload_secs := last_reload_secs s;
     config_export_ts := config_export_ts s; config_mutation_ts := config_mutation_ts s; metrics := metrics s; outbox := outbox s;
     world := world s |}.
Definition set_stamps (reload export mutation : Z) (s : AppState) : AppState :=
  {| pools := pools s; pool := pool s; serving := serving s; pg_serving := pg_serving s; rule_engine := rule_engine s;
     rewriter := rewriter s; config_store := config_store s; proxy_config := proxy_config s; last_reload_secs := reload;
     config_export_ts := export; config_mutation_ts := mutation; metrics := metrics s; outbox := outbox s; world := world s |}.
Definition set_metrics (x : ProxyMetrics) (s : AppState) : AppState :=
  {| pools := pools s; pool := pool s; serving := serving s; pg_serving := pg_serving s; rule_engine := rule_engine s;
     rewriter := rewriter s; config_store := config_store s; proxy_config := proxy_config s; last_reload_secs := last_reload_secs s;
     config_export_ts := config_export_ts s; config_mutation_ts := config_mutation_ts s; metrics := x; outbox := outbox s;
     world := world s |}.
Definition set_outbox (x : list (bytes * bytes * bytes)) (s : AppState) : AppState :=
  {| pools := pools s; pool := pool s; serving := serving s; pg_serving := pg_serving s; rule_engine := rule_engine s;
     rewriter := rewriter s; config_store := config_store s; proxy_config := proxy_config s; last_reload_secs := last_reload_secs s;
     config_export_ts := config_export_ts s; config_mutation_ts := config_mutation_ts s; metrics := metrics s; outbox := x;
     world := world s |}.
(** The pools, and which of them the routers use. *)
Definition set_serving (ps : list (BackendPool C)) (my : nat) (pg : option nat) (w : W) (s : AppState) : AppState :=
  {| pools := ps; pool := pool s; serving := my; pg_serving := pg; rule_engine := rule_engine s; rewriter := rewriter s;
     config_store := config_store s; proxy_config := proxy_config s; last_reload_secs := last_reload_secs s;
     config_export_ts := config_export_ts s; config_mutation_ts := config_mutation_ts s; metrics := metrics s; outbox := outbox s;
     world := w |}.

Local Abbreviation App := (SE AppState Failure).
Definition clock_ms (w : W) : Z := @unix_ms W C my_io w.
Definition clock_secs (w : W) : Z := clock_ms w / 1000.

(** ** Access to the store *)

(** [s.config_store.as_ref().unwrap()] and a call; without analytics there is no store. *)
Definition ask_store {A} (m : DB A) : App (result DbError A) := fun s =>
  match config_store s with
  | None => (Err Panicked, s)
  | Some d => let (r, d') := m d in (Ok r, set_config_store (Some d') s)
  end.
Definition require_store : App unit := s ← se_get; match config_store s with None => se_fail Panicked | Some _ => mret tt end.
Definition on_store {A} (m : DB A) : App A :=
  r ← ask_store m; match r with Ok a => mret a | Err e => se_fail (Refused (StoreError e)) end.
Definition list_or_default {A} (m : DB (list A)) : App (list A) :=
  r ← ask_store m; mret (match r with Ok l => l | Err _ => [] end).

Definition refuse {A} (e : ApiError) : App A := se_fail (Refused e).
Definition bump_mutation : App unit :=
  se_modify (fun s => set_stamps (last_reload_secs s) (config_export_ts s) (clock_ms (world s)) s).
(** The author of a change, from the header [X-Forwarded-For]. *)
Definition client_ip (x_forwarded_for : option bytes) : bytes :=
  match x_forwarded_for ≫= header_text with
  | Some v => trim (default [] (head (split_on (ch ",") v)))
  | None => bs "unknown"
  end.

(** ** Applying the store to the running proxy *)

Definition reload_rule_engine (rules : list QueryRuleConfig) : App unit := fun s =>
  let (r, inner) := Rules.reload_from_slice rules (rule_engine s) in
  (match r with Ok _ => Ok tt | Err i => Err (Refused (BadRule i)) end, set_rule_engine inner s).
Definition reload_rewriter (rules : list QueryRewriteConfig) : App unit := fun s =>
  let (r, inner) := Rewriter.reload_from_slice rules (rewriter s) in
  (match r with Ok _ => Ok tt | Err i => Err (Refused (BadRule i)) end, set_rewriter inner s).
Definition apply_rules : App unit := rules ← on_store active_query_rules; reload_rule_engine rules.
Definition apply_rewrite_rules : App unit := rules ← on_store active_rewrite_rules; reload_rewriter rules.

Definition idle_timeout (secs : Z) : option Z := if secs =? 0 then None else Some (secs * second).
(** [BackendPool::with_idle_timeout] *)
Definition with_idle_timeout (primary : BackendConfig) (replicas : list BackendConfig) (size : Z) (idle : option Z) : BackendPool C :=
  with_options primary replicas (Z.to_nat size) idle 5 10000 0 5000.
(** The pool that a whole configuration asks for. *)
Definition configured_pool (c : Proxy.ProxyConfig) : BackendPool C :=
  with_options (Proxy.primary c) (Proxy.replicas c) (Z.to_nat (Proxy.pool_size c)) (idle_timeout (Proxy.connection_max_idle_secs c))
    (Proxy.circuit_breaker_threshold (Proxy.ha (Proxy.settings c))) (Proxy.circuit_breaker_recovery_ms (Proxy.ha (Proxy.settings c)))
    (Proxy.pool_wait_queue_size (Proxy.settings c)) (Proxy.pool_wait_timeout_ms (Proxy.settings c)).

(** [Router::reload_pool] of the one and the other router. *)
Definition reload_pool (p : BackendPool C) : App unit :=
  se_modify (fun s => set_serving (pools s ++ [p]) (length (pools s)) (pg_serving s) (world s) s).
Definition reload_pg_pool (p : BackendPool C) : App unit :=
  se_modify (fun s => set_serving (pools s ++ [p]) (serving s) (Some (length (pools s))) (world s) s).

Definition with_backends (p : BackendConfig) (rs : list BackendConfig) (c : Proxy.ProxyConfig) : Proxy.ProxyConfig :=
  {| Proxy.mysql_enabled := Proxy.mysql_enabled c; Proxy.listen_addr := Proxy.listen_addr c;
     Proxy.max_connections := Proxy.max_connections c; Proxy.pool_size := Proxy.pool_size c; Proxy.primary := p; Proxy.replicas := rs;
     Proxy.users := Proxy.users c; Proxy.auth_cache_ttl_secs := Proxy.auth_cache_ttl_secs c;
     Proxy.connection_max_idle_secs := Proxy.connection_max_idle_secs c;
     Proxy.read_your_own_writes_ms := Proxy.read_your_own_writes_ms c; Proxy.query_whitelist := Proxy.query_whitelist c;
     Proxy.sql_injection_protection := Proxy.sql_injection_protection c; Proxy.audit_log := Proxy.audit_log c;
     Proxy.settings := Proxy.settings c; Proxy.pgsql := Proxy.pgsql c |}.
Definition with_pg_backends (p : BackendConfig) (rs : list BackendConfig) (c : Proxy.ProxyConfig) : Proxy.ProxyConfig :=
  let pg := Proxy.pgsql c in
  Proxy.with_pgsql
    {| Proxy.pg_enabled := Proxy.pg_enabled pg; Proxy.pg_listen_addr := Proxy.pg_listen_addr pg; Proxy.pg_primary := Some p;
       Proxy.pg_replicas := rs; Proxy.pg_pool_size := Proxy.pg_pool_size pg;
       Proxy.pg_pool_wait_queue_size := Proxy.pg_pool_wait_queue_size pg;
       Proxy.pg_pool_wait_timeout_ms := Proxy.pg_pool_wait_timeout_ms pg; Proxy.pg_max_connections := Proxy.pg_max_connections pg;
       Proxy.pg_users := Proxy.pg_users pg; Proxy.pg_connection_max_idle_secs := Proxy.pg_connection_max_idle_secs pg;
       Proxy.pg_read_your_own_writes_ms := Proxy.pg_read_your_own_writes_ms pg;
       Proxy.health_check_interval_secs := Proxy.health_check_interval_secs pg; Proxy.max_replica_lag_ms := Proxy.max_replica_lag_ms pg;
       Proxy.primary_failover_threshold := Proxy.primary_failover_threshold pg;
       Proxy.failover_cooldown_secs := Proxy.failover_cooldown_secs pg;
       Proxy.failover_min_recovery_checks := Proxy.failover_min_recovery_checks pg;
       Proxy.health_check_database := Proxy.health_check_database pg; Proxy.whitelist_mode := Proxy.whitelist_mode pg;
       Proxy.pg_query_whitelist := Proxy.pg_query_whitelist pg;
       Proxy.pg_sql_injection_protection := Proxy.pg_sql_injection_protection pg; Proxy.pg_audit_log := Proxy.pg_audit_log pg;
       Proxy.slow_query_log_ms := Proxy.slow_query_log_ms pg; Proxy.patroni_check := Proxy.patroni_check pg;
       Proxy.patroni_api_port := Proxy.patroni_api_port pg; Proxy.ssl_cert := Proxy.ssl_cert pg; Proxy.ssl_key := Proxy.ssl_key pg;
       Proxy.pg_server_version := Proxy.pg_server_version pg |} c.

Definition apply_mysql_backends : App unit :=
  active ← on_store (active_backends_for_protocol (bs "mysql"));
  match fst active with
  | None => refuse NoPrimary
  | Some primary =>
      se_modify (fun s => set_proxy_config (with_backends primary (snd active) (proxy_config s)) s) ;;
      s ← se_get;
      reload_pool (with_idle_timeout primary (snd active) (Proxy.pool_size (proxy_config s))
                     (idle_timeout (Proxy.connection_max_idle_secs (proxy_config s))))
  end.
Definition apply_pg_backends : App unit :=
  require_store ;;
  s ← se_get;
  match pg_serving s with
  | None => refuse PgsqlNotEnabled
  | Some _ =>
      active ← on_store (active_backends_for_protocol (bs "pgsql"));
      match fst active with
      | None => refuse NoPrimary
      | Some primary =>
          s ← se_get;
          if negb (Proxy.pg_enabled (Proxy.pgsql (proxy_config s))) then refuse PgsqlDisabledInConfig
          else
            se_modify (fun s => set_proxy_config (with_pg_backends primary (snd active) (proxy_config s)) s) ;;
            let pg := Proxy.pgsql (proxy_config s) in
            reload_pg_pool (with_idle_timeout primary (snd active) (Proxy.pg_pool_size pg)
                              (idle_timeout (Proxy.pg_connection_max_idle_secs pg)))
      end
  end.
Definition apply_backends_for_protocol (protocol : bytes) : App unit :=
  if beq protocol (bs "mysql") then apply_mysql_backends else apply_pg_backends.

(** ** The handlers of the configuration store *)

Definition list_config_rules : App Json := rows ← list_or_default list_rules; mret (JArray (map rule_json rows)).
Definition create_config_rule (xff : option bytes) (row : RuleRow) : App Z :=
  id ← on_store (create_rule row (client_ip xff)); apply_rules ;; bump_mutation ;; mret id.
Definition update_config_rule (id : Z) (xff : option bytes) (row : RuleRow) : App unit :=
  on_store (update_rule id row (client_ip xff)) ;; apply_rules ;; bump_mutation.
Definition delete_config_rule (id : Z) (xff : option bytes) : App unit :=
  on_store (delete_rule id (client_ip xff)) ;; apply_rules ;; bump_mutation.

(** The pattern of a rewrite rule is looked at before it is stored. *)
Definition require_regex (pattern : bytes) : App unit :=
  match Regex_new pattern with Some _ => mret tt | None => refuse (InvalidRegex pattern) end.
Definition list_config_rewrite_rules : App Json :=
  rows ← list_or_default list_rewrite_rules; mret (JArray (map rewrite_json rows)).
Definition create_config_rewrite_rule (xff : option bytes) (row : RewriteRuleRow) : App Z :=
  require_store ;; require_regex (rr_match_pattern row) ;;
  id ← on_store (create_rewrite_rule row (client_ip xff)); apply_rewrite_rules ;; bump_mutation ;; mret id.
Definition update_config_rewrite_rule (id : Z) (xff : option bytes) (row : RewriteRuleRow) : App unit :=
  require_store ;; require_regex (rr_match_pattern row) ;;
  on_store (update_rewrite_rule id row (client_ip xff)) ;; apply_rewrite_rules ;; bump_mutation.
Definition delete_config_rewrite_rule (id : Z) (xff : option bytes) : App unit :=
  on_store (delete_rewrite_rule id (client_ip xff)) ;; apply_rewrite_rules ;; bump_mutation.

Definition backend_protocol (raw : option bytes) : App bytes :=
  let p := to_ascii_lowercase (trim (default (bs "mysql") raw)) in
  if beq p [] || beq p (bs "mysql") then mret (bs "mysql")
  else if beq p (bs "pgsql") || beq p (bs "postgres") || beq p (bs "postgresql") then mret (bs "pgsql")
  else refuse (InvalidProtocol p).
Definition stars : Json := JStr (bs "***").
Definition masked_backend (r : BackendRow) : Json := JMap [
  (bs "id", JNum (be_id r)); (bs "addr", JStr (be_addr r)); (bs "user", JStr (be_user r)); (bs "password", stars);
  (bs "database", JOpt JStr (be_database r)); (bs "role", JStr (be_role r)); (bs "weight", JNum (be_weight r));
  (bs "backup", JBool (be_backup r)); (bs "tls_mode", JStr (be_tls_mode r)); (bs "enabled", JBool (be_enabled r))].
Definition list_config_backends (protocol : option bytes) : App Json :=
  require_store ;; p ← backend_protocol protocol;
  rows ← list_or_default (list_backends_by_protocol p); mret (JArray (map masked_backend rows)).
Record CreateBackendBody := {
  host : bytes; port : Z; cb_role : bytes; cb_weight : Z; cb_user : bytes; cb_password : bytes; cb_database : option bytes
}.
Definition body_row (b : CreateBackendBody) : BackendRow :=
  {| be_id := 0; be_addr := host b ++ bs ":" ++ show_u64 (port b); be_user := cb_user b; be_password := cb_password b;
     be_database := cb_database b; be_role := cb_role b; be_weight := cb_weight b; be_backup := false; be_tls_mode := bs "off";
     be_enabled := true |}.
Definition create_config_backend (protocol xff : option bytes) (b : CreateBackendBody) : App Z :=
  require_store ;; p ← backend_protocol protocol;
  id ← on_store (create_backend_with_protocol (body_row b) (client_ip xff) p);
  apply_backends_for_protocol p ;; bump_mutation ;; mret id.
Definition update_config_backend (protocol : option bytes) (id : Z) (xff : option bytes) (row : BackendRow) : App unit :=
  require_store ;; p ← backend_protocol protocol;
  on_store (update_backend_with_protocol id row (client_ip xff) p) ;; apply_backends_for_protocol p ;; bump_mutation.
Definition delete_config_backend (protocol : option bytes) (id : Z) (xff : option bytes) : App unit :=
  require_store ;; p ← backend_protocol protocol;
  on_store (delete_backend_with_protocol id (client_ip xff) p) ;; apply_backends_for_protocol p ;; bump_mutation.

Definition masked_user (r : UserRow) : Json := JMap [
  (bs "id", JNum (us_id r)); (bs "name", JStr (us_name r)); (bs "password", stars); (bs "allow_writes", JBool (us_allow_writes r));
  (bs "max_connections", JNum (us_max_connections r)); (bs "enabled", JBool (us_enabled r))].
Definition list_config_users : App Json := rows ← list_or_default list_users; mret (JArray (map masked_user rows)).
Definition create_config_user (xff : option bytes) (row : UserRow) : App Z :=
  id ← on_store (create_user row (client_ip xff)); bump_mutation ;; mret id.
Definition update_config_user (id : Z) (xff : option bytes) (row : UserRow) : App unit :=
  on_store (update_user id row (client_ip xff)) ;; bump_mutation.
Definition delete_config_user (id : Z) (xff : option bytes) : App unit :=
  on_store (delete_user id (client_ip xff)) ;; bump_mutation.

Definition config_history (limit : option Z) : App (list ChangeRow) := list_or_default (list_changes (default 50 limit)).
(** Whether something was changed since the last export. *)
Definition config_status : App bool := s ← se_get; mret (config_export_ts s <? config_mutation_ts s).

Definition export_config `{DebugTable} : App bytes :=
  se_modify (fun s => set_stamps (last_reload_secs s) (clock_ms (world s)) (config_mutation_ts s) s) ;;
  rs ← list_or_default list_rules; ws ← list_or_default list_rewrite_rules;
  bks ← list_or_default list_backends; us ← list_or_default list_users;
  mret (export_text rs ws bks us).

(** ** Import *)

Fixpoint require_regexes (l : list QueryRewriteConfig) : App unit :=
  match l with [] => mret tt | r :: l' => require_regex (rw_match_pattern r) ;; require_regexes l' end.
Definition import_config (xff : option bytes) (body : bytes) : App Json :=
  require_store ;;
  match toml_proxy body with
  | Err e => refuse (TomlError e)
  | Ok cfg =>
      require_regexes (Proxy.rewrite_rules (Proxy.settings cfg)) ;;
      on_store (ConfigStore.replace_all (Proxy.query_rules (Proxy.settings cfg)) (Proxy.rewrite_rules (Proxy.settings cfg))
                  (Proxy.primary cfg) (Proxy.replicas cfg) (Proxy.users cfg) (client_ip xff)) ;;
      apply_rules ;; apply_rewrite_rules ;;
      mret (JMap [(bs "ok", JBool true); (bs "rules", JNum (count_rows (Proxy.query_rules (Proxy.settings cfg))));
                  (bs "rewrite_rules", JNum (count_rows (Proxy.rewrite_rules (Proxy.settings cfg))));
                  (bs "backends", JNum (1 + count_rows (Proxy.replicas cfg))); (bs "users", JNum (count_rows (Proxy.users cfg)))])
  end.

(** ** Reloads from the configuration file *)

(** [RuleEngine::reload_from_file] and [Rewriter::reload_from_file]; the error is in the result. *)
Definition rules_from_file : App (result ApiError unit) := fun s =>
  match Proxy.from_file toml_raw config_path with
  | None => (Ok (Err (TomlError [])), s)
  | Some c => match reload_rule_engine (Proxy.query_rules (Proxy.settings c)) s with
              | (Ok _, s') => (Ok (Ok tt), s')
              | (Err (Refused e), s') => (Ok (Err e), s')
              | (Err Panicked, s') => (Err Panicked, s')
              end
  end.
Definition rewriter_from_file : App (result ApiError unit) := fun s =>
  match Proxy.from_file toml_raw config_path with
  | None => (Ok (Err (TomlError [])), s)
  | Some c => match reload_rewriter (Proxy.rewrite_rules (Proxy.settings c)) s with
              | (Ok _, s') => (Ok (Ok tt), s')
              | (Err (Refused e), s') => (Ok (Err e), s')
              | (Err Panicked, s') => (Err Panicked, s')
              end
  end.
Definition stamp_reload : App unit :=
  se_modify (fun s => set_stamps (clock_secs (world s)) (config_export_ts s) (config_mutation_ts s) s).

(** A task that sends the configuration to every peer in turn. *)
Definition push_config_to_peers (config_toml : bytes) : App unit :=
  match Proxy.peers cluster, Proxy.secret cluster with
  | [], _ | _, [] => mret tt
  | ps, secret =>
      se_modify (fun s => set_outbox (outbox s ++ map (fun p => (trim_end_matches (ch "/") p ++ bs "/api/sync", secret, config_toml)) ps) s)
  end.
Definition config_text : bytes := default [] (read_to_string config_path).

Definition reload_rules : App bool := r ← rules_from_file; mret (is_ok r).
Definition reload_config : App bool :=
  r1 ← rules_from_file;
  r2 ← rewriter_from_file;
  if is_ok r1 && is_ok r2 then stamp_reload ;; push_config_to_peers config_text ;; mret true
  else mret false.

(** The part that [reload_backends] and [cluster_sync] share. *)
Definition apply_whole_config (c : Proxy.ProxyConfig) : App unit :=
  se_modify (set_proxy_config c) ;; reload_pool (configured_pool c) ;; stamp_reload.
Definition reload_backends : App bool :=
  match read_to_string config_path with
  | None => mret false
  | Some text =>
      match toml_proxy text with
      | Err _ => mret false
      | Ok c => apply_whole_config c ;; push_config_to_peers config_text ;; mret true
      end
  end.

Inductive SyncReply := SyncDisabled | SyncUnauthorized | SyncBadConfig (text : bytes) | Applied (primary : bytes) (replicas : nat).
Definition bearer (authorization : option bytes) : bytes :=
  match authorization ≫= header_text with
  | Some v => if starts_with v (bs "Bearer ") then drop 7 v else []
  | None => []
  end.
Definition cluster_sync (authorization : option bytes) (config_toml : bytes) : App SyncReply :=
  if beq (Proxy.secret cluster) [] then mret SyncDisabled
  else if negb (beq (bearer authorization) (Proxy.secret cluster)) then mret SyncUnauthorized
  else match toml_proxy config_toml with
       | Err e => mret (SyncBadConfig e)
       | Ok c => apply_whole_config c ;; mret (Applied (addr (Proxy.primary c)) (length (Proxy.replicas c)))
       end.

(** ** Failover by hand *)

(** A connection and a ping, within three seconds. *)
Definition probe (io : BackendIO W C) (cfg : BackendConfig) (w : W) : bool * W :=
  match @connect_backend W C io cfg w with
  | (Ok c, w) => let '(r, _, w) := @ping W C io c w in (is_ok r, w)
  | (Err _, w) => (false, w)
  end.
Definition checked (ok : bool) (h : BackendHealth) : BackendHealth :=
  {| healthy := ok; lag_ms := lag_ms h; consecutive_failures := if ok then 0 else u32 (consecutive_failures h + 1) |}.
Fixpoint recheck_replicas (io : BackendIO W C) (rs : list (ConnectionPool C)) (hs : list BackendHealth) (w : W) : list BackendHealth * W :=
  match rs, hs with
  | r :: rs', h :: hs' =>
      let (ok, w) := probe io (config r) w in
      let (hs', w) := recheck_replicas io rs' hs' w in (checked ok h :: hs', w)
  | _, _ => (hs, w)
  end.
Definition recheck_pool_health (io : BackendIO W C) (p : BackendPool C) (w : W) : BackendPool C * W :=
  let (ok, w) := probe io (config (primary p)) w in
  let (hs, w) := recheck_replicas io (replicas p) (replica_health p) w in
  (set_health (checked ok (primary_health p)) hs p, w).

Inductive ActionError := PrimaryHealthy | NoHealthyReplica | ActionProtocol | ActionUnknown | PgsqlDisabled.
Definition force_failover_to (i : Z) (p : BackendPool C) : BackendPool C :=
  set_ha i (failover_events_total p) (failover_flap_total p) (recovery_checks p) (failover_triggered_at p) p.
Definition trigger_failover (force : bool) (p : BackendPool C) : result ActionError nat * BackendPool C :=
  if negb force && healthy (primary_health p) then (Err PrimaryHealthy, p)
  else match best_replica (length (replicas p)) (replica_health p) with
       | Some (i, _) => (Ok i, force_failover_to (Z.of_nat i) p)
       | None => (Err NoHealthyReplica, p)
       end.

Inductive Action := RecheckHealth | TriggerFailover | ClearFailover.
Definition action_of (text : bytes) : option Action :=
  let a := to_ascii_lowercase (trim text) in
  if beq a (bs "recheck_health") then Some RecheckHealth
  else if beq a (bs "trigger_failover") then Some TriggerFailover
  else if beq a (bs "clear_failover") then Some ClearFailover
  else None.
Definition on_pool (io : BackendIO W C) (i : nat) (a : Action) (force : bool) (s : AppState) : result ActionError unit * AppState :=
  match pools s !! i with
  | None => (Ok tt, s)
  | Some p =>
      let '(r, p', w) := match a with
                         | RecheckHealth => let (p', w) := recheck_pool_health io p (world s) in (Ok tt, p', w)
                         | TriggerFailover =>
                             let (r, p') := trigger_failover force p in
                             (match r with Ok _ => Ok tt | Err e => Err e end, p', world s)
                         | ClearFailover => (Ok tt, force_failover_to (-1) p, world s)
                         end in
      (r, set_serving (<[i := p']> (pools s)) (serving s) (pg_serving s) w s)
  end.

Definition normalized_protocol (raw : option bytes) : option bytes :=
  let p := to_ascii_lowercase (trim (default (bs "auto") raw)) in
  if beq p [] || beq p (bs "auto") then Some (bs "auto")
  else if beq p (bs "mysql") then Some (bs "mysql")
  else if beq p (bs "pgsql") || beq p (bs "postgres") || beq p (bs "postgresql") then Some (bs "pgsql")
  else None.
Definition cluster_action (protocol action : bytes) (force : bool) (s : AppState) : result ActionError unit * AppState :=
  match normalized_protocol (Some protocol) with
  | Some p =>
      if beq p (bs "mysql") then
        match action_of action with Some a => on_pool my_io (pool s) a force s | None => (Err ActionUnknown, s) end
      else if beq p (bs "pgsql") then
        match pg_serving s with
        | None => (Err PgsqlDisabled, s)
        | Some i => match action_of action with Some a => on_pool pg_io i a force s | None => (Err ActionUnknown, s) end
        end
      else (Err ActionProtocol, s)
  | None => (Err ActionProtocol, s)
  end.

(** ** Counters *)
Definition flush_stats : App unit :=
  se_modify (fun s => set_metrics
    {| connections_total := connections_total (metrics s); connections_active := connections_active (metrics s);
       queries_total := 0; queries_read := 0; queries_write := 0; sqli_blocked := 0; whitelist_blocked := 0;
       transactions_killed := 0 |} s).
End Admin.
