(* ===== verification/ConfigAdminProps.v ===== *)
(** * What changes of the running proxy promise (src/src/dashboard/routes_config.rs, routes.rs)

    Theorems about ConfigAdmin: the engines follow the store, passwords do not show, a change
    of backends reaches the router and nothing else, the nodes of a cluster agree after a
    reload, only the holder of the secret may synchronise, and what failover by hand does. *)

From S2P Require Import Prelude Bytes Config CircuitBreaker Rules Rewriter Pool Health DashboardAuth ConfigStore ConfigStoreProps.
From S2P Require Import ConfigAdmin.

Section AdminProps.
Context {W C : Type} `{RE : RegexEngine} `{ENV : Environment} `{SC : SecretCodec} `{SQ : Sqlite} `{TP : TomlParser}.
Context (my_io pg_io : BackendIO W C) (cluster : Proxy.ClusterConfig) (config_path : bytes).
Local Abbreviation App := (SE (AppState (W := W) (C := C)) Failure).
Implicit Types s : AppState (W := W) (C := C).

(** ** The calls of the handlers *)

(** [H : (m ≫= f) s = (Ok _, _)]: both parts have succeeded. *)
Ltac bind_ok H a s1 H1 := apply se_bind_inv in H as [(a & s1 & H1 & H)|(? & _ & H)]; [|discriminate H].

Lemma on_store_ok {A} (m : DB A) s a s' : on_store m s = (Ok a, s') ->
  exists d d', config_store s = Some d /\ m d = (Ok a, d') /\ s' = set_config_store (Some d') s.
Proof.
  unfold on_store, ask_store. intros H. bind_ok H r s1 H1. destruct (config_store s) as [d|]; [|done].
  destruct (m d) as [r0 d'] eqn:E. injection H1 as <- <-. destruct r0 as [x|e]; [|done]. injection H as -> <-. by exists d, d'.
Qed.
Lemma require_store_ok s u s' : require_store s = (Ok u, s') -> s' = s /\ is_Some (config_store s).
Proof.
  unfold require_store. intros H. bind_ok H s0 s1 H1. injection H1 as <- <-. destruct (config_store s); [|done].
  injection H as _ <-. split; [done|by eexists].
Qed.
Lemma require_regex_ok p s u s' : require_regex p s = (Ok u, s') -> s' = s.
Proof. unfold require_regex. destruct (Regex_new p); [by intros [= _ <-] | done]. Qed.
Lemma require_regexes_ok l s u s' : require_regexes l s = (Ok u, s') -> s' = s.
Proof.
  revert s. induction l as [|r l IH]; intros s H; cbn [require_regexes] in H; [by injection H as _ <-|].
  bind_ok H x s1 H1. apply require_regex_ok in H1 as ->. by apply IH.
Qed.
Lemma backend_protocol_ok p s pr s' : backend_protocol p s = (Ok pr, s') -> s' = s /\ (pr = bs "mysql" \/ pr = bs "pgsql").
Proof.
  unfold backend_protocol. destruct (_ || _); [intros [= <- <-]; by auto|]. destruct (_ || _); [intros [= <- <-]; by auto | done].
Qed.

(** ** The engines follow the store *)

Definition stored_rules (st : Store) : list QueryRuleConfig :=
  map rule_config (List.filter ru_enabled (sort_by (by_number ru_priority) (rows (rules st)))).
Definition stored_rewrites (st : Store) : list QueryRewriteConfig :=
  map rewrite_config (List.filter rr_enabled (sort_by (by_number rr_priority) (rows (rewrite_rules st)))).
Lemma active_query_rules_ok d l d' : active_query_rules d = (Ok l, d') -> l = stored_rules (store d) /\ store d' = store d.
Proof.
  unfold active_query_rules, list_rules, query, sql. intros H. bind_ok H r d1 H1. destruct (sql_error _); [done|].
  injection H1 as <- <-. by injection H as <- <-.
Qed.
Lemma active_rewrite_rules_ok d l d' : active_rewrite_rules d = (Ok l, d') -> l = stored_rewrites (store d) /\ store d' = store d.
Proof.
  unfold active_rewrite_rules, list_rewrite_rules, query, sql. intros H. bind_ok H r d1 H1. destruct (sql_error _); [done|].
  injection H1 as <- <-. by injection H as <- <-.
Qed.

Definition rules_in_step s : Prop := forall d, config_store s = Some d ->
  Rules.compile_rules (stored_rules (store d)) = Ok (rule_engine s).
Definition rewrites_in_step s : Prop := forall d, config_store s = Some d ->
  Rewriter.compile_rules (stored_rewrites (store d)) = Ok (rewriter s).
(** The running rules are the enabled rows of the store, in their order. *)
Definition in_step s : Prop := rules_in_step s /\ rewrites_in_step s.

Lemma apply_rules_ok s u s' : apply_rules s = (Ok u, s') -> rules_in_step s' /\ (rewrites_in_step s -> rewrites_in_step s').
Proof.
  unfold apply_rules, reload_rule_engine, Rules.reload_from_slice. intros H. bind_ok H l s1 H1.
  apply on_store_ok in H1 as (d & d' & Hd & [-> Hst]%active_query_rules_ok & ->).
  destruct (Rules.compile_rules _) as [rs|i] eqn:E; [|done]. injection H as _ <-. unfold rules_in_step, rewrites_in_step. cbn. split.
  - intros x [= <-]. by rewrite Hst.
  - intros Hw x [= <-]. rewrite Hst. by apply Hw.
Qed.
Lemma apply_rewrite_rules_ok s u s' : apply_rewrite_rules s = (Ok u, s') ->
  rewrites_in_step s' /\ (rules_in_step s -> rules_in_step s').
Proof.
  unfold apply_rewrite_rules, reload_rewriter, Rewriter.reload_from_slice. intros H. bind_ok H l s1 H1.
  apply on_store_ok in H1 as (d & d' & Hd & [-> Hst]%active_rewrite_rules_ok & ->).
  destruct (Rewriter.compile_rules _) as [rs|i] eqn:E; [|done]. injection H as _ <-. unfold rules_in_step, rewrites_in_step. cbn. split.
  - intros x [= <-]. by rewrite Hst.
  - intros Hw x [= <-]. rewrite Hst. by apply Hw.
Qed.
Lemma bump_in_step s u s' : bump_mutation my_io s = (Ok u, s') -> in_step s -> in_step s'.
Proof. intros [= _ <-]. by unfold in_step, rules_in_step, rewrites_in_step. Qed.

(** *** Which tables an operation leaves alone *)

Definition same_table {X} (get : Store -> Table X) (st st' : Store) : Prop := get st' = get st.
#[local] Instance same_table_refl {X} (get : Store -> Table X) : Reflexive (same_table get). Proof. done. Qed.
#[local] Instance same_table_trans {X} (get : Store -> Table X) : Transitive (same_table get).
Proof. unfold same_table. congruence. Qed.
Lemma insert_user_same {X} (get : Store -> Table X) r : (forall t st, get (set_users t st) = get st) -> respects (same_table get) (insert_user r).
Proof.
  intros Hg. apply respects_sql; [done|]. intros k st a st'. destruct (existsb _ _); [done|].
  destruct (insert_row _ _ _) as [[id t]|]; [intros [= _ <-]; apply Hg | done].
Qed.
Lemma update_users_same {X} (get : Store -> Table X) (p : Store -> bool) (t : Store -> Table UserRow) : (forall t st, get (set_users t st) = get st) ->
  respects (same_table get) (sql (fun _ st => if p st then Err UniqueViolation else Ok (tt, set_users (t st) st))).
Proof. intros Hg. apply respects_sql; [done|]. intros k st a st'. destruct (p st); [done|]. intros [= _ <-]. apply Hg. Qed.
#[local] Hint Extern 1 (respects (same_table _) (insert_user _)) => apply insert_user_same; done : respects.
#[local] Hint Extern 1 (respects (same_table _) (sql _)) => apply update_users_same; done : respects.
Ltac keeps_table := solve [
  unfold create_rule, update_rule, delete_rule, create_rewrite_rule, update_rewrite_rule, delete_rewrite_rule,
    create_backend_with_protocol, update_backend_with_protocol, delete_backend_with_protocol, create_user, update_user, delete_user,
    get_rule, get_rewrite_rule, active_backends_for_protocol, list_backends_by_protocol, log_change_inner; le_tac; done].

(** *** The parts of a handler that succeed *)

Local Abbreviation assertion := (AppState (W := W) (C := C) -> Prop).
Local Abbreviation succeeds P m Q := (triple (P : assertion) m Q (fun _ _ => True)).
Lemma t_ok {A} (P : assertion) (m : App A) (Q : A -> assertion) :
  (forall s a s', P s -> m s = (Ok a, s') -> Q a s') -> succeeds P m Q.
Proof. intros H s Hs. destruct (m s) as [[a|e] s'] eqn:E; [by eapply H | done]. Qed.
Lemma t_require (P : assertion) : succeeds P require_store (fun _ => P).
Proof. apply t_ok. by intros s a s' Hs [-> _]%require_store_ok. Qed.
Lemma t_regex (P : assertion) p : succeeds P (require_regex p) (fun _ => P).
Proof. apply t_ok. by intros s a s' Hs ->%require_regex_ok. Qed.
Lemma t_regexes (P : assertion) l : succeeds P (require_regexes l) (fun _ => P).
Proof. apply t_ok. by intros s a s' Hs ->%require_regexes_ok. Qed.
Lemma t_protocol (P : assertion) p : succeeds P (backend_protocol p) (fun _ => P).
Proof. apply t_ok. by intros s a s' Hs [-> _]%backend_protocol_ok. Qed.
Lemma t_bump : succeeds in_step (bump_mutation my_io) (fun _ => in_step).
Proof. apply t_ok. intros s a s' Hs [= _ <-]. exact Hs. Qed.
Lemma t_store_rules {A} (m : DB A) : respects (same_table rules) m -> succeeds rules_in_step (on_store m) (fun _ => rules_in_step).
Proof.
  intros Hr. apply t_ok. intros s a s' Hi (d & d' & Hd & Hm & ->)%on_store_ok x [= <-]. specialize (Hr d). rewrite Hm in Hr.
  cbn [snd] in Hr. unfold stored_rules. rewrite Hr. by apply Hi.
Qed.
Lemma t_store_rewrites {A} (m : DB A) : respects (same_table rewrite_rules) m ->
  succeeds rewrites_in_step (on_store m) (fun _ => rewrites_in_step).
Proof.
  intros Hr. apply t_ok. intros s a s' Hi (d & d' & Hd & Hm & ->)%on_store_ok x [= <-]. specialize (Hr d). rewrite Hm in Hr.
  cbn [snd] in Hr. unfold stored_rewrites. rewrite Hr. by apply Hi.
Qed.
Lemma t_both {A} (m : App A) (Q1 Q2 : assertion) : succeeds rules_in_step m (fun _ => Q1) -> succeeds rewrites_in_step m (fun _ => Q2) ->
  succeeds in_step m (fun _ s => Q1 s /\ Q2 s).
Proof. intros H1 H2 s [Hs1 Hs2]. specialize (H1 s Hs1). specialize (H2 s Hs2). by destruct (m s) as [[a|e] s']. Qed.
(** A change of other tables; of the rules; of the rewrite rules. *)
Lemma t_other {A} (m : DB A) : respects (same_table rules) m -> respects (same_table rewrite_rules) m ->
  succeeds in_step (on_store m) (fun _ => in_step).
Proof. intros ? ?. apply t_both; [by apply t_store_rules | by apply t_store_rewrites]. Qed.
Lemma t_changes_rules {A} (m : DB A) : respects (same_table rewrite_rules) m -> succeeds in_step (on_store m) (fun _ => rewrites_in_step).
Proof. intros ?. apply (triple_conseq rewrites_in_step _ _ (fun _ => rewrites_in_step) _ (fun _ _ => True)); [by apply t_store_rewrites | by intros s [] | done | done]. Qed.
Lemma t_changes_rewrites {A} (m : DB A) : respects (same_table rules) m -> succeeds in_step (on_store m) (fun _ => rules_in_step).
Proof. intros ?. apply (triple_conseq rules_in_step _ _ (fun _ => rules_in_step) _ (fun _ _ => True)); [by apply t_store_rules | by intros s [] | done | done]. Qed.
Lemma t_apply_rules : succeeds rewrites_in_step apply_rules (fun _ => in_step).
Proof. apply t_ok. intros s a s' Hs [H1 H2]%apply_rules_ok. split; [done | by apply H2]. Qed.
Lemma t_apply_rewrites : succeeds rules_in_step apply_rewrite_rules (fun _ => in_step).
Proof. apply t_ok. intros s a s' Hs [H1 H2]%apply_rewrite_rules_ok. split; [by apply H2 | done]. Qed.
Lemma t_refuse {A} P e : succeeds P (refuse e : App A) (fun _ => in_step).
Proof. by apply t_ok. Qed.
(** An import changes both tables, and applies both. *)
Lemma t_any {A} (m : App A) : succeeds in_step m (fun _ _ => True).
Proof. by apply t_ok. Qed.
Lemma t_apply_rules_anew : succeeds (fun _ => True) apply_rules (fun _ => rules_in_step).
Proof. apply t_ok. by intros s a s' _ [H1 _]%apply_rules_ok. Qed.

Lemma t_apply_mysql : succeeds in_step apply_mysql_backends (fun _ => in_step).
Proof.
  eapply triple_bind; [apply t_other; keeps_table|]. intros act. destruct (fst act) as [p|]; [|apply t_ok; done].
  apply t_ok. intros s x s' Hs [= _ <-]. exact Hs.
Qed.
Lemma t_apply_pg : succeeds in_step apply_pg_backends (fun _ => in_step).
Proof.
  eapply triple_bind; [apply t_require|]. intros ?. apply triple_get_bind. intros s0 _. destruct (pg_serving s0); [|apply t_ok; done].
  eapply triple_bind; [apply t_other; keeps_table|]. intros act. destruct (fst act) as [p|]; [|apply t_ok; done].
  apply triple_get_bind. intros s1 _. destruct (negb _); [apply t_ok; done|]. apply t_ok. intros s x s' Hs [= _ <-]. exact Hs.
Qed.
Lemma t_apply_backends p : succeeds in_step (apply_backends_for_protocol p) (fun _ => in_step).
Proof. unfold apply_backends_for_protocol. destruct (beq _ _); [apply t_apply_mysql | apply t_apply_pg]. Qed.

(** *** One change of the configuration, by whichever handler *)

Inductive ConfigOp :=
| AddRule (row : RuleRow) | ChangeRule (id : Z) (row : RuleRow) | RemoveRule (id : Z)
| AddRewrite (row : RewriteRuleRow) | ChangeRewrite (id : Z) (row : RewriteRuleRow) | RemoveRewrite (id : Z)
| AddBackend (protocol : option bytes) (body : CreateBackendBody) | ChangeBackend (protocol : option bytes) (id : Z) (row : BackendRow)
| RemoveBackend (protocol : option bytes) (id : Z)
| AddUser (row : UserRow) | ChangeUser (id : Z) (row : UserRow) | RemoveUser (id : Z)
| ImportFile (body : bytes).
Definition handle (xff : option bytes) (op : ConfigOp) : App unit :=
  match op with
  | AddRule row => create_config_rule my_io xff row ;; mret tt
  | ChangeRule id row => update_config_rule my_io id xff row
  | RemoveRule id => delete_config_rule my_io id xff
  | AddRewrite row => create_config_rewrite_rule my_io xff row ;; mret tt
  | ChangeRewrite id row => update_config_rewrite_rule my_io id xff row
  | RemoveRewrite id => delete_config_rewrite_rule my_io id xff
  | AddBackend p b => create_config_backend my_io p xff b ;; mret tt
  | ChangeBackend p id row => update_config_backend my_io p id xff row
  | RemoveBackend p id => delete_config_backend my_io p id xff
  | AddUser row => create_config_user my_io xff row ;; mret tt
  | ChangeUser id row => update_config_user my_io id xff row
  | RemoveUser id => delete_config_user my_io id xff
  | ImportFile body => import_config xff body ;; mret tt
  end.

(** A handler is a sequence of such parts. *)
Ltac handler_tac := repeat first
  [ apply triple_ret | apply t_bump | apply t_apply_rewrites
  | match goal with |- triple _ (mbind _ (mbind _ _)) _ _ => apply triple_assoc end
  | eapply triple_bind;
    [ first [ apply t_require | apply t_regex | apply t_regexes | apply t_protocol | apply t_bump | apply t_refuse | apply t_apply_backends
            | apply t_apply_rules | apply t_apply_rewrites | apply t_apply_rules_anew
            | apply t_other; keeps_table | apply t_changes_rules; keeps_table | apply t_changes_rewrites; keeps_table | apply t_any ]
    | intros ? ] ].
Lemma t_handle xff op : succeeds in_step (handle xff op) (fun _ => in_step).
Proof.
  destruct op as [row|id row|id|row|id row|id|p b|p id row|p id|row|id row|id|body]; cbn [handle];
    unfold create_config_rule, update_config_rule, delete_config_rule, create_config_rewrite_rule, update_config_rewrite_rule,
      delete_config_rewrite_rule, create_config_backend, update_config_backend, delete_config_backend, create_config_user,
      update_config_user, delete_config_user, import_config; try destruct (toml_proxy body); handler_tac.
Qed.

(** C36: Once the running rules and rewrite rules are the enabled rows of the store, a change
    through the dashboard that succeeds, whatever it changes, leaves them so.  They do not
    agree by themselves: a restart and a reload of the file take no notice of the store
    (see [restart_forgets_store] and [reload_leaves_store_behind]). *)
Theorem engines_follow_store xff op s s' : handle xff op s = (Ok tt, s') -> in_step s -> in_step s'.
Proof. intros H Hi. pose proof (t_handle xff op s Hi) as Ht. by rewrite H in Ht. Qed.

(** ** Passwords do not show *)

(** Two states of the dashboard that differ in stored passwords alone. *)
Definition same_but_passwords s s' : Prop :=
  s' = set_config_store (config_store s') s /\
  match config_store s, config_store s' with
  | Some d, Some d' => statements d = statements d' /\ low_eq (store d) (store d')
  | None, None => True
  | _, _ => False
  end.
Definition low_app {A} (RA : A -> A -> Prop) (m m' : App A) : Prop := forall s s', same_but_passwords s s' ->
  same_but_passwords (snd (m s)) (snd (m' s')) /\
  match fst (m s), fst (m' s') with Ok a, Ok a' => RA a a' | Err e, Err e' => e = e' | _, _ => False end.
Lemma low_app_bind {A B} RA RB (m m' : App A) (f f' : A -> App B) : low_app RA m m' ->
  (forall a a', RA a a' -> low_app RB (f a) (f' a')) -> low_app RB (m ≫= f) (m' ≫= f').
Proof.
  intros Hm Hf s s' Hs. unfold mbind, se_bind. destruct (Hm s s' Hs) as [Hs1 Hr].
  destruct (m s) as [[a|e] s1], (m' s') as [[a'|e'] s1']; cbn [fst snd] in *; try done. by apply Hf.
Qed.
Lemma low_app_ret {A} (RA : A -> A -> Prop) a a' : RA a a' -> low_app RA (mret a) (mret a').
Proof. by intros HR s s' Hs. Qed.
Lemma low_app_require : low_app eq require_store require_store.
Proof.
  intros s s' Hs. pose proof Hs as [_ Hd]. unfold require_store, mbind, se_bind, se_get.
  by destruct (config_store s), (config_store s').
Qed.
Lemma low_list {A} (RA : list A -> list A -> Prop) (m : DB (list A)) : low RA m m -> RA [] [] ->
  low_app RA (list_or_default m) (list_or_default m).
Proof.
  intros Hm H0 s s' Hs. pose proof Hs as [Hs' Hd]. unfold list_or_default, ask_store, mbind, se_bind.
  destruct (config_store s) as [d|], (config_store s') as [d'|] eqn:E'; try done.
  destruct Hd as [Hk Hl]. destruct (Hm d d' Hk Hl) as (Hk1 & Hl1 & Hr). destruct (m d) as [r d1], (m d') as [r' d1']. cbn [fst snd] in *.
  split; [split; [by rewrite Hs' | done]|]. cbn. destruct r, r'; by subst.
Qed.
Lemma low_protocol p : low_app eq (backend_protocol p) (backend_protocol p).
Proof. intros s s' Hs. unfold backend_protocol. destruct (_ || _); [done|]. by destruct (_ || _). Qed.
Lemma low_query_rel {A} (RA : A -> A -> Prop) (f : Store -> A) : (forall st st', low_eq st st' -> RA (f st) (f st')) -> low RA (query f) (query f).
Proof.
  intros Hf d d' Hk Hl. unfold query, sql. rewrite Hk. destruct (sql_error _); cbn; split_and!; try done. by apply Hf.
Qed.
Lemma sort_by_map {X} (pub : X -> X) le l : (forall a b, le (pub a) (pub b) = le a b) -> map pub (sort_by le l) = sort_by le (map pub l).
Proof.
  intros Hle. unfold sort_by. induction l as [|a l IH]; [done|]. cbn [foldr map]. rewrite <- IH. generalize (foldr (insert_by le) [] l).
  intros l'. induction l' as [|b l' IH']; [done|]. cbn [insert_by map]. rewrite Hle. destruct (le a b); [done|]. cbn [map]. by rewrite IH'.
Qed.
Lemma filter_map_pub {X Y} (pub : X -> X) (g : X -> Y) p l : (forall a, p (pub a) = p a) -> map g (List.filter p (map pub l)) = map g (map pub (List.filter p l)).
Proof. intros Hp. induction l as [|a l IH]; [done|]. cbn. rewrite Hp. destruct (p a); cbn; by rewrite IH. Qed.

Definition shown_backends (l l' : list BackendRow) : Prop := map (backend_with_password []) l = map (backend_with_password []) l'.
Definition shown_users (l l' : list UserRow) : Prop := map public_user l = map public_user l'.
Lemma low_backends_list p : low shown_backends (list_backends_by_protocol p) (list_backends_by_protocol p).
Proof.
  apply low_query_rel. intros st st' (_ & _ & _ & _ & Hb & _). unfold shown_backends. rewrite !sort_by_map by done. f_equal.
  assert (forall l, map (backend_with_password []) (map be_row (List.filter (of_protocol p) l)) =
    map be_row (List.filter (of_protocol p) (map public_backend l))) as Hm; [|by rewrite !Hm, Hb].
  intros l. rewrite (filter_map_pub public_backend be_row) by done. by rewrite !map_map.
Qed.
Lemma low_users_list : low shown_users list_users list_users.
Proof. apply low_query_rel. intros st st' (_ & _ & _ & _ & _ & _ & Hu). unfold shown_users. rewrite !sort_by_map by done. by rewrite Hu. Qed.
(** What is printed of a row does not depend on its password. *)
Lemma printed_backends {Y} (f : BackendRow -> Y) l l' : (forall r, f (backend_with_password [] r) = f r) -> shown_backends l l' -> map f l = map f l'.
Proof.
  intros Hf H. transitivity (map f (map (backend_with_password []) l)); [rewrite map_map; by apply map_ext|].
  rewrite H, map_map. by apply map_ext.
Qed.
Lemma printed_users {Y} (f : UserRow -> Y) l l' : (forall r, f (public_user r) = f r) -> shown_users l l' -> map f l = map f l'.
Proof. intros Hf H. transitivity (map f (map public_user l)); [rewrite map_map; by apply map_ext|]. rewrite H, map_map. by apply map_ext. Qed.

Inductive View := ViewRules | ViewRewrites | ViewBackends (protocol : option bytes) | ViewUsers | ViewHistory (limit : option Z) | ViewExport.
Inductive Shown := ShownJson (j : Json) | ShownChanges (l : list ChangeRow) | ShownText (t : bytes).
Definition view `{DebugTable} (v : View) : App Shown :=
  match v with
  | ViewRules => j ← list_config_rules; mret (ShownJson j)
  | ViewRewrites => j ← list_config_rewrite_rules; mret (ShownJson j)
  | ViewBackends p => j ← list_config_backends p; mret (ShownJson j)
  | ViewUsers => j ← list_config_users; mret (ShownJson j)
  | ViewHistory n => l ← config_history n; mret (ShownChanges l)
  | ViewExport => t ← export_config my_io; mret (ShownText t)
  end.

Lemma low_view `{DebugTable} v : low_app eq (view v) (view v).
Proof.
  assert (low eq list_rules list_rules) as Hr by (apply low_query_rel; intros st st' (-> & _); done).
  assert (low eq list_rewrite_rules list_rewrite_rules) as Hw by (apply low_query_rel; intros st st' (_ & -> & _); done).
  destruct v as [| |p| |n|]; cbn [view]; (eapply low_app_bind; [|intros ? ? ->; by apply low_app_ret]).
  - eapply low_app_bind; [by apply low_list|]. intros ? ? ->. by apply low_app_ret.
  - eapply low_app_bind; [by apply low_list|]. intros ? ? ->. by apply low_app_ret.
  - eapply low_app_bind; [apply low_app_require|]. intros ? ? ->. eapply low_app_bind; [apply low_protocol|]. intros ? pr ->.
    eapply low_app_bind; [apply (low_list shown_backends); [apply low_backends_list | done]|]. intros l l' Hl. apply low_app_ret. f_equal. by apply printed_backends.
  - eapply low_app_bind; [apply (low_list shown_users); [apply low_users_list | done]|]. intros l l' Hl. apply low_app_ret. f_equal. by apply printed_users.
  - apply low_list; [|done]. apply low_query_rel. by intros st st' (_ & _ & -> & _).
  - eapply low_app_bind; [instantiate (1 := eq); intros s s' [-> Hd]; by split|]. intros ? ? ->.
    eapply low_app_bind; [by apply low_list|]. intros ? rs ->. eapply low_app_bind; [by apply low_list|]. intros ? ws ->.
    eapply low_app_bind; [apply (low_list shown_backends); [apply low_backends_list | done]|]. intros l l' Hl.
    eapply low_app_bind; [apply (low_list shown_users); [apply low_users_list | done]|]. intros k k' Hk. apply low_app_ret. unfold export_text.
    by rewrite (printed_backends export_backend l l'), (printed_users export_user k k').
Qed.

(** C32: No page of the dashboard, and no export, shows a stored password: on two stores that
    differ in passwords alone each answers the same. *)
Theorem pages_hide_passwords `{DebugTable} v s s' : same_but_passwords s s' -> fst (view v s) = fst (view v s').
Proof. intros Hs. destruct (low_view v s s' Hs) as [_ Hr]. destruct (fst (view v s)), (fst (view v s')); try done; by f_equal. Qed.

(** ** The nodes of a cluster *)

Lemma bearer_secret auth secret : secret <> [] -> bearer auth = secret ->
  exists v, auth = Some v /\ header_text v = Some (bs "Bearer " ++ secret).
Proof.
  unfold bearer. destruct auth as [v|]; [|by intros ? <-]. intros Hs Hb. exists v. split; [done|].
  change (Some v ≫= header_text) with (header_text v) in Hb. destruct (header_text v) as [t|]; [|by subst].
  destruct (starts_with t (bs "Bearer ")) eqn:E; [|by subst]. apply starts_with_spec in E as [r ->]. by rewrite <- Hb.
Qed.
(** Whoever does not hold the secret of the cluster cannot change anything by a
    synchronisation, and a node without a secret takes none. *)
Theorem sync_needs_secret auth body s : snd (cluster_sync my_io cluster auth body s) <> s ->
  Proxy.secret cluster <> [] /\ exists v, auth = Some v /\ header_text v = Some (bs "Bearer " ++ Proxy.secret cluster).
Proof.
  unfold cluster_sync. destruct (beq (Proxy.secret cluster) []) eqn:E1; [done|].
  assert (Proxy.secret cluster <> []) as Hs by (intros Hq; by rewrite Hq in E1).
  destruct (beq (bearer auth) (Proxy.secret cluster)) eqn:E2; cbn [negb]; [|done]. intros _. split; [done|].
  by apply bearer_secret, beq_true.
Qed.

(** What a node serves: its configuration and the pool of its router. *)
Definition served s : Proxy.ProxyConfig * option (BackendPool C) := (proxy_config s, pools s !! serving s).
Lemma apply_whole_config_ok c s u s' : apply_whole_config my_io c s = (Ok u, s') ->
  served s' = (c, Some (configured_pool c)) /\ outbox s' = outbox s.
Proof.
  intros [= _ <-]. unfold served. cbn. split; [|done]. f_equal. by rewrite lookup_app_r, Nat.sub_diag by done.
Qed.
Lemma push_ok text s u s' : push_config_to_peers cluster text s = (Ok u, s') ->
  served s' = served s /\ exists new, outbox s' = outbox s ++ new /\ Forall (fun m => m.1.2 = Proxy.secret cluster /\ m.2 = text /\ Proxy.secret cluster <> []) new.
Proof.
  unfold push_config_to_peers. destruct (Proxy.peers cluster) as [|p ps]; [|destruct (Proxy.secret cluster) as [|b secret]]; intros [= _ <-];
    (split; [done|]); [by exists []; rewrite app_nil_r | by exists []; rewrite app_nil_r |].
  eexists. split; [done|]. constructor; [done|]. apply list.Forall_forall. intros m Hm. apply list_elem_of_In, in_map_iff in Hm as (q & <- & _). done.
Qed.
Lemma header_text_bearer secret : header_text secret = Some secret -> header_text (bs "Bearer " ++ secret) = Some (bs "Bearer " ++ secret).
Proof. unfold header_text. rewrite forallb_app. destruct (forallb _ secret); [done | done]. Qed.

(** C26: After the backends of one node were reloaded, each node that gets one of the messages it
    sent serves what it serves: the same configuration, and a pool made from it. *)
Theorem reload_reaches_peers s s' b m peer : header_text (Proxy.secret cluster) = Some (Proxy.secret cluster) ->
  reload_backends my_io cluster config_path s = (Ok true, s') ->
  outbox s' = outbox s ++ b -> m ∈ b ->
  let '(_, secret, text) := m in
  let '(r, peer') := cluster_sync my_io cluster (Some (bs "Bearer " ++ secret)) text peer in
  (exists n k, r = Ok (Applied n k)) /\ served peer' = served s'.
Proof.
  intros Hh H Hb Hm. unfold reload_backends in H. destruct (read_to_string config_path) as [text|] eqn:Et; [|done].
  destruct (toml_proxy text) as [c|e] eqn:Ec; [|done]. bind_ok H x s1 H1. bind_ok H y s2 H2. injection H as <-.
  apply apply_whole_config_ok in H1 as [Hc1 Ho1]. apply push_ok in H2 as (Hc2 & new & Ho2 & Hnew).
  rewrite Ho2, Ho1 in Hb. apply app_inv_head in Hb as <-. rewrite list.Forall_forall in Hnew. specialize (Hnew m Hm).
  destruct m as [[url secret] sent]. cbn [fst snd] in Hnew. destruct Hnew as (-> & -> & Hs).
  assert (config_text config_path = text) as -> by (unfold config_text; by rewrite Et).
  unfold cluster_sync. destruct (beq (Proxy.secret cluster) []) eqn:E1; [by apply beq_true in E1|].
  unfold bearer. cbn [mbind option_bind]. rewrite header_text_bearer by done. rewrite starts_with_app.
  change (drop 7 (bs "Bearer " ++ Proxy.secret cluster)) with (Proxy.secret cluster). rewrite beq_refl, Ec. cbn [negb].
  destruct (apply_whole_config my_io c peer) as [[u|e] p1] eqn:Ea; [|done].
  pose proof (apply_whole_config_ok _ _ _ _ Ea) as [Hp _]. unfold mbind, se_bind. rewrite Ea. cbn. split; [by eexists _, _|]. by rewrite Hp, Hc2, Hc1.
Qed.

(** ** Backends, and what failover by hand reaches *)

(** The active backends of the store: the primary and the replicas. *)
Definition stored_backends (protocol : bytes) (st : Store) : option BackendConfig * list BackendConfig :=
  foldl add_backend (None, []) (List.filter be_enabled (sort_by by_role (map be_row (List.filter (of_protocol protocol) (rows (backends st)))))).
Lemma active_backends_ok p d x d' : active_backends_for_protocol p d = (Ok x, d') -> x = stored_backends p (store d) /\ store d' = store d.
Proof.
  unfold active_backends_for_protocol, list_backends_by_protocol, query, sql. intros H. bind_ok H r d1 H1. destruct (sql_error _); [done|].
  injection H1 as <- <-. by injection H as <- <-.
Qed.
Lemma apply_mysql_ok s u s' : apply_mysql_backends s = (Ok u, s') ->
  exists d primary replicas, config_store s' = Some d /\ stored_backends (bs "mysql") (store d) = (Some primary, replicas) /\
    served s' = (with_backends primary replicas (proxy_config s),
                 Some (with_idle_timeout primary replicas (Proxy.pool_size (proxy_config s))
                         (idle_timeout (Proxy.connection_max_idle_secs (proxy_config s))))) /\
    pool s' = pool s /\ serving s' = length (pools s) /\ pools s `prefix_of` pools s'.
Proof.
  unfold apply_mysql_backends. intros H. bind_ok H act s1 H1. apply on_store_ok in H1 as (d & d' & Hd & [Ha Hst]%active_backends_ok & ->).
  destruct act as [[p|] rs]; [|done]. cbn [fst snd] in H. injection H as _ <-. exists d', p, rs. rewrite Hst, <- Ha. unfold served. cbn.
  split_and!; try done; [|by apply prefix_app_r]. by rewrite lookup_app_r, Nat.sub_diag by done.
Qed.
Lemma bump_served s u s' : bump_mutation my_io s = (Ok u, s') -> config_store s' = config_store s /\ served s' = served s /\ pool s' = pool s /\ serving s' = serving s /\ pools s' = pools s.
Proof. by intros [= _ <-]. Qed.
Lemma on_pool_others io i a force s j : i <> j -> pools (snd (on_pool io i a force s)) !! j = pools s !! j.
Proof.
  intros Hn. unfold on_pool. destruct (pools s !! i) as [p|]; [|done].
  destruct (match a with RecheckHealth => _ | TriggerFailover => _ | ClearFailover => _ end) as [[r p'] w].
  cbn. by rewrite list_lookup_insert_ne.
Qed.
Lemma on_pool_serving io i a force s : serving (snd (on_pool io i a force s)) = serving s.
Proof.
  unfold on_pool. destruct (pools s !! i) as [p|]; [|done].
  by destruct (match a with RecheckHealth => _ | TriggerFailover => _ | ClearFailover => _ end) as [[r p'] w].
Qed.

(** A backend that is added reaches the router: it serves a new pool of the active backends
    of the store, in place of whatever it served.  The dashboard keeps the pool of the start,
    so that no action on the cluster reaches the pool in use from then on. *)
Theorem actions_miss_new_pool xff b s s' id protocol action force : (pool s < length (pools s))%nat ->
  create_config_backend my_io (Some (bs "mysql")) xff b s = (Ok id, s') ->
  normalized_protocol (Some protocol) = Some (bs "mysql") ->
  (exists d primary replicas, config_store s' = Some d /\ stored_backends (bs "mysql") (store d) = (Some primary, replicas) /\
     snd (served s') = Some (with_idle_timeout primary replicas (Proxy.pool_size (proxy_config s))
                               (idle_timeout (Proxy.connection_max_idle_secs (proxy_config s))))) /\
  snd (served (snd (cluster_action my_io pg_io protocol action force s'))) = snd (served s').
Proof.
  intros Hp H Hpr. unfold create_config_backend in H. bind_ok H x s1 H1. apply require_store_ok in H1 as [-> _].
  bind_ok H pr s1 H1. injection H1 as <- <-. bind_ok H i s1 H1. apply on_store_ok in H1 as (d & d' & Hd & _ & ->).
  bind_ok H y s2 H2. apply apply_mysql_ok in H2 as (d1 & p & rs & Hd1 & Ha & Hs & Hpool & Hserv & Hpre).
  bind_ok H z s3 H3. injection H as <- <-. apply bump_served in H3 as (Hd3 & Hs3 & Hpool3 & Hserv3 & Hps3).
  split; [exists d1, p, rs; split_and!; [by rewrite Hd3 | done | by rewrite Hs3, Hs]|].
  unfold cluster_action. rewrite Hpr. cbn [beq]. change (beq (bs "mysql") (bs "mysql")) with true. cbn iota.
  destruct (action_of action) as [a|]; [|done]. unfold served. cbn [snd]. rewrite on_pool_serving. apply on_pool_others.
  rewrite Hserv3, Hserv, Hpool3, Hpool. cbn. lia.
Qed.

(** A failover by hand goes to a healthy replica with the least lag; without force it is
    refused while the primary is healthy. *)
Theorem trigger_failover_chooses force (p : BackendPool C) : length (replica_health p) = length (replicas p) ->
  match trigger_failover force p with
  | (Ok i, p') => (force = true \/ healthy (primary_health p) = false) /\ best_of (replica_health p) (Z.of_nat i) /\
                  p' = force_failover_to (Z.of_nat i) p
  | (Err PrimaryHealthy, p') => force = false /\ healthy (primary_health p) = true /\ p' = p
  | (Err NoHealthyReplica, p') => (forall j h, replica_health p !! j = Some h -> healthy h = false) /\ p' = p
  | (Err _, _) => False
  end.
Proof.
  intros Hl. unfold trigger_failover. pose proof (best_replica_spec _ _ Hl) as Hb. destruct (negb force && healthy (primary_health p)) eqn:E.
  - apply andb_prop in E as [E1 E2]. by destruct force.
  - destruct (best_replica _ _) as [[i h]|]; [|done]. split_and!; [|done..]. destruct force; [by left|]. right. by destruct (healthy _).
Qed.

(** A failover by hand leaves no time of its trigger, so the cooldown of the health checks
    does not hold it: it ends with the last of the [min_recovery_checks] good checks. *)
Theorem manual_failover_has_no_cooldown hc now i (p : BackendPool C) :
  failover_triggered_at p = 0 -> 0 <= i -> in_width 64 (recovery_checks p + 1) -> min_recovery_checks hc <= recovery_checks p + 1 ->
  failover_idx (primary_up hc now (force_failover_to i p)) = -1.
Proof.
  intros Ht Hi Hr Hm. unfold primary_up. rewrite (proj2 (Z.leb_le 0 i) Hi : failover_active (set_primary_health _ (force_failover_to i p)) = true).
  cbn [recovery_checks set_primary_health set_health force_failover_to set_ha].
  assert (usize (recovery_checks p + 1) = recovery_checks p + 1) as -> by (by apply wrap_small).
  destruct (Z.ltb_spec (recovery_checks p + 1) (min_recovery_checks hc)) as [Hlt|_]; [lia|].
  unfold cooldown_active. cbn. rewrite Ht. done.
Qed.

(** ** Without a store *)

(** Without analytics there is no store, and every page of the configuration panics. *)
Theorem no_store_panics `{DebugTable} xff op v s : config_store s = None ->
  fst (handle xff op s) = Err Panicked /\ fst (view v s) = Err Panicked.
Proof.
  intros Hs. assert (require_store s = (Err Panicked, s)) as Hr by (unfold require_store, mbind, se_bind, se_get; by rewrite Hs).
  assert (forall A (m : DB A), ask_store m s = (Err Panicked, s)) as Ha by (intros; unfold ask_store; by rewrite Hs).
  split; [destruct op | destruct v]; cbn [handle view];
    unfold create_config_rule, update_config_rule, delete_config_rule, create_config_rewrite_rule, update_config_rewrite_rule,
      delete_config_rewrite_rule, create_config_backend, update_config_backend, delete_config_backend, create_config_user,
      update_config_user, delete_config_user, import_config, list_config_rules, list_config_rewrite_rules, list_config_backends,
      list_config_users, config_history, on_store, list_or_default, mbind, se_bind; rewrite ?Hr, ?Ha; try done.
  unfold export_config, list_or_default, mbind, se_bind, se_modify, ask_store. cbn. by rewrite Hs.
Qed.

(** ** Reloading from the file *)

(** After a reload of the backends the proxy counts as one without MySQL, whatever the file
    says; and a file whose primary is in the [shared] section can be started from but not
    reloaded. *)
Theorem reload_loses_mysql `{!TomlLaws TP} text raw s s' : read_to_string config_path = Some text -> toml_raw text = Some raw ->
  reload_backends my_io cluster config_path s = (Ok true, s') -> Proxy.mysql_enabled (proxy_config s') = false.
Proof.
  intros Ht Hraw H. unfold reload_backends in H. rewrite Ht in H. destruct (toml_proxy text) as [c|e] eqn:Ec; [|done].
  apply (toml_proxy_ok _ _ _ Hraw) in Ec. bind_ok H x s1 H1. bind_ok H y s2 H2. injection H as <-.
  apply apply_whole_config_ok in H1 as [Hc1 _]. apply push_ok in H2 as (Hc2 & _). rewrite Hc1 in Hc2.
  assert (proxy_config s2 = c) as -> by (by injection Hc2 as -> _).
  unfold derive_proxy in Ec. destruct (Proxy.raw_primary raw); [|done]. by injection Ec as <-.
Qed.
Theorem shared_primary_not_reloadable `{!TomlLaws TP} text raw s : read_to_string config_path = Some text -> toml_raw text = Some raw ->
  Proxy.raw_primary raw = None -> reload_backends my_io cluster config_path s = (Ok false, s).
Proof.
  intros Ht Hraw Hp. unfold reload_backends. rewrite Ht. destruct (toml_proxy text) as [c|e] eqn:Ec; [|done].
  apply (toml_proxy_ok _ _ _ Hraw) in Ec. unfold derive_proxy in Ec. by rewrite Hp in Ec.
Qed.
End AdminProps.

(** ** Concrete runs

    A proxy with one replica, started from a file that the reloads find again. *)
Section AdminWitnesses.
#[local] Existing Instance toy_codec.
#[local] Existing Instance quiet_db.
#[local] Existing Instance substring_engine.

Definition file_env : Environment := {|
  env_var v := if beq v (bs "TURBINEPROXY_SECRET_KEY") then Some demo_key_text else None;
  read_to_string p := if beq p (bs "proxy.toml") then Some (bs "FILE") else if beq p (bs "shared.toml") then Some (bs "SHARED") else None;
  keyring_secret := None |}.
#[local] Existing Instance file_env.

Definition demo_settings : Proxy.Settings := {|
  Proxy.pool_wait_queue_size := 8; Proxy.pool_wait_timeout_ms := 5000; Proxy.analytics := Proxy.analytics_default;
  Proxy.dashboard := Proxy.dashboard_default; Proxy.ha := Proxy.ha_default;
  Proxy.frontend_tls := {| Proxy.ft_enabled := false; Proxy.cert := []; Proxy.key := []; Proxy.ft_ssl_keylog_file := [] |};
  Proxy.query_rules := [demo_rule_config "^SELECT" RReplica false]; Proxy.group_replication := Proxy.group_replication_default;
  Proxy.cluster := {| Proxy.peers := []; Proxy.secret := [] |}; Proxy.rewrite_rules := []; Proxy.max_transaction_time_ms := 0;
  Proxy.max_query_time_ms := 0; Proxy.max_transaction_idle_ms := 0; Proxy.select_version_forwarding := true;
  Proxy.proxy_protocol := {| Proxy.pp_enabled := false |}; Proxy.shutdown_timeout_secs := 30; Proxy.client_error_limit := 0;
  Proxy.client_error_window_secs := 60; Proxy.log_prepared_params := false; Proxy.session_track_mode := TrackDisabled;
  Proxy.gtid_aware_ryow := false; Proxy.fast_forward := false; Proxy.server_version := [] |}.
Definition demo_pgsql : Proxy.PgsqlConfig := {|
  Proxy.pg_enabled := false; Proxy.pg_listen_addr := []; Proxy.pg_primary := None; Proxy.pg_replicas := []; Proxy.pg_pool_size := 10;
  Proxy.pg_pool_wait_queue_size := 0; Proxy.pg_pool_wait_timeout_ms := 5000; Proxy.pg_max_connections := 0; Proxy.pg_users := [];
  Proxy.pg_connection_max_idle_secs := 55; Proxy.pg_read_your_own_writes_ms := 0; Proxy.health_check_interval_secs := 5;
  Proxy.max_replica_lag_ms := 5000; Proxy.primary_failover_threshold := 3; Proxy.failover_cooldown_secs := 30;
  Proxy.failover_min_recovery_checks := 3; Proxy.health_check_database := []; Proxy.whitelist_mode := false; Proxy.pg_query_whitelist := [];
  Proxy.pg_sql_injection_protection := false; Proxy.pg_audit_log := []; Proxy.slow_query_log_ms := 0; Proxy.patroni_check := false;
  Proxy.patroni_api_port := 8008; Proxy.ssl_cert := []; Proxy.ssl_key := []; Proxy.pg_server_version := [] |}.
Definition demo_raw (shared primary : option BackendConfig) : Proxy.RawProxyConfig := {|
  Proxy.shared := Some {| Proxy.sh_listen_addr := None; Proxy.sh_max_connections := None; Proxy.sh_pool_size := None;
    Proxy.sh_primary := shared; Proxy.sh_replicas := []; Proxy.sh_users := []; Proxy.sh_auth_cache_ttl_secs := None;
    Proxy.sh_connection_max_idle_secs := None; Proxy.sh_read_your_own_writes_ms := None; Proxy.sh_query_whitelist := [];
    Proxy.sh_sql_injection_protection := None; Proxy.sh_audit_log := None |};
  Proxy.raw_listen_addr := None; Proxy.raw_max_connections := None; Proxy.raw_pool_size := Some 4; Proxy.raw_primary := primary;
  Proxy.raw_replicas := [test_config "r:3306" 1 false None]; Proxy.raw_users := []; Proxy.raw_auth_cache_ttl_secs := None;
  Proxy.raw_connection_max_idle_secs := None; Proxy.raw_read_your_own_writes_ms := None; Proxy.raw_query_whitelist := [];
  Proxy.raw_sql_injection_protection := None; Proxy.raw_audit_log := None; Proxy.raw_settings := demo_settings;
  Proxy.raw_pgsql := demo_pgsql |}.
Definition toy_toml_raw (s : bytes) : option Proxy.RawProxyConfig :=
  if beq s (bs "FILE") then Some (demo_raw None (Some (test_config "p:3306" 1 false None)))
  else if beq s (bs "SHARED") then Some (demo_raw (Some (test_config "p:3306" 1 false None)) None) else None.
Definition toy_toml : TomlParser := {|
  toml_raw := toy_toml_raw;
  toml_proxy s := match toy_toml_raw s ≫= derive_proxy with Some c => Ok c | None => Err (bs "missing field") end |}.
#[local] Existing Instance toy_toml.
#[local] Instance toy_toml_laws : TomlLaws toy_toml.
Proof.
  split. intros s raw c Hs. cbn in Hs |- *. rewrite Hs. cbn. destruct (derive_proxy raw); split; congruence.
Qed.

Definition peer_cluster : Proxy.ClusterConfig := {| Proxy.peers := [bs "http://b:8080/"; bs "http://c:8080"]; Proxy.secret := bs "s3" |}.
Definition started (c : Proxy.ProxyConfig) (st : option Db) (rs : list Rules.CompiledRule) : AppState (W := TestWorld) (C := TestConn) := {|
  pools := [configured_pool c]; pool := 0; serving := 0; pg_serving := None; rule_engine := rs; rewriter := []; config_store := st;
  proxy_config := c; last_reload_secs := 0; config_export_ts := 0; config_mutation_ts := 0;
  metrics := {| connections_total := 7; connections_active := 1; queries_total := 9; queries_read := 5; queries_write := 4; sqli_blocked := 0;
                whitelist_blocked := 0; transactions_killed := 0 |};
  outbox := []; world := test_world |}.
Definition demo_config : Proxy.ProxyConfig := {|
  Proxy.mysql_enabled := true; Proxy.listen_addr := bs "0.0.0.0:3307"; Proxy.max_connections := 1000; Proxy.pool_size := 4;
  Proxy.primary := test_config "p:3306" 1 false None; Proxy.replicas := [test_config "r:3306" 1 false None]; Proxy.users := [];
  Proxy.auth_cache_ttl_secs := 300; Proxy.connection_max_idle_secs := 55; Proxy.read_your_own_writes_ms := 0; Proxy.query_whitelist := [];
  Proxy.sql_injection_protection := false; Proxy.audit_log := []; Proxy.settings := demo_settings; Proxy.pgsql := demo_pgsql |}.
Definition demo_db : Db :=
  snd (seed_if_empty (Proxy.query_rules demo_settings) [] (Proxy.primary demo_config) (Proxy.replicas demo_config) [demo_login "app" "secret"] db_new).
(** The start, and the state after the rules of the store have been applied once. *)
Definition s0 : AppState (W := TestWorld) (C := TestConn) :=
  started demo_config (Some demo_db) (match Rules.compile_rules (Proxy.query_rules demo_settings) with Ok rs => rs | Err _ => [] end).
Definition s_applied := snd (apply_rules s0).

Lemma engines_follow_store_witness :
  in_step (snd (handle test_io (Some (bs "10.0.0.1")) (AddRule (demo_rule_row "^SHOW" 5)) s_applied)).
Proof.
  destruct (handle test_io (Some (bs "10.0.0.1")) (AddRule (demo_rule_row "^SHOW" 5)) s_applied) as [[[]|e] s'] eqn:E.
  - apply (engines_follow_store test_io (Some (bs "10.0.0.1")) (AddRule (demo_rule_row "^SHOW" 5)) s_applied s' E).
    split; intros d [= <-]; by vm_compute.
  - apply (f_equal fst) in E. vm_compute in E. done.
Defined.

Definition other_passwords : AppState (W := TestWorld) (C := TestConn) :=
  set_config_store (d ← config_store s0; Some {| store := set_backends
    {| rows := map (fun r => {| be_protocol := be_protocol r; be_row := backend_with_password (bs "hunter2") (be_row r) |}) (rows (backends (store d)));
       seq := seq (backends (store d)) |} (store d); statements := statements d |}) s0.
Definition plain_debug : DebugTable := {| debug_wide c := c |}.
#[local] Existing Instance plain_debug.
Lemma pages_hide_passwords_witness : fst (view test_io ViewExport s0) = fst (view test_io ViewExport other_passwords).
Proof.
  apply (pages_hide_passwords test_io ViewExport s0 other_passwords). split; [done|].
  vm_compute. split; [done|]. by repeat split.
Defined.

Lemma sync_needs_secret_witness :
  [115; 51] <> [] /\ exists v, Some (bs "Bearer s3") = Some v /\ header_text v = Some (bs "Bearer " ++ [115; 51]).
Proof.
  apply (sync_needs_secret test_io peer_cluster (Some (bs "Bearer s3")) (bs "FILE") s0). intros H.
  apply (f_equal last_reload_secs) in H. vm_compute in H. done.
Defined.

Lemma reload_reaches_peers_witness :
  let s' := snd (reload_backends test_io peer_cluster (bs "proxy.toml") s0) in
  let '(r, peer') := cluster_sync test_io peer_cluster (Some (bs "Bearer s3")) (bs "FILE") s_applied in
  (exists n k, r = Ok (Applied n k)) /\ served peer' = served s'.
Proof.
  intros s'. apply (reload_reaches_peers test_io peer_cluster (bs "proxy.toml") s0 s' (outbox s') (bs "http://b:8080/api/sync", bs "s3", bs "FILE") s_applied).
  - by vm_compute.
  - by vm_compute.
  - done.
  - apply list_elem_of_In. vm_compute. by left.
Defined.

Definition new_backend (a role : string) : CreateBackendBody :=
  {| host := bs a; port := 3306; cb_role := bs role; cb_weight := 100; cb_user := bs "app"; cb_password := []; cb_database := None |}.
Definition s_backend := snd (create_config_backend test_io (Some (bs "mysql")) None (new_backend "r2" "replica") s0).
Lemma actions_miss_new_pool_witness :
  (exists d primary replicas, config_store s_backend = Some d /\ stored_backends (bs "mysql") (store d) = (Some primary, replicas) /\
     snd (served s_backend) = Some (with_idle_timeout primary replicas 4 (idle_timeout 55))) /\
  snd (served (snd (cluster_action test_io test_io (bs "MySQL") (bs "trigger_failover") true s_backend))) = snd (served s_backend).
Proof.
  apply (actions_miss_new_pool test_io test_io None (new_backend "r2" "replica") s0 s_backend 3 (bs "MySQL") (bs "trigger_failover") true);
    [cbn; lia | by vm_compute | by vm_compute].
Defined.

Definition two_replicas : BackendPool TestConn :=
  set_health {| healthy := false; lag_ms := 0; consecutive_failures := 3 |}
    [{| healthy := true; lag_ms := 90; consecutive_failures := 0 |}; {| healthy := true; lag_ms := 40; consecutive_failures := 0 |}]
    (with_options (test_config "p:3306" 1 false None) [test_config "r:3306" 1 false None; test_config "q:3306" 1 false None] 4 None 5 10000 0 5000).
Lemma trigger_failover_chooses_witness : trigger_failover false two_replicas = (Ok 1%nat, force_failover_to 1 two_replicas) /\
  best_of (replica_health two_replicas) 1.
Proof.
  destruct (trigger_failover_chooses false two_replicas eq_refl) as (_ & Hb & _). split; [by vm_compute | exact Hb].
Defined.

Lemma manual_failover_has_no_cooldown_witness :
  failover_idx (primary_up {| primary_config := test_config "p:3306" 1 false None; replica_configs := []; failover_threshold := 3;
    max_lag_ms := 5000; cooldown_secs := 3600; min_recovery_checks := 1; galera_check := false |} 1000
    (force_failover_to 1 two_replicas)) = -1.
Proof.
  apply manual_failover_has_no_cooldown; cbn; [done | lia | unfold in_width; lia | lia].
Defined.

Lemma no_store_panics_witness : fst (handle test_io None (RemoveUser 1) (set_config_store None s0)) = Err Panicked.
Proof. apply (no_store_panics test_io None (RemoveUser 1) ViewRules (set_config_store None s0)). done. Defined.

Lemma reload_loses_mysql_witness :
  Proxy.mysql_enabled (proxy_config s0) = true /\
  Proxy.mysql_enabled (proxy_config (snd (reload_backends test_io peer_cluster (bs "proxy.toml") s0))) = false.
Proof.
  split; [done|].
  apply (reload_loses_mysql test_io peer_cluster (bs "proxy.toml") (bs "FILE") (demo_raw None (Some (test_config "p:3306" 1 false None))) s0);
    by vm_compute.
Defined.

Lemma shared_primary_not_reloadable_witness :
  is_Some (Proxy.from_file toml_raw (bs "shared.toml")) /\
  reload_backends test_io peer_cluster (bs "shared.toml") s0 = (Ok false, s0).
Proof.
  split; [by vm_compute; eexists|].
  apply (shared_primary_not_reloadable test_io peer_cluster (bs "shared.toml") (bs "SHARED")
           (demo_raw (Some (test_config "p:3306" 1 false None)) None) s0); by vm_compute.
Defined.

(** ** What goes wrong

    A rule whose pattern does not compile is refused, and stored all the same; from then on
    no change of a rule is applied, the removal of another one included. *)
Example refused_rule_stays :
  let '(r1, s1) := create_config_rule test_io None (demo_rule_row "SELECT (" 0) s0 in
  let '(r2, s2) := delete_config_rule test_io 1 None s1 in
  r1 = Err (Refused (BadRule 1)) /\ r2 = Err (Refused (BadRule 0)) /\
  rule_engine s2 = rule_engine s0 /\
  (ru_id <$> match config_store s2 with Some d => rows (rules (store d)) | None => [] end) = [2].
Proof. by vm_compute. Qed.

(** A change of backends drops the settings of the breakers and of the waiting queue. *)
Example backend_change_drops_settings :
  match pools s_backend !! serving s_backend, pools s0 !! serving s0 with
  | Some new, Some old => permits (counters (primary new)) = None /\ permits (counters (primary old)) = Some 8
  | _, _ => False
  end.
Proof. by vm_compute. Qed.

(** An import is no change since the last export, and its backends are not applied. *)
Example import_is_not_noticed :
  let '(r, s1) := import_config None (bs "FILE") s0 in
  is_ok r = true /\ fst (config_status s1) = Ok false /\ served s1 = served s0.
Proof. by vm_compute. Qed.

(** A reload replaces the rules of the store by those of the file. *)
Example reload_leaves_store_behind :
  let s1 := snd (create_config_rule test_io None (demo_rule_row "^SHOW" 5) s0) in
  let s2 := snd (reload_config test_io peer_cluster (bs "proxy.toml") s1) in
  length (rule_engine s1) = 2%nat /\ length (rule_engine s2) = 1%nat /\
  match config_store s2 with Some d => length (rows (rules (store d))) = 2%nat | None => False end.
Proof. by vm_compute. Qed.

(** A peer that is sent a configuration keeps its rules. *)
Example sync_keeps_rules :
  let '(r, peer) := cluster_sync test_io peer_cluster (Some (bs "Bearer s3")) (bs "FILE") (started demo_config (Some demo_db) []) in
  is_ok r = true /\ rule_engine peer = [] /\ Proxy.query_rules (Proxy.settings (proxy_config peer)) <> [].
Proof. by vm_compute. Qed.

(** The export leaves out most columns of a rule: one that is switched off comes back on. *)
Example export_forgets_disabled r :
  export_rule {| ru_id := ru_id r; ru_priority := ru_priority r; ru_match_pattern := ru_match_pattern r; ru_match_digest := ru_match_digest r;
    ru_user := ru_user r; ru_schema_name := []; ru_destination := ru_destination r; ru_destination_hostgroup := None;
    ru_cache_ttl_secs := 0; ru_comment := ru_comment r; ru_mirror_to := None; ru_rollout_pct := None; ru_enabled := true |} = export_rule r.
Proof. reflexivity. Qed.
(** A control character is exported in a notation that TOML does not have. *)
Example export_is_not_toml : debug_str (bs "a" ++ [1] ++ bs "b") = [dquote] ++ bs "a\u{1}b" ++ [dquote].
Proof. by vm_compute. Qed.
(** An export puts out the badge of unsaved changes, whoever asks for it. *)
Example export_clears_status :
  let s1 := snd (create_config_user test_io None (demo_user_row "bob" "pw") s0) in
  fst (config_status s1) = Ok true /\ fst (config_status (snd (view test_io ViewExport s1))) = Ok false.
Proof. by vm_compute. Qed.
End AdminWitnesses.
