(* ===== verification/FloatText.v ===== *)
(** * Numbers in text: [format!("{:.k}", x)], [format!("{}", x)] and [parse] of floats

    The dashboards print binary64 numbers with a fixed number of decimals, and the index
    advisor reads a binary32 from text.  Both roundings are to the nearest, ties to even. *)

From Stdlib Require Import SpecFloat.
From S2P Require Import Prelude Bytes Analytics.

(** [n / d] to the nearest integer, ties to even. *)
Definition round_half_even (n d : Z) : Z :=
  let q := n / d in
  match 2 * (n mod d) ?= d with
  | Lt => q
  | Gt => q + 1
  | Eq => if Z.even q then q else q + 1
  end.
(** [m * 2 ^ e] in units of the last of [k] decimals. *)
Definition in_decimals (k : nat) (m e : Z) : Z :=
  if 0 <=? e then m * 2 ^ e * 10 ^ Z.of_nat k else round_half_even (m * 10 ^ Z.of_nat k) (2 ^ (- e)).

(** Exactly [k] digits; an integer part of a binary64 has at most 309. *)
Fixpoint pad_digits (k : nat) (n : Z) (acc : bytes) : bytes :=
  match k with O => acc | S k' => pad_digits k' (n / 10) ((48 + n mod 10) :: acc) end.
Definition show_integer (n : Z) : bytes := dec_digits 320 n [].
Definition show_decimals (k : nat) (n : Z) : bytes :=
  show_integer (n / 10 ^ Z.of_nat k) ++ (if decide (k = 0%nat) then [] else bs "." ++ pad_digits k (n mod 10 ^ Z.of_nat k) []).
Definition sign_text (s : bool) : bytes := if s then bs "-" else [].
(** [format!("{:.k}", x)]. *)
Definition show_fixed (k : nat) (x : spec_float) : bytes :=
  match x with
  | S754_nan => bs "NaN"
  | S754_infinity s => sign_text s ++ bs "inf"
  | S754_zero s => sign_text s ++ show_decimals k 0
  | S754_finite s m e => sign_text s ++ show_decimals k (in_decimals k (Z.pos m) e)
  end.

(** [s.parse()] for a binary float, on texts of digits, points and minus signs. *)
Definition split_point (s : bytes) : bytes * bytes :=
  match find_byte (fun b => b =? 46) s with Some i => (take i s, drop (S i) s) | None => (s, []) end.
Definition of_decimal (prec emax : Z) (s : bool) (m : Z) (k : nat) : spec_float :=
  match m with
  | Z.pos p => SFdiv prec emax (S754_finite s p 0) (S754_finite false (Pos.pow 10 (Pos.of_nat k)) 0)
  | _ => S754_zero s
  end.
Definition parse_unsigned (prec emax : Z) (s : bool) (t : bytes) : option spec_float :=
  let '(whole, frac) := split_point t in
  match whole ++ frac with
  | [] => None
  | _ => m ← parse_digits 0 (whole ++ frac);
         Some (if decide (frac = []) then binary_normalize prec emax (if s then - m else m) 0 s
               else of_decimal prec emax s m (length frac))
  end.
Definition parse_float (prec emax : Z) (t : bytes) : option spec_float :=
  match t with 45 :: t' => parse_unsigned prec emax true t' | _ => parse_unsigned prec emax false t end.
Definition parse_f32 : bytes -> option spec_float := parse_float 24 128.
Definition parse_f64 : bytes -> option spec_float := parse_float 53 1024.

(** [format!("{}", x)]: as few decimals as tell [x] from every other binary64.  [fuel] bounds
    their number. *)
Fixpoint shortest (fuel k : nat) (x : f64) : bytes :=
  match fuel with
  | O => show_fixed k x
  | S fuel' =>
      if default false (y ← parse_f64 (show_fixed k x); Some (SFeqb y x)) then show_fixed k x
      else shortest fuel' (S k) x
  end.
Definition show_f64 (x : f64) : bytes := shortest 20 0 x.

Lemma round_half_even_near n d : 0 < d -> 2 * Z.abs (n - d * round_half_even n d) <= d.
Proof.
  intros Hd. unfold round_half_even. pose proof (Z.div_mod n d ltac:(lia)). pose proof (Z.mod_pos_bound n d Hd).
  destruct (Z.compare_spec (2 * (n mod d)) d); [destruct (Z.even _)|..]; lia.
Qed.

Lemma pad_digits_length k n acc : length (pad_digits k n acc) = (k + length acc)%nat.
Proof. revert n acc. induction k as [|k IH]; intros n acc; [done|]. cbn [pad_digits]. rewrite IH. cbn. lia. Qed.

Lemma pad_digits_digits k n acc :
  Forall (fun b => is_digit b = true) acc -> Forall (fun b => is_digit b = true) (pad_digits k n acc).
Proof.
  revert n acc. induction k as [|k IH]; intros n acc Ha; [done|]. cbn [pad_digits]. apply IH.
  constructor; [apply is_digit_mod | done].
Qed.

(** A finite number is printed within half a unit of its last decimal. *)
Lemma in_decimals_near k m e : 0 <= m -> e < 0 -> 2 * Z.abs (m * 10 ^ Z.of_nat k - 2 ^ (- e) * in_decimals k m e) <= 2 ^ (- e).
Proof.
  intros Hm He. unfold in_decimals. destruct (0 <=? e) eqn:E; [bool_to_prop; lia|].
  apply round_half_even_near. lia.
Qed.

Example fixed_ex : show_fixed 3 (f_lit 25 1000) = bs "0.025" /\ show_fixed 0 (f_lit 5 2) = bs "2" /\ show_fixed 1 (f_lit 1 4) = bs "0.2".
Proof. by vm_compute. Qed.
Example shortest_ex : show_f64 (f_lit 1 1000) = bs "0.001" /\ show_f64 (f_lit 5 2) = bs "2.5" /\ show_f64 (f_of_int 3) = bs "3".
Proof. by vm_compute. Qed.
Example parse_ex : parse_f32 (bs "10.00") = Some (binary_normalize 24 128 10 0 false) /\ parse_f32 (bs ".") = None /\ parse_f32 (bs "1-2") = None.
Proof. by vm_compute. Qed.
Example parse_inverts_show : parse_f32 (bs "0.1") = parse_f32 (bs "00.1000") /\ option_map (show_fixed 10) (parse_f32 (bs "0.1")) = Some (bs "0.1000000015").
Proof. by vm_compute. Qed.
