(* ===== verification/Tls.v ===== *)
(** * TLS towards backends and clients (src/src/protocol/mysql/tls.rs)

    How the connector for a backend and the acceptor for clients are built from the
    configuration, and the log of session keys.  The parser of PEM files, the verifier of
    certificates and the files are parameters. *)

From S2P Require Import Prelude Bytes Config PgAuth.

(** ** Certificates *)

Class Certificates := {
  Cert : Type; PrivateKey : Type; Anchor : Type;
  read_file : bytes -> result bytes bytes;               (* the text of the error, or the bytes *)
  pem_certs : bytes -> list (result bytes Cert);
  pem_key : bytes -> result bytes (option PrivateKey);   (* the first private key, if there is one *)
  as_anchor : Cert -> option Anchor;                     (* [RootCertStore::add] *)
  mozilla_roots : list Anchor;
  (* the verifier of rustls: the chain leads to a root and is for the name *)
  webpki_verify : list Anchor -> list Cert -> bytes -> bool;
  key_fits : list Cert -> PrivateKey -> bool             (* [with_single_cert] *)
}.

Section Building.
Context `{CE : Certificates}.

Inductive TlsError :=
| Unreachable                                            (* the function panics *)
| CaUnreadable (path e : bytes) | CaInvalid (path e : bytes) | CaMalformed
| CertAndKeyNeeded | CertUnreadable (path e : bytes) | KeyUnreadable (path e : bytes) | PemInvalid (e : bytes)
| NoPrivateKey (path : bytes) | CertKeyInvalid.
Inductive Verifier := NoVerify | WebPki (roots : list Anchor).
Record TlsConnector := { verifier : Verifier; connector_key_log : option bytes }.
Record TlsAcceptor := { chain : list Cert; acceptor_private_key : PrivateKey; acceptor_key_log : option bytes }.
Definition verify_server_cert (v : Verifier) (presented : list Cert) (server_name : bytes) : bool :=
  match v with NoVerify => true | WebPki roots => webpki_verify roots presented server_name end.

Fixpoint add_roots (path : bytes) (certs : list (result bytes Cert)) (roots : list Anchor) : result TlsError (list Anchor) :=
  match certs with
  | [] => Ok roots
  | Err e :: _ => Err (CaInvalid path e)
  | Ok c :: certs => match as_anchor c with Some a => add_roots path certs (roots ++ [a]) | None => Err CaMalformed end
  end.
Definition root_store (tls_ca : option bytes) : result TlsError (list Anchor) :=
  match tls_ca with
  | Some path => match read_file path with Ok pem => add_roots path (pem_certs pem) [] | Err e => Err (CaUnreadable path e) end
  | None => Ok mozilla_roots
  end.
Definition nonempty_path (p : option bytes) : option bytes := match p with Some [] => None | _ => p end.
Definition build_backend_connector (tls_mode : TlsMode) (tls_ca keylog_path : option bytes) : result TlsError TlsConnector :=
  match tls_mode with
  | TlsOff => Err Unreachable
  | TlsRequired => Ok {| verifier := NoVerify; connector_key_log := nonempty_path keylog_path |}
  | TlsVerifyCa | TlsVerifyIdentity =>
      match root_store tls_ca with
      | Ok roots => Ok {| verifier := WebPki roots; connector_key_log := nonempty_path keylog_path |}
      | Err e => Err e
      end
  end.

Fixpoint collect_certs (certs : list (result bytes Cert)) : result bytes (list Cert) :=
  match certs with
  | [] => Ok []
  | Err e :: _ => Err e
  | Ok c :: certs => match collect_certs certs with Ok cs => Ok (c :: cs) | Err e => Err e end
  end.
Definition build_frontend_acceptor (config : Proxy.FrontendTlsConfig) : result TlsError TlsAcceptor :=
  if beq (Proxy.cert config) [] || beq (Proxy.key config) [] then Err CertAndKeyNeeded
  else match read_file (Proxy.cert config), read_file (Proxy.key config) with
       | Err e, _ => Err (CertUnreadable (Proxy.cert config) e)
       | Ok _, Err e => Err (KeyUnreadable (Proxy.key config) e)
       | Ok cert_bytes, Ok key_bytes =>
           match collect_certs (pem_certs cert_bytes), pem_key key_bytes with
           | Err e, _ | Ok _, Err e => Err (PemInvalid e)
           | Ok _, Ok None => Err (NoPrivateKey (Proxy.key config))
           | Ok certs, Ok (Some k) =>
               if key_fits certs k then
                 Ok {| chain := certs; acceptor_private_key := k; acceptor_key_log := nonempty_path (Some (Proxy.ft_ssl_keylog_file config)) |}
               else Err CertKeyInvalid
           end
       end.
End Building.

(** ** The log of session keys *)

Definition to_hex (l : bytes) : bytes := concat (map (fun b => [hex_digit (b / 16); hex_digit (b mod 16)]) l).
Definition key_line (label client_random secret : bytes) : bytes :=
  label ++ bs " " ++ to_hex client_random ++ bs " " ++ to_hex secret ++ [10].
(** What the file holds, if it could be opened or made. *)
Definition key_log (opens : bool) (label client_random secret : bytes) (file : bytes) : bytes :=
  if opens then file ++ key_line label client_random secret else file.

(** ** Theorems *)

Section TlsProps.
Context `{CE : Certificates}.

(** The roots of a bundle are all its certificates, in their order. *)
Lemma add_roots_ok path certs roots r : add_roots path certs roots = Ok r <->
  exists cs new, certs = map Ok cs /\ Forall2 (fun c a => as_anchor c = Some a) cs new /\ r = roots ++ new.
Proof.
  revert roots. induction certs as [|[c|e] certs IH]; intros roots; cbn [add_roots].
  - split; [intros [= ->]; exists [], []; split_and!; [done | constructor | by rewrite app_nil_r]|].
    intros (cs & new & Hc & Hf & ->). destruct cs; [|done]. inversion Hf; subst. by rewrite app_nil_r.
  - destruct (as_anchor c) as [a|] eqn:Ea.
    + rewrite IH. split.
      * intros (cs & new & -> & Hf & ->). exists (c :: cs), (a :: new). rewrite <- app_assoc. split_and!; [done | by constructor | done].
      * intros (cs & new & Hc & Hf & ->). destruct cs as [|c' cs]; [done|]. injection Hc as <- ->. inversion Hf; subst.
        simplify_eq. eexists cs, _. rewrite <- app_assoc. by split_and!.
    + split; [done|]. intros (cs & new & Hc & Hf & _). destruct cs as [|c' cs]; [done|]. injection Hc as <- ->. inversion Hf; congruence.
  - split; [done|]. by intros ([|] & new & Hc & _).
Qed.

(** What a connector checks.  With [required] it takes every certificate; with either of the
    modes that verify, a chain to one of the certificates of the bundle, or to one of Mozilla's
    roots without a bundle, made out to the name of the server: the two modes are the same. *)
Theorem connector_checks mode ca keylog c : build_backend_connector mode ca keylog = Ok c ->
  mode <> TlsOff /\ connector_key_log c = nonempty_path keylog /\
  (mode = TlsRequired -> forall presented name, verify_server_cert (verifier c) presented name = true) /\
  (mode <> TlsRequired -> exists roots, (forall presented name, verify_server_cert (verifier c) presented name = webpki_verify roots presented name) /\
     match ca with
     | None => roots = mozilla_roots
     | Some path => exists pem cs, read_file path = Ok pem /\ pem_certs pem = map Ok cs /\ Forall2 (fun c a => as_anchor c = Some a) cs roots
     end).
Proof.
  unfold build_backend_connector. destruct mode; [done| | |].
  1: by intros [= <-].
  all: destruct (root_store ca) as [roots|] eqn:Er; [|done]; intros [= <-]; split_and!; [done..|]; intros _; exists roots; (split; [done|]);
    unfold root_store in Er; destruct ca as [path|]; [|by injection Er as <-];
    destruct (read_file path) as [pem|] eqn:Ef; [|done]; apply add_roots_ok in Er as (cs & new & Hc & Hf & ->); by exists pem, cs.
Qed.
End TlsProps.

Lemma to_hex_reads l : bytes_ok l -> Secret.hex_bytes (to_hex l) = Some l.
Proof.
  intros Hl. apply (hex_bytes_iff (length l)).
  { induction Hl as [|b l _ _ IH]; [done|]. unfold to_hex in *. cbn [map concat app length]. lia. }
  split_and!; [done..|]. change (hex_text l) with (to_hex l). unfold to_ascii_lowercase, to_hex. rewrite concat_map, map_map. f_equal.
  apply map_ext_in. intros b Hb. assert (0 <= b < 256) as Hr by (unfold bytes_ok in Hl; rewrite List.Forall_forall in Hl; by apply Hl). cbn [map].
  unfold hex_digit, ascii_lower. repeat case_match; bool_to_prop; repeat f_equal; Z.to_euclidean_division_equations; lia.
Qed.

Definition one_word (s : bytes) : Prop := without 32 s /\ without 10 s.
Lemma to_hex_word l : bytes_ok l -> one_word (to_hex l).
Proof.
  intros Hl. assert (Forall (fun b => 48 <= b) (to_hex l)) as H.
  { induction Hl as [|b l Hb _ IH]; [constructor|]. unfold to_hex in *. cbn [map concat app]. unfold byte in Hb.
    repeat apply List.Forall_cons; [..|exact IH]; unfold hex_digit; case_match; bool_to_prop; Z.to_euclidean_division_equations; lia. }
  split; (eapply Forall_impl; [|exact H]); cbn beta; lia.
Qed.

(** A session: its label, and the random bytes and the secret. *)
Definition Entry : Type := bytes * bytes * bytes.
Definition entry_ok (e : Entry) : Prop := one_word e.1.1 /\ bytes_ok e.1.2 /\ bytes_ok e.2.
Definition log_entry (file : bytes) (oe : bool * Entry) : bytes := key_log oe.1 oe.2.1.1 oe.2.1.2 oe.2.2 file.
Definition read_entry (line : bytes) : option Entry :=
  match split_on 32 line with
  | [label; r; s] => r ← Secret.hex_bytes r; s ← Secret.hex_bytes s; Some (label, r, s)
  | _ => None
  end.

Lemma key_line_reads e : entry_ok e -> exists line, key_line e.1.1 e.1.2 e.2 = line ++ [10] /\ without 10 line /\ read_entry line = Some e.
Proof.
  destruct e as [[label r] s]. cbn [fst snd]. intros ((Hl1 & Hl2) & Hr & Hs). pose proof (to_hex_word r Hr) as [Hr1 Hr2].
  pose proof (to_hex_word s Hs) as [Hs1 Hs2]. exists (label ++ bs " " ++ to_hex r ++ bs " " ++ to_hex s). split_and!.
  - unfold key_line. by rewrite <- !app_assoc.
  - change (bs " ") with [32]. unfold without in *. rewrite !Forall_app. split_and!; [done | by repeat constructor | done | by repeat constructor | done].
  - unfold read_entry. change (bs " ") with [32]. cbn [app]. rewrite split_on_sep, split_on_sep, split_on_none by done.
    by rewrite !to_hex_reads.
Qed.

(** The log of session keys has a line for each session since the file could be opened, and each
    line gives back its label, its random bytes and its secret. *)
Theorem key_log_reads_back (l : list (bool * Entry)) : Forall (fun oe => entry_ok oe.2) l ->
  exists lines, split_on 10 (foldl log_entry [] l) = lines ++ [[]] /\
    map read_entry lines = map (fun oe => Some oe.2) (List.filter fst l).
Proof.
  intros Hl.
  enough (exists ls, foldl log_entry [] l = concat (map (fun x => x ++ [10]) ls) /\ Forall (without 10) ls /\
    map read_entry ls = map (fun oe => Some oe.2) (List.filter fst l)) as (ls & -> & Hw & Hm).
  { exists ls. split; [|exact Hm]. clear Hm. induction Hw as [|x ls Hx _ IH]; [done|]. cbn [map concat]. rewrite <- app_assoc. cbn [app].
    by rewrite split_on_sep, IH. }
  induction l as [|[o e] l IH] using rev_ind; [by exists []|]. apply Forall_app in Hl as [Hl He]. apply Forall_cons_iff in He as [He _].
  destruct (IH Hl) as (ls & Hf & Hw & Hm). rewrite foldl_app. cbn [foldl]. rewrite Hf, List.filter_app, map_app, <- Hm.
  unfold log_entry at 1, key_log. cbn [fst snd List.filter map] in *. destruct o; [|by exists ls; rewrite app_nil_r].
  destruct (key_line_reads e He) as (line & -> & Hn & Hr). exists (ls ++ [line]). rewrite !map_app, concat_app. cbn [map concat].
  rewrite app_nil_r, Hr. split_and!; [done | | done]. apply Forall_app. by split; [|repeat constructor].
Qed.

(** ** Examples *)

Definition one_key : Entry := (bs "CLIENT_RANDOM", [1; 171], [255]).
Example key_line_ex : key_line (bs "CLIENT_RANDOM") [1; 171] [255] = bs "CLIENT_RANDOM 01ab ff" ++ [10].
Proof. by vm_compute. Qed.
#[local] Instance toy_certificates : Certificates := {|
  Cert := bytes; PrivateKey := bytes; Anchor := bytes; read_file p := if beq p (bs "ca.pem") then Ok (bs "ca") else Err (bs "no such file");
  pem_certs pem := [Ok pem]; pem_key _ := Ok None; as_anchor c := Some c; mozilla_roots := [bs "mozilla"];
  webpki_verify roots presented name := match presented with [c; r] => beq c name && existsb (beq r) roots | _ => false end; key_fits _ _ := true |}.
(** With [verify-ca] a certificate that leads to the bundle is refused for another name. *)
Example name_checked_with_verify_ca :
  match build_backend_connector TlsVerifyCa (Some (bs "ca.pem")) None with
  | Ok c => verify_server_cert (verifier c) [bs "db1"; bs "ca"] (bs "db2")
  | Err _ => true
  end = false.
Proof. by vm_compute. Qed.

Lemma key_log_reads_back_witness : exists lines, split_on 10 (foldl log_entry [] [(true, one_key); (false, one_key)]) = lines ++ [[]] /\
  map read_entry lines = [Some one_key].
Proof.
  apply (key_log_reads_back [(true, one_key); (false, one_key)]).
  assert (entry_ok one_key) as H by (repeat split; apply (bool_decide_unpack _); by vm_compute). by repeat constructor.
Defined.
Lemma connector_checks_witness : exists c : TlsConnector, build_backend_connector TlsVerifyIdentity None None = Ok c /\
  TlsVerifyIdentity <> TlsOff.
Proof.
  eexists. split; [reflexivity|]. exact (proj1 (connector_checks TlsVerifyIdentity None None _ eq_refl)).
Defined.
