(* ===== verification/Connect.v ===== *)
(** * From an address to a channel (the first part of [mysql_connect] in
    src/src/protocol/mysql/mod.rs and of [connect_backend] in src/src/protocol/postgres/mod.rs)

    How the socket of a backend is chosen, and whether the login goes through it plain or
    encrypted, and then verified how.  The exchange of packets is in Handshake and PgAuth; the
    resolver, the sockets and the TLS handshake are parameters. *)

From S2P Require Import Prelude Bytes Config MysqlCodec Handshake PgAuth Tls.

Inductive Address := V4 (a : bytes) | V6 (a : bytes).
Definition is_ipv4 (a : Address) : bool := match a with V4 _ => true | V6 _ => false end.
(** [connect_all] is [TcpStream::connect] of a name: it tries the addresses in their order. *)
Class Network := {
  Socket : Type;
  lookup_host : bytes -> result bytes (list Address);
  tcp_connect : Address -> result bytes Socket;
  connect_all : bytes -> result bytes Socket;
  set_nodelay : Socket -> bool;
  server_name_ok : bytes -> bool         (* [ServerName::try_from] *)
}.

Inductive ConnectError := IoFailed (e : bytes) | NoAddress (family addr : bytes) | NoDelayFailed
| TlsConfig (e : TlsError) | BadServerName (host : bytes) | TlsDeclined (addr : bytes).

Section Connecting.
Context `{NW : Network} `{CE : Certificates}.

Definition lift_io {A} (r : result bytes A) : result ConnectError A := match r with Ok a => Ok a | Err e => Err (IoFailed e) end.
(** The address of the wanted family, or [None] when the system chooses. *)
Definition resolve (resolution_family addr : bytes) : result ConnectError (option Address) :=
  if beq resolution_family (bs "ipv4") || beq resolution_family (bs "ipv6") then
    let want_v4 := beq resolution_family (bs "ipv4") in
    match lookup_host addr with
    | Err e => Err (IoFailed e)
    | Ok found =>
        match List.find (fun a => if want_v4 then is_ipv4 a else negb (is_ipv4 a)) found with
        | Some a => Ok (Some a)
        | None => Err (NoAddress resolution_family addr)
        end
    end
  else Ok None.
Definition open_socket (resolution_family addr : bytes) : result ConnectError Socket :=
  match resolve resolution_family addr with
  | Err e => Err e
  | Ok a =>
      match match a with Some a => tcp_connect a | None => connect_all addr end with
      | Err e => Err (IoFailed e)
      | Ok s => if set_nodelay s then Ok s else Err NoDelayFailed
      end
  end.

(** The part of an address before its first colon. *)
Definition host_of_addr (addr : bytes) : bytes := match split_on 58 addr with h :: _ => h | [] => bs "localhost" end.
(** What the login is sent over: the socket itself, or TLS to a server of that name. *)
Inductive Channel := Plain | Encrypted (c : TlsConnector) (server_name : bytes).
Definition encrypted (config : BackendConfig) : result ConnectError Channel :=
  match build_backend_connector (cfg_tls_mode config) (cfg_tls_ca config) (Some (cfg_ssl_keylog_file config)) with
  | Err e => Err (TlsConfig e)
  | Ok c =>
      let host := host_of_addr (addr config) in
      if server_name_ok host then Ok (Encrypted c host) else Err (BadServerName host)
  end.
(** [server_caps] are the capabilities of the greeting. *)
Definition mysql_channel (config : BackendConfig) (server_caps : Z) : result ConnectError Channel :=
  if bool_decide (cfg_tls_mode config <> TlsOff) then if has_cap server_caps SSL then encrypted config else Ok Plain
  else Ok Plain.
(** [answer] is the byte that answers the request for TLS. *)
Definition pg_channel (config : BackendConfig) (answer : Z) : result ConnectError Channel :=
  match cfg_tls_mode config with
  | TlsOff => Ok Plain
  | mode =>
      if answer =? ch "S" then encrypted config
      else match mode with TlsVerifyCa | TlsVerifyIdentity => Err (TlsDeclined (addr config)) | _ => Ok Plain end
  end.
(** The TLS handshake with a server that presents these certificates. *)
Definition admitted (ch : Channel) (presented : list Cert) : bool :=
  match ch with Plain => true | Encrypted c name => verify_server_cert (verifier c) presented name end.

(** ** Theorems *)

(** With a family the socket is to the first address found that is of it, and to no other. *)
Theorem family_respected family addr s : family = bs "ipv4" \/ family = bs "ipv6" -> open_socket family addr = Ok s ->
  exists before a after, lookup_host addr = Ok (before ++ a :: after) /\ tcp_connect a = Ok s /\
    is_ipv4 a = beq family (bs "ipv4") /\ Forall (fun b => is_ipv4 b <> beq family (bs "ipv4")) before.
Proof.
  intros Hf. unfold open_socket, resolve. assert (beq family (bs "ipv4") || beq family (bs "ipv6") = true) as ->
    by (destruct Hf as [-> | ->]; by vm_compute).
  destruct (lookup_host addr) as [found|]; [|done]. set (v4 := beq family (bs "ipv4")).
  assert (forall l a, List.find (fun a => if v4 then is_ipv4 a else negb (is_ipv4 a)) l = Some a ->
    exists before after, l = before ++ a :: after /\ is_ipv4 a = v4 /\ Forall (fun b => is_ipv4 b <> v4) before) as Hfind.
  { induction l as [|x l IH]; intros a; cbn [List.find]; [done|]. destruct (if v4 then _ else _) eqn:Ex.
    - intros [= ->]. exists [], l. split_and!; [done | by destruct v4, (is_ipv4 a) | constructor].
    - intros (b & c & -> & H1 & H2)%IH. exists (x :: b), c. split_and!; [done..|]. constructor; [by destruct v4, (is_ipv4 x) | done]. }
  destruct (List.find _ found) as [a|] eqn:Ea; [|done]. destruct (tcp_connect a) as [s'|] eqn:Et; [|done].
  destruct (set_nodelay s'); [|done]. intros [= <-]. apply Hfind in Ea as (b & c & -> & H1 & H2). by exists b, a, c.
Qed.

Definition verifies (mode : TlsMode) : Prop := mode = TlsVerifyCa \/ mode = TlsVerifyIdentity.
Lemma encrypted_verifies config ch : verifies (cfg_tls_mode config) -> encrypted config = Ok ch ->
  exists c roots, ch = Encrypted c (host_of_addr (addr config)) /\
    forall presented, admitted ch presented = webpki_verify roots presented (host_of_addr (addr config)).
Proof.
  unfold encrypted. intros Hm. destruct (build_backend_connector _ _ _) as [c|] eqn:Eb; [|done].
  destruct (server_name_ok _); [|done]. intros [= <-]. exists c.
  assert (exists roots, verifier c = WebPki roots) as [roots Hr].
  { unfold build_backend_connector in Eb. destruct Hm as [Hm|Hm]; rewrite Hm in Eb;
      (destruct (root_store _) as [roots|]; [injection Eb as <-; by exists roots | done]). }
  exists roots. split; [done|]. intros presented. unfold admitted. by rewrite Hr.
Qed.

(** With a mode that verifies, the login to a PostgreSQL server goes to nobody but a server with
    a certificate for the host of the address. *)
Theorem pg_login_verified config answer chan : verifies (cfg_tls_mode config) -> pg_channel config answer = Ok chan ->
  exists c roots, chan = Encrypted c (host_of_addr (addr config)) /\
    forall presented, admitted chan presented = webpki_verify roots presented (host_of_addr (addr config)).
Proof.
  intros Hm H. apply encrypted_verifies; [done|]. unfold pg_channel in H.
  destruct Hm as [Hm|Hm]; rewrite Hm in H; destruct (answer =? ch "S"); done.
Qed.
(** To a MySQL server it does so only if the greeting offers TLS: a greeting that does not, from
    whomever it is, gets the login in plain text in every mode. *)
Theorem mysql_login_downgraded config server_caps :
  (has_cap server_caps SSL = false -> mysql_channel config server_caps = Ok Plain) /\
  (forall chan, verifies (cfg_tls_mode config) -> has_cap server_caps SSL = true -> mysql_channel config server_caps = Ok chan ->
     exists c roots, chan = Encrypted c (host_of_addr (addr config)) /\
       forall presented, admitted chan presented = webpki_verify roots presented (host_of_addr (addr config))).
Proof.
  unfold mysql_channel. split.
  - intros ->. by case_bool_decide.
  - intros chan Hm ->. rewrite bool_decide_eq_true_2 by (destruct Hm as [-> | ->]; done). by apply encrypted_verifies.
Qed.
End Connecting.

(** ** Examples *)

#[local] Existing Instance toy_certificates.
#[local] Instance two_stacks : Network := {|
  Socket := Address; lookup_host _ := Ok [V6 (bs "::1"); V4 (bs "127.0.0.1")]; tcp_connect a := Ok a; connect_all _ := Ok (V6 (bs "::1"));
  set_nodelay _ := true; server_name_ok h := negb (beq h (bs "[")) |}.
Definition backend_at (a : bytes) (mode : TlsMode) : BackendConfig := {|
  addr := a; cfg_user := bs "app"; cfg_password := []; cfg_database := None; cfg_tls_mode := mode; cfg_tls_ca := None; cfg_tls_cert := None;
  cfg_tls_key := None; cfg_weight := 100; cfg_backup := false; init_connect := []; cfg_compression := Config.NoCompression;
  cfg_resolution_family := bs "ipv4"; cfg_ssl_keylog_file := []; max_connections := None |}.

Example families : open_socket (NW := two_stacks) (bs "ipv4") (bs "localhost:3306") = Ok (V4 (bs "127.0.0.1")) /\
  open_socket (NW := two_stacks) (bs "system") (bs "localhost:3306") = Ok (V6 (bs "::1")) /\ host_of_addr (bs "db.example.com:3306") = bs "db.example.com".
Proof. by vm_compute. Qed.
(** The host of an address in brackets is the bracket, which is no name. *)
Example ipv6_literal_has_no_name :
  pg_channel (backend_at (bs "[::1]:5432") TlsRequired) (ch "S") = Err (BadServerName (bs "[")).
Proof. by vm_compute. Qed.
(** The login of a backend that must be verified, to a server that offers no TLS. *)
Example verified_mode_goes_plain : mysql_channel (backend_at (bs "db:3306") TlsVerifyIdentity) 0 = Ok Plain.
Proof. by vm_compute. Qed.

Lemma family_respected_witness : exists before a after,
  lookup_host (bs "db:3306") = Ok (before ++ a :: after) /\ tcp_connect (Network := two_stacks) a = Ok (V4 (bs "127.0.0.1")) /\
  is_ipv4 a = beq (bs "ipv4") (bs "ipv4") /\ Forall (fun b => is_ipv4 b <> beq (bs "ipv4") (bs "ipv4")) before.
Proof. apply (family_respected (NW := two_stacks) (bs "ipv4") (bs "db:3306") (V4 (bs "127.0.0.1"))); [by left | by vm_compute]. Defined.
Lemma pg_login_verified_witness : exists (c : TlsConnector) (roots : list Anchor),
  Encrypted {| verifier := WebPki mozilla_roots; connector_key_log := None |} (bs "db") = Encrypted c (bs "db") /\
  forall presented, admitted (Encrypted {| verifier := WebPki mozilla_roots; connector_key_log := None |} (bs "db")) presented =
    webpki_verify roots presented (bs "db").
Proof.
  apply (pg_login_verified (backend_at (bs "db:5432") TlsVerifyCa) (ch "S")); [by left | by vm_compute].
Defined.
