(* ===== verification/IndexAdvisor.v ===== *)
(** * The index advisor (src/src/analytics/advisor.rs)

    Slow statements are explained on the primary, and an index is suggested for each table
    whose condition names columns.  The plan is not parsed as JSON: every field is looked up
    as text, from the name of the table to the end of the plan.  Texts are bytes of UTF-8; a
    search for ASCII finds character boundaries. *)

From Stdlib Require Import SpecFloat.
From S2P Require Import Prelude Bytes Analytics FloatText.

Inductive AccessType := All | Index | Range | Ref | EqRef | Const | Other.
#[export] Instance access_eq_dec : EqDecision AccessType.
Proof. solve_decision. Defined.

Record ExplainSignals := {
  table : bytes; access_type : AccessType; rows_examined : Z; filtered_pct : spec_float;
  has_filesort : bool; has_temp_table : bool; used_index : option bytes;
  possible_indexes : list bytes; where_columns : list bytes
}.
Record IndexSuggestion := { i_table : bytes; columns : list bytes; reason : bytes; ddl : bytes }.

(** ** Fields looked up as text *)

Definition quoted (key : bytes) : bytes := [dquote] ++ key ++ [dquote].
(** What follows the first occurrence of the key and its colon. *)
Definition after_key (json key : bytes) : option bytes :=
  pos ← str_find json (quoted key);
  match trim_start (drop (pos + length (quoted key)) json) with
  | 58 :: after => Some (trim_start after)
  | _ => None
  end.

Definition extract_str_value (json key : bytes) : option bytes :=
  match after_key json key with
  | Some (34 :: inner) =>
      end_ ← find_byte (fun b => b =? dquote) inner;
      let val := take end_ inner in
      if beq val (bs "null") || beq val [] then None else Some val
  | _ => None
  end.
Definition extract_u64_value (json key : bytes) : option Z :=
  after ← after_key json key;
  end_ ← find_byte (fun b => negb (is_digit b)) after;
  parse_uint 64 (take end_ after).
Definition extract_f32_value (json key : bytes) : option spec_float :=
  after ← after_key json key;
  let after := trim_matches dquote after in
  end_ ← find_byte (fun b => negb (is_digit b) && negb (b =? 46) && negb (b =? 45)) after;
  parse_f32 (take end_ after).
Definition extract_bool_value (json key : bytes) : bool :=
  match after_key json key with Some after => starts_with after (bs "true") | None => false end.
Definition array_item (s : bytes) : option bytes :=
  let trimmed := trim_matches dquote (trim s) in
  if beq trimmed [] || beq trimmed (bs "null") then None else Some trimmed.
Definition extract_array_strings (json key : bytes) : list bytes :=
  match after_key json key with
  | Some (91 :: after) =>
      match find_byte (fun b => b =? 93) after with
      | Some e => omap array_item (split_on 44 (take e after))
      | None => []
      end
  | _ => []
  end.

(** ** Columns of a condition *)

Definition backtick : Z := 96.
Definition tick_dot_tick : bytes := [96; 46; 96].
(** The name that starts here, and what follows it. *)
Definition name_end (s : bytes) : nat := default (length s) (find_byte (fun b => b =? backtick) s).
Definition add_column (after_dot : bytes) (cols : list bytes) : list bytes :=
  let col := take (name_end after_dot) after_dot in
  let is_mid_chain := starts_with (drop (name_end after_dot) after_dot) tick_dot_tick in
  if negb is_mid_chain && negb (beq col []) && negb (mem col cols) then cols ++ [col] else cols.
(** [fuel] is one more than the bytes left; every step takes at least three. *)
Fixpoint columns_loop (fuel : nat) (s : bytes) (cols : list bytes) : list bytes :=
  match fuel with
  | O => cols
  | S fuel' =>
      match str_find s tick_dot_tick with
      | None => cols
      | Some dot => let after_dot := drop (dot + 3) s in columns_loop fuel' after_dot (add_column after_dot cols)
      end
  end.
Definition condition_columns (condition : bytes) : list bytes := columns_loop (S (length condition)) condition [].
Definition extract_where_columns (json : bytes) : list bytes :=
  match extract_str_value json (bs "attached_condition") with Some c => condition_columns c | None => [] end.

(** ** Suggestions *)

Definition join (sep : bytes) (l : list bytes) : bytes :=
  match l with [] => [] | x :: l => foldl (fun acc y => acc ++ sep ++ y) x l end.

Definition ten : spec_float := binary_normalize 24 128 10 0 false.
Definition is_problematic (a : AccessType) : bool := bool_decide (a = All) || bool_decide (a = Index).
Definition build_reason (s : ExplainSignals) : bytes :=
  let scan := if bool_decide (access_type s = All) then bs "table" else bs "index" in
  let parts :=
    (if is_problematic (access_type s) then [bs "full " ++ scan ++ bs " scan (" ++ show_u64 (rows_examined s) ++ bs " rows)"] else [])
    ++ (if has_filesort s then [bs "filesort (ORDER BY without index)"] else [])
    ++ (if has_temp_table s then [bs "temporary table (GROUP BY/DISTINCT without index)"] else [])
    ++ (if SFltb (filtered_pct s) ten then [bs "low selectivity (" ++ show_fixed 1 (filtered_pct s) ++ bs "% rows pass filter)"] else []) in
  match parts with
  | [] => bs "query performance may benefit from an index"
  | _ => join (bs "; ") parts
  end.
Definition build_suggestion (s : ExplainSignals) : option IndexSuggestion :=
  if beq (table s) [] then None
  else match where_columns s with
       | [] => None
       | cols =>
           let idx_name := bs "idx_" ++ table s ++ bs "_" ++ join (bs "_") cols in
           Some {| i_table := table s; columns := cols; reason := build_reason s;
                   ddl := bs "CREATE INDEX " ++ idx_name ++ bs " ON " ++ table s ++ bs " (" ++ join (bs ", ") cols ++ bs ");" |}
       end.

Section Plans.
Context `{CT : CaseTable}.
Definition access_from_str (s : bytes) : AccessType :=
  let s := to_lowercase s in
  if beq s (bs "all") then All else if beq s (bs "index") then Index else if beq s (bs "range") then Range
  else if beq s (bs "ref") then Ref else if beq s (bs "eq_ref") then EqRef
  else if beq s (bs "const") || beq s (bs "system") then Const else Other.

Definition table_name : bytes := quoted (bs "table_name").
Definition read_signals (remaining : bytes) : ExplainSignals :=
  {| table := default [] (extract_str_value remaining (bs "table_name"));
     access_type := access_from_str (default [] (extract_str_value remaining (bs "access_type")));
     rows_examined := default 0 (extract_u64_value remaining (bs "rows_examined_per_scan"));
     filtered_pct := default (binary_normalize 24 128 100 0 false) (extract_f32_value remaining (bs "filtered"));
     has_filesort := extract_bool_value remaining (bs "using_filesort");
     has_temp_table := extract_bool_value remaining (bs "using_temporary_table");
     used_index := extract_str_value remaining (bs "key");
     possible_indexes := extract_array_strings remaining (bs "possible_keys");
     where_columns := extract_where_columns remaining |}.
(** [fuel] is one more than the bytes left; every step takes at least one. *)
Fixpoint signals_loop (fuel : nat) (remaining : bytes) : list ExplainSignals :=
  match fuel with
  | O => []
  | S fuel' =>
      match str_find remaining table_name with
      | None => []
      | Some pos => let remaining := drop pos remaining in read_signals remaining :: signals_loop fuel' (drop 1 remaining)
      end
  end.
Definition parse_explain_json (json : bytes) : list ExplainSignals := signals_loop (S (length json)) json.

(** ** The background task *)

Record ExplainRequest := { sql : bytes; fingerprint : bytes }.
Record AdvisorTask := { waiting : list ExplainRequest; suggestions : gmap bytes IndexSuggestion }.
Definition CHANNEL_CAP : nat := 64.
Definition advisor_new : AdvisorTask := {| waiting := []; suggestions := ∅ |}.
Definition try_submit (sql fingerprint : bytes) (t : AdvisorTask) : AdvisorTask :=
  if decide (length (waiting t) < CHANNEL_CAP)%nat
  then {| waiting := waiting t ++ [{| sql := sql; fingerprint := fingerprint |}]; suggestions := suggestions t |}
  else t.
Definition get_suggestions `{!MapOrder bytes IndexSuggestion} (t : AdvisorTask) : list IndexSuggestion :=
  map snd (iter (suggestions t)).

(** [Collector::try_advise]: the advisor, if the collector has one, is sent the slow statements. *)
Definition try_advise (sql fingerprint : bytes) (slow_threshold duration : Z) (advisor : option AdvisorTask) : option AdvisorTask :=
  if slow_threshold <=? duration then try_submit sql fingerprint <$> advisor else advisor.

(** From the first opening to the last closing brace of the answer. *)
Definition extract_explain_text (answer : bytes) : bytes :=
  match find_byte (fun b => b =? 123) answer, find_byte (fun b => b =? 125) (rev answer) with
  | Some start, Some back =>
      let end_ := (length answer - 1 - back)%nat in
      if decide (start <= end_)%nat then utf8_lossy (take (end_ + 1 - start) (drop start answer)) else []
  | _, _ => []
  end.
Definition explain_sql (query : bytes) : bytes := bs "EXPLAIN FORMAT=JSON " ++ query.
Definition suggest (fp : bytes) (m : gmap bytes IndexSuggestion) (s : ExplainSignals) : gmap bytes IndexSuggestion :=
  match build_suggestion s with Some i => <[fp := i]> m | None => m end.
(** One turn of [advisor_loop]; [backend] answers a statement, or fails to connect or to
    answer. *)
Definition advisor_turn (backend : bytes -> option bytes) (t : AdvisorTask) : AdvisorTask :=
  match waiting t with
  | [] => t
  | req :: rest =>
      match backend (explain_sql (sql req)) with
      | None => {| waiting := rest; suggestions := suggestions t |}
      | Some answer =>
          {| waiting := rest;
             suggestions := foldl (suggest (fingerprint req)) (suggestions t) (parse_explain_json (extract_explain_text answer)) |}
      end
  end.
End Plans.

(** ** Every table of the plan is read *)

Fixpoint suffixes (s : bytes) : list bytes :=
  s :: match s with [] => [] | _ :: s' => suffixes s' end.
Definition starting (p : bytes) (s : bytes) : list bytes := List.filter (fun r => starts_with r p) (suffixes s).

Lemma starting_absent p s : (forall k, starts_with (drop k s) p = false) -> starting p s = [].
Proof.
  unfold starting. induction s as [|c s IH]; intros H; cbn [suffixes List.filter].
  - by rewrite (H 0%nat : starts_with [] p = false).
  - rewrite (H 0%nat : starts_with (c :: s) p = false). apply IH. intros k. apply (H (S k)).
Qed.
Lemma starting_next p s i j : p <> [] -> find_from i s p = Some j ->
  starting p s = drop (j - i) s :: starting p (drop (S (j - i)) s) /\ drop (j - i) s <> [].
Proof.
  intros Hp. revert i. induction s as [|c s IH]; intros i; cbn [find_from].
  - destruct p; [done|]. cbn. discriminate.
  - unfold starting at 1. cbn [suffixes List.filter]. destruct (starts_with (c :: s) p) eqn:E.
    + intros [= ->]. by rewrite Nat.sub_diag.
    + intros H. pose proof (find_from_some _ _ _ _ H) as [Hle _].
      replace (j - i)%nat with (S (j - S i)) by lia. by apply IH.
Qed.

Section PlanProps.
Context `{CT : CaseTable}.

Lemma signals_loop_enough fuel s : (length s < fuel)%nat -> signals_loop fuel s = map read_signals (starting table_name s).
Proof.
  revert s. induction fuel as [|fuel IH]; intros s Hf; [lia|]. cbn [signals_loop].
  destruct (str_find s table_name) as [pos|] eqn:E.
  - destruct (starting_next table_name s 0 pos ltac:(done) E) as [Hs Hne]. rewrite Nat.sub_0_r in Hs, Hne.
    rewrite Hs. cbn [map]. f_equal. rewrite drop_drop, Nat.add_1_r. apply IH.
    rewrite length_drop. destruct (decide (length s = 0)%nat) as [Hz|]; [|lia].
    apply nil_length_inv in Hz as ->. by rewrite drop_nil in Hne.
  - by rewrite (starting_absent _ _ (find_from_none _ _ _ E)).
Qed.

(** The plan is read once for every occurrence of the key of a table, each time from there to
    the end of the plan: the loop ends, misses none and reads none twice. *)
Theorem one_signal_per_table json : parse_explain_json json = map read_signals (starting table_name json).
Proof. apply signals_loop_enough. lia. Qed.
End PlanProps.

(** ** The columns of a condition *)

Definition no_tick (s : bytes) : Prop := Forall (fun b => b <> backtick) s.
(** A qualified name that ends the chain it is in. *)
Definition column_of (condition col : bytes) : Prop :=
  exists a r, condition = a ++ tick_dot_tick ++ col ++ r /\ col <> [] /\ no_tick col
    /\ (r = [] \/ head r = Some backtick) /\ starts_with r tick_dot_tick = false.

Lemma name_end_spec s :
  no_tick (take (name_end s) s) /\ (drop (name_end s) s = [] \/ head (drop (name_end s) s) = Some backtick).
Proof.
  unfold name_end, find_byte, no_tick. destruct (find_byte_from 0 (fun b => b =? backtick) s) as [j|] eqn:E; cbn [default from_option id].
  - apply find_byte_from_some in E as [_ (c & r & Hd & Hc & Hb)]. rewrite Nat.sub_0_r in *. rewrite Hd. bool_to_prop. subst c.
    split; [|by right]. eapply Forall_impl; [|exact Hb]. cbn. intros x Hx. bool_to_prop. done.
  - apply find_byte_from_none in E. rewrite take_ge, drop_ge by lia. split; [|by left].
    eapply Forall_impl; [|exact E]. cbn. intros x Hx. bool_to_prop. done.
Qed.
Lemma add_column_ok condition a after_dot cols :
  condition = a ++ tick_dot_tick ++ after_dot -> NoDup cols /\ Forall (column_of condition) cols ->
  NoDup (add_column after_dot cols) /\ Forall (column_of condition) (add_column after_dot cols).
Proof.
  intros Hc [Hn Hf]. unfold add_column. pose proof (name_end_spec after_dot) as [H1 H2].
  destruct (starts_with (drop (name_end after_dot) after_dot) tick_dot_tick) eqn:E1; [done|].
  destruct (beq (take (name_end after_dot) after_dot) []) eqn:E2; [done|].
  destruct (mem (take (name_end after_dot) after_dot) cols) eqn:E3; [done|]. cbn [negb andb].
  apply mem_false in E3. split.
  - apply list.NoDup_app. split_and!; [done| |by apply NoDup_singleton]. intros x Hx Hs. by apply list_elem_of_singleton in Hs as ->.
  - apply Forall_app. split; [done|]. apply Forall_singleton. exists a, (drop (name_end after_dot) after_dot).
    rewrite take_drop. split_and!; try done. intros Hq. by rewrite Hq in E2.
Qed.
Lemma columns_loop_ok fuel condition a s cols : condition = a ++ s -> NoDup cols /\ Forall (column_of condition) cols ->
  NoDup (columns_loop fuel s cols) /\ Forall (column_of condition) (columns_loop fuel s cols).
Proof.
  revert a s cols. induction fuel as [|fuel IH]; intros a s cols Hc Hok; [done|]. cbn [columns_loop].
  destruct (str_find s tick_dot_tick) as [dot|] eqn:E; [|done]. apply str_find_some in E as [_ E].
  rewrite E in Hc. change (length tick_dot_tick) with 3%nat in Hc.
  apply (IH (a ++ take dot s ++ tick_dot_tick)).
  - by rewrite Hc, <- !app_assoc.
  - apply (add_column_ok _ (a ++ take dot s)); [|done]. by rewrite Hc, <- !app_assoc.
Qed.
(** The columns suggested for an index are distinct names that end a qualified name of the
    condition. *)
Theorem columns_are_named condition :
  NoDup (condition_columns condition) /\ Forall (column_of condition) (condition_columns condition).
Proof. apply (columns_loop_ok _ condition []); [done|]. split; [apply NoDup_nil_2 | done]. Qed.

(** *** Conditions as the server writes them *)

Definition ticked (name : bytes) : bytes := backtick :: name ++ [backtick].
(** The first name of a chain, the names after it, and the text up to the next chain. *)
Definition reference : Type := bytes * list bytes * bytes.
Definition chain (names : list bytes) (after : bytes) : bytes := foldr (fun q s => 46 :: ticked q ++ s) after names.
Fixpoint references (l : list reference) : bytes :=
  match l with [] => [] | (first, names, t) :: l => ticked first ++ chain names (t ++ references l) end.
Definition add_named (cols : list bytes) (r : reference) : list bytes :=
  match list.last r.1.2 with Some col => if mem col cols then cols else cols ++ [col] | None => cols end.
Definition name_ok (n : bytes) : Prop := no_tick n /\ n <> [].
Definition text_ok (t : bytes) : Prop := no_tick t /\ t <> [46].
Definition reference_ok (r : reference) : Prop :=
  name_ok r.1.1 /\ r.1.1 <> [46] /\ Forall name_ok r.1.2 /\ text_ok r.2.

Definition scan (s : bytes) (cols : list bytes) : list bytes := columns_loop (S (length s)) s cols.
Lemma columns_loop_fuel n fuel s cols : (length s < n)%nat -> (length s < fuel)%nat ->
  columns_loop fuel s cols = columns_loop n s cols.
Proof.
  revert n s cols. induction fuel as [|fuel IH]; intros n s cols Hn Hf; [lia|].
  destruct n as [|n]; [lia|]. cbn [columns_loop]. destruct (str_find s tick_dot_tick) as [dot|] eqn:E; [|done].
  apply str_find_some in E as [E _]. change (length tick_dot_tick) with 3%nat in E.
  apply IH; rewrite length_drop; lia.
Qed.
Lemma scan_enough fuel s cols : (length s < fuel)%nat -> columns_loop fuel s cols = scan s cols.
Proof. intros H. apply columns_loop_fuel; [lia | done]. Qed.
(** Nothing is found that starts in [p]. *)
Definition passes (p s : bytes) : Prop := forall k, (k < length p)%nat -> starts_with (drop k (p ++ s)) tick_dot_tick = false.
Lemma find_passes p s i : passes p s -> find_from i (p ++ s) tick_dot_tick = find_from (i + length p) s tick_dot_tick.
Proof.
  revert i. induction p as [|c p IH]; intros i Hp; [by rewrite Nat.add_0_r|]. cbn [app find_from].
  rewrite (Hp 0%nat ltac:(cbn; lia) : starts_with (c :: p ++ s) _ = false), IH.
  - cbn [length]. f_equal. lia.
  - intros k Hk. apply (Hp (S k)). cbn. lia.
Qed.
Lemma find_shift i s : find_from i s tick_dot_tick = (fun j => i + j)%nat <$> str_find s tick_dot_tick.
Proof.
  unfold str_find. replace i with (i + 0)%nat at 1 by lia. generalize 0%nat as j. intros j. revert j.
  induction s as [|c s IH]; intros j; cbn [find_from]; destruct (starts_with _ tick_dot_tick) eqn:E; try done.
  rewrite <- IH. f_equal. lia.
Qed.
Lemma scan_passes p s cols : passes p s -> scan (p ++ s) cols = scan s cols.
Proof.
  intros Hp. unfold scan at 1. cbn [columns_loop]. unfold str_find at 1. rewrite find_passes, find_shift by done.
  unfold scan. cbn [columns_loop]. destruct (str_find s tick_dot_tick) as [j|] eqn:E; cbn [fmap option_fmap option_map]; [|done].
  replace (drop (0 + length p + j + 3) (p ++ s)) with (drop (j + 3) s)
    by (replace (0 + length p + j + 3)%nat with (length p + (j + 3))%nat by lia; by rewrite <- (drop_drop _ (j + 3)), drop_app_length).
  apply str_find_some in E as [E _]. change (length tick_dot_tick) with 3%nat in E.
  rewrite !scan_enough by (rewrite length_drop, ?length_app; lia). done.
Qed.
Lemma passes_no_tick p s : no_tick p -> passes p s.
Proof.
  intros Hp k Hk. destruct (lookup_lt_is_Some_2 p k Hk) as [c Hc]. pose proof (Forall_lookup_1 _ _ _ _ Hp Hc) as Hb.
  rewrite (drop_S (p ++ s) c k) by (by apply lookup_app_l_Some). cbn [starts_with tick_dot_tick].
  destruct (c =? 96) eqn:E; [|done]. bool_to_prop. by subst c.
Qed.
Lemma tick_text t s : text_ok t -> s = [] \/ head s = Some backtick ->
  starts_with (backtick :: t ++ s) tick_dot_tick = false.
Proof.
  intros [Ht Hd] Hs. cbn. destruct t as [|c t]; cbn [app].
  - destruct s as [|d s]; [done|]. destruct Hs as [|[= ->]]; done.
  - destruct (c =? 46) eqn:E; [|done]. bool_to_prop. subst c. destruct t as [|d t].
    + done.
    + apply Forall_cons_iff in Ht as [_ [Hdt _]%Forall_cons_iff]. cbn [app].
      destruct (d =? 96) eqn:E; [bool_to_prop; by subst d | done].
Qed.
Lemma passes_tick_text t s : text_ok t -> s = [] \/ head s = Some backtick -> passes (backtick :: t) s.
Proof.
  intros Ht Hs [|k] Hk; [by apply tick_text|]. cbn [app drop]. apply passes_no_tick; [apply Ht|]. cbn in Hk. lia.
Qed.
Lemma take_name q s : no_tick q -> name_end (q ++ backtick :: s) = length q.
Proof.
  intros Hq. unfold name_end, find_byte. assert (forall i, find_byte_from i (fun b => b =? backtick) (q ++ backtick :: s) = Some (i + length q)%nat) as ->.
  { induction Hq as [|c q Hc Hq IH]; intros i; cbn; [by rewrite Nat.add_0_r|].
    destruct (c =? backtick) eqn:E; [bool_to_prop; done|]. rewrite IH. f_equal. lia. }
  done.
Qed.
Lemma scan_qualified q s cols : name_ok q ->
  scan (backtick :: 46 :: ticked q ++ s) cols =
  scan (backtick :: s) (if starts_with (backtick :: s) tick_dot_tick || mem q cols then cols else cols ++ [q]).
Proof.
  intros [Hq Hne]. unfold ticked. unfold scan at 1. cbn [columns_loop app]. rewrite <- app_assoc. cbn [app].
  change (str_find (backtick :: 46 :: backtick :: q ++ backtick :: s) tick_dot_tick) with (Some 0%nat). cbn [drop Nat.add].
  rewrite drop_0, scan_enough by (cbn; lia). rewrite (scan_passes q) by (by apply passes_no_tick). f_equal.
  unfold add_column. rewrite take_name by done. rewrite take_app_length, drop_app_length.
  destruct (starts_with _ _); [done|]. destruct (beq q []) eqn:E; [by apply beq_true in E|]. by destruct (mem q cols).
Qed.
Lemma references_head l : references l = [] \/ head (references l) = Some backtick.
Proof. destruct l as [|[[first names] t] l]; [by left | by right]. Qed.
Lemma scan_chain names t l cols : Forall name_ok names -> text_ok t ->
  scan (backtick :: chain names (t ++ references l)) cols = scan (references l) (add_named cols ([], names, t)).
Proof.
  intros Hn Ht. revert cols. induction Hn as [|q names Hq Hn IH]; intros cols; cbn [chain foldr].
  - apply (scan_passes (backtick :: t)). apply passes_tick_text; [done | apply references_head].
  - rewrite scan_qualified by done. fold (chain names (t ++ references l)).
    destruct names as [|q' names]; cbn [chain foldr].
    + rewrite tick_text by (done || apply references_head).
      apply (scan_passes (backtick :: t)). apply passes_tick_text; [done | apply references_head].
    + apply IH.
Qed.
Lemma scan_references l cols : Forall reference_ok l -> scan (references l) cols = foldl add_named cols l.
Proof.
  intros Hl. revert cols. induction Hl as [|[[first names] t] l (Hf & Hd & Hn & Ht) _ IH]; intros cols; [done|].
  cbn [references foldl]. unfold ticked. cbn [app]. rewrite <- app_assoc. cbn [app]. cbn in Hf, Hd, Hn, Ht.
  rewrite <- IH. transitivity (scan (backtick :: chain names (t ++ references l)) cols); [|by apply scan_chain].
  apply (scan_passes (backtick :: first)). apply passes_tick_text; [split; [apply Hf | done] | by right].
Qed.
(** A condition made of quoted, qualified names and text without quotes between them gives the
    last name of each, in order and once. *)
Theorem columns_complete t l : no_tick t -> Forall reference_ok l ->
  condition_columns (t ++ references l) = foldl add_named [] l.
Proof.
  intros Ht Hl. rewrite <- scan_references by done. unfold condition_columns. rewrite scan_enough by lia.
  apply scan_passes, passes_no_tick, Ht.
Qed.

(** ** What the background task suggests *)

Section Task.
Context `{CT : CaseTable}.

(** The task, what was submitted, and what the backend answered to which statement. *)
Record History := { task : AdvisorTask; submitted : list ExplainRequest; answered : list (bytes * bytes) }.
Definition backend_of (s : History) (backend : bytes -> option bytes) : list (bytes * bytes) :=
  match waiting (task s) with
  | [] => answered s
  | req :: _ => match backend (explain_sql (sql req)) with
                | Some a => (explain_sql (sql req), a) :: answered s
                | None => answered s
                end
  end.
Inductive advisor_step : History -> History -> Prop :=
| submits s q fp :
    advisor_step s {| task := try_submit q fp (task s); submitted := {| sql := q; fingerprint := fp |} :: submitted s; answered := answered s |}
| turns s backend :
    advisor_step s {| task := advisor_turn backend (task s); submitted := submitted s; answered := backend_of s backend |}.
Definition advisor_start : History := {| task := advisor_new; submitted := []; answered := [] |}.

Definition explained (s : History) (fp : bytes) (i : IndexSuggestion) : Prop :=
  exists req a signals, req ∈ submitted s /\ fingerprint req = fp /\ (explain_sql (sql req), a) ∈ answered s
    /\ signals ∈ parse_explain_json (extract_explain_text a) /\ build_suggestion signals = Some i.
Definition advisor_ok (s : History) : Prop :=
  (length (waiting (task s)) <= CHANNEL_CAP)%nat
  /\ Forall (fun req => req ∈ submitted s) (waiting (task s))
  /\ forall fp i, suggestions (task s) !! fp = Some i -> explained s fp i.

Lemma explained_later s s' fp i :
  (forall r, r ∈ submitted s -> r ∈ submitted s') -> (forall x, x ∈ answered s -> x ∈ answered s') ->
  explained s fp i -> explained s' fp i.
Proof.
  intros Hs Ha (req & a & signals & H1 & H2 & H3 & H4). exists req, a, signals. split_and!; [by apply Hs | done | by apply Ha | by apply H4..].
Qed.
Lemma suggest_all fp l m fp' i : foldl (suggest fp) m l !! fp' = Some i ->
  m !! fp' = Some i \/ fp' = fp /\ exists signals, signals ∈ l /\ build_suggestion signals = Some i.
Proof.
  revert m. induction l as [|x l IH]; intros m H; [by left|]. apply IH in H as [H|(-> & y & Hy & Hb)].
  - unfold suggest in H. destruct (build_suggestion x) as [j|] eqn:E; [|by left].
    destruct (decide (fp' = fp)) as [->|]; [|rewrite lookup_insert_ne in H by done; by left].
    rewrite lookup_insert_eq in H. injection H as <-. right. split; [done|]. exists x. split; [by left | done].
  - right. split; [done|]. exists y. split; [by right | done].
Qed.
Lemma advisor_step_ok s s' : advisor_step s s' -> advisor_ok s -> advisor_ok s'.
Proof.
  intros Hstep (Hl & Hw & Hs). destruct Hstep as [s q fp|s backend].
  - unfold advisor_ok, try_submit. cbn [task submitted].
    assert (Forall (fun req => req ∈ {| sql := q; fingerprint := fp |} :: submitted s) (waiting (task s))) as Hw'
      by (eapply Forall_impl; [|exact Hw]; intros r Hr; by right).
    assert (forall fp' i, suggestions (task s) !! fp' = Some i ->
      explained {| task := try_submit q fp (task s); submitted := {| sql := q; fingerprint := fp |} :: submitted s; answered := answered s |} fp' i) as Hs'.
    { intros fp' i H. eapply explained_later; [| |by apply Hs]; cbn; [by right | done]. }
    destruct (decide _); cbn [waiting suggestions]; [|done]. rewrite length_app. cbn [length].
    split_and!; [lia| |done]. apply Forall_app. split; [done|]. apply Forall_singleton. by left.
  - unfold advisor_ok, advisor_turn, backend_of. cbn [task submitted answered].
    destruct (waiting (task s)) as [|req rest] eqn:Ew; [rewrite Ew; split_and!; [done..|]; intros fp i H; by apply Hs in H|].
    apply Forall_cons_iff in Hw as [Hreq Hrest]. cbn in Hl.
    destruct (backend (explain_sql (sql req))) as [a|]; cbn [waiting suggestions]; (split_and!; [lia | done |]).
    + intros fp i [H|(-> & signals & H1 & H2)]%suggest_all.
      * eapply explained_later; [| |by apply Hs]; cbn; [done | by right].
      * exists req, a, signals. cbn. split_and!; try done. by left.
    + intros fp i H. by apply Hs in H.
Qed.
(** At most sixty-four statements wait to be explained; and a suggestion for a fingerprint is
    what a submitted statement of that fingerprint was explained to need, by the answer of the
    backend. *)
Theorem suggestions_are_explained s : steps advisor_step advisor_start s ->
  (length (waiting (task s)) <= CHANNEL_CAP)%nat
  /\ forall fp i, suggestions (task s) !! fp = Some i -> explained s fp i.
Proof.
  intros H. apply (steps_invariant advisor_step advisor_ok) in H as (H1 & _ & H2); [done| |].
  - intros s1 s2 Hok Hst. by apply (advisor_step_ok s1).
  - split_and!; [cbn; lia | constructor | done].
Qed.
End Task.

(** ** Plans *)

(** A text with [~] for the quote. *)
Definition plan (s : string) : bytes := map (fun b => if b =? 126 then dquote else b) (bs s).
Definition full_scan : bytes := plan
  "{ ~query_block~: { ~select_id~: 1, ~table~: { ~table_name~: ~orders~, ~access_type~: ~ALL~, ~rows_examined_per_scan~: 15000, ~filtered~: ~10.00~, ~using_filesort~: true, ~attached_condition~: ~(`shop`.`orders`.`status` = 'pending')~ } } }".
Definition two_tables : bytes := plan
  "{ ~table~: { ~table_name~: ~a~, ~access_type~: ~const~, ~filtered~: ~100.00~ }, ~table~: { ~table_name~: ~b~, ~access_type~: ~ALL~, ~attached_condition~: ~(`s`.`b`.`x` > 1)~ } }".
Definition indexed : bytes := plan
  "{ ~table~: { ~table_name~: ~users~, ~access_type~: ~range~, ~filtered~: ~100.00~, ~key~: ~idx_users_email~, ~attached_condition~: ~(`s`.`users`.`email` like 'a%')~ } }".

#[local] Instance ascii_cases : CaseTable := ascii_table.
Example full_scan_suggestion :
  map build_suggestion (parse_explain_json full_scan) =
  [Some {| i_table := bs "orders"; columns := [bs "status"];
           reason := bs "full table scan (15000 rows); filesort (ORDER BY without index)";
           ddl := bs "CREATE INDEX idx_orders_status ON orders (status);" |}].
Proof. by vm_compute. Qed.
(** A table without a condition is given the one of the next table: an index on a column it
    does not have. *)
Example next_tables_condition :
  map ddl (omap build_suggestion (parse_explain_json two_tables)) =
  [bs "CREATE INDEX idx_a_x ON a (x);"; bs "CREATE INDEX idx_b_x ON b (x);"].
Proof. by vm_compute. Qed.
(** The index in use is suggested again. *)
Example used_index_suggested :
  map (fun s => (used_index s, ddl <$> build_suggestion s)) (parse_explain_json indexed) =
  [(Some (bs "idx_users_email"), Some (bs "CREATE INDEX idx_users_email ON users (email);"))].
Proof. by vm_compute. Qed.
(** The condition ends at its first quote, also at one that the server has escaped. *)
Example quote_ends_condition :
  extract_where_columns (plan "~table_name~: ~t~, ~attached_condition~: ~(`s`.`t`.`a` = '\~') and (`s`.`t`.`b` = 1)~") = [bs "a"].
Proof. by vm_compute. Qed.

Lemma columns_complete_witness :
  no_tick (bs "(") /\ Forall reference_ok [(bs "s", [bs "t"; bs "a"], bs " = "); (bs "s", [bs "u"; bs "b"], bs ")")] /\
  condition_columns (bs "(" ++ references [(bs "s", [bs "t"; bs "a"], bs " = "); (bs "s", [bs "u"; bs "b"], bs ")")]) = [bs "a"; bs "b"].
Proof.
  assert (no_tick (bs "(")) as H1 by (apply (bool_decide_unpack _); by vm_compute).
  assert (Forall reference_ok [(bs "s", [bs "t"; bs "a"], bs " = "); (bs "s", [bs "u"; bs "b"], bs ")")]) as H2.
  { assert (forall t, bool_decide (Forall (fun b => b <> backtick) t) = true -> no_tick t) as Hb
      by (intros t Ht; exact (bool_decide_unpack _ (Is_true_true_2 _ Ht))).
    repeat first [ apply Forall_cons | apply Forall_nil | split | (apply Hb; by vm_compute) | done ]. }
  split_and!; [done..|]. by rewrite (columns_complete _ _ H1 H2).
Defined.

Definition advised : History :=
  {| task := {| waiting := [];
                suggestions := {[ bs "fp" := {| i_table := bs "orders"; columns := [bs "status"];
                  reason := bs "full table scan (15000 rows); filesort (ORDER BY without index)";
                  ddl := bs "CREATE INDEX idx_orders_status ON orders (status);" |} ]} |};
     submitted := [{| sql := bs "SELECT"; fingerprint := bs "fp" |}]; answered := [(explain_sql (bs "SELECT"), full_scan)] |}.
Lemma suggestions_are_explained_witness :
  (length (waiting (task advised)) <= CHANNEL_CAP)%nat
  /\ forall fp i, suggestions (task advised) !! fp = Some i -> explained advised fp i.
Proof.
  apply (suggestions_are_explained advised). eapply steps_trans; apply steps_one.
  - apply (submits _ (bs "SELECT") (bs "fp")).
  - assert (advised = {| task := advisor_turn (fun _ => Some full_scan) (try_submit (bs "SELECT") (bs "fp") advisor_new);
      submitted := [{| sql := bs "SELECT"; fingerprint := bs "fp" |}]; answered := [(explain_sql (bs "SELECT"), full_scan)] |}) as -> by by vm_compute.
    apply (turns {| task := try_submit (bs "SELECT") (bs "fp") advisor_new; submitted := [{| sql := bs "SELECT"; fingerprint := bs "fp" |}]; answered := [] |} (fun _ => Some full_scan)).
Defined.
