(* ===== verification/AuditLog.v ===== *)
(** * The audit log (src/src/proxy/security.rs)

    One line of JSON for each statement, appended to a file.  The file is the bytes it holds;
    what opening it finds, whether the lock is free and how much of a line the disk takes are
    arguments, and so is the text of the time. *)

From Stdlib Require Import SpecFloat.
From S2P Require Import Prelude Bytes Analytics FloatText.

Record AuditLogger := { path : bytes; file : option bytes }.
(** [opened] is what the file holds when it is opened, or [None] when that fails. *)
Definition audit_new (path : bytes) (opened : option bytes) : AuditLogger :=
  {| path := path; file := if beq path [] then None else opened |}.
Definition is_active (l : AuditLogger) : bool := match file l with Some _ => true | None => false end.
Definition reopen (opened : option bytes) (l : AuditLogger) : AuditLogger :=
  if beq (path l) [] then l
  else match opened with Some f => {| path := path l; file := Some f |} | None => l end.

(** [s.replace(c, t)]. *)
Definition replace (c : Z) (t s : bytes) : bytes := concat (map (fun b => if b =? c then t else [b]) s).
Definition backslash : Z := 92.
Definition newline : Z := 10.
Definition safe_sql (sql : bytes) : bytes :=
  replace newline [backslash; 110] (replace dquote [backslash; dquote] (replace backslash [backslash; backslash] sql)).

Record AuditRecord := {
  ts : bytes; user : bytes; client : bytes; sql : bytes; destination : bytes; duration_ms : f64; is_error : bool
}.
Definition field (key : string) (value : bytes) : bytes := [dquote] ++ bs key ++ [dquote] ++ bs ":" ++ value.
Definition text_field (key : string) (value : bytes) : bytes := field key ([dquote] ++ value ++ [dquote]).
Definition audit_line (r : AuditRecord) : bytes :=
  bs "{" ++ text_field "ts" (ts r) ++ bs "," ++ text_field "user" (user r) ++ bs "," ++ text_field "client" (client r)
  ++ bs "," ++ text_field "sql" (safe_sql (sql r)) ++ bs "," ++ text_field "destination" (destination r)
  ++ bs "," ++ field "duration_ms" (show_fixed 2 (duration_ms r)) ++ bs "," ++ field "error" (bs (if is_error r then "true" else "false"))
  ++ bs "}" ++ [newline].
(** A line is dropped when another session writes; [taken] bytes of it reach the disk. *)
Definition log (free : bool) (taken : nat) (r : AuditRecord) (l : AuditLogger) : AuditLogger :=
  if free then
    match file l with
    | Some f => {| path := path l; file := Some (f ++ take taken (audit_line r)) |}
    | None => l
    end
  else l.

(** ** Reading a line *)

(** A JSON string after its opening quote: its text and what follows the closing quote.  A
    control character may not occur in one. *)
Fixpoint read_string (s : bytes) : option (bytes * bytes) :=
  match s with
  | [] => None
  | 34 :: rest => Some ([], rest)
  | 92 :: c :: rest =>
      d ← (if c =? 34 then Some 34 else if c =? 92 then Some 92 else if c =? 110 then Some 10 else None);
      '(t, r) ← read_string rest; Some (d :: t, r)
  | b :: rest => if b <? 32 then None else '(t, r) ← read_string rest; Some (b :: t, r)
  end.
Definition read_text_field (key : string) (s : bytes) : option (bytes * bytes) :=
  let head := [dquote] ++ bs key ++ [dquote] ++ bs ":" ++ [dquote] in
  if starts_with s head then read_string (drop (length head) s) else None.
Definition skip (text : string) (s : bytes) : option bytes :=
  if starts_with s (bs text) then Some (drop (length (bs text)) s) else None.
(** Who ran what from where, as a reader of the log has it. *)
Definition read_line (line : bytes) : option (bytes * bytes * bytes * bytes * bytes) :=
  s ← skip "{" line; '(ts, s) ← read_text_field "ts" s; s ← skip "," s; '(user, s) ← read_text_field "user" s;
  s ← skip "," s; '(client, s) ← read_text_field "client" s; s ← skip "," s; '(sql, s) ← read_text_field "sql" s;
  s ← skip "," s; '(destination, s) ← read_text_field "destination" s; Some (ts, user, client, sql, destination).

Definition escape_one (b : Z) : bytes :=
  if b =? backslash then [backslash; backslash] else if b =? dquote then [backslash; dquote]
  else if b =? newline then [backslash; 110] else [b].
Lemma safe_sql_escape s : safe_sql s = concat (map escape_one s).
Proof.
  unfold safe_sql, replace. induction s as [|b s IH]; [done|]. cbn [map concat].
  rewrite map_app, concat_app, map_app, concat_app, IH. f_equal. unfold escape_one.
  destruct (b =? backslash) eqn:E1; [done|]. cbn. destruct (b =? dquote) eqn:E2; [done|].
  cbn. by destruct (b =? newline).
Qed.
Definition printable (b : Z) : Prop := b = newline \/ 32 <= b.
Definition plain (s : bytes) : Prop := Forall (fun b => 32 <= b /\ b <> backslash /\ b <> dquote) s.
Lemma read_escaped b rest : printable b ->
  read_string (escape_one b ++ rest) = '(t, r) ← read_string rest; Some (b :: t, r).
Proof.
  intros Hb. unfold escape_one. destruct (b =? backslash) eqn:E1; [bool_to_prop; by subst b|].
  destruct (b =? dquote) eqn:E2; [bool_to_prop; by subst b|]. destruct (b =? newline) eqn:E3; [bool_to_prop; by subst b|].
  bool_to_prop. destruct Hb as [|Hb]; [done|]. cbn [app].
  assert (forall A (x y z : A), match b with 34 => x | 92 => y | _ => z end = z) as Hm.
  { intros A x y z. destruct b as [|p|p]; [done| |done]. repeat (destruct p as [p|p|]; try done). }
  cbn [read_string]. destruct rest as [|c rest]; rewrite Hm; destruct (b <? 32) eqn:E; bool_to_prop; try lia; done.
Qed.
Lemma read_string_escape s rest : Forall printable s -> read_string (safe_sql s ++ dquote :: rest) = Some (s, rest).
Proof.
  rewrite safe_sql_escape. induction 1 as [|b s Hb _ IH]; [done|]. cbn [map concat]. rewrite <- app_assoc, read_escaped by done.
  by rewrite IH.
Qed.
Lemma escape_plain s : plain s -> safe_sql s = s.
Proof.
  rewrite safe_sql_escape. induction 1 as [|b s (H1 & H2 & H3) _ IH]; [done|]. cbn [map concat]. rewrite IH.
  unfold escape_one. destruct (b =? backslash) eqn:E1; [bool_to_prop; done|].
  destruct (b =? dquote) eqn:E2; [bool_to_prop; done|]. destruct (b =? newline) eqn:E3; [bool_to_prop; subst b; done|]. done.
Qed.
Lemma plain_printable s : plain s -> Forall printable s.
Proof. intros H. eapply Forall_impl; [|exact H]. intros b (Hb & _). by right. Qed.
Lemma read_text_field_ok key s rest : Forall printable s ->
  read_text_field key (text_field key (safe_sql s) ++ rest) = Some (s, rest).
Proof.
  intros Hs. unfold read_text_field, text_field, field. set (h := [dquote] ++ bs key ++ [dquote] ++ bs ":" ++ [dquote]).
  assert ((([dquote] ++ bs key ++ [dquote] ++ bs ":" ++ [dquote] ++ safe_sql s ++ [dquote]) ++ rest) = h ++ safe_sql s ++ dquote :: rest) as ->
    by (unfold h; by rewrite <- !app_assoc).
  rewrite starts_with_app, drop_app_length. by apply read_string_escape.
Qed.
Lemma skip_ok text rest : skip text (bs text ++ rest) = Some rest.
Proof. unfold skip. by rewrite starts_with_app, drop_app_length. Qed.

(** A record whose names have no quotes, and whose statement has no control characters but
    newlines, is read back from its line. *)
Theorem audit_line_reads_back r :
  plain (ts r) -> plain (user r) -> plain (client r) -> plain (destination r) -> Forall printable (sql r) ->
  read_line (audit_line r) = Some (ts r, user r, client r, sql r, destination r).
Proof.
  intros H1 H2 H3 H4 H5. unfold read_line, audit_line.
  rewrite <- (escape_plain _ H1), <- (escape_plain _ H2), <- (escape_plain _ H3), <- (escape_plain _ H4).
  rewrite skip_ok. cbn [mbind option_bind]. repeat (rewrite read_text_field_ok by first [done | by apply plain_printable];
    cbn [mbind option_bind]; rewrite ?skip_ok; cbn [mbind option_bind]).
  by rewrite !escape_plain by done.
Qed.

(** ** The file only grows *)

Inductive audit_op := Log (free : bool) (taken : nat) (r : AuditRecord) | Reopen (opened : option bytes).
Definition audit_step (l : AuditLogger) (op : audit_op) : AuditLogger :=
  match op with Log free taken r => log free taken r l | Reopen opened => reopen opened l end.
(** What opening the file again finds is what was written to it, unless it was rotated. *)
Definition same_file (l : AuditLogger) (op : audit_op) : Prop :=
  match op with Reopen (Some f) => file l = Some f | _ => True end.
Fixpoint not_rotated (l : AuditLogger) (ops : list audit_op) : Prop :=
  match ops with [] => True | op :: ops => same_file l op /\ not_rotated (audit_step l op) ops end.
(** The lines that reach the file. *)
Fixpoint written (l : AuditLogger) (ops : list audit_op) : bytes :=
  match ops with
  | [] => []
  | Log true taken r :: ops => (if is_active l then take taken (audit_line r) else []) ++ written l ops
  | _ :: ops => written l ops
  end.
Lemma written_active l l' ops : is_active l = is_active l' -> written l ops = written l' ops.
Proof. intros H. induction ops as [|[[|] n r|o] ops IH]; cbn [written]; rewrite ?H, ?IH; done. Qed.
(** An active log without rotation holds what it held and then every line that was not
    dropped, in order. *)
Theorem audit_appends l f ops : file l = Some f -> not_rotated l ops ->
  file (foldl audit_step l ops) = Some (f ++ written l ops).
Proof.
  revert l f. induction ops as [|op ops IH]; intros l f Hf Hr; cbn [foldl written]; [by rewrite app_nil_r|].
  destruct Hr as [Hs Hr]. destruct op as [[|] n r|o]; cbn [audit_step] in *.
  - assert (is_active l = true) as Ha by (unfold is_active; by rewrite Hf). rewrite Ha.
    unfold log in *. rewrite Hf in *. rewrite (IH {| path := path l; file := Some (f ++ take n (audit_line r)) |} _ eq_refl Hr), <- app_assoc.
    do 3 f_equal. apply written_active. by rewrite Ha.
  - by apply IH.
  - unfold reopen in *. destruct (beq (path l) []); [by apply IH|]. destruct o as [g|]; [|by apply IH].
    cbn in Hs. rewrite (IH _ f) by (done || cbn; congruence). do 2 f_equal. apply written_active. unfold is_active. by rewrite Hf.
Qed.

(** ** Examples *)

Definition record_of (user sql : bytes) : AuditRecord :=
  {| ts := bs "2024-01-01T00:00:00.000Z"; user := user; client := bs "10.0.0.1"; sql := sql; destination := bs "primary";
     duration_ms := f_lit 3 2; is_error := false |}.
Definition quoted_text : bytes := bs "say " ++ [dquote; newline; backslash] ++ bs "n".
(** The names are not escaped: a user name with quotes writes fields of its own. *)
Example user_name_forges_fields :
  let forger := bs "admin" ++ [dquote] ++ bs "," ++ text_field "client" (bs "127.0.0.1") ++ bs "," ++ text_field "sql" (bs "SELECT 1")
                ++ bs "," ++ [dquote] ++ bs "destination" ++ [dquote] ++ bs ":" ++ [dquote] ++ bs "primary" in
  read_line (audit_line (record_of forger (bs "DROP TABLE t")))
  = Some (bs "2024-01-01T00:00:00.000Z", bs "admin", bs "127.0.0.1", bs "SELECT 1", bs "primary").
Proof. by vm_compute. Qed.
(** Tabs and carriage returns stay as they are, and the line is not JSON. *)
Example tab_breaks_line : read_line (audit_line (record_of (bs "app") (bs "SELECT" ++ [9] ++ bs "1"))) = None.
Proof. by vm_compute. Qed.

Lemma plain_check s : forallb (fun b => (32 <=? b) && negb (b =? backslash) && negb (b =? dquote)) s = true -> plain s.
Proof.
  rewrite forallb_forall. intros H. apply List.Forall_forall. intros b Hb. specialize (H b Hb).
  unfold backslash, dquote in *. bool_to_prop. lia.
Qed.
Lemma printable_check s : forallb (fun b => (b =? newline) || (32 <=? b)) s = true -> Forall printable s.
Proof.
  rewrite forallb_forall. intros H. apply List.Forall_forall. intros b Hb. specialize (H b Hb).
  apply orb_true_iff in H as [H|H]; bool_to_prop; [by left | by right].
Qed.
Lemma audit_line_reads_back_witness :
  read_line (audit_line (record_of (bs "app") quoted_text))
  = Some (bs "2024-01-01T00:00:00.000Z", bs "app", bs "10.0.0.1", quoted_text, bs "primary").
Proof.
  apply (audit_line_reads_back (record_of (bs "app") quoted_text)); [apply plain_check; by vm_compute..|].
  apply printable_check. by vm_compute.
Defined.
Lemma audit_appends_witness :
  let l := audit_new (bs "audit.log") (Some (bs "old ")) in
  file (foldl audit_step l [Log true 5 (record_of [] []); Log false 9 (record_of [] []); Reopen None]) = Some (bs "old " ++ take 5 (audit_line (record_of [] [])) ++ []).
Proof. apply (audit_appends (audit_new (bs "audit.log") (Some (bs "old "))) (bs "old ")); by vm_compute. Defined.
