(* ===== verification/Server.v ===== *)
(** * The listeners and their shutdown (src/src/proxy/server.rs, src/src/proxy/pg_server.rs)

    What the two servers are built from, their accept loops, and how the process ends.  The
    two loops run side by side on the same counters, so the process is one machine: an event
    is one turn of a loop, the end of a session, a signal, or a look of the shutdown at the
    number of connections.  What a session does is in Session and PgServer; here it is there
    or has ended, in order or by a panic.  The process is over when the MySQL server returns,
    because [main] then returns. *)

From S2P Require Import Prelude Bytes Config CircuitBreaker Pool Rules Rewriter Router Session Tracer Fingerprint UserRegistry Analytics Alerts ConfigAdmin AuditLog.

(** ** The parts of a server *)

Section Parts.
Context {C : Type} `{RE : RegexEngine}.
(** The MySQL server owns the stores; the other one is handed them. *)
Record ProxyServer := {
  router : Router (C := C); permits : Z; heatmap : Heatmap.HeatmapStore; throughput : Throughput.ThroughputCounters;
  regression_store : Regression.RegressionStore; sqli_detector : option InjectionDetector; query_whitelist : QueryWhitelist;
  audit_logger : AuditLogger; error_events : ErrorEvents.ErrorEventStore; user_registry : UserRegistry;
  tracer_store : TracerStore; app_analytics : AppAnalytics.AppAnalyticsStore
}.
Definition set_max_query_time_ms (ms : Z) (r : Router (C := C)) : Router :=
  {| r_pool := r_pool r; r_cache := r_cache r; r_rules := r_rules r; r_rewriter := r_rewriter r; r_mirror := r_mirror r;
     r_template := r_template r; r_primary_config := r_primary_config r; max_query_time_ms := ms; queries_killed := queries_killed r |}.
Definition detector (protect : bool) : option InjectionDetector := if protect then Some detector_new else None.
(** [opened] is what the audit file holds when it is opened. *)
Definition proxy_server_new (config : Proxy.ProxyConfig) (rules : list Rules.CompiledRule) (rewriter : list Rewriter.CompiledRule)
    (opened : option bytes) : ProxyServer :=
  let slow := Proxy.slow_query_ms (Proxy.analytics (Proxy.settings config)) in
  {| router := set_max_query_time_ms (Proxy.max_query_time_ms (Proxy.settings config)) (Router_new (configured_pool config) rules rewriter);
     permits := Proxy.max_connections config; heatmap := Heatmap.new slow; throughput := Throughput.new slow;
     regression_store := Regression.store_new; sqli_detector := detector (Proxy.sql_injection_protection config);
     query_whitelist := whitelist_new (Proxy.query_whitelist config); audit_logger := audit_new (Proxy.audit_log config) opened;
     error_events := ErrorEvents.store_new 1000; user_registry := registry_new; tracer_store := Tracer.store_new;
     app_analytics := AppAnalytics.store_new |}.
(** [ProxyServer::reload_backends] *)
Definition server_reload_backends (new_config : Proxy.ProxyConfig) (r : Router (C := C)) : Router :=
  {| r_pool := configured_pool new_config; r_cache := r_cache r; r_rules := r_rules r; r_rewriter := r_rewriter r; r_mirror := r_mirror r;
     r_template := r_template r; r_primary_config := r_primary_config r; max_query_time_ms := max_query_time_ms r; queries_killed := queries_killed r |}.

Record PgProxyServer := {
  pg_router : Router (C := C); pg_permits : Z; pg_tls : bool; pg_users_config : list UserConfig; pg_whitelist : QueryWhitelist;
  pg_detector : option InjectionDetector; pg_audit : AuditLogger; copy_active : Z
}.
(** [acceptor] tells whether the certificate and key could be loaded; without them the
    listener falls back to plain text. *)
Definition pg_proxy_server_new (config : Proxy.PgsqlConfig) (rules : list Rules.CompiledRule) (rewriter : list Rewriter.CompiledRule)
    (opened : option bytes) (acceptor : bool) : option PgProxyServer :=
  primary_cfg ← Proxy.pg_primary config;
  let pool := with_options primary_cfg (Proxy.pg_replicas config) (Z.to_nat (Proxy.pg_pool_size config))
                (idle_timeout (Proxy.pg_connection_max_idle_secs config)) 5 10000
                (Proxy.pg_pool_wait_queue_size config) (Proxy.pg_pool_wait_timeout_ms config) in
  Some {| pg_router := Router_new pool rules rewriter;
          pg_permits := if Proxy.pg_max_connections config =? 0 then 10000 else Proxy.pg_max_connections config;
          pg_tls := negb (beq (Proxy.ssl_cert config) []) && negb (beq (Proxy.ssl_key config) []) && acceptor;
          pg_users_config := Proxy.pg_users config; pg_whitelist := whitelist_new (Proxy.pg_query_whitelist config);
          pg_detector := detector (Proxy.pg_sql_injection_protection config);
          pg_audit := audit_new (Proxy.pg_audit_log config) opened; copy_active := 0 |}.
End Parts.

(** ** The accept loops *)

(** Free permits, the next connection id, and the sessions that run. *)
Record Listener := { free : Z; next_id : Z; live : list Z }.
(** Where [ProxyServer::run] is; [Off] when [main] waits forever instead of calling it. *)
Inductive Phase := Off | Accepting | Draining (deadline : Z) | Stopped | Failed.
Record Process := {
  mysql : Listener; pgsql : option Listener; phase : Phase; connections_total : Z; connections_active : Z;
  draining : bool; notified : bool
}.
Definition set_mysql (l : Listener) (p : Process) : Process :=
  {| mysql := l; pgsql := pgsql p; phase := phase p; connections_total := connections_total p; connections_active := connections_active p;
     draining := draining p; notified := notified p |}.
Definition set_pgsql (l : Listener) (p : Process) : Process :=
  {| mysql := mysql p; pgsql := Some l; phase := phase p; connections_total := connections_total p; connections_active := connections_active p;
     draining := draining p; notified := notified p |}.
Definition set_phase (ph : Phase) (p : Process) : Process :=
  {| mysql := mysql p; pgsql := pgsql p; phase := ph; connections_total := connections_total p; connections_active := connections_active p;
     draining := draining p; notified := notified p |}.
Definition set_flags (d n : bool) (p : Process) : Process :=
  {| mysql := mysql p; pgsql := pgsql p; phase := phase p; connections_total := connections_total p; connections_active := connections_active p;
     draining := d; notified := n |}.
Definition count (t a : Z) (p : Process) : Process :=
  {| mysql := mysql p; pgsql := pgsql p; phase := phase p; connections_total := usize (connections_total p + t);
     connections_active := usize (connections_active p + a); draining := draining p; notified := notified p |}.

(** A permit, an id and a task for the session; [None] when no permit is free. *)
Definition take_permit (l : Listener) : option Listener :=
  if free l =? 0 then None
  else Some {| free := free l - 1; next_id := u32 (next_id l + 1); live := live l ++ [next_id l] |}.
Fixpoint remove_one (id : Z) (l : list Z) : list Z :=
  match l with [] => [] | x :: l => if x =? id then l else x :: remove_one id l end.
Definition session_over (id : Z) (l : Listener) : option Listener :=
  if mem id (live l) then Some {| free := free l + 1; next_id := next_id l; live := remove_one id (live l) |} else None.

Inductive Accept := AcceptError | Incoming (nodelay : bool).
Inductive Event :=
| MysqlAccept (a : Accept) | PgAccept (a : Accept)
| MysqlEnds (id : Z) (panics : bool) | PgEnds (id : Z) (panics : bool)
| Sigterm | Notified (now : Z) | Poll (now : Z).

Definition over (p : Process) : bool := match phase p with Stopped | Failed => true | _ => false end.
Section Machine.
(** [shutdown_timeout_secs]; times are in nanoseconds. *)
Variable timeout_secs : Z.

Definition mysql_accept (a : Accept) (p : Process) : Process :=
  match a with
  | AcceptError => p
  | Incoming false => set_phase Failed p
  | Incoming true => match take_permit (mysql p) with Some l => count 1 1 (set_mysql l p) | None => p end
  end.
Definition pg_accept (a : Accept) (p : Process) : Process :=
  match pgsql p, a with
  | Some l, Incoming _ => match take_permit l with Some l' => count 1 1 (set_pgsql l' p) | None => p end
  | _, _ => p
  end.
(** A task that panics frees its permit, but it does not get to the counter. *)
Definition session_ends (panics : bool) (p : Process) : Process := if panics then p else count 0 (-1) p.
Definition mysql_ends (id : Z) (panics : bool) (p : Process) : Process :=
  match session_over id (mysql p) with Some l => session_ends panics (set_mysql l p) | None => p end.
Definition pg_ends (id : Z) (panics : bool) (p : Process) : Process :=
  match pgsql p with
  | Some l => match session_over id l with Some l' => session_ends panics (set_pgsql l' p) | None => p end
  | None => p
  end.
Definition stop_accepting (now : Z) (p : Process) : Process :=
  let p := set_flags true false p in
  if (0 <? timeout_secs) && (0 <? connections_active p) then set_phase (Draining (now + timeout_secs * 10 ^ 9)) p
  else set_phase Stopped p.
Definition drain_poll (deadline now : Z) (p : Process) : Process :=
  if connections_active p =? 0 then set_phase Stopped p
  else if deadline <=? now then set_phase Stopped p else p.
Definition process_step (p : Process) (e : Event) : Process :=
  if over p then p
  else match e, phase p with
       | MysqlAccept a, Accepting => mysql_accept a p
       | PgAccept a, _ => pg_accept a p
       | MysqlEnds id panics, _ => mysql_ends id panics p
       | PgEnds id panics, _ => pg_ends id panics p
       | Sigterm, _ => set_flags true true p
       | Notified now, Accepting => if notified p then stop_accepting now p else p
       | Poll now, Draining deadline => drain_poll deadline now p
       | _, _ => p
       end.
Definition run (p : Process) (es : list Event) : Process := foldl process_step p es.
End Machine.

(** The process that [main] starts. *)
Definition listener (permits : Z) : Listener := {| free := permits; next_id := 1; live := [] |}.
Definition process_start (mysql_enabled : bool) (permits : Z) (pg_permits : option Z) : Process :=
  {| mysql := listener permits; pgsql := listener <$> pg_permits; phase := if mysql_enabled then Accepting else Off;
     connections_total := 0; connections_active := 0; draining := false; notified := false |}.

(** ** The sessions that run are those counted *)

Definition listener_ok (max : Z) (l : Listener) : Prop := 0 <= free l /\ free l + Z.of_nat (length (live l)) = max.
Definition sessions (p : Process) : Z :=
  Z.of_nat (length (live (mysql p))) + match pgsql p with Some l => Z.of_nat (length (live l)) | None => 0 end.
(** Did the event end a running session by a panic? *)
Definition panicked_now (p : Process) (e : Event) : Z :=
  match e with
  | MysqlEnds id true => if negb (over p) && mem id (live (mysql p)) then 1 else 0
  | PgEnds id true => match pgsql p with Some l => if negb (over p) && mem id (live l) then 1 else 0 | None => 0 end
  | _ => 0
  end.
Fixpoint panics (timeout : Z) (p : Process) (es : list Event) : Z :=
  match es with [] => 0 | e :: es => panicked_now p e + panics timeout (process_step timeout p e) es end.
Definition accounted (max : Z) (pg_max : option Z) (k : Z) (p : Process) : Prop :=
  listener_ok max (mysql p) /\ option_Forall2 listener_ok pg_max (pgsql p) /\ connections_active p = usize (sessions p + k).

Lemma take_permit_ok max l l' : listener_ok max l -> take_permit l = Some l' ->
  listener_ok max l' /\ length (live l') = S (length (live l)).
Proof.
  unfold listener_ok, take_permit. intros [H0 H1]. destruct (free l =? 0) eqn:E; [done|]. intros [= <-].
  cbn [free live]. rewrite length_app. cbn [length]. bool_to_prop. lia.
Qed.
Lemma remove_one_length id l : id ∈ l -> S (length (remove_one id l)) = length l.
Proof.
  induction l as [|x l IH]; [by intros ?%not_elem_of_nil|]. intros H. cbn [remove_one length].
  destruct (x =? id) eqn:E; [done|]. bool_to_prop. cbn [length]. f_equal. apply IH.
  apply elem_of_cons in H as [Hx|]; [by subst x | done].
Qed.
Lemma session_over_ok max id l l' : listener_ok max l -> session_over id l = Some l' ->
  listener_ok max l' /\ S (length (live l')) = length (live l) /\ mem id (live l) = true.
Proof.
  unfold listener_ok, session_over. intros [H0 H1]. destruct (mem id (live l)) eqn:E; [|done]. intros [= <-].
  cbn [free live]. apply mem_true in E. pose proof (remove_one_length id _ E). split_and!; [lia..|done].
Qed.
Lemma session_over_none id l : session_over id l = None -> mem id (live l) = false.
Proof. unfold session_over. by destruct (mem id (live l)). Qed.
Lemma usize_step a d : usize (usize a + d) = usize (a + d).
Proof. apply wrap_add_l. Qed.

Lemma accounted_step timeout max pg_max k p e : accounted max pg_max k p ->
  accounted max pg_max (k + panicked_now p e) (process_step timeout p e).
Proof.
  intros H. pose proof H as (H1 & H2 & H3). unfold process_step, panicked_now. destruct (over p) eqn:Eo.
  { cbn [negb andb]. assert (k + panicked_now p e = k) as Hk.
    { unfold panicked_now. rewrite Eo. destruct e as [| |id []|id []| | |]; cbn; try lia. destruct (pgsql p); lia. }
    unfold panicked_now in Hk. rewrite Eo in Hk. cbn [negb andb] in Hk. by rewrite Hk. }
  destruct e as [a|a|id b|id b| |now|now]; rewrite ?Z.add_0_r.
  - destruct (phase p); try done. unfold mysql_accept. destruct a as [|[]]; [done| |done].
    destruct (take_permit (mysql p)) as [l|] eqn:E; [|done]. apply (take_permit_ok max) in E as [E1 E2]; [|done].
    split_and!; [done..|]. cbn. rewrite H3, usize_step. unfold sessions. cbn. f_equal. lia.
  - unfold pg_accept. destruct (pgsql p) as [l|] eqn:Ep; [|done]. destruct a as [|nd]; [done|].
    inversion H2 as [m ? Hl Hm|]; subst. destruct (take_permit l) as [l'|] eqn:E; [|done].
    apply (take_permit_ok m) in E as [E1 E2]; [|done].
    split_and!; [done|by constructor|]. cbn. rewrite H3, usize_step. unfold sessions. cbn. rewrite Ep. f_equal. lia.
  - unfold mysql_ends. destruct (session_over id (mysql p)) as [l|] eqn:E.
    + apply (session_over_ok max) in E as (E1 & E2 & ->); [|done]. cbn [negb andb].
      destruct b; cbn [session_ends]; (split_and!; [done..|]); cbn; rewrite H3, ?usize_step; unfold sessions; cbn; f_equal; lia.
    + apply session_over_none in E as ->. rewrite andb_false_r. destruct b; rewrite ?Z.add_0_r; done.
  - unfold pg_ends. destruct (pgsql p) as [l|] eqn:Ep; [|destruct b; rewrite ?Z.add_0_r; done].
    inversion H2 as [m ? Hl Hm|]; subst. destruct (session_over id l) as [l'|] eqn:E.
    + apply (session_over_ok m) in E as (E1 & E2 & ->); [|done]. cbn [negb andb].
      destruct b; cbn [session_ends]; (split_and!; [done|by constructor|]); cbn; rewrite H3, ?usize_step; unfold sessions; cbn; rewrite Ep; f_equal; lia.
    + apply session_over_none in E as ->. rewrite andb_false_r. destruct b; rewrite ?Z.add_0_r; done.
  - done.
  - destruct (phase p); try done. destruct (notified p); [|done]. unfold stop_accepting. by destruct (_ && _).
  - destruct (phase p); try done. unfold drain_poll. by destruct (_ =? 0); [|destruct (_ <=? _)].
Qed.
Lemma accounted_run timeout max pg_max k p es : accounted max pg_max k p ->
  accounted max pg_max (k + panics timeout p es) (run timeout p es).
Proof.
  revert k p. induction es as [|e es IH]; intros k p H; cbn [panics run foldl]; [by rewrite Z.add_0_r|].
  rewrite Z.add_assoc. apply IH. by apply accounted_step.
Qed.
Lemma accounted_start b max pg_max : 0 <= max -> match pg_max with Some m => 0 <= m | None => True end ->
  accounted max pg_max 0 (process_start b max pg_max).
Proof.
  intros H1 H2. split_and!; [split; cbn; lia| |].
  - cbn. destruct pg_max; constructor. split; cbn; lia.
  - unfold sessions. cbn. by destruct pg_max.
Qed.

(** C39: Whatever the clients do: neither server runs more sessions than it may, a permit is free for
    every session it could still take, and the counter of active connections is the number of
    sessions and of those that ended by a panic. *)
Theorem connections_accounted timeout b max pg_max es : 0 <= max -> match pg_max with Some m => 0 <= m | None => True end ->
  accounted max pg_max (panics timeout (process_start b max pg_max) es) (run timeout (process_start b max pg_max) es).
Proof. intros H1 H2. apply (accounted_run timeout max pg_max 0). by apply accounted_start. Qed.

(** ** Shutdown *)

Lemma phase_count t a p : phase (count t a p) = phase p.
Proof. done. Qed.
Lemma ends_phase panics p : phase (session_ends panics p) = phase p.
Proof. by destruct panics. Qed.
Lemma pg_accept_phase a p : phase (pg_accept a p) = phase p.
Proof. unfold pg_accept. by destruct (pgsql p) as [l|]; [destruct a; [|destruct (take_permit l)]|]. Qed.
Lemma mysql_ends_phase id panics p : phase (mysql_ends id panics p) = phase p.
Proof. unfold mysql_ends. destruct (session_over id (mysql p)); [by rewrite ends_phase | done]. Qed.
Lemma pg_ends_phase id panics p : phase (pg_ends id panics p) = phase p.
Proof. unfold pg_ends. destruct (pgsql p) as [l|]; [destruct (session_over id l); [by rewrite ends_phase | done] | done]. Qed.
Create Rewrite HintDb phases.
#[local] Hint Rewrite pg_accept_phase mysql_ends_phase pg_ends_phase : phases.

Lemma off_stays timeout p es : phase p = Off -> phase (run timeout p es) = Off.
Proof.
  revert p. induction es as [|e es IH]; intros p Hp; [done|]. apply IH. unfold process_step, over. rewrite Hp.
  destruct e; autorewrite with phases; done.
Qed.
Lemma draining_stays timeout d p es : phase p = Draining d \/ phase p = Stopped ->
  phase (run timeout p es) = Draining d \/ phase (run timeout p es) = Stopped.
Proof.
  revert p. induction es as [|e es IH]; intros p Hp; [done|]. apply IH. unfold process_step, over.
  destruct Hp as [Hp|Hp]; rewrite Hp; [|by right].
  destruct e; autorewrite with phases; try by left.
  unfold drain_poll. destruct (_ =? 0); [by right|]. destruct (_ <=? _); [by right | by left].
Qed.

(** Once the MySQL server has stopped accepting, the process is over at the first look at the
    connections after the timeout, whatever they do and however many there are. *)
Theorem shutdown_is_bounded timeout d p es now : phase p = Draining d -> d <= now ->
  over (run timeout p (es ++ [Poll now])) = true.
Proof.
  intros Hp Hd. unfold run. rewrite foldl_app. fold (run timeout p es). cbn [foldl]. set (q := run timeout p es).
  assert (forall ph, phase q = ph -> over q = match ph with Stopped | Failed => true | _ => false end) as Ho by (by intros ph <-).
  unfold process_step. destruct (draining_stays timeout d p es (or_introl Hp)) as [H|H]; fold q in H; rewrite (Ho _ H).
  - rewrite H. unfold drain_poll. destruct (_ =? 0); [done|]. by rewrite (proj2 (Z.leb_le _ _) Hd).
  - by rewrite (Ho _ H).
Qed.

Lemma panics_nonneg timeout p es : 0 <= panics timeout p es.
Proof.
  revert p. induction es as [|e es IH]; intros p; [done|]. cbn [panics]. specialize (IH (process_step timeout p e)).
  assert (0 <= panicked_now p e) by (unfold panicked_now; repeat case_match; lia). lia.
Qed.
(** A look before the timeout ends the process only if no session runs, on either server, and
    none has ever ended by a panic: one that did holds the shutdown up until the timeout. *)
Theorem drain_waits_for timeout b max pg_max es d now :
  let p0 := process_start b max pg_max in
  let p := run timeout p0 es in
  0 <= max -> match pg_max with Some m => 0 <= m | None => True end ->
  max + default 0 pg_max + panics timeout p0 es < 2 ^ 64 -> phase p = Draining d -> now < d ->
  (over (process_step timeout p (Poll now)) = true <-> sessions p = 0 /\ panics timeout p0 es = 0).
Proof.
  intros p0 p H1 H2 Hb Hp Hn. pose proof (accounted_run timeout max pg_max 0 p0 es ltac:(by apply accounted_start)) as (Hm & Hpg & Ha).
  rewrite Z.add_0_l in Ha. fold p in Hm, Hpg, Ha.
  pose proof (panics_nonneg timeout p0 es) as Hk.
  assert (0 <= sessions p <= max + default 0 pg_max) as Hs.
  { destruct Hm as [Hm1 Hm2]. unfold sessions. destruct Hpg as [m l [Hl1 Hl2]|]; cbn; lia. }
  assert (over p = false) as Ho by (unfold over; by rewrite Hp).
  unfold process_step. rewrite Ho, Hp. unfold drain_poll. rewrite Ha, (wrap_small 64 (sessions p + _)) by (unfold in_width; lia).
  destruct (sessions p + panics timeout p0 es =? 0) eqn:E; bool_to_prop.
  - split; [lia|done].
  - rewrite (proj2 (Z.leb_gt _ _) Hn), Ho. split; [done|lia].
Qed.

(** Without a MySQL listener nothing ends the process: it is asked to stop, and goes on. *)
Theorem pg_only_ignores_sigterm timeout max pg_max es : phase (run timeout (process_start false max pg_max) es) = Off.
Proof. by apply off_stays. Qed.

(** ** Examples *)

(** One client whose socket refuses the option ends the process for all of them, also when it
    would have been turned away. *)
Example bad_socket_ends_process :
  over (run 30 (process_start true 1 (Some 5)) [MysqlAccept (Incoming true); PgAccept (Incoming true); MysqlAccept (Incoming false)]) = true.
Proof. reflexivity. Qed.
(** The other server goes on accepting while this one waits for its sessions to end. *)
Example pg_accepts_while_draining :
  let p := run 30 (process_start true 1 (Some 5)) [PgAccept (Incoming true); Sigterm; Notified 0; PgAccept (Incoming true); PgEnds 1 false; Poll 1] in
  phase p = Draining (30 * 10 ^ 9) /\ sessions p = 1.
Proof. done. Qed.

Lemma connections_accounted_witness :
  accounted 1 (Some 5) 1 (run 30 (process_start true 1 (Some 5)) [MysqlAccept (Incoming true); PgAccept (Incoming true); MysqlEnds 1 true]).
Proof.
  apply (connections_accounted 30 true 1 (Some 5) [MysqlAccept (Incoming true); PgAccept (Incoming true); MysqlEnds 1 true]); lia.
Defined.
Definition panicked_start : list Event := [MysqlAccept (Incoming true); MysqlEnds 1 true; Sigterm; Notified 0].
Lemma shutdown_is_bounded_witness :
  over (run 30 (run 30 (process_start true 1 None) panicked_start) ([Sigterm] ++ [Poll (30 * 10 ^ 9)])) = true.
Proof. apply (shutdown_is_bounded 30 (30 * 10 ^ 9)); [reflexivity | lia]. Defined.
Lemma drain_waits_for_witness :
  over (process_step 30 (run 30 (process_start true 1 None) panicked_start) (Poll 1)) = true
  <-> sessions (run 30 (process_start true 1 None) panicked_start) = 0 /\ panics 30 (process_start true 1 None) panicked_start = 0.
Proof. apply (drain_waits_for 30 true 1 None panicked_start (30 * 10 ^ 9) 1); (reflexivity || done || lia). Defined.
