(* ===== verification/MysqlClients.v ===== *)
(** * The MySQL server and its clients (src/src/proxy/server.rs)

    What a session does with connections, command by command, and the MySQL server as an
    instance of Isolation. *)

From S2P Require Import ConfigAdminProps SessionProps.
From S2P Require Import Prelude Bytes Config Server Classifier QueryCache Rules Rewriter StmtShadow Handshake CircuitBreaker Pool.
From S2P Require Import Health GroupReplication Router Ownership UserRegistry Tracer Session Isolation.

#[local] Open Scope nat_scope.

(** ** One session *)

Section Sessions.
Context {W C : Type} `{IO : !BackendIO W C} `{TR : !Tracked W C} `{CT : CaseTable} `{ET : EscapeTable} `{RE : RegexEngine}
  `{MO : !MapOrder bytes CacheEntry} `{MO1 : !MapOrder bytes bytes}
  `{MO2 : !MapOrder Z Z} `{MO3 : !MapOrder Z My.MysqlStmtInfo}.
Local Abbreviation SS := (SState (W := W) (C := C)).
Local Abbreviation ST := (SE SS ctl).
Variable cfg : SessionConfig.

#[export] Instance holds_session : Holds W SS :=
  {| holding s := holding (env s); in_world s := world (env s) |}.

Lemma modify_moves (f : SS -> SS) : (forall s, env (f s) = env s) -> moves [] (modify f) (fun _ => []).
Proof. intros H. apply moves_modify. intros s. cbn. by rewrite H. Qed.
Lemma reply_moves r : moves [] (reply cfg r : ST bool) (fun _ => []).
Proof. intros s _. split; [|done]. by apply evolves_same. Qed.
Lemma routed_moves {A} ins (m : SE Env failure A) outs : moves ins m outs ->
  moves ins (routed m : ST _) (fun r => match r with Ok a => outs a | Err _ => [] end).
Proof.
  intros H s _. unfold routed. specialize (H (env s) I). destruct (m (env s)) as [[a|[x|]] e]; [destruct H as [H _]; split; [|done]|split; [|done]|];
    (eapply evolves_frame; [exact H | done | done | |]; intros i; cbn [holding in_world holds_session env with_env]; lia).
Qed.
Lemma routed_stays {A} (m : SE Env failure A) : moves [] m (fun _ => []) -> moves [] (routed m : ST _) (fun _ => []).
Proof. intros H. eapply moves_weak; [by apply routed_moves|]. count_tac. Qed.
Lemma iter_moves {A} (f : A -> ST unit) l : (forall a, moves [] (f a) (fun _ => [])) -> moves [] (se_iter f l) (fun _ => []).
Proof. intros H. induction l as [|a l IH]; cbn [se_iter]; [by apply moves_ret|]. eapply moves_bind; [apply H|]. intros []. apply IH. Qed.
Hint Extern 1 (env _ = env _) => reflexivity : owns.
Hint Resolve modify_moves reply_moves routed_stays iter_moves : owns.

(** Taking a connection out of its slot and giving it back. *)
Lemma take_moves (look : Env -> option C) (clear : Env -> Env) (give : C -> SE Env failure unit) s :
  (forall e, world (clear e) = world e) ->
  (forall c e i, look e = Some c -> cnt i [ident c] + cnt i (holding (clear e)) <= cnt i (holding e)) ->
  (forall c, moves [ident c] (give c) (fun _ => [])) ->
  owns (fun s' => s' = s) [] (match look (env s) with
                              | Some c => on_env clear ;; ignore (routed (give c))
                              | None => mret tt
                              end : ST unit) (fun _ => []) (fun _ _ => True).
Proof.
  intros Hw Hc Hg. destruct (look (env s)) as [c|] eqn:El; [|by apply owns_ret].
  apply (owns_bind _ _ _ (fun _ => [ident c]) (fun _ _ => True)).
  - apply owns_modify. intros s' ->. split_and!; [apply Hw | done |]. intros i. specialize (Hc c (env s) i El).
    cbn [holding holds_session env with_env]. rewrite cnt_nil. lia.
  - intros []. eapply moves_bind; [by apply routed_moves|]. intros [a|x]; by apply moves_ret.
Qed.
Ltac slot_taken := intros c e i H; cbn [holding holds_env]; unfold slot_ids;
  cbn [router tx_conn stmt_conn sticky_conn set_tx set_stmt set_sticky]; rewrite H, !cnt_app;
  change (slot_id None) with (@nil nat); change (slot_id (Some c)) with [ident c]; rewrite ?cnt_nil; lia.
Lemma release_tx_moves : moves [] (release_tx : ST unit) (fun _ => []).
Proof. apply owns_get. intros s _. apply (take_moves tx_conn (set_tx None)); [done | slot_taken | intros c; apply put_primary_db_moves]. Qed.
Lemma release_stmt_moves : moves [] (release_stmt : ST unit) (fun _ => []).
Proof. apply owns_get. intros s _. apply (take_moves stmt_conn (set_stmt None)); [done | slot_taken | intros c; apply put_primary_db_moves]. Qed.
Lemma release_sticky_moves : moves [] (release_sticky : ST unit) (fun _ => []).
Proof.
  apply owns_get. intros s _. apply (take_moves sticky_conn (set_sticky None (sticky_idx (env s)))); [done | slot_taken |].
  intros c. apply put_back_moves.
Qed.
(** A connection of a slot is forgotten, which closes it. *)
Lemma on_env_moves f : (forall e, world (f e) = world e) -> (forall e i, cnt i (holding (f e)) <= cnt i (holding e)) ->
  moves [] (on_env f : ST unit) (fun _ => []).
Proof. intros Hw Hc. apply owns_modify. intros s _. split_and!; [apply Hw | done |]. intros i. specialize (Hc (env s) i).
  cbn [holding holds_session env with_env]. lia. Qed.
Ltac slot_forgotten := intros e i; cbn [holding holds_env]; unfold slot_ids;
  cbn [router tx_conn stmt_conn sticky_conn set_tx set_stmt set_sticky set_shadow]; rewrite ?cnt_app;
  change (slot_id None) with (@nil nat); rewrite ?cnt_nil; lia.
Lemma reset_sticky_moves : moves [] (reset_sticky_idx : ST unit) (fun _ => []).
Proof. by apply on_env_moves. Qed.
Lemma drop_tx_moves : moves [] (drop_tx : ST unit) (fun _ => []).
Proof. apply on_env_moves; [done | slot_forgotten]. Qed.
Lemma forget_sticky_moves : moves [] (on_env (set_sticky None usize_max) : ST unit) (fun _ => []).
Proof. apply on_env_moves; [done | slot_forgotten]. Qed.
Lemma new_shadow_moves sh : moves [] (on_env (set_shadow sh) : ST unit) (fun _ => []).
Proof. by apply on_env_moves. Qed.
Hint Resolve release_tx_moves release_stmt_moves release_sticky_moves reset_sticky_moves drop_tx_moves forget_sticky_moves
  new_shadow_moves : owns.

(** *** The commands *)

Ltac session_tac :=
  unfold refuse, flush_or_break, or_break, ignore, set_in_transaction, set_tx_start, set_last_query, set_trace, set_pinned, set_init_sqls, set_hint,
    set_ryow_until, set_gtid, bump, on_registry, push_trace, observe, on_shared; moves_tac.

Lemma flush_moves : moves [] (flush_or_break cfg : ST unit) (fun _ => []).
Proof. session_tac. Qed.
Lemma answer_moves r : moves [] (answer cfg r : ST unit) (fun _ => []).
Proof. unfold answer. session_tac. Qed.
Lemma refuse_moves {A} code message : moves [] (refuse cfg code message : ST A) (fun _ => []).
Proof. session_tac. Qed.
Lemma finish_trace_moves out : moves [] (finish_trace out : ST unit) (fun _ => []).
Proof. unfold finish_trace. session_tac. Qed.
Hint Resolve flush_moves answer_moves refuse_moves finish_trace_moves : owns.
Lemma fast_forward_moves b sql tx : moves [] (fast_forward_query cfg b sql tx : ST unit) (fun _ => []).
Proof. unfold fast_forward_query. session_tac. Qed.
Lemma rule_fast_forward_moves b sql tx : moves [] (rule_fast_forward cfg b sql tx : ST unit) (fun _ => []).
Proof. unfold rule_fast_forward. session_tac. Qed.
Lemma ryow_check_moves r : moves [] (ryow_check cfg r : ST bool) (fun _ => []).
Proof. unfold ryow_check. session_tac. Qed.
Lemma note_session_state_moves sql : moves [] (note_session_state sql : ST unit) (fun _ => []).
Proof. unfold note_session_state. session_tac. Qed.
Lemma note_transaction_moves sql i : moves [] (note_transaction cfg sql i : ST bool) (fun _ => []).
Proof. unfold note_transaction. session_tac. Qed.
Lemma kill_transaction_moves out m : moves [] (kill_transaction cfg out m : ST unit) (fun _ => []).
Proof. unfold kill_transaction. session_tac. Qed.
Hint Resolve fast_forward_moves rule_fast_forward_moves ryow_check_moves note_session_state_moves note_transaction_moves
  kill_transaction_moves : owns.
Lemma enforce_time_moves : moves [] (enforce_transaction_time cfg : ST unit) (fun _ => []).
Proof. unfold enforce_transaction_time. session_tac. Qed.
Lemma enforce_idle_moves : moves [] (enforce_transaction_idle cfg : ST unit) (fun _ => []).
Proof. unfold enforce_transaction_idle. session_tac. Qed.
Lemma count_intent_moves b i : moves [] (count_intent b i : ST unit) (fun _ => []).
Proof. unfold count_intent. session_tac. Qed.
Lemma deny_write_moves i : moves [] (deny_write cfg i : ST unit) (fun _ => []).
Proof. unfold deny_write. session_tac. Qed.
Lemma forward_version_moves sql b : moves [] (forward_version cfg sql b : ST unit) (fun _ => []).
Proof. unfold forward_version. session_tac. Qed.
Lemma block_moves m sql d e msg : moves [] (block cfg m sql d e msg : ST unit) (fun _ => []).
Proof. unfold block. session_tac. Qed.
Hint Resolve enforce_time_moves enforce_idle_moves count_intent_moves deny_write_moves forward_version_moves block_moves : owns.
Lemma check_injection_moves sql : moves [] (check_injection cfg sql : ST unit) (fun _ => []).
Proof. unfold check_injection. session_tac. Qed.
Lemma check_whitelist_moves sql : moves [] (check_whitelist cfg sql : ST unit) (fun _ => []).
Proof. unfold check_whitelist. session_tac. Qed.
Lemma note_sticky_hint_moves sql : moves [] (note_sticky_hint sql : ST unit) (fun _ => []).
Proof. unfold note_sticky_hint. session_tac. Qed.
Lemma route_sticky_moves b tx r : moves [] (route_sticky cfg b tx r : ST unit) (fun _ => []).
Proof. unfold route_sticky. session_tac. Qed.
Lemma route_moves b tx r : moves [] (route b tx r : ST _) (fun _ => []).
Proof. unfold route, route_query, route_query_with_session_vars. session_tac. Qed.
Lemma after_route_moves e r i : moves [] (after_route cfg e r i : ST unit) (fun _ => []).
Proof. unfold after_route. session_tac. Qed.
Lemma track_change_moves ch : moves [] (track_change ch : ST unit) (fun _ => []).
Proof. unfold track_change. session_tac. Qed.
Hint Resolve check_injection_moves check_whitelist_moves note_sticky_hint_moves route_sticky_moves route_moves after_route_moves
  track_change_moves : owns.
Lemma on_response_moves r x : moves [] (on_response cfg r x : ST unit) (fun _ => []).
Proof. unfold on_response. session_tac. Qed.
Lemma count_error_moves : moves [] (count_error cfg : ST unit) (fun _ => []).
Proof. unfold count_error. session_tac. Qed.
Lemma abandon_moves : moves [] (abandon_transaction : ST unit) (fun _ => []).
Proof. unfold abandon_transaction. session_tac. Qed.
Hint Resolve on_response_moves count_error_moves abandon_moves : owns.
Lemma on_error_moves sql e : moves [] (on_error cfg sql e : ST unit) (fun _ => []).
Proof. unfold on_error. session_tac. Qed.
Lemma record_moves sql i t : moves [] (record_in_trace sql i t : ST unit) (fun _ => []).
Proof. unfold record_in_trace. session_tac. Qed.
Lemma end_transaction_moves sql : moves [] (end_transaction sql : ST unit) (fun _ => []).
Proof. unfold end_transaction. session_tac. Qed.
Hint Resolve on_error_moves record_moves end_transaction_moves : owns.
Lemma measure_moves sql r i t e : moves [] (measure cfg sql r i t e : ST unit) (fun _ => []).
Proof. unfold measure. session_tac. Qed.
Hint Resolve measure_moves : owns.
Lemma normal_query_moves b sql tx : moves [] (normal_query cfg b sql tx : ST unit) (fun _ => []).
Proof. unfold normal_query. session_tac. Qed.
Hint Resolve normal_query_moves : owns.
Lemma query_command_moves b : moves [] (query_command cfg b : ST unit) (fun _ => []).
Proof. unfold query_command. session_tac. Qed.
Lemma reset_connection_moves : moves [] (reset_connection cfg : ST unit) (fun _ => []).
Proof. unfold reset_connection. session_tac. Qed.
Lemma other_command_moves raw : moves [] (other_command cfg raw : ST unit) (fun _ => []).
Proof. unfold other_command, route_raw. session_tac. Qed.
Lemma stmt_command_moves raw : moves [] (stmt_command cfg raw : ST unit) (fun _ => []).
Proof. unfold stmt_command. session_tac. Qed.
Hint Resolve query_command_moves reset_connection_moves other_command_moves stmt_command_moves : owns.
Lemma command_moves cmd : moves [] (command cfg cmd : ST unit) (fun _ => []).
Proof. unfold command. session_tac. Qed.
Lemma close_session_moves : moves [] (close_session cfg : ST unit) (fun _ => []).
Proof. unfold close_session. session_tac. Qed.
Lemma start_session_moves : moves [] (start_session cfg : ST bool) (fun _ => []).
Proof. unfold start_session. session_tac. Qed.
Lemma turn_moves cmd : moves [] (turn cfg cmd : ST unit) (fun _ => []).
Proof.
  intros s _. unfold turn. pose proof (command_moves cmd s I) as H. destruct (command cfg cmd s) as [[[]|[]] s1];
    [exact H | split; [exact H | done] | exact H | exact H].
Qed.
End Sessions.

(** ** The server *)

Section MysqlServer.
Context {W C : Type} `{IO : !BackendIO W C} `{TR : !Tracked W C} `{CT : CaseTable} `{ET : EscapeTable} `{RE : RegexEngine}
  `{MO : !MapOrder bytes CacheEntry} `{MO1 : !MapOrder bytes bytes}
  `{MO2 : !MapOrder Z Z} `{MO3 : !MapOrder Z My.MysqlStmtInfo}.

(** What runs beside the sessions, and what the dashboard may change. *)
Inductive MysqlTask := ChecksHealth (hc : HealthChecker) | PollsGroup (gc : GrChecker).
Inductive MysqlChange :=
| Reloads (new_config : Proxy.ProxyConfig)
| ChangesRules (rules : list Rules.CompiledRule)
| ChangesRewriter (rewriter : list Rewriter.CompiledRule).
Definition mysql_task (t : MysqlTask) (s : BackendPool C * W) : BackendPool C * W :=
  match t with ChecksHealth hc => snd (tick hc s) | PollsGroup gc => poll_once gc s end.
Definition mysql_change (c : MysqlChange) (r : Router (C := C)) : Router (C := C) :=
  match c with
  | Reloads c => server_reload_backends c r
  | ChangesRules rs => set_rules rs r
  | ChangesRewriter rs => set_rewriter rs r
  end.

#[export] Instance mysql_ops : ServerOps W C := {|
  Cfg := SessionConfig; Cli := MySQLClientSession; Cmd := Command; Sess := SState; Shr := Shared;
  Task := MysqlTask; Change := MysqlChange;
  srv_env := env; srv_shared := shared;
  srv_load e h s := with_shared h (with_env e s);
  srv_new := initial;
  srv_start := start_session; srv_turn := turn; srv_close := close_session;
  srv_task := mysql_task; srv_change := mysql_change
|}.

Lemma configured_idle c : all_idle (ConfigAdmin.configured_pool c : BackendPool C) = [].
Proof. apply with_options_idle. Qed.
#[export] Instance mysql_laws : ServerLaws W C.
Proof.
  split; try done.
  - apply start_session_moves.
  - apply turn_moves.
  - apply close_session_moves.
  - intros [hc|gc] s; [apply tick_evolves | apply poll_evolves].
  - intros [c|rs|rs] r i; try done. unfold router_ids. cbn [srv_change mysql_ops mysql_change server_reload_backends r_pool r_mirror].
    rewrite configured_idle, !cnt_app, cnt_nil. lia.
Qed.

(** C3: Whatever the clients of a MySQL server and its background tasks do, in whatever order, no
    backend connection is held twice, be it by two clients or by a client and a pool; and
    what is done next speaks to connections that are idle, new, or held by the client it is
    done for, never to one that another client holds for its transaction, its prepared
    statements or its hint. *)
Theorem clients_never_share_connections config rules rewriter file w h acts :
  let sys := foldl act (server_start (Server.router (proxy_server_new config rules rewriter file)) w h) acts in
  NoDup (all_ids sys) /\ forall a, isolates sys a.
Proof.
  intros sys. assert (exclusive sys) as H.
  { apply always_exclusive. unfold router_ids. cbn [proxy_server_new Server.router Server.set_max_query_time_ms Router_new r_pool r_mirror].
    by rewrite configured_idle. }
  split; [by apply exclusive_NoDup|]. intros a. by apply exclusive_isolates.
Qed.
End MysqlServer.

(** ** Three clients *)

Section DemoClients.
#[local] Existing Instance ascii_table.
#[local] Existing Instance substring_engine.
#[local] Existing Instance demo_order.
#[local] Existing Instance plain_escapes.
#[local] Instance demo_counted : BackendIO (Counted TestWorld) (TestConn * nat) := counted_io test_io.
#[local] Instance demo_tracked : Tracked (Counted TestWorld) (TestConn * nat) := counted_tracked test_io.

Definition three_clients : list (Act (W := Counted TestWorld) (C := TestConn * nat)) :=
  let q (k : nat) (sql : string) : Act := Sends k (Query (bs sql)) in
  [Connects SessionProps.demo_cfg (SessionProps.demo_client true); Connects SessionProps.demo_cfg (SessionProps.demo_client true); Connects SessionProps.demo_cfg (SessionProps.demo_client true);
   q 0 "BEGIN"; q 1 "BEGIN"; q 0 "UPDATE t SET n = 1"; q 2 "SELECT n FROM t"; q 1 "COMMIT";
   q 2 "/* sticky_backend=1 */ SELECT 1"]%string.
Definition busy_server : System (W := Counted TestWorld) (C := TestConn * nat) :=
  foldl act (server_start (Server.router (proxy_server_new demo_config [] [] None))
    {| under := test_world; count_opened := 0; count_spoken := [] |} SessionProps.demo_shared) three_clients.

(** The first client is in a transaction on connection 0, the second has given 1 back, the
    third is bound to the replica behind 2. *)
Lemma clients_never_share_connections_witness :
  NoDup (all_ids busy_server) /\ map session_ids (s_sessions busy_server) = [[0]; []; [2]] /\
  spoken_to (s_world busy_server) = [0; 1; 0; 2; 1; 2] /\
  isolates busy_server (Sends 1 (Query (bs "DELETE FROM t"))).
Proof.
  destruct (clients_never_share_connections demo_config [] [] None
    {| under := test_world; count_opened := 0; count_spoken := [] |} SessionProps.demo_shared three_clients) as [H1 H2].
  split_and!; [exact H1 | vm_compute; reflexivity | vm_compute; reflexivity | apply H2].
Defined.
End DemoClients.
