(* ===== verification/PgClients.v ===== *)
(** * The PostgreSQL server and its clients (src/src/proxy/pg_server.rs)

    What a session does with connections, command by command, and the PostgreSQL server as an
    instance of Isolation. *)

From S2P Require Import ConfigAdminProps PgServerProps.
From S2P Require Import Prelude Bytes Config Server Classifier QueryCache Rules Rewriter StmtShadow Handshake CircuitBreaker Pool.
From S2P Require Import Health PgHealth Router Ownership UserRegistry Tracer Session Isolation QueryStats PgWire PgServer.

#[local] Open Scope nat_scope.

(** ** One session *)

Section PgSessions.
Context {W C : Type} `{IO : !BackendIO W C} `{TR : !Tracked W C} `{CT : CaseTable} `{RE : RegexEngine}
  `{MO : !MapOrder bytes CacheEntry} `{MO1 : !MapOrder bytes bytes} `{MO2 : !MapOrder Z (Z * bytes)}.
Local Abbreviation SS := (PgState (W := W) (C := C)).
Local Abbreviation ST := (SE SS ctl).
Variable default_hash : bytes -> Z.
Variable cfg : PgServerConfig.

#[export] Instance holds_pg_session : Holds W SS :=
  {| holding s := holding (env s); in_world s := world (env s) |}.

Lemma pg_modify_moves ins (f : SS -> SS) : (forall s, env (f s) = env s) -> moves ins (modify f) (fun _ => ins).
Proof. intros H. apply moves_modify. intros s. cbn. by rewrite H. Qed.
Lemma pg_reply_moves ins r : moves ins (reply cfg r : ST bool) (fun _ => ins).
Proof. intros s _. split; [|done]. by apply evolves_same. Qed.
Lemma pg_routed_moves {A} ins (m : SE Env failure A) outs : moves ins m outs ->
  moves ins (routed m : ST _) (fun r => match r with Ok a => outs a | Err _ => [] end).
Proof.
  intros H s _. unfold routed. specialize (H (env s) I). destruct (m (env s)) as [[a|[x|]] e]; [destruct H as [H _]; split; [|done]|split; [|done]|];
    (eapply evolves_frame; [exact H | done | done | |]; intros i; cbn [holding in_world holds_pg_session env with_env]; lia).
Qed.
Lemma pg_routed_stays {A} ins (m : SE Env failure A) : moves ins m (fun _ => []) -> moves ins (routed m : ST _) (fun _ => []).
Proof. intros H. eapply moves_weak; [by apply pg_routed_moves|]. intros [a|x]; count_tac. Qed.
Lemma pg_iter_moves {A} (f : A -> ST unit) l : (forall a, moves [] (f a) (fun _ => [])) -> moves [] (se_iter f l) (fun _ => []).
Proof. intros H. induction l as [|a l IH]; cbn [se_iter]; [by apply moves_ret|]. eapply moves_bind; [apply H|]. intros []. apply IH. Qed.
Hint Extern 1 (env _ = env _) => reflexivity : owns.
Hint Resolve pg_modify_moves pg_reply_moves pg_routed_stays pg_iter_moves : owns.
Hint Resolve pg_routed_moves | 10 : owns.

(** Taking a connection out of its slot. *)
Lemma pg_take_moves (look : Env -> option C) (clear : Env -> Env) (rest : C -> ST unit) s :
  (forall e, world (clear e) = world e) ->
  (forall c e i, look e = Some c -> cnt i [ident c] + cnt i (holding (clear e)) <= cnt i (holding e)) ->
  (forall c, moves [ident c] (rest c) (fun _ => [])) ->
  owns (fun s' => s' = s) [] (match look (env s) with
                              | Some c => on_env clear ;; rest c
                              | None => mret tt
                              end : ST unit) (fun _ => []) (fun _ _ => True).
Proof.
  intros Hw Hc Hr. destruct (look (env s)) as [c|] eqn:El; [|by apply owns_ret].
  apply (owns_bind _ _ _ (fun _ => [ident c]) (fun _ _ => True)); [|intros []; apply Hr].
  apply owns_modify. intros s' ->. split_and!; [apply Hw | done |]. intros i. specialize (Hc c (env s) i El).
  cbn [holding holds_pg_session env with_env]. rewrite cnt_nil. lia.
Qed.
Ltac slot_taken := intros c e i H; cbn [holding holds_env]; unfold slot_ids;
  cbn [router tx_conn stmt_conn sticky_conn set_tx set_stmt]; rewrite H, !cnt_app;
  change (slot_id None) with (@nil nat); change (slot_id (Some c)) with [ident c]; rewrite ?cnt_nil; lia.
Lemma pg_put_moves ins c db : moves (ident c :: ins) (router_put_primary_for_database c db : SE Env failure unit) (fun _ => ins).
Proof. apply put_primary_db_moves. Qed.
Hint Resolve pg_put_moves : owns.
Lemma pg_give_moves c db : moves [ident c] (ignore (routed (router_put_primary_for_database c db)) : ST unit) (fun _ => []).
Proof. eapply moves_bind; [apply pg_routed_stays, put_primary_db_moves|]. intros r. by apply moves_ret. Qed.
Hint Resolve pg_give_moves : owns.
Lemma pg_release_tx_moves : moves [] (release_tx : ST unit) (fun _ => []).
Proof.
  apply owns_get. intros s _.
  apply (pg_take_moves tx_conn (set_tx None) (fun c => ignore (routed (router_put_primary_for_database c (client_database s)))));
    [done | slot_taken | intros c; apply pg_give_moves].
Qed.
Lemma pg_release_stmt_moves : moves [] (release_stmt : ST unit) (fun _ => []).
Proof.
  apply owns_get. intros s _.
  apply (pg_take_moves stmt_conn (set_stmt None) (fun c => r ← routed (ask c (bs "DEALLOCATE ALL"));
    match r with Ok r => ignore (routed (router_put_primary_for_database (snd r) (client_database s))) | Err _ => mret tt end));
    [done | slot_taken | intros c].
  eapply moves_bind; [apply pg_routed_moves, ask_moves|]. moves_tac.
Qed.
Lemma pg_drop_tx_moves : moves [] (drop_tx : ST unit) (fun _ => []).
Proof.
  apply owns_modify. intros s _. split_and!; [done | done |]. intros i.
  cbn [holding holds_pg_session holds_env env with_env]. unfold slot_ids. cbn [router tx_conn stmt_conn sticky_conn set_tx].
  rewrite !cnt_app. change (slot_id None) with (@nil nat). rewrite cnt_nil. lia.
Qed.
Hint Resolve pg_release_tx_moves pg_release_stmt_moves pg_drop_tx_moves : owns.

(** *** The commands *)

Lemma pg_write_error_moves ins code m : moves ins (write_error cfg code m : ST unit) (fun _ => ins).
Proof. unfold write_error, ignore. moves_tac. Qed.
Lemma pg_write_response_moves r : moves [] (write_response cfg r : ST unit) (fun _ => []).
Proof. unfold write_response, or_break. moves_tac. Qed.
Lemma pg_flush_moves : moves [] (flush_or_break cfg : ST unit) (fun _ => []).
Proof. unfold flush_or_break, or_break. moves_tac. Qed.
Lemma pg_flush_continue_moves {A} : moves [] (flush_and_continue cfg : ST A) (fun _ => []).
Proof. unfold flush_and_continue, ignore. moves_tac. Qed.
Hint Resolve pg_write_error_moves pg_write_response_moves pg_flush_moves pg_flush_continue_moves : owns.
Lemma pg_refuse_moves {A} code m : moves [] (refuse cfg code m : ST A) (fun _ => []).
Proof. unfold refuse. moves_tac. Qed.
Ltac small_tac := unfold set_in_transaction, bump, push_trace, add_copy, audit, error_event, observe, on_shared, log_slice, ignore; moves_tac.
Lemma pg_finish_trace_moves out : moves [] (finish_trace out : ST unit) (fun _ => []).
Proof. unfold finish_trace. small_tac. Qed.
Lemma pg_follow_moves r : moves [] (follow_status r : ST unit) (fun _ => []).
Proof. unfold follow_status. small_tac. Qed.
Lemma pg_track_moves sql : moves [] (track default_hash sql : ST unit) (fun _ => []).
Proof. unfold track. small_tac. Qed.
Hint Resolve pg_refuse_moves pg_finish_trace_moves pg_follow_moves pg_track_moves : owns.
Lemma pg_meta_moves sql : moves [] (meta_command cfg sql : ST unit) (fun _ => []).
Proof. unfold meta_command, route_query_with_database. small_tac. Qed.
Lemma pg_count_moves i : moves [] (count_intent i : ST unit) (fun _ => []).
Proof. unfold count_intent. small_tac. Qed.
Lemma pg_deny_moves i : moves [] (deny_write cfg i : ST unit) (fun _ => []).
Proof. unfold deny_write. small_tac. Qed.
Lemma pg_injection_moves sql : moves [] (check_injection cfg sql : ST unit) (fun _ => []).
Proof. unfold check_injection. small_tac. Qed.
Lemma pg_whitelist_moves sql : moves [] (check_whitelist cfg sql : ST unit) (fun _ => []).
Proof. unfold check_whitelist. small_tac. Qed.
Lemma pg_begin_moves u : moves [] (begin_transaction cfg u : ST unit) (fun _ => []).
Proof. unfold begin_transaction. small_tac. Qed.
Lemma pg_after_moves u r : moves [] (after_route u r : ST unit) (fun _ => []).
Proof. unfold after_route. small_tac. Qed.
Lemma pg_record_moves sql fp d i : moves [] (record_in_trace sql fp d i : ST unit) (fun _ => []).
Proof. unfold record_in_trace. small_tac. Qed.
Hint Resolve pg_meta_moves pg_count_moves pg_deny_moves pg_injection_moves pg_whitelist_moves pg_begin_moves pg_after_moves
  pg_record_moves : owns.
Lemma pg_success_moves sql i d : moves [] (on_success default_hash cfg sql i d : ST unit) (fun _ => []).
Proof. unfold on_success. small_tac. Qed.
Lemma pg_error_moves sql e d : moves [] (on_error cfg sql e d : ST unit) (fun _ => []).
Proof. unfold on_error. small_tac. Qed.
Hint Resolve pg_success_moves pg_error_moves : owns.
Lemma pg_query_moves b : moves [] (query_command default_hash cfg b : ST unit) (fun _ => []).
Proof. unfold query_command, route_query_with_database. small_tac. Qed.
Lemma pg_report_moves scan d : moves [] (report_parses default_hash scan d : ST unit) (fun _ => []).
Proof. unfold report_parses. eapply moves_bind; [apply pg_iter_moves; intros q; small_tac|]. intros []. small_tac. Qed.
Hint Resolve pg_query_moves pg_report_moves : owns.
Lemma pg_stmt_moves raw : moves [] (stmt_command default_hash cfg raw : ST unit) (fun _ => []).
Proof. unfold stmt_command, route_stmt_pg_shadow_with_database. small_tac. Qed.
Lemma pg_other_moves raw : moves [] (other_command cfg raw : ST unit) (fun _ => []).
Proof.
  unfold other_command. small_tac.
Qed.
Hint Resolve pg_stmt_moves pg_other_moves : owns.
Lemma pg_turn_moves cmd : moves [] (turn default_hash cfg cmd : ST unit) (fun _ => []).
Proof.
  assert (moves [] (command default_hash cfg cmd : ST unit) (fun _ => [])) as Hc by (unfold command; moves_tac).
  intros s _. unfold turn. specialize (Hc s I). destruct (command default_hash cfg cmd s) as [[[]|[]] s1];
    [exact Hc | split; [exact Hc | done] | exact Hc | exact Hc].
Qed.
Lemma run_inits_moves ins c sqls : moves (ident c :: ins) (run_inits c sqls) (fun c => ident c :: ins).
Proof. revert c. induction sqls as [|sql sqls IH]; intros c; cbn [run_inits]; moves_tac. Qed.
Lemma pg_start_moves : moves [] (start_session cfg : ST unit) (fun _ => []).
Proof.
  pose proof run_inits_moves. unfold start_session. apply moves_get. intros s. destruct (session_init_sqls cfg s); [by apply moves_ret|].
  eapply moves_bind; [apply pg_routed_moves, on_backends_moves, get_primary_moves|]. intros [c|e]; [|by apply moves_ret].
  apply (moves_bind _ _ (fun _ => [])); [|intros r; by apply moves_ret]. apply pg_routed_stays. moves_tac.
Qed.
Lemma pg_close_moves : moves [] (close_session : ST unit) (fun _ => []).
Proof. unfold close_session. small_tac. Qed.
End PgSessions.

(** ** The checks of the backends

    A Patroni agent is no backend: asking it opens no connection to one. *)

Section PgChecks.
Context {W C : Type} `{IO : !BackendIO W C} `{TR : !Tracked W C}.
Variable patroni : bytes -> W -> PatroniAnswer * W.
Hypothesis patroni_apart : forall url w,
  opened (snd (patroni url w)) = opened w /\ spoken_to (snd (patroni url w)) = spoken_to w.
Variable hc : PgHealthChecker.

Lemma ask_patroni_moves ins cfg : moves ins (ask_patroni patroni hc cfg : B _) (fun _ => ins).
Proof.
  intros [p w] _. unfold ask_patroni. cbn [snd fst]. destruct (patroni_apart (patroni_url hc cfg) w) as [E1 E2].
  destruct (patroni _ w) as [a w']. cbn [snd] in *. split; [|done]. unfold evolves. cbn [in_world holds_pools snd]. rewrite E1, E2.
  split_and!; [done | intros i; cbn; lia | exists []; by rewrite app_nil_r].
Qed.
Lemma ping_conn_moves ins c : moves (ident c :: ins) (ping_conn c : B _) (fun r => ident (snd r) :: ins).
Proof.
  intros [p w] _. unfold ping_conn. cbn [fst snd]. pose proof (ping_tracked c w) as H.
  destruct (Pool.ping c w) as [[r c'] w']. cbn [snd]. rewrite (proj1 H). split; [|done].
  eapply call_evolves; [exact H | apply in_hand | done].
Qed.
Hint Resolve ask_patroni_moves ping_conn_moves connect_to_moves query_conn_moves primary_up_idle promote_idle : owns.
Hint Extern 1 (forall s, in_world _ = in_world s /\ _) => intros []; done : owns.
Lemma wire_check_moves cfg : moves [] (wire_check cfg : B bool) (fun _ => []).
Proof. unfold wire_check. moves_tac. Qed.
Hint Resolve wire_check_moves : owns.
Lemma ping_and_check_moves cfg : moves [] (ping_and_check_primary patroni hc cfg : B bool) (fun _ => []).
Proof. unfold ping_and_check_primary. moves_tac. Qed.
Lemma drive_primary_moves ok : moves [] (drive_primary_breaker ok : B unit) (fun _ => []).
Proof. apply moves_modify. by intros [p w]. Qed.
Lemma drive_replica_moves i ok : moves [] (drive_replica_breaker i ok : B unit) (fun _ => []).
Proof. apply moves_modify. by intros [p w]. Qed.
Hint Resolve ping_and_check_moves drive_primary_moves drive_replica_moves : owns.
Lemma pg_check_primary_moves : moves [] (check_primary patroni hc : B unit) (fun _ => []).
Proof. unfold check_primary, trigger_failover. moves_tac. Qed.
Lemma pg_measure_moves ins i c : moves (ident c :: ins) (measure_replica hc i c : B unit) (fun _ => []).
Proof.
  unfold measure_replica, pg_replica_lag_ms, set_replica. moves_tac.
Qed.
Hint Resolve pg_check_primary_moves pg_measure_moves : owns.
Lemma pg_check_replica_moves i cfg : moves [] (check_replica patroni hc i cfg : B unit) (fun _ => []).
Proof. unfold check_replica, check_wire_replica, set_replica. moves_tac. Qed.
Lemma discover_moves : moves [] (discover_replicas hc : B (option Z)) (fun _ => []).
Proof. unfold discover_replicas. moves_tac. Qed.
Hint Resolve pg_check_replica_moves discover_moves : owns.
Lemma pg_check_replicas_moves i cfgs : moves [] (check_replicas patroni hc i cfgs : B unit) (fun _ => []).
Proof. revert i. induction cfgs as [|cfg cfgs IH]; intros i; cbn [check_replicas]; moves_tac. Qed.
Hint Resolve pg_check_replicas_moves : owns.
Lemma pg_tick_evolves n s : evolves s [] (snd (tick patroni hc n s : result bytes Z * _)) [].
Proof.
  assert (moves [] (tick patroni hc n : B Z) (fun _ => [])) as H by (unfold tick; moves_tac).
  specialize (H s I). destruct (tick patroni hc n s) as [[k|e] s']; [by destruct H | exact H].
Qed.
End PgChecks.

(** ** The server *)

Section PgServing.
Context {W C : Type} `{IO : !BackendIO W C} `{TR : !Tracked W C} `{CT : CaseTable} `{RE : RegexEngine}
  `{MO : !MapOrder bytes CacheEntry} `{MO1 : !MapOrder bytes bytes} `{MO2 : !MapOrder Z (Z * bytes)}.
Variable default_hash : bytes -> Z.
Variable patroni : bytes -> W -> PatroniAnswer * W.

(** A round of the health checker, with the number of replicas it has discovered, and what
    the dashboard may change. *)
Inductive PgTask := PgChecksHealth (hc : PgHealthChecker) (discovered : Z).
Inductive PgChange :=
| PgChangesRules (rules : list Rules.CompiledRule)
| PgChangesRewriter (rewriter : list Rewriter.CompiledRule).
Definition pg_task (t : PgTask) (s : BackendPool C * W) : BackendPool C * W :=
  match t with PgChecksHealth hc n => snd (tick patroni hc n s) end.
Definition pg_change (c : PgChange) (r : Router (C := C)) : Router (C := C) :=
  match c with PgChangesRules rs => set_rules rs r | PgChangesRewriter rs => set_rewriter rs r end.

Definition pg_ops : ServerOps W C := {|
  Cfg := PgServerConfig; Cli := PgClientSession; Cmd := Command; Sess := PgState; Shr := PgShared;
  Task := PgTask; Change := PgChange;
  srv_env := env; srv_shared := shared;
  srv_load e h s := with_shared h (with_env e s);
  srv_new := initial;
  srv_start cfg := start_session cfg ;; mret true;
  srv_turn := turn default_hash; srv_close _ := close_session;
  srv_task := pg_task; srv_change := pg_change
|}.

Lemma pg_laws : (forall url w, opened (snd (patroni url w)) = opened w /\ spoken_to (snd (patroni url w)) = spoken_to w) ->
  ServerLaws W C (SO := pg_ops).
Proof.
  intros Hp. split; try done.
  - intros e c h H. split_and!; [done | done |]. apply app_nil in H as [_ H]. by apply app_nil in H as [_ H].
  - intros cfg. eapply moves_bind; [apply pg_start_moves|]. intros u. by apply moves_ret.
  - apply pg_turn_moves.
  - intros cfg. change (srv_close cfg) with (close_session (W := W) (C := C)). exact pg_close_moves.
  - intros [hc n] s. exact (pg_tick_evolves patroni Hp hc n s).
  - by intros [rs|rs] r i.
Qed.

(** C8: The same for a PostgreSQL server, as long as asking Patroni, which is no backend, opens
    and speaks to no backend connection: no connection is held twice, and what is done for
    one client speaks to no connection that another client holds. *)
Theorem pg_clients_never_share_connections config rules rewriter file tls ps w h (acts : list (Act (SO := pg_ops))) :
  (forall url w, opened (snd (patroni url w)) = opened w /\ spoken_to (snd (patroni url w)) = spoken_to w) ->
  pg_proxy_server_new config rules rewriter file tls = Some ps ->
  let sys := foldl (act (SO := pg_ops)) (server_start (SO := pg_ops) (pg_router ps) w h) acts in
  NoDup (all_ids sys) /\ forall a, isolates sys a.
Proof.
  intros Hp Hps sys. pose proof (pg_laws Hp) as SL. assert (exclusive sys) as H.
  { apply always_exclusive. unfold pg_proxy_server_new in Hps. destruct (Proxy.pg_primary config); [|done]. injection Hps as <-.
    unfold router_ids. cbn [pg_router Router_new r_pool r_mirror]. by rewrite with_options_idle. }
  split; [by apply exclusive_NoDup|]. intros a. by apply exclusive_isolates.
Qed.
End PgServing.

(** ** Two clients *)

Section DemoPgClients.
#[local] Existing Instance ascii_table.
#[local] Existing Instance substring_engine.
#[local] Existing Instance demo_order.
#[local] Instance pg_counted : BackendIO (Counted PgTestWorld) (PgTestConn * nat) := counted_io pg_test_io.
#[local] Instance pg_tracked : Tracked (Counted PgTestWorld) (PgTestConn * nat) := counted_tracked pg_test_io.
(** No agent answers. *)
Definition no_patroni (url : bytes) (w : Counted PgTestWorld) : PatroniAnswer * Counted PgTestWorld := (NoSuccess, w).
#[local] Instance demo_pg_ops : ServerOps (Counted PgTestWorld) (PgTestConn * nat) := pg_ops length_hash no_patroni.

Definition demo_pg_config : Proxy.PgsqlConfig := {|
  Proxy.pg_enabled := true; Proxy.pg_listen_addr := bs "0.0.0.0:5433"; Proxy.pg_primary := Some (test_config "p:5432" 1 false None);
  Proxy.pg_replicas := []; Proxy.pg_pool_size := 4; Proxy.pg_pool_wait_queue_size := 0; Proxy.pg_pool_wait_timeout_ms := 5000;
  Proxy.pg_max_connections := 0; Proxy.pg_users := []; Proxy.pg_connection_max_idle_secs := 55; Proxy.pg_read_your_own_writes_ms := 0;
  Proxy.health_check_interval_secs := 5; Proxy.max_replica_lag_ms := 5000; Proxy.primary_failover_threshold := 3;
  Proxy.failover_cooldown_secs := 30; Proxy.failover_min_recovery_checks := 3; Proxy.health_check_database := [];
  Proxy.whitelist_mode := false; Proxy.pg_query_whitelist := []; Proxy.pg_sql_injection_protection := false; Proxy.pg_audit_log := [];
  Proxy.slow_query_log_ms := 0; Proxy.patroni_check := false; Proxy.patroni_api_port := 8008; Proxy.ssl_cert := []; Proxy.ssl_key := [];
  Proxy.pg_server_version := [] |}.
Definition demo_pg_shared : PgShared :=
  {| metrics _ := 0%Z; tracer := store_new; n1_store := ∅; copy_active := 0; events := [] |}.
Definition pg_acts : list Act :=
  [Connects (pg_cfg []) (pg_user true); Connects (pg_cfg []) (pg_user true);
   Sends 0 (Query (bs "BEGIN")); Sends 1 (Query (bs "BEGIN")); Sends 0 (Query (bs "COMMIT")); Sends 0 (Query (bs "SELECT 1"))].
Definition demo_pg_server (r : Router (C := PgTestConn * nat)) : System :=
  foldl act (server_start r {| under := {| pt_next := 1; pt_log := [] |}; count_opened := 0; count_spoken := [] |} demo_pg_shared) pg_acts.

(** The second client is in a transaction on connection 1; the first has used 0 for all it did. *)
Lemma pg_clients_never_share_connections_witness :
  match pg_proxy_server_new demo_pg_config [] [] None false with
  | Some ps =>
      let sys := demo_pg_server (pg_router ps) in
      NoDup (all_ids sys) /\ map session_ids (s_sessions sys) = [[]; [1]] /\ spoken_to (s_world sys) = [0; 1; 0; 0] /\
      isolates sys (Sends 0 (Query (bs "DELETE FROM t")))
  | None => False
  end.
Proof.
  destruct (pg_proxy_server_new demo_pg_config [] [] None false) as [ps|] eqn:E; [|discriminate E].
  destruct (pg_clients_never_share_connections length_hash no_patroni demo_pg_config [] [] None false ps
    {| under := {| pt_next := 1; pt_log := [] |}; count_opened := 0; count_spoken := [] |} demo_pg_shared pg_acts
    (fun _ _ => conj eq_refl eq_refl) E) as [H1 H2].
  split_and!; [exact H1 | | | apply H2]; injection E as <-; vm_compute; reflexivity.
Defined.
End DemoPgClients.
