(* ===== verification/Startup.v ===== *)
(** * Start-up (src/src/main.rs)

    The command line, the wizard that writes a configuration file, the tasks that [main]
    starts, what it hands to the dashboard, and its background loops.  The terminal is the
    list of the lines still to be read ([None] for one that cannot be); at its end every read
    gives the empty text.  What is printed is left out. *)

From S2P Require Import Prelude Bytes Config CircuitBreaker Pool Rules Rewriter Router Session ConfigStore ConfigStoreProps ConfigAdmin ConfigAdminProps Analytics Alerts Server.

(** ** The command line *)

Inductive Command := Init (args : list bytes) | Help | Serve (config_path : bytes).
(** [args] starts with the name of the program. *)
Definition command (args : list bytes) : Command :=
  match args with
  | _ :: cmd :: rest =>
      if beq cmd (bs "init") || beq cmd (bs "config:init") then Init rest
      else if beq cmd (bs "-h") || beq cmd (bs "--help") then Help
      else Serve cmd
  | _ => Serve (bs "turbineproxy.toml")
  end.

(** The configuration that is served: the file if it is there, else one for development. *)
Definition development_config : bytes := map (fun b => if b =? 126 then dquote else b) (bs "
            listen_addr = ~0.0.0.0:3307~
            max_connections = 1000
            pool_size = 20

            [primary]
            addr = ~127.0.0.1:3306~
            user = ~root~
            password = ~~

            [[replicas]]
            addr = ~127.0.0.1:3306~
            user = ~root~
            password = ~~

            [analytics]
            enabled = true
            db_path = ~turbineproxy_analytics.db~
            slow_query_ms = 100

            [dashboard]
            enabled = true
            listen_addr = ~0.0.0.0:8080~
            ").
Definition load_config `{ENV : Environment} `{TP : TomlParser} (exists_ : bytes -> bool) (config_path : bytes) : option Proxy.ProxyConfig :=
  if exists_ config_path then Proxy.from_file toml_raw config_path else Proxy.from_str toml_raw development_config.

Record InitOptions := { output : bytes; force : bool }.
Inductive InitError := MissingValue (option_name : bytes) | UnknownOption (given : bytes) | ShowHelp
| BadTerminal | NotANumber (field : string) | InvalidConfig | WriteFailed.
Fixpoint parse_init_from (args : list bytes) (o : InitOptions) : result InitError InitOptions :=
  match args with
  | [] => Ok o
  | a :: rest =>
      if beq a (bs "-o") || beq a (bs "--output") then
        match rest with
        | [] => Err (MissingValue a)
        | next :: rest => parse_init_from rest {| output := next; force := force o |}
        end
      else if beq a (bs "-f") || beq a (bs "--force") then parse_init_from rest {| output := output o; force := true |}
      else if beq a (bs "-h") || beq a (bs "--help") then Err ShowHelp
      else Err (UnknownOption a)
  end.
Definition parse_init_options (args : list bytes) : result InitError InitOptions :=
  parse_init_from args {| output := bs "turbineproxy.toml"; force := false |}.

(** ** The wizard *)

Abbreviation Terminal := (list (option bytes)).
Local Abbreviation Ask := (SE Terminal InitError).
Definition read_line : Ask bytes := fun t =>
  match t with [] => (Ok [], []) | None :: t => (Err BadTerminal, t) | Some l :: t => (Ok l, t) end.
Definition prompt_with_default (dflt : bytes) : Ask bytes :=
  input ← read_line; let trimmed := trim input in mret (if beq trimmed [] then dflt else trimmed).
Fixpoint prompt_bool (dflt : bool) (t : Terminal) : result InitError bool * Terminal :=
  match t with
  | [] => (Ok dflt, [])
  | None :: t => (Err BadTerminal, t)
  | Some l :: t =>
      let a := to_ascii_lowercase (trim l) in
      if beq a [] then (Ok dflt, t)
      else if beq a (bs "y") || beq a (bs "yes") then (Ok true, t)
      else if beq a (bs "n") || beq a (bs "no") then (Ok false, t)
      else prompt_bool dflt t
  end.
Inductive BackendType := MySQL | PostgreSQL.
#[export] Instance backend_type_eq_dec : EqDecision BackendType.
Proof. solve_decision. Defined.
Fixpoint prompt_backend (t : Terminal) : result InitError BackendType * Terminal :=
  match t with
  | [] => (Ok MySQL, [])
  | None :: t => (Err BadTerminal, t)
  | Some l :: t =>
      let a := to_ascii_lowercase (trim l) in
      if beq a [] || beq a (bs "mysql") then (Ok MySQL, t) else if beq a (bs "pgsql") then (Ok PostgreSQL, t) else prompt_backend t
  end.
Definition prompt_number (field : string) (dflt : string) : Ask Z :=
  s ← prompt_with_default (bs dflt);
  match parse_uint 64 s with Some n => mret n | None => se_fail (NotANumber field) end.

Record Answers := {
  backend_type : BackendType; primary_addr : bytes; db_user : bytes; db_password : bytes; db_name : bytes;
  want_mysql : bool; mysql_listen : option bytes; want_pg : bool; pg_listen : option bytes;
  dashboard_enabled : bool; dashboard_addr : bytes; dashboard_user : bytes; dashboard_password : bytes;
  analytics_enabled : bool; slow_ms : Z; max_conns : Z; size_of_pool : Z; want_ha : bool
}.
Definition if_pg {A} (t : BackendType) (a b : A) : A := if decide (t = PostgreSQL) then a else b.
Definition ask_if {A} (b : bool) (m : Ask A) (a : A) : Ask A := if b then m else mret a.
Definition ask_all : Ask Answers :=
  t ← (prompt_backend : Ask BackendType);
  addr ← prompt_with_default (if_pg t (bs "127.0.0.1:5432") (bs "127.0.0.1:3306"));
  user ← prompt_with_default (if_pg t (bs "postgres") (bs "root"));
  pw ← prompt_with_default [];
  db ← prompt_with_default (if_pg t (bs "postgres") (bs "myapp"));
  my ← (prompt_bool (if_pg t false true) : Ask bool);
  my_addr ← ask_if my (a ← prompt_with_default (bs "0.0.0.0:3307"); mret (Some a)) None;
  pg ← (prompt_bool (if_pg t true false) : Ask bool);
  pg_addr ← ask_if pg (a ← prompt_with_default (bs "0.0.0.0:5432"); mret (Some a)) None;
  dash ← (prompt_bool true : Ask bool);
  dash_addr ← ask_if dash (prompt_with_default (bs "0.0.0.0:8080")) (bs "0.0.0.0:8080");
  auth ← ask_if dash (prompt_bool false : Ask bool) false;
  dash_user ← ask_if auth (prompt_with_default (bs "admin")) [];
  dash_pw ← ask_if auth (prompt_with_default []) [];
  an ← (prompt_bool true : Ask bool);
  slow ← prompt_number "slow_query_ms" "100";
  conns ← prompt_number "max_connections" "1000";
  size ← prompt_number "pool_size" "20";
  ha ← (prompt_bool true : Ask bool);
  mret {| backend_type := t; primary_addr := addr; db_user := user; db_password := pw; db_name := db; want_mysql := my;
          mysql_listen := my_addr; want_pg := pg; pg_listen := pg_addr; dashboard_enabled := dash; dashboard_addr := dash_addr;
          dashboard_user := dash_user; dashboard_password := dash_pw; analytics_enabled := an; slow_ms := slow;
          max_conns := conns; size_of_pool := size; want_ha := ha |}.

Definition escape_byte (b : Z) : bytes := if b =? 92 then [92; 92] else if b =? dquote then [92; dquote] else [b].
(** Backslashes are doubled, then quotes get one. *)
Definition toml_escape (value : bytes) : bytes := concat (map escape_byte value).
Definition line_of (l : bytes) : bytes := l ++ [10].
Definition text_line (key : string) (v : bytes) : bytes := line_of (bs key ++ [dquote] ++ toml_escape v ++ [dquote]).
Definition show_bool (b : bool) : bytes := bs (if b then "true" else "false").
Definition mysql_block (a : Answers) : bytes :=
  line_of (bs "[mysql]") ++
  (if want_mysql a then line_of (bs "enabled     = true") ++ text_line "listen_addr = " (default (bs "0.0.0.0:3307") (mysql_listen a))
   else line_of (bs "enabled = false")).
Definition pg_block (a : Answers) : bytes :=
  line_of (bs "[pgsql]") ++
  (if want_pg a then line_of (bs "enabled     = true") ++ text_line "listen_addr = " (default (bs "0.0.0.0:5432") (pg_listen a))
                     ++ text_line "health_check_database = " (bs "postgres")
   else line_of (bs "enabled = false")).
Definition render (a : Answers) : bytes :=
  line_of (bs "# Generated by: turbineproxy init") ++ line_of [] ++
  line_of (bs "[shared]") ++ line_of (bs "max_connections = " ++ show_u64 (max_conns a))
  ++ line_of (bs "pool_size       = " ++ show_u64 (size_of_pool a)) ++ line_of [] ++
  line_of (bs "[shared.primary]") ++ text_line "addr     = " (primary_addr a) ++ text_line "user     = " (db_user a)
  ++ text_line "password = " (db_password a) ++ text_line "database = " (db_name a) ++ line_of [] ++
  mysql_block a ++ line_of [] ++ pg_block a ++ line_of [] ++
  line_of (bs "[analytics]") ++ line_of (bs "enabled = " ++ show_bool (analytics_enabled a))
  ++ text_line "db_path = " (bs "turbineproxy_analytics.db") ++ line_of (bs "slow_query_ms = " ++ show_u64 (slow_ms a))
  ++ line_of (bs "retention_days = 30") ++ line_of [] ++
  line_of (bs "[dashboard]") ++ line_of (bs "enabled = " ++ show_bool (dashboard_enabled a))
  ++ text_line "listen_addr = " (dashboard_addr a) ++ text_line "username = " (dashboard_user a)
  ++ text_line "password = " (dashboard_password a) ++ line_of [] ++
  line_of (bs "[ha]") ++ line_of (bs "enabled = " ++ show_bool (want_ha a)) ++ line_of (bs "health_check_interval_secs = 5")
  ++ line_of (bs "max_replica_lag_ms = 5000") ++ line_of (bs "primary_failover_threshold = 3").

(** [exists_] and [can_write] answer for the file system; [None] when the user keeps the file
    that is there. *)
Definition run_init_wizard `{TP : TomlParser} (exists_ can_write : bytes -> bool) (args : list bytes) : Ask (option (bytes * bytes)) :=
  opts ← (match parse_init_options args with Ok o => mret o | Err e => se_fail e end : Ask InitOptions);
  go ← ask_if (exists_ (output opts) && negb (force opts)) (prompt_bool false : Ask bool) true;
  if (go : bool) then
    a ← ask_all;
    match Proxy.from_str toml_raw (render a) with
    | None => se_fail InvalidConfig
    | Some _ => if can_write (output opts) then mret (Some (output opts, render a)) else se_fail WriteFailed
    end
  else mret None.

(** ** What [main] starts *)

Inductive Task := FlushLoop | TimeseriesLoop | RegressionLoop | PgServer | PgHealthCheck | HangupHandler | TermHandler
| Dashboard | MysqlHealthCheck | GroupMonitor | MysqlServer.
#[export] Instance task_eq_dec : EqDecision Task.
Proof. solve_decision. Defined.
Inductive StartError := BadQueryRule (index : nat) | BadRewriteRule (index : nat) | TlsSetupFailed.
(** Whether the databases can be opened and the certificates be loaded. *)
Record Opens := { stats_db : bool; series_db : bool; frontend_acceptor : bool; pg_acceptor : bool; audit_file : option bytes }.

Section Main.
Context {W C : Type} `{RE : RegexEngine}.

Definition task_if (b : bool) (t : Task) : list Task := if b then [t] else [].
Definition pg_tasks (pg : Proxy.PgsqlConfig) (server : option (PgProxyServer (C := C))) : list Task :=
  match server with
  | Some _ => PgServer :: task_if (0 <? Proxy.health_check_interval_secs pg) PgHealthCheck
  | None => []
  end.
Definition pg_server (c : Proxy.ProxyConfig) (o : Opens) (rules : list Rules.CompiledRule) (rewriter : list Rewriter.CompiledRule)
  : option (PgProxyServer (C := C)) :=
  let pg := Proxy.resolved_pgsql c in
  if Proxy.pg_enabled pg then pg_proxy_server_new pg rules rewriter (audit_file o) (pg_acceptor o) else None.
(** The servers, and the tasks in the order they are spawned. *)
Definition main_start (c : Proxy.ProxyConfig) (o : Opens)
  : result StartError (ProxyServer (C := C) * option (PgProxyServer (C := C)) * list Task) :=
  match Rules.RuleEngine_new (Proxy.query_rules (Proxy.settings c)) with
  | Err i => Err (BadQueryRule i)
  | Ok rules =>
      match Rewriter.compile_rules (Proxy.rewrite_rules (Proxy.settings c)) with
      | Err i => Err (BadRewriteRule i)
      | Ok rewriter =>
          if Proxy.ft_enabled (Proxy.frontend_tls (Proxy.settings c)) && negb (frontend_acceptor o) then Err TlsSetupFailed
          else
            let server := proxy_server_new c rules rewriter (audit_file o) in
            let an := Proxy.an_enabled (Proxy.analytics (Proxy.settings c)) in
            let pg := pg_server c o rules rewriter in
            let my := Proxy.mysql_enabled c in
            Ok (server, pg,
                task_if (an && stats_db o) FlushLoop ++ task_if (an && series_db o) TimeseriesLoop ++ [RegressionLoop]
                ++ pg_tasks (Proxy.resolved_pgsql c) pg ++ [HangupHandler; TermHandler]
                ++ task_if (Proxy.db_enabled (Proxy.dashboard (Proxy.settings c))) Dashboard
                ++ task_if (my && Proxy.ha_enabled (Proxy.ha (Proxy.settings c))) MysqlHealthCheck
                ++ task_if (my && Proxy.gr_enabled (Proxy.group_replication (Proxy.settings c))) GroupMonitor
                ++ task_if my MysqlServer)
      end
  end.
(** The process as the accept loops see it. *)
Definition main_process (c : Proxy.ProxyConfig) (server : ProxyServer (C := C)) (pg : option (PgProxyServer (C := C))) : Process :=
  process_start (Proxy.mysql_enabled c) (permits server) (pg_permits <$> pg).

(** ** What the dashboard is given *)

Context `{ENV : Environment} `{SC : SecretCodec} `{SQ : Sqlite} `{TP : TomlParser}.
(** [opened] is the store as it is found, if it can be opened at all; a failed seed is logged. *)
Definition config_store_at_start (c : Proxy.ProxyConfig) (opened : option Db) : option Db :=
  if Proxy.an_enabled (Proxy.analytics (Proxy.settings c)) then
    d ← opened;
    Some (snd (seed_if_empty (Proxy.query_rules (Proxy.settings c)) (Proxy.rewrite_rules (Proxy.settings c)) (Proxy.primary c)
                 (Proxy.replicas c) (Proxy.users c) d))
  else None.
(** [prior] is the number of queries that the analytics database remembers. *)
Definition app_state (c : Proxy.ProxyConfig) (server : ProxyServer (C := C)) (pg : option (PgProxyServer (C := C)))
    (opened : option Db) (prior : Z) (w : W) : AppState :=
  {| pools := r_pool (router server) :: match pg with Some s => [r_pool (pg_router s)] | None => [] end;
     pool := 0; serving := 0; pg_serving := match pg with Some _ => Some 1%nat | None => None end;
     rule_engine := r_rules (router server); rewriter := r_rewriter (router server);
     config_store := config_store_at_start c opened; proxy_config := c; last_reload_secs := 0; config_export_ts := 0;
     config_mutation_ts := 0;
     metrics := {| ConfigAdmin.connections_total := 0; ConfigAdmin.connections_active := 0;
                   queries_total := if Proxy.an_enabled (Proxy.analytics (Proxy.settings c)) then prior else 0;
                   queries_read := 0; queries_write := 0; sqli_blocked := 0; whitelist_blocked := 0; transactions_killed := 0 |};
     outbox := []; world := w |}.

(** One turn of the handler of SIGHUP: failures are logged, and the time is noted. *)
Context (my_io : BackendIO W C) (config_path : bytes).
Definition hangup : SE AppState Failure unit :=
  rules_from_file config_path ;; rewriter_from_file config_path ;; stamp_reload my_io.
End Main.

(** One turn of the regression check. *)
Definition regression_tick `{!MapOrder Z Collector.QueryStats} (now_ms : Z) (c : Collector.Collector) (s : Regression.RegressionStore)
  : Regression.RegressionStore :=
  match Collector.get_stats c with [] => s | stats => Regression.check now_ms stats s end.

(** ** Theorems *)

(** What TOML makes of the file of the wizard: a section [shared] with a primary, and no key
    before the first section. *)
Definition only_sections (raw : Proxy.RawProxyConfig) : Prop :=
  Proxy.raw_primary raw = None /\ Proxy.raw_listen_addr raw = None /\ Proxy.raw_replicas raw = [] /\
  exists sh, Proxy.shared raw = Some sh /\ is_Some (Proxy.sh_primary sh).

Section StartProps.
Context {W C : Type} `{RE : RegexEngine} `{TP : TomlParser}.

Lemma from_raw_top raw c : Proxy.from_raw raw = Some c ->
  Proxy.raw_primary raw = None -> Proxy.raw_listen_addr raw = None -> Proxy.raw_replicas raw = [] -> Proxy.mysql_enabled c = false.
Proof.
  unfold Proxy.from_raw. intros H H1 H2 H3. destruct (Proxy.or_else (Proxy.or_else _ _) _); [|done].
  injection H as <-. cbn. by rewrite H1, H2, H3.
Qed.
Lemma wizard_writes exists_ can_write args t path text t' : run_init_wizard exists_ can_write args t = (Ok (Some (path, text)), t') ->
  exists a t1, ask_all t1 = (Ok a, t') /\ text = render a /\ is_Some (Proxy.from_str toml_raw text).
Proof.
  unfold run_init_wizard. intros H. apply se_bind_inv in H as [(o & t1 & Ho & H)|(? & _ & ?)]; [|done].
  apply se_bind_inv in H as [(go & t2 & Hg & H)|(? & _ & ?)]; [|done]. destruct go; [|done].
  apply se_bind_inv in H as [(a & t3 & Ha & H)|(? & _ & ?)]; [|done].
  destruct (Proxy.from_str toml_raw (render a)) as [c|] eqn:E; [|done]. destruct (can_write (output o)); [|done].
  injection H as <- <- <-. exists a, t2. split_and!; [done..|]. rewrite E. by eexists.
Qed.
Lemma in_task_if b t t' : t' ∈ task_if b t <-> b = true /\ t' = t.
Proof. destruct b; cbn; rewrite ?list_elem_of_singleton; [tauto|]. split; [by intros ?%not_elem_of_nil | by intros []]. Qed.
Lemma mysql_task c o server pg tasks : main_start (C := C) c o = Ok (server, pg, tasks) ->
  (MysqlServer ∈ tasks <-> Proxy.mysql_enabled c = true).
Proof.
  unfold main_start. destruct (Rules.RuleEngine_new _) as [rules|]; [|done]. destruct (Rewriter.compile_rules _) as [rewriter|]; [|done].
  destruct (_ && negb _); [done|]. intros [= <- <- <-]. unfold pg_tasks.
  assert (MysqlServer ∉ pg_tasks (Proxy.resolved_pgsql c) (pg_server (C := C) c o rules rewriter)) as Hpg.
  { unfold pg_tasks. destruct (pg_server c o rules rewriter); [|apply not_elem_of_nil].
    rewrite elem_of_cons, in_task_if. by intros [?|[_ ?]]. }
  unfold pg_tasks in Hpg. repeat (rewrite ?elem_of_app, ?elem_of_cons, ?in_task_if). naive_solver.
Qed.

(** Whatever is answered, the file the wizard writes starts no MySQL listener: the switch of its
    [mysql] section does not exist.  The process that [main] starts from it cannot be asked to
    stop either. *)
Theorem wizard_starts_no_mysql exists_ can_write args t path text t' :
  (forall a raw, toml_raw (render a) = Some raw -> only_sections raw) ->
  run_init_wizard exists_ can_write args t = (Ok (Some (path, text)), t') ->
  exists c, Proxy.from_str toml_raw text = Some c /\
    forall o server pg tasks, main_start (C := C) c o = Ok (server, pg, tasks) ->
      (MysqlServer ∉ tasks) /\ forall timeout es, phase (run timeout (main_process c server pg) es) = Off.
Proof.
  intros Htoml H. apply wizard_writes in H as (a & _ & _ & -> & c & Hc). exists c. split; [done|].
  unfold Proxy.from_str in Hc. destruct (toml_raw (render a)) as [raw|] eqn:E; [|done].
  apply Htoml in E as (H1 & H2 & H3 & _). pose proof (from_raw_top raw c Hc H1 H2 H3) as Hm.
  intros o server pg tasks Hs. split.
  - rewrite (mysql_task _ _ _ _ _ Hs), Hm. done.
  - intros timeout es. apply off_stays. unfold main_process, process_start. by rewrite Hm.
Qed.

(** Both servers are there when they are asked for: the one for PostgreSQL inherits the primary
    of the file, so that it never lacks one. *)
Theorem listeners_as_configured c o server pg tasks : main_start (C := C) c o = Ok (server, pg, tasks) ->
  (MysqlServer ∈ tasks <-> Proxy.mysql_enabled c = true) /\ (is_Some pg <-> Proxy.pg_enabled (Proxy.pgsql c) = true).
Proof.
  intros H. split; [by eapply mysql_task|]. unfold main_start in H. destruct (Rules.RuleEngine_new _) as [rules|]; [|done].
  destruct (Rewriter.compile_rules _) as [rewriter|]; [|done]. destruct (_ && negb _); [done|]. injection H as _ <- _.
  unfold pg_server, pg_proxy_server_new. cbn. destruct (Proxy.pg_enabled _); [|split; [by intros [? [=]] | done]].
  destruct (Proxy.pg_primary _); cbn; by split; eauto.
Qed.
End StartProps.

Section DashboardStart.
Context {W C : Type} `{RE : RegexEngine} `{ENV : Environment} `{SC : SecretCodec} `{SQ : Sqlite} `{TP : TomlParser}.

(** On a store without rules the proxy starts in step with it, if its rules have columns for all
    that they say: from there every change that succeeds keeps it in step. *)
Theorem fresh_start_in_step c o server pg tasks d d' prior (w : W) :
  main_start (C := C) c o = Ok (server, pg, tasks) ->
  seed_if_empty (Proxy.query_rules (Proxy.settings c)) (Proxy.rewrite_rules (Proxy.settings c)) (Proxy.primary c)
    (Proxy.replicas c) (Proxy.users c) d = (Ok tt, d') ->
  rows (rules (store d)) = [] -> Forall rule_fits (Proxy.query_rules (Proxy.settings c)) ->
  map stored_view (Proxy.query_rules (Proxy.settings c)) = Proxy.query_rules (Proxy.settings c) ->
  rules_in_step (app_state c server pg (Some d) prior w).
Proof.
  intros Hm Hs He Hfit Hv d1 Hd1. cbn in Hd1. unfold config_store_at_start in Hd1.
  destruct (Proxy.an_enabled _); [|done]. cbn in Hd1. rewrite Hs in Hd1. injection Hd1 as <-.
  apply seeded_rules in Hs as (d2 & E & H1 & _). destruct (H1 He) as (d0 & E0 & Hi). rewrite <- E0 in He.
  unfold stored_rules. rewrite E, (seeded_rows _ _ _ Hi He Hfit), Hv.
  unfold main_start, Rules.RuleEngine_new in Hm. cbn [rule_engine app_state].
  destruct (Rules.compile_rules _) as [rs|]; [|done]. destruct (Rewriter.compile_rules _); [|done]. destruct (_ && _); [done|].
  injection Hm as <- _ _. done.
Qed.

Lemma rules_from_file_world path (s : AppState (W := W) (C := C)) :
  exists r s1, rules_from_file path s = (Ok r, s1) /\ world s1 = world s.
Proof.
  unfold rules_from_file, reload_rule_engine. destruct (Proxy.from_file toml_raw path) as [c|]; [|by eauto].
  destruct (Rules.reload_from_slice _ _) as [[u|i] inner]; by eexists _, _.
Qed.
Lemma rewriter_from_file_world path (s : AppState (W := W) (C := C)) :
  exists r s1, rewriter_from_file path s = (Ok r, s1) /\ world s1 = world s.
Proof.
  unfold rewriter_from_file, reload_rewriter. destruct (Proxy.from_file toml_raw path) as [c|]; [|by eauto].
  destruct (Rewriter.reload_from_slice _ _) as [[u|i] inner]; by eexists _, _.
Qed.
(** SIGHUP notes the time of a successful reload, also when the file could not be read or has a
    bad rule and nothing was reloaded. *)
Theorem hangup_always_stamps (my_io : BackendIO W C) path (s : AppState (W := W) (C := C)) :
  exists s', hangup my_io path s = (Ok tt, s') /\ last_reload_secs s' = clock_secs my_io (world s).
Proof.
  destruct (rules_from_file_world path s) as (r1 & s1 & H1 & <-). destruct (rewriter_from_file_world path s1) as (r2 & s2 & H2 & <-).
  unfold hangup. rewrite (se_bind_ok _ _ _ _ _ H1), (se_bind_ok _ _ _ _ _ H2). by eexists.
Qed.
End DashboardStart.

(** ** Examples *)

(** At the end of the input every question has its default. *)
Definition default_answers : Answers := {|
  backend_type := MySQL; primary_addr := bs "127.0.0.1:3306"; db_user := bs "root"; db_password := []; db_name := bs "myapp";
  want_mysql := true; mysql_listen := Some (bs "0.0.0.0:3307"); want_pg := false; pg_listen := None; dashboard_enabled := true;
  dashboard_addr := bs "0.0.0.0:8080"; dashboard_user := []; dashboard_password := []; analytics_enabled := true; slow_ms := 100;
  max_conns := 1000; size_of_pool := 20; want_ha := true |}.
Example nothing_answered : ask_all [] = (Ok default_answers, []).
Proof. reflexivity. Qed.
(** Authentication that is asked for, with the password left at its default: the dashboard takes
    an empty password for none, and lets everyone in. *)
Example asked_auth_is_open :
  match ask_all [None; None] with (Err BadTerminal, [None]) => True | _ => False end /\
  match ask_all (map (fun s => Some (bs s)) ["mysql"; ""; ""; ""; ""; "n"; "y"; ""; "y"; ""; "yes"]%string) with
  | (Ok a, []) => dashboard_user a = bs "admin" /\ dashboard_password a = []
  | _ => False
  end.
Proof. by vm_compute. Qed.
Example bad_options :
  parse_init_options [bs "-o"] = Err (MissingValue (bs "-o")) /\ parse_init_options [bs "--forse"] = Err (UnknownOption (bs "--forse")) /\
  parse_init_options [bs "-f"; bs "--output"; bs "a.toml"] = Ok {| output := bs "a.toml"; force := true |}.
Proof. by vm_compute. Qed.

Section StartWitnesses.
#[local] Existing Instance toy_codec.
#[local] Existing Instance quiet_db.
#[local] Existing Instance substring_engine.
#[local] Existing Instance file_env.

Definition wizard_doc : Proxy.RawProxyConfig :=
  let r := demo_raw (Some (test_config "127.0.0.1:3306" 1 false None)) None in
  {| Proxy.shared := Proxy.shared r; Proxy.raw_listen_addr := None; Proxy.raw_max_connections := None; Proxy.raw_pool_size := None;
     Proxy.raw_primary := None; Proxy.raw_replicas := []; Proxy.raw_users := []; Proxy.raw_auth_cache_ttl_secs := None;
     Proxy.raw_connection_max_idle_secs := None; Proxy.raw_read_your_own_writes_ms := None; Proxy.raw_query_whitelist := [];
     Proxy.raw_sql_injection_protection := None; Proxy.raw_audit_log := None; Proxy.raw_settings := demo_settings;
     Proxy.raw_pgsql := demo_pgsql |}.
Definition wizard_toml : TomlParser := {| toml_raw _ := Some wizard_doc; toml_proxy _ := Err [] |}.
#[local] Existing Instance wizard_toml.
Lemma wizard_starts_no_mysql_witness :
  exists c, Proxy.from_str toml_raw (render default_answers) = Some c /\
    forall o server pg tasks, main_start (C := TestConn) c o = Ok (server, pg, tasks) ->
      (MysqlServer ∉ tasks) /\ forall timeout es, phase (run timeout (main_process c server pg) es) = Off.
Proof.
  apply (wizard_starts_no_mysql (fun _ => false) (fun _ => true) [] [] (bs "turbineproxy.toml") (render default_answers) []); [|done].
  intros a raw [= <-]. split_and!; [done..|]. eexists. split; [done|]. by eexists.
Defined.

Definition with_query_rules (rs : list QueryRuleConfig) (s : Proxy.Settings) : Proxy.Settings := {|
  Proxy.pool_wait_queue_size := Proxy.pool_wait_queue_size s; Proxy.pool_wait_timeout_ms := Proxy.pool_wait_timeout_ms s;
  Proxy.analytics := Proxy.analytics s; Proxy.dashboard := Proxy.dashboard s; Proxy.ha := Proxy.ha s;
  Proxy.frontend_tls := Proxy.frontend_tls s; Proxy.query_rules := rs; Proxy.group_replication := Proxy.group_replication s;
  Proxy.cluster := Proxy.cluster s; Proxy.rewrite_rules := Proxy.rewrite_rules s; Proxy.max_transaction_time_ms := Proxy.max_transaction_time_ms s;
  Proxy.max_query_time_ms := Proxy.max_query_time_ms s; Proxy.max_transaction_idle_ms := Proxy.max_transaction_idle_ms s;
  Proxy.select_version_forwarding := Proxy.select_version_forwarding s; Proxy.proxy_protocol := Proxy.proxy_protocol s;
  Proxy.shutdown_timeout_secs := Proxy.shutdown_timeout_secs s; Proxy.client_error_limit := Proxy.client_error_limit s;
  Proxy.client_error_window_secs := Proxy.client_error_window_secs s; Proxy.log_prepared_params := Proxy.log_prepared_params s;
  Proxy.session_track_mode := Proxy.session_track_mode s; Proxy.gtid_aware_ryow := Proxy.gtid_aware_ryow s;
  Proxy.fast_forward := Proxy.fast_forward s; Proxy.server_version := Proxy.server_version s |}.
Definition select_rule : QueryRuleConfig := stored_view (demo_rule_config "^SELECT" RReplica false).
Definition started_config : Proxy.ProxyConfig := {|
  Proxy.mysql_enabled := true; Proxy.listen_addr := bs "0.0.0.0:3307"; Proxy.max_connections := 10; Proxy.pool_size := 4;
  Proxy.primary := test_config "p:3306" 1 false None; Proxy.replicas := []; Proxy.users := []; Proxy.auth_cache_ttl_secs := 60;
  Proxy.connection_max_idle_secs := 55; Proxy.read_your_own_writes_ms := 0; Proxy.query_whitelist := [];
  Proxy.sql_injection_protection := false; Proxy.audit_log := []; Proxy.settings := with_query_rules [select_rule] demo_settings; Proxy.pgsql := demo_pgsql |}.
Definition all_open : Opens := {| stats_db := true; series_db := true; frontend_acceptor := true; pg_acceptor := true; audit_file := None |}.
Definition started : result StartError (ProxyServer (C := TestConn) * option (PgProxyServer (C := TestConn)) * list Task) :=
  main_start started_config all_open.
Lemma listeners_as_configured_witness : exists server pg tasks, started = Ok (server, pg, tasks) /\
  (MysqlServer ∈ tasks <-> Proxy.mysql_enabled started_config = true) /\ (is_Some pg <-> Proxy.pg_enabled (Proxy.pgsql started_config) = true).
Proof.
  destruct started as [[[server pg] tasks]|e] eqn:E; [|by vm_compute in E]. exists server, pg, tasks. split; [done|].
  exact (listeners_as_configured started_config all_open server pg tasks E).
Defined.
Definition seeded_at_start (d : Db) : result DbError unit * Db :=
  seed_if_empty [select_rule] (Proxy.rewrite_rules demo_settings) (Proxy.primary started_config)
    (Proxy.replicas started_config) (Proxy.users started_config) d.
Lemma fresh_start_in_step_witness : exists server pg tasks, started = Ok (server, pg, tasks) /\
  rules_in_step (app_state started_config server pg (Some db_new) 0 tt).
Proof.
  destruct started as [[[server pg] tasks]|e] eqn:E; [|by vm_compute in E]. exists server, pg, tasks. split; [done|].
  apply (fresh_start_in_step started_config all_open server pg tasks db_new (snd (seeded_at_start db_new)) 0 tt E); [by vm_compute | done | | done].
  apply List.Forall_cons; [|apply List.Forall_nil]. unfold rule_fits, in_width. cbn. split_and!; try lia; intros v [= <-]; lia.
Defined.
(** After a restart the proxy runs the rules of the file, while the store has those that were set
    by hand: they are back only with the next change. *)
Example restart_forgets_store :
  match started with
  | Ok (server, pg, tasks) =>
      let other := snd (seed_if_empty [demo_rule_config "^DELETE" RPrimary false] [] (test_config "p:3306" 1 false None) [] [] db_new) in
      let s := app_state started_config server pg (Some other) 0 tt in
      (match config_store s with Some d => map match_pattern (stored_rules (store d)) | None => [] end) = [Some (bs "^DELETE")] /\
      Rules.compile_rules [select_rule] = Ok (rule_engine s)
  | _ => False
  end.
Proof. by vm_compute. Qed.
End StartWitnesses.
