(* ===== verification/Metrics.v ===== *)
(** * The metrics page (src/src/dashboard/prometheus.rs)

    The text that Prometheus scrapes, as the families of samples it consists of and their
    printing; and the percentiles that the MCP server reads from the same histograms
    (src/src/dashboard/mcp.rs). *)

From Stdlib Require Import SpecFloat.
From S2P Require Import Prelude Bytes Config CircuitBreaker Pool Analytics FloatText.

(** ** The counters *)

(** [ProxyMetrics], as much of it as is shown anywhere. *)
Record Counters := {
  connections_total : Z; connections_active : Z; queries_total : Z; queries_read : Z; queries_write : Z;
  read_hist : Histogram.QueryHistogram; write_hist : Histogram.QueryHistogram; transactions_killed : Z;
  sqli_blocked : Z; whitelist_blocked : Z; sessions_pinned_total : Z; dashboard_auth_failures : Z
}.
Definition counters_new : Counters :=
  {| connections_total := 0; connections_active := 0; queries_total := 0; queries_read := 0; queries_write := 0;
     read_hist := Histogram.new; write_hist := Histogram.new; transactions_killed := 0; sqli_blocked := 0; whitelist_blocked := 0;
     sessions_pinned_total := 0; dashboard_auth_failures := 0 |}.

(** ** Samples and families *)

Record Sample := { s_name : bytes; s_labels : list (bytes * bytes); s_value : bytes }.
Record Family := { f_name : bytes; f_kind : bytes; f_help : bytes; f_samples : list Sample }.

Definition nl : bytes := [10].
Definition label_text (l : bytes * bytes) : bytes := fst l ++ bs "=" ++ [dquote] ++ snd l ++ [dquote].
Fixpoint join_labels (ls : list (bytes * bytes)) : bytes :=
  match ls with [] => [] | [l] => label_text l | l :: ls => label_text l ++ bs "," ++ join_labels ls end.
Definition labels_text (ls : list (bytes * bytes)) : bytes :=
  match ls with [] => [] | _ => bs "{" ++ join_labels ls ++ bs "}" end.
Definition sample_text (s : Sample) : bytes := s_name s ++ labels_text (s_labels s) ++ bs " " ++ s_value s ++ nl.
Definition family_text (f : Family) : bytes :=
  bs "# HELP " ++ f_name f ++ bs " " ++ f_help f ++ nl ++ bs "# TYPE " ++ f_name f ++ bs " " ++ f_kind f ++ nl
  ++ concat (map sample_text (f_samples f)).
(** An empty line before every family but the first. *)
Definition exposition (fs : list Family) : bytes :=
  match fs with [] => [] | f :: fs => family_text f ++ concat (map (fun g => nl ++ family_text g) fs) end.

Definition family (name kind help : string) (samples : list (list (bytes * bytes) * bytes)) : Family :=
  let n := bs "turbineproxy_" ++ bs name in
  {| f_name := n; f_kind := bs kind; f_help := bs help;
     f_samples := map (fun s => {| s_name := n; s_labels := fst s; s_value := snd s |}) samples |}.
Definition single (name kind help : string) (value : bytes) : Family := family name kind help [([], value)].
Definition number (b : bool) : bytes := bs (if b then "1" else "0").

(** Without the decimal point when the bound is whole. *)
Definition is_whole (x : f64) : bool := match x with S754_finite _ m e => (0 <=? e) || (Z.pos m mod 2 ^ (- e) =? 0) | S754_zero _ => true | _ => false end.
Definition format_bound (v : f64) : bytes := if is_whole v then show_u64 (f_to_u64 v) else show_f64 v.

Definition histogram_samples (intent : string) (h : Histogram.QueryHistogram) : list Sample :=
  let '(counts, sum, count) := Histogram.snapshot h in
  let n := bs "turbineproxy_query_duration_seconds" in
  let i := (bs "intent", bs intent) in
  imap (fun k bound => {| s_name := n ++ bs "_bucket"; s_labels := [i; (bs "le", format_bound bound)]; s_value := show_u64 (nth k counts 0) |})
    Histogram.BUCKET_BOUNDS
  ++ [{| s_name := n ++ bs "_bucket"; s_labels := [i; (bs "le", bs "+Inf")]; s_value := show_u64 (nth 11 counts 0) |};
      {| s_name := n ++ bs "_sum"; s_labels := [i]; s_value := show_fixed 6 sum |};
      {| s_name := n ++ bs "_count"; s_labels := [i]; s_value := show_u64 count |}].

Definition of_backend (b : BackendStat) : list (bytes * bytes) := [(bs "backend", bst_addr b); (bs "role", bst_role b)].
Definition snap_idle (b : BackendStat) : Z := let '(i, _, _, _, _) := bst_snapshot b in Z.of_nat i.
Definition snap_in_use (b : BackendStat) : Z := let '(_, u, _, _, _) := bst_snapshot b in u.
Definition snap_created (b : BackendStat) : Z := let '(_, _, c, _, _) := bst_snapshot b in c.
Definition snap_evicted (b : BackendStat) : Z := let '(_, _, _, _, e) := bst_snapshot b in e.
Definition pool_connections (b : BackendStat) : list (list (bytes * bytes) * bytes) :=
  [(of_backend b ++ [(bs "state", bs "idle")], show_u64 (snap_idle b)); (of_backend b ++ [(bs "state", bs "in_use")], show_u64 (snap_in_use b))].
Definition lag_samples (bs_ : list BackendStat) : list (list (bytes * bytes) * bytes) :=
  map (fun b => ([(bs "backend", bst_addr b)], show_fixed 3 (f_div (f_of_int (bst_lag_ms b)) (f_of_int 1000))))
    (List.filter (fun b => beq (bst_role b) (bs "replica")) bs_).
Definition healthy_samples (bs_ : list BackendStat) : list (list (bytes * bytes) * bytes) :=
  map (fun b => (of_backend b, number (bst_healthy b))) bs_.
Definition breaker_samples {C} (p : BackendPool C) : list (list (bytes * bytes) * bytes) :=
  ([(bs "backend", bs "primary")], show_u64 (as_u8 (state (primary_breaker p))))
  :: imap (fun i cb => ([(bs "backend", bs "replica_" ++ show_u64 (Z.of_nat i))], show_u64 (as_u8 (state cb)))) (replica_breakers p).
Definition sum_pools {C} (f : Pool.Counters -> Z) (p : BackendPool C) : Z :=
  foldl (fun acc r => usize (acc + f (counters r))) (f (counters (primary p))) (replicas p).

Definition multiplex_ratio (active backend_in_use : Z) : f64 :=
  if backend_in_use =? 0 then if active =? 0 then f_of_int 1 else f_of_int active
  else f_div (f_of_int active) (f_of_int backend_in_use).
Definition in_use_total (s : PoolStats) : Z :=
  let '(_, u, _, _, _) := ps_primary s in let '(_, v, _, _, _) := ps_replicas s in usize (u + v).

(** The part on PostgreSQL; [discovered] is the number of standbys its monitor last saw. *)
Definition pg_families {C} (pg : BackendPool C) (discovered : Z) : list Family :=
  let stats := backend_stats pg in
  let ps := pool_stats pg in
  [family "pg_replica_lag_seconds" "gauge" "Replication lag in seconds for each PostgreSQL replica (from pg_last_xact_replay_timestamp)." (lag_samples stats);
   family "pg_backend_healthy" "gauge" "1 if the PostgreSQL backend passed its last health check, 0 otherwise." (healthy_samples stats);
   single "pg_ha_failover_active" "gauge" "1 when a PostgreSQL HA failover replica is serving as primary, 0 otherwise." (number (ps_failover_active ps));
   single "pg_ha_failover_events_total" "counter" "Total PostgreSQL HA failover events since process start." (show_u64 (ps_failover_events_total ps));
   family "pg_circuit_breaker_state" "gauge" "PostgreSQL circuit breaker state per backend (0=closed, 1=half-open, 2=open)." (breaker_samples pg);
   single "pg_discovered_replicas" "gauge" "Number of streaming standbys discovered via pg_stat_replication on the primary." (show_u64 discovered)].

Definition families {C D} (version : bytes) (m : Counters) (pool : BackendPool C) (pg_pool : option (BackendPool D * Z)) : list Family :=
  let queries_other := sat_sub (queries_total m) (usize (queries_read m + queries_write m)) in
  let backends := backend_stats pool in
  let ps := pool_stats pool in
  [family "build_info" "gauge" "Static build information." [([(bs "version", version)], bs "1")];
   single "connections_total" "counter" "Total TCP client connections accepted since start." (show_u64 (connections_total m));
   single "connections_active" "gauge" "Number of currently open client connections." (show_u64 (connections_active m));
   family "queries_total" "counter" "Total queries processed, partitioned by intent."
     [([(bs "intent", bs "read")], bs " " ++ show_u64 (queries_read m)); ([(bs "intent", bs "write")], show_u64 (queries_write m));
      ([(bs "intent", bs "other")], show_u64 queries_other)];
   {| f_name := bs "turbineproxy_query_duration_seconds"; f_kind := bs "histogram"; f_help := bs "End-to-end query execution time in seconds.";
      f_samples := histogram_samples "read" (read_hist m) ++ histogram_samples "write" (write_hist m) |};
   family "pool_connections" "gauge" "Backend connection pool size by state." (concat (map pool_connections backends));
   family "pool_connections_created_total" "counter" "Total backend connections ever opened." (map (fun b => (of_backend b, show_u64 (snap_created b))) backends);
   family "pool_connections_evicted_total" "counter" "Idle connections discarded (exceeded max_idle)." (map (fun b => (of_backend b, show_u64 (snap_evicted b))) backends);
   family "replica_lag_seconds" "gauge" "Measured replication lag in seconds (replicas only)." (lag_samples backends);
   family "backend_healthy" "gauge" "1 if the backend passed its last health check, 0 otherwise." (healthy_samples backends);
   single "sqli_blocked_total" "counter" "Total queries blocked by the SQL injection protection filter." (show_u64 (sqli_blocked m));
   single "ha_failover_active" "gauge" "1 when an HA failover replica is currently serving as primary, 0 otherwise." (number (ps_failover_active ps));
   single "ha_failover_events_total" "counter" "Total number of HA failovers triggered since process start." (show_u64 (ps_failover_events_total ps));
   single "ha_failover_flap_total" "counter" "Total failover flap events (re-triggered within cooldown window)." (show_u64 (ps_failover_flap_total ps));
   family "circuit_breaker_state" "gauge" "Circuit breaker state per backend (0=closed, 1=half-open, 2=open)." (breaker_samples pool);
   single "pool_wait_queue_length" "gauge" "Current number of requests waiting for a pool slot." (show_u64 (sum_pools wait_queue_length pool));
   single "pool_wait_timeouts_total" "counter" "Total requests that timed out waiting in the pool queue." (show_u64 (sum_pools wait_timeouts_total pool));
   single "session_pinned_total" "counter" "Sessions that became sticky (user-defined variable or LOCK TABLES). Pinned sessions cannot multiplex backend connections." (show_u64 (sessions_pinned_total m));
   single "multiplex_ratio" "gauge" "Ratio of active client connections to backend connections in use. Values > 1 indicate effective multiplexing." (show_fixed 4 (multiplex_ratio (connections_active m) (in_use_total ps)));
   single "dashboard_auth_failures_total" "counter" "Total failed dashboard authentication attempts (invalid credentials or expired/missing tokens)." (show_u64 (dashboard_auth_failures m))]
  ++ match pg_pool with Some (pg, discovered) => pg_families pg discovered | None => [] end.
Definition render {C D} (version : bytes) (m : Counters) (pool : BackendPool C) (pg_pool : option (BackendPool D * Z)) : bytes :=
  exposition (families version m pool pg_pool).

(** ** Percentiles *)

(** [x.ceil() as u64]. *)
Definition f_ceil_u64 (x : f64) : Z :=
  match x with
  | S754_finite false m e => Z.min (2 ^ 64 - 1) (if 0 <=? e then Z.shiftl (Z.pos m) e else - (- Z.pos m / 2 ^ (- e)))
  | S754_infinity false => 2 ^ 64 - 1
  | _ => 0
  end.
Definition percentile_target (count : Z) (pct : f64) : Z := f_ceil_u64 (f_mul (f_div pct (f_of_int 100)) (f_of_int count)).
Definition to_ms (bound : f64) : f64 := f_mul bound (f_of_int 1000).
Definition approx_percentile_ms (counts : list Z) (count : Z) (pct : f64) : option f64 :=
  if count =? 0 then None
  else
    let target := percentile_target count pct in
    let i := default 10%nat (find_index_from (fun c => target <=? c) 0 (take 11 counts)) in
    to_ms <$> Histogram.BUCKET_BOUNDS !! i.

(** ** A percentile is the bound of a bucket *)

Lemma nth_counts xs i : Z.of_nat (length xs) < 2 ^ 64 -> (i < 12)%nat ->
  Histogram.counts (HistogramProps.record_all xs) !! i = Some (HistogramProps.observed (HistogramProps.in_bucket i) xs).
Proof. intros Hl Hi. by apply HistogramProps.record_all_counts. Qed.
(** Of the durations recorded, at least the asked share is at most the bound that is shown, and
    less than it at most any smaller one; unless it is the last bound, which is shown for
    whatever lies above it too.  Without durations nothing is shown. *)
Theorem percentile_is_bound xs pct : Z.of_nat (length xs) < 2 ^ 64 ->
  let '(counts, _, count) := Histogram.snapshot (HistogramProps.record_all xs) in
  match approx_percentile_ms counts count pct with
  | None => xs = []
  | Some ms => exists i b, Histogram.BUCKET_BOUNDS !! i = Some b /\ ms = to_ms b /\
      (percentile_target count pct <= HistogramProps.observed (HistogramProps.in_bucket i) xs \/ i = 10%nat) /\
      forall j, (j < i)%nat -> HistogramProps.observed (HistogramProps.in_bucket j) xs < percentile_target count pct
  end.
Proof.
  intros Hl. destruct (HistogramProps.record_all_counts xs Hl) as (H1 & H2 & H3). unfold Histogram.snapshot, approx_percentile_ms.
  rewrite H2. destruct (Z.of_nat (length xs) =? 0) eqn:E; bool_to_prop.
  { destruct xs; [done|]. cbn [length] in E. lia. }
  set (t := percentile_target _ pct). set (cs := take 11 _).
  assert (forall j, (j < 11)%nat -> cs !! j = Some (HistogramProps.observed (HistogramProps.in_bucket j) xs)) as Hc.
  { intros j Hj. unfold cs. rewrite lookup_take_lt by done. apply nth_counts; [done | lia]. }
  destruct (find_index_from (fun c => t <=? c) 0 cs) as [i|] eqn:Ef; cbn [default from_option id].
  - apply find_index_from_spec in Ef as (_ & x & Hx & Ht & Hb). rewrite Nat.sub_0_r in Hx, Hb.
    assert (i < 11)%nat as Hi by (apply lookup_lt_Some in Hx; unfold cs in Hx; rewrite length_take in Hx; lia).
    assert (is_Some (Histogram.BUCKET_BOUNDS !! i)) as [b Hbd] by (apply lookup_lt_is_Some; cbn; lia).
    rewrite Hbd. exists i, b. rewrite (Hc i Hi) in Hx. injection Hx as <-. bool_to_prop. split_and!; [done..|by left|].
    intros j Hj. specialize (Hb j _ Hj (Hc j ltac:(lia))). bool_to_prop. lia.
  - eexists 10%nat, _. split_and!; [reflexivity | done | by right|]. intros j Hj.
    rewrite find_index_from_none in Ef. specialize (Ef _ (list_elem_of_lookup_2 _ _ _ (Hc j ltac:(lia)))). bool_to_prop. lia.
Qed.

(** ** Every series is written once *)

Definition series (s : Sample) : bytes * list (bytes * bytes) := (s_name s, s_labels s).
Definition series_of (f : Family) : list (bytes * list (bytes * bytes)) := map series (f_samples f).
(** The names that the samples of a family may have. *)
Definition names (f : Family) : list bytes :=
  if beq (f_kind f) (bs "histogram") then [f_name f ++ bs "_bucket"; f_name f ++ bs "_sum"; f_name f ++ bs "_count"] else [f_name f].
Definition family_ok (f : Family) : Prop := NoDup (series_of f) /\ Forall (fun k => fst k ∈ names f) (series_of f).

Lemma families_distinct fs : Forall family_ok fs -> NoDup (concat (map names fs)) -> NoDup (concat (map series_of fs)).
Proof.
  induction 1 as [|f fs [H1 H2] Hfs IH]; intros Hn; cbn [map concat] in *; [constructor|].
  apply list.NoDup_app in Hn as (_ & Hd & Hn). apply list.NoDup_app. split_and!; [done| |by apply IH].
  intros k Hk Hin. rewrite list.Forall_forall in H2. apply (Hd (fst k) (H2 k Hk)). clear -Hfs Hin.
  induction Hfs as [|g gs [_ Hg] _ IH]; cbn [map concat] in *; [by apply not_elem_of_nil in Hin|].
  apply elem_of_app in Hin as [Hin|Hin]; apply elem_of_app; [left | right; by apply IH].
  rewrite list.Forall_forall in Hg. by apply Hg.
Qed.
Lemma NoDup_map_inj {A B} (f : A -> B) l : (forall x y, f x = f y -> x = y) -> NoDup l -> NoDup (map f l).
Proof. intros Hf. apply (@NoDup_fmap_2 A B f). exact Hf. Qed.
Lemma family_series name kind help samples :
  series_of (family name kind help samples) = map (pair (bs "turbineproxy_" ++ bs name)) (map fst samples).
Proof. unfold series_of, family. cbn [f_samples]. by rewrite !map_map. Qed.
Lemma family_keys name kind help samples : beq (bs kind) (bs "histogram") = false -> NoDup (map fst samples) ->
  family_ok (family name kind help samples).
Proof.
  intros Hk Hn. unfold family_ok. rewrite family_series. split.
  - apply (NoDup_map_inj (pair (bs "turbineproxy_" ++ bs name))); [by intros ? ? [=] | done].
  - apply list.Forall_forall. intros k Hin. apply list_elem_of_In, in_map_iff in Hin as (x & <- & _).
    unfold names, family. cbn [f_kind f_name fst]. rewrite Hk. by left.
Qed.
Lemma single_ok name kind help value : beq (bs kind) (bs "histogram") = false -> family_ok (single name kind help value).
Proof. intros Hk. apply family_keys; [done|]. apply NoDup_singleton. Qed.

Lemma imap_ignore {A B} (h : A -> B) l : imap (fun _ => h) l = map h l.
Proof. induction l as [|x l IH]; [done|]. cbn. f_equal. apply IH. Qed.
Definition replica_addrs {C} (p : BackendPool C) : list bytes := map (fun r => addr (config r)) (replicas p).
Definition backend_labels (role : string) (a : bytes) : list (bytes * bytes) := [(bs "backend", a); (bs "role", bs role)].
Lemma backends_labelled {C} (p : BackendPool C) :
  map of_backend (backend_stats p) = backend_labels "primary" (addr (config (primary p))) :: map (backend_labels "replica") (replica_addrs p).
Proof.
  unfold backend_stats, replica_addrs. cbn [map]. f_equal. rewrite map_map.
  change (map of_backend (imap ?f ?l)) with (of_backend <$> imap f l). rewrite fmap_imap.
  transitivity (imap (fun _ (r : ConnectionPool C) => backend_labels "replica" (addr (config r))) (replicas p)); [by apply imap_ext | apply imap_ignore].
Qed.
Lemma backends_distinct {C} (p : BackendPool C) : NoDup (replica_addrs p) -> NoDup (map of_backend (backend_stats p)).
Proof.
  intros Hn. rewrite backends_labelled. constructor.
  - intros Hin. by apply list_elem_of_In, in_map_iff in Hin as (x & [=] & _).
  - apply (NoDup_map_inj (backend_labels "replica")); [by intros ? ? [=] | done].
Qed.
Lemma lag_distinct {C} (p : BackendPool C) : NoDup (replica_addrs p) -> NoDup (map fst (lag_samples (backend_stats p))).
Proof.
  intros Hn. unfold lag_samples. rewrite map_map. cbn [fst].
  assert (map (fun b => [(bs "backend", bst_addr b)]) (List.filter (fun b => beq (bst_role b) (bs "replica")) (backend_stats p))
          = map (fun a => [(bs "backend", a)]) (replica_addrs p)) as ->.
  { unfold backend_stats, replica_addrs. rewrite map_map.
    match goal with |- context[List.filter ?q (?x :: ?l)] => change (List.filter q (x :: l)) with (List.filter q l) end.
    assert (forall (l : list (ConnectionPool C)) (g : nat -> ConnectionPool C -> BackendStat),
      (forall i r, bst_role (g i r) = bs "replica" /\ bst_addr (g i r) = addr (config r)) ->
      map (fun b => [(bs "backend", bst_addr b)]) (List.filter (fun b => beq (bst_role b) (bs "replica")) (imap g l))
      = map (fun r => [(bs "backend", addr (config r))]) l) as H; [|by apply H].
    induction l as [|r l IH]; intros g Hg; [done|]. cbn [imap List.filter]. destruct (Hg 0%nat r) as [H1 H2].
    rewrite H1, beq_refl. cbn [map]. rewrite H2. f_equal. apply (IH (g ∘ S)). intros i x. apply Hg. }
  apply (NoDup_map_inj (fun a => [(bs "backend", a)])); [by intros ? ? [=] | done].
Qed.
Lemma show_u64_inj a b : 0 <= a < 2 ^ 64 -> 0 <= b < 2 ^ 64 -> show_u64 a = show_u64 b -> a = b.
Proof. intros Ha Hb H. apply (f_equal (parse_uint 64)) in H. rewrite !parse_show_u64 in H by done. by injection H. Qed.
Definition breaker_number (l : list (bytes * bytes)) : bytes := match l with (_, v) :: _ => drop 8 v | [] => [] end.
Definition breaker_kind (l : list (bytes * bytes)) : option Z := match l with (_, v) :: _ => head v | [] => None end.
Lemma breakers_distinct {C} (p : BackendPool C) : Z.of_nat (length (replica_breakers p)) < 2 ^ 64 -> NoDup (map fst (breaker_samples p)).
Proof.
  intros Hl. unfold breaker_samples. cbn [map fst]. change (map fst (imap ?f ?l)) with (fst <$> imap f l). rewrite fmap_imap.
  assert (forall (l : list CircuitBreaker) k, Z.of_nat (k + length l) < 2 ^ 64 ->
    NoDup (imap (fun i (_ : CircuitBreaker) => [(bs "backend", bs "replica_" ++ show_u64 (Z.of_nat (k + i)))]) l)) as H.
  { induction l as [|c l IH]; intros k Hk; cbn [imap]; [constructor|]. cbn [length] in Hk. constructor.
    - intros (i & y & E & Hi)%elem_of_lookup_imap_1. apply lookup_lt_Some in Hi. apply (f_equal breaker_number) in E.
      change (show_u64 (Z.of_nat (k + 0)) = show_u64 (Z.of_nat (k + S i))) in E. apply show_u64_inj in E; lia.
    - specialize (IH (S k) ltac:(lia)). erewrite imap_ext; [exact IH|]. intros i x _. cbn [compose]. by rewrite Nat.add_succ_r. }
  constructor.
  - intros (i & y & E & _)%elem_of_lookup_imap_1. apply (f_equal breaker_kind) in E. change (Some 112 = Some 114) in E. done.
  - apply (H _ 0%nat). lia.
Qed.
Definition series_distinct_in {C} (p : BackendPool C) : Prop :=
  NoDup (replica_addrs p) /\ Z.of_nat (length (replica_breakers p)) < 2 ^ 64.

Definition states : list (list (bytes * bytes)) := [[(bs "state", bs "idle")]; [(bs "state", bs "in_use")]].
Lemma states_apart {A} (l : list (list A)) (x y : list A) : x <> y -> length x = length y -> NoDup l -> NoDup (concat (map (fun k => [k ++ x; k ++ y]) l)).
Proof.
  intros Hxy Hlen. induction 1 as [|k l Hk _ IH]; cbn [map concat]; [constructor|]. apply list.NoDup_app. split_and!; [| |done].
  - constructor; [|apply NoDup_singleton]. intros E%list_elem_of_singleton. by apply app_inv_head in E.
  - intros z Hz Hin. apply list_elem_of_In, in_concat in Hin as (zs & Hzs & Hin). apply in_map_iff in Hzs as (k' & <- & Hk').
    apply list_elem_of_In in Hk', Hin. assert (k = k') as ->; [|done].
    apply elem_of_cons in Hz as [->|[->|[]%elem_of_nil]%elem_of_cons]; apply elem_of_cons in Hin as [E|[E|[]%elem_of_nil]%elem_of_cons];
      apply app_inj_2 in E; (done || tauto).
Qed.
Lemma pool_connections_distinct {C} (p : BackendPool C) : NoDup (replica_addrs p) ->
  NoDup (map fst (concat (map pool_connections (backend_stats p)))).
Proof.
  intros Hn. pose proof (states_apart (map of_backend (backend_stats p)) [(bs "state", bs "idle")] [(bs "state", bs "in_use")]
    ltac:(done) eq_refl (backends_distinct p Hn)) as H.
  rewrite concat_map, map_map. rewrite map_map in H. exact H.
Qed.
Lemma histogram_ok help r w : family_ok
  {| f_name := bs "turbineproxy_query_duration_seconds"; f_kind := bs "histogram"; f_help := help;
     f_samples := histogram_samples "read" r ++ histogram_samples "write" w |}.
Proof.
  assert (forall i h, map series (histogram_samples i h) = map series (histogram_samples i Histogram.new)) as Hs by reflexivity.
  unfold family_ok, series_of. cbn [f_samples]. rewrite map_app, (Hs "read"%string r), (Hs "write"%string w).
  split; [apply (bool_decide_unpack _); by vm_compute|]. apply (bool_decide_unpack _). by vm_compute.
Qed.

Lemma pg_families_ok {C} (pg : BackendPool C) n : series_distinct_in pg -> Forall family_ok (pg_families pg n).
Proof.
  intros [Hn Hl]. unfold pg_families.
  repeat apply List.Forall_cons; try apply List.Forall_nil; first [apply single_ok; done | apply family_keys; [done|]].
  - by apply lag_distinct.
  - unfold healthy_samples. rewrite map_map. by apply backends_distinct.
  - by apply breakers_distinct.
Qed.
Lemma families_ok {C D} version m (pool : BackendPool C) (pg : option (BackendPool D * Z)) :
  series_distinct_in pool -> (forall p n, pg = Some (p, n) -> series_distinct_in p) -> Forall family_ok (families version m pool pg).
Proof.
  intros [Hn Hl] Hpg. unfold families. apply Forall_app. split.
  - repeat apply List.Forall_cons; try apply List.Forall_nil; first [apply single_ok; done | apply histogram_ok | apply family_keys; [done|]].
    + apply NoDup_singleton.
    + cbn [map fst]. apply (bool_decide_unpack _). by vm_compute.
    + by apply pool_connections_distinct.
    + rewrite map_map. by apply backends_distinct.
    + rewrite map_map. by apply backends_distinct.
    + by apply lag_distinct.
    + unfold healthy_samples. rewrite map_map. by apply backends_distinct.
    + by apply breakers_distinct.
  - destruct pg as [[p n]|]; [|constructor]. apply pg_families_ok. by apply (Hpg p n).
Qed.

(** If no two replicas have one address, no two samples of a page have the same name and the same
    labels: Prometheus refuses a page that has. *)
Theorem series_written_once {C D} version m (pool : BackendPool C) (pg : option (BackendPool D * Z)) :
  series_distinct_in pool -> (forall p n, pg = Some (p, n) -> series_distinct_in p) ->
  NoDup (concat (map series_of (families version m pool pg))).
Proof.
  intros H1 H2. apply families_distinct; [by apply families_ok|].
  destruct pg as [[p n]|].
  - assert (forall l, concat (map names (families version m pool (Some (p, n)))) = l -> bool_decide (NoDup l) = true ->
      NoDup (concat (map names (families version m pool (Some (p, n)))))) as H by (intros l -> Hb; exact (bool_decide_unpack _ (Is_true_true_2 _ Hb))).
    eapply H; [lazy; reflexivity | by vm_compute].
  - assert (forall l, concat (map names (families version m pool (@None (BackendPool D * Z)))) = l -> bool_decide (NoDup l) = true ->
      NoDup (concat (map names (families version m pool (@None (BackendPool D * Z)))))) as H by (intros l -> Hb; exact (bool_decide_unpack _ (Is_true_true_2 _ Hb))).
    eapply H; [lazy; reflexivity | by vm_compute].
Qed.

(** ** Examples *)

Definition small_pool : BackendPool unit :=
  with_options (test_config "p:3306" 1 false None) [test_config "r:3306" 1 false None] 4 None 5 10000 0 5000.
Definition twin_pool : BackendPool unit :=
  with_options (test_config "p:3306" 1 false None) [test_config "r:3306" 1 false None; test_config "r:3306" 2 false None] 4 None 5 10000 0 5000.
Definition page_lines (m : Counters) : list bytes := split_on 10 (render (bs "0.5.1") m small_pool (@None (BackendPool unit * Z))).
Example first_lines : take 4 (page_lines counters_new) =
  [bs "# HELP turbineproxy_build_info Static build information."; bs "# TYPE turbineproxy_build_info gauge";
   bs "turbineproxy_build_info{version=" ++ [dquote] ++ bs "0.5.1" ++ [dquote] ++ bs "} 1"; []].
Proof. by vm_compute. Qed.
Example bounds_shown : map format_bound Histogram.BUCKET_BOUNDS =
  map bs ["0.001"; "0.005"; "0.01"; "0.025"; "0.05"; "0.1"; "0.25"; "0.5"; "1"; "2.5"; "5"]%string.
Proof. by vm_compute. Qed.
(** Two replicas at one address, which the configuration allows: the page has series twice. *)
Example twin_replicas_repeat :
  bool_decide (NoDup (concat (map series_of (families (bs "0.5.1") counters_new twin_pool (@None (BackendPool unit * Z)))))) = false.
Proof. by vm_compute. Qed.
(** The queries of earlier runs, which start-up restores into the total alone, are shown as
    neither read nor written. *)
Definition restored : Counters :=
  {| connections_total := 0; connections_active := 0; queries_total := 5000; queries_read := 0; queries_write := 0;
     read_hist := Histogram.new; write_hist := Histogram.new; transactions_killed := 0; sqli_blocked := 0; whitelist_blocked := 0;
     sessions_pinned_total := 0; dashboard_auth_failures := 0 |}.
Example restored_are_other :
  mem (bs "turbineproxy_queries_total{intent=" ++ [dquote] ++ bs "other" ++ [dquote] ++ bs "} 5000") (page_lines restored) = true.
Proof. by vm_compute. Qed.
(** Durations of seven seconds are shown with a median of five. *)
Example slow_median :
  let '(counts, _, count) := Histogram.snapshot (HistogramProps.record_all (map as_secs_f64 [7 * 10 ^ 9; 8 * 10 ^ 9])) in
  show_f64 <$> approx_percentile_ms counts count (f_of_int 50) = Some (bs "5000").
Proof. by vm_compute. Qed.

Lemma percentile_is_bound_witness :
  let '(counts, _, count) := Histogram.snapshot (HistogramProps.record_all [f_lit 1 1000; f_lit 2 10]) in
  match approx_percentile_ms counts count (f_of_int 50) with
  | None => [f_lit 1 1000; f_lit 2 10] = []
  | Some ms => exists i b, Histogram.BUCKET_BOUNDS !! i = Some b /\ ms = to_ms b /\
      (percentile_target count (f_of_int 50) <= HistogramProps.observed (HistogramProps.in_bucket i) [f_lit 1 1000; f_lit 2 10] \/ i = 10%nat) /\
      forall j, (j < i)%nat -> HistogramProps.observed (HistogramProps.in_bucket j) [f_lit 1 1000; f_lit 2 10] < percentile_target count (f_of_int 50)
  end.
Proof. apply (percentile_is_bound [f_lit 1 1000; f_lit 2 10] (f_of_int 50)). done. Defined.
Lemma series_written_once_witness :
  NoDup (concat (map series_of (families (bs "0.5.1") restored small_pool (Some (small_pool, 0))))).
Proof.
  assert (series_distinct_in small_pool) as H by (split; [apply (bool_decide_unpack _); by vm_compute | done]).
  apply (series_written_once (bs "0.5.1") restored small_pool (Some (small_pool, 0)) H). by intros p n [= <- _].
Defined.
