(* ===== verification/DashboardViews.v ===== *)
(** * The pages of the dashboard that show the state (src/src/dashboard/routes.rs,
    src/src/dashboard/routes_errors.rs)

    Each handler as the value it sends, before it is written as JSON.  The state is the part
    of [AppState] that pages read: the pool the dashboard keeps, the one the PostgreSQL router
    uses, and the stores of statistics.  A database that cannot be read counts as none. *)

From Stdlib Require Import SpecFloat Sorting.Sorted.
From stdpp Require Import sorting.
From S2P Require Import Prelude Bytes Config CircuitBreaker Pool Rules Rewriter QueryStats Tracer UserRegistry Analytics Alerts ConfigAdmin FloatText Metrics.

#[local] Existing Instance Timeseries.resolution_eq.
#[local] Existing Instance Timeseries.resolution_countable.

Section Views.
Context {C : Type} `{RE : RegexEngine} `{CT : CaseTable}.

Record ViewState := {
  v_metrics : Metrics.Counters; v_queries_killed : Z; v_last_reload_secs : Z; v_draining : bool;
  v_collector : Collector.Collector; v_storage : option Storage.StatsTable; v_timeseries : option Timeseries.Table;
  v_regressions : Regression.RegressionStore; v_n1 : N1Store; v_errors : ErrorEvents.ErrorEventStore;
  v_tracer : TracerStore; v_app : AppAnalytics.AppAnalyticsStore; v_heatmap : Heatmap.HeatmapStore; v_users : UserRegistry;
  v_rules : list Rules.CompiledRule; v_rewriter : list Rewriter.CompiledRule;
  v_pool : BackendPool C; v_pg_router : option (BackendPool C); v_pg_pool : option (BackendPool C * Z); v_copy_active : Z;
  v_config : Proxy.ProxyConfig; v_dashboard_username : bytes; v_dashboard_password : bytes
}.
Implicit Types s : ViewState.

(** ** Which protocol *)

Definition resolve_protocol s (raw : option bytes) : option bytes :=
  p ← normalized_protocol raw;
  if beq p (bs "auto") then
    Some (if Proxy.mysql_enabled (v_config s) then bs "mysql" else if Proxy.is_set (v_pg_router s) then bs "pgsql" else bs "mysql")
  else Some p.
(** [enabled] as the pages on queries and statistics have it. *)
Definition listens s (protocol : bytes) : bool :=
  if beq protocol (bs "mysql") then negb (beq (trim (Proxy.listen_addr (v_config s))) []) else Proxy.is_set (v_pg_router s).
Inductive Page (A : Type) := InvalidProtocol | Shown (protocol : bytes) (enabled : bool) (data : A).
#[global] Arguments InvalidProtocol {A}.
#[global] Arguments Shown {A}.
Definition page {A} s (raw : option bytes) (data : bytes -> A) : Page A :=
  match resolve_protocol s raw with Some p => Shown p (listens s p) (data p) | None => InvalidProtocol end.

(** ** Health, counters and capabilities *)

Definition health s : Z * bytes := if v_draining s then (503, bs "draining") else (200, bs "ok").
Record StatsResponse := {
  st_connections_total : Z; st_connections_active : Z; st_queries_total : Z; st_queries_read : Z; st_queries_write : Z;
  st_transactions_killed : Z; st_queries_killed : Z; st_sqli_blocked : Z; st_whitelist_blocked : Z; st_last_reload_secs : Z
}.
Definition stats s (raw : option bytes) : Page StatsResponse :=
  let m := v_metrics s in
  page s raw (fun _ => {|
    st_connections_total := Metrics.connections_total m; st_connections_active := Metrics.connections_active m;
    st_queries_total := Metrics.queries_total m; st_queries_read := Metrics.queries_read m; st_queries_write := Metrics.queries_write m;
    st_transactions_killed := Metrics.transactions_killed m; st_queries_killed := v_queries_killed s;
    st_sqli_blocked := Metrics.sqli_blocked m; st_whitelist_blocked := Metrics.whitelist_blocked m; st_last_reload_secs := v_last_reload_secs s |}).
Record Capabilities := {
  mysql_proxy_enabled : bool; pgsql_proxy_enabled : bool; dashboard_auth_enabled : bool; mysql_runtime_backends_supported : bool;
  pgsql_runtime_backends_supported : bool; group_replication_enabled : bool
}.
Definition capabilities s : Capabilities :=
  {| mysql_proxy_enabled := Proxy.mysql_enabled (v_config s); pgsql_proxy_enabled := Proxy.is_set (v_pg_pool s);
     dashboard_auth_enabled := negb (beq (v_dashboard_username s) []) && negb (beq (v_dashboard_password s) []);
     mysql_runtime_backends_supported := true; pgsql_runtime_backends_supported := true;
     group_replication_enabled := Proxy.gr_enabled (Proxy.group_replication (Proxy.settings (v_config s))) |}.

(** ** Queries *)

Definition opt_min (a b : option Z) : option Z :=
  match a, b with Some x, Some y => Some (Z.min x y) | Some x, None => Some x | None, Some y => Some y | None, None => None end.
Definition opt_max (a b : option Z) : option Z :=
  match a, b with Some x, Some y => Some (Z.max x y) | Some x, None => Some x | None, Some y => Some y | None, None => None end.
(** The texts of times in one notation compare as the times do. *)
Definition max_last_seen (a b : option Z) : option Z :=
  match a, b with Some x, Some y => Some (if x <? y then y else x) | Some x, None => Some x | None, Some y => Some y | None, None => None end.

Record QueryAccum := {
  a_count : Z; a_total_us : Z; a_min_us : option Z; a_max_us : option Z; a_p95_us : option Z; a_p99_us : option Z; a_last_seen : option Z
}.
Definition accum_default : QueryAccum :=
  {| a_count := 0; a_total_us := 0; a_min_us := None; a_max_us := None; a_p95_us := None; a_p99_us := None; a_last_seen := None |}.
Definition add_accum (e x : QueryAccum) : QueryAccum :=
  {| a_count := i64 (a_count e + a_count x); a_total_us := i64 (a_total_us e + a_total_us x);
     a_min_us := opt_min (a_min_us e) (a_min_us x); a_max_us := opt_max (a_max_us e) (a_max_us x);
     a_p95_us := opt_max (a_p95_us e) (a_p95_us x); a_p99_us := opt_max (a_p99_us e) (a_p99_us x);
     a_last_seen := max_last_seen (a_last_seen e) (a_last_seen x) |}.
Definition upsert_acc (acc : gmap bytes QueryAccum) (kx : bytes * QueryAccum) : gmap bytes QueryAccum :=
  <[kx.1 := add_accum (default accum_default (acc !! kx.1)) kx.2]> acc.
(** A row of the database, and what the collector has gathered since. *)
Definition of_stored (r : Storage.StoredQueryStats) : bytes * QueryAccum :=
  (Storage.s_fingerprint r,
   {| a_count := Storage.s_count r; a_total_us := Storage.s_total_us r; a_min_us := Some (Storage.s_min_us r);
      a_max_us := Some (Storage.s_max_us r); a_p95_us := Some (Storage.s_p95_us r); a_p99_us := Some (Storage.s_p99_us r);
      a_last_seen := Some (Storage.s_last_seen r) |}).
Definition of_live (q : Collector.QueryStats) : bytes * QueryAccum :=
  (Collector.fingerprint q,
   {| a_count := i64 (Collector.count q); a_total_us := i64 (Collector.total_us q); a_min_us := Some (i64 (Collector.min_us q));
      a_max_us := Some (i64 (Collector.max_us q)); a_p95_us := Some (i64 (as_micros (Collector.p95 q)));
      a_p99_us := Some (i64 (as_micros (Collector.p99 q))); a_last_seen := Some (Collector.last_seen q) |}).

Record QueryRow := {
  q_fingerprint : bytes; q_count : Z; q_avg_us : Z; q_min_us : option Z; q_max_us : option Z; q_p95_us : option Z;
  q_p99_us : option Z; q_last_seen : option Z
}.
Definition query_row (kx : bytes * QueryAccum) : QueryRow :=
  let a := kx.2 in
  {| q_fingerprint := kx.1; q_count := a_count a; q_avg_us := if 0 <? a_count a then Z.quot (a_total_us a) (a_count a) else 0;
     q_min_us := a_min_us a; q_max_us := a_max_us a; q_p95_us := a_p95_us a; q_p99_us := a_p99_us a; q_last_seen := a_last_seen a |}.

Context `{MS : !MapOrder Z Storage.StoredQueryStats} `{ML : !MapOrder Z Collector.QueryStats} `{MA : !MapOrder bytes QueryAccum}.
Definition contributions (by_p95 : bool) s : list (bytes * QueryAccum) :=
  match v_storage s with
  | Some t => map (fun kr => of_stored kr.2) (if by_p95 then Storage.get_top_by_p95 200 t else Storage.get_top_by_count 200 t)
  | None => []
  end ++ map of_live (Collector.get_stats (v_collector s)).
Definition sort_key (by_p95 : bool) (r : QueryRow) : Z := if by_p95 then default 0 (q_p95_us r) else q_count r.
Definition collect_query_rows (by_p95 : bool) s : list QueryRow :=
  let acc := foldl upsert_acc ∅ (contributions by_p95 s) in
  take 50 (sort_desc (sort_key by_p95) (map query_row (iter acc))).
Definition queries_for s (p : bytes) (rows : list QueryRow) : list QueryRow :=
  if beq p (bs "pgsql") && negb (Proxy.is_set (v_pg_router s)) then [] else rows.
Definition queries s (raw : option bytes) : Page (list QueryRow) :=
  page s raw (fun p => queries_for s p (collect_query_rows false s)).
Definition slow_threshold_us s : Z := i64 (u64 (Proxy.slow_query_ms (Proxy.analytics (Proxy.settings (v_config s))) * 1000)).
Definition slow_queries s (raw : option bytes) : Page (list QueryRow) :=
  page s raw (fun p => queries_for s p
    (List.filter (fun r => slow_threshold_us s <=? default 0 (q_p95_us r)) (collect_query_rows true s))).

(** ** Pools and backends *)

Record PoolPage := { p_enabled : bool; p_pool : option PoolStats; p_backends : list BackendStat; p_copy_active : Z }.
Definition show_pool (p : BackendPool C) (copy_active : Z) : PoolPage :=
  {| p_enabled := true; p_pool := Some (pool_stats p); p_backends := backend_stats p; p_copy_active := copy_active |}.
(** [None] for an invalid protocol. *)
Definition pool_page s (raw : option bytes) : option (bytes * PoolPage) :=
  p ← resolve_protocol s raw;
  if beq p (bs "mysql") then Some (bs "mysql", show_pool (v_pool s) 0)
  else Some (bs "pgsql",
    match v_pg_router s with
    | Some pool => show_pool pool (v_copy_active s)
    | None => {| p_enabled := false; p_pool := None; p_backends := []; p_copy_active := v_copy_active s |}
    end).
Definition backends_page s (raw : option bytes) : list BackendStat :=
  match resolve_protocol s raw with
  | None => []
  | Some p => if beq p (bs "mysql") then backend_stats (v_pool s)
              else match v_pg_router s with Some pool => backend_stats pool | None => [] end
  end.

Record ClusterMemberView := {
  m_addr : bytes; m_role : bytes; m_state : bytes; m_version : option bytes; m_healthy : option bool; m_lag_ms : option Z;
  m_consecutive_failures : option Z
}.
Record ClusterProtocolView := {
  c_protocol : bytes; c_mode : bytes; c_enabled : bool; c_primary_addr : option bytes; c_failover_active : bool;
  c_patroni_check : option bool; c_members : list ClusterMemberView
}.
Definition gr_member_view (m : GrMember) : ClusterMemberView :=
  {| m_addr := gm_addr m; m_role := gm_role m; m_state := gm_state m;
     m_version := if beq (gm_version m) [] then None else Some (gm_version m); m_healthy := None; m_lag_ms := None;
     m_consecutive_failures := None |}.
Definition mysql_view s : ClusterProtocolView :=
  let members := gr_members (v_pool s) in
  let online m := beq (gm_role m) (bs "PRIMARY") && beq (gm_state m) (bs "ONLINE") in
  {| c_protocol := bs "mysql"; c_mode := (match members with [] => bs "standalone" | _ => bs "group_replication" end);
     c_enabled := listens s (bs "mysql");
     c_primary_addr := Some (match List.find online members with Some m => gm_addr m | None => primary_addr (v_pool s) end);
     c_failover_active := 0 <=? failover_idx (v_pool s); c_patroni_check := None; c_members := map gr_member_view members |}.
Definition backend_view (b : BackendStat) : ClusterMemberView :=
  {| m_addr := bst_addr b; m_role := to_uppercase (bst_role b); m_state := (if bst_healthy b then bs "ONLINE" else bs "UNHEALTHY");
     m_version := None; m_healthy := Some (bst_healthy b);
     m_lag_ms := if beq (bst_role b) (bs "replica") then Some (bst_lag_ms b) else None;
     m_consecutive_failures := Some (bst_failures b) |}.
Definition pg_view s : ClusterProtocolView :=
  let patroni := Some (Proxy.patroni_check (Proxy.pgsql (v_config s))) in
  match v_pg_router s with
  | Some pool =>
      let backends := backend_stats pool in
      let failover := 0 <=? failover_idx pool in
      {| c_protocol := bs "pgsql";
         c_mode := (if existsb (fun b => beq (bst_role b) (bs "replica")) backends || failover then bs "ha" else bs "standalone");
         c_enabled := true; c_primary_addr := Some (primary_addr pool); c_failover_active := failover; c_patroni_check := patroni;
         c_members := map backend_view backends |}
  | None =>
      {| c_protocol := bs "pgsql"; c_mode := bs "standalone"; c_enabled := false; c_primary_addr := None; c_failover_active := false;
         c_patroni_check := patroni; c_members := [] |}
  end.
(** What was asked for, and the view of each protocol that is shown. *)
Definition cluster_state s (raw : option bytes) : bytes * option ClusterProtocolView * option ClusterProtocolView :=
  let requested := default (bs "auto") (normalized_protocol raw) in
  if beq requested (bs "mysql") then (requested, Some (mysql_view s), None)
  else if beq requested (bs "pgsql") then (requested, None, Some (pg_view s))
  else (requested, Some (mysql_view s), Some (pg_view s)).

(** ** Repeated statements, users, rules *)

(** A stable sort by the one number and then by the other is a sort by both. *)
Definition n1_patterns `{!MapOrder Z N1Pattern} s : list N1Pattern :=
  sort_desc n1_connections (sort_desc max_per_conn (map snd (iter (v_n1 s)))).
Definition user_stats_page `{!MapOrder bytes MutableStats} s : list (bytes * UserStats) := UserRegistry.snapshot (v_users s).
Definition query_rules_page (rfc3339 : Z -> option bytes) s : list RuleStats := Rules.snapshot rfc3339 (v_rules s).
Record RewriteRuleStat := {
  w_match_pattern : bytes; w_replace_with : option bytes; w_add_limit : option Z; w_add_timeout_ms : option Z; w_block : bool;
  w_comment : bytes; w_hit_count : Z; w_last_match_secs : Z
}.
Definition rewrite_stat (r : Rewriter.CompiledRule) : RewriteRuleStat :=
  {| w_match_pattern := as_str (Rewriter.pattern r); w_replace_with := Rewriter.replace_with r; w_add_limit := Rewriter.add_limit r;
     w_add_timeout_ms := Rewriter.add_timeout_ms r; w_block := Rewriter.block r; w_comment := Rewriter.comment r;
     w_hit_count := Rewriter.hit_count r; w_last_match_secs := Rewriter.last_match_secs r |}.
Definition rewrite_rules_page s : list RewriteRuleStat := map rewrite_stat (v_rewriter s).

(** ** Traces, analytics, time series, alerts *)

Definition metrics_page (version : bytes) s : bytes := Metrics.render version (v_metrics s) (v_pool s) (v_pg_pool s).
Definition transactions `{!MapOrder bytes Z} (limit : option Z) (fp : option bytes) s : list TransactionTrace * list (bytes * Z) :=
  (Tracer.snapshot (Z.to_nat (Z.min 500 (default 50 limit))) fp (v_tracer s), Tracer.fingerprint_counts (v_tracer s)).
Definition analytics_page `{!MapOrder bytes AppAnalytics.DimStats} s :=
  (AppAnalytics.snapshot (AppAnalytics.by_user (v_app s)), AppAnalytics.snapshot (AppAnalytics.by_ip (v_app s)),
   AppAnalytics.snapshot (AppAnalytics.by_app (v_app s))).
Definition heatmap_page s : Heatmap.HeatmapSnapshot := Heatmap.snapshot (v_heatmap s).
Definition resolution_of (text : bytes) : Timeseries.Resolution :=
  if beq text (bs "1m") then Timeseries.Minute else if beq text (bs "1d") then Timeseries.Day else Timeseries.Hour.
(** The default resolution is an hour, the default limit a week of them. *)
Definition timeseries_page (resolution : option bytes) (limit : option Z) s : Timeseries.Resolution * list Timeseries.TsPoint :=
  let r := resolution_of (default (bs "1h") resolution) in
  (r, match v_timeseries s with Some t => Timeseries.query r (Z.to_nat (default 168 limit)) t | None => [] end).
Definition regressions_page s : list Regression.RegressionAlert := Regression.snapshot (v_regressions s).
(** Path of the certificate, path of the key, and whether the certificate is there. *)
Definition tls_cert_info (exists_ : bytes -> bool) s : option (bytes * bytes * bool) :=
  let tls := Proxy.frontend_tls (Proxy.settings (v_config s)) in
  if negb (Proxy.ft_enabled tls) || beq (Proxy.cert tls) [] then None
  else Some (Proxy.cert tls, Proxy.key tls, exists_ (Proxy.cert tls)).

(** ** Errors *)

(** The protocol to filter by, or the text that is none. *)
Definition normalize_protocol (raw : option bytes) : result bytes (option bytes) :=
  let p := to_ascii_lowercase (trim (default (bs "auto") raw)) in
  if beq p [] || beq p (bs "auto") then Ok None
  else if beq p (bs "mysql") then Ok (Some (bs "mysql"))
  else if beq p (bs "pgsql") || beq p (bs "postgres") || beq p (bs "postgresql") then Ok (Some (bs "postgres"))
  else Err p.
Record ListErrorsParams := { l_limit : option Z; l_code : option Z; l_category : option bytes; l_protocol : option bytes }.
Definition has_code (code : option Z) (e : ErrorEvents.ErrorEvent) : bool :=
  match code with Some c => ErrorEvents.code e =? c | None => true end.
Definition has_category (category : option bytes) (e : ErrorEvents.ErrorEvent) : bool :=
  match category with Some c => beq (ErrorEvents.category e) (to_uppercase c) | None => true end.
(** The limit is 100 when none is given. *)
Definition list_errors (params : ListErrorsParams) s : result bytes (bytes * list ErrorEvents.ErrorEvent) :=
  match normalize_protocol (l_protocol params) with
  | Err e => Err e
  | Ok protocol =>
      let events := ErrorEvents.list_filtered (Z.to_nat (Z.min 1000 (default 100 (l_limit params)))) protocol (v_errors s) in
      Ok (default (bs "all") protocol, List.filter (has_category (l_category params)) (List.filter (has_code (l_code params)) events))
  end.
Definition error_stats `{!MapOrder bytes (Z * Z)} `{!MapOrder Z (Z * bytes)} (now : Z) (params : ListErrorsParams) s :=
  match normalize_protocol (l_protocol params) with
  | Err e => Err e
  | Ok protocol => Ok (default (bs "all") protocol, ErrorEvents.stats_filtered now protocol (v_errors s))
  end.
End Views.

(** ** Helpers for adding up *)

Lemma i64_add_l a b : i64 (i64 a + b) = i64 (a + b).
Proof.
  unfold i64. replace ((a + 2 ^ 63) mod 2 ^ 64 - 2 ^ 63 + b + 2 ^ 63) with ((a + 2 ^ 63) mod 2 ^ 64 + b) by lia.
  rewrite Zplus_mod_idemp_l. do 2 f_equal. lia.
Qed.

(** The contributions with one fingerprint, and what they come to. *)
Definition own (cs : list (bytes * QueryAccum)) (k : bytes) : list QueryAccum :=
  map snd (List.filter (fun kx => beq kx.1 k) cs).
Definition added (xs : list QueryAccum) : QueryAccum := foldl add_accum accum_default xs.

Lemma own_snoc cs kx k : own (cs ++ [kx]) k = if beq kx.1 k then own cs k ++ [kx.2] else own cs k.
Proof.
  unfold own. rewrite List.filter_app, map_app. cbn [List.filter]. destruct (beq kx.1 k); cbn [map]; by rewrite ?app_nil_r.
Qed.
Lemma added_snoc xs x : added (xs ++ [x]) = add_accum (added xs) x.
Proof. unfold added. by rewrite foldl_app. Qed.
Lemma added_count xs : a_count (added xs) = i64 (zsum (map a_count xs)).
Proof.
  induction xs as [|x xs IH] using rev_ind; [done|]. rewrite added_snoc, map_app, zsum_app. cbn [a_count add_accum map].
  rewrite IH, i64_add_l. f_equal. unfold zsum at 3. cbn [foldr]. lia.
Qed.
Lemma added_total xs : a_total_us (added xs) = i64 (zsum (map a_total_us xs)).
Proof.
  induction xs as [|x xs IH] using rev_ind; [done|]. rewrite added_snoc, map_app, zsum_app. cbn [a_total_us add_accum map].
  rewrite IH, i64_add_l. f_equal. unfold zsum at 3. cbn [foldr]. lia.
Qed.

Lemma upserted cs k : foldl upsert_acc ∅ cs !! k = match own cs k with [] => None | xs => Some (added xs) end.
Proof.
  induction cs as [|[k' x] cs IH] using rev_ind; [done|]. rewrite foldl_app, own_snoc. cbn [foldl fst snd].
  unfold upsert_acc at 1. cbn [fst snd]. rewrite lookup_insert. destruct (beq k' k) eqn:E.
  - apply beq_true in E as ->. rewrite decide_True by done. rewrite IH. destruct (own cs k) as [|y ys]; cbn [default from_option id app]; [done|].
    change (y :: ys ++ [x]) with ((y :: ys) ++ [x]). by rewrite added_snoc.
  - rewrite decide_False; [exact IH|]. intros ->. by rewrite beq_refl in E.
Qed.

(** The row of a fingerprint. *)
Definition row_of (cs : list (bytes * QueryAccum)) (k : bytes) : QueryRow := query_row (k, added (own cs k)).

Section Rows.
Context {C : Type} `{RE : RegexEngine} `{CT : CaseTable}.
Context `{MS : !MapOrder Z Storage.StoredQueryStats} `{ML : !MapOrder Z Collector.QueryStats} `{MA : !MapOrder bytes QueryAccum}.

Lemma summed_rows cs : let rows := map query_row (iter (foldl upsert_acc ∅ cs)) in
  NoDup (map q_fingerprint rows) /\ forall r, r ∈ rows <-> own cs (q_fingerprint r) <> [] /\ r = row_of cs (q_fingerprint r).
Proof.
  intros rows. split.
  - unfold rows. rewrite map_map. exact (iter_nodup (foldl upsert_acc ∅ cs)).
  - intros r. unfold rows. rewrite list_elem_of_In, in_map_iff. split.
    + intros ([k x] & <- & Hkx%list_elem_of_In). apply iter_lookup in Hkx. rewrite upserted in Hkx. change (q_fingerprint (query_row (k, x))) with k.
      unfold row_of. destruct (own cs k) as [|y ys]; [done|]. injection Hkx as <-. split; [discriminate | done].
    + intros [Ho Hr]. exists (q_fingerprint r, added (own cs (q_fingerprint r))). split; [done|].
      apply list_elem_of_In, iter_lookup. rewrite upserted. by destruct (own cs (q_fingerprint r)).
Qed.

(** C30: The page on queries has at most fifty rows, each for a fingerprint of its own, in falling
    order of the number asked for.  A row counts what the database and the collector have for its
    fingerprint, as far as it was read, added up in 64 bits, and its mean is of the total so
    added; a fingerprint that has no row has no larger number than any row shown. *)
Theorem query_rows_exact by_p95 (s : ViewState (C := C)) :
  let cs := contributions by_p95 s in
  let rows := collect_query_rows by_p95 s in
  (length rows <= 50)%nat /\ NoDup (map q_fingerprint rows) /\
  StronglySorted (fun a b => sort_key by_p95 b <= sort_key by_p95 a) rows /\
  (forall r, r ∈ rows -> let xs := own cs (q_fingerprint r) in
     xs <> [] /\ r = row_of cs (q_fingerprint r) /\ q_count r = i64 (zsum (map a_count xs)) /\
     q_avg_us r = if 0 <? q_count r then Z.quot (i64 (zsum (map a_total_us xs))) (q_count r) else 0) /\
  (forall k, own cs k <> [] -> ~ row_of cs k ∈ rows ->
     length rows = 50%nat /\ forall r, r ∈ rows -> sort_key by_p95 (row_of cs k) <= sort_key by_p95 r).
Proof.
  intros cs rows. pose proof (summed_rows cs) as [Hn Hin]. set (all := map query_row (iter (foldl upsert_acc ∅ cs))) in *.
  set (sorted := sort_desc (sort_key by_p95) all). change rows with (take 50 sorted).
  pose proof (sort_desc_sorted (sort_key by_p95) all) as Hs. pose proof (sort_desc_perm (sort_key by_p95) all) as Hp.
  fold sorted in Hs, Hp. rewrite <- (take_drop 50 sorted) in Hs. split_and!.
  - rewrite length_take. lia.
  - rewrite <- Hp in Hn. rewrite <- (take_drop 50 sorted), map_app in Hn. by apply list.NoDup_app in Hn as [Hn _].
  - by apply StronglySorted_app_1_l in Hs.
  - intros r Hr xs. assert (r ∈ all) as Ha by (rewrite <- Hp, <- (take_drop 50 sorted); apply elem_of_app; by left).
    apply Hin in Ha as [Ho Hr']. split_and!; [exact Ho | exact Hr' | |]; rewrite Hr' at 1.
    + unfold row_of. cbn [query_row q_count snd]. apply added_count.
    + unfold row_of. cbn [query_row q_avg_us snd]. rewrite Hr'. cbn [q_count row_of query_row snd q_fingerprint fst].
      change (q_fingerprint (row_of cs (q_fingerprint r))) with (q_fingerprint r). by rewrite added_total.
  - intros k Ho Hk. assert (row_of cs k ∈ all) as Ha by (by apply Hin).
    rewrite <- Hp, <- (take_drop 50 sorted) in Ha. apply elem_of_app in Ha as [Ha|Ha]; [done|]. split.
    + rewrite length_take. destruct (drop 50 sorted) eqn:E; [by apply not_elem_of_nil in Ha|].
      pose proof (length_drop sorted 50) as Hl. rewrite E in Hl. cbn [length] in Hl. lia.
    + intros r Hr. by eapply sorted_apart.
Qed.
End Rows.

(** ** Examples *)

#[local] Instance any_order {K A} `{Countable K} : MapOrder K A := list_order.
#[local] Instance no_regex : RegexEngine := {|
  Regex := bytes; Regex_new := Some; is_match _ _ := false; replace_all _ s _ := s; as_str r := r |}.
#[local] Instance ascii_cases : CaseTable := ascii_table.

(** A state with statements and errors, and nothing else to show. *)
Definition view_of (cfg : Proxy.ProxyConfig) (c : Collector.Collector) (t : option Storage.StatsTable)
    (errors : ErrorEvents.ErrorEventStore) : ViewState (C := unit) := {|
  v_metrics := Metrics.counters_new; v_queries_killed := 0; v_last_reload_secs := 0; v_draining := false; v_collector := c;
  v_storage := t; v_timeseries := None; v_regressions := Regression.store_new; v_n1 := ∅; v_errors := errors;
  v_tracer := Tracer.store_new; v_app := AppAnalytics.store_new; v_heatmap := Heatmap.new 100; v_users := ∅; v_rules := [];
  v_rewriter := []; v_pool := Metrics.small_pool; v_pg_router := None; v_pg_pool := None; v_copy_active := 0; v_config := cfg;
  v_dashboard_username := []; v_dashboard_password := [] |}.

Definition kept (i count : Z) : Storage.StoredQueryStats :=
  {| Storage.s_fingerprint := i :: bs "th statement"; Storage.s_count := count; Storage.s_total_us := count * 10; Storage.s_min_us := 5;
     Storage.s_max_us := 20; Storage.s_p95_us := 15; Storage.s_p99_us := 18; Storage.s_last_seen := 0 |}.
Definition table_of (l : list (Z * Z)) : Storage.StatsTable := list_to_map (map (fun ic => (ic.1, kept ic.1 ic.2)) l).
Definition seen (i count : Z) : Collector.QueryStats :=
  {| Collector.hash := i; Collector.fingerprint := i :: bs "th statement"; Collector.count := count; Collector.total_duration := 0;
     Collector.min_duration := 0; Collector.max_duration := 0; Collector.last_seen := 9; Collector.latencies := [];
     Collector.total_us := count * 10; Collector.min_us := 1; Collector.max_us := 9 |}.
Definition collecting (l : list (Z * Z)) : Collector.Collector :=
  {| Collector.channel := []; Collector.stats := list_to_map (map (fun ic => (ic.1, seen ic.1 ic.2)) l); Collector.receiving := true |}.
Definition no_errors : ErrorEvents.ErrorEventStore := ErrorEvents.store_new 10.
Definition shown_counts cfg c t : list (bytes * Z) :=
  map (fun r => (q_fingerprint r, q_count r)) (collect_query_rows false (view_of cfg c t no_errors)).

(** What is stored and what was gathered since are one row. *)
Example stored_and_live cfg :
  shown_counts cfg (collecting [(1, 7)]) (Some (table_of [(1, 100); (2, 50)])) =
  [(1 :: bs "th statement", 107); (2 :: bs "th statement", 50)].
Proof. by vm_compute. Qed.
(** A statement that is not among the first 200 stored is shown with what was gathered since
    alone: here 6000 runs of 6900. *)
Example stored_part_is_left_out cfg :
  nth_error (shown_counts cfg (collecting [(1000, 6000)])
    (Some (table_of ((1000, 900) :: map (fun i => (Z.of_nat i, 1000 + Z.of_nat i)) (seq 1 200))))) 0 =
  Some (1000 :: bs "th statement", 6000).
Proof. by vm_compute. Qed.

Definition failed_at (now code : Z) : ErrorEvents.ErrorEvent := ErrorEvents.event_new now code [] [] [] [] [] (f_of_int 0).
Definition after_errors cfg (evs : list ErrorEvents.ErrorEvent) : ViewState (C := unit) :=
  view_of cfg Collector.collector_new None (foldl (fun st ev => ErrorEvents.push ev st) no_errors evs).
(** The events of one code are looked for among as many of the last as are asked for. *)
Example code_sought_among_last cfg :
  let s := after_errors cfg [failed_at 1 1062; failed_at 2 1045; failed_at 3 1045] in
  let ask limit := list_errors {| l_limit := Some limit; l_code := Some 1062; l_category := None; l_protocol := None |} s in
  ask 2 = Ok (bs "all", []) /\ ask 3 = Ok (bs "all", [failed_at 1 1062]).
Proof. by vm_compute. Qed.
(** The pages call the protocol enabled when an address to listen on is configured, which is so
    unless it is blank; the page of capabilities asks [mysql_enabled]. *)
Example enabled_by_address cfg :
  Proxy.mysql_enabled cfg = false -> Proxy.listen_addr cfg = bs "0.0.0.0:3307" ->
  let s := view_of cfg Collector.collector_new None no_errors in
  match stats s (Some (bs "mysql")) with Shown _ enabled _ => enabled | InvalidProtocol => false end = true /\
  mysql_proxy_enabled (capabilities s) = false.
Proof.
  intros Hm Hl s. split; [|exact Hm]. change (listens s (bs "mysql") = true). unfold listens.
  change (v_config s) with cfg. rewrite Hl. by vm_compute.
Qed.
