(* ===== verification/Grafana.v ===== *)
(** * The Grafana data source (src/src/dashboard/grafana.rs)

    What the endpoints under /grafana/ answer: the targets that can be asked for, their points,
    the alerts as annotations, and the keys and values of filters.  The parser of times is
    chrono's; a request is what serde makes of its body. *)

From Stdlib Require Import SpecFloat Sorting.Sorted.
From S2P Require Import Prelude Bytes Config Rules QueryStats Tracer UserRegistry Analytics Alerts FloatText Metrics DashboardViews.

#[local] Existing Instance Timeseries.resolution_eq.
#[local] Existing Instance Timeseries.resolution_countable.

(** [DateTime<Utc>::from_str], as the seconds since 1970. *)
Class TimeParser := { parse_iso_to_unix_secs : bytes -> option Z }.

Definition grafana_health : Z := 200.
Definition target_names : list bytes :=
  map bs ["queries"; "slow_queries"; "avg_latency_ms"; "max_latency_ms"; "connections_active"; "connections_total"; "queries_total";
          "queries_read"; "queries_write"]%string.
(** What is asked for is not looked at. *)
Definition search (_target : bytes) : list bytes := target_names.
Definition tag_keys : list (bytes * bytes) := [(bs "string", bs "metric"); (bs "string", bs "resolution")].
Definition tag_values (key : bytes) : list bytes :=
  if beq key (bs "metric") then target_names
  else if beq key (bs "resolution") then map bs ["1m"; "1h"; "1d"]%string else [].

(** ** Points *)

Record TimeRange := { from : bytes; to : bytes }.
Record QueryRequest := { range : TimeRange; max_datapoints : option Z; targets : list bytes }.
Definition default_max_datapoints : Z := 500.
Definition TWO_HOURS : Z := 2 * 3600.
Definition SEVEN_DAYS : Z := 7 * 86400.
Definition auto_resolution (range_secs max_points : Z) : Timeseries.Resolution :=
  if (range_secs <=? TWO_HOURS) && (120 <=? max_points) then Timeseries.Minute
  else if (range_secs <=? SEVEN_DAYS) && (24 <=? max_points) then Timeseries.Hour
  else Timeseries.Day.

(** The value of a point for one of the four targets kept by minute, hour and day. *)
Definition stored_value (name : bytes) : option (Timeseries.TsPoint -> f64) :=
  if beq name (bs "queries") then Some (fun p => f_of_int (Timeseries.pt_queries p))
  else if beq name (bs "slow_queries") then Some (fun p => f_of_int (Timeseries.pt_slow_queries p))
  else if beq name (bs "avg_latency_ms") then Some (fun p => f_div (Timeseries.avg_us p) (f_of_int 1000))
  else if beq name (bs "max_latency_ms") then Some (fun p => f_div (f_of_int (Timeseries.pt_max_us p)) (f_of_int 1000))
  else None.
(** The counter that one of the other targets shows. *)
Definition live_value (name : bytes) (m : Metrics.Counters) : option Z :=
  if beq name (bs "connections_active") then Some (Metrics.connections_active m)
  else if beq name (bs "connections_total") then Some (Metrics.connections_total m)
  else if beq name (bs "queries_total") then Some (Metrics.queries_total m)
  else if beq name (bs "queries_read") then Some (Metrics.queries_read m)
  else if beq name (bs "queries_write") then Some (Metrics.queries_write m)
  else None.
Definition datapoint (value : Timeseries.TsPoint -> f64) (p : Timeseries.TsPoint) : f64 * f64 :=
  (value p, f_of_int (i64 (Timeseries.bucket_unix p * 1000))).
(** A value and the milliseconds since 1970, for each point of a target. *)
Definition datapoints (resolution : Timeseries.Resolution) (from_unix to_unix limit now_ms : Z) (t : option Timeseries.Table)
    (m : Metrics.Counters) (name : bytes) : list (f64 * f64) :=
  match stored_value name with
  | Some value =>
      match t with
      | None => []
      | Some t => map (datapoint value) (Timeseries.query_range resolution from_unix to_unix (Z.to_nat limit) t)
      end
  | None => match live_value name m with Some v => [(f_of_int v, f_of_int now_ms)] | None => [] end
  end.

Section Endpoints.
Context {C : Type} `{RE : RegexEngine} `{TP : TimeParser}.
Implicit Types s : ViewState (C := C).

(** The bounds of a range; where they cannot be read, from the beginning until now. *)
Definition bounds (now : Z) (r : TimeRange) : Z * Z :=
  (default 0 (parse_iso_to_unix_secs (from r)), default now (parse_iso_to_unix_secs (to r))).
Definition query (now now_ms : Z) (req : QueryRequest) s : list (bytes * list (f64 * f64)) :=
  let '(from_unix, to_unix) := bounds now (range req) in
  let limit := default default_max_datapoints (max_datapoints req) in
  let resolution := auto_resolution (Z.max (i64 (to_unix - from_unix)) 1) limit in
  map (fun t => (t, datapoints resolution from_unix to_unix limit now_ms (v_timeseries s) (v_metrics s) t)) (targets req).

(** ** Annotations *)

Record Annotation := { an_name : bytes; an_time : Z; an_title : bytes; an_tags : list bytes; an_text : bytes }.
Definition kind_str (k : Regression.AlertKind) : bytes :=
  match k with
  | Regression.LatencyRegression _ _ _ => bs "latency_regression"
  | Regression.HotKey _ _ => bs "hot_key"
  | Regression.FullScanRisk _ _ => bs "full_scan_risk"
  end.
Definition spaced (s : bytes) : bytes := map (fun b => if b =? 95 then 32 else b) s.
(** [&s[..s.len().min(n)]]: the handler panics when byte [n] is inside a character. *)
Definition cut (n : nat) (s : bytes) : option bytes := if slice_panics n s then None else Some (take n s).
Definition in_ms (us : Z) : bytes := show_fixed 1 (f_div (f_of_int us) (f_of_int 1000)) ++ bs "ms".
Definition annotation_text (k : Regression.AlertKind) : option bytes :=
  match k with
  | Regression.LatencyRegression baseline current ratio =>
      Some (bs "p95 " ++ in_ms baseline ++ bs " → " ++ in_ms current ++ bs " (+" ++
            show_fixed 0 (f_mul (f_sub ratio (f_of_int 1)) (f_of_int 100)) ++ bs "%)")
  | Regression.HotKey example_sql hit_count => (fun sql => show_u64 hit_count ++ bs "× — " ++ sql) <$> cut 120 example_sql
  | Regression.FullScanRisk reason call_count => Some (reason ++ bs " (" ++ show_u64 call_count ++ bs " calls)")
  end.
Definition annotation (name : bytes) (a : Regression.RegressionAlert) : option Annotation :=
  let kind := kind_str (Regression.details a) in
  fp ← cut 60 (Regression.a_fingerprint a);
  text ← annotation_text (Regression.details a);
  Some {| an_name := name; an_time := Regression.detected_at_ms a; an_title := bs "[" ++ spaced kind ++ bs "] " ++ fp;
          an_tags := kind :: (if Regression.resolved a then [bs "resolved"] else []); an_text := text |}.
Definition alerts_between (from_ms to_ms : Z) (l : list Regression.RegressionAlert) : list Regression.RegressionAlert :=
  List.filter (fun a => (from_ms <=? Regression.detected_at_ms a) && (Regression.detected_at_ms a <=? to_ms)) l.
(** [None] when the handler panics. *)
Definition annotations (now : Z) (r : TimeRange) (name : bytes) s : option (list Annotation) :=
  let '(from_unix, to_unix) := bounds now r in
  mapM (annotation name) (alerts_between (i64 (from_unix * 1000)) (i64 (to_unix * 1000)) (Regression.snapshot (v_regressions s))).
End Endpoints.

(** ** What a panel shows *)

(** The points of a range with their times, in the order they were kept. *)
Definition in_range (res : Timeseries.Resolution) (from_unix to_unix : Z) (t : Timeseries.Table) : list (Z * Timeseries.Row) :=
  List.filter (fun br => (from_unix <=? br.1) && (br.1 <=? to_unix)) (Timeseries.select res t).

Lemma filter_sort_perm {A} (key : A -> Z) p (l : list A) : List.filter p (sort_desc key l) ≡ₚ List.filter p l.
Proof. pose proof (sort_desc_perm key l) as H. induction H; cbn [List.filter]; [done | by destruct (p x); rewrite IHPermutation |
  destruct (p x), (p y); try done; apply Permutation_swap | by etransitivity]. Qed.

(** A panel shows the points of its range in the order of their times.  When there are more
    than it can take, those it leaves out are the latest. *)
Theorem panel_shows_earliest res from_unix to_unix limit now_ms t m name value : stored_value name = Some value ->
  exists shown rest,
    shown ++ rest ≡ₚ in_range res from_unix to_unix t /\
    StronglySorted (fun a b => a.1 <= b.1) (shown ++ rest) /\
    datapoints res from_unix to_unix limit now_ms (Some t) m name = map (fun br => datapoint value (Timeseries.point br.1 br.2)) shown /\
    (length shown <= Z.to_nat limit)%nat /\ (rest <> [] -> length shown = Z.to_nat limit).
Proof.
  intros Hv. set (sorted := List.filter (fun br => (from_unix <=? br.1) && (br.1 <=? to_unix))
    (sort_desc (fun br : Z * Timeseries.Row => - br.1) (Timeseries.select res t))).
  exists (take (Z.to_nat limit) sorted), (drop (Z.to_nat limit) sorted). rewrite take_drop. split_and!.
  - apply filter_sort_perm.
  - pose proof (sorted_filter _ (fun br => (from_unix <=? br.1) && (br.1 <=? to_unix)) _
      (sort_desc_sorted (fun br : Z * Timeseries.Row => - br.1) (Timeseries.select res t))) as Hs. fold sorted in Hs.
    induction Hs as [|x l _ IH Hx]; constructor; [exact IH|]. eapply Forall_impl; [|exact Hx]. intros y. cbn beta. lia.
  - unfold datapoints. rewrite Hv. unfold Timeseries.query_range. by rewrite map_map.
  - rewrite length_take. lia.
  - intros Hr. rewrite length_take. enough (Z.to_nat limit < length sorted)%nat by lia.
    destruct (decide (Z.to_nat limit < length sorted)%nat); [done|]. exfalso. apply Hr, drop_ge. lia.
Qed.

(** Whether the text of an alert is cut inside a character. *)
Definition cut_inside (a : Regression.RegressionAlert) : Prop :=
  slice_panics 60 (Regression.a_fingerprint a) = true \/
  exists sql n, Regression.details a = Regression.HotKey sql n /\ slice_panics 120 sql = true.
Lemma annotation_panics name a : annotation name a = None <-> cut_inside a.
Proof.
  unfold annotation, cut, cut_inside. destruct (slice_panics 60 _) eqn:E1; cbn [mbind option_bind]; [split; [by left | done]|].
  destruct (Regression.details a) as [b c r|sql n|w n] eqn:Ed; cbn [annotation_text mbind option_bind]; unfold cut.
  - split; [done|]. by intros [H|(? & ? & H & _)].
  - destruct (slice_panics 120 sql) eqn:E2; cbn [fmap option_fmap option_map mbind option_bind].
    + split; [|done]. intros _. right. by exists sql, n.
    + split; [done|]. intros [H|(sql' & n' & [= <- _] & H)]; congruence.
  - split; [done|]. by intros [H|(? & ? & H & _)].
Qed.
Lemma mapM_panics {A B} (f : A -> option B) l : mapM f l = None <-> exists x, x ∈ l /\ f x = None.
Proof.
  rewrite mapM_None, Exists_exists. split; intros (x & H1 & H2); exists x; by rewrite ?list_elem_of_In in *.
Qed.

(** The page of annotations is sent unless an alert of its range has a text that is cut inside a
    character: then none of them is. *)
Theorem annotations_panic_iff {C} `{RE : RegexEngine} `{TP : TimeParser} now r name (s : ViewState (C := C)) :
  annotations now r name s = None <->
  exists a, a ∈ alerts_between (i64 ((bounds now r).1 * 1000)) (i64 ((bounds now r).2 * 1000)) (Regression.snapshot (v_regressions s)) /\
    cut_inside a.
Proof.
  unfold annotations. destruct (bounds now r) as [f u]. rewrite mapM_panics.
  split; intros (a & H1 & H2); exists a; (split; [exact H1|]); by apply (annotation_panics name).
Qed.

(** ** Examples *)

(** Every target that is listed shows something. *)
Example listed_are_known : forallb (fun n => Proxy.is_set (stored_value n) || Proxy.is_set (live_value n counters_new)) (search []) = true.
Proof. by vm_compute. Qed.
Example values_are_listed : tag_values (bs "metric") = search [] /\ auto_resolution (6 * 86400) 100 = Timeseries.Hour.
Proof. done. Qed.

(** Seven days of hours in a panel of a hundred points: the last three days are not shown. *)
Definition week_of_hours : Timeseries.Table :=
  list_to_map (map (fun h => ((Z.of_nat h * 3600, Timeseries.Hour),
    {| Timeseries.queries := Z.of_nat h; Timeseries.slow_queries := 0; Timeseries.total_us := 0; Timeseries.max_us := 0 |})) (seq 0 168)).
Example last_days_missing :
  let points := datapoints (auto_resolution (7 * 86400) 100) 0 (7 * 86400) 100 0 (Some week_of_hours) counters_new (bs "queries") in
  length points = 100%nat /\ nth_error points 99 = Some (f_of_int 99, f_of_int (99 * 3600 * 1000)).
Proof. by vm_compute. Qed.

Definition found_at (k : Regression.AlertKind) (resolved : bool) : Regression.RegressionAlert :=
  {| Regression.id := 1; Regression.a_fingerprint := bs "select ?"; Regression.details := k; Regression.detected_at_ms := 5;
     Regression.resolved := resolved |}.
Example slower : annotation (bs "alerts") (found_at (Regression.LatencyRegression 1500 4560 (f_lit 304 100)) true) =
  Some {| an_name := bs "alerts"; an_time := 5; an_title := bs "[latency regression] select ?";
          an_tags := [bs "latency_regression"; bs "resolved"]; an_text := bs "p95 1.5ms → 4.6ms (+204%)" |}.
Proof. by vm_compute. Qed.
Example umlaut_at_the_cut : annotation (bs "alerts") (found_at (Regression.HotKey (repeat 97 119 ++ [195; 164]) 3) false) = None.
Proof. by vm_compute. Qed.

Lemma panel_shows_earliest_witness : exists shown rest,
    shown ++ rest ≡ₚ in_range Timeseries.Hour 0 86400 week_of_hours /\
    StronglySorted (fun a b => a.1 <= b.1) (shown ++ rest) /\
    datapoints Timeseries.Hour 0 86400 10 0 (Some week_of_hours) counters_new (bs "queries") =
      map (fun br => datapoint (fun p => f_of_int (Timeseries.pt_queries p)) (Timeseries.point br.1 br.2)) shown /\
    (length shown <= Z.to_nat 10)%nat /\ (rest <> [] -> length shown = Z.to_nat 10).
Proof. apply (panel_shows_earliest Timeseries.Hour 0 86400 10 0 week_of_hours counters_new (bs "queries")). reflexivity. Defined.
