(* ===== verification/Mcp.v ===== *)
(** * The MCP server of the dashboard (src/src/dashboard/mcp.rs)

    A request and its answer as JSON values; the tools that are listed and the ones that can be
    called.  The printing of a value is serde_json's. *)

From Stdlib Require Import SpecFloat.
From S2P Require Import Prelude Bytes Config Pool Rules QueryStats Analytics Alerts FloatText Metrics ConfigStore DashboardViews.

(** [serde_json::Value]; a number is an integer or a float, and an object is listed in some
    order of its keys. *)
Inductive Value :=
| Null | Bool (b : bool) | Int (z : Z) | Float (x : f64) | String (s : bytes) | Array (l : list Value)
| Object (l : list (bytes * Value)).
Definition obj (l : list (string * Value)) : Value := Object (map (fun kv => (bs kv.1, kv.2)) l).
Definition text (s : string) : Value := String (bs s).
(** [json!] of a float that is not a number, and of an option. *)
Definition of_f64 (x : f64) : Value := match x with S754_nan | S754_infinity _ => Null | _ => Float x end.
Definition of_option {A} (f : A -> Value) (o : option A) : Value := match o with Some a => f a | None => Null end.
Definition get (k : string) (v : Value) : option Value :=
  match v with Object l => snd <$> List.find (fun kv => beq kv.1 (bs k)) l | _ => None end.
Definition as_str (v : Value) : option bytes := match v with String s => Some s | _ => None end.
Definition as_u64 (v : Value) : option Z := match v with Int z => if (0 <=? z) && (z <? 2 ^ 64) then Some z else None | _ => None end.

(** [to_string_pretty]; [{:?}] of a text and of a float; and the notation of times. *)
Class Printing := {
  to_string_pretty : Value -> bytes; debug_str : bytes -> bytes; debug_f64 : f64 -> bytes; time_text : Z -> bytes;
  db_error_text : DbError -> bytes
}.

Definition RpcError : Type := Z * bytes.
Definition ERR_METHOD_NOT_FOUND : Z := -32601.
Definition ERR_INVALID_PARAMS : Z := -32602.
Definition ERR_INTERNAL : Z := -32603.
Abbreviation Tool := (SE (option Db) RpcError).

Definition mcp_initialize (version : bytes) : Value :=
  obj [("protocolVersion", text "2024-11-05"); ("capabilities", obj [("tools", obj [])]);
       ("serverInfo", obj [("name", text "turbineproxy"); ("version", String version)])]%string.

(** ** The tools that are listed *)

Definition tool (name description : string) (properties : list (string * Value)) : Value :=
  obj [("name", text name); ("description", text description);
       ("inputSchema", obj [("type", text "object"); ("properties", obj properties)])]%string.
Definition integer (description : string) : Value := obj [("type", text "integer"); ("description", text description)]%string.
Definition listed_tools : list Value := [
  tool "turbineproxy_stats" "Return overall proxy runtime statistics: connection counts, query counts, latency percentiles, and security counters." [];
  tool "turbineproxy_top_queries" "Return the top N query fingerprints ranked by execution count or P95 latency."
    [("limit", integer "Maximum number of results (default 20).");
     ("order", obj [("type", text "string"); ("enum", Array [text "count"; text "p95"]); ("description", text "Sort field (default 'count').")])];
  tool "turbineproxy_n1_patterns" "Return detected N+1 query patterns. Each entry includes the query fingerprint, the number of distinct connections that triggered it, and the maximum repetition count in a single connection." [];
  tool "turbineproxy_regressions" "Return active and recently resolved query regression alerts (latency spikes, hot-key reads, etc.)." [];
  tool "turbineproxy_backends" "Return the current pool status: primary and replica counts, health, and per-backend query counters." [];
  tool "turbineproxy_query_rules" "Return the list of active query routing / rewrite rules stored in the runtime config store." [];
  tool "turbineproxy_errors" "Return the most recent backend error events captured by the proxy."
    [("limit", integer "Maximum number of events to return (default 20).")]]%string.
Definition mcp_tools_list : Value := obj [("tools", Array listed_tools)]%string.

(** ** The tools *)

Section Tools.
Context {C : Type} `{RE : RegexEngine} `{ENV : Environment} `{SQ : Sqlite} `{PR : Printing}.
Context `{MS : !MapOrder Z Storage.StoredQueryStats} `{MN : !MapOrder Z N1Pattern}.
Implicit Types s : ViewState (C := C).

Definition percentiles (h : Histogram.QueryHistogram) : Value :=
  let '(counts, _, count) := Histogram.snapshot h in
  let p pct := of_option of_f64 (Metrics.approx_percentile_ms counts count (f_of_int pct)) in
  obj [("p50", p 50); ("p95", p 95); ("p99", p 99)]%string.
Definition tool_stats s : Value :=
  let m := v_metrics s in
  obj [("connections", obj [("total", Int (Metrics.connections_total m)); ("active", Int (Metrics.connections_active m))]);
       ("queries", obj [("total", Int (Metrics.queries_total m)); ("read", Int (Metrics.queries_read m));
                        ("write", Int (Metrics.queries_write m)); ("killed", Int (v_queries_killed s))]);
       ("transactions_killed", Int (Metrics.transactions_killed m));
       ("security", obj [("sqli_blocked", Int (Metrics.sqli_blocked m)); ("whitelist_blocked", Int (Metrics.whitelist_blocked m))]);
       ("latency_read_ms", percentiles (Metrics.read_hist m)); ("latency_write_ms", percentiles (Metrics.write_hist m))]%string.

Definition limit_of (args : Value) : nat := Z.to_nat (default 20 (v ← get "limit" args; as_u64 v)).
Definition ms (us : Z) : Value := Int (Z.quot us 1000).
Definition top_query (r : Storage.StoredQueryStats) : Value :=
  obj [("fingerprint", String (Storage.s_fingerprint r)); ("count", Int (Storage.s_count r)); ("total_ms", ms (Storage.s_total_us r));
       ("min_ms", ms (Storage.s_min_us r)); ("max_ms", ms (Storage.s_max_us r)); ("p95_ms", ms (Storage.s_p95_us r));
       ("p99_ms", ms (Storage.s_p99_us r)); ("last_seen", String (time_text (Storage.s_last_seen r)))]%string.
Definition tool_top_queries (args : Value) s : Value :=
  let order := default (bs "count") (v ← get "order" args; as_str v) in
  match v_storage s with
  | None => Array []
  | Some t =>
      let rows := if beq order (bs "p95") then Storage.get_top_by_p95 (limit_of args) t else Storage.get_top_by_count (limit_of args) t in
      Array (map (fun kr => top_query kr.2) rows)
  end.
Definition tool_n1_patterns s : Value :=
  Array (map (fun p => obj [("fingerprint", String (n1_fingerprint p)); ("connections", Int (n1_connections p));
                            ("max_per_conn", Int (max_per_conn p)); ("last_seen", String (time_text (n1_last_seen p)))]%string) (n1_patterns s)).
(** The derived [Debug]. *)
Definition debug_kind (k : Regression.AlertKind) : bytes :=
  match k with
  | Regression.LatencyRegression b c r =>
      bs "LatencyRegression { baseline_p95_us: " ++ show_u64 b ++ bs ", current_p95_us: " ++ show_u64 c ++ bs ", ratio: " ++ debug_f64 r ++ bs " }"
  | Regression.HotKey sql n => bs "HotKey { example_sql: " ++ debug_str sql ++ bs ", hit_count: " ++ show_u64 n ++ bs " }"
  | Regression.FullScanRisk why n => bs "FullScanRisk { reason: " ++ debug_str why ++ bs ", call_count: " ++ show_u64 n ++ bs " }"
  end.
Definition tool_regressions s : Value :=
  Array (map (fun a => obj [("id", Int (Regression.id a)); ("fingerprint", String (Regression.a_fingerprint a));
                            ("detected_at_ms", Int (Regression.detected_at_ms a)); ("resolved", Bool (Regression.resolved a));
                            ("details", String (debug_kind (Regression.details a)))]%string) (Regression.snapshot (v_regressions s))).
Definition backend_value (role : string) (p : ConnectionPool C) : Value := obj [("addr", String (addr (config p))); ("role", text role)]%string.
Definition tool_backends s : Value :=
  let pool := v_pool s in
  obj [("replica_count", Int (Z.of_nat (length (replicas pool)))); ("primary", backend_value "primary" (primary pool));
       ("replicas", Array (map (backend_value "replica") (replicas pool)))]%string.
Definition rule_value (r : RuleRow) : Value :=
  obj [("id", Int (ru_id r)); ("priority", Int (ru_priority r)); ("match_pattern", of_option String (ru_match_pattern r));
       ("match_digest", of_option String (ru_match_digest r)); ("destination", String (ru_destination r));
       ("destination_hostgroup", of_option Int (ru_destination_hostgroup r)); ("cache_ttl_secs", Int (ru_cache_ttl_secs r));
       ("rollout_pct", of_option Int (ru_rollout_pct r)); ("enabled", Bool (ru_enabled r))]%string.
Definition tool_query_rules : Tool Value := fun st =>
  match st with
  | None => (Ok (Array []), None)
  | Some d =>
      let (r, d') := list_rules d in
      (match r with Ok rows => Ok (Array (map rule_value rows)) | Err e => Err (ERR_INTERNAL, db_error_text e) end, Some d')
  end.
Definition event_value (e : ErrorEvents.ErrorEvent) : Value :=
  obj [("ts", Int (ErrorEvents.ts e)); ("code", Int (ErrorEvents.code e)); ("category", String (ErrorEvents.category e));
       ("message", String (ErrorEvents.message e)); ("fingerprint", String (ErrorEvents.fingerprint e));
       ("backend_addr", String (ErrorEvents.backend_addr e)); ("client_ip", String (ErrorEvents.client_ip e));
       ("user", String (ErrorEvents.user e)); ("duration_ms", of_f64 (ErrorEvents.duration_ms e));
       ("protocol", String (ErrorEvents.protocol e))]%string.
Definition tool_errors (args : Value) s : Value := Array (map event_value (ErrorEvents.list_events (limit_of args) (v_errors s))).

(** ** Requests *)

Definition content_of (v : Value) : Value :=
  obj [("content", Array [obj [("type", text "text"); ("text", String (to_string_pretty v))]])]%string.
Definition call_tool (name : bytes) (args : Value) s : Tool Value :=
  if beq name (bs "turbineproxy_stats") then mret (tool_stats s)
  else if beq name (bs "turbineproxy_top_queries") then mret (tool_top_queries args s)
  else if beq name (bs "turbineproxy_n1_patterns") then mret (tool_n1_patterns s)
  else if beq name (bs "turbineproxy_regressions") then mret (tool_regressions s)
  else if beq name (bs "turbineproxy_backends") then mret (tool_backends s)
  else if beq name (bs "turbineproxy_query_rules") then tool_query_rules
  else if beq name (bs "turbineproxy_errors") then mret (tool_errors args s)
  else se_fail (ERR_METHOD_NOT_FOUND, bs "Unknown tool: " ++ name).
Definition mcp_tools_call (params : Value) s : Tool Value :=
  match v ← get "name" params; as_str v with
  | None => se_fail (ERR_INVALID_PARAMS, bs "Missing 'name' field")
  | Some name => content ← call_tool name (default (obj []) (get "arguments" params)) s; mret (content_of content)
  end.
Definition dispatch (version method : bytes) (params : Value) s : Tool Value :=
  if beq method (bs "initialize") then mret (mcp_initialize version)
  else if beq method (bs "tools/list") then mret mcp_tools_list
  else if beq method (bs "tools/call") then mcp_tools_call params s
  else se_fail (ERR_METHOD_NOT_FOUND, bs "Method not found: " ++ method).
(** The status is always 200. *)
Definition handle_mcp (version : bytes) (req : Value) s (st : option Db) : Value * option Db :=
  let id := default Null (get "id" req) in
  let method := default [] (v ← get "method" req; as_str v) in
  let params := default (obj []) (get "params" req) in
  let (r, st') := dispatch version method params s st in
  (match r with
   | Ok body => obj [("jsonrpc", text "2.0"); ("id", id); ("result", body)]
   | Err (code, msg) => obj [("jsonrpc", text "2.0"); ("id", id); ("error", obj [("code", Int code); ("message", String msg)])]
   end%string, st').
End Tools.

(** ** What is called is what is listed *)

Definition tool_names : list bytes := omap (fun v => n ← get "name" v; as_str n) listed_tools.
Lemma tool_names_are : tool_names = map bs ["turbineproxy_stats"; "turbineproxy_top_queries"; "turbineproxy_n1_patterns";
  "turbineproxy_regressions"; "turbineproxy_backends"; "turbineproxy_query_rules"; "turbineproxy_errors"]%string.
Proof. by vm_compute. Qed.

Section Promises.
Context {C : Type} `{RE : RegexEngine} `{ENV : Environment} `{SQ : Sqlite} `{PR : Printing}.
Context `{MS : !MapOrder Z Storage.StoredQueryStats} `{MN : !MapOrder Z N1Pattern}.
Implicit Types s : ViewState (C := C).

Lemma query_rules_read st : exists r st', tool_query_rules st = (r, st') /\ store <$> st' = store <$> st /\
  match r with Ok _ => True | Err e => exists d, e = (ERR_INTERNAL, db_error_text d) end.
Proof.
  destruct st as [d|]; [|by exists (Ok (Array [])), None]. unfold tool_query_rules, list_rules, query, sql.
  destruct (sql_error (statements d)) as [e|]; eexists _, _; (split; [reflexivity|]); split; try done. by eexists.
Qed.

(** Each tool that is listed is answered, unless the database of the rules cannot be read; and a
    name that is not listed is the error for unknown methods. *)
Theorem tools_called_are_listed name args s st :
  if decide (name ∈ tool_names) then
    exists r st', call_tool name args s st = (r, st') /\
      match r with
      | Ok _ => True
      | Err e => name = bs "turbineproxy_query_rules" /\ exists d, e = (ERR_INTERNAL, db_error_text d)
      end
  else call_tool name args s st = (Err (ERR_METHOD_NOT_FOUND, bs "Unknown tool: " ++ name), st).
Proof.
  rewrite tool_names_are. unfold call_tool.
  repeat match goal with
         | |- context [if beq name ?t then _ else _] =>
             let E := fresh "E" in destruct (beq name t) eqn:E; [apply beq_true in E as ->; rewrite decide_True by
               (apply (bool_decide_unpack _); by vm_compute)|]
         end.
  6: { destruct (query_rules_read st) as (r & st' & H & _ & He). exists r, st'. split; [exact H|]. destruct r; [done|]. by split. }
  1-6: by eexists (Ok _), st.
  rewrite decide_False; [done|]. intros Hin. rewrite list_elem_of_In in Hin. cbn [map In] in Hin.
  repeat destruct Hin as [<-|Hin]; try done; by rewrite beq_refl in *.
Qed.

Lemma called_store name args s st : store <$> snd (call_tool name args s st) = store <$> st.
Proof.
  unfold call_tool. repeat case_match; try done. destruct (query_rules_read st) as (r & st' & Hr & Hs & _). by rewrite Hr.
Qed.
Lemma dispatched_store version method params s st : store <$> snd (dispatch version method params s st) = store <$> st.
Proof.
  unfold dispatch. repeat case_match; try done. unfold mcp_tools_call. destruct (v ← get "name" params; as_str v) as [name|]; [|done].
  pose proof (called_store name (default (obj []) (get "arguments" params)) s st) as Hc.
  unfold mbind at 1, se_bind. by destruct (call_tool _ _ s st) as [[v|e] st'].
Qed.

(** The answer to a request names its id and has either a result or an error, the result that
    the method asked for has; the configuration is only read. *)
Theorem one_answer_per_request version req s st :
  let (v, st') := handle_mcp version req s st in
  let '(r, _) := dispatch version (default [] (v ← get "method" req; as_str v)) (default (obj []) (get "params" req)) s st in
  get "jsonrpc" v = Some (text "2.0") /\ get "id" v = Some (default Null (get "id" req)) /\ store <$> st' = store <$> st /\
  match r with
  | Ok body => get "result" v = Some body /\ get "error" v = None
  | Err (code, msg) => get "result" v = None /\ exists e, get "error" v = Some e /\ get "code" e = Some (Int code) /\ get "message" e = Some (String msg)
  end.
Proof.
  unfold handle_mcp. set (params := default (obj []) _). set (method := default [] _). set (id := default Null _).
  pose proof (dispatched_store version method params s st) as Hs.
  destruct (dispatch version method params s st) as [[body|[code msg]] st']; 
    (split; [reflexivity|]; split; [reflexivity|]; split; [exact Hs|]).
  - split; reflexivity.
  - split; [reflexivity|]. eexists. split_and!; reflexivity.
Qed.
End Promises.

(** ** Examples *)

#[local] Existing Instance any_order.
#[local] Existing Instance no_regex.
#[local] Instance plain_printing : Printing := {|
  to_string_pretty _ := []; debug_str s := s; debug_f64 _ := []; time_text := show_u64; db_error_text _ := bs "unreadable" |}.
#[local] Instance unreadable : Sqlite := {|
  sql_error _ := Some (bs "disk I/O error"); id_gap _ := 0%nat; current_timestamp _ := []; fresh_nonce _ := []; json_text _ := [] |}.

(** A notification has no id; it is answered all the same, with an error. *)
Example notification_is_answered version (s : ViewState (C := unit)) :
  handle_mcp version (obj [("jsonrpc", text "2.0"); ("method", text "notifications/initialized")]%string) s None =
  (obj [("jsonrpc", text "2.0"); ("id", Null);
        ("error", obj [("code", Int (-32601)); ("message", text "Method not found: notifications/initialized")])]%string, None).
Proof. by vm_compute. Qed.
Example rules_unreadable (s : ViewState (C := unit)) :
  fst (call_tool (bs "turbineproxy_query_rules") (obj []) s (Some {| store := store_new; statements := 0 |})) =
  Err (-32603, bs "unreadable").
Proof. by vm_compute. Qed.
(** Of the backends nothing but the addresses and the roles is told. *)
Example only_addresses cfg :
  tool_backends (view_of cfg Collector.collector_new None no_errors) =
  obj [("replica_count", Int 1); ("primary", obj [("addr", text "p:3306"); ("role", text "primary")]);
       ("replicas", Array [obj [("addr", text "r:3306"); ("role", text "replica")]])]%string.
Proof. by vm_compute. Qed.
(** The names that the documentation gives the tools. *)
Example documented_names_unknown (s : ViewState (C := unit)) :
  Forall (fun name => fst (call_tool name (obj []) s None) = Err (-32601, bs "Unknown tool: " ++ name))
    (map bs ["get_pool_stats"; "get_slow_queries"; "get_n1_candidates"; "get_index_advice"; "get_backend_health"; "get_query_rules";
             "get_rewrite_rules"]%string).
Proof. repeat apply List.Forall_cons; try apply List.Forall_nil; by vm_compute. Qed.
